(* ===== verification/_CoqProject ===== *)
-Q . S2P
Prelude.v
RustStr.v
TextLines.v
TextFind.v
F64.v
Topic.v
Node.v
Frame.v
Sequence.v
Ack.v
Broker.v
Registry.v
Transaction.v
Window.v
Breaker.v
BreakerConc.v
RetryPolicy.v
DoomLoop.v
Json.v
LoopState.v
GoalLoop.v
Permission.v
Autonomic.v
Param.v
Reflex.v
TokenBudget.v
Kernel.v
KernelInv.v
Backpressure.v
HunkDiff.v
HunkTracker.v
HunkInv.v
HunkLoc.v
HunkQuery.v
Compaction.v
ToolOutput.v
CompactSummary.v
CompactHistory.v
StdPath.v
Fs.v
PathGuard.v
ToolFormat.v
FileTools.v
FileToolsInv.v
FileTxn.v
Sandbox.v
ToolBridge.v
HookRules.v
EnvExpand.v
HookEvents.v
HookConfig.v
HookDispatch.v
HookUrl.v
ToolNode.v
PlanExec.v
ScheduleLoop.v
ProactiveLoop.v
SamplerRetry.v
Router.v
SamplerNode.v
LockOrder.v
Checkpoint.v
Embedding.v
Conversation.v
ChatRequest.v
ChatState.v
ChatInv.v
ChatCompaction.v
ShellWords.v
ShellTree.v
PermissionRules.v
PermissionPolicy.v
ShellAccess.v
ShellLinks.v
