(* ===== verification/Prelude.v ===== *)
(** * Verification of the ccode agent core

    ccode is a terminal coding agent.  Its core library, [ccore]
    (src/crates/codegen/ccore/src), is a set of nodes (thinker, sampler, tool,
    state, tui, acp) joined by a message bus: a kernel keeps a registry and a
    broker, receives three-frame messages from the nodes, checks their sequence
    numbers, handles the system topics itself and forwards the rest to the
    nodes subscribed to a matching pattern.  The sampler node asks the language
    model providers, the tool node runs tools on the user's files after hooks,
    permission mode, sandbox and permission check.  An agent runs state machines
    (turn, goal, plan, schedule and proactive loops) guarded by a loop detector.
    Around the core: the circuit breaker (src/crates/common/
    ccode-circuit-breaker/src), the tracker of the agent's changes
    (src/crates/codegen/ccode-hunk/src), the compaction of conversations
    (src/crates/common/ccode-compaction/src), the hooks
    (src/crates/codegen/ccode-hooks/src), the actor that owns the
    conversation of a chat (src/crates/codegen/ccode-chat/src, over the types of
    src/crates/codegen/ccode-sampling-types/src) and the managed permission
    policy of the workspace (src/crates/codegen/ccode-workspace/src/permission).  This library models these parts as
    executable definitions translated from the sources, and proves what makes
    them correct, or what is wrong with them.

    ** Files

    General: this file (machine integers, results, tactics), [RustStr]
    (strings, sorting, hash map iteration), [TextLines] and [TextFind] (UTF-8
    text: lines, searching, trimming, numbers), [F64] (IEEE doubles), [Json]
    ([serde_json::Value]), [StdPath] and [Fs] (Unix paths and a file system with
    symbolic links and faults).

    The bus:
    - [Topic] (message/topic.rs): the depth-limited matcher is exactly the
      declarative wildcard semantics within its limit of 100 segments.
    - [Node] (node/mod.rs): node types; a [NodeId] is a string.
    - [Frame] (message/frame.rs): the three-frame codec, and its round trip.
    - [Sequence] (message/sequence.rs): the verdict on a number is a function
      of the numbers seen since the reset.
    - [Ack] (message/ack.rs): each message is in exactly one of pending,
      acknowledged and failed.
    - [Broker], [Registry], [Transaction] (kernel/broker.rs, registry.rs,
      health.rs, transaction.rs): the tables, their invariant, exact routing
      and discovery for any hash order, removal of stale nodes, and rollback, up
      to an equivalence of brokers in which a missing entry is an empty one.
    - [Autonomic], [Param], [Reflex], [TokenBudget] (kernel/self_healing.rs,
      autonomic.rs, reflex.rs, experience.rs, message/param.rs,
      sampler/token_budget.rs).
    - [Kernel], [KernelInv] (kernel/mod.rs): all arms of [handle_incoming] and
      the timers over these components, in a state, output and error monad; the
      tables stay together whatever arrives and whatever fails, messages reach
      exactly their subscribers.
    - [Backpressure] (kernel/backpressure.rs): the token bucket, alone and with
      its accesses interleaved: two bounds, and the race between them.
    - [LockOrder] (kernel/lock_order.rs): the order and its check; threads,
      which are the specification, that keep to it do not deadlock; the check
      does not see a deadlock.

    The circuit breaker:
    - [Window] (window.rs): the sliding window is the recent history.
    - [Breaker] (breaker.rs, config.rs, state.rs, observer.rs): the methods as
      programs over atomic accesses; run without interference they refine a
      specification with no atomics, bound the probes and recover.
    - [BreakerConc]: the same programs interleaved, with the bound that survives
      and two races.
    - [RetryPolicy] (retry_policy.rs, registry.rs).

    The agent:
    - [DoomLoop], [LoopState] (agent/doom_loop.rs, loop_state.rs): detection and
      counters are functions of the history.
    - [GoalLoop] (agent/goal_loop.rs): every goal ends, with a bound.
    - [PlanExec] (agent/plan_execute.rs): a plan with distinct steps is executed
      to an end, and the final status says why.
    - [ScheduleLoop], [ProactiveLoop] (agent/schedule_loop.rs,
      proactive_loop.rs): bounds on executions, the round of repairs.

    The sampler:
    - [SamplerRetry] (sampler/retry.rs): classes of errors and their waits.
    - [Router] (sampler/router.rs): the search for a provider is exact for any
      hash order; rate limits over time.
    - [SamplerNode] (node/sampler.rs): composition of the two with streams and
      cancellation; requests end after one round, and why that is so.

    The tools:
    - [Permission] (tools/permission.rs): what is allowed, exactly.
    - [PathGuard], [ToolFormat] (tools/path_validator.rs, gitignore_filter.rs,
      output_formatter.rs).
    - [FileTools], [FileToolsInv] (tools/builtin.rs, read_tracker.rs): read,
      write and edit: all or nothing under every fault, only files read before,
      exact replacement.
    - [FileTxn], [Checkpoint] (tools/file_transaction.rs, checkpoint.rs):
      rollback restores; rollback by stash does not.
    - [Sandbox], [ToolBridge] (tools/sandbox.rs, bridge.rs): what runs, how
      often.
    - [ToolNode] (node/tool.rs, node/transport.rs): a call through hooks, mode
      and bridge in the loop of the node.

    The hooks:
    - [HookRules] (permission_rules.rs, permission_chain.rs): the glob matcher
      against a declarative semantics, the chain of decisions.
    - [EnvExpand] (env_expand.rs, runner/command.rs), [HookEvents] (event.rs,
      matcher.rs), [HookConfig] (config.rs, discovery.rs, trust.rs): parsing,
      the registry and the disabled hooks.
    - [HookDispatch] (dispatcher.rs, runner/): a call is blocked exactly when a
      hook or the chain denies it; stop hooks.
    - [HookUrl] (runner/http.rs): the address check.

    The hunk tracker: [HunkDiff], [HunkTracker] (diff.rs, actor/): hunks and
    commands; [HunkInv]: identifiers, turn index, acceptance and rejection;
    [HunkLoc] (loc/): attribution of lines; [HunkQuery]: summaries, patches and
    transfer of snapshots.

    Compaction: [Compaction] (select.rs, intra_compaction/trigger.rs): calls and
    results stay together; [ToolOutput] (budget.rs, snip.rs, micro_compact.rs,
    cache_aware.rs); [CompactSummary] (code_compaction/summary.rs, failure.rs):
    no control token survives; [CompactHistory] (history/filter.rs,
    context_collapse.rs): queries survive.

    The memory: [Embedding] (memory/embedding.rs, mmr.rs): the vector index, the
    exact nearest neighbours, the greedy diverse selection and what a NaN score
    does to it.

    The chat:
    - [Conversation] (conversation.rs of the sampling types): the items, and the
      repair of dangling, duplicated and displaced tool results, proved equal to
      a declarative specification of the repaired history.
    - [ChatRequest] (actor/request_builder.rs): pruning of tool results, the budget of
      image bytes, the memory reminder that is replaced and never accumulates.
    - [ChatState] (actor/, usage, ccode-tokens): the state of the actor, all its
      commands and queries, and the building of a request.
    - [ChatInv]: over every sequence of commands, the actor never panics, the
      capture of a turn is exactly what the turn pushed, the stored history is the
      memory's, every request sent has its calls answered, and the session's bill
      is the sum of what was reported; each under the conditions its comment names.
    - [ChatCompaction]: the compacted history keeps the running turn and the last
      query; fitting a budget keeps the system prompt, the newest items that fit,
      and calls and results together.

    The workspace permissions (permission/):
    - [ShellWords] (bash_command_splitting.rs): the words of one command; its
      wrappers ([env], [timeout], ...) and prefixes ([exec], ...) are peeled to the
      command that runs, or a reservation is made.
    - [ShellTree] (bash_command_splitting.rs): a script is taken apart into all of its
      commands or not at all; the soft breaks of the dialog lose no text.
    - [PermissionRules] (rules.rs, types.rs): the rule language; rules are read
      back as they are written.
    - [PermissionPolicy] (policy.rs): deny before ask before allow, and the gate
      over every command of a script, its inner scripts included.
    - [ShellAccess] (shell_access.rs, gate_preflight.rs): the gate over the files a
      script touches, the edits that need a question, and the decision
      of the preflight that puts rules and gates together.
    - [ShellLinks]: the place where the gate follows symbolic links to is where
      the kernel goes.

    ** Conventions

    An unsigned integer of width w is a [Z] whose operations wrap (the release
    profile does not check overflow); [usize] counters of collections are
    [nat].  Strings and byte vectors are byte strings.  Clock reads, UUIDs,
    random numbers, the outcome of sends, of processes and of providers are
    arguments.  A panic is [None] or [Panicked].  Loops over a [HashMap] go
    through the class [HashIter], any enumeration of the entries, so theorems
    hold for every order.  Third-party code is a class or an argument with the
    laws relied on: [RmpCodec] and [ValueCodec] (MessagePack, JSON text),
    [RegexEngine], [StrEnv] (Unicode lower-casing and the standard hash),
    [Differ] (the line differ), the host's traits [CompactionItem],
    [CompactionItemBuilder] and [MicroCompactable], [git] in [Checkpoint],
    [PolicyEnv] (glob patterns, the host of a URL, the shell parser, whose syntax
    trees are data).
    Interleavings are of sequentially consistent accesses.  Logging is left out.

    Bounds: [match_parts] recurses on a depth counter of 100, which is the
    source's own limit; [powi] runs 32 rounds of squaring, enough for any
    [i32]; scanners of text ([skip_ws], [refs_from], [split_from], [dp]) have the
    length of what they consume as fuel; the retry loop of the bridge has one
    more round than retries, a plan one more than approved steps, the goal loop
    the bound of its theorem; the removal of duplicate results has twice the
    length of the history plus one, the removal of reminder blocks the length of
    the text; a walk over a syntax tree has its number of nodes; the depths
    8, 16 and 40 of the permission gates are the source's own limits; waiting for
    a token takes at most 1001 attempts.
    Each theorem that needs the fuel to suffice proves that it does.

    ** Not modelled

    The terminal interface, the shell, the workspace of the product but for its
    permission policy (so not the permission manager, which keeps grants, asks
    the user and consults a classifier), the language model clients, MCP, telemetry and the other
    crates, which are front ends, clients of services and operating system
    access.  Of [ccore]: the transports and the remaining nodes (ZeroMQ sockets
    and tasks), start-up and shutdown of the kernel, the prompt modules and the
    memory other than the embedding index, sub-agents and the tools that run processes.  Of the other crates:
    starting processes, HTTP requests and calls of the summarising model.

    ** Order of work

    Done: the parts above.  Next: the node side of the transport (registration,
    service calls), the state node, the working and short term memory with their
    token budgets, cache statistics of the sampler, sub-agents, the retry loops
    around the summarising model, and the permission manager with its grants. *)

From Stdlib Require Export Ascii.
From stdpp Require Export base gmap strings list fin_maps sorting.
From Stdlib Require Export ZArith Lia.

(** ** Machine integers

    A Rust unsigned integer of width [w] is a [Z]; the release profile of the
    workspace does not enable overflow checks, so [+] wraps. *)
Definition u32_max : Z := (2 ^ 32 - 1)%Z.
Definition u64_max : Z := (2 ^ 64 - 1)%Z.

Definition wrap (w x : Z) : Z := (x mod 2 ^ w)%Z.
Definition u32_add (x y : Z) : Z := wrap 32 (x + y).
Definition u64_add (x y : Z) : Z := wrap 64 (x + y).
Definition u64_mul (x y : Z) : Z := wrap 64 (x * y).

(** [x.saturating_sub(y)] on unsigned integers and on durations. *)
Definition sat_sub (x y : Z) : Z := Z.max 0 (x - y).

Lemma wrap_range w x : (0 <= w)%Z -> (0 <= wrap w x < 2 ^ w)%Z.
Proof. intros Hw. apply Z.mod_pos_bound. by apply Z.pow_pos_nonneg. Qed.

Lemma wrap_small w x : (0 <= x < 2 ^ w)%Z -> wrap w x = x.
Proof. apply Z.mod_small. Qed.

Lemma u32_add_small x y : (0 <= x + y <= u32_max)%Z -> u32_add x y = (x + y)%Z.
Proof. intros ?. apply wrap_small. unfold u32_max in *. lia. Qed.

Lemma u64_add_small x y : (0 <= x + y <= u64_max)%Z -> u64_add x y = (x + y)%Z.
Proof. intros ?. apply wrap_small. unfold u64_max in *. lia. Qed.

(** ** Results *)
Inductive result (E A : Type) : Type :=
| Ok (a : A)
| Err (e : E).
Arguments Ok {E A} a.
Arguments Err {E A} e.

Definition res_bind {E A B} (r : result E A) (f : A -> result E B) : result E B :=
  match r with Ok a => f a | Err e => Err e end.

Definition is_ok {E A} (r : result E A) : bool :=
  match r with Ok _ => true | Err _ => false end.

Declare Scope rust_scope.
Delimit Scope rust_scope with rust.
Notation "'let?' x ':=' r 'in' k" := (res_bind r (fun x => k))
  (at level 10, x pattern, r at level 100, k at level 200) : rust_scope.

(** ** Tactics *)

(** Case analysis on the scrutinee of a [match] or [if] in the goal or in a
    hypothesis, keeping the equation, then simplification. *)
Ltac case_goal :=
  match goal with
  | |- context [match ?x with _ => _ end] => destruct x eqn:?
  end; simplify_eq/=.
Ltac case_hyp :=
  match goal with
  | H : context [match ?x with _ => _ end] |- _ => destruct x eqn:?
  end; simplify_eq/=.
Ltac case_all := repeat first [case_hyp | case_goal].

(** Boolean comparisons of [Z] and [nat] become propositions. *)
Ltac zbool :=
  repeat match goal with
  | H : (_ <? _)%Z = true |- _ => apply Z.ltb_lt in H
  | H : (_ <? _)%Z = false |- _ => apply Z.ltb_ge in H
  | H : (_ <=? _)%Z = true |- _ => apply Z.leb_le in H
  | H : (_ <=? _)%Z = false |- _ => apply Z.leb_gt in H
  | H : (_ =? _)%Z = true |- _ => apply Z.eqb_eq in H
  | H : (_ =? _)%Z = false |- _ => apply Z.eqb_neq in H
  | H : Nat.ltb _ _ = true |- _ => apply Nat.ltb_lt in H
  | H : Nat.ltb _ _ = false |- _ => apply Nat.ltb_ge in H
  | H : Nat.leb _ _ = true |- _ => apply Nat.leb_le in H
  | H : Nat.leb _ _ = false |- _ => apply Nat.leb_gt in H
  | H : Nat.eqb _ _ = true |- _ => apply Nat.eqb_eq in H
  | H : Nat.eqb _ _ = false |- _ => apply Nat.eqb_neq in H
  | H : bool_decide _ = true |- _ => apply bool_decide_eq_true in H
  | H : bool_decide _ = false |- _ => apply bool_decide_eq_false in H
  end.

Create HintDb ccode.
