(* ===== verification/RustStr.v ===== *)
(** * Rust strings and slices

    A Rust [String]/[&str] is the byte string [stdpp.strings.string]; the
    operations of [core::str] and of slices that the sources use are defined
    here with the lemmas the components share: [split], [starts_with],
    [ends_with], [contains], [sort_by_key] and [dedup] of [Vec]. *)

From S2P Require Import Prelude.

(** ** Searching and splitting *)

Fixpoint has_char (c : ascii) (s : string) : bool :=
  match s with
  | EmptyString => false
  | String a s' => bool_decide (a = c) || has_char c s'
  end.

(** [s.split(c).collect::<Vec<&str>>()]: never empty, one segment more than
    there are separators. *)
Fixpoint split_char (c : ascii) (s : string) : list string :=
  match s with
  | EmptyString => [EmptyString]
  | String a s' =>
      if bool_decide (a = c) then EmptyString :: split_char c s'
      else match split_char c s' with
           | h :: t => String a h :: t
           | [] => [String a EmptyString]
           end
  end.

Fixpoint starts_with (p s : string) : bool :=
  match p, s with
  | EmptyString, _ => true
  | String a p', String b s' => bool_decide (a = b) && starts_with p' s'
  | String _ _, EmptyString => false
  end.

(** [s.contains(needle)] for a string needle. *)
Fixpoint str_contains (needle s : string) : bool :=
  starts_with needle s ||
  match s with
  | EmptyString => false
  | String _ s' => str_contains needle s'
  end.

Definition ends_with (suffix s : string) : bool :=
  starts_with (String.rev suffix) (String.rev s).

(** [segments.join(sep)] for a one-character separator. *)
Fixpoint join_char (c : ascii) (l : list string) : string :=
  match l with
  | [] => EmptyString
  | [x] => x
  | x :: l' => x +:+ String c (join_char c l')
  end.

Lemma str_app_nil_l s : "" +:+ s = s.
Proof. done. Qed.

Lemma str_app_cons a s t : String a s +:+ t = String a (s +:+ t).
Proof. done. Qed.

Lemma str_app_nil_r s : s +:+ "" = s.
Proof. induction s as [|a s IH]; [done|]. by rewrite str_app_cons, IH. Qed.

Lemma str_app_assoc s1 s2 s3 : (s1 +:+ s2) +:+ s3 = s1 +:+ (s2 +:+ s3).
Proof. induction s1 as [|a s1 IH]; [done|]. by rewrite !str_app_cons, IH. Qed.

Lemma split_char_not_nil c s : split_char c s <> [].
Proof. destruct s as [|a s]; cbn; [done|]. case_bool_decide; [done|]. by destruct (split_char c s). Qed.

Lemma split_char_cons_ne c a s :
  a <> c -> exists h t, split_char c s = h :: t /\ split_char c (String a s) = String a h :: t.
Proof.
  intros Hne. pose proof (split_char_not_nil c s) as Hnn.
  destruct (split_char c s) as [|h t] eqn:E; [done|].
  exists h, t. split; [done|]. cbn. by rewrite bool_decide_eq_false_2, E.
Qed.

(** A separator-free prefix followed by a separator is the first segment. *)
Lemma split_char_app c x s :
  has_char c x = false -> split_char c (x +:+ String c s) = x :: split_char c s.
Proof.
  induction x as [|a x IH]; intros H.
  - rewrite str_app_nil_l. cbn. by rewrite bool_decide_eq_true_2.
  - cbn in H. apply orb_false_iff in H as [Ha%bool_decide_eq_false Hx].
    rewrite str_app_cons.
    cbn [split_char]. by rewrite bool_decide_eq_false_2, (IH Hx).
Qed.

Lemma split_char_none c x : has_char c x = false -> split_char c x = [x].
Proof.
  induction x as [|a x IH]; intros H; [done|].
  cbn in H. apply orb_false_iff in H as [Ha%bool_decide_eq_false Hx].
  cbn. by rewrite bool_decide_eq_false_2, (IH Hx).
Qed.

Lemma join_split c s : join_char c (split_char c s) = s.
Proof.
  induction s as [|a s IH]; [done|]. cbn [split_char].
  case_bool_decide as Ha; subst.
  - pose proof (split_char_not_nil c s).
    destruct (split_char c s) as [|h t] eqn:E; [done|]. cbn in *. by rewrite IH.
  - destruct (split_char c s) as [|h t] eqn:E.
    + by apply split_char_not_nil in E.
    + destruct t; cbn in *; by rewrite <- IH.
Qed.

Lemma split_char_inj c s1 s2 : split_char c s1 = split_char c s2 -> s1 = s2.
Proof. intros H. by rewrite <- (join_split c s1), <- (join_split c s2), H. Qed.

Lemma split_char_segments c s : Forall (fun x => has_char c x = false) (split_char c s).
Proof.
  induction s as [|a s IH]; cbn [split_char]; [by repeat constructor|].
  case_bool_decide as Ha; [by constructor|].
  destruct (split_char c s) as [|h t]; [repeat constructor|].
  - cbn. by rewrite bool_decide_eq_false_2.
  - inversion IH; subst. constructor; [|done]. cbn. by rewrite bool_decide_eq_false_2.
Qed.

Fixpoint count_char (c : ascii) (s : string) : nat :=
  match s with
  | EmptyString => 0
  | String a s' => (if bool_decide (a = c) then 1 else 0) + count_char c s'
  end.

Lemma length_split_char c s : length (split_char c s) = S (count_char c s).
Proof.
  induction s as [|a s IH]; [done|]. cbn.
  case_bool_decide; cbn; [by rewrite IH|].
  destruct (split_char c s) eqn:E; [by apply split_char_not_nil in E|]. by cbn in *.
Qed.

Lemma count_char_app c s1 s2 : count_char c (s1 +:+ s2) = count_char c s1 + count_char c s2.
Proof. induction s1 as [|a s1 IH]; [done|]. rewrite str_app_cons. cbn. rewrite IH. lia. Qed.

Lemma count_char_has c s : has_char c s = false <-> count_char c s = 0.
Proof. induction s as [|a s IH]; [done|]. cbn. case_bool_decide; cbn; [split; [done|lia]|]. done. Qed.

Lemma starts_with_spec p s : starts_with p s = true <-> exists r, s = p +:+ r.
Proof.
  revert s. induction p as [|a p IH]; intros s; [split; [by exists s|done]|].
  destruct s as [|b s]; cbn; [split; [done|by intros [r ?]]|].
  rewrite andb_true_iff, bool_decide_eq_true, IH. split.
  - intros [-> [r ->]]. by exists r.
  - intros [r Hr]. cbn in Hr. injection Hr as -> ->. split; [done|by exists r].
Qed.

Lemma str_contains_spec n s :
  str_contains n s = true <-> exists l r, s = l +:+ n +:+ r.
Proof.
  induction s as [|a s IH]; cbn [str_contains].
  - rewrite orb_false_r, starts_with_spec. split.
    + intros [r Hr]. by exists "", r.
    + intros (l & r & H). destruct l; [|done]. by exists r.
  - rewrite orb_true_iff, starts_with_spec, IH. split.
    + intros [[r Hr]|(l & r & ->)]; [by exists "", r|by exists (String a l), r].
    + intros (l & r & H). destruct l as [|b l]; [left; by exists r|].
      cbn in H. injection H as -> ->. right. by exists l, r.
Qed.

(** ** Sorting by a string key and removing consecutive duplicates

    [v.sort_by_key(f)] is a stable sort; insertion sort is one. *)
Section sort.
Context {A : Type} (key : A -> string).

Definition key_le (x y : A) : Prop := String.le (key x) (key y).

#[global] Instance key_le_dec : RelDecision key_le.
Proof. unfold RelDecision, key_le. intros x y. apply _. Defined.

Fixpoint insert_by_key (x : A) (l : list A) : list A :=
  match l with
  | [] => [x]
  | y :: l' => if decide (key_le x y) then x :: y :: l' else y :: insert_by_key x l'
  end.

Fixpoint sort_by_key (l : list A) : list A :=
  match l with
  | [] => []
  | x :: l' => insert_by_key x (sort_by_key l')
  end.

Lemma insert_by_key_perm x l : insert_by_key x l ≡ₚ x :: l.
Proof.
  induction l as [|y l IH]; [done|]. cbn. case_decide; [done|].
  rewrite IH. apply Permutation_swap.
Qed.

Lemma sort_by_key_perm l : sort_by_key l ≡ₚ l.
Proof. induction l as [|x l IH]; [done|]. cbn. by rewrite insert_by_key_perm, IH. Qed.

Lemma key_le_total x y : ~ key_le x y -> key_le y x.
Proof. intros H. unfold key_le in *. destruct (total String.le (key x) (key y)); done. Qed.

Lemma insert_by_key_sorted x l : Sorted key_le l -> Sorted key_le (insert_by_key x l).
Proof.
  induction 1 as [|y l Hs IH Hd]; cbn; [by repeat constructor|].
  case_decide as Hle; [by repeat constructor|].
  constructor; [done|]. apply key_le_total in Hle.
  destruct l as [|z l]; cbn; [by constructor|].
  inversion Hd; subst. case_decide; by constructor.
Qed.

Lemma sort_by_key_sorted l : Sorted key_le (sort_by_key l).
Proof. induction l; [constructor|]. by apply insert_by_key_sorted. Qed.
End sort.

(** [v.dedup()]/[v.dedup_by(same)]: removes an element equal to the one kept
    just before it. *)
Section dedup.
Context {A : Type} (same : A -> A -> bool).

Fixpoint dedup_from (x : A) (l : list A) : list A :=
  match l with
  | [] => [x]
  | y :: l' => if same y x then dedup_from x l' else x :: dedup_from y l'
  end.

Definition dedup_by (l : list A) : list A :=
  match l with [] => [] | x :: l' => dedup_from x l' end.
End dedup.

Definition dedup {A} `{EqDecision A} : list A -> list A :=
  dedup_by (fun a b => bool_decide (a = b)).

Definition str_lt (x y : string) : Prop := String.le x y /\ x <> y.

#[export] Instance str_lt_trans : Transitive str_lt.
Proof.
  intros x y z [H1 N1] [H2 N2]. split; [by etrans|].
  intros ->. apply N1. by apply (anti_symm String.le).
Qed.

Lemma str_lt_irrefl x : ~ str_lt x x.
Proof. by intros [_ H]. Qed.

Lemma key_le_trans {A} (key : A -> string) : Transitive (key_le key).
Proof. intros x y z ??. unfold key_le in *. by etrans. Qed.

Section dedup_sorted.
Context {A : Type} (key : A -> string).
Let same (a b : A) : bool := bool_decide (key a = key b).

Lemma dedup_from_keys x l y :
  y ∈ dedup_from same x l -> y = x \/ y ∈ l.
Proof.
  revert x. induction l as [|z l IH]; intros x; cbn; [set_solver|].
  case_match; [intros [->|?]%IH; set_solver|].
  rewrite elem_of_cons. intros [->|[->|?]%IH]; set_solver.
Qed.

Lemma dedup_from_complete x l y :
  y = x \/ y ∈ l -> exists z, z ∈ dedup_from same x l /\ key z = key y.
Proof.
  revert x y. induction l as [|z l IH]; intros x y; cbn.
  - intros [->|?]; [|set_solver]. exists x. set_solver.
  - case_match eqn:E; unfold same in E; zbool.
    + intros [->|[->|?]%elem_of_cons]; [by apply IH; left| |by apply IH; right].
      destruct (IH x x) as (w & ? & ?); [by left|]. exists w. by rewrite E.
    + intros [->|[->|?]%elem_of_cons]; [exists x; set_solver| |].
      * destruct (IH z z) as (w & ? & ?); [by left|]. exists w. set_solver.
      * destruct (IH z y) as (w & ? & ?); [by right|]. exists w. set_solver.
Qed.

Lemma dedup_from_sorted x l :
  Sorted (key_le key) (x :: l) ->
  StronglySorted (fun a b => str_lt (key a) (key b)) (dedup_from same x l).
Proof.
  intros Hs. apply Sorted_StronglySorted in Hs; [|apply key_le_trans].
  revert x Hs. induction l as [|z l IH]; intros x Hs; cbn; [by repeat constructor|].
  inversion Hs as [|?? Hs' Hx]; subst. inversion Hs' as [|?? Hs'' Hz]; subst.
  inversion Hx as [|?? Hxz Hx']; subst.
  case_match eqn:E; unfold same in E; zbool.
  - apply IH. by constructor.
  - constructor; [by apply IH|]. apply Forall_forall. intros w Hw.
    apply dedup_from_keys in Hw as [->|Hw]; [by split|].
    eapply Forall_forall in Hz; [|done].
    assert (str_lt (key x) (key z)) by (by split).
    split; [unfold key_le in *; by etrans|]. intros Heq.
    apply E. apply (anti_symm String.le); [|done]. rewrite Heq. done.
Qed.
End dedup_sorted.

Lemma sorted_lt_NoDup {A} (key : A -> string) l :
  StronglySorted (fun a b => str_lt (key a) (key b)) l -> NoDup l.
Proof.
  induction 1 as [|x l Hs IH Hx]; constructor; [|done].
  intros Hin. eapply Forall_forall in Hx; [|done]. by apply str_lt_irrefl in Hx.
Qed.

(** Two strictly sorted lists of strings with the same members are equal. *)
Lemma sorted_lt_ext (l1 l2 : list string) :
  StronglySorted str_lt l1 -> StronglySorted str_lt l2 ->
  (forall x, x ∈ l1 <-> x ∈ l2) -> l1 = l2.
Proof.
  intros H1. revert l2. induction H1 as [|x l1 Hs IH Hx]; intros l2 H2 Hiff.
  - destruct l2 as [|y l2]; [done|]. exfalso. apply (not_elem_of_nil y), Hiff. by left.
  - destruct H2 as [|y l2 Hs2 Hy]; [exfalso; apply (not_elem_of_nil x), Hiff; by left|].
    rewrite Forall_forall in Hx, Hy.
    assert (x = y) as ->.
    { assert (x ∈ y :: l2) as [->|Hin]%elem_of_cons by (apply Hiff; by (left || right)); [done|].
      assert (y ∈ x :: l1) as [->|Hin']%elem_of_cons by (apply Hiff; by (left || right)); [done|].
      exfalso. eapply (str_lt_irrefl x). etrans; [by apply Hx|by apply Hy]. }
    f_equal. apply IH; [done|]. intros z. split; intros Hz.
    + assert (z ∈ y :: l2) as [->|?]%elem_of_cons by (apply Hiff; by (left || right)); [|done].
      exfalso. by eapply str_lt_irrefl, Hx.
    + assert (z ∈ y :: l1) as [->|?]%elem_of_cons by (apply Hiff; by (left || right)); [|done].
      exfalso. by eapply str_lt_irrefl, Hy.
Qed.

(** [sort_by_key(to_string)] followed by [dedup()] on a vector of strings. *)
Definition sort_dedup (l : list string) : list string :=
  dedup (sort_by_key (fun s => s) l).

Lemma sort_dedup_sorted l : StronglySorted str_lt (sort_dedup l).
Proof.
  unfold sort_dedup, dedup, dedup_by.
  pose proof (sort_by_key_sorted (fun s => s) l) as Hs.
  destruct (sort_by_key _ l); [constructor|]. by apply (dedup_from_sorted (fun s => s)).
Qed.

Lemma elem_of_sort_dedup x l : x ∈ sort_dedup l <-> x ∈ l.
Proof.
  unfold sort_dedup, dedup, dedup_by.
  trans (x ∈ sort_by_key (fun s => s) l); [|by rewrite sort_by_key_perm].
  destruct (sort_by_key _ l) as [|y k]; [done|]. split.
  - intros [->|?]%(dedup_from_keys (fun s => s)); set_solver.
  - intros Hx%elem_of_cons.
    apply (dedup_from_complete (fun s => s)) in Hx as (z & ? & ->). done.
Qed.

(** ** Iteration over a [HashMap]

    [std::collections::HashMap] iterates in an unspecified order: [hiter] is
    any enumeration of the entries, and a theorem that mentions it holds for
    every one. *)
Class HashIter (K : Type) `{Countable K} := {
  hiter : forall {V : Type}, gmap K V -> list (K * V);
  hiter_perm : forall (V : Type) (m : gmap K V), hiter m ≡ₚ map_to_list m
}.

(** The enumeration of [gmap], an instance to evaluate with. *)
Definition gmap_iter K `{Countable K} : HashIter K :=
  {| hiter := fun V (m : gmap K V) => map_to_list m;
     hiter_perm := fun V m => Permutation_refl _ |}.

Section hash_iter.
Context {K : Type} `{Countable K} {HI : HashIter K}.

Lemma elem_of_hiter {V} (m : gmap K V) k v : (k, v) ∈ hiter m <-> m !! k = Some v.
Proof. by rewrite hiter_perm, elem_of_map_to_list. Qed.

Lemma NoDup_hiter_fst {V} (m : gmap K V) : NoDup (hiter m).*1.
Proof. rewrite hiter_perm. apply NoDup_fst_map_to_list. Qed.

Lemma list_to_map_hiter {V} (m : gmap K V) : list_to_map (hiter m) = m.
Proof.
  rewrite <- (list_to_map_to_list m) at 2. apply list_to_map_proper; [apply NoDup_hiter_fst|apply hiter_perm].
Qed.
End hash_iter.
