(* ===== verification/TextLines.v ===== *)
(** * Text: UTF-8, byte slices and lines

    The operations of [core::str] that work on the bytes of a text: UTF-8
    validity, character boundaries and the slices that panic off them,
    [lines()], [join] of lines, and the correspondence between a text whose
    lines all end with a line feed and its list of lines. *)

From S2P Require Import Prelude RustStr.
Local Open Scope Z_scope.

(** ** UTF-8: the check of [String::from_utf8] *)
Definition byte_in (lo hi : Z) (c : ascii) : bool :=
  let n := Z.of_N (N_of_ascii c) in (lo <=? n) && (n <=? hi).

Definition cont (c : ascii) : bool := byte_in 128 191 c.

Fixpoint utf8_valid (s : string) : bool :=
  match s with
  | EmptyString => true
  | String a s1 =>
      if byte_in 0 127 a then utf8_valid s1
      else match s1 with
      | EmptyString => false
      | String b s2 =>
          if byte_in 194 223 a then cont b && utf8_valid s2
          else match s2 with
          | EmptyString => false
          | String c s3 =>
              if byte_in 224 224 a then byte_in 160 191 b && cont c && utf8_valid s3
              else if byte_in 225 236 a || byte_in 238 239 a then cont b && cont c && utf8_valid s3
              else if byte_in 237 237 a then byte_in 128 159 b && cont c && utf8_valid s3
              else match s3 with
              | EmptyString => false
              | String d s4 =>
                  if byte_in 240 240 a then byte_in 144 191 b && cont c && cont d && utf8_valid s4
                  else if byte_in 241 243 a then cont b && cont c && cont d && utf8_valid s4
                  else if byte_in 244 244 a then byte_in 128 143 b && cont c && cont d && utf8_valid s4
                  else false
              end
          end
      end
  end.

Local Close Scope Z_scope.

(** [s.chars().count()]: the bytes that start a character. *)
Fixpoint chars_count (s : string) : nat :=
  match s with
  | EmptyString => 0
  | String a s' => (if cont a then 0 else 1) + chars_count s'
  end.

(** Every byte is an ASCII character. *)
Fixpoint is_ascii (s : string) : bool :=
  match s with
  | EmptyString => true
  | String a s' => byte_in 0 127 a && is_ascii s'
  end.

Lemma ascii_not_cont a : byte_in 0 127 a = true -> cont a = false.
Proof. unfold cont, byte_in. intros [??]%andb_true_iff. zbool. apply andb_false_iff. left. by apply Z.leb_gt; lia. Qed.

Lemma chars_count_ascii s : is_ascii s = true -> chars_count s = String.length s.
Proof.
  induction s as [|a s IH]; [done|]. cbn [is_ascii]. intros [Ha Hs]%andb_true_iff.
  cbn [chars_count]. rewrite (ascii_not_cont _ Ha), (IH Hs). done.
Qed.

Lemma chars_count_le s : chars_count s <= String.length s.
Proof. induction s as [|a s IH]; cbn [chars_count String.length]; [lia|]. destruct (cont a); lia. Qed.

(** ** Byte slices *)

Fixpoint str_take (n : nat) (s : string) : string :=
  match n, s with
  | S n', String a s' => String a (str_take n' s')
  | _, _ => EmptyString
  end.

Fixpoint str_drop (n : nat) (s : string) : string :=
  match n, s with
  | S n', String _ s' => str_drop n' s'
  | _, _ => s
  end.

(** [s.is_char_boundary(i)]: the ends of the text, or a byte that does not
    continue a character. *)
Definition is_char_boundary (s : string) (i : nat) : bool :=
  if i =? 0 then true
  else if String.length s <? i then false
  else match str_drop i s with EmptyString => true | String a _ => negb (cont a) end.

(** [&s[..i]] and [&s[i..]]: [None] is the panic of an index that is out of
    range or inside a character. *)
Definition slice_to (s : string) (i : nat) : option string :=
  if is_char_boundary s i then Some (str_take i s) else None.
Definition slice_from (s : string) (i : nat) : option string :=
  if is_char_boundary s i then Some (str_drop i s) else None.

Lemma str_take_drop n s : str_take n s +:+ str_drop n s = s.
Proof.
  revert s. induction n as [|n IH]; intros [|a s]; cbn [str_take str_drop]; try done.
  by rewrite str_app_cons, IH.
Qed.

Lemma length_str_take n s : String.length (str_take n s) = n `min` String.length s.
Proof. revert s. induction n; intros [|a s]; cbn [str_take String.length]; auto. by rewrite IHn. Qed.

Lemma length_str_drop n s : String.length (str_drop n s) = String.length s - n.
Proof. revert s. induction n; intros [|a s]; cbn [str_drop String.length]; auto. Qed.

Lemma length_str_app s t : String.length (s +:+ t) = String.length s + String.length t.
Proof.
  induction s as [|a s IH]; [done|].
  rewrite str_app_cons. cbn [String.length]. rewrite IH. lia.
Qed.

Lemma str_take_app s t : str_take (String.length s) (s +:+ t) = s.
Proof.
  induction s as [|a s IH]; [by destruct (_ +:+ _)|]. rewrite str_app_cons. cbn [String.length str_take]. by rewrite IH.
Qed.

Lemma str_drop_app s t : str_drop (String.length s) (s +:+ t) = t.
Proof.
  induction s as [|a s IH]; [by rewrite str_app_nil_l|]. rewrite str_app_cons. apply IH.
Qed.

Lemma ascii_boundary s i : is_ascii s = true -> i <= String.length s -> is_char_boundary s i = true.
Proof.
  intros Hs Hi. unfold is_char_boundary. destruct (i =? 0); [done|].
  destruct (Nat.ltb_spec (String.length s) i); [lia|].
  assert (is_ascii (str_drop i s) = true) as Hd.
  { clear Hi H. revert s Hs. induction i; intros [|a s]; cbn; auto. intros [_ ?]%andb_true_iff. auto. }
  destruct (str_drop i s) as [|a r]; [done|]. cbn in Hd. apply andb_true_iff in Hd as [Ha _].
  by rewrite (ascii_not_cont _ Ha).
Qed.

(** [s.floor_char_boundary(n)], also written as
    [while !s.is_char_boundary(end) { end -= 1 }]. *)
Fixpoint boundary_below (s : string) (n : nat) : nat :=
  if is_char_boundary s n then n else match n with O => 0 | S n' => boundary_below s n' end.

(** It is the highest boundary at or below the limit. *)
Lemma boundary_below_spec s n :
  boundary_below s n <= n /\ (is_char_boundary s (boundary_below s n) = true) /\
  forall k, boundary_below s n < k <= n -> is_char_boundary s k = false.
Proof.
  induction n as [|n IH]; cbn [boundary_below].
  - destruct (is_char_boundary s 0) eqn:E; split_and!; try done; intros; lia.
  - destruct (is_char_boundary s (S n)) eqn:E; [split_and!; [done|done|intros; lia]|].
    destruct IH as (H1 & H2 & H3). split_and!; [lia|done|]. intros k Hk.
    destruct (decide (k = S n)) as [->|]; [done|]. apply H3. lia.
Qed.

(** ** Lines *)

Definition nl : ascii := "010"%char.
Definition cr : ascii := "013"%char.
Definition str1 (c : ascii) : string := String c EmptyString.

(** [s.split_inclusive('\n')]: the lines with their terminators. *)
Fixpoint split_inclusive (s : string) : list string :=
  match s with
  | EmptyString => []
  | String a s' =>
      if bool_decide (a = nl) then str1 a :: split_inclusive s'
      else match split_inclusive s' with
           | [] => [str1 a]
           | x :: l => String a x :: l
           end
  end.

(** The terminator [lines()] strips from such a piece: a line feed, and the
    carriage return before it. *)
Fixpoint strip_line (s : string) : string :=
  match s with
  | EmptyString => EmptyString
  | String a s' =>
      if bool_decide (s' = EmptyString) && bool_decide (a = nl) then EmptyString
      else if bool_decide (s' = str1 nl) && bool_decide (a = cr) then EmptyString
      else String a (strip_line s')
  end.

Definition lines (s : string) : list string := strip_line <$> split_inclusive s.

(** [v.concat()] *)
Fixpoint str_concat (l : list string) : string :=
  match l with [] => EmptyString | x :: l' => x +:+ str_concat l' end.

(** [v.join(sep)] *)
Fixpoint join_str (sep : string) (l : list string) : string :=
  match l with
  | [] => EmptyString
  | [x] => x
  | x :: l' => x +:+ sep +:+ join_str sep l'
  end.

(** The text of a list of lines, each ended by a line feed. *)
Definition unlines (l : list string) : string := str_concat ((fun x => x +:+ str1 nl) <$> l).

(** A line without terminator characters. *)
Definition clean (x : string) : Prop := has_char nl x = false /\ has_char cr x = false.

(** A text with line feeds only, whose last line is terminated. *)
Definition lf_text (s : string) : bool :=
  negb (has_char cr s) && (bool_decide (s = EmptyString) || ends_with (str1 nl) s).

Lemma str_concat_app l k : str_concat (l ++ k) = str_concat l +:+ str_concat k.
Proof. induction l as [|x l IH]; [done|]. cbn. by rewrite IH, str_app_assoc. Qed.

Lemma unlines_cons x l : unlines (x :: l) = x +:+ String nl (unlines l).
Proof. unfold unlines. cbn. by rewrite str_app_assoc. Qed.

Lemma unlines_app l k : unlines (l ++ k) = unlines l +:+ unlines k.
Proof. unfold unlines. by rewrite fmap_app, str_concat_app. Qed.

Lemma has_char_app c s t : has_char c (s +:+ t) = has_char c s || has_char c t.
Proof. induction s as [|a s IH]; [done|]. rewrite str_app_cons. cbn. by rewrite IH, orb_assoc. Qed.

Lemma split_inclusive_line x s :
  has_char nl x = false -> split_inclusive (x +:+ String nl s) = (x +:+ str1 nl) :: split_inclusive s.
Proof.
  induction x as [|a x IH]; intros H; [done|]. cbn [has_char] in H.
  apply orb_false_iff in H as [Ha Hx]. rewrite str_app_cons. cbn [split_inclusive].
  rewrite Ha, IH by done. by rewrite str_app_cons.
Qed.

Lemma strip_line_clean x : clean x -> strip_line (x +:+ str1 nl) = x.
Proof.
  intros [Hn Hc]. induction x as [|a x IH]; [done|].
  cbn [has_char] in Hn, Hc. apply orb_false_iff in Hn as [Ha Hn], Hc as [Hb Hc].
  rewrite str_app_cons. cbn [strip_line]. rewrite Hb, (IH Hn Hc).
  assert (bool_decide (x +:+ str1 nl = "") = false) as ->.
  { apply bool_decide_eq_false. by destruct x. }
  by rewrite andb_false_r.
Qed.

Lemma lines_unlines l : Forall clean l -> lines (unlines l) = l.
Proof.
  unfold lines. induction 1 as [|x l Hx Hl IH]; [done|].
  rewrite unlines_cons, split_inclusive_line by apply Hx.
  by rewrite fmap_cons, IH, strip_line_clean.
Qed.

Lemma split_inclusive_unlines l :
  Forall clean l -> split_inclusive (unlines l) = (fun x => x +:+ str1 nl) <$> l.
Proof.
  induction 1 as [|x l Hx Hl IH]; [done|].
  rewrite unlines_cons, split_inclusive_line by apply Hx. by rewrite fmap_cons, IH.
Qed.

Lemma join_nl l : l <> [] -> join_char nl l +:+ str1 nl = unlines l.
Proof.
  induction l as [|x [|y l] IH]; [done|..].
  - intros _. by rewrite unlines_cons.
  - intros _. rewrite unlines_cons. change (join_char nl (x :: y :: l)) with (x +:+ String nl (join_char nl (y :: l))).
    rewrite str_app_assoc, str_app_cons, IH by done. done.
Qed.

Lemma join_nl_empty l : join_char nl l = "" <-> l = [] \/ l = [""].
Proof.
  destruct l as [|x [|y l]]; cbn.
  - split; auto.
  - split; [intros ->; auto|]. intros [?|?]; by simplify_eq.
  - split; [|intros [?|?]; by simplify_eq]. by destruct x.
Qed.

Lemma rev_app_spec s t : String.rev_app s t = String.rev s +:+ t.
Proof.
  unfold String.rev. revert t. induction s as [|a s IH]; intros t; [done|].
  cbn [String.rev_app]. by rewrite (IH (String a t)), (IH (String a "")), str_app_assoc.
Qed.

Lemma str_rev_app s t : String.rev (s +:+ t) = String.rev t +:+ String.rev s.
Proof.
  induction s as [|a s IH]; [by rewrite str_app_nil_l, str_app_nil_r|].
  rewrite str_app_cons. change (String.rev_app (s +:+ t) (str1 a) = String.rev t +:+ String.rev_app s (str1 a)).
  by rewrite !rev_app_spec, IH, str_app_assoc.
Qed.

Lemma str_rev_involutive s : String.rev (String.rev s) = s.
Proof.
  induction s as [|a s IH]; [done|]. change (String.rev (String a s)) with (String.rev_app s (str1 a)).
  by rewrite rev_app_spec, str_rev_app, IH.
Qed.

Lemma ends_with_app_char s c : ends_with (str1 c) (s +:+ str1 c) = true.
Proof.
  unfold ends_with. rewrite str_rev_app. apply starts_with_spec. eauto.
Qed.

Lemma ends_with_char_inv s c : ends_with (str1 c) s = true -> exists r, s = r +:+ str1 c.
Proof.
  unfold ends_with. rewrite starts_with_spec. intros [r Hr].
  exists (String.rev r). rewrite <- (str_rev_involutive s), Hr. by rewrite str_rev_app.
Qed.

Lemma unlines_ends l : l <> [] -> ends_with (str1 nl) (unlines l) = true.
Proof. intros Hl. rewrite <- join_nl by done. apply ends_with_app_char. Qed.

Lemma clean_has_cr l : Forall clean l -> has_char cr (unlines l) = false.
Proof.
  induction 1 as [|x l [Hn Hc] Hl IH]; [done|].
  rewrite unlines_cons, has_char_app, Hc. cbn. by rewrite IH.
Qed.

Lemma unlines_lf l : Forall clean l -> lf_text (unlines l) = true.
Proof.
  intros Hl. unfold lf_text. rewrite clean_has_cr by done.
  destruct l as [|x l]; [done|]. rewrite unlines_ends by done. by rewrite orb_true_r.
Qed.

(** A text with line feeds only is the text of its lines. *)
Lemma split_char_clean s :
  has_char cr s = false -> Forall clean (split_char nl s).
Proof.
  intros Hs. apply Forall_forall. intros x Hx. split.
  - exact (proj1 (Forall_forall _ _) (split_char_segments nl s) x Hx).
  - revert x Hx. induction s as [|a s IH]; intros x Hx.
    + apply list_elem_of_singleton in Hx as ->. done.
    + cbn [has_char] in Hs. apply orb_false_iff in Hs as [Ha Hs]. cbn [split_char] in Hx.
      case_bool_decide.
      * apply elem_of_cons in Hx as [->|Hx]; [done|auto].
      * destruct (split_char nl s) as [|y l].
        -- apply list_elem_of_singleton in Hx as ->. cbn. by rewrite Ha.
        -- apply elem_of_cons in Hx as [->|Hx].
           ++ cbn. rewrite Ha. apply IH; [done|]. left.
           ++ apply IH; [done|]. by right.
Qed.

Lemma lf_text_unlines s : lf_text s = true -> exists l, Forall clean l /\ s = unlines l.
Proof.
  unfold lf_text. rewrite andb_true_iff, negb_true_iff, orb_true_iff, bool_decide_eq_true.
  intros [Hc [->|He]]; [by exists []|]. apply ends_with_char_inv in He as [r ->].
  exists (split_char nl r). rewrite has_char_app in Hc. apply orb_false_iff in Hc as [Hc _].
  split; [by apply split_char_clean|].
  by rewrite <- join_nl, join_split by apply split_char_not_nil.
Qed.

Lemma lf_text_lines s : lf_text s = true -> Forall clean (lines s) /\ s = unlines (lines s).
Proof. intros (l & Hl & ->)%lf_text_unlines. by rewrite lines_unlines. Qed.
