(* ===== verification/TextFind.v ===== *)
(** * Searching and trimming text

    The parts of [str] the compaction code uses beyond lines: case folding,
    [find], [split] by a string, [trim], and characters counted from the
    front.  A string is its UTF-8 bytes. *)

From S2P Require Import Prelude RustStr TextLines.
From stdpp Require Import pretty.

(** A [usize] as decimal digits. *)
Definition show (n : nat) : string := pretty (N.of_nat n).

(** ** ASCII case *)

Definition to_ascii_lower (c : ascii) : ascii :=
  let n := N_of_ascii c in
  if (65 <=? n)%N && (n <=? 90)%N then ascii_of_N (n + 32) else c.

Fixpoint to_ascii_lowercase (s : string) : string :=
  match s with
  | EmptyString => EmptyString
  | String c s => String (to_ascii_lower c) (to_ascii_lowercase s)
  end.

Definition eq_ignore_ascii_case (a b : string) : bool :=
  bool_decide (to_ascii_lowercase a = to_ascii_lowercase b).

(** ** Characters *)

(** [s.chars().take(n)] and [s.chars().skip(n)]: a continuation byte belongs to
    the character before it. *)
Fixpoint chars_take (n : nat) (s : string) : string :=
  match s with
  | EmptyString => EmptyString
  | String c s' =>
      if cont c then String c (chars_take n s')
      else match n with O => EmptyString | S n' => String c (chars_take n' s') end
  end.

Fixpoint chars_skip (n : nat) (s : string) : string :=
  match s with
  | EmptyString => EmptyString
  | String c s' =>
      if cont c then chars_skip n s'
      else match n with O => s | S n' => chars_skip n' s' end
  end.

(** ** Searching *)

(** [s.find(needle)]: the first byte position. *)
Fixpoint find_str (needle s : string) : option nat :=
  if starts_with needle s then Some 0
  else match s with
       | EmptyString => None
       | String _ s' => S <$> find_str needle s'
       end.

Lemma find_str_spec needle s n :
  find_str needle s = Some n ->
  exists r, s = str_take n s +:+ needle +:+ r /\ n <= String.length s.
Proof.
  revert n. induction s as [|c s IH]; intros n; cbn [find_str]; destruct (starts_with needle _) eqn:E.
  - intros [= <-]. apply starts_with_spec in E as [r E]. exists r. cbn. by rewrite str_app_nil_l.
  - done.
  - intros [= <-]. apply starts_with_spec in E as [r E]. exists r. cbn. split; [|lia]. by rewrite str_app_nil_l.
  - destruct (find_str needle s) as [m|] eqn:F; [|done]. intros [= <-].
    destruct (IH m eq_refl) as (r & Hr & Hm). exists r. cbn. split; [|lia].
    rewrite str_app_cons. by f_equal.
Qed.

Lemma find_str_none needle s : find_str needle s = None <-> str_contains needle s = false.
Proof.
  induction s as [|c s IH]; cbn [find_str str_contains]; destruct (starts_with needle _); cbn; try done.
  rewrite <- IH. destruct (find_str needle s); cbn; split; congruence.
Qed.

(** [s.split(sep)] for a non-empty separator; [fuel] bounds the pieces, each of
    which but the last takes a byte. *)
Fixpoint split_from (fuel : nat) (sep s : string) : list string :=
  match fuel with
  | O => [s]
  | S f => match find_str sep s with
           | None => [s]
           | Some n => str_take n s :: split_from f sep (str_drop (n + String.length sep) s)
           end
  end.

Definition split_str (sep s : string) : list string := split_from (String.length s) sep s.

(** Joining the pieces restores the text, whatever the fuel. *)
Lemma join_split_str sep s : join_str sep (split_str sep s) = s.
Proof.
  unfold split_str. generalize (String.length s). intros f. revert s.
  induction f as [|f IH]; intros s; [done|]. cbn [split_from].
  destruct (find_str sep s) as [n|] eqn:E; [|done].
  destruct (find_str_spec _ _ _ E) as (r & Hr & Hn).
  assert (str_drop (n + String.length sep) s = r) as Hd.
  { rewrite Hr at 1. clear -Hn. revert n Hn. induction s as [|c s IH]; intros n Hn.
    - assert (n = 0) as -> by (cbn in Hn; lia). cbn. rewrite str_app_nil_l.
      induction sep as [|c sep IH]; [by rewrite str_app_nil_l|]. by rewrite str_app_cons.
    - destruct n as [|n]; cbn.
      + rewrite str_app_nil_l. clear IH. induction sep as [|d sep IH]; [by rewrite str_app_nil_l|]. by rewrite str_app_cons.
      + rewrite str_app_cons. apply IH. cbn in Hn. lia. }
  rewrite Hd. rewrite Hr at 2. specialize (IH r).
  assert (split_from f sep r <> []) as Hne.
  { destruct f; cbn; [done|]. by destruct (find_str sep r). }
  destruct (split_from f sep r) as [|x l]; [done|]. cbn [join_str] in *. by rewrite IH.
Qed.

(** ** Replacing *)

(** [s.replace(from, to)]: [skip] counts the bytes left of a match. *)
Fixpoint replace_from (from to : string) (skip : nat) (s : string) : string :=
  match s with
  | EmptyString => EmptyString
  | String c s' =>
      match skip with
      | S k => replace_from from to k s'
      | O => if starts_with from s then to +:+ replace_from from to (String.length from - 1) s'
             else String c (replace_from from to 0 s')
      end
  end.
Definition str_replace (from to s : string) : string := replace_from from to 0 s.

(** [&s[a..b]] at byte positions found by a search. *)
Definition slice (s : string) (a b : nat) : string := str_take (b - a) (str_drop a s).

Lemma replace_skip from to k s : replace_from from to k s = replace_from from to 0 (str_drop k s).
Proof. revert k. induction s as [|c s IH]; intros [|k]; cbn [replace_from str_drop]; done. Qed.

(** Unfolding of a replacement. *)
Lemma replace_match from to r :
  from <> "" -> str_replace from to (from +:+ r) = to +:+ str_replace from to r.
Proof.
  destruct from as [|c f]; [done|]. intros _. unfold str_replace. rewrite str_app_cons. cbn [replace_from].
  assert (starts_with (String c f) (String c (f +:+ r)) = true) as ->
    by (apply starts_with_spec; exists r; by rewrite str_app_cons).
  f_equal. rewrite replace_skip. cbn [String.length]. rewrite Nat.sub_succ, Nat.sub_0_r. f_equal.
  clear. induction f as [|d f IH]; [done|]. by rewrite str_app_cons.
Qed.

Lemma str_replace_other from to c s :
  starts_with from (String c s) = false -> str_replace from to (String c s) = String c (str_replace from to s).
Proof. intros H. unfold str_replace. cbn [replace_from]. by rewrite H. Qed.

(** ** Trimming *)

(** The length of the white space character at the front: the code points
    U+0009 to U+000D, U+0020, U+0085, U+00A0, U+1680, U+2000 to U+200A, U+2028,
    U+2029, U+202F, U+205F and U+3000. *)
Definition ws_prefix (s : string) : nat :=
  match s with
  | String a r =>
      if byte_in 9 13 a || byte_in 32 32 a then 1
      else match r with
           | String b r' =>
               if byte_in 194 194 a && (byte_in 133 133 b || byte_in 160 160 b) then 2
               else match r' with
                    | String c _ =>
                        if (byte_in 225 225 a && byte_in 154 154 b && byte_in 128 128 c)
                           || (byte_in 226 226 a && byte_in 128 128 b &&
                               (byte_in 128 138 c || byte_in 168 169 c || byte_in 175 175 c))
                           || (byte_in 226 226 a && byte_in 129 129 b && byte_in 159 159 c)
                           || (byte_in 227 227 a && byte_in 128 128 b && byte_in 128 128 c)
                        then 3 else 0
                    | EmptyString => 0
                    end
           | EmptyString => 0
           end
  | EmptyString => 0
  end.

(** [skip] counts the bytes left of a white space character. *)
Fixpoint trim_start_from (skip : nat) (s : string) : string :=
  match s with
  | EmptyString => EmptyString
  | String _ s' =>
      match skip with
      | S k => trim_start_from k s'
      | O => match ws_prefix s with
             | O => s
             | S k => trim_start_from k s'
             end
      end
  end.
Definition trim_start (s : string) : string := trim_start_from 0 s.

Fixpoint trim_end (s : string) : string :=
  match s with
  | EmptyString => EmptyString
  | String c s' => if bool_decide (trim_start s = "") then "" else String c (trim_end s')
  end.

Definition trim (s : string) : string := trim_end (trim_start s).

(** A text that starts and ends with a character that is not white space. *)
Definition trimmed (s : string) : bool := bool_decide (trim s = s).

(** [str::parse] of an unsigned integer up to [max]: an optional plus sign and
    decimal digits. *)
Fixpoint parse_digits (max acc : Z) (s : string) : option Z :=
  match s with
  | EmptyString => Some acc
  | String c s' =>
      if byte_in 48 57 c then
        let n := (acc * 10 + (Z.of_N (N_of_ascii c) - 48))%Z in
        if (n <=? max)%Z then parse_digits max n s' else None
      else None
  end.
Definition parse_uint (max : Z) (s : string) : option Z :=
  let s := match s with String "+" r => r | _ => s end in
  match s with EmptyString => None | _ => parse_digits max 0 s end.
Definition parse_u16 : string -> option Z := parse_uint 65535.
Definition parse_u32 : string -> option Z := parse_uint u32_max.

(** [s.chars().take_while(char::is_ascii_digit)] *)
Fixpoint leading_digits (s : string) : string :=
  match s with
  | EmptyString => EmptyString
  | String c s' => if byte_in 48 57 c then String c (leading_digits s') else EmptyString
  end.
