(* ===== verification/F64.v ===== *)
(** * IEEE 754 double precision numbers

    [f64] of Rust as the specification floats of the core library, at
    precision 53 and maximal exponent 1024, with the conversions and the
    methods the sources use.  Everything evaluates. *)

From Stdlib Require Export SpecFloat.
From S2P Require Import Prelude.
Local Open Scope Z_scope.

Definition f64 : Type := spec_float.

Definition fmul : f64 -> f64 -> f64 := SFmul 53 1024.
Definition fadd : f64 -> f64 -> f64 := SFadd 53 1024.
Definition fsub : f64 -> f64 -> f64 := SFsub 53 1024.
Definition fdiv : f64 -> f64 -> f64 := SFdiv 53 1024.
Definition flt : f64 -> f64 -> bool := SFltb.
Definition fle : f64 -> f64 -> bool := SFleb.
Definition fge (x y : f64) : bool := SFleb y x.
Definition fgt (x y : f64) : bool := SFltb y x.

(** [n as f64]: nearest, ties to even. *)
Definition f64_of_Z (n : Z) : f64 := binary_normalize 53 1024 n 0 false.

(** The literal [n / d]: the decimal literals of the sources are quotients of
    two exactly representable integers, so division rounds them once. *)
Definition f64_lit (n d : Z) : f64 := fdiv (f64_of_Z n) (f64_of_Z d).

(** [x as u64]: truncation, saturating, NaN to 0. *)
Definition f64_to_u64 (x : f64) : Z :=
  match x with
  | S754_zero _ | S754_nan => 0
  | S754_infinity s => if s then 0 else u64_max
  | S754_finite s m e =>
      if s then 0
      else Z.min u64_max (if e <? 0 then Zpos m / 2 ^ (- e) else Zpos m * 2 ^ e)
  end.

Definition f64_is_nan (x : f64) : bool :=
  match x with S754_nan => true | _ => false end.

(** [x.min(y)], [x.max(y)]: the other operand when one is NaN. *)
Definition fmin (x y : f64) : f64 :=
  if f64_is_nan x then y else if f64_is_nan y then x
  else if flt x y then x else y.
Definition fmax (x y : f64) : f64 :=
  if f64_is_nan x then y else if f64_is_nan y then x
  else if flt y x then x else y.

(** [x.powi(n)], by the repeated squaring of the compiler's runtime
    ([__powidf2]); 32 rounds reach the end of any [i32]. *)
Fixpoint powi_loop (fuel : nat) (a : f64) (b : Z) (r : f64) : f64 :=
  match fuel with
  | O => r
  | S fuel' =>
      let r' := if Z.odd b then fmul r a else r in
      let b' := b / 2 in
      if b' =? 0 then r' else powi_loop fuel' (fmul a a) b' r'
  end.
Definition powi (a : f64) (n : Z) : f64 :=
  let r := powi_loop 32 a (Z.abs n) (f64_of_Z 1) in
  if n <? 0 then fdiv (f64_of_Z 1) r else r.

(** [n as i32] on an unsigned integer. *)
Definition as_i32 (n : Z) : Z :=
  let m := wrap 32 n in if m <? 2 ^ 31 then m else m - 2 ^ 32.

Lemma SFcompare_refl x : f64_is_nan x = false -> SFcompare x x = Some Eq.
Proof.
  destruct x as [s|s| |s m e]; cbn; try done; [by destruct s..|]. intros _.
  rewrite Z.compare_refl. change (Pos.compare_cont Eq m m) with (Pos.compare m m).
  rewrite Pos.compare_refl. by destruct s.
Qed.

Lemma fle_refl x : f64_is_nan x = false -> fle x x = true.
Proof. intros Hx. unfold fle, SFleb. by rewrite SFcompare_refl. Qed.

Lemma flt_fle x y : flt x y = true -> fle x y = true.
Proof. unfold flt, fle, SFltb, SFleb. by destruct (SFcompare x y) as [[]|]. Qed.

Lemma fmin_le_r x y : f64_is_nan y = false -> fle (fmin x y) y = true.
Proof.
  intros Hy. unfold fmin. rewrite Hy. destruct (f64_is_nan x); [by apply fle_refl|].
  destruct (flt x y) eqn:E; [by apply flt_fle|by apply fle_refl].
Qed.

Lemma f64_to_u64_range x : 0 <= f64_to_u64 x <= u64_max.
Proof.
  unfold u64_max. destruct x as [s|s| |s m e]; cbn -[Z.pow Z.mul Z.div]; try lia; [by destruct s|].
  destruct s; [lia|]. change u64_max with (2 ^ 64 - 1).
  destruct (e <? 0) eqn:?; zbool.
  - assert (0 <= Z.pos m / 2 ^ (- e)) by (apply Z.div_pos; lia). lia.
  - assert (0 <= Z.pos m * 2 ^ e) by (apply Z.mul_nonneg_nonneg; lia). lia.
Qed.
