(* ===== verification/Topic.v ===== *)
(** * Topics and wildcard matching (ccore/src/message/topic.rs)

    [Topic] and [TopicPattern] are newtypes over [String].  [topic_matches]
    splits both on "/" and runs the depth-limited recursion [match_parts]; the
    reference definition [pattern_matches] says which segment lists a pattern
    denotes, and [match_parts_exact] is the exact relation between the two.
    The [debug_assert!]s of [Topic::new] are not part of a release build and
    are left out. *)

From Equations Require Import Equations.
From S2P Require Import Prelude RustStr.

Definition MAX_TOPIC_DEPTH : nat := 100.

Record Topic := Topic_new { as_str : string }.
Record TopicPattern := TopicPattern_new { pat_str : string }.

#[export] Instance Topic_eq_dec : EqDecision Topic.
Proof. solve_decision. Defined.

(** ** Topic factories *)
Definition sys_heartbeat : Topic := Topic_new "sys/heartbeat".
Definition sys_register : Topic := Topic_new "sys/register".
Definition sys_deregister : Topic := Topic_new "sys/deregister".
Definition sys_spawn : Topic := Topic_new "sys/spawn".
Definition sys_shutdown : Topic := Topic_new "sys/shutdown".
Definition sys_publisher_change : Topic := Topic_new "sys/publisher_change".
Definition sys_ack : Topic := Topic_new "sys/ack".
Definition agent_input (agent_id : string) : Topic :=
  Topic_new ("agent/" +:+ agent_id +:+ "/input").
Definition agent_output (agent_id : string) : Topic :=
  Topic_new ("agent/" +:+ agent_id +:+ "/output").
Definition agent_tool_call (agent_id : string) : Topic :=
  Topic_new ("agent/" +:+ agent_id +:+ "/tool_call").
Definition agent_tool_result (agent_id : string) : Topic :=
  Topic_new ("agent/" +:+ agent_id +:+ "/tool_result").
Definition agent_spawn (agent_id : string) : Topic :=
  Topic_new ("agent/" +:+ agent_id +:+ "/spawn").
Definition agent_event (agent_id : string) : Topic :=
  Topic_new ("agent/" +:+ agent_id +:+ "/event").
Definition agent_permission (agent_id : string) : Topic :=
  Topic_new ("agent/" +:+ agent_id +:+ "/permission").
Definition agent_cancel (agent_id : string) : Topic :=
  Topic_new ("agent/" +:+ agent_id +:+ "/cancel").
Definition subagent_task (subagent_id : string) : Topic :=
  Topic_new ("agent/" +:+ subagent_id +:+ "/task").
Definition subagent_output (subagent_id : string) : Topic := agent_output subagent_id.
Definition subagent_tool_call (subagent_id : string) : Topic := agent_tool_call subagent_id.
Definition subagent_tool_result (subagent_id : string) : Topic := agent_tool_result subagent_id.
Definition subagent_completed (subagent_id : string) : Topic := agent_event subagent_id.
Definition subagent_crashed (subagent_id : string) : Topic := agent_event subagent_id.
Definition sampler_request : Topic := Topic_new "sampler/request".
Definition sampler_stream (request_id : string) : Topic :=
  Topic_new ("sampler/" +:+ request_id +:+ "/stream").
Definition sampler_cancel (request_id : string) : Topic :=
  Topic_new ("sampler/" +:+ request_id +:+ "/cancel").
Definition state_query : Topic := Topic_new "state/query".
Definition state_response : Topic := Topic_new "state/response".
Definition state_persist : Topic := Topic_new "state/persist".
Definition state_compact : Topic := Topic_new "state/compact".
Definition tool_register : Topic := Topic_new "tool/register".
Definition service_request (service_name : string) : Topic :=
  Topic_new ("service/" +:+ service_name +:+ "/request").
Definition service_response (service_name : string) : Topic :=
  Topic_new ("service/" +:+ service_name +:+ "/response").
Definition eye_observe : Topic := Topic_new "eye/observe".
Definition eye_file_changed : Topic := Topic_new "eye/file_changed".
Definition eye_terminal_output : Topic := Topic_new "eye/terminal_output".
Definition ear_hear : Topic := Topic_new "ear/hear".
Definition ear_notification : Topic := Topic_new "ear/notification".
Definition nose_smell : Topic := Topic_new "nose/smell".
Definition nose_compile_error : Topic := Topic_new "nose/compile_error".
Definition nose_test_failure : Topic := Topic_new "nose/test_failure".
Definition skin_touch : Topic := Topic_new "skin/touch".
Definition skin_process_exit : Topic := Topic_new "skin/process_exit".
Definition skin_memory_pressure : Topic := Topic_new "skin/memory_pressure".
Definition mouth_speak : Topic := Topic_new "mouth/speak".
Definition mouth_code_write : Topic := Topic_new "mouth/code_write".
Definition mouth_status : Topic := Topic_new "mouth/status".
Definition hand_edit : Topic := Topic_new "hand/edit".
Definition hand_search : Topic := Topic_new "hand/search".
Definition hand_restructure : Topic := Topic_new "hand/restructure".
Definition limb_execute : Topic := Topic_new "limb/execute".
Definition limb_build : Topic := Topic_new "limb/build".
Definition limb_git : Topic := Topic_new "limb/git".
Definition cortex_think (agent_id : string) : Topic :=
  Topic_new ("cortex/" +:+ agent_id +:+ "/think").
Definition cortex_plan (agent_id : string) : Topic :=
  Topic_new ("cortex/" +:+ agent_id +:+ "/plan").
Definition cortex_decide (agent_id : string) : Topic :=
  Topic_new ("cortex/" +:+ agent_id +:+ "/decide").
Definition cortex_sensory (agent_id : string) : Topic :=
  Topic_new ("cortex/" +:+ agent_id +:+ "/sensory").
Definition cortex_input (agent_id : string) : Topic :=
  Topic_new ("cortex/" +:+ agent_id +:+ "/input").
Definition cortex_speak (agent_id : string) : Topic :=
  Topic_new ("cortex/" +:+ agent_id +:+ "/speak").
Definition param_set : Topic := Topic_new "param/set".
Definition param_get : Topic := Topic_new "param/get".
Definition param_changed : Topic := Topic_new "param/changed".

(** ** Pattern factories *)
Definition all_agent_outputs : TopicPattern := TopicPattern_new "agent/*/output".
Definition agent_all (agent_id : string) : TopicPattern :=
  TopicPattern_new ("agent/" +:+ agent_id +:+ "/*").
Definition all_sampler_streams : TopicPattern := TopicPattern_new "sampler/*/stream".
Definition all_agent_permissions : TopicPattern := TopicPattern_new "agent/*/permission".
Definition all_agent_cancels : TopicPattern := TopicPattern_new "agent/*/cancel".

(** ** Matching *)

(** [fn match_parts(pattern, topic, depth)]: the arguments are the remaining
    segments of the two slices. *)
Equations? match_parts (pattern topic : list string) (depth : nat) : bool
  by wf (length pattern + length topic) lt :=
match_parts pattern topic depth with Nat.ltb MAX_TOPIC_DEPTH depth => {
  | true := false
  | false with pattern => {
    | [] with topic => {
      | [] := true
      | _ :: _ := false }
    | p :: pattern' with decide (p = "**") => {
      | left _ with topic => {
        | [] := match_parts pattern' [] (S depth)
        | t :: topic' :=
            match_parts pattern' (t :: topic') (S depth)
            || match_parts (p :: pattern') topic' (S depth) }
      | right _ with topic => {
        | [] := false
        | t :: topic' with decide (p = "*") => {
          | left _ := match_parts pattern' topic' (S depth)
          | right _ with decide (p = t) => {
            | left _ := match_parts pattern' topic' (S depth)
            | right _ := false } } } } } }.
Proof. all: cbn; lia. Qed.

Definition topic_matches (pattern topic : string) : bool :=
  let pattern_parts := split_char "/"%char pattern in
  let topic_parts := split_char "/"%char topic in
  if Nat.ltb MAX_TOPIC_DEPTH (length pattern_parts) || Nat.ltb MAX_TOPIC_DEPTH (length topic_parts)
  then false
  else match_parts pattern_parts topic_parts 0.

Definition matches (pat : TopicPattern) (topic : Topic) : bool :=
  topic_matches (pat_str pat) (as_str topic).

(** ** Reference semantics *)

(** What one pattern segment covers: ["**"] any run of segments, ["*"] exactly
    one, anything else exactly itself. *)
Definition seg_covers (p : string) (xs : list string) : Prop :=
  p = "**" \/ exists t, xs = [t] /\ (p = "*" \/ p = t).

(** A pattern matches a topic when the topic splits into consecutive runs, one
    per pattern segment, each covered by its segment. *)
Definition pattern_matches (ps ts : list string) : Prop :=
  exists xss, Forall2 seg_covers ps xss /\ ts = concat xss.

(** The number of ["**"] segments. *)
Definition stars (ps : list string) : nat := length (filter (fun p => p = "**") ps).

Lemma stars_nil : stars [] = 0.
Proof. done. Qed.

Lemma stars_cons p ps : stars (p :: ps) = (if decide (p = "**") then 1 else 0) + stars ps.
Proof. unfold stars. rewrite filter_cons. by case_decide. Qed.

Lemma pattern_matches_nil ts : pattern_matches [] ts <-> ts = [].
Proof.
  split; [|intros ->; by exists []].
  intros (xss & H & ->). by inversion H.
Qed.

Lemma pattern_matches_star ps ts :
  pattern_matches ("**" :: ps) ts <->
  pattern_matches ps ts \/ exists t ts', ts = t :: ts' /\ pattern_matches ("**" :: ps) ts'.
Proof.
  split.
  - intros (xss & H & ->). inversion H as [|? xs ? xss' Hp Hps]; subst.
    destruct xs as [|x xs]; cbn; [left; by exists xss'|].
    right. exists x, (xs ++ concat xss'). split; [done|].
    exists (xs :: xss'). split; [|done]. constructor; [by left|done].
  - intros [(xss & H & ->)|(t & ts' & -> & (xss & H & ->))].
    + exists ([] :: xss). split; [|done]. constructor; [by left|done].
    + inversion H as [|? xs ? xss' Hp Hps]; subst.
      exists ((t :: xs) :: xss'). split; [|done]. constructor; [by left|done].
Qed.

Lemma pattern_matches_star_nil ps : pattern_matches ("**" :: ps) [] <-> pattern_matches ps [].
Proof. rewrite pattern_matches_star. naive_solver. Qed.

Lemma pattern_matches_star_cons ps t ts :
  pattern_matches ("**" :: ps) (t :: ts) <->
  pattern_matches ps (t :: ts) \/ pattern_matches ("**" :: ps) ts.
Proof. rewrite pattern_matches_star. naive_solver. Qed.

Lemma pattern_matches_cons p ps t ts :
  p <> "**" ->
  pattern_matches (p :: ps) (t :: ts) <-> (p = "*" \/ p = t) /\ pattern_matches ps ts.
Proof.
  intros Hp. split.
  - intros (xss & H & Heq). inversion H as [|? xs ? xss' [?|(t' & -> & Ht)] Hps]; [done|]; subst.
    cbn in Heq. injection Heq as -> ->. split; [done|]. by exists xss'.
  - intros [Ht (xss & H & ->)]. exists ([t] :: xss). split; [|done].
    constructor; [|done]. right. by exists t.
Qed.

Lemma pattern_matches_cons_nil p ps : p <> "**" -> ~ pattern_matches (p :: ps) [].
Proof.
  intros Hp (xss & H & Heq). inversion H as [|? xs ? xss' [?|(t' & -> & Ht)] Hps]; [done|]; subst.
  by cbn in Heq.
Qed.

Lemma pattern_matches_length ps ts :
  pattern_matches ps ts -> length ps <= length ts + stars ps.
Proof.
  intros (xss & H & ->). induction H as [|p xs ps xss Hp H IH]; [done|].
  rewrite stars_cons. cbn [concat]. rewrite length_app.
  destruct Hp as [->|(t & -> & _)].
  - rewrite decide_True by done. cbn in *. lia.
  - case_decide; cbn in *; lia.
Qed.

(** The recursion makes one call per pattern segment and one per topic segment
    a ["**"] absorbs, so the depth at the end of a successful match is
    [depth + length topic + stars pattern] whatever the split. *)
Lemma match_parts_exact ps ts d :
  match_parts ps ts d = true <->
  pattern_matches ps ts /\ d + length ts + stars ps <= MAX_TOPIC_DEPTH.
Proof.
  funelim (match_parts ps ts d); clear Heqcall; subst; zbool;
    rewrite ?orb_true_iff;
    repeat match goal with
    | H : match_parts _ _ _ = true <-> _ |- _ => rewrite H; clear H
    end;
    rewrite ?pattern_matches_nil, ?stars_nil, ?stars_cons, ?pattern_matches_star_nil,
      ?pattern_matches_star_cons, ?pattern_matches_cons by done;
    repeat case_decide; simplify_eq; cbn [length]; try naive_solver lia.
  split; [done|]. by intros [?%pattern_matches_cons_nil ?].
Qed.

(** ** Properties of the public matcher *)

Abbreviation segs := (split_char "/"%char).

(** C12.  C1: [topic_matches] decides the reference semantics of wildcard patterns,
    and the exact effect of the depth limit is that the pattern has at most 100
    segments and the topic's segments plus the pattern's ["**"] segments number
    at most 100. *)
Theorem topic_matches_spec pattern topic :
  topic_matches pattern topic = true <->
  pattern_matches (segs pattern) (segs topic) /\
  length (segs pattern) <= MAX_TOPIC_DEPTH /\
  length (segs topic) + stars (segs pattern) <= MAX_TOPIC_DEPTH.
Proof.
  unfold topic_matches. destruct (Nat.ltb_spec MAX_TOPIC_DEPTH (length (segs pattern)));
    destruct (Nat.ltb_spec MAX_TOPIC_DEPTH (length (segs topic))); cbn [orb];
    rewrite ?match_parts_exact; naive_solver lia.
Qed.

Lemma pattern_matches_no_star ps ts :
  stars ps = 0 ->
  pattern_matches ps ts <-> Forall2 (fun p t => p = "*" \/ p = t) ps ts.
Proof.
  revert ts. induction ps as [|p ps IH]; intros ts Hs.
  - rewrite pattern_matches_nil. split; [by intros ->|]. by inversion 1.
  - rewrite stars_cons in Hs. case_decide as Hp; [done|].
    destruct ts as [|t ts].
    + split; [by intros ?%pattern_matches_cons_nil|by inversion 1].
    + rewrite pattern_matches_cons, IH, Forall2_cons by done. done.
Qed.

(** The same for [topic_matches] itself, shared with its clients. *)
Lemma topic_matches_no_star pattern topic :
  stars (segs pattern) = 0 ->
  topic_matches pattern topic = true <->
  Forall2 (fun p t => p = "*" \/ p = t) (segs pattern) (segs topic) /\
  length (segs topic) <= MAX_TOPIC_DEPTH.
Proof.
  intros Hs. unfold topic_matches.
  destruct (Nat.ltb_spec MAX_TOPIC_DEPTH (length (segs pattern)));
    destruct (Nat.ltb_spec MAX_TOPIC_DEPTH (length (segs topic))); cbn [orb];
    rewrite ?match_parts_exact, ?pattern_matches_no_star, ?Hs by done;
    try naive_solver lia.
  split; [done|]. intros [Hl%Forall2_length ?]. lia.
Qed.

(** A pattern with no wildcard segment matches exactly the topic it spells. *)
Lemma topic_matches_literal pattern topic :
  stars (segs pattern) = 0 -> "*" ∉ segs pattern -> length (segs pattern) <= MAX_TOPIC_DEPTH ->
  topic_matches pattern topic = true <-> pattern = topic.
Proof.
  intros Hs Hnw Hl. rewrite topic_matches_no_star by done. split.
  - intros [HF _]. apply (split_char_inj "/"%char).
    clear Hs Hl. induction HF as [|p t ps ts Hp HF IH]; [done|].
    apply not_elem_of_cons in Hnw as [Hne Hnw]. destruct Hp as [->| ->]; [done|].
    f_equal. by apply IH.
  - intros <-. split; [|done]. clear. induction (segs pattern); constructor; auto.
Qed.

(** A plain segment: no separator and not a wildcard. *)
Definition plain (s : string) : Prop :=
  has_char "/"%char s = false /\ s <> "*" /\ s <> "**".

Lemma segs_three a id c :
  has_char "/"%char a = false -> has_char "/"%char c = false -> has_char "/"%char id = false ->
  segs (a +:+ String "/"%char (id +:+ String "/"%char c)) = [a; id; c].
Proof. intros. by rewrite !split_char_app, split_char_none by done. Qed.

Lemma length_segs_three a id c :
  has_char "/"%char a = false -> has_char "/"%char c = false ->
  length (segs (a +:+ String "/"%char (id +:+ String "/"%char c))) =
  3 + count_char "/"%char id.
Proof.
  intros Ha Hc. rewrite split_char_app by done. cbn [length].
  rewrite length_split_char, count_char_app. apply count_char_has in Hc.
  cbn [count_char]. rewrite bool_decide_eq_true_2, Hc by done. lia.
Qed.

(** One-wildcard patterns [dom/*/act] against [dom/{id}/act']. *)
Lemma one_wildcard_matches d act act' id :
  has_char "/"%char d = false -> has_char "/"%char act = false -> has_char "/"%char act' = false ->
  d <> "**" -> act <> "**" -> act <> "*" -> 
  topic_matches (d +:+ String "/"%char ("*" +:+ String "/"%char act))
                (d +:+ String "/"%char (id +:+ String "/"%char act')) =
  negb (has_char "/"%char id) && bool_decide (act = act').
Proof.
  intros Hd Ha Ha' Hd2 Ha2 Ha1. apply eq_true_iff_eq.
  rewrite andb_true_iff, negb_true_iff, bool_decide_eq_true.
  rewrite topic_matches_no_star; rewrite segs_three by done.
  2: { by rewrite !stars_cons, !decide_False by done. }
  split.
  - intros [HF _]. pose proof (Forall2_length _ _ _ HF) as Hl.
    rewrite length_segs_three in Hl by done. cbn in Hl.
    assert (has_char "/"%char id = false) as Hid by (apply count_char_has; lia).
    rewrite segs_three in HF by done. split; [done|].
    by decompose_Forall_hyps; naive_solver.
  - intros [Hid ->]. rewrite segs_three by done. split; [|cbn; unfold MAX_TOPIC_DEPTH; lia].
    rewrite !Forall2_cons. naive_solver.
Qed.

(** C2: the subscription patterns the nodes use pick out exactly their topic
    family: [agent/*/output] matches the output topic of an agent id exactly
    when the id has no separator, and no other action of that agent; likewise
    for the permission, cancel and sampler-stream patterns. *)
Theorem agent_patterns_exact id :
  matches all_agent_outputs (agent_output id) = negb (has_char "/"%char id) /\
  matches all_agent_permissions (agent_permission id) = negb (has_char "/"%char id) /\
  matches all_agent_cancels (agent_cancel id) = negb (has_char "/"%char id) /\
  matches all_sampler_streams (sampler_stream id) = negb (has_char "/"%char id) /\
  matches all_agent_outputs (agent_input id) = false /\
  matches all_agent_permissions (agent_cancel id) = false /\
  matches all_agent_cancels (agent_permission id) = false /\
  matches all_sampler_streams (sampler_cancel id) = false.
Proof.
  unfold matches; cbn [pat_str as_str all_agent_outputs agent_output all_agent_permissions
    agent_permission all_agent_cancels agent_cancel all_sampler_streams sampler_stream
    agent_input sampler_cancel].
  split_and!; match goal with
  | |- topic_matches ?p (?d +:+ id +:+ ?a) = _ =>
      etrans; [eapply (one_wildcard_matches "agent") || eapply (one_wildcard_matches "sampler")|]
  end; try done; by rewrite ?andb_true_r, ?andb_false_r.
Qed.

(** Every topic in the namespace of one agent. *)
Definition agent_topics (id : string) : list Topic :=
  [agent_input id; agent_output id; agent_tool_call id; agent_tool_result id;
   agent_spawn id; agent_event id; agent_permission id; agent_cancel id; subagent_task id;
   subagent_output id; subagent_tool_call id; subagent_tool_result id;
   subagent_completed id; subagent_crashed id].

Lemma agent_all_matches a b act :
  plain a -> has_char "/"%char b = false -> has_char "/"%char act = false ->
  topic_matches ("agent/" +:+ a +:+ "/*")
    ("agent" +:+ String "/"%char (b +:+ String "/"%char act)) = bool_decide (a = b).
Proof.
  intros (Ha & Ha1 & Ha2) Hb Hact. apply eq_true_iff_eq. rewrite bool_decide_eq_true.
  change ("agent/" +:+ a +:+ "/*") with ("agent" +:+ String "/"%char (a +:+ String "/"%char "*")).
  rewrite topic_matches_no_star; rewrite !segs_three by done.
  2: { by rewrite !stars_cons, !decide_False by done. }
  rewrite !Forall2_cons. split; [naive_solver|].
  intros ->. split; [naive_solver|]. cbn. unfold MAX_TOPIC_DEPTH. lia.
Qed.

(** C3: isolation of agents on the bus: the pattern [agent/{a}/*] of one agent
    matches a topic of another agent's namespace exactly when the two ids are
    equal. *)
Theorem agent_all_isolated a b :
  plain a -> plain b ->
  Forall (fun t => matches (agent_all a) t = bool_decide (a = b)) (agent_topics b).
Proof.
  intros Ha (Hb & _). unfold agent_topics, matches; cbn [pat_str agent_all].
  repeat (constructor; [by apply agent_all_matches|]). constructor.
Qed.

Example agent_all_isolated_witness :
  Forall (fun t => matches (agent_all "a1") t = false) (agent_topics "b1").
Proof. apply (agent_all_isolated "a1" "b1"); by split_and!. Defined.
