(* ===== verification/Node.v ===== *)
(** * Nodes (node/mod.rs, kernel/mod.rs)

    Identifiers, types and permission modes of the processes on the bus.
    [NodeId] is a newtype over [String] with the derived equality, so it is
    the string itself. *)

From S2P Require Import Prelude RustStr.

Abbreviation NodeId := string.

Inductive NodeType :=
  Kernel | Agent | Tool | Sampler | State | TUI | Plugin | Acp | Thinker.

#[export] Instance NodeType_eq_dec : EqDecision NodeType.
Proof. solve_decision. Defined.

Definition node_type_str (t : NodeType) : string :=
  match t with
  | Kernel => "kernel"
  | Agent => "agent"
  | Tool => "tool"
  | Sampler => "sampler"
  | State => "state"
  | TUI => "tui"
  | Plugin => "plugin"
  | Acp => "acp"
  | Thinker => "thinker"
  end.

Definition parse_node_type (s : string) : NodeType :=
  if bool_decide (s = "kernel") then Kernel
  else if bool_decide (s = "agent") then Agent
  else if bool_decide (s = "tool") then Tool
  else if bool_decide (s = "sampler") then Sampler
  else if bool_decide (s = "state") then State
  else if bool_decide (s = "tui") then TUI
  else if bool_decide (s = "plugin") then Plugin
  else if bool_decide (s = "acp") then Acp
  else if bool_decide (s = "thinker") then Thinker
  else Plugin.

Inductive PermissionMode := Yolo | Trust | Ask | ReadOnly.

#[export] Instance PermissionMode_eq_dec : EqDecision PermissionMode.
Proof. solve_decision. Defined.

(** Every type survives printing and parsing, and what parses to a type other
    than [Plugin] is that type's name. *)
Lemma parse_node_type_str t : parse_node_type (node_type_str t) = t.
Proof. by destruct t. Qed.

Lemma parse_node_type_inv s : parse_node_type s <> Plugin -> node_type_str (parse_node_type s) = s.
Proof.
  unfold parse_node_type. intros H.
  repeat (case_bool_decide; [by subst|]). done.
Qed.
