(* ===== verification/Frame.v ===== *)
(** * Three-frame messages (message/frame.rs)

    A byte vector and a [String] are both byte strings; a [String] is one that
    is valid UTF-8.  MessagePack ([rmp_serde]) is a third-party codec: it is
    the class [RmpCodec], with the one law the module relies on. *)

From S2P Require Import Prelude RustStr TextLines Topic.
Local Open Scope Z_scope.

Definition bytes : Type := string.

Record MessageHeader := mkHeader {
  msg_id : string;
  timestamp : string;
  src_node : string;
  reply_to : option string;
  sequence : Z;
  requires_ack : bool
}.

Record Message := mkMessage { topic : Topic; header : MessageHeader; payload : bytes }.

#[export] Instance MessageHeader_eq_dec : EqDecision MessageHeader.
Proof. solve_decision. Defined.
#[export] Instance Message_eq_dec : EqDecision Message.
Proof. solve_decision. Defined.

(** The invariants of the Rust types: strings are UTF-8, the number is a [u64]. *)
Definition header_wf (h : MessageHeader) : Prop :=
  utf8_valid (msg_id h) = true /\ utf8_valid (timestamp h) = true /\
  utf8_valid (src_node h) = true /\
  from_option (fun s => utf8_valid s = true) True (reply_to h) /\
  0 <= sequence h <= u64_max.

Definition message_wf (m : Message) : Prop :=
  utf8_valid (as_str (topic m)) = true /\ header_wf (header m).

Inductive FrameError (E : Type) :=
| FrameCount (actual : nat)
| InvalidUtf8
| RmpError (e : E).
Arguments FrameCount {E} actual.
Arguments InvalidUtf8 {E}.
Arguments RmpError {E} e.

(** [rmp_serde::to_vec]/[from_read] at the header type: what a header is
    encoded to decodes to that header. *)
Class RmpCodec := {
  rmp_error : Type;
  to_vec : MessageHeader -> result rmp_error bytes;
  from_read : bytes -> result rmp_error MessageHeader;
  rmp_roundtrip : forall h b, header_wf h -> to_vec h = Ok b -> from_read b = Ok h
}.

Definition map_err {E F A} (f : E -> F) (r : result E A) : result F A :=
  match r with Ok a => Ok a | Err e => Err (f e) end.

Section codec.
Context `{RmpCodec}.
Local Open Scope rust_scope.

Abbreviation frame_result A := (result (FrameError rmp_error) A).

(** The identifier [Uuid::new_v4()] and the time [Utc::now()] are arguments,
    and so is the outcome of serialising the payload. *)
Definition new_message_with_sequence (uuid now : string) (t : Topic) (src : string)
    (serialized : result rmp_error bytes) (seq : Z) : frame_result Message :=
  let h := mkHeader uuid now src None seq false in
  let? p := map_err RmpError serialized in
  Ok (mkMessage t h p).

Definition new_message (uuid now : string) (t : Topic) (src : string)
    (serialized : result rmp_error bytes) : frame_result Message :=
  new_message_with_sequence uuid now t src serialized 0.

Definition new_reply_with_sequence (uuid now : string) (t : Topic) (src reply_to_msg_id : string)
    (serialized : result rmp_error bytes) (seq : Z) : frame_result Message :=
  let h := mkHeader uuid now src (Some reply_to_msg_id) seq false in
  let? p := map_err RmpError serialized in
  Ok (mkMessage t h p).

Definition new_reply (uuid now : string) (t : Topic) (src reply_to_msg_id : string)
    (serialized : result rmp_error bytes) : frame_result Message :=
  new_reply_with_sequence uuid now t src reply_to_msg_id serialized 0.

Definition encode (msg : Message) : frame_result (list bytes) :=
  let frame1 := as_str (topic msg) in
  let? frame2 := map_err RmpError (to_vec (header msg)) in
  let frame3 := payload msg in
  Ok [frame1; frame2; frame3].

Definition decode (frames : list bytes) : frame_result Message :=
  match frames with
  | [f0; f1; f2] =>
      if utf8_valid f0 then
        let t := Topic_new f0 in
        let? h := map_err RmpError (from_read f1) in
        Ok (mkMessage t h f2)
      else Err InvalidUtf8
  | _ => Err (FrameCount (length frames))
  end.

(** [decode_payload], over the deserialiser of the requested type. *)
Definition decode_payload {T} (rmp_from_read : bytes -> result rmp_error T) (msg : Message)
  : frame_result T :=
  map_err RmpError (rmp_from_read (payload msg)).

(** A well-formed message that encodes decodes to itself: topic, header
    and the payload bytes untouched. *)
Theorem frame_roundtrip msg frames :
  message_wf msg -> encode msg = Ok frames -> decode frames = Ok msg.
Proof.
  intros [Ht Hh]. unfold encode. destruct (to_vec (header msg)) as [b|e] eqn:E; cbn; [|done].
  intros [= <-]. cbn. rewrite Ht, (rmp_roundtrip _ _ Hh E). cbn.
  by destruct msg as [[t] h p].
Qed.

(** [decode] fails exactly when the number of frames is not three, the
    first is not UTF-8 or the second is not a header, with the error of the
    first of these that applies; a decoded message carries the frames. *)
Theorem frame_decode_total frames :
  decode frames =
    if negb (Nat.eqb (length frames) 3) then Err (FrameCount (length frames))
    else if negb (utf8_valid (nth 0 frames "")) then Err InvalidUtf8
    else match from_read (nth 1 frames "") with
         | Err e => Err (RmpError e)
         | Ok h => Ok (mkMessage (Topic_new (nth 0 frames "")) h (nth 2 frames ""))
         end.
Proof.
  destruct frames as [|f0 [|f1 [|f2 [|f3 fs]]]]; try done. cbn.
  destruct (utf8_valid f0); [|done]. cbn. by destruct (from_read f1).
Qed.
End codec.

Lemma new_message_sequence `{RmpCodec} uuid now t src p m :
  new_message uuid now t src p = Ok m -> sequence (header m) = 0 /\ reply_to (header m) = None.
Proof. unfold new_message, new_message_with_sequence. destruct p; cbn; [|done]. by intros [= <-]. Qed.

(** ** A codec to evaluate with: the bits of the header's number. *)
Fixpoint bits_of (p : positive) : string :=
  match p with
  | xH => EmptyString
  | xO p => String "0" (bits_of p)
  | xI p => String "1" (bits_of p)
  end.
Fixpoint of_bits (s : string) : option positive :=
  match s with
  | EmptyString => Some xH
  | String c s =>
      p ← of_bits s;
      if bool_decide (c = "0"%char) then Some (xO p)
      else if bool_decide (c = "1"%char) then Some (xI p) else None
  end.

Lemma of_bits_of p : of_bits (bits_of p) = Some p.
Proof. induction p as [p IH|p IH|]; cbn; [by rewrite IH..|done]. Qed.

Definition header_tuple (h : MessageHeader) : string * string * string * option string * Z * bool :=
  (msg_id h, timestamp h, src_node h, reply_to h, sequence h, requires_ack h).

Definition bit_to_vec (h : MessageHeader) : result unit bytes :=
  Ok (bits_of (countable.encode (header_tuple h))).

Definition bit_from_read (b : bytes) : result unit MessageHeader :=
  match p ← of_bits b; countable.decode p with
  | Some (i, t, s, r, q, a) => Ok (mkHeader i t s r q a)
  | None => Err tt
  end.

Lemma bit_roundtrip h b : header_wf h -> bit_to_vec h = Ok b -> bit_from_read b = Ok h.
Proof.
  intros _ [= <-]. unfold bit_from_read. rewrite of_bits_of. cbn.
  rewrite decode_encode. by destruct h.
Qed.

Definition bit_codec : RmpCodec :=
  {| to_vec := bit_to_vec; from_read := bit_from_read; rmp_roundtrip := bit_roundtrip |}.

Definition sample_message : Message :=
  mkMessage (Topic_new "sys/ack") (mkHeader "m1" "t0" "n1" (Some "m0") 7 true) "xyz".

Lemma frame_roundtrip_witness :
  exists frames, @encode bit_codec sample_message = Ok frames /\
                 @decode bit_codec frames = Ok sample_message.
Proof.
  eexists. split; [reflexivity|].
  apply (@frame_roundtrip bit_codec sample_message); [|reflexivity].
  repeat split; vm_compute; congruence.
Defined.
