(* ===== verification/Sequence.v ===== *)
(** * Message sequence numbers (message/sequence.rs)

    The sender's counter ([SequenceManager]) and the kernel's per-node check
    ([SequenceChecker]).  The checker is characterised by the history of the
    operations applied to it: what it stores is the maximum of the numbers
    seen since the node's last reset, and it accepts exactly the new strict
    maxima. *)

From S2P Require Import Prelude Node.
Local Open Scope Z_scope.

(** ** Sender side *)
Record SequenceManager := mkSequenceManager { send_seq : Z; sm_node_id : NodeId }.

Definition sm_new (node_id : NodeId) : SequenceManager := mkSequenceManager 0 node_id.

(** [fetch_add(1)] returns the old value and wraps. *)
Definition next_sequence (m : SequenceManager) : SequenceManager * Z :=
  (mkSequenceManager (u64_add (send_seq m) 1) (sm_node_id m), send_seq m).

Definition current_sequence (m : SequenceManager) : Z := send_seq m.

(** The numbers of [n] successive calls of [next_sequence]. *)
Fixpoint take_sequences (n : nat) (m : SequenceManager) : list Z :=
  match n with
  | O => []
  | S n' => let (m', s) := next_sequence m in s :: take_sequences n' m'
  end.

(** ** Receiver side *)
Record SequenceChecker := mkSequenceChecker {
  last_received : gmap NodeId Z;
  window_size : Z
}.

Inductive SequenceCheckResult := InOrder | Gap (gap : Z).
Inductive SequenceError := Duplicate | OutOfOrder (expected actual : Z).

Definition checker_new (window : Z) : SequenceChecker := mkSequenceChecker ∅ window.

Definition check (c : SequenceChecker) (node_id : NodeId) (sequence : Z)
  : SequenceChecker * result SequenceError SequenceCheckResult :=
  match last_received c !! node_id with
  | None =>
      (mkSequenceChecker (<[node_id := sequence]> (last_received c)) (window_size c),
       Ok InOrder)
  | Some last =>
      if last <? sequence then
        let gap := sequence - last in
        (mkSequenceChecker (<[node_id := sequence]> (last_received c)) (window_size c),
         if window_size c <? gap then Ok (Gap gap)
         else if 1 <? gap then Ok (Gap gap)
         else Ok InOrder)
      else if sequence =? last then (c, Err Duplicate)
      else (c, Err (OutOfOrder (u64_add last 1) sequence))
  end.

Definition reset (c : SequenceChecker) (node_id : NodeId) : SequenceChecker :=
  mkSequenceChecker (delete node_id (last_received c)) (window_size c).

Definition get_last_sequence (c : SequenceChecker) (node_id : NodeId) : option Z :=
  last_received c !! node_id.

(** ** Histories *)
Inductive seq_op := OpCheck (n : NodeId) (s : Z) | OpReset (n : NodeId).

Definition seq_step (c : SequenceChecker) (op : seq_op) : SequenceChecker :=
  match op with
  | OpCheck n s => fst (check c n s)
  | OpReset n => reset c n
  end.

Definition seq_run (w : Z) (ops : list seq_op) : SequenceChecker :=
  foldl seq_step (checker_new w) ops.

(** The numbers checked for [n] since its last reset. *)
Definition seen_step (n : NodeId) (acc : list Z) (op : seq_op) : list Z :=
  match op with
  | OpCheck m s => if decide (m = n) then acc ++ [s] else acc
  | OpReset m => if decide (m = n) then [] else acc
  end.

Definition seen (n : NodeId) (ops : list seq_op) : list Z := foldl (seen_step n) [] ops.

Definition is_max (m : Z) (l : list Z) : Prop := m ∈ l /\ forall x, x ∈ l -> x <= m.

(** The contract of the checker against a history. *)
Definition stores_max (c : SequenceChecker) (ops : list seq_op) : Prop :=
  forall n, match get_last_sequence c n with
            | None => seen n ops = []
            | Some m => is_max m (seen n ops)
            end.

(** The state change of [check]: the larger of the stored and the new number. *)
Lemma check_last c n s k :
  last_received (fst (check c n s)) !! k =
  if decide (k = n)
  then Some (from_option (Z.max s) s (last_received c !! n))
  else last_received c !! k.
Proof.
  unfold check. destruct (last_received c !! n) as [m|] eqn:E; case_decide; subst; cbn.
  - destruct (m <? s) eqn:?; zbool; cbn; [rewrite lookup_insert_eq; f_equal; lia|].
    destruct (s =? m) eqn:?; zbool; cbn; rewrite E; f_equal; lia.
  - destruct (m <? s); cbn; [by rewrite lookup_insert_ne|]. by destruct (s =? m).
  - by rewrite lookup_insert_eq.
  - by rewrite lookup_insert_ne.
Qed.

Lemma is_max_snoc m l s : is_max m l -> is_max (Z.max s m) (l ++ [s]).
Proof.
  intros [Hin Hle]. split.
  - destruct (Z.max_spec s m) as [[? ->]|[? ->]]; set_solver.
  - intros x [?%Hle| ->%list_elem_of_singleton]%elem_of_app; lia.
Qed.

Lemma is_max_single s : is_max s [s].
Proof. split; [set_solver|]. intros x ->%list_elem_of_singleton. lia. Qed.

Lemma seq_run_snoc w ops op : seq_run w (ops ++ [op]) = seq_step (seq_run w ops) op.
Proof. unfold seq_run. by rewrite foldl_app. Qed.

Lemma seen_snoc n ops op : seen n (ops ++ [op]) = seen_step n (seen n ops) op.
Proof. unfold seen. by rewrite foldl_app. Qed.

Lemma stores_max_run w ops : stores_max (seq_run w ops) ops.
Proof.
  induction ops as [|op ops IH] using rev_ind; intros n; [done|].
  rewrite seq_run_snoc, seen_snoc. specialize (IH n). unfold get_last_sequence in *.
  destruct op as [m s|m]; cbn.
  - rewrite check_last. destruct (decide (n = m)) as [->|].
    + rewrite decide_True by done.
      destruct (last_received _ !! m); cbn; [by apply is_max_snoc|].
      rewrite IH. apply is_max_single.
    + by rewrite decide_False.
  - destruct (decide (m = n)) as [->|]; [by rewrite lookup_delete_eq|].
    by rewrite lookup_delete_ne.
Qed.

Lemma window_run w ops : window_size (seq_run w ops) = w.
Proof.
  induction ops as [|op ops IH] using rev_ind; [done|]. rewrite seq_run_snoc.
  destruct op as [n s|n]; cbn; [|done]. unfold check.
  destruct (_ !! _); [|done]. destruct (_ <? _); [done|]. by destruct (_ =? _).
Qed.

(** Whatever checks and resets were applied to a fresh checker, in any
    order and for any nodes, [get_last_sequence] is the maximum of the numbers
    checked for that node since its last reset, and [None] exactly when there
    was none. *)
Theorem sequence_last_is_max w ops n m :
  (get_last_sequence (seq_run w ops) n = Some m <-> is_max m (seen n ops)) /\
  (get_last_sequence (seq_run w ops) n = None <-> seen n ops = []).
Proof.
  pose proof (stores_max_run w ops n) as H.
  destruct (get_last_sequence _ n) as [k|]; split; split; try done.
  - by intros [= ->].
  - intros [Hm Hle]. destruct H as [Hk Hle']. f_equal.
    pose proof (Hle k Hk). pose proof (Hle' m Hm). lia.
  - intros E. rewrite E in H. destruct H as [?%not_elem_of_nil _]. done.
  - intros [Hm _]. rewrite H in Hm. by apply not_elem_of_nil in Hm.
Qed.

(** A checked number is accepted exactly when it is larger than every
    number checked for the node since its last reset; the rejection is
    [Duplicate] exactly when it equals the largest, and [OutOfOrder] names the
    successor of the largest; an accepted number that is not the first is
    reported with its distance to the largest unless that is 1 and within the
    window. *)
Theorem sequence_check_verdict w ops n s :
  let r := snd (check (seq_run w ops) n s) in
  (is_ok r = true <-> forall x, x ∈ seen n ops -> x < s) /\
  (r = Err Duplicate <-> is_max s (seen n ops)) /\
  (forall m, is_max m (seen n ops) ->
     r = if s <? m then Err (OutOfOrder (u64_add m 1) s)
         else if s =? m then Err Duplicate
         else if (w <? s - m) || (1 <? s - m) then Ok (Gap (s - m)) else Ok InOrder) /\
  (seen n ops = [] -> r = Ok InOrder).
Proof.
  cbn. pose proof (stores_max_run w ops n) as H. unfold get_last_sequence in H.
  unfold check. rewrite window_run.
  destruct (last_received _ !! n) as [k|].
  - assert (Hu : forall m, is_max m (seen n ops) -> m = k).
    { intros m [Hm Hle]. destruct H as [Hk Hle'].
      pose proof (Hle k Hk). pose proof (Hle' m Hm). lia. }
    assert (Hlt : (forall x, x ∈ seen n ops -> x < s) <-> k < s).
    { split; [intros Hx; by apply Hx, H|]. intros ? x ?%H. lia. }
    rewrite Hlt. split; [|split; [|split]].
    + destruct (Z.ltb_spec k s); [|destruct (s =? k); (split; [done|lia])].
      split; [done|]. intros _. by repeat case_match.
    + split; [|intros ->%Hu; by rewrite Z.ltb_irrefl, Z.eqb_refl].
      destruct (Z.ltb_spec k s); [by repeat case_match|].
      destruct (Z.eqb_spec s k) as [->|]; done.
    + intros m ->%Hu. destruct (Z.ltb_spec k s); destruct (Z.ltb_spec s k); try lia.
      * destruct (Z.eqb_spec s k); [lia|]. by destruct (w <? _), (1 <? _).
      * destruct (Z.eqb_spec s k); [lia|done].
      * by destruct (Z.eqb_spec s k); [|lia].
    + intros E. rewrite E in H. destruct H as [?%not_elem_of_nil _]. done.
  - rewrite H. unfold is_max. setoid_rewrite elem_of_nil. repeat split; naive_solver.
Qed.

(** ** Sender and checker together *)

Lemma take_sequences_seq n m :
  0 <= send_seq m -> send_seq m + Z.of_nat n <= 2 ^ 64 ->
  take_sequences n m = seqZ (send_seq m) (Z.of_nat n).
Proof.
  revert m. induction n as [|n IH]; intros m H0 Hn; [done|]. cbn [take_sequences next_sequence].
  rewrite seqZ_cons by lia. f_equal.
  rewrite Nat2Z.inj_succ, Z.pred_succ.
  destruct n as [|n]; [done|].
  rewrite IH; cbn [send_seq]; rewrite u64_add_small; unfold u64_max; lia || done.
Qed.

Fixpoint check_verdicts (c : SequenceChecker) (n : NodeId) (l : list Z)
  : list (result SequenceError SequenceCheckResult) :=
  match l with
  | [] => []
  | s :: l' => let (c', r) := check c n s in r :: check_verdicts c' n l'
  end.

Lemma check_increasing c n l :
  StronglySorted Z.lt l ->
  (forall m x, last_received c !! n = Some m -> x ∈ l -> m < x) ->
  Forall (fun r => is_ok r = true) (check_verdicts c n l).
Proof.
  intros Hs. revert c. induction Hs as [|s l Hs IH Hl]; intros c Hc; cbn; [done|].
  pose proof (check_last c n s n) as Hlast. rewrite decide_True in Hlast by done.
  destruct (check c n s) as [c' r] eqn:E. cbn in Hlast. constructor.
  - unfold check in E. destruct (last_received c !! n) as [m|] eqn:Em; [|by simplify_eq].
    specialize (Hc m s eq_refl). rewrite (proj2 (Z.ltb_lt m s)) in E by set_solver.
    simplify_eq. by repeat case_match.
  - apply IH. intros m x Hm Hx. rewrite Hlast in Hm. simplify_eq.
    rewrite Forall_forall in Hl. specialize (Hl x Hx).
    destruct (last_received c !! n) as [k|] eqn:Ek; cbn; [|done].
    specialize (Hc k x eq_refl). set_solver by lia.
Qed.

Lemma seqZ_sorted a n : StronglySorted Z.lt (seqZ a (Z.of_nat n)).
Proof.
  revert a. induction n as [|n IH]; intros a; [constructor|].
  rewrite seqZ_cons, Nat2Z.inj_succ, Z.pred_succ by lia.
  constructor; [apply IH|]. apply Forall_forall. intros x ?%elem_of_seqZ. lia.
Qed.

Lemma sublist_sorted (l1 l2 : list Z) :
  l1 `sublist_of` l2 -> StronglySorted Z.lt l2 -> StronglySorted Z.lt l1.
Proof.
  induction 1 as [|x l1 l2 Hsub IH|x l1 l2 Hsub IH]; intros Hs; [done| |].
  - inversion Hs as [|?? Hs' Hx]; subst. constructor; [by apply IH|].
    rewrite Forall_forall in Hx |- *. intros y Hy. by eapply Hx, elem_of_sublist.
  - inversion Hs; subst. by apply IH.
Qed.

(** Messages numbered by one [SequenceManager] (fewer than 2^64 of them)
    and delivered over a channel that may drop but neither reorders nor
    duplicates are all accepted by a checker that has not seen the node. *)
Theorem sequence_lossy_channel_accepted n id w delivered :
  Z.of_nat n <= 2 ^ 64 ->
  delivered `sublist_of` take_sequences n (sm_new id) ->
  Forall (fun r => is_ok r = true) (check_verdicts (checker_new w) id delivered).
Proof.
  intros Hn Hsub. rewrite take_sequences_seq in Hsub by (cbn; lia).
  apply check_increasing; [|done].
  eapply sublist_sorted; [done|]. apply seqZ_sorted.
Qed.

Lemma sequence_lossy_channel_accepted_witness :
  take_sequences 4 (sm_new "n") = [0; 1; 2; 3] /\
  check_verdicts (checker_new 10) "n" [0; 3] = [Ok InOrder; Ok (Gap 3)] /\
  Forall (fun r => is_ok r = true) (check_verdicts (checker_new 10) "n" [0; 3]).
Proof.
  split; [reflexivity|]. split; [reflexivity|].
  apply (sequence_lossy_channel_accepted 4 "n" 10 [0; 3]); [lia|].
  change (take_sequences 4 (sm_new "n")) with [0; 1; 2; 3].
  apply sublist_skip. do 2 apply sublist_cons. apply sublist_skip, sublist_nil.
Defined.
