(* ===== verification/Ack.v ===== *)
(** * Acknowledgement and retry (message/ack.rs)

    [AckManager] keeps the messages waiting for an acknowledgement, the ids
    acknowledged and the messages given up.  Instants are nanoseconds, read by
    the caller and passed in; the iteration order of the pending map is any
    enumeration ([HashIter]).  The critical sections of the three locks are
    the steps: [check_timeout] takes the failed lock after it released the
    pending one, and no other operation writes [failed], so it is one step. *)

From S2P Require Import Prelude RustStr F64 Topic Frame.
Local Open Scope Z_scope.

Record AckConfig := mkAckConfig {
  ack_timeout_secs : Z;
  max_retries : Z;
  initial_retry_delay_ms : Z;
  max_retry_delay_ms : Z;
  retry_backoff_multiplier : f64
}.

Definition AckConfig_default : AckConfig :=
  mkAckConfig 30 3 1000 30000 (f64_of_Z 2).

Record PendingAck := mkPendingAck {
  message : Message;
  sent_at : Z;
  retry_count : Z;
  next_retry_at : Z
}.

Record AckManager := mkAckManager {
  config : AckConfig;
  pending : gmap string PendingAck;
  confirmed : gmap string Z;
  failed : list (Message * string)
}.

Definition from_secs (s : Z) : Z := s * 1000000000.
Definition from_millis (ms : Z) : Z := ms * 1000000.

Definition ack_new (cfg : AckConfig) : AckManager := mkAckManager cfg ∅ ∅ [].

Definition calculate_retry_delay (cfg : AckConfig) (count : Z) : Z :=
  let base := f64_of_Z (initial_retry_delay_ms cfg) in
  let multiplier := powi (retry_backoff_multiplier cfg) (as_i32 count) in
  let delay := fmul base multiplier in
  f64_to_u64 (fmin delay (f64_of_Z (max_retry_delay_ms cfg))).

Definition mid (m : Message) : string := msg_id (header m).

(** The two reads of the clock are [now] and [now']. *)
Definition record_sent (a : AckManager) (now now' : Z) (msg : Message) : AckManager :=
  let delay := calculate_retry_delay (config a) 0 in
  let p := mkPendingAck msg now 0 (now' + from_millis delay) in
  mkAckManager (config a) (<[mid msg := p]> (pending a)) (confirmed a) (failed a).

Definition handle_ack (a : AckManager) (now : Z) (id : string) : AckManager * bool :=
  match pending a !! id with
  | Some _ =>
      (mkAckManager (config a) (delete id (pending a)) (<[id := now]> (confirmed a)) (failed a),
       true)
  | None => (a, false)
  end.

Definition max_retries_error : string := "达到最大重试次数".

(** One turn of the loop over [pending.iter_mut()]. *)
Definition timeout_step (cfg : AckConfig) (now : Z)
    (acc : gmap string PendingAck * list Message * list (string * string))
    (entry : string * PendingAck) :=
  let '(pend, to_retry, to_fail) := acc in
  let '(id, p) := entry in
  if from_secs (ack_timeout_secs cfg) <? sat_sub now (sent_at p) then
    if max_retries cfg <=? retry_count p then
      (pend, to_retry, to_fail ++ [(id, max_retries_error)])
    else if next_retry_at p <=? now then
      let count := retry_count p + 1 in
      let delay := calculate_retry_delay cfg count in
      (<[id := mkPendingAck (message p) now count (now + from_millis delay)]> pend,
       to_retry ++ [message p], to_fail)
    else acc
  else acc.

(** One turn of [to_fail.iter().filter_map(...)]. *)
Definition fail_step (acc : gmap string PendingAck * list (Message * string))
    (entry : string * string) :=
  let '(pend, entries) := acc in
  let '(id, error) := entry in
  match pend !! id with
  | Some p => (delete id pend, entries ++ [(message p, error)])
  | None => acc
  end.

Definition check_timeout `{!HashIter string} (a : AckManager) (now : Z) : AckManager * list Message :=
  let '(pend, to_retry, to_fail) :=
    foldl (timeout_step (config a) now) (pending a, [], []) (hiter (pending a)) in
  let '(pend', failed_entries) := foldl fail_step (pend, []) to_fail in
  (mkAckManager (config a) pend' (confirmed a) (failed a ++ failed_entries), to_retry).

Definition get_failed_messages (a : AckManager) : list (Message * string) := failed a.

Definition cleanup_old_confirmed (a : AckManager) (now max_age_secs : Z) : AckManager :=
  mkAckManager (config a) (pending a)
    (filter (fun kv => (sat_sub now (kv.2) <? from_secs max_age_secs) = true) (confirmed a))
    (failed a).

(** [uuid], [now] and the JSON serialiser ([serde_json::to_vec] of the two
    fields) come from outside. *)
Definition create_ack_message (json_to_vec : list (string * string) -> option bytes)
    (uuid now original_msg_id src : string) : Message :=
  mkMessage (Topic_new "sys/ack")
    (mkHeader uuid now src (Some original_msg_id) 0 false)
    (default "" (json_to_vec [("original_msg_id", original_msg_id); ("status", "acknowledged")])).

(** One firing of the timer of [retry_loop]: [clock i] are the two instants
    [record_sent] reads for the [i]-th message to retry, [accept m] is the
    outcome of [retry_tx.send].  The result carries what went into the channel
    and whether the loop goes on. *)
Fixpoint resend (a : AckManager) (clock : nat -> Z * Z) (accept : Message -> bool)
    (l : list Message) : AckManager * list Message * bool :=
  match l with
  | [] => (a, [], true)
  | msg :: l' =>
      let a1 := record_sent a (clock 0%nat).1 (clock 0%nat).2 msg in
      if accept msg then
        let '(a2, out, go) := resend a1 (fun i => clock (S i)) accept l' in
        (a2, msg :: out, go)
      else (a1, [], false)
  end.

Definition retry_tick `{!HashIter string} (a : AckManager) (now now_cleanup : Z)
    (clock : nat -> Z * Z) (accept : Message -> bool) : AckManager * list Message * bool :=
  let '(a1, to_retry) := check_timeout a now in
  let '(a2, out, go) := resend a1 clock accept to_retry in
  if go then (cleanup_old_confirmed a2 now_cleanup 300, out, true) else (a2, out, false).

(** ** Specification of [check_timeout]: what happens to one entry *)
Definition timed_out (cfg : AckConfig) (now : Z) (p : PendingAck) : bool :=
  from_secs (ack_timeout_secs cfg) <? sat_sub now (sent_at p).
Definition gives_up (cfg : AckConfig) (now : Z) (p : PendingAck) : bool :=
  timed_out cfg now p && (max_retries cfg <=? retry_count p).
Definition resends (cfg : AckConfig) (now : Z) (p : PendingAck) : bool :=
  timed_out cfg now p && (retry_count p <? max_retries cfg) && (next_retry_at p <=? now).
Definition bumped (cfg : AckConfig) (now : Z) (p : PendingAck) : PendingAck :=
  mkPendingAck (message p) now (retry_count p + 1)
    (now + from_millis (calculate_retry_delay cfg (retry_count p + 1))).
Definition survive (cfg : AckConfig) (now : Z) (p : PendingAck) : PendingAck :=
  if resends cfg now p then bumped cfg now p else p.

(** The entries of [l] satisfying a boolean test of the value. *)
Definition having (f : PendingAck -> bool) (l : list (string * PendingAck)) :=
  filter (fun kv => f (kv.2) = true) l.

Lemma timeout_step_spec cfg now pend R F id p :
  timeout_step cfg now (pend, R, F) (id, p) =
  (if resends cfg now p then <[id := bumped cfg now p]> pend else pend,
   R ++ (message <$> (having (resends cfg now) [(id, p)]).*2),
   F ++ ((fun k => (k, max_retries_error)) <$> (having (gives_up cfg now) [(id, p)]).*1)).
Proof.
  unfold timeout_step, having, resends, gives_up, timed_out, bumped.
  destruct (_ <? sat_sub _ _) eqn:E1; cbn; rewrite ?E1; cbn; [|by rewrite !app_nil_r].
  destruct (max_retries cfg <=? retry_count p) eqn:E2; cbn; rewrite ?E2;
    destruct (retry_count p <? max_retries cfg) eqn:E3; zbool; try lia; cbn;
    rewrite ?app_nil_r; try done.
  destruct (next_retry_at p <=? now) eqn:E4; cbn; by rewrite ?app_nil_r.
Qed.

Lemma having_cons f kv l : having f (kv :: l) = having f [kv] ++ having f l.
Proof. unfold having. change (kv :: l) with ([kv] ++ l). apply filter_app. Qed.

Lemma timeout_loop_lists cfg now l pend R F :
  exists pend',
    foldl (timeout_step cfg now) (pend, R, F) l =
    (pend', R ++ (message <$> (having (resends cfg now) l).*2),
     F ++ ((fun k => (k, max_retries_error)) <$> (having (gives_up cfg now) l).*1)) /\
    (NoDup l.*1 ->
     forall k, pend' !! k = match (list_to_map l : gmap string PendingAck) !! k with
                            | Some p => if resends cfg now p then Some (bumped cfg now p) else pend !! k
                            | None => pend !! k
                            end).
Proof.
  revert pend R F. induction l as [|[id p] l IH]; intros pend R F.
  - exists pend. cbn. rewrite !app_nil_r. done.
  - cbn [foldl]. rewrite timeout_step_spec, (having_cons (resends cfg now) (id, p) l), (having_cons (gives_up cfg now) (id, p) l).
    rewrite !fmap_app. destruct (IH (if resends cfg now p then <[id := bumped cfg now p]> pend else pend)
       (R ++ (message <$> (having (resends cfg now) [(id, p)]).*2))
       (F ++ ((fun k => (k, max_retries_error)) <$> (having (gives_up cfg now) [(id, p)]).*1)))
      as (pend' & Heq & Hk).
    exists pend'. rewrite Heq, <- !app_assoc. split; [done|].
    cbn. intros Hnd%NoDup_cons k. destruct Hnd as [Hnin Hnd]. rewrite (Hk Hnd k).
    destruct (decide (k = id)) as [->|Hne].
    + rewrite lookup_insert_eq, not_elem_of_list_to_map_1 by done.
      destruct (resends cfg now p); [by rewrite lookup_insert_eq|done].
    + rewrite lookup_insert_ne by done.
      destruct ((list_to_map l : gmap string PendingAck) !! k) as [q|]; [|destruct (resends cfg now p); [by rewrite lookup_insert_ne|done]].
      destruct (resends cfg now q); [done|].
      destruct (resends cfg now p); [by rewrite lookup_insert_ne|done].
Qed.

Lemma fail_loop ids : forall pend es,
  NoDup ids ->
  exists pend',
    foldl fail_step (pend, es) ((fun k => (k, max_retries_error)) <$> ids) =
    (pend', es ++ ((fun p => (message p, max_retries_error)) <$> omap (fun k => pend !! k) ids)) /\
    forall k, pend' !! k = if decide (k ∈ ids) then None else pend !! k.
Proof.
  induction ids as [|id ids IH]; intros pend es Hnd; cbn.
  - exists pend. rewrite app_nil_r. split; [done|]. intros k. by rewrite decide_False by set_solver.
  - apply NoDup_cons in Hnd as [Hnin Hnd].
    destruct (pend !! id) as [p|] eqn:E.
    + destruct (IH (delete id pend) (es ++ [(message p, max_retries_error)]) Hnd)
        as (pend' & Heq & Hk).
      exists pend'. cbn. rewrite Heq, <- app_assoc. split.
      * cbn. do 4 f_equal. apply list_omap_ext, Forall_Forall2_diag, Forall_forall.
        intros k Hin. apply lookup_delete_ne. by intros ->.
      * intros k. rewrite Hk. destruct (decide (k = id)) as [->|].
        -- rewrite decide_False, lookup_delete_eq, decide_True by set_solver. done.
        -- rewrite lookup_delete_ne by done.
           destruct (decide (k ∈ ids)); [rewrite decide_True by set_solver; done|].
           rewrite decide_False by set_solver. done.
    + destruct (IH pend es Hnd) as (pend' & Heq & Hk). exists pend'. split; [done|].
      intros k. rewrite Hk. destruct (decide (k = id)) as [->|].
      * rewrite decide_False, decide_True by set_solver. done.
      * destruct (decide (k ∈ ids)); [rewrite decide_True by set_solver; done|].
        rewrite decide_False by set_solver. done.
Qed.

Lemma gives_up_not_resends cfg now p : gives_up cfg now p = true -> resends cfg now p = false.
Proof.
  unfold gives_up, resends. intros [-> ?]%andb_true_iff. zbool.
  rewrite (proj2 (Z.ltb_ge _ _)); done.
Qed.

Lemma elem_of_having f l k p : (k, p) ∈ having f l <-> f p = true /\ (k, p) ∈ l.
Proof. unfold having. by rewrite list_elem_of_filter. Qed.

Lemma having_keys_NoDup f l : NoDup l.*1 -> NoDup (having f l).*1.
Proof.
  intros Hnd. eapply sublist_NoDup; [exact Hnd|].
  apply fmap_sublist, sublist_filter.
Qed.

Lemma elem_of_having_keys f (l : list (string * PendingAck)) k :
  k ∈ (having f l).*1 <-> exists p, f p = true /\ (k, p) ∈ l.
Proof.
  rewrite list_elem_of_fmap. split.
  - intros ([k' p] & -> & Hp). apply elem_of_having in Hp. by exists p.
  - intros (p & Hp). exists (k, p). split; [done|]. by apply elem_of_having.
Qed.

Lemma omap_having_fst (g : string -> option PendingAck) f (l : list (string * PendingAck)) :
  (forall k p, (k, p) ∈ having f l -> g k = Some p) ->
  omap g (having f l).*1 = (having f l).*2.
Proof.
  generalize (having f l). clear l. intros l. induction l as [|[k p] l IH]; intros Hg; [done|]. cbn.
  rewrite (Hg k p) by set_solver. f_equal. apply IH. intros. apply Hg. set_solver.
Qed.

Section check.
Context `{HI : !HashIter string}.

Lemma check_timeout_spec a now :
  (forall id, pending (check_timeout a now).1 !! id =
     p ← pending a !! id;
     if gives_up (config a) now p then None else Some (survive (config a) now p)) /\
  (check_timeout a now).2 = message <$> (having (resends (config a) now) (hiter (pending a))).*2 /\
  failed (check_timeout a now).1 =
    failed a ++ ((fun p => (message p, max_retries_error)) <$>
                 (having (gives_up (config a) now) (hiter (pending a))).*2) /\
  confirmed (check_timeout a now).1 = confirmed a /\
  config (check_timeout a now).1 = config a.
Proof.
  unfold check_timeout. set (l := hiter (pending a)).
  assert (Hnd : NoDup l.*1) by apply NoDup_hiter_fst.
  assert (Hl : forall k, (list_to_map l : gmap string PendingAck) !! k = pending a !! k).
  { intros k. apply option_eq. intros p. rewrite <- elem_of_list_to_map by done.
    apply elem_of_hiter. }
  destruct (timeout_loop_lists (config a) now l (pending a) [] []) as (pend1 & -> & H1).
  specialize (H1 Hnd). cbn.
  destruct (fail_loop (having (gives_up (config a) now) l).*1 pend1 []) as (pend2 & -> & H2);
    [by apply having_keys_NoDup|]. cbn. split; [|split; [done|split; [|done]]].
  - intros id. rewrite H2, H1, Hl.
    destruct (pending a !! id) as [p|] eqn:E; cbn; [|by destruct (decide _)].
    assert (Hin : (id, p) ∈ l) by (by apply elem_of_hiter).
    destruct (gives_up (config a) now p) eqn:G.
    + rewrite decide_True; [done|]. apply elem_of_having_keys. eauto.
    + rewrite decide_False; [unfold survive; by destruct (resends _ _ _)|].
      intros (q & Hq & Hq')%elem_of_having_keys. apply elem_of_hiter in Hq'. congruence.
  - f_equal. f_equal. apply omap_having_fst. intros k p [Hg Hin]%elem_of_having.
    assert (Hp : pending a !! k = Some p) by (by apply elem_of_hiter).
    rewrite H1, Hl, Hp, (gives_up_not_resends _ _ _ Hg). done.
Qed.

(** The key of an entry is the id of its message. *)
Definition pending_wf (a : AckManager) : Prop :=
  map_Forall (fun id p => mid (message p) = id) (pending a).

Lemma survive_message cfg now p : message (survive cfg now p) = message p.
Proof. unfold survive, bumped. by destruct (resends cfg now p). Qed.

Lemma record_sent_wf a n n' m : pending_wf a -> pending_wf (record_sent a n n' m).
Proof. intros Ha. by apply map_Forall_insert_2. Qed.

Lemma handle_ack_wf a n id : pending_wf a -> pending_wf (handle_ack a n id).1.
Proof.
  intros Ha. unfold handle_ack. destruct (pending a !! id); [|done].
  by apply map_Forall_delete.
Qed.

Lemma check_timeout_wf a now : pending_wf a -> pending_wf (check_timeout a now).1.
Proof.
  intros Ha id p. rewrite (proj1 (check_timeout_spec a now) id).
  destruct (pending a !! id) as [q|] eqn:E; cbn; [|done].
  destruct (gives_up _ _ _); [done|]. intros [= <-]. rewrite survive_message. by apply Ha.
Qed.

(** ** Traces of operations *)
Inductive ack_op :=
| ORecord (now now' : Z) (m : Message)
| OAck (now : Z) (id : string)
| OCheck (now : Z)
| OCleanup (now age : Z).

(** The manager and the ids for which [handle_ack] answered [true]. *)
Definition ack_step (st : AckManager * list string) (op : ack_op) : AckManager * list string :=
  let '(a, acked) := st in
  match op with
  | ORecord now now' m => (record_sent a now now' m, acked)
  | OAck now id =>
      let '(a', ok) := handle_ack a now id in (a', if ok then acked ++ [id] else acked)
  | OCheck now => ((check_timeout a now).1, acked)
  | OCleanup now age => (cleanup_old_confirmed a now age, acked)
  end.

Definition ack_run (cfg : AckConfig) (ops : list ack_op) : AckManager * list string :=
  foldl ack_step (ack_new cfg, []) ops.

Definition recorded (ops : list ack_op) : list string :=
  omap (fun op => match op with ORecord _ _ m => Some (mid m) | _ => None end) ops.

Definition keys (m : gmap string PendingAck) : list string := (map_to_list m).*1.

Lemma elem_of_keys m k : k ∈ keys m <-> is_Some (m !! k).
Proof.
  unfold keys. rewrite list_elem_of_fmap. split.
  - intros ([? p] & -> & Hin%elem_of_map_to_list). by exists p.
  - intros [p Hp]. exists (k, p). split; [done|]. by apply elem_of_map_to_list.
Qed.

Lemma keys_insert m k p : m !! k = None -> keys (<[k := p]> m) ≡ₚ k :: keys m.
Proof. intros Hk. unfold keys. by rewrite map_to_list_insert. Qed.

Lemma keys_delete m k p : m !! k = Some p -> keys m ≡ₚ k :: keys (delete k m).
Proof. intros Hk. unfold keys. by rewrite <- (map_to_list_delete m k p Hk). Qed.

Definition failed_ids (a : AckManager) : list string := (fun x => mid x.1) <$> failed a.

Lemma check_timeout_conserves a now :
  pending_wf a ->
  keys (pending a) ++ failed_ids a ≡ₚ
  keys (pending (check_timeout a now).1) ++ failed_ids (check_timeout a now).1.
Proof.
  intros Hwf. destruct (check_timeout_spec a now) as (Hp & _ & Hf & _).
  unfold failed_ids. rewrite Hf, fmap_app, <- list_fmap_compose.
  set (l := hiter (pending a)) in *. set (g := gives_up (config a) now) in *.
  assert (Hids : (fun x => mid x.1) ∘ (fun p => (message p, max_retries_error)) <$> (having g l).*2
                 = (having g l).*1).
  { rewrite <- list_fmap_compose. apply list_fmap_ext. intros i [k p] Hi. cbn.
    apply list_elem_of_lookup_2, elem_of_having in Hi as [_ Hi%elem_of_hiter]. by apply Hwf. }
  rewrite Hids, (Permutation_app_comm (fmap _ (failed a))), app_assoc.
  apply Permutation_app_tail.
  apply NoDup_Permutation; [apply NoDup_fst_map_to_list| |].
  - apply NoDup_app. split; [apply NoDup_fst_map_to_list|]. split.
    + intros k [q Hq]%elem_of_keys (p & Hg & Hin%elem_of_hiter)%elem_of_having_keys.
      rewrite Hp, Hin in Hq. cbn in Hq. fold g in Hq. by rewrite Hg in Hq.
    + apply having_keys_NoDup, NoDup_hiter_fst.
  - intros k. rewrite elem_of_app, !elem_of_keys, elem_of_having_keys, Hp. split.
    + intros [p Hk]. rewrite Hk. cbn. fold g. destruct (g p) eqn:G; [|by left].
      right. exists p. split; [done|]. by apply elem_of_hiter.
    + intros [[q Hq]|(p & _ & Hin%elem_of_hiter)]; [|by exists p].
      destruct (pending a !! k); [by eexists|done].
Qed.

Lemma ack_run_snoc cfg ops op : ack_run cfg (ops ++ [op]) = ack_step (ack_run cfg ops) op.
Proof. unfold ack_run. by rewrite foldl_app. Qed.

Lemma ack_run_wf cfg ops : pending_wf (ack_run cfg ops).1.
Proof.
  induction ops as [|op ops IH] using rev_ind; [by apply map_Forall_empty|].
  rewrite ack_run_snoc. destruct (ack_run cfg ops) as [a acked]. cbn in IH.
  destruct op as [n n' m|n id|n|n age]; cbn.
  - by apply record_sent_wf.
  - pose proof (handle_ack_wf a n id IH). by destruct (handle_ack a n id).
  - by apply check_timeout_wf.
  - done.
Qed.

Lemma recorded_snoc ops op :
  recorded (ops ++ [op]) =
  recorded ops ++ match op with ORecord _ _ m => [mid m] | _ => [] end.
Proof. unfold recorded. rewrite omap_app. by destruct op. Qed.

(** Conservation: in any sequence of sends, acknowledgements, timeout
    checks and clean-ups whose messages have distinct ids, every message sent
    is exactly once among the pending, the acknowledged and the failed
    ones. *)
Theorem ack_conservation cfg ops :
  NoDup (recorded ops) ->
  recorded ops ≡ₚ
  keys (pending (ack_run cfg ops).1) ++ (ack_run cfg ops).2 ++ failed_ids (ack_run cfg ops).1.
Proof.
  induction ops as [|op ops IH] using rev_ind; [done|].
  rewrite recorded_snoc. intros (Hnd & Hdisj & _)%NoDup_app. specialize (IH Hnd).
  pose proof (ack_run_wf cfg ops) as Hwf. rewrite ack_run_snoc.
  destruct (ack_run cfg ops) as [a acked]. cbn in IH, Hwf.
  destruct op as [n n' m|n id|n|n age]; cbn -[check_timeout]; rewrite ?app_nil_r.
  - rewrite keys_insert.
    + rewrite <- Permutation_cons_append, IH. done.
    + apply eq_None_not_Some. intros Hs%elem_of_keys.
      apply (Hdisj (mid m)); [|set_solver]. rewrite IH. set_solver.
  - unfold handle_ack. destruct (pending a !! id) as [p|] eqn:E; cbn; [|done].
    rewrite IH, (keys_delete _ _ _ E). unfold failed_ids. cbn.
    rewrite <- app_assoc. cbn. by rewrite !Permutation_middle.
  - rewrite IH. rewrite !(Permutation_app_comm acked), !app_assoc.
    apply Permutation_app_tail. by apply check_timeout_conserves.
  - done.
Qed.

(** ** Giving up *)

(** [check_timeout] repeated at the instants [ts]. *)
Definition check_all (a : AckManager) (ts : list Z) : AckManager :=
  foldl (fun a t => (check_timeout a t).1) a ts.

Lemma failed_grows a ts x : x ∈ failed a -> x ∈ failed (check_all a ts).
Proof.
  revert a. induction ts as [|t ts IH]; intros a Hx; [done|]. cbn. apply IH.
  destruct (check_timeout_spec a t) as (_ & _ & -> & _). set_solver.
Qed.

Lemma check_gives_up a id p t :
  pending a !! id = Some p -> gives_up (config a) t p = true ->
  (message p, max_retries_error) ∈ failed (check_timeout a t).1.
Proof.
  intros Hp Hg. destruct (check_timeout_spec a t) as (_ & _ & -> & _).
  apply elem_of_app. right. apply list_elem_of_fmap. exists p. split; [done|].
  apply list_elem_of_fmap. exists (id, p). split; [done|].
  apply elem_of_having. split; [done|]. by apply elem_of_hiter.
Qed.

(** Successive instants more than [d] apart, the first after [t0]. *)
Fixpoint spaced (d t0 : Z) (ts : list Z) : Prop :=
  match ts with
  | [] => True
  | t :: ts' => t0 + d < t /\ spaced d t ts'
  end.

(** A message that is never acknowledged is given up: when the checks
    are more than the timeout and every retry delay apart, the check after
    [max_retries] retries moves it to the failed list. *)
Theorem unacked_message_fails ts : forall a id p d,
  pending a !! id = Some p ->
  from_secs (ack_timeout_secs (config a)) <= d ->
  (forall c, 0 <= c <= max_retries (config a) ->
     from_millis (calculate_retry_delay (config a) c) <= d) ->
  0 <= retry_count p <= max_retries (config a) -> next_retry_at p <= sent_at p + d ->
  spaced d (sent_at p) ts ->
  max_retries (config a) - retry_count p < Z.of_nat (length ts) ->
  (message p, max_retries_error) ∈ failed (check_all a ts).
Proof.
  induction ts as [|t ts IH]; intros a id p d Hp Hto Hdel Hc Hnext Hsp Hlen; cbn in Hlen; [lia|].
  destruct Hsp as [Ht Hsp].
  assert (Hout : timed_out (config a) t p = true).
  { apply Z.ltb_lt. unfold sat_sub. lia. }
  destruct (check_timeout_spec a t) as (Hpend & _ & _ & _ & Hcfg).
  change (check_all a (t :: ts)) with (check_all (check_timeout a t).1 ts).
  destruct (Z.eq_dec (retry_count p) (max_retries (config a))) as [Hmax|Hmax].
  - apply failed_grows. apply (check_gives_up a id); [done|]. unfold gives_up.
    rewrite Hout. apply Z.leb_le. lia.
  - assert (Hre : resends (config a) t p = true).
    { unfold resends. rewrite Hout. apply andb_true_iff. split; [apply Z.ltb_lt|apply Z.leb_le]; lia. }
    specialize (Hpend id). rewrite Hp in Hpend. cbn in Hpend.
    unfold survive in Hpend. rewrite Hre in Hpend.
    destruct (gives_up (config a) t p) eqn:G; [apply gives_up_not_resends in G; congruence|].
    change (message p) with (message (bumped (config a) t p)).
    apply (IH _ id _ d); rewrite ?Hcfg; cbn; try done; try lia.
    specialize (Hdel (retry_count p + 1)). lia.
Qed.

(** ** The retry loop *)

(** The manager while [retry_loop] runs in the background: other tasks send
    and acknowledge between two firings of its timer; after a failed send on
    the retry channel the loop has returned. *)
Inductive loop_op :=
| LRecord (now now' : Z) (m : Message)
| LAck (now : Z) (id : string)
| LTick (now now_cleanup : Z) (clock : nat -> Z * Z) (accept : Message -> bool).

Definition loop_step (st : AckManager * bool) (op : loop_op) : AckManager * bool :=
  let '(a, running) := st in
  match op with
  | LRecord now now' m => (record_sent a now now' m, running)
  | LAck now id => ((handle_ack a now id).1, running)
  | LTick now nowc clock accept =>
      if running then
        let '(a', _, go) := retry_tick a now nowc clock accept in (a', go)
      else st
  end.

Definition loop_run (cfg : AckConfig) (ops : list loop_op) : AckManager * bool :=
  foldl loop_step (ack_new cfg, true) ops.

(** No pending message has a retry on its count, those of [ids] excepted. *)
Definition counts_zero_except (ids : list string) (a : AckManager) : Prop :=
  map_Forall (fun id p => id ∈ ids \/ retry_count p = 0) (pending a).

Lemma record_sent_zero a n n' m ids :
  counts_zero_except (mid m :: ids) a -> counts_zero_except ids (record_sent a n n' m).
Proof.
  intros Ha id p. cbn. destruct (decide (id = mid m)) as [->|Hne].
  - rewrite lookup_insert_eq. intros [= <-]. by right.
  - rewrite lookup_insert_ne by done. intros Hp. destruct (Ha id p Hp); set_solver.
Qed.

Lemma resend_zero l : forall a clock accept a' out,
  counts_zero_except (mid <$> l) a -> resend a clock accept l = (a', out, true) ->
  counts_zero_except [] a' /\ out = l.
Proof.
  induction l as [|m l IH]; intros a clock accept a' out Ha; cbn; [by intros [= <- <-]|].
  destruct (accept m); [|done].
  destruct (resend _ _ _ l) as [[a2 out2] go] eqn:E. intros [= <- <- ->].
  apply IH in E as [? ->]; [done|]. by apply record_sent_zero.
Qed.

Lemma resend_failed l : forall a clock accept,
  failed (resend a clock accept l).1.1 = failed a /\
  config (resend a clock accept l).1.1 = config a.
Proof.
  induction l as [|m l IH]; intros a clock accept; cbn; [done|].
  destruct (accept m); [|done].
  specialize (IH (record_sent a (clock 0%nat).1 (clock 0%nat).2 m) (fun i => clock (S i)) accept).
  by destruct (resend _ _ _ l) as [[a2 out2] go].
Qed.

Lemma check_timeout_zero a now :
  1 <= max_retries (config a) -> pending_wf a -> counts_zero_except [] a ->
  counts_zero_except (mid <$> (check_timeout a now).2) (check_timeout a now).1 /\
  failed (check_timeout a now).1 = failed a.
Proof.
  intros Hmax Hwf Hz. destruct (check_timeout_spec a now) as (Hp & Hr & Hf & _).
  assert (Hg : forall id p, pending a !! id = Some p -> gives_up (config a) now p = false).
  { intros id p Hid. destruct (Hz id p Hid) as [?%not_elem_of_nil|Hc]; [done|].
    unfold gives_up. rewrite Hc, (proj2 (Z.leb_gt _ _)) by lia. apply andb_false_r. }
  split.
  - intros id q. rewrite Hp. destruct (pending a !! id) as [p|] eqn:E; cbn; [|done].
    rewrite (Hg id p E). intros [= <-]. unfold survive.
    destruct (resends (config a) now p) eqn:R.
    + left. rewrite Hr. apply list_elem_of_fmap. exists (message p). split.
      * symmetry. by apply Hwf.
      * apply list_elem_of_fmap. exists p. split; [done|]. apply list_elem_of_fmap.
        exists (id, p). split; [done|]. apply elem_of_having. split; [done|]. by apply elem_of_hiter.
    + destruct (Hz id p E) as [?%not_elem_of_nil|Hc]; [done|]. by right.
  - rewrite Hf. destruct (having (gives_up (config a) now) (hiter (pending a))) as [|[id p] l] eqn:E; [by apply app_nil_r|].
    exfalso. assert (Hin : (id, p) ∈ having (gives_up (config a) now) (hiter (pending a)))
      by (rewrite E; by left).
    apply elem_of_having in Hin as [G Hin%elem_of_hiter]. rewrite (Hg id p Hin) in G. done.
Qed.

Lemma resend_wf l : forall a clock accept,
  pending_wf a -> pending_wf (resend a clock accept l).1.1.
Proof.
  induction l as [|m l IH]; intros a clock accept Ha; cbn; [done|].
  apply (record_sent_wf a (clock 0%nat).1 (clock 0%nat).2 m) in Ha.
  destruct (accept m); [|done]. apply (IH _ (fun i => clock (S i)) accept) in Ha.
  by destruct (resend _ _ _ l) as [[a2 out2] go].
Qed.

Definition loop_inv (cfg : AckConfig) (st : AckManager * bool) : Prop :=
  config st.1 = cfg /\ pending_wf st.1 /\ failed st.1 = [] /\
  (st.2 = true -> counts_zero_except [] st.1).

Lemma retry_tick_inv cfg a n nc clock accept :
  1 <= max_retries cfg -> loop_inv cfg (a, true) -> loop_inv cfg (loop_step (a, true) (LTick n nc clock accept)).
Proof.
  intros Hmax (Hcfg & Hwf & Hf & Hz). cbn in Hcfg, Hwf, Hf, Hz. specialize (Hz eq_refl).
  cbn [loop_step]. unfold retry_tick.
  pose proof (check_timeout_wf a n Hwf) as Hwf1.
  destruct (check_timeout_zero a n) as [Hz1 Hf1]; [by rewrite Hcfg|done..|].
  destruct (check_timeout_spec a n) as (_ & _ & _ & _ & Hcfg1).
  destruct (check_timeout a n) as [a1 l]. cbn in *.
  pose proof (resend_wf l a1 clock accept Hwf1) as Hwf2.
  destruct (resend_failed l a1 clock accept) as [Hf2 Hcfg2].
  destruct (resend a1 clock accept l) as [[a2 out] go] eqn:E. cbn in *.
  destruct go; unfold loop_inv; cbn; rewrite Hf2, Hf1, Hcfg2, Hcfg1; [|done].
  apply resend_zero in E as [? _]; [|done]. done.
Qed.

Lemma loop_run_inv cfg ops : 1 <= max_retries cfg -> loop_inv cfg (loop_run cfg ops).
Proof.
  intros Hmax. induction ops as [|op ops IH] using rev_ind.
  - repeat split; try apply map_Forall_empty. intros _. apply map_Forall_empty.
  - unfold loop_run in *. rewrite foldl_app. cbn [foldl]. destruct (foldl _ _ ops) as [a running].
    destruct op as [n n' m|n id|n nc clock accept]; cbn -[retry_tick];
      [destruct IH as (Hcfg & Hwf & Hf & Hz)..|].
    + split; [done|]. split; [by apply record_sent_wf|]. split; [done|]. intros Hr.
      apply record_sent_zero. intros id p Hp. destruct (Hz Hr id p Hp); set_solver.
    + split; [|split; [by apply handle_ack_wf|]]; unfold handle_ack; cbn in *;
        destruct (pending a !! id); cbn; try done.
      split; [done|]. intros Hr. apply map_Forall_delete. by apply Hz.
    + destruct running; [by apply retry_tick_inv|done].
Qed.

(** Under [retry_loop] nothing is ever given up: because the loop
    records each retried message as newly sent, its retry count restarts at 0
    and the failed list stays empty for ever, whatever is sent, acknowledged
    or left unacknowledged, for every configuration that allows a retry. *)
Theorem retry_loop_never_gives_up cfg ops :
  1 <= max_retries cfg -> get_failed_messages (loop_run cfg ops).1 = [].
Proof. intros Hmax. by destruct (loop_run_inv cfg ops Hmax) as (_ & _ & ? & _). Qed.
End check.

(** ** Evaluation *)
Definition msg_of (id : string) : Message :=
  mkMessage (Topic_new "t") (mkHeader id "" "n" None 0 true) "".

Definition sec (n : Z) : Z := from_secs n.

Example default_retry_delays :
  calculate_retry_delay AckConfig_default <$> [0; 1; 2; 3; 4; 5] = [1000; 2000; 4000; 8000; 16000; 30000].
Proof. vm_compute. reflexivity. Qed.

Lemma ack_conservation_witness :
  let ops := [ORecord 0 0 (msg_of "a"); ORecord 0 0 (msg_of "b"); OAck 1 "a"; OCheck (sec 31)] in
  (@ack_run (gmap_iter _) AckConfig_default ops).2 = ["a"] /\
  ["a"; "b"] ≡ₚ keys (pending (@ack_run (gmap_iter _) AckConfig_default ops).1) ++
      (@ack_run (gmap_iter _) AckConfig_default ops).2 ++
      failed_ids (@ack_run (gmap_iter _) AckConfig_default ops).1.
Proof.
  split; [vm_compute; reflexivity|].
  apply (@ack_conservation (gmap_iter _) AckConfig_default
    [ORecord 0 0 (msg_of "a"); ORecord 0 0 (msg_of "b"); OAck 1 "a"; OCheck (sec 31)]).
  apply NoDup_cons. split; [|apply NoDup_singleton]. intros [=]%list_elem_of_singleton.
Defined.

Lemma unacked_message_fails_witness :
  (msg_of "a", max_retries_error) ∈
  failed (@check_all (gmap_iter _) (record_sent (ack_new AckConfig_default) 0 0 (msg_of "a"))
            [sec 31; sec 62; sec 93; sec 124]).
Proof.
  apply (@unacked_message_fails (gmap_iter _) [sec 31; sec 62; sec 93; sec 124]
    (record_sent (ack_new AckConfig_default) 0 0 (msg_of "a")) "a"
    (mkPendingAck (msg_of "a") 0 0 (from_millis 1000)) (sec 30)).
  - vm_compute. reflexivity.
  - reflexivity.
  - intros c Hc. cbn in Hc.
    assert (c = 0 \/ c = 1 \/ c = 2 \/ c = 3) as [->|[->|[->| ->]]] by lia;
      vm_compute; congruence.
  - cbn. lia.
  - vm_compute. congruence.
  - cbn. unfold sec, from_secs. lia.
  - cbn. lia.
Defined.

Lemma retry_loop_never_gives_up_witness :
  get_failed_messages
    (@loop_run (gmap_iter _) AckConfig_default
      (LRecord 0 0 (msg_of "a") ::
       ((fun k => LTick (sec (31 * k)) (sec (31 * k)) (fun _ => (sec (31 * k), sec (31 * k))) (fun _ => true))
        <$> [1; 2; 3; 4; 5; 6]))).1 = [].
Proof. apply (@retry_loop_never_gives_up (gmap_iter _) AckConfig_default). vm_compute. congruence. Defined.
