(* ===== verification/Broker.v ===== *)
(** * The broker: discovery tables and control-plane routing (kernel/broker.rs)

    Five hash maps and the operations on them, translated one by one; loops
    over a map go through [HashIter], so that every theorem holds for any
    iteration order.  The invariant [broker_inv] ties the two publisher
    tables together. *)

From S2P Require Import Prelude RustStr Topic Node Frame.

Record PublisherInfo := mkPublisherInfo {
  p_node_id : NodeId;
  pub_addr : string;
  topics : list string
}.

Record ServiceProviderInfo := mkServiceProviderInfo {
  s_node_id : NodeId;
  rep_addr : string;
  service_name : string
}.

#[export] Instance PublisherInfo_eq_dec : EqDecision PublisherInfo.
Proof. solve_decision. Defined.
#[export] Instance ServiceProviderInfo_eq_dec : EqDecision ServiceProviderInfo.
Proof. solve_decision. Defined.

Record Broker := mkBroker {
  node_identities : gmap NodeId bytes;
  subscriptions : gmap string (list NodeId);
  publishers : gmap NodeId PublisherInfo;
  topic_publishers : gmap string (list NodeId);
  service_providers : gmap string ServiceProviderInfo
}.

Definition broker_new : Broker := mkBroker ∅ ∅ ∅ ∅ ∅.

Definition register_identity (b : Broker) (n : NodeId) (identity : bytes) : Broker :=
  mkBroker (<[n := identity]> (node_identities b)) (subscriptions b) (publishers b)
    (topic_publishers b) (service_providers b).

(** [v.retain(|id| id != node_id)]. *)
Definition retain_ne (n : NodeId) (l : list NodeId) : list NodeId :=
  filter (fun id => id <> n) l.

(** [for t in ts { if let Some(pubs) = m.get_mut(t) { pubs.retain(..) } }]. *)
Definition retain_topics (n : NodeId) (ts : list string) (m : gmap string (list NodeId))
  : gmap string (list NodeId) :=
  foldl (fun m t => alter (retain_ne n) t m) m ts.

(** [for t in ts { m.entry(t).or_default().push(n) }]. *)
Definition push_topics (n : NodeId) (ts : list string) (m : gmap string (list NodeId))
  : gmap string (list NodeId) :=
  foldl (fun m t => <[t := default [] (m !! t) ++ [n]]> m) m ts.

Definition deregister_identity (b : Broker) (n : NodeId) : Broker :=
  mkBroker
    (delete n (node_identities b))
    (retain_ne n <$> subscriptions b)
    (delete n (publishers b))
    (match publishers b !! n with
     | Some info => retain_topics n (topics info) (topic_publishers b)
     | None => topic_publishers b
     end)
    (filter (fun kv => s_node_id (kv.2) <> n) (service_providers b)).

Definition subscribe (b : Broker) (n : NodeId) (topic_pattern : string) : Broker :=
  let subs := default [] (subscriptions b !! topic_pattern) in
  let subs' := if decide (n ∈ subs) then subs else subs ++ [n] in
  mkBroker (node_identities b) (<[topic_pattern := subs']> (subscriptions b)) (publishers b)
    (topic_publishers b) (service_providers b).

Definition unsubscribe (b : Broker) (n : NodeId) (topic_pattern : string) : Broker :=
  mkBroker (node_identities b) (alter (retain_ne n) topic_pattern (subscriptions b)) (publishers b)
    (topic_publishers b) (service_providers b).

Definition register_publisher (b : Broker) (info : PublisherInfo) : Broker :=
  let n := p_node_id info in
  let tp := match publishers b !! n with
            | Some old_info => retain_topics n (topics old_info) (topic_publishers b)
            | None => topic_publishers b
            end in
  mkBroker (node_identities b) (subscriptions b) (<[n := info]> (publishers b))
    (push_topics n (topics info) tp) (service_providers b).

Definition register_service_provider (b : Broker) (info : ServiceProviderInfo) : Broker :=
  mkBroker (node_identities b) (subscriptions b) (publishers b) (topic_publishers b)
    (<[service_name info := info]> (service_providers b)).

Definition find_service_provider (b : Broker) (name : string) : option ServiceProviderInfo :=
  service_providers b !! name.

Definition get_identity (b : Broker) (n : NodeId) : option bytes := node_identities b !! n.

(** The publisher records of a list of ids, the unknown ones skipped. *)
Definition infos_of (b : Broker) (ids : list NodeId) : list PublisherInfo :=
  omap (fun id => publishers b !! id) ids.

(** [v.sort_by(node_id)] then [v.dedup_by(node_id)]. *)
Definition sort_dedup_publishers (l : list PublisherInfo) : list PublisherInfo :=
  dedup_by (fun a b => bool_decide (p_node_id a = p_node_id b)) (sort_by_key p_node_id l).

Section lookups.
Context `{HI : !HashIter string}.

Definition find_subscribers (b : Broker) (t : string) : list NodeId :=
  sort_dedup
    (foldl (fun result '(pattern, subs) =>
              if topic_matches pattern t then result ++ subs else result)
           [] (hiter (subscriptions b))).

Definition find_subscribers_for_publisher (b : Broker) (publisher_topics : list string) : list NodeId :=
  sort_dedup
    (foldl (fun result t =>
        foldl (fun result '(pattern, subs) =>
                 if topic_matches pattern t then result ++ subs else result)
              result (hiter (subscriptions b)))
      [] publisher_topics).

Definition push_new_publisher (result : list PublisherInfo) (info : PublisherInfo) : list PublisherInfo :=
  if existsb (fun r => bool_decide (p_node_id r = p_node_id info)) result
  then result else result ++ [info].

Definition find_publishers (b : Broker) (t : string) : list PublisherInfo :=
  let exact := match topic_publishers b !! t with Some ids => infos_of b ids | None => [] end in
  foldl (fun result '(pattern, ids) =>
           if has_char "*"%char pattern && topic_matches pattern t
           then foldl push_new_publisher result (infos_of b ids)
           else result)
        exact (hiter (topic_publishers b)).

Definition matching_publishers (b : Broker) (pattern : string) : list PublisherInfo :=
  if has_char "*"%char pattern then
    foldl (fun acc '(t, ids) => if topic_matches pattern t then acc ++ infos_of b ids else acc)
          [] (hiter (topic_publishers b))
  else match topic_publishers b !! pattern with Some ids => infos_of b ids | None => [] end.

Definition find_publishers_for_subscriptions (b : Broker) (subs : list string)
  : list (string * list PublisherInfo) :=
  foldl (fun result pattern =>
           match matching_publishers b pattern with
           | [] => result
           | m => result ++ [(pattern, sort_dedup_publishers m)]
           end) [] subs.

Definition find_targets (b : Broker) (msg : Message) : list (bytes * NodeId) :=
  omap (fun id => identity ← node_identities b !! id; Some (identity, id))
    (filter (fun id => id <> src_node (header msg)) (find_subscribers b (as_str (topic msg)))).

Definition route_message `{RmpCodec} (b : Broker) (msg : Message)
  : result (FrameError rmp_error) (list (bytes * list bytes)) :=
  let subscribers := find_subscribers b (as_str (topic msg)) in
  res_bind (encode msg) (fun frames =>
    Ok (omap (fun id => identity ← node_identities b !! id; Some (identity, frames))
          (filter (fun id => id <> src_node (header msg)) subscribers))).
End lookups.

(** ** The invariant *)
Definition subs_of (b : Broker) (pattern : string) : list NodeId :=
  default [] (subscriptions b !! pattern).
Definition pubs_of (m : gmap string (list NodeId)) (t : string) : list NodeId :=
  default [] (m !! t).

(** [n] announces topic [t] in its publisher record. *)
Definition publishes (b : Broker) (n : NodeId) (t : string) : Prop :=
  exists info, publishers b !! n = Some info /\ t ∈ topics info.

Record broker_inv (b : Broker) : Prop := {
  inv_pub_key : map_Forall (fun n info => p_node_id info = n) (publishers b);
  inv_index : forall t n, n ∈ pubs_of (topic_publishers b) t <-> publishes b n t;
  inv_subs : forall pat, NoDup (subs_of b pat);
  inv_svc_key : map_Forall (fun s info => service_name info = s) (service_providers b)
}.

Lemma elem_of_retain_ne n l x : x ∈ retain_ne n l <-> x ∈ l /\ x <> n.
Proof. unfold retain_ne. rewrite list_elem_of_filter. tauto. Qed.

Lemma elem_of_retain_topics n ts m t x :
  x ∈ pubs_of (retain_topics n ts m) t <-> x ∈ pubs_of m t /\ ~ (x = n /\ t ∈ ts).
Proof.
  revert m. induction ts as [|u ts IH]; intros m; [cbn; set_solver|].
  change (retain_topics n (u :: ts) m) with (retain_topics n ts (alter (retain_ne n) u m)).
  rewrite IH. unfold pubs_of. destruct (decide (u = t)) as [->|].
  - rewrite lookup_alter_eq. destruct (m !! t); cbn; [rewrite elem_of_retain_ne|]; set_solver.
  - rewrite lookup_alter_ne by done. set_solver.
Qed.

Lemma elem_of_push_topics n ts m t x :
  x ∈ pubs_of (push_topics n ts m) t <-> x ∈ pubs_of m t \/ (x = n /\ t ∈ ts).
Proof.
  revert m. induction ts as [|u ts IH]; intros m; [cbn; set_solver|].
  change (push_topics n (u :: ts) m) with (push_topics n ts (<[u := pubs_of m u ++ [n]]> m)).
  rewrite IH. unfold pubs_of at 1. destruct (decide (u = t)) as [->|].
  - rewrite lookup_insert_eq. cbn. unfold pubs_of. set_solver.
  - rewrite lookup_insert_ne by done. unfold pubs_of. set_solver.
Qed.

Lemma broker_new_inv : broker_inv broker_new.
Proof.
  split; try apply map_Forall_empty.
  - intros t n. split; [by intros ?%not_elem_of_nil|]. by intros (info & ? & _).
  - intros pat. apply NoDup_nil_2.
Qed.

Lemma register_identity_inv b n i : broker_inv b -> broker_inv (register_identity b n i).
Proof. by intros []. Qed.

Lemma subscribe_inv b n pat : broker_inv b -> broker_inv (subscribe b n pat).
Proof.
  intros [H1 H2 H3 H4]. split; [done..| |done]. intros p. unfold subs_of. cbn.
  destruct (decide (p = pat)) as [->|]; [rewrite lookup_insert_eq|by rewrite lookup_insert_ne; [apply H3|]].
  cbn. specialize (H3 pat). unfold subs_of in H3. case_decide; [done|].
  apply NoDup_app. split; [done|]. split; [set_solver|apply NoDup_singleton].
Qed.

Lemma unsubscribe_inv b n pat : broker_inv b -> broker_inv (unsubscribe b n pat).
Proof.
  intros [H1 H2 H3 H4]. split; [done..| |done]. intros p. specialize (H3 p). unfold subs_of in *. cbn.
  destruct (decide (p = pat)) as [->|]; [rewrite lookup_alter_eq|by rewrite lookup_alter_ne].
  destruct (subscriptions b !! pat); cbn in *; [by apply NoDup_filter|done].
Qed.

Lemma register_service_provider_inv b i : broker_inv b -> broker_inv (register_service_provider b i).
Proof. intros [H1 H2 H3 H4]. split; try done. by apply map_Forall_insert_2. Qed.

Lemma deregister_identity_inv b n : broker_inv b -> broker_inv (deregister_identity b n).
Proof.
  intros [H1 H2 H3 H4]. split; cbn.
  - by apply map_Forall_delete.
  - intros t x. unfold publishes. cbn.
    trans (x ∈ pubs_of (topic_publishers b) t /\ x <> n).
    + destruct (publishers b !! n) as [info|] eqn:E.
      * rewrite elem_of_retain_topics, H2. unfold publishes. split; [|naive_solver].
        intros [(i & Hi & Ht) Hn]. split; [by exists i|]. intros ->. apply Hn. by simplify_eq.
      * split; [|by intros [??]]. intros Hx. split; [done|]. intros ->.
        apply H2 in Hx as (i & ? & _). congruence.
    + rewrite H2. unfold publishes. split.
      * intros [(i & ? & ?) ?]. exists i. by rewrite lookup_delete_ne.
      * intros (i & [? ?]%lookup_delete_Some & ?). split; [by exists i|done].
  - intros p. unfold subs_of. cbn. rewrite lookup_fmap. specialize (H3 p). unfold subs_of in H3.
    destruct (subscriptions b !! p); cbn in *; [by apply NoDup_filter|done].
  - intros s i [? _]%map_lookup_filter_Some. by apply H4.
Qed.

Lemma register_publisher_inv b i : broker_inv b -> broker_inv (register_publisher b i).
Proof.
  intros [H1 H2 H3 H4]. split; cbn; [by apply map_Forall_insert_2| |done..].
  intros t x. rewrite elem_of_push_topics. unfold publishes. cbn.
  destruct (decide (x = p_node_id i)) as [->|Hne].
  - rewrite lookup_insert_eq. split.
    + intros [Hx|[_ ?]]; [|by exists i]. exfalso.
      destruct (publishers b !! p_node_id i) as [old|] eqn:E.
      * rewrite elem_of_retain_topics, H2 in Hx. destruct Hx as [(j & Hj & Ht) Hn].
        apply Hn. by simplify_eq.
      * apply H2 in Hx as (j & ? & _). congruence.
    + intros (j & [= <-] & ?). by right.
  - rewrite lookup_insert_ne by done. fold (publishes b x t). rewrite <- H2.
    destruct (publishers b !! p_node_id i); [rewrite elem_of_retain_topics|]; naive_solver.
Qed.

#[export] Hint Resolve broker_new_inv register_identity_inv subscribe_inv unsubscribe_inv
  register_service_provider_inv deregister_identity_inv register_publisher_inv : ccode.

(** ** Sequences of operations *)
Inductive broker_op :=
| BIdentity (n : NodeId) (identity : bytes)
| BDeregister (n : NodeId)
| BSubscribe (n : NodeId) (pattern : string)
| BUnsubscribe (n : NodeId) (pattern : string)
| BPublisher (info : PublisherInfo)
| BService (info : ServiceProviderInfo).

Definition broker_step (b : Broker) (op : broker_op) : Broker :=
  match op with
  | BIdentity n i => register_identity b n i
  | BDeregister n => deregister_identity b n
  | BSubscribe n p => subscribe b n p
  | BUnsubscribe n p => unsubscribe b n p
  | BPublisher i => register_publisher b i
  | BService i => register_service_provider b i
  end.

Definition broker_run (ops : list broker_op) : Broker := foldl broker_step broker_new ops.

Lemma broker_step_inv b op : broker_inv b -> broker_inv (broker_step b op).
Proof. destruct op; cbn; auto with ccode. Qed.

Lemma broker_run_inv ops : broker_inv (broker_run ops).
Proof.
  unfold broker_run. induction ops as [|op ops IH] using rev_ind; [apply broker_new_inv|].
  rewrite foldl_app. by apply broker_step_inv.
Qed.

(** C23.  Whatever registrations, subscriptions and deregistrations happened,
    in any order, the topic index and the publisher records agree: a node is
    listed under a topic exactly when its current record announces it; keys
    are the ids of their records and no subscriber is listed twice. *)
Theorem broker_tables_consistent ops :
  (forall t n, n ∈ pubs_of (topic_publishers (broker_run ops)) t <-> publishes (broker_run ops) n t) /\
  (forall n info, publishers (broker_run ops) !! n = Some info -> p_node_id info = n) /\
  (forall s info, service_providers (broker_run ops) !! s = Some info -> service_name info = s) /\
  (forall pat, NoDup (subs_of (broker_run ops) pat)).
Proof. destruct (broker_run_inv ops) as [H1 H2 H3 H4]. by split_and!. Qed.

(** ** Deregistration *)
Definition mentions (b : Broker) (n : NodeId) : Prop :=
  is_Some (node_identities b !! n) \/ (exists pat, n ∈ subs_of b pat) \/
  is_Some (publishers b !! n) \/ (exists t, n ∈ pubs_of (topic_publishers b) t) \/
  (exists s info, service_providers b !! s = Some info /\ s_node_id info = n).

(** Two brokers hold the same about node [m]. *)
Definition same_about (m : NodeId) (b b' : Broker) : Prop :=
  node_identities b !! m = node_identities b' !! m /\
  (forall pat, m ∈ subs_of b pat <-> m ∈ subs_of b' pat) /\
  publishers b !! m = publishers b' !! m /\
  (forall t, m ∈ pubs_of (topic_publishers b) t <-> m ∈ pubs_of (topic_publishers b') t) /\
  (forall s info, s_node_id info = m ->
     service_providers b !! s = Some info <-> service_providers b' !! s = Some info).

Lemma elem_of_subs_deregister b n pat x :
  x ∈ subs_of (deregister_identity b n) pat <-> x ∈ subs_of b pat /\ x <> n.
Proof.
  unfold subs_of. cbn. rewrite lookup_fmap.
  destruct (subscriptions b !! pat); cbn; [apply elem_of_retain_ne|set_solver].
Qed.

Lemma elem_of_pubs_deregister b n t x :
  broker_inv b ->
  x ∈ pubs_of (topic_publishers (deregister_identity b n)) t <->
  x ∈ pubs_of (topic_publishers b) t /\ x <> n.
Proof.
  intros Hinv. rewrite (inv_index _ (deregister_identity_inv b n Hinv)), (inv_index _ Hinv).
  unfold publishes. cbn. setoid_rewrite lookup_delete_Some. naive_solver.
Qed.

(** After [deregister_identity n] the broker holds nothing about [n] in
    any of its five tables, and what it holds about the other nodes is
    unchanged. *)
Theorem deregister_complete ops n :
  let b := broker_run ops in
  ~ mentions (deregister_identity b n) n /\
  forall m, m <> n -> same_about m b (deregister_identity b n).
Proof.
  cbn zeta. pose proof (broker_run_inv ops) as Hinv. revert Hinv.
  generalize (broker_run ops). intros b Hinv. split.
  - intros [Hs|[[pat Hs]|[Hs|[[t Ht]|(s & i & Hs & Hn)]]]].
    + cbn in Hs. rewrite lookup_delete_eq in Hs. by destruct Hs.
    + by apply elem_of_subs_deregister in Hs as [_ ?].
    + cbn in Hs. rewrite lookup_delete_eq in Hs. by destruct Hs.
    + by apply elem_of_pubs_deregister in Ht as [_ ?].
    + by apply map_lookup_filter_Some in Hs as [_ ?].
  - intros m Hm. split_and!.
    + cbn. by rewrite lookup_delete_ne.
    + intros pat. rewrite elem_of_subs_deregister. tauto.
    + cbn. by rewrite lookup_delete_ne.
    + intros t. rewrite elem_of_pubs_deregister by done. tauto.
    + intros s i Hi. cbn. rewrite map_lookup_filter_Some. cbn. rewrite Hi. tauto.
Qed.

(** ** Lookups *)
Lemma elem_of_collect {K V A} (f : K -> bool) (g : V -> list A) (l : list (K * V)) acc x :
  x ∈ foldl (fun acc '(k, v) => if f k then acc ++ g v else acc) acc l <->
  x ∈ acc \/ exists k v, (k, v) ∈ l /\ f k = true /\ x ∈ g v.
Proof.
  revert acc. induction l as [|[k v] l IH]; intros acc; cbn [foldl].
  - split; [by left|]. intros [?|(? & ? & ?%not_elem_of_nil & _)]; done.
  - rewrite IH. setoid_rewrite elem_of_cons.
    destruct (f k) eqn:E; [rewrite elem_of_app|].
    + split; [intros [[?|?]|(k' & v' & ? & ? & ?)]; eauto 10|].
      intros [?|(k' & v' & [[= -> ->]|?] & ? & ?)]; eauto 10.
    + split; [intros [?|(k' & v' & ? & ? & ?)]; eauto 10|].
      intros [?|(k' & v' & [[= -> ->]|?] & ? & ?)]; [eauto|congruence|eauto 10].
Qed.

Lemma elem_of_infos b ids info :
  info ∈ infos_of b ids <-> exists n, n ∈ ids /\ publishers b !! n = Some info.
Proof. unfold infos_of. by rewrite list_elem_of_omap. Qed.

Lemma elem_of_pubs_lookup m t (ids : list NodeId) (n : NodeId) :
  m !! t = Some ids -> n ∈ ids <-> n ∈ pubs_of m t.
Proof. intros H. unfold pubs_of. by rewrite H. Qed.

(** [n] is subscribed to a pattern that matches [t]. *)
Definition subscribed (b : Broker) (n : NodeId) (t : string) : Prop :=
  exists pat, topic_matches pat t = true /\ n ∈ subs_of b pat.

(** [info] is the record of a node that announces a topic satisfying [P]. *)
Definition announces (b : Broker) (info : PublisherInfo) (P : string -> Prop) : Prop :=
  exists n t, publishers b !! n = Some info /\ t ∈ topics info /\ P t.

Section lookup_specs.
Context `{HI : !HashIter string}.

Lemma elem_of_find_subscribers b t n : n ∈ find_subscribers b t <-> subscribed b n t.
Proof.
  unfold find_subscribers. rewrite elem_of_sort_dedup.
  rewrite (elem_of_collect (fun p => topic_matches p t) (fun x : list NodeId => x)).
  unfold subscribed, subs_of. split.
  - intros [?%not_elem_of_nil|(p & l & Hp%elem_of_hiter & ? & ?)]; [done|].
    exists p. by rewrite Hp.
  - intros (p & ? & Hn). right. destruct (subscriptions b !! p) as [l|] eqn:E; cbn in Hn;
      [|by apply not_elem_of_nil in Hn].
    exists p, l. split; [by apply elem_of_hiter|done].
Qed.

Lemma find_subscribers_sorted b t : StronglySorted str_lt (find_subscribers b t).
Proof. apply sort_dedup_sorted. Qed.

Lemma elem_of_find_subscribers_for_publisher b ts n :
  n ∈ find_subscribers_for_publisher b ts <-> exists t, t ∈ ts /\ subscribed b n t.
Proof.
  unfold find_subscribers_for_publisher. rewrite elem_of_sort_dedup.
  assert (Hgen : forall acc, n ∈ foldl (fun result t => foldl (fun result '(pattern, subs) =>
      if topic_matches pattern t then result ++ subs else result) result (hiter (subscriptions b)))
      acc ts <-> n ∈ acc \/ exists t, t ∈ ts /\ subscribed b n t).
  { induction ts as [|t ts IH]; intros acc; cbn [foldl];
      [split; [by left|]; intros [?|(? & ?%not_elem_of_nil & _)]; done|].
    rewrite IH, (elem_of_collect (fun p => topic_matches p t) (fun x : list NodeId => x)).
    assert (Hs : (exists k v, (k, v) ∈ hiter (subscriptions b) /\ topic_matches k t = true /\ n ∈ v)
                 <-> subscribed b n t).
    { rewrite <- elem_of_find_subscribers. unfold find_subscribers. rewrite elem_of_sort_dedup.
      rewrite (elem_of_collect (fun p => topic_matches p t) (fun x : list NodeId => x)).
      split; [by right|]. intros [?%not_elem_of_nil|?]; done. }
    rewrite Hs. setoid_rewrite elem_of_cons. naive_solver. }
  rewrite Hgen, elem_of_nil. naive_solver.
Qed.

Lemma elem_of_find_targets b msg i n :
  (i, n) ∈ find_targets b msg <->
  n <> src_node (header msg) /\ node_identities b !! n = Some i /\ subscribed b n (as_str (topic msg)).
Proof.
  unfold find_targets. rewrite list_elem_of_omap.
  setoid_rewrite list_elem_of_filter. setoid_rewrite elem_of_find_subscribers. split.
  - intros (x & [? ?] & (j & Hj & [= -> ->])%bind_Some). done.
  - intros (? & Hi & ?). exists n. split; [done|]. by rewrite Hi.
Qed.

Lemma find_targets_NoDup b msg : NoDup (find_targets b msg).*2.
Proof.
  unfold find_targets.
  assert (Hnd : NoDup (filter (fun id => id <> src_node (header msg))
                         (find_subscribers b (as_str (topic msg))))).
  { apply NoDup_filter. eapply (sorted_lt_NoDup (fun s => s)), find_subscribers_sorted. }
  revert Hnd. generalize (filter (fun id => id <> src_node (header msg))
                         (find_subscribers b (as_str (topic msg)))).
  intros l. induction 1 as [|x l Hx Hnd IH]; [constructor|]. cbn.
  destruct (node_identities b !! x) as [i|]; cbn; [|done].
  constructor; [|done]. rewrite list_elem_of_fmap. intros ([j y] & -> & Hin).
  apply list_elem_of_omap in Hin as (z & Hz & (k & _ & [= -> ->])%bind_Some). done.
Qed.

Lemma route_message_targets `{RmpCodec} b msg :
  route_message b msg =
  match encode msg with
  | Ok frames => Ok ((fun t => (t.1, frames)) <$> find_targets b msg)
  | Err e => Err e
  end.
Proof.
  unfold route_message, find_targets. destruct (encode msg) as [frames|e]; cbn; [|done].
  f_equal. induction (filter _ _) as [|x l IH]; [done|]. cbn.
  destruct (node_identities b !! x); cbn; [by f_equal|done].
Qed.

(** C32.  Routing: the message is encoded once and handed to exactly the
    registered nodes other than the sender that are subscribed to a matching
    pattern, each of them once; an encoding error is returned and nothing is
    routed. *)
Theorem route_message_exact `{RmpCodec} b msg :
  route_message b msg =
    (match encode msg with
     | Ok frames => Ok ((fun t => (t.1, frames)) <$> find_targets b msg)
     | Err e => Err e
     end) /\
  NoDup (find_targets b msg).*2 /\
  (forall i n, (i, n) ∈ find_targets b msg <->
     n <> src_node (header msg) /\ node_identities b !! n = Some i /\
     subscribed b n (as_str (topic msg))).
Proof.
  split; [apply route_message_targets|]. split; [apply find_targets_NoDup|].
  intros i n. apply elem_of_find_targets.
Qed.

(** ** Publisher discovery *)
Lemma elem_of_index b info t :
  broker_inv b ->
  (exists n, n ∈ pubs_of (topic_publishers b) t /\ publishers b !! n = Some info) <->
  announces b info (fun u => u = t).
Proof.
  intros Hinv. unfold announces. setoid_rewrite (inv_index _ Hinv). unfold publishes.
  split; naive_solver.
Qed.

Definition discovers (pattern t : string) : Prop :=
  if has_char "*"%char pattern then topic_matches pattern t = true else t = pattern.

Lemma elem_of_exact b t info :
  info ∈ (match topic_publishers b !! t with Some ids => infos_of b ids | None => [] end) <->
  exists n, n ∈ pubs_of (topic_publishers b) t /\ publishers b !! n = Some info.
Proof.
  unfold pubs_of. destruct (topic_publishers b !! t); cbn; [apply elem_of_infos|].
  split; [by intros ?%not_elem_of_nil|]. by intros (n & ?%not_elem_of_nil & _).
Qed.

Lemma elem_of_matching b pattern info :
  broker_inv b -> info ∈ matching_publishers b pattern <-> announces b info (discovers pattern).
Proof.
  intros Hinv. unfold matching_publishers, discovers.
  destruct (has_char "*"%char pattern); [|rewrite elem_of_exact; by apply elem_of_index].
  rewrite (elem_of_collect (topic_matches pattern) (infos_of b)). split.
  - intros [?%not_elem_of_nil|(t & ids & Hl%elem_of_hiter & Hm & Hi)]; [done|].
    apply elem_of_infos in Hi as (n & Hn & Hp).
    rewrite (elem_of_pubs_lookup _ _ _ _ Hl), (inv_index _ Hinv) in Hn.
    destruct Hn as (i & ? & ?). simplify_eq. by exists n, t.
  - intros (n & t & Hp & Ht & Hm). right.
    assert (Hn : n ∈ pubs_of (topic_publishers b) t) by (apply (inv_index _ Hinv); by exists info).
    unfold pubs_of in Hn. destruct (topic_publishers b !! t) as [ids|] eqn:E; cbn in Hn;
      [|by apply not_elem_of_nil in Hn].
    exists t, ids. split; [by apply elem_of_hiter|]. split; [done|].
    apply elem_of_infos. by exists n.
Qed.

(** A record the publisher table holds under its own id. *)
Definition known (b : Broker) (info : PublisherInfo) : Prop :=
  publishers b !! p_node_id info = Some info.

Lemma known_inj b x y : known b x -> known b y -> p_node_id x = p_node_id y -> x = y.
Proof. unfold known. intros Hx Hy E. rewrite E in Hx. congruence. Qed.

Lemma infos_known b ids x : broker_inv b -> x ∈ infos_of b ids -> known b x.
Proof.
  intros Hinv (n & _ & Hn)%elem_of_infos. unfold known.
  by rewrite (inv_pub_key _ Hinv n x Hn).
Qed.

Lemma announces_known b x P : broker_inv b -> announces b x P -> known b x.
Proof.
  intros Hinv (n & t & Hn & _). unfold known. by rewrite (inv_pub_key _ Hinv n x Hn).
Qed.

Lemma elem_of_sort_dedup_publishers b l x :
  (forall y, y ∈ l -> known b y) -> x ∈ sort_dedup_publishers l <-> x ∈ l.
Proof.
  intros Hk. unfold sort_dedup_publishers, dedup_by.
  pose proof (sort_by_key_perm p_node_id l) as Hp.
  destruct (sort_by_key p_node_id l) as [|y k].
  { symmetry in Hp. apply Permutation_nil_r in Hp as ->. done. }
  rewrite <- Hp. split.
  - intros Hx. apply (dedup_from_keys p_node_id) in Hx. by rewrite elem_of_cons.
  - intros Hx. pose proof Hx as Hx'. rewrite elem_of_cons in Hx'.
    apply (dedup_from_complete p_node_id) in Hx' as (z & Hz & E).
    assert (z = x) as <-; [|done].
    apply (known_inj b); [| |done]; apply Hk; rewrite <- Hp; [|done].
    apply (dedup_from_keys p_node_id) in Hz. by rewrite elem_of_cons.
Qed.

Lemma sort_dedup_publishers_sorted l :
  StronglySorted (fun x y => str_lt (p_node_id x) (p_node_id y)) (sort_dedup_publishers l).
Proof.
  unfold sort_dedup_publishers, dedup_by.
  pose proof (sort_by_key_sorted p_node_id l) as Hs.
  destruct (sort_by_key p_node_id l); [constructor|]. by apply (dedup_from_sorted p_node_id).
Qed.

Lemma find_publishers_for_subscriptions_eq b subs :
  find_publishers_for_subscriptions b subs =
  (fun p => (p, sort_dedup_publishers (matching_publishers b p))) <$>
    filter (fun p => matching_publishers b p <> []) subs.
Proof.
  unfold find_publishers_for_subscriptions.
  cut (forall acc, foldl (fun result pattern =>
           match matching_publishers b pattern with
           | [] => result
           | m => result ++ [(pattern, sort_dedup_publishers m)]
           end) acc subs = acc ++ ((fun p => (p, sort_dedup_publishers (matching_publishers b p))) <$>
    filter (fun p => matching_publishers b p <> []) subs)); [by intros ->|].
  induction subs as [|p subs IH]; intros acc; cbn [foldl]; [by rewrite app_nil_r|].
  rewrite filter_cons, IH. destruct (matching_publishers b p) as [|x l] eqn:E.
  - by rewrite decide_False by (intros H; by apply H).
  - rewrite decide_True by done. cbn. by rewrite E, <- app_assoc.
Qed.

(** Discovery for a subscriber: the answer lists exactly the subscribed
    patterns some publisher serves, in their order, each with the records of
    exactly the publishers that announce a topic it discovers, sorted by id and
    without repetition. *)
Theorem find_publishers_for_subscriptions_exact ops subs :
  let b := broker_run ops in
  let result := find_publishers_for_subscriptions b subs in
  (forall pat l, (pat, l) ∈ result ->
     pat ∈ subs /\ l <> [] /\
     StronglySorted (fun x y => str_lt (p_node_id x) (p_node_id y)) l /\
     forall info, info ∈ l <-> announces b info (discovers pat)) /\
  (forall pat info, pat ∈ subs -> announces b info (discovers pat) -> pat ∈ result.*1) /\
  result.*1 `sublist_of` subs.
Proof.
  cbn zeta. pose proof (broker_run_inv ops) as Hinv. revert Hinv.
  generalize (broker_run ops). intros b Hinv. rewrite find_publishers_for_subscriptions_eq.
  split; [|split].
  - intros pat l (p & [= -> ->] & [Hne Hp]%list_elem_of_filter)%list_elem_of_fmap.
    assert (Hk : forall y, y ∈ matching_publishers b p -> known b y).
    { intros y Hy%elem_of_matching; [|done]. by eapply announces_known. }
    split; [done|]. split; [|split; [apply sort_dedup_publishers_sorted|]].
    + intros E. apply Hne. destruct (matching_publishers b p) as [|x l']; [done|].
      assert (x ∈ sort_dedup_publishers (x :: l')) as Hx by (apply (elem_of_sort_dedup_publishers b); set_solver).
      rewrite E in Hx. by apply not_elem_of_nil in Hx.
    + intros info. rewrite (elem_of_sort_dedup_publishers b) by done. by apply elem_of_matching.
  - intros pat info Hin Ha%elem_of_matching; [|done].
    rewrite <- list_fmap_compose. apply list_elem_of_fmap. exists pat. split; [done|].
    apply list_elem_of_filter. split; [|done]. intros E. rewrite E in Ha. by apply not_elem_of_nil in Ha.
  - rewrite <- list_fmap_compose. change (fst ∘ _) with (fun p : string => p).
    rewrite list_fmap_id. apply sublist_filter.
Qed.

Lemma elem_of_push_all b l : forall result x,
  (forall y, y ∈ result -> known b y) -> (forall y, y ∈ l -> known b y) ->
  x ∈ foldl push_new_publisher result l <-> x ∈ result \/ x ∈ l.
Proof.
  induction l as [|i l IH]; intros result x Hr Hl; cbn [foldl]; [set_solver|].
  assert (Hpush : forall y, y ∈ push_new_publisher result i <-> y ∈ result \/ y = i).
  { intros y. unfold push_new_publisher. destruct (existsb _ result) eqn:E; [|set_solver].
    apply existsb_exists in E as (r & Hr' & Heq). zbool.
    apply list_elem_of_In in Hr'. split; [by left|]. intros [?| ->]; [done|].
    assert (r = i) as <-; [|done]. apply (known_inj b); [by apply Hr|apply Hl; set_solver|done]. }
  rewrite IH.
  - rewrite Hpush. set_solver.
  - intros y [?| ->]%Hpush; [by apply Hr|apply Hl; set_solver].
  - intros y Hy. apply Hl. set_solver.
Qed.

Lemma elem_of_find_publishers_loop b t l : forall acc x,
  broker_inv b -> (forall y, y ∈ acc -> known b y) ->
  x ∈ foldl (fun result '(pattern, ids) =>
           if has_char "*"%char pattern && topic_matches pattern t
           then foldl push_new_publisher result (infos_of b ids)
           else result) acc l <->
  x ∈ acc \/ exists pat ids, (pat, ids) ∈ l /\
     has_char "*"%char pat && topic_matches pat t = true /\ x ∈ infos_of b ids.
Proof.
  induction l as [|[pat ids] l IH]; intros acc x Hinv Hacc; cbn [foldl].
  - split; [by left|]. intros [?|(? & ? & ?%not_elem_of_nil & _)]; done.
  - assert (Hk : forall y, y ∈ infos_of b ids -> known b y) by eauto using infos_known.
    rewrite IH; [|done|destruct (_ && _); [|done]; intros y [?|?]%(elem_of_push_all b); eauto].
    setoid_rewrite elem_of_cons. destruct (_ && _) eqn:E; [rewrite (elem_of_push_all b) by done|].
    + split; [intros [[?|?]|(k' & v' & ? & ? & ?)]; eauto 10|].
      intros [?|(k' & v' & [[= -> ->]|?] & ? & ?)]; eauto 10.
    + split; [intros [?|(k' & v' & ? & ? & ?)]; eauto 10|].
      intros [?|(k' & v' & [[= -> ->]|?] & ? & ?)]; [eauto|congruence|eauto 10].
Qed.

(** [find_publishers t] returns exactly the records of the nodes that
    announce [t] itself or a wildcard topic that matches it. *)
Theorem find_publishers_exact ops t info :
  let b := broker_run ops in
  info ∈ find_publishers b t <->
  announces b info (fun u => u = t \/ (has_char "*"%char u = true /\ topic_matches u t = true)).
Proof.
  cbn zeta. pose proof (broker_run_inv ops) as Hinv. revert Hinv.
  generalize (broker_run ops). intros b Hinv. unfold find_publishers.
  rewrite elem_of_find_publishers_loop; [|done|].
  2:{ intros y (n & _ & Hn)%elem_of_exact. unfold known. by rewrite (inv_pub_key _ Hinv n y Hn). }
  rewrite elem_of_exact, elem_of_index by done. unfold announces. split.
  - intros [(n & u & ? & ? & ->)|(pat & ids & Hl%elem_of_hiter & Hm & Hi)]; [by exists n, t; auto|].
    apply andb_true_iff in Hm. apply elem_of_infos in Hi as (n & Hn & Hp).
    rewrite (elem_of_pubs_lookup _ _ _ _ Hl), (inv_index _ Hinv) in Hn.
    destruct Hn as (i & ? & ?). simplify_eq. exists n, pat. auto.
  - intros (n & u & Hp & Hu & [->|[Hs Hm]]); [left; by exists n, t|right].
    assert (Hn : n ∈ pubs_of (topic_publishers b) u) by (apply (inv_index _ Hinv); by exists info).
    unfold pubs_of in Hn. destruct (topic_publishers b !! u) as [ids|] eqn:E; cbn in Hn;
      [|by apply not_elem_of_nil in Hn].
    exists u, ids. split; [by apply elem_of_hiter|]. rewrite Hs, Hm. split; [done|].
    apply elem_of_infos. by exists n.
Qed.
End lookup_specs.

(** [find_subscribers] returns exactly the nodes subscribed to a pattern
    that matches the topic, strictly sorted, and so the same vector whatever
    order the hash map iterates in. *)
Theorem find_subscribers_exact (HI1 HI2 : HashIter string) b t :
  (forall n, n ∈ find_subscribers (HI := HI1) b t <-> subscribed b n t) /\
  StronglySorted str_lt (find_subscribers (HI := HI1) b t) /\
  find_subscribers (HI := HI1) b t = find_subscribers (HI := HI2) b t.
Proof.
  split; [intros n; apply elem_of_find_subscribers|]. split; [apply sort_dedup_sorted|].
  apply sorted_lt_ext; [apply sort_dedup_sorted..|].
  intros x. by rewrite !elem_of_find_subscribers.
Qed.

(** Two subscribers and the sender on a wildcard pattern: the sender is
    skipped and so is the subscriber without an identity. *)
Definition sample_broker : Broker :=
  broker_run [BIdentity "n1" "i1"; BIdentity "n2" "i2"; BSubscribe "n2" "sys/*";
              BSubscribe "n1" "sys/*"; BSubscribe "n3" "sys/ack"; BSubscribe "n2" "sys/ack"].

Lemma route_message_exact_witness :
  @find_targets (gmap_iter _) sample_broker sample_message = [("i2", "n2")] /\
  (("i2", "n2") ∈ @find_targets (gmap_iter _) sample_broker sample_message <->
     "n2" <> "n1" /\ node_identities sample_broker !! "n2" = Some "i2" /\
     subscribed sample_broker "n2" "sys/ack").
Proof.
  split; [vm_compute; reflexivity|].
  apply (@route_message_exact (gmap_iter _) bit_codec sample_broker sample_message).
Defined.
