(* ===== verification/Registry.v ===== *)
(** * Node registry and heartbeat timeouts (kernel/registry.rs, kernel/health.rs)

    [DateTime<Utc>] is a number of nanoseconds; [Utc::now()] is an argument.
    A wall clock may run backwards, so elapsed times are signed. *)

From S2P Require Import Prelude RustStr Topic Node.
Local Open Scope Z_scope.

Record NodeInfo := mkNodeInfo {
  node_type : NodeType;
  subscriptions : list string;
  last_heartbeat : Z
}.

Record Registry := mkRegistry { nodes : gmap NodeId NodeInfo }.

Definition registry_new : Registry := mkRegistry ∅.

Definition register (r : Registry) (now : Z) (id : NodeId) (t : NodeType) (subs : list string) : Registry :=
  mkRegistry (<[id := mkNodeInfo t subs now]> (nodes r)).

Definition deregister (r : Registry) (id : NodeId) : Registry := mkRegistry (delete id (nodes r)).

Definition heartbeat (r : Registry) (now : Z) (id : NodeId) : Registry :=
  mkRegistry (alter (fun info => mkNodeInfo (node_type info) (subscriptions info) now) id (nodes r)).

(** [elapsed.num_seconds() as u64]: whole seconds towards zero, then the
    two's complement bits of the [i64]. *)
Definition elapsed_secs_u64 (now last : Z) : Z := wrap 64 (Z.quot (now - last) 1000000000).

Definition get (r : Registry) (id : NodeId) : option NodeInfo := nodes r !! id.
Definition len (r : Registry) : nat := size (nodes r).
Definition is_empty (r : Registry) : bool := bool_decide (nodes r = ∅).

Section iteration.
Context `{HI : !HashIter string}.

Definition remove_stale (r : Registry) (now timeout_secs : Z) : Registry * list NodeId :=
  let stale :=
    (filter (fun e => (timeout_secs <? elapsed_secs_u64 now (last_heartbeat e.2)) = true)
       (hiter (nodes r))).*1 in
  (foldl deregister r stale, stale).

Definition find_subscribers (r : Registry) (t : string) : list NodeId :=
  (filter (fun e => existsb (fun sub => topic_matches sub t) (subscriptions e.2) = true)
     (hiter (nodes r))).*1.

Definition find_by_type (r : Registry) (t : NodeType) : list NodeId :=
  (filter (fun e => node_type e.2 = t) (hiter (nodes r))).*1.
End iteration.

(** ** Health checks *)
Inductive HealthStatus := Healthy | Timeout | Deregistered.
Record HealthChecker := mkHealthChecker { timeout_secs : Z }.

Definition check (h : HealthChecker) (now last : Z) : HealthStatus :=
  let elapsed := elapsed_secs_u64 now last in
  if timeout_secs h <? elapsed then Timeout else Healthy.

(** ** Properties *)
Definition nanos : Z := 1000000000.

(** Instants of the library are within 2^61 seconds of each other. *)
Definition clock_range (now last : Z) : Prop := Z.abs (now - last) < 2 ^ 61 * nanos.

Lemma elapsed_forward now last :
  clock_range now last -> last <= now -> elapsed_secs_u64 now last = (now - last) / nanos.
Proof.
  unfold clock_range, elapsed_secs_u64, nanos. intros Hr Hle.
  rewrite Z.quot_div_nonneg by lia. apply wrap_small.
  split; [apply Z.div_pos; lia|]. apply Z.div_lt_upper_bound; lia.
Qed.

Lemma elapsed_backward now last :
  clock_range now last -> now + nanos <= last ->
  elapsed_secs_u64 now last = 2 ^ 64 - (last - now) / nanos.
Proof.
  unfold clock_range, elapsed_secs_u64, nanos. intros Hr Hle.
  replace (now - last) with (- (last - now)) by lia.
  rewrite Z.quot_opp_l, Z.quot_div_nonneg by lia.
  assert (1 <= (last - now) / 1000000000) by (apply Z.div_le_lower_bound; lia).
  assert ((last - now) / 1000000000 < 2 ^ 61) by (apply Z.div_lt_upper_bound; lia).
  unfold wrap. rewrite <- (Z.mod_add _ 1) by lia. rewrite Z.mod_small; lia.
Qed.

Lemma elem_of_filter_keys {V} `{HI : !HashIter string} (P : string * V -> Prop) `{!forall x, Decision (P x)}
    (m : gmap string V) k :
  k ∈ (filter P (hiter m)).*1 <-> exists v, m !! k = Some v /\ P (k, v).
Proof.
  rewrite list_elem_of_fmap. split.
  - intros ([k' v] & -> & [Hp Hin%elem_of_hiter]%list_elem_of_filter). by exists v.
  - intros (v & Hk & Hp). exists (k, v). split; [done|].
    apply list_elem_of_filter. split; [done|]. by apply elem_of_hiter.
Qed.

Lemma deregister_all_lookup ids : forall r k,
  nodes (foldl deregister r ids) !! k = if decide (k ∈ ids) then None else nodes r !! k.
Proof.
  induction ids as [|i ids IH]; intros r k; cbn [foldl]; [by rewrite decide_False by set_solver|].
  rewrite IH. cbn. destruct (decide (k = i)) as [->|Hne].
  - rewrite lookup_delete_eq, (decide_True (P := i ∈ i :: ids)) by set_solver. by destruct (decide _).
  - rewrite lookup_delete_ne by done.
    destruct (decide (k ∈ ids)); [by rewrite decide_True by set_solver|].
    by rewrite decide_False by set_solver.
Qed.

(** With a clock that has not run backwards, [remove_stale] returns
    and removes, each once, exactly the nodes whose last heartbeat is more
    than [timeout_secs] whole seconds old; every other node keeps its entry,
    and [HealthChecker] judges the same nodes timed out. *)
Theorem remove_stale_exact `{HI : !HashIter string} r now tmo :
  0 <= tmo ->
  (forall id info, nodes r !! id = Some info ->
     clock_range now (last_heartbeat info) /\ last_heartbeat info <= now) ->
  let r' := (remove_stale r now tmo).1 in
  let stale := (remove_stale r now tmo).2 in
  NoDup stale /\
  (forall id, id ∈ stale <->
     exists info, nodes r !! id = Some info /\ (tmo + 1) * nanos <= now - last_heartbeat info) /\
  (forall id, nodes r' !! id = if decide (id ∈ stale) then None else nodes r !! id) /\
  (forall id info, nodes r !! id = Some info ->
     check (mkHealthChecker tmo) now (last_heartbeat info) = Timeout <-> id ∈ stale).
Proof.
  intros Htmo Hclock. unfold remove_stale. cbn [fst snd]. set (l := filter _ _).
  assert (Hin : forall id, id ∈ l.*1 <->
     exists info, nodes r !! id = Some info /\ (tmo + 1) * nanos <= now - last_heartbeat info).
  { intros id. unfold l. rewrite elem_of_filter_keys. cbn.
    split; intros (info & Hi & H); exists info; (split; [done|]);
      destruct (Hclock id info Hi) as [Hr Hle]; rewrite (elapsed_forward _ _ Hr Hle), Z.ltb_lt in *;
      unfold nanos in *; [|apply Z.lt_le_trans with (tmo + 1); [lia|]; by apply Z.div_le_lower_bound; lia].
    pose proof (Z.mul_div_le (now - last_heartbeat info) 1000000000). lia. }
  split; [|split; [done|split; [intros id; apply deregister_all_lookup|]]].
  - eapply sublist_NoDup; [apply (NoDup_hiter_fst (nodes r))|]. apply fmap_sublist, sublist_filter.
  - intros id info Hi. rewrite Hin. destruct (Hclock id info Hi) as [Hr Hle].
    unfold check. cbn. rewrite (elapsed_forward _ _ Hr Hle). unfold nanos.
    destruct (tmo <? _) eqn:E; zbool.
    + split; [|done]. intros _. exists info. split; [done|].
      pose proof (Z.mul_div_le (now - last_heartbeat info) 1000000000). unfold nanos in *. lia.
    + split; [done|]. intros (i & Hi' & H). simplify_eq. exfalso.
      assert (tmo + 1 <= (now - last_heartbeat info) / 1000000000) by (apply Z.div_le_lower_bound; unfold nanos in *; lia).
      lia.
Qed.

(** When the clock has stepped back by a second or more, the unsigned
    conversion makes the elapsed time huge: a node with a fresh heartbeat is
    declared timed out under every timeout below 2^63 seconds. *)
Theorem backward_clock_times_out h now last :
  clock_range now last -> now + nanos <= last -> timeout_secs h < 2 ^ 63 ->
  check h now last = Timeout.
Proof.
  intros Hr Hb Ht. unfold check. rewrite elapsed_backward by done.
  assert ((last - now) / nanos < 2 ^ 61).
  { unfold clock_range, nanos in *. apply Z.div_lt_upper_bound; lia. }
  rewrite (proj2 (Z.ltb_lt _ _)); [done|]. lia.
Qed.

Lemma remove_stale_exact_witness :
  let r := register (register registry_new 0 "old" Agent []) (40 * nanos) "new" Tool [] in
  (@remove_stale (gmap_iter _) r (41 * nanos) 30).2 = ["old"] /\
  forall id, id ∈ (@remove_stale (gmap_iter _) r (41 * nanos) 30).2 <->
     exists info, nodes r !! id = Some info /\ (30 + 1) * nanos <= 41 * nanos - last_heartbeat info.
Proof.
  split; [vm_compute; reflexivity|].
  apply (@remove_stale_exact (gmap_iter _)
    (register (register registry_new 0 "old" Agent []) (40 * nanos) "new" Tool []) (41 * nanos) 30); [lia|].
  intros id info Hi. unfold clock_range, nanos. cbn in Hi.
  apply lookup_insert_Some in Hi as [[<- <-]|[_ Hi]]; [cbn; unfold nanos; lia|].
  apply lookup_insert_Some in Hi as [[<- <-]|[_ Hi]]; [cbn; lia|].
  by rewrite lookup_empty in Hi.
Defined.

Lemma backward_clock_times_out_witness :
  check (mkHealthChecker 30) 0 (2 * nanos) = Timeout.
Proof. apply backward_clock_times_out; vm_compute; congruence. Defined.
