(* ===== verification/Transaction.v ===== *)
(** * Registration transactions (kernel/transaction.rs)

    A [KernelTransaction] applies registrations to the broker and the registry
    and logs what it did; [rollback] undoes the log backwards.  The broker is
    restored up to [≡]: the same tables, where a missing entry of a
    list-valued table counts as an empty list. *)

From S2P Require Import Prelude RustStr Topic Node Frame Broker Registry.

(** ** Equivalence of brokers *)
#[export] Instance broker_equiv : Equiv Broker := fun b b' =>
  node_identities b = node_identities b' /\
  (forall pat, subs_of b pat = subs_of b' pat) /\
  publishers b = publishers b' /\
  (forall t, pubs_of (topic_publishers b) t = pubs_of (topic_publishers b') t) /\
  service_providers b = service_providers b'.

#[export] Instance broker_equivalence : Equivalence (≡@{Broker}).
Proof.
  split.
  - intros b. by repeat split.
  - intros b b' (? & ? & ? & ? & ?). by repeat split.
  - intros b1 b2 b3 (E1 & E2 & E3 & E4 & E5) (F1 & F2 & F3 & F4 & F5).
    repeat split; intros; first [congruence|by rewrite ?E2, ?E4].
Qed.

Lemma subs_of_retain n pat (m : gmap string (list NodeId)) :
  default [] ((retain_ne n <$> m) !! pat) = retain_ne n (default [] (m !! pat)).
Proof. rewrite lookup_fmap. by destruct (m !! pat). Qed.

Lemma pubs_of_retain_topics n ts m t :
  pubs_of (retain_topics n ts m) t = if decide (t ∈ ts) then retain_ne n (pubs_of m t) else pubs_of m t.
Proof.
  revert m. induction ts as [|u ts IH]; intros m; [done|].
  change (retain_topics n (u :: ts) m) with (retain_topics n ts (alter (retain_ne n) u m)).
  rewrite IH. unfold pubs_of. destruct (decide (u = t)) as [->|Hne].
  - rewrite lookup_alter_eq, (decide_True (P := t ∈ t :: ts)) by set_solver.
    assert (Hd : default [] (retain_ne n <$> m !! t) = retain_ne n (default [] (m !! t)))
      by (by destruct (m !! t)).
    rewrite Hd. destruct (decide (t ∈ ts)); [|done].
    unfold retain_ne. rewrite list_filter_filter. apply list_filter_iff. tauto.
  - rewrite lookup_alter_ne by done.
    destruct (decide (t ∈ ts)); [by rewrite decide_True by set_solver|].
    by rewrite decide_False by set_solver.
Qed.

Lemma subs_of_unsubscribe b n p q :
  subs_of (unsubscribe b n p) q = if decide (p = q) then retain_ne n (subs_of b q) else subs_of b q.
Proof.
  unfold subs_of, unsubscribe. cbn. destruct (decide (p = q)) as [->|].
  - rewrite lookup_alter_eq. by destruct (Broker.subscriptions b !! q).
  - by rewrite lookup_alter_ne.
Qed.

#[export] Instance deregister_identity_proper : Proper ((≡) ==> eq ==> (≡)) deregister_identity.
Proof.
  intros b b' (E1 & E2 & E3 & E4 & E5) n ? <-. split; [|split; [|split; [|split]]]; cbn.
  - by rewrite E1.
  - intros pat. unfold subs_of. cbn. rewrite !subs_of_retain. f_equal. apply E2.
  - by rewrite E3.
  - intros t. rewrite <- E3. destruct (publishers b !! n); [|apply E4].
    by rewrite !pubs_of_retain_topics, E4.
  - by rewrite E5.
Qed.

#[export] Instance unsubscribe_proper : Proper ((≡) ==> eq ==> eq ==> (≡)) unsubscribe.
Proof.
  intros b b' (E1 & E2 & E3 & E4 & E5) n ? <- p ? <-.
  split; [done|]. split; [|done]. intros q. by rewrite !subs_of_unsubscribe, E2.
Qed.

#[export] Instance register_identity_proper : Proper ((≡) ==> eq ==> eq ==> (≡)) register_identity.
Proof.
  intros b b' (E1 & E2 & E3 & E4 & E5) n ? <- i ? <-. split; [cbn; by rewrite E1|done].
Qed.

(** Lookups respect the equivalence. *)
Lemma subscribed_equiv b b' n t : b ≡ b' -> subscribed b n t <-> subscribed b' n t.
Proof. intros (_ & E & _). unfold subscribed. by setoid_rewrite E. Qed.

#[export] Instance find_subscribers_proper `{!HashIter string} :
  Proper ((≡) ==> eq ==> eq) Broker.find_subscribers.
Proof.
  intros b b' E t ? <-. apply sorted_lt_ext; [apply sort_dedup_sorted..|].
  intros x. rewrite !elem_of_find_subscribers. by apply subscribed_equiv.
Qed.

#[export] Instance route_message_proper `{!HashIter string, RmpCodec} :
  Proper ((≡) ==> eq ==> eq) route_message.
Proof.
  intros b b' E msg ? <-. unfold route_message. rewrite (find_subscribers_proper _ _ E _ _ eq_refl).
  destruct E as [-> _]. done.
Qed.

(** ** The transaction *)
Inductive Operation :=
| RegisterNode (node_id : NodeId) (t : NodeType) (subs : list string) (identity : bytes)
| DeregisterNode (node_id : NodeId) (t : NodeType) (subs : list string) (identity : bytes)
| Subscribe (node_id : NodeId) (topic_pattern : string).

Record KernelTransaction := mkTransaction {
  broker : Broker;
  registry : Registry;
  operations : list Operation
}.

Definition tx_new (b : Broker) (r : Registry) : KernelTransaction := mkTransaction b r [].

Definition tx_subscribe (n : NodeId) (tx : KernelTransaction) (pattern : string) : KernelTransaction :=
  mkTransaction (subscribe (broker tx) n pattern) (registry tx) (operations tx ++ [Subscribe n pattern]).

Definition register_node (tx : KernelTransaction) (now : Z) (n : NodeId) (t : NodeType)
    (subs : list string) (identity : bytes) : KernelTransaction :=
  foldl (tx_subscribe n)
    (mkTransaction (register_identity (broker tx) n identity)
       (register (registry tx) now n t subs)
       (operations tx ++ [RegisterNode n t subs identity]))
    subs.

Definition deregister_node (tx : KernelTransaction) (n : NodeId) : KernelTransaction :=
  match get (registry tx) n with
  | Some info =>
      mkTransaction (deregister_identity (broker tx) n) (deregister (registry tx) n)
        (operations tx ++ [DeregisterNode n (node_type info) (subscriptions info) ""])
  | None => tx
  end.

(** [commit] drops the log and leaves the tables as they are. *)
Definition commit (tx : KernelTransaction) : Broker * Registry := (broker tx, registry tx).

(** [now] is the time read when a registration is restored. *)
Definition rollback_op (now : Z) (st : Broker * Registry) (op : Operation) : Broker * Registry :=
  let '(b, r) := st in
  match op with
  | RegisterNode n _ _ _ => (deregister_identity b n, deregister r n)
  | DeregisterNode n t subs ident => (register_identity b n ident, register r now n t subs)
  | Subscribe n pattern => (unsubscribe b n pattern, r)
  end.

Definition rollback (now : Z) (tx : KernelTransaction) : Broker * Registry :=
  foldl (rollback_op now) (broker tx, registry tx) (rev (operations tx)).

(** ** Undoing a registration *)

(** The broker holds nothing about [n]. *)
Definition fresh (b : Broker) (n : NodeId) : Prop :=
  node_identities b !! n = None /\ (forall pat, n ∉ subs_of b pat) /\
  publishers b !! n = None /\ map_Forall (fun _ info => s_node_id info <> n) (service_providers b).

Lemma retain_ne_id n l : n ∉ l -> retain_ne n l = l.
Proof.
  intros Hn. unfold retain_ne. induction l as [|x l IH]; [done|].
  rewrite filter_cons_True by set_solver. f_equal. apply IH. set_solver.
Qed.

Lemma retain_ne_idemp n l : retain_ne n (retain_ne n l) = retain_ne n l.
Proof. apply retain_ne_id. by intros [_ ?]%elem_of_retain_ne. Qed.

Lemma subs_of_deregister b n pat : subs_of (deregister_identity b n) pat = retain_ne n (subs_of b pat).
Proof. apply subs_of_retain. Qed.

Lemma subs_of_subscribe b n p q :
  subs_of (subscribe b n p) q =
  if decide (p = q) then (if decide (n ∈ subs_of b q) then subs_of b q else subs_of b q ++ [n])
  else subs_of b q.
Proof.
  unfold subs_of, subscribe. cbn. destruct (decide (p = q)) as [->|].
  - by rewrite lookup_insert_eq.
  - by rewrite lookup_insert_ne.
Qed.

Lemma deregister_fresh b n : fresh b n -> deregister_identity b n ≡ b.
Proof.
  intros (H1 & H2 & H3 & H4). split; [|split; [|split; [|split]]]; cbn.
  - by apply delete_id.
  - intros pat. rewrite subs_of_deregister. by apply retain_ne_id.
  - by apply delete_id.
  - by rewrite H3.
  - apply map_filter_id. intros k i Hi. by apply (H4 k i).
Qed.

(** Deregistration forgets what the node subscribed, unsubscribed or
    identified as. *)
Lemma deregister_subscribe b n p : deregister_identity (subscribe b n p) n ≡ deregister_identity b n.
Proof.
  split; [done|]. split; [|done]. intros q. rewrite !subs_of_deregister, subs_of_subscribe.
  destruct (decide (p = q)); [|done]. destruct (decide _); [done|].
  unfold retain_ne. rewrite filter_app, filter_cons_False by (intros H; by apply H). apply app_nil_r.
Qed.

Lemma deregister_unsubscribe b n p : deregister_identity (unsubscribe b n p) n ≡ deregister_identity b n.
Proof.
  split; [done|]. split; [|done]. intros q. rewrite !subs_of_deregister, subs_of_unsubscribe.
  destruct (decide (p = q)); [apply retain_ne_idemp|done].
Qed.

Lemma deregister_register b n i : deregister_identity (register_identity b n i) n ≡ deregister_identity b n.
Proof. split; [cbn; apply delete_insert_eq|done]. Qed.

Lemma register_node_eq tx now n t subs i :
  register_node tx now n t subs i =
  mkTransaction (foldl (fun b p => subscribe b n p) (register_identity (broker tx) n i) subs)
    (register (registry tx) now n t subs)
    (operations tx ++ RegisterNode n t subs i :: (Subscribe n <$> subs)).
Proof.
  unfold register_node. change (RegisterNode n t subs i :: (Subscribe n <$> subs))
    with ([RegisterNode n t subs i] ++ (Subscribe n <$> subs)). rewrite app_assoc.
  generalize (register_identity (broker tx) n i) (register (registry tx) now n t subs)
    (operations tx ++ [RegisterNode n t subs i]).
  induction subs as [|p subs IH]; intros b r ops; cbn; [by rewrite app_nil_r|].
  unfold tx_subscribe at 2. cbn. rewrite IH, <- app_assoc. done.
Qed.

Lemma undo_unsubscribes now n subs : forall b r,
  exists b', foldl (rollback_op now) (b, r) (rev (Subscribe n <$> subs)) = (b', r) /\
             deregister_identity b' n ≡ deregister_identity b n.
Proof.
  induction subs as [|p subs IH]; intros b r; cbn [fmap list_fmap rev]; [by exists b|].
  destruct (IH b r) as (b' & E & H). exists (unsubscribe b' n p).
  rewrite foldl_app, E. split; [done|]. by rewrite deregister_unsubscribe.
Qed.

Lemma deregister_subscribes n subs : forall b,
  deregister_identity (foldl (fun b p => subscribe b n p) b subs) n ≡ deregister_identity b n.
Proof.
  induction subs as [|p subs IH]; intros b; [done|]. cbn. by rewrite IH, deregister_subscribe.
Qed.

(** States up to the broker's equivalence. *)
Definition state_equiv (st st' : Broker * Registry) : Prop := st.1 ≡ st'.1 /\ st.2 = st'.2.

Lemma rollback_op_proper now st st' op :
  state_equiv st st' -> state_equiv (rollback_op now st op) (rollback_op now st' op).
Proof.
  destruct st as [b r], st' as [b' r']. intros [E1 E2]. cbn in E1, E2. subst r'.
  destruct op; split; cbn; try done; by rewrite E1.
Qed.

Lemma rollback_ops_proper now ops : forall st st',
  state_equiv st st' ->
  state_equiv (foldl (rollback_op now) st ops) (foldl (rollback_op now) st' ops).
Proof.
  induction ops as [|op ops IH]; intros st st' E; [done|]. cbn.
  by apply IH, rollback_op_proper.
Qed.

Lemma undo_register now' tx now n t subs i :
  fresh (broker tx) n -> nodes (registry tx) !! n = None ->
  let tx' := register_node tx now n t subs i in
  state_equiv
    (foldl (rollback_op now') (broker tx', registry tx') (rev (RegisterNode n t subs i :: (Subscribe n <$> subs))))
    (broker tx, registry tx).
Proof.
  intros Hf Hr. rewrite register_node_eq. cbn [broker registry rev]. rewrite foldl_app.
  destruct (undo_unsubscribes now' n subs
    (foldl (fun b p => subscribe b n p) (register_identity (broker tx) n i) subs)
    (register (registry tx) now n t subs)) as (b' & -> & H).
  cbn. split; cbn.
  - by rewrite H, deregister_subscribes, deregister_register, deregister_fresh.
  - unfold deregister, register. cbn. rewrite delete_insert_eq, delete_id by done.
    by destruct (registry tx).
Qed.

Record registration := mkRegistration {
  reg_time : Z;
  reg_id : NodeId;
  reg_type : NodeType;
  reg_subs : list string;
  reg_identity : bytes
}.

Definition register_one (tx : KernelTransaction) (g : registration) : KernelTransaction :=
  register_node tx (reg_time g) (reg_id g) (reg_type g) (reg_subs g) (reg_identity g).

Definition unknown (tx : KernelTransaction) (n : NodeId) : Prop :=
  fresh (broker tx) n /\ nodes (registry tx) !! n = None.

Lemma unknown_register tx g n : n <> reg_id g -> unknown tx n -> unknown (register_one tx g) n.
Proof.
  intros Hn [(H1 & H2 & H3 & H4) Hr]. unfold register_one. rewrite register_node_eq.
  split; cbn; [|by rewrite lookup_insert_ne].
  assert (Hb : fresh (register_identity (broker tx) (reg_id g) (reg_identity g)) n).
  { split; [cbn; by rewrite lookup_insert_ne|done]. }
  revert Hb. generalize (register_identity (broker tx) (reg_id g) (reg_identity g)).
  induction (reg_subs g) as [|p subs IH]; intros b Hb; [done|]. cbn. apply IH.
  destruct Hb as (F1 & F2 & F3 & F4). split; [done|]. split; [|done].
  intros q. rewrite subs_of_subscribe. specialize (F2 q).
  destruct (decide (p = q)); [|done]. destruct (decide _); set_solver.
Qed.

Lemma undo_registrations now regs : forall tx,
  NoDup (reg_id <$> regs) -> Forall (fun g => unknown tx (reg_id g)) regs ->
  exists extra,
    operations (foldl register_one tx regs) = operations tx ++ extra /\
    state_equiv
      (foldl (rollback_op now)
         (broker (foldl register_one tx regs), registry (foldl register_one tx regs)) (rev extra))
      (broker tx, registry tx).
Proof.
  induction regs as [|g regs IH]; intros tx Hnd Hall.
  - exists []. cbn. by rewrite app_nil_r.
  - cbn in Hnd. apply NoDup_cons in Hnd as [Hg Hnd]. inversion Hall as [|?? [Hf Hr] Hall']; subst.
    destruct (IH (register_one tx g)) as (extra & Eops & Est); [done| |].
    { rewrite Forall_forall in Hall' |- *. intros h Hh. apply unknown_register; [|by apply Hall'].
      intros E. apply Hg. rewrite <- E. apply list_elem_of_fmap. by exists h. }
    exists (RegisterNode (reg_id g) (reg_type g) (reg_subs g) (reg_identity g)
            :: (Subscribe (reg_id g) <$> reg_subs g) ++ extra).
    cbn [foldl]. split.
    + rewrite Eops. unfold register_one at 1. rewrite register_node_eq. cbn. by rewrite <- app_assoc.
    + change (?x :: ?l ++ extra) with ((x :: l) ++ extra). rewrite rev_app_distr, foldl_app.
      destruct (rollback_ops_proper now
        (rev (RegisterNode (reg_id g) (reg_type g) (reg_subs g) (reg_identity g)
              :: (Subscribe (reg_id g) <$> reg_subs g))) _ _ Est) as [E1 E2].
      destruct (undo_register now tx (reg_time g) (reg_id g) (reg_type g) (reg_subs g) (reg_identity g) Hf Hr)
        as [F1 F2].
      split; [etrans; [exact E1|exact F1]|etrans; [exact E2|exact F2]].
Qed.

(** Rolling back a transaction that registered any number of distinct,
    previously unknown nodes restores the registry exactly and the broker up
    to empty table entries, and so routes every message as before. *)
Theorem rollback_registrations_restores `{!HashIter string, RmpCodec} now b r regs :
  NoDup (reg_id <$> regs) ->
  Forall (fun g => fresh b (reg_id g) /\ nodes r !! reg_id g = None) regs ->
  let st := rollback now (foldl register_one (tx_new b r) regs) in
  st.1 ≡ b /\ st.2 = r /\ forall msg, route_message st.1 msg = route_message b msg.
Proof.
  intros Hnd Hall. destruct (undo_registrations now regs (tx_new b r) Hnd Hall) as (extra & E & [H1 H2]).
  cbn in E. cbn zeta. unfold rollback. rewrite E. cbn in H1, H2.
  split; [done|]. split; [done|]. intros msg. by rewrite H1.
Qed.

(** Rolling back a deregistration does not restore the node: the log
    keeps no identity, so the node comes back with an empty one and with none
    of its subscriptions, and no message reaches it. *)
Theorem rollback_deregister_unroutable `{!HashIter string} now b r n info :
  nodes r !! n = Some info ->
  let st := rollback now (deregister_node (tx_new b r) n) in
  get st.2 n = Some (mkNodeInfo (node_type info) (subscriptions info) now) /\
  get_identity st.1 n = Some "" /\
  (forall pat, n ∉ subs_of st.1 pat) /\
  forall msg i, (i, n) ∉ find_targets st.1 msg.
Proof.
  intros Hr. unfold deregister_node, get. cbn [tx_new registry]. rewrite Hr. cbn zeta.
  assert (Hs : forall pat, n ∉ subs_of (deregister_identity b n) pat).
  { intros pat. rewrite subs_of_deregister. by intros [_ ?]%elem_of_retain_ne. }
  split; [cbn; apply lookup_insert_eq|]. split; [cbn; apply lookup_insert_eq|].
  split; [exact Hs|]. intros msg i (_ & _ & pat & _ & Hn)%elem_of_find_targets. by apply (Hs pat).
Qed.

Definition sample_registration : registration :=
  mkRegistration 5 "n9" Agent ["sys/*"; "agent/*/output"] "i9".

Lemma rollback_registrations_restores_witness :
  let st := rollback 9 (foldl register_one (tx_new sample_broker registry_new) [sample_registration]) in
  st.1 ≡ sample_broker /\ st.2 = registry_new /\
  forall msg, @route_message (gmap_iter _) bit_codec st.1 msg =
              @route_message (gmap_iter _) bit_codec sample_broker msg.
Proof.
  apply (@rollback_registrations_restores (gmap_iter _) bit_codec 9 sample_broker registry_new
           [sample_registration]).
  - apply NoDup_singleton.
  - apply Forall_singleton. split; [|reflexivity]. split; [reflexivity|].
    split; [|split; [reflexivity|apply (map_Forall_empty (M := gmap string))]].
    intros pat. unfold subs_of.
    change (Broker.subscriptions sample_broker) with
      (list_to_map [("sys/*", ["n2"; "n1"]); ("sys/ack", ["n3"; "n2"])] : gmap string (list NodeId)).
    cbn. destruct (decide (pat = "sys/*")) as [->|]; [rewrite lookup_insert_eq; set_solver|].
    rewrite lookup_insert_ne by done.
    destruct (decide (pat = "sys/ack")) as [->|]; [rewrite lookup_insert_eq; set_solver|].
    rewrite lookup_insert_ne, lookup_empty by done. set_solver.
Defined.

Lemma rollback_deregister_unroutable_witness :
  let r := register registry_new 0 "n2" Tool ["sys/*"] in
  @find_targets (gmap_iter _) sample_broker sample_message = [("i2", "n2")] /\
  forall i, ("n2" : NodeId) ∉ subs_of (rollback 9 (deregister_node (tx_new sample_broker r) "n2")).1 i.
Proof.
  split; [vm_compute; reflexivity|].
  eapply (@rollback_deregister_unroutable (gmap_iter _) 9 sample_broker
    (register registry_new 0 "n2" Tool ["sys/*"]) "n2"). reflexivity.
Defined.
