(* ===== verification/Window.v ===== *)
(** * The sliding window of the circuit breaker (ccode-circuit-breaker/src/window.rs)

    Instants and durations are nanoseconds.  The incremental failure count is
    a machine word that wraps; the invariant [window_inv] shows that it never
    does and that it is the number of failures in the deque. *)

From S2P Require Import Prelude F64.
Local Open Scope Z_scope.

(** 10_000, a product so that the literal stays small. *)
Definition MAX_WINDOW_ENTRIES : nat := 100 * 100.

Record SlidingWindow := mkWindow {
  entries : list (Z * bool);
  failures : Z
}.

Definition window_new : SlidingWindow := mkWindow [] 0.

(** [usize] decrement and increment. *)
Definition dec (x : Z) : Z := wrap 64 (x - 1).
Definition inc (x : Z) : Z := wrap 64 (x + 1).

Definition push (w : SlidingWindow) (is_failure : bool) (at_ : Z) : SlidingWindow :=
  let w1 :=
    if Nat.leb MAX_WINDOW_ENTRIES (length (entries w)) then
      match entries w with
      | [] => w
      | (_, was_failure) :: rest =>
          mkWindow rest (if was_failure then dec (failures w) else failures w)
      end
    else w in
  mkWindow (entries w1 ++ [(at_, is_failure)])
           (if is_failure then inc (failures w1) else failures w1).

(** The earliest representable instant: [checked_sub] fails below it. *)
Definition instant_min : Z := - 2 ^ 63 * 1000000000.

Definition checked_sub (now window : Z) : option Z :=
  if now - window <? instant_min then None else Some (now - window).

Fixpoint evict_loop (cutoff : Z) (es : list (Z * bool)) (f : Z) : list (Z * bool) * Z :=
  match es with
  | (ts, was_failure) :: rest =>
      if ts <? cutoff then evict_loop cutoff rest (if was_failure then dec f else f)
      else (es, f)
  | [] => ([], f)
  end.

Definition evict (w : SlidingWindow) (window now : Z) : SlidingWindow :=
  match checked_sub now window with
  | None => w
  | Some cutoff =>
      let '(es, f) := evict_loop cutoff (entries w) (failures w) in mkWindow es f
  end.

Definition error_rate (w : SlidingWindow) : f64 :=
  match entries w with
  | [] => f64_of_Z 0
  | _ => fdiv (f64_of_Z (failures w)) (f64_of_Z (Z.of_nat (length (entries w))))
  end.

Definition sample_count (w : SlidingWindow) : nat := length (entries w).

Definition clear (w : SlidingWindow) : SlidingWindow := mkWindow [] 0.

(** ** Invariant *)
Definition failing (es : list (Z * bool)) : nat := length (filter (fun e => e.2 = true) es).

Definition window_inv (w : SlidingWindow) : Prop :=
  failures w = Z.of_nat (failing (entries w)) /\ (length (entries w) <= MAX_WINDOW_ENTRIES)%nat.

Lemma failing_cons t b es : failing ((t, b) :: es) = ((if b then 1 else 0) + failing es)%nat.
Proof.
  unfold failing. rewrite filter_cons. cbn. by destruct b.
Qed.

Lemma failing_app es fs : failing (es ++ fs) = (failing es + failing fs)%nat.
Proof. unfold failing. by rewrite filter_app, length_app. Qed.

Lemma failing_le es : (failing es <= length es)%nat.
Proof. apply length_filter. Qed.

Lemma window_new_inv : window_inv window_new.
Proof. split; [done|cbn; lia]. Qed.

Lemma clear_inv w : window_inv (clear w).
Proof. apply window_new_inv. Qed.

Lemma pop_inv t b es f n :
  f = Z.of_nat (failing ((t, b) :: es)) -> (length ((t, b) :: es) <= n)%nat ->
  Z.of_nat n < 2 ^ 64 -> (if b then dec f else f) = Z.of_nat (failing es).
Proof.
  rewrite failing_cons. intros -> Hn Hb. pose proof (failing_le es). cbn in Hn.
  destruct b; [|lia]. unfold dec. rewrite wrap_small; lia.
Qed.

Lemma max_entries_small : Z.of_nat MAX_WINDOW_ENTRIES < 2 ^ 64 - 1.
Proof. vm_compute. reflexivity. Qed.

Lemma push_entries w b t :
  entries (push w b t) =
  (if Nat.leb MAX_WINDOW_ENTRIES (length (entries w)) then drop 1 (entries w) else entries w) ++ [(t, b)].
Proof.
  unfold push. destruct (Nat.leb _ _); [|done].
  destruct (entries w) as [|[t1 b1] es] eqn:E; cbn; by rewrite ?E.
Qed.

Lemma push_inv w b t : window_inv w -> window_inv (push w b t).
Proof.
  intros [Hf Hl]. pose proof max_entries_small as Hm. unfold push.
  set (w1 := if Nat.leb _ _ then _ else w).
  assert (Hw1 : failures w1 = Z.of_nat (failing (entries w1)) /\ (length (entries w1) < MAX_WINDOW_ENTRIES)%nat).
  { unfold w1. destruct (Nat.leb _ _) eqn:E; zbool; [|done].
    destruct (entries w) as [|[t' b'] es] eqn:Ee; [cbn in E; unfold MAX_WINDOW_ENTRIES in E; lia|].
    cbn in Hl. split; [|done]. cbn [failures entries].
    eapply pop_inv; [exact Hf|exact Hl|lia]. }
  destruct Hw1 as [Hf1 Hl1]. clearbody w1. split; cbn [failures entries].
  - rewrite failing_app, failing_cons, Hf1. pose proof (failing_le (entries w1)).
    change (failing []) with 0%nat. destruct b; [|lia].
    unfold inc. rewrite wrap_small; lia.
  - rewrite length_app. change (length [(t, b)]) with 1%nat. lia.
Qed.

Lemma evict_loop_spec cutoff es : forall f n,
  f = Z.of_nat (failing es) -> (length es <= n)%nat -> Z.of_nat n < 2 ^ 64 ->
  exists k, evict_loop cutoff es f = (drop k es, Z.of_nat (failing (drop k es))) /\
    (forall e, e ∈ take k es -> e.1 < cutoff) /\
    (forall e, drop k es !! 0%nat = Some e -> cutoff <= e.1).
Proof.
  induction es as [|[t b] es IH]; intros f n Hf Hn Hb; cbn [evict_loop].
  - exists 0%nat. rewrite Hf. split; [done|]. split; [set_solver|done].
  - destruct (t <? cutoff) eqn:E; zbool.
    + destruct (IH (if b then dec f else f) n) as (k & Hk & H1 & H2).
      * by eapply pop_inv.
      * cbn in Hn. lia.
      * done.
      * exists (S k). cbn [drop take]. split; [exact Hk|]. split; [|done].
        intros e [->|He]%elem_of_cons; [done|by apply H1].
    + exists 0%nat. cbn [drop take]. rewrite Hf. split; [done|]. split; [set_solver|].
      intros e [= <-]. done.
Qed.

Lemma evict_inv w window now : window_inv w -> window_inv (evict w window now).
Proof.
  intros [Hf Hl]. unfold evict. destruct (checked_sub now window) as [c|]; [|done].
  pose proof max_entries_small.
  destruct (evict_loop_spec c (entries w) (failures w) MAX_WINDOW_ENTRIES Hf Hl) as (k & -> & _); [lia|].
  split; cbn [failures entries]; [done|]. rewrite length_drop. lia.
Qed.

#[export] Hint Resolve window_new_inv clear_inv push_inv evict_inv : ccode.

(** ** The window is the recent history *)

Definition time_sorted (es : list (Z * bool)) : Prop := StronglySorted Z.le es.*1.

(** The last [n] elements. *)
Definition lastn {A} (n : nat) (l : list A) : list A := drop (length l - n) l.

Definition recent (cutoff : Z) (es : list (Z * bool)) : list (Z * bool) :=
  filter (fun e => cutoff <= e.1) es.

(** The samples [hist] recorded one after the other, each followed by an
    eviction at its own instant, as [CircuitBreaker::record] does. *)
Definition record_all (window : Z) (hist : list (Z * bool)) : SlidingWindow :=
  foldl (fun w e => evict (push w e.2 e.1) window e.1) window_new hist.

Lemma recent_recent c c' es : c <= c' -> recent c' (recent c es) = recent c' es.
Proof.
  intros Hc. unfold recent. rewrite list_filter_filter. apply list_filter_iff. intros e. lia.
Qed.

Lemma recent_all c es : (forall e, e ∈ es -> c <= e.1) -> recent c es = es.
Proof.
  intros H. unfold recent. induction es as [|e es IH]; [done|].
  rewrite filter_cons_True by (apply H; set_solver). f_equal. apply IH. set_solver.
Qed.

Lemma recent_none c es : (forall e, e ∈ es -> e.1 < c) -> recent c es = [].
Proof.
  intros H. unfold recent. induction es as [|e es IH]; [done|].
  rewrite filter_cons_False by (specialize (H e); set_solver by lia). apply IH. set_solver.
Qed.

Lemma recent_app c es fs : recent c (es ++ fs) = recent c es ++ recent c fs.
Proof. apply filter_app. Qed.

Lemma time_sorted_drop k es : time_sorted es -> time_sorted (drop k es).
Proof.
  unfold time_sorted. revert es. induction k as [|k IH]; intros es Hs; [done|].
  destruct es as [|e es]; [done|]. cbn in *. apply IH. by inversion Hs.
Qed.

Lemma time_sorted_head e es x : time_sorted (e :: es) -> x ∈ e :: es -> e.1 <= x.1.
Proof.
  unfold time_sorted. cbn. intros Hs [->|Hx]%elem_of_cons; [lia|].
  inversion Hs as [|?? _ Hall]; subst. rewrite Forall_forall in Hall. apply Hall.
  apply list_elem_of_fmap. by exists x.
Qed.

Lemma evict_recent w window now :
  window_inv w -> time_sorted (entries w) -> instant_min <= now - window ->
  entries (evict w window now) = recent (now - window) (entries w).
Proof.
  intros [Hf Hl] Hs Hmin. unfold evict, checked_sub. rewrite (proj2 (Z.ltb_ge _ _)) by done.
  pose proof max_entries_small.
  destruct (evict_loop_spec (now - window) (entries w) (failures w) MAX_WINDOW_ENTRIES Hf Hl)
    as (k & -> & H1 & H2); [lia|]. cbn [entries].
  rewrite <- (take_drop k (entries w)) at 2.
  rewrite recent_app, (recent_none _ (take k _)) by done. cbn. symmetry. apply recent_all.
  apply (time_sorted_drop k) in Hs. destruct (drop k (entries w)) as [|e es]; [set_solver|].
  intros x Hx. specialize (H2 e eq_refl). pose proof (time_sorted_head e es x Hs Hx). lia.
Qed.

Lemma lastn_snoc {A} n (l : list A) x :
  lastn (S n) (l ++ [x]) = drop (length l - n) l ++ [x].
Proof.
  unfold lastn. rewrite length_app. cbn [length].
  replace (length l + 1 - S n)%nat with (length l - n)%nat by lia.
  rewrite drop_app_le by lia. done.
Qed.

Lemma drop_lastn {A} n (l : list A) :
  drop (length l - n) l =
  if Nat.leb (S n) (length l) then drop 1 (lastn (S n) l) else lastn (S n) l.
Proof.
  unfold lastn. destruct (Nat.leb (S n) (length l)) eqn:E; zbool.
  - rewrite drop_drop. f_equal. lia.
  - by replace (length l - n)%nat with (length l - S n)%nat by lia.
Qed.

Lemma length_lastn {A} n (l : list A) : length (lastn n l) = (length l `min` n)%nat.
Proof. unfold lastn. rewrite length_drop. lia. Qed.

Lemma time_sorted_app_l es fs : time_sorted (es ++ fs) -> time_sorted es.
Proof.
  unfold time_sorted. induction es as [|e es IH]; cbn; intros H; [constructor|].
  inversion H as [|?? H' Hall]; subst. constructor; [by apply IH|].
  rewrite fmap_app, Forall_app in Hall. tauto.
Qed.

Lemma push_recent n c c' w b t es :
  MAX_WINDOW_ENTRIES = S n -> c <= c' -> c' <= t -> time_sorted es ->
  entries w = recent c (lastn (S n) es) ->
  recent c' (entries (push w b t)) = recent c' (lastn (S n) (es ++ [(t, b)])).
Proof.
  intros Hn Hc Ht Hs Hw. rewrite push_entries, Hw, Hn, lastn_snoc, !recent_app, drop_lastn. f_equal.
  set (l := lastn (S n) es).
  assert (Hsl : time_sorted l) by (by apply time_sorted_drop).
  assert (Hlen : length l = (length es `min` S n)%nat) by apply length_lastn.
  destruct (Nat.leb (S n) (length es)) eqn:E; zbool.
  - destruct l as [|e l']; [cbn in Hlen; lia|]. cbn [drop].
    destruct (decide (c <= e.1)) as [Hce|Hce].
    + rewrite (recent_all c (e :: l')).
      * rewrite (proj2 (Nat.leb_le _ _)) by lia. cbn [drop]. done.
      * intros x Hx. pose proof (time_sorted_head e l' x Hsl Hx). lia.
    + assert (Hrec : recent c (e :: l') = recent c l') by (by apply filter_cons_False).
      rewrite Hrec, (proj2 (Nat.leb_gt _ _)); [by apply recent_recent|].
      pose proof (length_filter (fun e => c <= e.1) l'). unfold recent. cbn in Hlen. lia.
  - rewrite (proj2 (Nat.leb_gt _ _)); [by apply recent_recent|].
    pose proof (length_filter (fun e => c <= e.1) l). unfold recent. lia.
Qed.

Lemma record_all_snoc window hist e :
  record_all window (hist ++ [e]) = evict (push (record_all window hist) e.2 e.1) window e.1.
Proof. unfold record_all. by rewrite foldl_app. Qed.

Lemma record_all_inv window hist : window_inv (record_all window hist).
Proof.
  induction hist as [|e hist IH] using rev_ind; [apply window_new_inv|].
  rewrite record_all_snoc. auto with ccode.
Qed.

Lemma time_sorted_snoc es t b : time_sorted (es ++ [(t, b)]) -> forall e, e ∈ es -> e.1 <= t.
Proof.
  induction es as [|x es IH]; intros Hs e He; [set_solver|].
  apply elem_of_cons in He as [->|He].
  - apply (time_sorted_head x (es ++ [(t, b)]) (t, b)) in Hs; [done|set_solver].
  - apply IH; [|done]. by apply (time_sorted_drop 1) in Hs.
Qed.

Lemma push_time_sorted w b t :
  time_sorted (entries w) -> (forall e, e ∈ entries w -> e.1 <= t) -> time_sorted (entries (push w b t)).
Proof.
  intros Hs Hle. rewrite push_entries. set (l := if Nat.leb _ _ then _ else _).
  assert (Hl : time_sorted l /\ forall e, e ∈ l -> e.1 <= t).
  { unfold l. destruct (Nat.leb _ _); [|done]. split; [by apply time_sorted_drop|].
    intros e He. apply Hle. destruct (entries w); set_solver. }
  clearbody l. destruct Hl as [Hl1 Hl2]. unfold time_sorted in *. rewrite fmap_app. cbn.
  clear Hs Hle. induction l as [|x l IH]; cbn; [repeat constructor|].
  inversion Hl1 as [|?? H1 H2]; subst. constructor.
  - apply IH; [done|]. set_solver.
  - rewrite Forall_app, Forall_singleton. split; [done|]. apply Hl2. set_solver.
Qed.

Lemma time_sorted_recent c es : time_sorted es -> time_sorted (recent c es).
Proof.
  unfold time_sorted, recent. induction es as [|e es IH]; intros Hs; [constructor|].
  change ((e :: es).*1) with (e.1 :: es.*1) in Hs.
  inversion Hs as [|?? H1 H2]; subst. rewrite filter_cons. destruct (decide _); [|by apply IH].
  rewrite fmap_cons. constructor; [by apply IH|]. rewrite Forall_forall in H2 |- *. intros x (y & -> & Hy)%list_elem_of_fmap.
  apply H2, list_elem_of_fmap. exists y. split; [done|]. by apply list_elem_of_filter in Hy as [_ ?].
Qed.

Lemma elem_of_recent_lastn c n es e : e ∈ recent c (lastn n es) -> e ∈ es.
Proof.
  unfold recent, lastn. intros [_ He]%list_elem_of_filter.
  rewrite <- (take_drop (length es - n) es). set_solver.
Qed.

Lemma record_all_recent window hist t b :
  0 <= window -> time_sorted (hist ++ [(t, b)]) ->
  (forall e, e ∈ hist ++ [(t, b)] -> instant_min <= e.1 - window) ->
  entries (record_all window (hist ++ [(t, b)])) =
  recent (t - window) (lastn MAX_WINDOW_ENTRIES (hist ++ [(t, b)])).
Proof.
  intros Hwin. destruct MAX_WINDOW_ENTRIES as [|n] eqn:Hn; [done|].
  revert t b. induction hist as [|[t' b'] hist IH] using rev_ind; intros t b Hs Hmin.
  - assert (Hs0 : entries window_new = recent t (lastn (S n) [])) by done.
    rewrite record_all_snoc. cbn [fst snd].
    rewrite evict_recent; [|apply push_inv, record_all_inv| |apply (Hmin (t, b)); set_solver].
    + apply (push_recent n (t - window)); [done|lia|lia|constructor|done].
    + apply push_time_sorted; [constructor|]. cbn. set_solver.
  - pose proof (time_sorted_app_l _ _ Hs) as Hs'.
    specialize (IH t' b' Hs' ltac:(intros e He; apply Hmin; set_solver)).
    assert (Ht : t' <= t) by (apply (time_sorted_snoc _ _ _ Hs (t', b')); set_solver).
    rewrite record_all_snoc. cbn [fst snd].
    rewrite evict_recent; [|apply push_inv, record_all_inv| |apply (Hmin (t, b)); set_solver].
    + apply (push_recent n (t' - window)); [done|lia|lia|done|done].
    + apply push_time_sorted; rewrite IH; [by apply time_sorted_recent, time_sorted_drop|].
      intros e He%elem_of_recent_lastn. by apply (time_sorted_snoc _ _ _ Hs).
Qed.

(** The window is the recent history: after recording samples with
    non-decreasing instants the deque holds exactly those of the last 10000
    samples that are no older than the window, the counter is the number of
    failures among them, and it has never wrapped. *)
Theorem window_recent_history window hist t b :
  0 <= window -> time_sorted (hist ++ [(t, b)]) ->
  (forall e, e ∈ hist ++ [(t, b)] -> instant_min <= e.1 - window) ->
  let w := record_all window (hist ++ [(t, b)]) in
  entries w = recent (t - window) (lastn MAX_WINDOW_ENTRIES (hist ++ [(t, b)])) /\
  failures w = Z.of_nat (failing (entries w)) /\
  (sample_count w <= MAX_WINDOW_ENTRIES)%nat.
Proof.
  intros Hwin Hs Hmin w. pose proof (record_all_inv window (hist ++ [(t, b)])) as [Hf Hl].
  split; [by apply record_all_recent|done].
Qed.

Lemma window_recent_history_witness :
  let w := record_all 10 ([(0, true); (5, false); (20, true)] ++ [(25, false)]) in
  entries w = [(20, true); (25, false)] /\ failures w = Z.of_nat (failing (entries w)).
Proof.
  split; [vm_compute; reflexivity|].
  apply (window_recent_history 10 [(0, true); (5, false); (20, true)] 25 false); [lia| |].
  - unfold time_sorted. cbn. apply Sorted_StronglySorted; [intros ???; lia|].
    repeat (apply Sorted_cons; [|first [apply HdRel_nil|apply HdRel_cons; lia]]). apply Sorted_nil.
  - intros e He. unfold instant_min.
    repeat (apply elem_of_cons in He as [->|He]; [cbn; lia|]). by apply not_elem_of_nil in He.
Defined.
