(* ===== verification/Breaker.v ===== *)
(** * The circuit breaker (ccode-circuit-breaker/src/breaker.rs, config.rs, state.rs)

    The methods of [CircuitBreaker] are programs over the atomic accesses of
    the shared [CircuitBreakerInner]: one constructor of [act] per access, a
    critical section of the window mutex being one access.  [exec] runs a
    program to its end, which is a call without interference; file BreakerConc
    interleaves the same programs.  Instants and durations are nanoseconds,
    the two [_millis] fields milliseconds since [baseline]. *)

From S2P Require Import Prelude F64 Window.
Local Open Scope Z_scope.

(** ** Configuration *)
Record BreakerConfig := mkBreakerConfig {
  window_duration : Z;
  min_samples : Z;
  error_rate_threshold : f64;
  open_duration : Z;
  half_open_max_probes : Z;
  failure_codes : gset Z;
  enabled : bool
}.

Definition DEFAULT_FAILURE_CODES : list Z := [429; 500; 502; 503; 504].
Definition default_failure_codes : gset Z := list_to_set DEFAULT_FAILURE_CODES.

Definition secs (n : Z) : Z := n * 1000000000.

Definition server : BreakerConfig :=
  mkBreakerConfig (secs 60) 10 (f64_lit 1 2) (secs 10) 1 default_failure_codes true.

Definition client : BreakerConfig :=
  mkBreakerConfig (secs 60) 5 (f64_lit 1 2) (secs 60) 1 {[ 401 ]} true.

Definition is_failure_status (c : BreakerConfig) (status : Z) : bool :=
  bool_decide (status ∈ failure_codes c).

(** ** States, outcomes, telemetry *)
Inductive BreakerState := Closed | Open | HalfOpen.

#[export] Instance BreakerState_eq_dec : EqDecision BreakerState.
Proof. solve_decision. Defined.

Definition to_u8 (s : BreakerState) : Z :=
  match s with Closed => 0 | Open => 1 | HalfOpen => 2 end.

Definition from_u8 (v : Z) : BreakerState :=
  if v =? 0 then Closed else if v =? 1 then Open else if v =? 2 then HalfOpen else Closed.

Inductive Outcome := Success | Failure.

(** The callbacks of [Observer]. *)
Inductive event :=
| on_state_change (old new : BreakerState) (reason : string)
| on_probe_admission (allowed : bool)
| on_outcome (o : Outcome) (status : BreakerState).

(** ** Shared memory *)
Record CircuitBreakerInner := mkInner {
  state_ : Z;
  opened_at_millis : Z;
  half_open_probes : Z;
  probe_claimed_at_millis : Z;
  is_open_fast : bool;
  window : SlidingWindow;
  clock_now : Z;
  events : list event
}.

Definition set_state v s := mkInner v (opened_at_millis s) (half_open_probes s)
  (probe_claimed_at_millis s) (is_open_fast s) (window s) (clock_now s) (events s).
Definition set_opened v s := mkInner (state_ s) v (half_open_probes s)
  (probe_claimed_at_millis s) (is_open_fast s) (window s) (clock_now s) (events s).
Definition set_probes v s := mkInner (state_ s) (opened_at_millis s) v
  (probe_claimed_at_millis s) (is_open_fast s) (window s) (clock_now s) (events s).
Definition set_claimed v s := mkInner (state_ s) (opened_at_millis s) (half_open_probes s)
  v (is_open_fast s) (window s) (clock_now s) (events s).
Definition set_fast v s := mkInner (state_ s) (opened_at_millis s) (half_open_probes s)
  (probe_claimed_at_millis s) v (window s) (clock_now s) (events s).
Definition set_window v s := mkInner (state_ s) (opened_at_millis s) (half_open_probes s)
  (probe_claimed_at_millis s) (is_open_fast s) v (clock_now s) (events s).
Definition set_clock v s := mkInner (state_ s) (opened_at_millis s) (half_open_probes s)
  (probe_claimed_at_millis s) (is_open_fast s) (window s) v (events s).
Definition add_event e s := mkInner (state_ s) (opened_at_millis s) (half_open_probes s)
  (probe_claimed_at_millis s) (is_open_fast s) (window s) (clock_now s) (events s ++ [e]).

Inductive act : Type -> Type :=
| Now : act Z
| LoadState : act Z
| StoreState (v : Z) : act unit
| CasState (from to : Z) : act bool
| LoadOpened : act Z
| StoreOpened (v : Z) : act unit
| FetchAddProbes (d : Z) : act Z
| StoreProbes (v : Z) : act unit
| LoadClaimed : act Z
| StoreClaimed (v : Z) : act unit
| CasClaimed (from to : Z) : act bool
| LoadFast : act bool
| StoreFast (v : bool) : act unit
| WithWindow {X : Type} (f : SlidingWindow -> SlidingWindow * X) : act X
| Notify (e : event) : act unit.

Definition exec_act {X} (a : act X) : CircuitBreakerInner -> CircuitBreakerInner * X :=
  match a in act X return CircuitBreakerInner -> CircuitBreakerInner * X with
  | Now => fun s => (s, clock_now s)
  | LoadState => fun s => (s, state_ s)
  | StoreState v => fun s => (set_state v s, tt)
  | CasState from to => fun s =>
      if state_ s =? from then (set_state to s, true) else (s, false)
  | LoadOpened => fun s => (s, opened_at_millis s)
  | StoreOpened v => fun s => (set_opened v s, tt)
  | FetchAddProbes d => fun s =>
      (set_probes (wrap 64 (half_open_probes s + d)) s, half_open_probes s)
  | StoreProbes v => fun s => (set_probes v s, tt)
  | LoadClaimed => fun s => (s, probe_claimed_at_millis s)
  | StoreClaimed v => fun s => (set_claimed v s, tt)
  | CasClaimed from to => fun s =>
      if probe_claimed_at_millis s =? from then (set_claimed to s, true) else (s, false)
  | LoadFast => fun s => (s, is_open_fast s)
  | StoreFast v => fun s => (set_fast v s, tt)
  | WithWindow f => fun s => let (w, x) := f (window s) in (set_window w s, x)
  | Notify e => fun s => (add_event e s, tt)
  end.

(** ** Programs *)
Inductive prog (A : Type) : Type :=
| Ret (a : A)
| Do {X : Type} (c : act X) (k : X -> prog A).
Arguments Ret {A} a.
Arguments Do {A X} c k.

Fixpoint pbind {A B} (p : prog A) (f : A -> prog B) : prog B :=
  match p with
  | Ret a => f a
  | Do c k => Do c (fun x => pbind (k x) f)
  end.

Declare Scope prog_scope.
Delimit Scope prog_scope with prog.
Notation "'let!' x ':=' c 'in' k" := (Do c (fun x => k))
  (at level 10, x name, c at level 100, k at level 200) : prog_scope.
Notation "c ';;' k" := (Do c (fun _ => k))
  (at level 100, k at level 200, right associativity) : prog_scope.
Notation "'call' x ':=' p 'in' k" := (pbind p (fun x => k))
  (at level 10, x name, p at level 100, k at level 200) : prog_scope.

Fixpoint exec {A} (p : prog A) (s : CircuitBreakerInner) : CircuitBreakerInner * A :=
  match p with
  | Ret a => (s, a)
  | Do c k => let (s', x) := exec_act c s in exec (k x) s'
  end.

Lemma exec_bind {A B} (p : prog A) (f : A -> prog B) : forall s,
  exec (pbind p f) s = let (s', a) := exec p s in exec (f a) s'.
Proof.
  induction p as [a|X c k IH]; intros s; cbn; [done|].
  destruct (exec_act c s) as [s' x]. apply IH.
Qed.

(** ** The methods *)
Section methods.
Context (config : BreakerConfig) (baseline : Z).
Local Open Scope prog_scope.

Definition millis_of (now : Z) : Z := wrap 64 (sat_sub now baseline / 1000000).
Definition from_millis (ms : Z) : Z := ms * 1000000.
Definition HALF_OPEN_PROBE_BACKOFF : Z := from_millis 50.

Definition with_window (is_failure : bool) (now : Z) (w : SlidingWindow) : SlidingWindow :=
  evict (push w is_failure now) (window_duration config) now.

Definition should_trip (w : SlidingWindow) : bool :=
  (min_samples config <=? Z.of_nat (sample_count w)) && fge (error_rate w) (error_rate_threshold config).

Definition state : prog BreakerState := let! v := LoadState in Ret (from_u8 v).

Definition is_open : prog bool := let! v := LoadFast in Ret v.

Definition elapsed_millis : prog Z := let! now := Now in Ret (millis_of now).

Definition trip (prev : BreakerState) (reason : string) : prog unit :=
  StoreState (to_u8 Open) ;;
  call ms := elapsed_millis in
  StoreOpened ms ;;
  StoreProbes 0 ;;
  StoreFast true ;;
  if bool_decide (prev <> Open) then Notify (on_state_change prev Open reason) ;; Ret tt
  else Ret tt.

Definition close (prev : BreakerState) (reason : string) : prog unit :=
  StoreState (to_u8 Closed) ;;
  WithWindow (fun w => (clear w, tt)) ;;
  StoreProbes 0 ;;
  StoreFast false ;;
  if bool_decide (prev <> Closed) then Notify (on_state_change prev Closed reason) ;; Ret tt
  else Ret tt.

(** [Err] carries [retry_after]. *)
Definition try_half_open_probe : prog (result Z unit) :=
  call now := elapsed_millis in
  let! prev := FetchAddProbes 1 in
  if prev <? half_open_max_probes config then
    StoreClaimed now ;;
    Notify (on_probe_admission true) ;;
    Ret (Ok tt)
  else
    let! _x := FetchAddProbes (-1) in
    let lease_millis := wrap 64 (open_duration config / 1000000) in
    let! claimed := LoadClaimed in
    let reject :=
      Notify (on_probe_admission false) ;;
      Ret (Err (Z.min HALF_OPEN_PROBE_BACKOFF (open_duration config))) in
    if lease_millis <=? sat_sub now claimed then
      let! won := CasClaimed claimed now in
      if won then Notify (on_probe_admission true) ;; Ret (Ok tt) else reject
    else reject.

Definition check_open : prog (result Z unit) :=
  let! opened := LoadOpened in
  call now := elapsed_millis in
  let elapsed := from_millis (sat_sub now opened) in
  if open_duration config <=? elapsed then
    let! won := CasState (to_u8 Open) (to_u8 HalfOpen) in
    if won then
      StoreFast false ;;
      Notify (on_state_change Open HalfOpen "open_elapsed") ;;
      try_half_open_probe
    else
      call st := state in
      match st with
      | Closed => Ret (Ok tt)
      | HalfOpen => try_half_open_probe
      | Open =>
          let! opened' := LoadOpened in
          call now' := elapsed_millis in
          Ret (Err (sat_sub (open_duration config) (from_millis (sat_sub now' opened'))))
      end
  else Ret (Err (sat_sub (open_duration config) elapsed)).

Definition check : prog (result Z unit) :=
  if negb (enabled config) then Ret (Ok tt)
  else
    call st := state in
    match st with
    | Closed => Ret (Ok tt)
    | Open => check_open
    | HalfOpen => try_half_open_probe
    end.

Definition record (o : Outcome) : prog unit :=
  if negb (enabled config) then Ret tt
  else
    let is_failure := match o with Failure => true | Success => false end in
    let! now := Now in
    call prev_state := state in
    call _u :=
      match prev_state with
      | Closed =>
          let! trips := WithWindow (fun w => let w' := with_window is_failure now w in (w', should_trip w')) in
          if trips : bool then trip prev_state "trip" else Ret tt
      | HalfOpen =>
          if is_failure then trip prev_state "probe_failure" else close prev_state "probe_success"
      | Open =>
          WithWindow (fun w => (with_window is_failure now w, tt)) ;; Ret tt
      end in
    call new_state := state in
    Notify (on_outcome o new_state) ;; Ret tt.

Definition breaker_error_rate : prog f64 :=
  let! now := Now in
  let! r := WithWindow (fun w => let w' := evict w (window_duration config) now in (w', error_rate w')) in
  Ret r.

(** [#[cfg(feature = "test-hooks")]]. *)
Definition force_half_open : prog unit :=
  call prev := state in
  StoreState (to_u8 HalfOpen) ;;
  StoreFast false ;;
  StoreProbes 0 ;;
  if bool_decide (prev <> HalfOpen)
  then Notify (on_state_change prev HalfOpen "force_half_open") ;; Ret tt
  else Ret tt.
End methods.
Arguments try_half_open_probe : simpl never.

(** [with_clock]: the configuration is clamped, the memory zeroed. *)
Definition with_clock_config (c : BreakerConfig) : BreakerConfig :=
  mkBreakerConfig (window_duration c) (min_samples c) (error_rate_threshold c) (open_duration c)
    (Z.max (half_open_max_probes c) 1) (failure_codes c) (enabled c).

Definition with_clock (now : Z) : CircuitBreakerInner :=
  mkInner (to_u8 Closed) 0 0 0 false window_new now [].

(** ** Abstract specification

    Without the atomics: a phase, the samples, and when the last probe was
    claimed. *)
Inductive phase := PClosed | POpen (since : Z) | PHalfOpen (probes : Z).

Record abs := mkAbs { a_phase : phase; a_claimed : Z; a_window : SlidingWindow; a_now : Z }.

Section spec.
Context (config : BreakerConfig) (baseline : Z).

Definition lease : Z := wrap 64 (open_duration config / 1000000).

Definition spec_probe (a : abs) (probes : Z) : abs * result Z unit :=
  let ms := millis_of baseline (a_now a) in
  if probes <? half_open_max_probes config then
    (mkAbs (PHalfOpen (probes + 1)) ms (a_window a) (a_now a), Ok tt)
  else if lease <=? sat_sub ms (a_claimed a) then
    (mkAbs (PHalfOpen probes) ms (a_window a) (a_now a), Ok tt)
  else (mkAbs (PHalfOpen probes) (a_claimed a) (a_window a) (a_now a),
        Err (Z.min HALF_OPEN_PROBE_BACKOFF (open_duration config))).

Definition spec_check (a : abs) : abs * result Z unit :=
  if enabled config then
    match a_phase a with
    | PClosed => (a, Ok tt)
    | POpen since =>
        let elapsed := from_millis (sat_sub (millis_of baseline (a_now a)) since) in
        if open_duration config <=? elapsed then spec_probe a 0
        else (a, Err (open_duration config - elapsed))
    | PHalfOpen probes => spec_probe a probes
    end
  else (a, Ok tt).

Definition spec_record (a : abs) (o : Outcome) : abs :=
  let failed := match o with Failure => true | Success => false end in
  if enabled config then
    match a_phase a with
    | PClosed =>
        let w := with_window config failed (a_now a) (a_window a) in
        mkAbs (if should_trip config w then POpen (millis_of baseline (a_now a)) else PClosed)
              (a_claimed a) w (a_now a)
    | POpen since =>
        mkAbs (POpen since) (a_claimed a) (with_window config failed (a_now a) (a_window a)) (a_now a)
    | PHalfOpen _ =>
        if failed then mkAbs (POpen (millis_of baseline (a_now a))) (a_claimed a) (a_window a) (a_now a)
        else mkAbs PClosed (a_claimed a) window_new (a_now a)
    end
  else a.

(** Operations: a check, a recorded outcome, the passing of time. *)
Inductive bop := BCheck | BRecord (o : Outcome) | BTick (d : Z).

Definition impl_step (s : CircuitBreakerInner) (op : bop) : CircuitBreakerInner * option (result Z unit) :=
  match op with
  | BCheck => let (s', r) := exec (check config baseline) s in (s', Some r)
  | BRecord o => let (s', _) := exec (record config baseline o) s in (s', None)
  | BTick d => (set_clock (clock_now s + d) s, None)
  end.

Definition spec_step (a : abs) (op : bop) : abs * option (result Z unit) :=
  match op with
  | BCheck => let (a', r) := spec_check a in (a', Some r)
  | BRecord o => (spec_record a o, None)
  | BTick d => (mkAbs (a_phase a) (a_claimed a) (a_window a) (a_now a + d), None)
  end.

Fixpoint run_ops {St} (step : St -> bop -> St * option (result Z unit)) (s : St) (ops : list bop)
  : St * list (option (result Z unit)) :=
  match ops with
  | [] => (s, [])
  | op :: ops' =>
      let (s1, r) := step s op in
      let (s2, rs) := run_ops step s1 ops' in (s2, r :: rs)
  end.

(** The memory [s] represents the abstract state [a]. *)
Record represents (s : CircuitBreakerInner) (a : abs) : Prop := {
  rep_window : window s = a_window a;
  rep_claimed : probe_claimed_at_millis s = a_claimed a;
  rep_now : clock_now s = a_now a;
  rep_winv : window_inv (window s);
  rep_phase :
    match a_phase a with
    | PClosed => state_ s = to_u8 Closed /\ half_open_probes s = 0 /\ is_open_fast s = false
    | POpen since => state_ s = to_u8 Open /\ half_open_probes s = 0 /\ is_open_fast s = true /\
                     opened_at_millis s = since
    | PHalfOpen n => state_ s = to_u8 HalfOpen /\ half_open_probes s = n /\ is_open_fast s = false /\
                     0 <= n <= half_open_max_probes config
    end
}.

(** The configuration after [with_clock]. *)
Definition config_ok : Prop := 1 <= half_open_max_probes config <= u64_max - 1.

Hypothesis Hcfg : config_ok.

Lemma exec_probe s n :
  half_open_probes s = n -> 0 <= n <= half_open_max_probes config ->
  let ms := millis_of baseline (clock_now s) in
  exec (try_half_open_probe config baseline) s =
  if n <? half_open_max_probes config then
    (add_event (on_probe_admission true) (set_claimed ms (set_probes (n + 1) s)), Ok tt)
  else if lease <=? sat_sub ms (probe_claimed_at_millis s) then
    (add_event (on_probe_admission true) (set_claimed ms (set_probes n s)), Ok tt)
  else (add_event (on_probe_admission false) (set_probes n s),
        Err (Z.min HALF_OPEN_PROBE_BACKOFF (open_duration config))).
Proof.
  intros Hn Hr. unfold config_ok, u64_max in Hcfg. cbn zeta. unfold try_half_open_probe, elapsed_millis.
  cbn. rewrite Hn, (wrap_small 64 (n + 1)) by lia.
  destruct (n <? half_open_max_probes config) eqn:E; [done|]. cbn.
  rewrite (wrap_small 64 (n + 1 + -1)) by lia. replace (n + 1 + -1) with n by lia.
  fold lease. destruct (lease <=? _); [|done]. cbn. by rewrite Z.eqb_refl.
Qed.

Lemma probe_represents s a n :
  window s = a_window a -> probe_claimed_at_millis s = a_claimed a -> clock_now s = a_now a ->
  window_inv (window s) -> state_ s = to_u8 HalfOpen -> half_open_probes s = n -> is_open_fast s = false ->
  0 <= n <= half_open_max_probes config ->
  represents (exec (try_half_open_probe config baseline) s).1 (spec_probe a n).1 /\
  (exec (try_half_open_probe config baseline) s).2 = (spec_probe a n).2.
Proof.
  intros H1 H2 H3 H4 Hst Hp Hf Hn. rewrite (exec_probe s n Hp Hn). unfold spec_probe.
  rewrite H2, H3. destruct (n <? _) eqn:E; zbool.
  - split; [|done]. split; cbn; try done. split_and!; done || lia.
  - destruct (lease <=? _); (split; [|done]); split; cbn; try done; split_and!; done || lia.
Qed.

Lemma check_represents s a :
  represents s a ->
  represents (exec (check config baseline) s).1 (spec_check a).1 /\
  (exec (check config baseline) s).2 = (spec_check a).2.
Proof.
  intros Hrep. pose proof Hrep as [H1 H2 H3 H4 H5]. unfold check, spec_check.
  destruct (enabled config); [|done]. cbn [negb].
  rewrite exec_bind. cbn [state exec exec_act].
  destruct (a_phase a) as [|since|n] eqn:Ea.
  - destruct H5 as (-> & _). cbn. done.
  - destruct H5 as (Hst & Hp & Hfast & Hop). rewrite Hst. cbn [to_u8 from_u8 Z.eqb Pos.eqb].
    unfold check_open, elapsed_millis. cbn. rewrite Hop, H3.
    destruct (open_duration config <=? _) eqn:E; zbool.
    + cbn. rewrite Hst. cbn.
      apply probe_represents; cbn; try done. unfold config_ok in Hcfg; lia.
    + cbn. split; [done|]. f_equal. unfold sat_sub. unfold sat_sub in E. lia.
  - destruct H5 as (Hst & Hp & Hfast & Hn). rewrite Hst. cbn.
    by apply probe_represents.
Qed.

Lemma record_represents s a o :
  represents s a -> represents (exec (record config baseline o) s).1 (spec_record a o).
Proof.
  intros Hrep. pose proof Hrep as [H1 H2 H3 H4 H5]. unfold record, spec_record.
  destruct (enabled config); [|done]. cbn [negb exec exec_act].
  set (fl := match o with Failure => true | Success => false end).
  rewrite exec_bind. cbn [state exec exec_act]. rewrite exec_bind, H3.
  assert (Hwi : window_inv (with_window config fl (a_now a) (window s))) by (unfold with_window; auto with ccode).
  destruct (a_phase a) as [|since|n] eqn:Ea.
  - destruct H5 as (Hst & Hp & Hfast). rewrite Hst, <- H1. cbn.
    destruct (should_trip config _) eqn:E; cbn; split; cbn; rewrite ?Hst; try done.
    by rewrite H3.
  - destruct H5 as (Hst & Hp & Hfast & Hop). rewrite Hst, <- H1. cbn. split; cbn; try done.
  - destruct H5 as (Hst & Hp & Hfast & Hn). rewrite Hst. cbn.
    destruct fl; cbn; split; cbn; try done; [by rewrite H3|apply window_new_inv].
Qed.

Lemma step_represents s a op :
  represents s a ->
  represents (impl_step s op).1 (spec_step a op).1 /\ (impl_step s op).2 = (spec_step a op).2.
Proof.
  intros Hrep. destruct op as [|o|d]; cbn.
  - destruct (check_represents s a Hrep) as [H E].
    destruct (exec _ s), (spec_check a). cbn in *. by subst.
  - pose proof (record_represents s a o Hrep). by destruct (exec _ s).
  - split; [|done]. destruct Hrep as [H1 H2 H3 H4 H5]. split; cbn; try done. by rewrite H3.
Qed.

Lemma run_represents ops : forall s a,
  represents s a ->
  represents (run_ops impl_step s ops).1 (run_ops spec_step a ops).1 /\
  (run_ops impl_step s ops).2 = (run_ops spec_step a ops).2.
Proof.
  induction ops as [|op ops IH]; intros s a Hrep; [done|]. cbn.
  destruct (step_represents s a op Hrep) as [H1 E1].
  destruct (impl_step s op) as [s1 r1], (spec_step a op) as [a1 r1']. cbn in *. subst.
  destruct (IH s1 a1 H1) as [H2 E2].
  destruct (run_ops impl_step s1 ops), (run_ops spec_step a1 ops). cbn in *. by subst.
Qed.

Lemma init_represents now : represents (with_clock now) (mkAbs PClosed 0 window_new now).
Proof. split; cbn; try done. apply window_new_inv. Qed.
End spec.

(** C1.  Refinement: for every sequence of checks, recorded outcomes and
    clock advances, the breaker answers as the specification without atomics
    does and its memory represents the specification's state; in particular
    the [is_open] mirror equals "the state is Open", the probe counter never
    wraps, and the window invariant holds. *)
Theorem breaker_refines_spec config0 baseline ops :
  let config := with_clock_config config0 in
  half_open_max_probes config0 <= u64_max - 1 ->
  let impl := run_ops (impl_step config baseline) (with_clock baseline) ops in
  let spec := run_ops (spec_step config baseline) (mkAbs PClosed 0 window_new baseline) ops in
  impl.2 = spec.2 /\ represents config impl.1 spec.1 /\
  (exec is_open impl.1).2 = bool_decide (from_u8 (state_ impl.1) = Open).
Proof.
  intros config Hmax impl spec.
  assert (Hcfg : config_ok config).
  { unfold config_ok, config, u64_max in *. cbn. lia. }
  destruct (run_represents config baseline Hcfg ops _ _ (init_represents config baseline)) as [H E].
  fold impl in H, E. fold spec in H, E. split; [done|]. split; [done|].
  destruct H as [_ _ _ _ H5]. cbn.
  by destruct (a_phase spec.1); [destruct H5 as (-> & _ & ->)|destruct H5 as (-> & _ & -> & _)..].
Qed.

(** ** Probe bound *)
Definition admitted (r : option (result Z unit)) : Z :=
  match r with Some x => if is_ok x then 1 else 0 | None => 0 end.
Definition count_ok (rs : list (option (result Z unit))) : Z :=
  foldr (fun r n => admitted r + n) 0 rs.

Definition quiet (ops : list bop) : Prop :=
  Forall (fun op => match op with BCheck => True | BTick d => 0 <= d | BRecord _ => False end) ops.

Definition total_ticks (ops : list bop) : Z :=
  foldr (fun op t => match op with BTick d => d + t | _ => t end) 0 ops.

Lemma total_ticks_nonneg ops : quiet ops -> 0 <= total_ticks ops.
Proof. induction 1 as [|[|o|d] ops H Hq IH]; unfold total_ticks in *; cbn in *; try done; lia. Qed.

Section bound.
Context (config : BreakerConfig) (baseline : Z).

(** The millisecond clock on a stretch of time where it does not wrap. *)
Definition ms_range (t : Z) : Prop := baseline <= t /\ (t - baseline) / 1000000 < 2 ^ 64.

Lemma millis_of_mono t u : ms_range u -> baseline <= t <= u -> millis_of baseline t <= millis_of baseline u.
Proof.
  unfold ms_range, millis_of, sat_sub. intros [H1 H2] H3. rewrite !Z.max_r by lia.
  assert (0 <= (t - baseline) / 1000000) by (apply Z.div_pos; lia).
  assert ((t - baseline) / 1000000 <= (u - baseline) / 1000000) by (apply Z.div_le_mono; lia).
  rewrite !wrap_small; lia.
Qed.

(** Probes still available in a phase, for a claim no older than [ms0]. *)
Definition budget (ms0 : Z) (a : abs) : option Z :=
  match a_phase a with
  | PClosed => None
  | POpen _ => Some (half_open_max_probes config)
  | PHalfOpen n =>
      if ms0 <=? a_claimed a then Some (half_open_max_probes config - n) else None
  end.

Lemma spec_probe_budget ms0 a n :
  ms0 <= millis_of baseline (a_now a) < ms0 + lease config ->
  0 <= n <= half_open_max_probes config ->
  (n < half_open_max_probes config \/ ms0 <= a_claimed a) ->
  let '(a', r) := spec_probe config baseline a n in
  a_now a' = a_now a /\
  budget ms0 a' = Some (half_open_max_probes config - n - if is_ok r then 1 else 0) /\
  exists n', a_phase a' = PHalfOpen n' /\ 0 <= n' <= half_open_max_probes config.
Proof.
  intros Hms Hn Hcl. unfold spec_probe. destruct (n <? _) eqn:E; zbool.
  - split; [done|]. unfold budget. cbn [a_phase a_claimed]. rewrite (proj2 (Z.leb_le _ _)) by lia.
    split; [f_equal; cbn; lia|]. exists (n + 1). split; [done|lia].
  - destruct Hcl as [?|Hcl]; [lia|].
    rewrite (proj2 (Z.leb_gt _ _)) by (unfold sat_sub; lia). split; [done|].
    unfold budget. cbn [a_phase a_claimed]. rewrite (proj2 (Z.leb_le _ _)) by lia.
    split; [f_equal; cbn; lia|]. by exists n.
Qed.

Definition half_open_ok (a : abs) : Prop :=
  match a_phase a with PHalfOpen n => 0 <= n <= half_open_max_probes config | _ => True end.

Lemma spec_check_budget ms0 a k :
  enabled config = true -> 1 <= half_open_max_probes config ->
  ms0 <= millis_of baseline (a_now a) < ms0 + lease config ->
  budget ms0 a = Some k -> half_open_ok a ->
  let '(a', r) := spec_check config baseline a in
  a_now a' = a_now a /\ budget ms0 a' = Some (k - if is_ok r then 1 else 0) /\ half_open_ok a'.
Proof.
  intros Hen Hmax Hms Hk Hph. unfold spec_check. rewrite Hen.
  assert (Hprobe : forall n, 0 <= n <= half_open_max_probes config ->
    (n < half_open_max_probes config \/ ms0 <= a_claimed a) -> k = half_open_max_probes config - n ->
    let '(a', r) := spec_probe config baseline a n in
    a_now a' = a_now a /\ budget ms0 a' = Some (k - if is_ok r then 1 else 0) /\ half_open_ok a').
  { intros n Hn Hcl ->. pose proof (spec_probe_budget ms0 a n Hms Hn Hcl) as H.
    destruct (spec_probe config baseline a n) as [a' r].
    destruct H as (? & Hbd & n' & E & ?). unfold half_open_ok. rewrite E. done. }
  unfold budget in Hk. unfold half_open_ok in Hph.
  destruct (a_phase a) as [|since|n] eqn:Ea; [done| |].
  - simplify_eq. destruct (open_duration config <=? _); [apply Hprobe; lia|].
    split; [done|]. unfold budget, half_open_ok. rewrite Ea. cbn. split; [f_equal; lia|done].
  - destruct (ms0 <=? a_claimed a) eqn:Ec; simplify_eq; zbool. apply Hprobe; [done|by right|done].
Qed.

Lemma ms_range_le t u : baseline <= t <= u -> ms_range u -> ms_range t.
Proof.
  intros Hle [H1 H2]. split; [lia|]. eapply Z.le_lt_trans; [|exact H2]. apply Z.div_le_mono; lia.
Qed.

Lemma spec_run_budget ms0 ops : forall a k,
  enabled config = true -> 1 <= half_open_max_probes config -> quiet ops ->
  baseline <= a_now a -> ms_range (a_now a + total_ticks ops) ->
  ms0 <= millis_of baseline (a_now a) ->
  millis_of baseline (a_now a + total_ticks ops) < ms0 + lease config ->
  budget ms0 a = Some k -> half_open_ok a ->
  count_ok (run_ops (spec_step config baseline) a ops).2 <= k.
Proof.
  induction ops as [|op ops IH]; intros a k Hen Hmax Hq Hb Hr Hlo Hhi Hk Hph.
  - cbn. unfold budget in Hk. unfold half_open_ok in Hph.
    destruct (a_phase a); simplify_eq; [lia|]. case_match; simplify_eq; lia.
  - inversion Hq as [|?? Hop Hq']; subst. pose proof (total_ticks_nonneg ops Hq') as Ht.
    destruct op as [|o|d]; [|done|]; cbn [run_ops spec_step];
      cbn [total_ticks foldr] in Hr, Hhi; fold (total_ticks ops) in Hr, Hhi.
    + assert (Hms : ms0 <= millis_of baseline (a_now a) < ms0 + lease config).
      { split; [done|]. eapply Z.le_lt_trans; [|exact Hhi]. apply millis_of_mono; [done|lia]. }
      pose proof (spec_check_budget ms0 a k Hen Hmax Hms Hk Hph) as Hstep.
      destruct (spec_check config baseline a) as [a' r]. destruct Hstep as (Hnow & Hbud & Hph').
      rewrite <- Hnow in Hb, Hr, Hlo, Hhi.
      pose proof (IH a' _ Hen Hmax Hq' Hb Hr Hlo Hhi Hbud Hph') as Hrec.
      destruct (run_ops _ a' ops) as [a2 rs]. cbn [snd count_ok foldr admitted] in *.
      fold (count_ok rs) in *. lia.
    + cbn in Hop. set (a' := mkAbs (a_phase a) (a_claimed a) (a_window a) (a_now a + d)).
      rewrite Z.add_assoc in Hr, Hhi.
      assert (Hlo' : ms0 <= millis_of baseline (a_now a')).
      { etrans; [exact Hlo|]. apply millis_of_mono; [|cbn; lia]. eapply ms_range_le; [|exact Hr]. cbn. lia. }
      pose proof (IH a' k Hen Hmax Hq' ltac:(cbn; lia) Hr Hlo' Hhi Hk Hph) as Hrec.
      destruct (run_ops _ a' ops) as [a2 rs]. cbn [snd count_ok foldr admitted] in *.
      fold (count_ok rs) in *. lia.
Qed.
End bound.

(** Probe bound: once the breaker is open, calls of [check] that do not
    overlap admit at most [half_open_max_probes] requests before the first
    outcome is recorded, as long as less than one lease ([open_duration])
    passes. *)
Theorem half_open_probe_bound config0 baseline ops1 ops2 since :
  let config := with_clock_config config0 in
  let run1 := run_ops (impl_step config baseline) (with_clock baseline) ops1 in
  let spec1 := run_ops (spec_step config baseline) (mkAbs PClosed 0 window_new baseline) ops1 in
  half_open_max_probes config0 <= u64_max - 1 -> enabled config0 = true ->
  a_phase spec1.1 = POpen since ->
  quiet ops2 -> baseline <= clock_now run1.1 -> ms_range baseline (clock_now run1.1 + total_ticks ops2) ->
  millis_of baseline (clock_now run1.1 + total_ticks ops2) <
    millis_of baseline (clock_now run1.1) + lease config ->
  count_ok (run_ops (impl_step config baseline) run1.1 ops2).2 <= Z.max (half_open_max_probes config0) 1.
Proof.
  intros config run1 spec1 Hmax Hen Hph Hq Hb Hr Hms.
  assert (Hcfg : config_ok config).
  { unfold config_ok, config, u64_max in *. cbn. lia. }
  destruct (run_represents config baseline Hcfg ops1 _ _ (init_represents config baseline)) as [Hrep _].
  fold run1 in Hrep. fold spec1 in Hrep.
  destruct (run_represents config baseline Hcfg ops2 _ _ Hrep) as [_ ->].
  rewrite (rep_now _ _ _ Hrep) in *.
  apply (spec_run_budget config baseline (millis_of baseline (a_now spec1.1))); try done.
  - cbn. lia.
  - unfold budget. by rewrite Hph.
  - unfold half_open_ok. by rewrite Hph.
Qed.

(** No stranding: whatever the memory holds (a probe lost, a counter
    left at any value by interference), an enabled breaker whose cool-down and
    probe lease have both run out admits the next request; and when the state
    was open or half-open, the success of that request closes the breaker and
    clears the counter, the mirror and the window. *)
Theorem breaker_recovers config baseline s :
  let ms := millis_of baseline (clock_now s) in
  enabled config = true ->
  open_duration config <= from_millis (sat_sub ms (opened_at_millis s)) ->
  lease config <= sat_sub ms (probe_claimed_at_millis s) ->
  let '(s1, r) := exec (check config baseline) s in
  r = Ok tt /\
  (from_u8 (state_ s) <> Closed ->
   let s2 := (exec (record config baseline Success) s1).1 in
   from_u8 (state_ s2) = Closed /\ half_open_probes s2 = 0 /\ is_open_fast s2 = false /\
   window s2 = window_new).
Proof.
  intros ms Hen Hopen Hlease.
  assert (Hprobe : forall t, clock_now t = clock_now s ->
     probe_claimed_at_millis t = probe_claimed_at_millis s -> state_ t = to_u8 HalfOpen ->
     let '(s1, r) := exec (try_half_open_probe config baseline) t in
     r = Ok tt /\ state_ s1 = to_u8 HalfOpen).
  { intros t Ht1 Ht2 Ht3. unfold try_half_open_probe, elapsed_millis. cbn. rewrite Ht1.
    destruct (_ <? _); [done|]. cbn. rewrite Ht2. fold (lease config).
    rewrite (proj2 (Z.leb_le _ _)) by exact Hlease. cbn. rewrite Ht2, Z.eqb_refl. done. }
  assert (Hclose : forall s1, state_ s1 = to_u8 HalfOpen ->
     let s2 := (exec (record config baseline Success) s1).1 in
     from_u8 (state_ s2) = Closed /\ half_open_probes s2 = 0 /\ is_open_fast s2 = false /\
     window s2 = window_new).
  { intros s1 H1. unfold record. rewrite Hen. cbn. rewrite H1. done. }
  unfold check. rewrite Hen. cbn [negb]. rewrite exec_bind. cbn [state exec exec_act].
  destruct (from_u8 (state_ s)) eqn:Est.
  - cbn. done.
  - assert (Hs : state_ s = 1).
    { unfold from_u8 in Est. repeat case_match; zbool; done. }
    unfold check_open, elapsed_millis. cbn. fold ms. rewrite (proj2 (Z.leb_le _ _)) by done.
    cbn. rewrite Hs. cbn.
    set (t := add_event _ _). specialize (Hprobe t eq_refl eq_refl eq_refl).
    destruct (exec (try_half_open_probe config baseline) t) as [s1 r].
    destruct Hprobe as [-> ?]. split; [done|]. intros _. by apply Hclose.
  - assert (Hs : state_ s = to_u8 HalfOpen).
    { unfold from_u8 in Est. repeat case_match; zbool; done. }
    specialize (Hprobe s eq_refl eq_refl Hs).
    destruct (exec (try_half_open_probe config baseline) s) as [s1 r].
    destruct Hprobe as [-> ?]. split; [done|]. intros _. by apply Hclose.
Qed.

(** ** Evaluation: ten failures trip the server preset; after ten seconds one
    probe goes through and the next is refused for 50 ms. *)
Definition ten_failures : list bop := repeat (BRecord Failure) 10.

Lemma breaker_refines_spec_witness :
  let config := with_clock_config server in
  let ops := ten_failures ++ [BCheck; BTick (secs 10); BCheck; BCheck; BRecord Success; BCheck] in
  let impl := run_ops (impl_step config 0) (with_clock 0) ops in
  drop 10 impl.2 =
    [Some (Err (secs 10)); None; Some (Ok tt); Some (Err 50000000); None; Some (Ok tt)] /\
  impl.2 = (run_ops (spec_step config 0) (mkAbs PClosed 0 window_new 0) ops).2.
Proof.
  split; [vm_compute; reflexivity|].
  refine (proj1 (breaker_refines_spec server 0
    (ten_failures ++ [BCheck; BTick (secs 10); BCheck; BCheck; BRecord Success; BCheck]) _)).
  vm_compute. congruence.
Defined.

Lemma half_open_probe_bound_witness :
  count_ok (run_ops (impl_step (with_clock_config server) 0)
     (run_ops (impl_step (with_clock_config server) 0) (with_clock 0) (ten_failures ++ [BTick (secs 10)])).1
     [BCheck; BTick (secs 5); BCheck; BCheck]).2 <= 1.
Proof.
  apply (half_open_probe_bound server 0 (ten_failures ++ [BTick (secs 10)])
           [BCheck; BTick (secs 5); BCheck; BCheck] 0); try (vm_compute; congruence).
  - repeat constructor. vm_compute. congruence.
  - split; vm_compute; congruence.
Defined.

Definition stranded : CircuitBreakerInner :=
  mkInner 2 0 u64_max 500 true window_new (secs 100) [].

Lemma breaker_recovers_witness :
  let '(s1, r) := exec (check server 0) stranded in
  r = Ok tt /\
  (from_u8 (state_ stranded) <> Closed ->
   let s2 := (exec (record server 0 Success) s1).1 in
   from_u8 (state_ s2) = Closed /\ half_open_probes s2 = 0 /\ is_open_fast s2 = false /\
   window s2 = window_new).
Proof. apply (breaker_recovers server 0 stranded); vm_compute; congruence. Defined.
