(* ===== verification/BreakerConc.v ===== *)
(** * Interleavings of the circuit breaker (ccode-circuit-breaker/src/breaker.rs)

    Threads run the programs of file Breaker one atomic access at a time, in
    any order, while the clock advances ([cstep]).  Accesses are sequentially
    consistent, so what an interleaving here shows can happen can happen on
    every weaker memory too.

    - Once a probe's claim is stored, no interleaving of further checks admits
      more than [half_open_max_probes] until the lease runs out.
    - Between the claim of a slot and the store of its time the lease test
      reads an old time, and two checks can both be admitted with one slot.
    - [trip] publishes [Open] before it stores the time: a check in between
      uses the old time, and the [is_open] mirror can stay wrong. *)

From S2P Require Import Prelude F64 Window Breaker.
Local Open Scope Z_scope.

(** ** Threads *)
Inductive tres := TCheck (r : result Z unit) | TRecord.
Definition thread : Type := prog tres.

Definition check_thread (config : BreakerConfig) (baseline : Z) : thread :=
  pbind (check config baseline) (fun r => Ret (TCheck r)).
Definition record_thread (config : BreakerConfig) (baseline : Z) (o : Outcome) : thread :=
  pbind (record config baseline o) (fun _ => Ret TRecord).

Definition conf : Type := CircuitBreakerInner * list thread.

(** One access of a thread. *)
Definition thread_step (t : thread) (s : CircuitBreakerInner) : option (CircuitBreakerInner * thread) :=
  match t with
  | Ret _ => None
  | Do c k => let (s', x) := exec_act c s in Some (s', k x)
  end.

Inductive cstep : conf -> conf -> Prop :=
| step_run s ts i t s' t' :
    ts !! i = Some t -> thread_step t s = Some (s', t') -> cstep (s, ts) (s', <[i := t']> ts)
| step_tick s ts d : 0 <= d -> cstep (s, ts) (set_clock (clock_now s + d) s, ts).

(** A schedule: the threads to run, one access each. *)
Fixpoint run_schedule (l : list nat) (c : conf) : option conf :=
  match l with
  | [] => Some c
  | i :: l' =>
      let (s, ts) := c in
      t ← ts !! i;
      '(s', t') ← thread_step t s;
      run_schedule l' (s', <[i := t']> ts)
  end.

Lemma run_schedule_steps l : forall c c', run_schedule l c = Some c' -> rtc cstep c c'.
Proof.
  induction l as [|i l IH]; intros [s ts] c' H; cbn in H; [by simplify_eq|].
  destruct (ts !! i) as [t|] eqn:Ei; [|done]. cbn in H.
  destruct (thread_step t s) as [[s' t']|] eqn:Et; [|done]. cbn in H.
  eapply rtc_l; [by eapply step_run|]. by apply IH.
Qed.

(** ** Counting *)
Fixpoint sumZ {A} (f : A -> Z) (l : list A) : Z :=
  match l with [] => 0 | x :: l' => f x + sumZ f l' end.

Lemma sumZ_insert {A} (f : A -> Z) l : forall i x y,
  l !! i = Some x -> sumZ f (<[i := y]> l) = sumZ f l - f x + f y.
Proof.
  induction l as [|z l IH]; intros [|i] x y H; simplify_eq/=; [lia|].
  rewrite (IH i x y H). lia.
Qed.

Lemma sumZ_fmap {A B} (g : A -> B) (f : B -> Z) l : sumZ f (g <$> l) = sumZ (fun x => f (g x)) l.
Proof. induction l as [|x l IH]; cbn; [done|]. by rewrite IH. Qed.

Lemma sumZ_bounds {A} (f : A -> Z) l :
  (forall x, 0 <= f x <= 1) -> 0 <= sumZ f l <= Z.of_nat (length l).
Proof. intros Hf. induction l as [|x l IH]; cbn -[Z.of_nat]; [lia|]. specialize (Hf x). lia. Qed.

Lemma sumZ_le {A} (f g : A -> Z) l : (forall x, f x <= g x) -> sumZ f l <= sumZ g l.
Proof. intros H. induction l as [|x l IH]; cbn; [lia|]. specialize (H x). lia. Qed.

Lemma sumZ_const {A} (f : A -> Z) x n : sumZ f (repeat x n) = Z.of_nat n * f x.
Proof. induction n as [|n IH]; cbn -[Z.of_nat]; lia. Qed.

Lemma sumZ_ext {A} (f g : A -> Z) l : (forall x, f x = g x) -> sumZ f l = sumZ g l.
Proof. intros H. induction l as [|x l IH]; cbn; [done|]. by rewrite H, IH. Qed.

(** Threads whose [check] returned [Ok]. *)
Definition is_admitted (t : thread) : Z :=
  match t with Ret (TCheck (Ok _)) => 1 | _ => 0 end.
Definition admitted_threads (ts : list thread) : Z := sumZ is_admitted ts.

(** ** No over-admission while the claim is fresh *)
Section fresh_claim.
Context (config : BreakerConfig) (baseline : Z).

(** Where a check of a half-open breaker stands. *)
Inductive position :=
| AtCheck | AtNow | AtAdd (now : Z) | AtStore (now : Z) | AtNotifyOk | DoneOk
| AtSub (now : Z) | AtLoad (now : Z) | AtNotifyErr | DoneErr.

Definition backoff : Z := Z.min HALF_OPEN_PROBE_BACKOFF (open_duration config).

Definition reject_prog : prog tres :=
  Do (Notify (on_probe_admission false)) (fun _ => Ret (TCheck (Err backoff))).
Definition admit_prog : prog tres :=
  Do (Notify (on_probe_admission true)) (fun _ => Ret (TCheck (Ok tt))).
Definition load_prog (now : Z) : prog tres :=
  Do LoadClaimed (fun claimed =>
    pbind (if lease config <=? sat_sub now claimed
           then Do (CasClaimed claimed now) (fun won =>
                  if won then Do (Notify (on_probe_admission true)) (fun _ => Ret (Ok tt))
                  else Do (Notify (on_probe_admission false)) (fun _ => Ret (Err backoff)))
           else Do (Notify (on_probe_admission false)) (fun _ => Ret (Err backoff)))
          (fun r => Ret (TCheck r))).
Definition add_prog (now : Z) : prog tres :=
  Do (FetchAddProbes 1) (fun prev =>
    pbind (if prev <? half_open_max_probes config
           then Do (StoreClaimed now) (fun _ =>
                  Do (Notify (on_probe_admission true)) (fun _ => Ret (Ok tt)))
           else Do (FetchAddProbes (-1)) (fun _ =>
                  Do LoadClaimed (fun claimed =>
                    if lease config <=? sat_sub now claimed
                    then Do (CasClaimed claimed now) (fun won =>
                      if won then Do (Notify (on_probe_admission true)) (fun _ => Ret (Ok tt))
                      else Do (Notify (on_probe_admission false)) (fun _ => Ret (Err backoff)))
                    else Do (Notify (on_probe_admission false)) (fun _ => Ret (Err backoff)))))
          (fun r => Ret (TCheck r))).

Definition prog_of (p : position) : thread :=
  match p with
  | AtCheck => check_thread config baseline
  | AtNow => pbind (try_half_open_probe config baseline) (fun r => Ret (TCheck r))
  | AtAdd now => add_prog now
  | AtStore now => Do (StoreClaimed now) (fun _ => admit_prog)
  | AtNotifyOk => admit_prog
  | DoneOk => Ret (TCheck (Ok tt))
  | AtSub now => Do (FetchAddProbes (-1)) (fun _ => load_prog now)
  | AtLoad now => load_prog now
  | AtNotifyErr => reject_prog
  | DoneErr => Ret (TCheck (Err backoff))
  end.

(** Increments of the counter a thread has outstanding, and slots it owns. *)
Definition weight (p : position) : Z :=
  match p with AtStore _ | AtNotifyOk | DoneOk | AtSub _ => 1 | _ => 0 end.
Definition owns (p : position) : Z :=
  match p with AtStore _ | AtNotifyOk | DoneOk => 1 | _ => 0 end.

(** The clock value a thread has read. *)
Definition read (p : position) : option Z :=
  match p with AtAdd n | AtStore n | AtSub n | AtLoad n => Some n | _ => None end.

Context (n0 c0 t_end : Z).

Record conc_inv (s : CircuitBreakerInner) (ps : list position) : Prop := {
  ci_state : state_ s = to_u8 HalfOpen;
  ci_time : ms_range baseline (clock_now s) /\ c0 <= millis_of baseline (clock_now s);
  ci_claimed : c0 <= probe_claimed_at_millis s;
  ci_probes : half_open_probes s = n0 + sumZ weight ps;
  ci_owned : n0 + sumZ owns ps <= half_open_max_probes config;
  ci_read : Forall (fun p => from_option (fun n => c0 <= n <= millis_of baseline (clock_now s)) True (read p)) ps
}.

Hypothesis Hen : enabled config = true.
Hypothesis Hn0 : 0 <= n0.
Hypothesis Hend : ms_range baseline t_end.
Hypothesis Hlease : millis_of baseline t_end < c0 + lease config.

Lemma ci_insert s ps i p p' s' :
  conc_inv s ps -> ps !! i = Some p ->
  state_ s' = state_ s -> clock_now s' = clock_now s -> c0 <= probe_claimed_at_millis s' ->
  half_open_probes s' = half_open_probes s - weight p + weight p' ->
  n0 + sumZ owns ps - owns p + owns p' <= half_open_max_probes config ->
  from_option (fun n => c0 <= n <= millis_of baseline (clock_now s)) True (read p') ->
  conc_inv s' (<[i := p']> ps).
Proof.
  intros [H1 H2 H3 H4 H5 H6] Hi E1 E2 E3 E4 E5 E6. split.
  - by rewrite E1.
  - by rewrite E2.
  - done.
  - rewrite (sumZ_insert weight ps i p p' Hi). lia.
  - rewrite (sumZ_insert owns ps i p p' Hi). lia.
  - rewrite E2. by apply Forall_insert.
Qed.

Lemma owns_le_weight p : owns p <= weight p.
Proof. destruct p; cbn; lia. Qed.

Lemma position_step s ps i p s' t' :
  n0 + Z.of_nat (length ps) + 1 < 2 ^ 64 ->
  conc_inv s ps -> clock_now s <= t_end -> ps !! i = Some p ->
  thread_step (prog_of p) s = Some (s', t') ->
  exists p', t' = prog_of p' /\ conc_inv s' (<[i := p']> ps) /\ clock_now s' = clock_now s.
Proof.
  intros Hlen Hinv Ht Hi Hstep. pose proof Hinv as [H1 [H2 H2'] H3 H4 H5 H6].
  pose proof (proj1 (Forall_lookup _ _) H6 i p Hi) as Hread.
  pose proof (sumZ_le owns weight ps owns_le_weight) as How.
  pose proof (sumZ_bounds weight ps ltac:(intros []; cbn; lia)) as Hwb.
  pose proof (millis_of_mono baseline (clock_now s) t_end Hend ltac:(destruct H2; lia)) as Hms.
  destruct p as [| |now|now| | |now|now| |]; cbn in Hstep; try done.
  - unfold check_thread, check in Hstep. rewrite Hen in Hstep. cbn in Hstep. simplify_eq.
    exists AtNow. rewrite H1. split; [done|]. split; [|done].
    eapply ci_insert; [exact Hinv|exact Hi|cbn..]; done || lia.
  - unfold try_half_open_probe, elapsed_millis in Hstep. cbn in Hstep. simplify_eq.
    exists (AtAdd (millis_of baseline (clock_now s'))). split; [reflexivity|]. split; [|done].
    eapply ci_insert; [exact Hinv|exact Hi|cbn..]; done || lia.
  - simplify_eq. destruct (half_open_probes s <? half_open_max_probes config) eqn:E; zbool.
    + exists (AtStore now). split; [done|]. split; [|done].
      eapply ci_insert; [exact Hinv|exact Hi|cbn..]; try done; try (rewrite wrap_small); lia.
    + exists (AtSub now). split; [done|]. split; [|done].
      eapply ci_insert; [exact Hinv|exact Hi|cbn..]; try done; try (rewrite wrap_small); lia.
  - simplify_eq. exists AtNotifyOk. split; [done|]. split; [|done].
    eapply ci_insert; [exact Hinv|exact Hi|cbn..]; try done; cbn in Hread; lia.
  - simplify_eq. exists DoneOk. split; [done|]. split; [|done].
    eapply ci_insert; [exact Hinv|exact Hi|cbn..]; done || lia.
  - simplify_eq. exists (AtLoad now). split; [done|]. split; [|done].
    assert (1 <= sumZ weight ps).
    { pose proof (sumZ_insert weight ps i (AtSub now) DoneErr Hi) as E.
      pose proof (sumZ_bounds weight (<[i := DoneErr]> ps) ltac:(intros []; cbn; lia)). cbn in E. lia. }
    eapply ci_insert; [exact Hinv|exact Hi|cbn..]; try done; try (rewrite wrap_small); lia.
  - simplify_eq. exists AtNotifyErr. cbn in Hread.
    rewrite (proj2 (Z.leb_gt _ _)) by (unfold sat_sub; lia).
    split; [done|]. split; [|done]. eapply ci_insert; [exact Hinv|exact Hi|cbn..]; done || lia.
  - simplify_eq. exists DoneErr. split; [done|]. split; [|done].
    eapply ci_insert; [exact Hinv|exact Hi|cbn..]; done || lia.
Qed.

Lemma conc_inv_tick s ps d :
  0 <= d -> clock_now s + d <= t_end -> conc_inv s ps -> conc_inv (set_clock (clock_now s + d) s) ps.
Proof.
  intros Hd Ht [H1 [H2 H2'] H3 H4 H5 H6].
  assert (Hr : ms_range baseline (clock_now s + d)).
  { eapply ms_range_le; [|exact Hend]. destruct H2. lia. }
  assert (Hm : millis_of baseline (clock_now s) <= millis_of baseline (clock_now s + d)).
  { apply millis_of_mono; [done|]. destruct H2. lia. }
  split; cbn; try done; [split; [done|lia]|].
  eapply Forall_impl; [exact H6|]. intros p Hp. cbn in Hp |- *. destruct (read p); cbn in *; [lia|done].
Qed.

Lemma conc_run s ps c' :
  n0 + Z.of_nat (length ps) + 1 < 2 ^ 64 -> conc_inv s ps ->
  rtc cstep (s, prog_of <$> ps) c' -> clock_now c'.1 <= t_end ->
  exists ps', c'.2 = prog_of <$> ps' /\ conc_inv c'.1 ps' /\ length ps' = length ps.
Proof.
  intros Hlen Hinv Hsteps. pattern c'. eapply rtc_ind_r; [|intros x y Hxy Hstep IH|exact Hsteps].
  - intros _. by exists ps.
  - intros Hy. destruct Hstep as [s1 ts i t s' t' Hi Ht|s1 ts d Hd]; cbn in *.
    + assert (Hclk : clock_now s' = clock_now s1).
      { destruct t as [a|X c k]; [done|]. cbn in Ht. destruct c; cbn in Ht; try by simplify_eq.
        - destruct (_ =? _); by simplify_eq.
        - destruct (_ =? _); by simplify_eq.
        - destruct (f (window s1)); by simplify_eq. }
      destruct IH as (ps1 & -> & Hinv1 & Hl1); [lia|].
      rewrite list_lookup_fmap in Hi. destruct (ps1 !! i) as [p|] eqn:Ep; [|done]. cbn in Hi. simplify_eq.
      destruct (position_step s1 ps1 i p s' t') as (p' & -> & Hinv' & _); [by rewrite Hl1|done|lia|done..|].
      exists (<[i := p']> ps1). split; [by rewrite list_fmap_insert|]. split; [done|].
      by rewrite length_insert.
    + destruct IH as (ps1 & -> & Hinv1 & Hl1); [lia|].
      exists ps1. split; [done|]. split; [by apply conc_inv_tick|done].
Qed.
End fresh_claim.

Lemma fmap_repeat_prog config baseline k :
  prog_of config baseline <$> repeat AtCheck k = repeat (check_thread config baseline) k.
Proof. induction k as [|k IH]; [done|]. cbn [repeat]. by rewrite fmap_cons, IH. Qed.

(** Concurrent probe bound: when a half-open breaker has [n] slots
    claimed and the last claim was stored at [c], then in every interleaving
    of any number of further checks, up to any instant before the lease of
    that claim runs out, at most [half_open_max_probes - n] of them have been
    admitted. *)
Theorem concurrent_probe_bound config baseline s k t_end c' :
  enabled config = true -> state_ s = to_u8 HalfOpen ->
  0 <= half_open_probes s <= half_open_max_probes config ->
  half_open_probes s + Z.of_nat k + 1 < 2 ^ 64 ->
  ms_range baseline t_end -> baseline <= clock_now s <= t_end ->
  probe_claimed_at_millis s <= millis_of baseline (clock_now s) ->
  millis_of baseline t_end < probe_claimed_at_millis s + lease config ->
  rtc cstep (s, repeat (check_thread config baseline) k) c' -> clock_now c'.1 <= t_end ->
  admitted_threads c'.2 <= half_open_max_probes config - half_open_probes s.
Proof.
  intros Hen Hst Hp Hk Hend Hb Hcl Hlease Hsteps Ht.
  set (n0 := half_open_probes s) in *. set (c0 := probe_claimed_at_millis s) in *.
  assert (Hinit : conc_inv config baseline n0 c0 s (repeat AtCheck k)).
  { split; [done| |done| | |].
    - split; [|done]. eapply ms_range_le; [|exact Hend]. lia.
    - rewrite sumZ_const. cbn. fold n0. lia.
    - rewrite sumZ_const. cbn. lia.
    - apply Forall_forall. intros p Hin%list_elem_of_In%repeat_spec. by subst. }
  destruct (conc_run config baseline n0 c0 t_end Hen ltac:(lia) Hend Hlease s (repeat AtCheck k) c')
    as (ps' & E & Hinv & _); [by rewrite repeat_length|done| |done|].
  { by rewrite fmap_repeat_prog. }
  rewrite E. unfold admitted_threads. rewrite sumZ_fmap.
  pose proof (ci_owned _ _ _ _ _ _ Hinv).
  assert (sumZ (fun p => is_admitted (prog_of config baseline p)) ps' <= sumZ owns ps'); [|lia].
  apply sumZ_le. intros p. unfold is_admitted.
  destruct p; cbn; try lia.
  - unfold check_thread, check. rewrite Hen. cbn. lia.
  - unfold try_half_open_probe. cbn. lia.
Qed.

(** ** Races *)

(** [n] accesses of one thread without interference. *)
Fixpoint steps (n : nat) (t : thread) (s : CircuitBreakerInner) : option (CircuitBreakerInner * thread) :=
  match n with
  | O => Some (s, t)
  | S n' => '(s', t') ← thread_step t s; steps n' t' s'
  end.

Lemma run_steps i n : forall l t s ts s' t',
  ts !! i = Some t -> steps n t s = Some (s', t') ->
  run_schedule (repeat i n ++ l) (s, ts) = run_schedule l (s', <[i := t']> ts).
Proof.
  induction n as [|n IH]; intros l t s ts s' t' Hi Hs; cbn in Hs.
  - simplify_eq. cbn. by rewrite list_insert_id.
  - destruct (thread_step t s) as [[s1 t1]|] eqn:E; [|done]. cbn in Hs |- *.
    rewrite Hi. cbn. rewrite E. cbn. rewrite (IH l t1 s1 _ s' t'); [|by apply list_lookup_insert_eq, (lookup_lt_Some _ _ _ Hi)|done].
    by rewrite list_insert_insert_eq.
Qed.

Lemma steps_exec s A (c : act A) k n :
  steps (S n) (Do c k) s = let (s', x) := exec_act c s in steps n (k x) s'.
Proof. cbn. by destruct (exec_act c s). Qed.

Section races.
Context (config : BreakerConfig) (baseline : Z).
Hypothesis Hen : enabled config = true.

Definition ok_after_store (ms : Z) : thread :=
  Do (StoreClaimed ms) (fun _ => admit_prog).

(** A check of an open breaker past its cool-down, up to the claim. *)
Lemma steps_claim s :
  let ms := millis_of baseline (clock_now s) in
  state_ s = to_u8 Open -> half_open_probes s < half_open_max_probes config ->
  open_duration config <= from_millis (sat_sub ms (opened_at_millis s)) ->
  steps 8 (check_thread config baseline) s =
  Some (set_probes (wrap 64 (half_open_probes s + 1))
          (add_event (on_state_change Open HalfOpen "open_elapsed") (set_fast false (set_state (to_u8 HalfOpen) s))),
        ok_after_store ms).
Proof.
  intros ms Hst Hp Hopen. unfold check_thread, check. rewrite Hen.
  cbn [negb pbind state]. rewrite steps_exec. cbn [exec_act]. rewrite Hst. cbn [to_u8 from_u8 Z.eqb Pos.eqb pbind].
  unfold check_open, elapsed_millis. cbn [pbind]. rewrite steps_exec. cbn [exec_act pbind].
  rewrite steps_exec. cbn [exec_act pbind]. fold ms. rewrite (proj2 (Z.leb_le _ _)) by done.
  cbn [pbind]. rewrite steps_exec. cbn [exec_act]. rewrite Hst. cbn [to_u8 Z.eqb Pos.eqb pbind].
  rewrite steps_exec. cbn [exec_act pbind]. rewrite steps_exec. cbn [exec_act].
  unfold try_half_open_probe, elapsed_millis. cbn [pbind]. rewrite steps_exec. cbn [exec_act pbind].
  rewrite steps_exec. cbn [exec_act pbind half_open_probes add_event set_fast set_state].
  rewrite (proj2 (Z.ltb_lt _ _)) by done. reflexivity.
Qed.

Lemma steps_admit ms s :
  steps 2 (ok_after_store ms) s =
  Some (add_event (on_probe_admission true) (set_claimed ms s), Ret (TCheck (Ok tt))).
Proof. reflexivity. Qed.

(** A check of a half-open breaker without a free slot whose lease is over. *)
Lemma steps_lease s :
  let ms := millis_of baseline (clock_now s) in
  state_ s = to_u8 HalfOpen -> half_open_max_probes config <= half_open_probes s ->
  lease config <= sat_sub ms (probe_claimed_at_millis s) ->
  exists s', steps 7 (check_thread config baseline) s = Some (s', Ret (TCheck (Ok tt))) /\
             clock_now s' = clock_now s.
Proof.
  intros ms Hst Hp Hlease. unfold check_thread, check. rewrite Hen.
  cbn [negb pbind state]. rewrite steps_exec. cbn [exec_act]. rewrite Hst. cbn [to_u8 from_u8 Z.eqb Pos.eqb pbind].
  unfold try_half_open_probe, elapsed_millis. cbn [pbind]. rewrite steps_exec. cbn [exec_act pbind].
  rewrite steps_exec. cbn [exec_act pbind]. rewrite (proj2 (Z.ltb_ge _ _)) by done. cbn [pbind].
  rewrite steps_exec. cbn [exec_act pbind]. rewrite steps_exec.
  cbn [exec_act pbind probe_claimed_at_millis set_probes]. fold ms (lease config).
  rewrite (proj2 (Z.leb_le _ _)) by done. cbn [pbind]. rewrite steps_exec.
  cbn [exec_act pbind probe_claimed_at_millis set_probes]. rewrite Z.eqb_refl. cbn [pbind].
  rewrite steps_exec. cbn [exec_act pbind]. eexists. split; [reflexivity|done].
Qed.

(** The two halves of a [record] that trips: up to the store of the state,
    and the rest. *)
Definition trip_rest (o : Outcome) : thread :=
  pbind (call ms := elapsed_millis baseline in
         StoreOpened ms ;; StoreProbes 0 ;; StoreFast true ;;
         Notify (on_state_change Closed Open "trip") ;;
         call new_state := state in Notify (on_outcome o new_state) ;; Ret tt)%prog
        (fun _ => Ret TRecord).

Lemma steps_trip s :
  let w := with_window config true (clock_now s) (window s) in
  state_ s = to_u8 Closed -> should_trip config w = true ->
  steps 4 (record_thread config baseline Failure) s =
  Some (set_state (to_u8 Open) (set_window w s), trip_rest Failure).
Proof.
  intros w Hst Htrip. unfold record_thread, record. rewrite Hen. cbn [negb pbind].
  rewrite steps_exec. cbn [exec_act pbind state]. rewrite steps_exec. cbn [exec_act pbind].
  rewrite Hst. cbn [to_u8 from_u8 Z.eqb pbind].
  rewrite steps_exec. cbn [exec_act pbind]. fold w. rewrite Htrip. cbn [trip pbind].
  rewrite steps_exec. reflexivity.
Qed.

Lemma steps_trip_rest s :
  steps 7 (trip_rest Failure) s =
  Some (add_event (on_outcome Failure (from_u8 (state_ s)))
         (add_event (on_state_change Closed Open "trip")
           (set_fast true (set_probes 0 (set_opened (millis_of baseline (clock_now s)) s)))), Ret TRecord).
Proof. reflexivity. Qed.
End races.

(** The bound needs the stored claim: with a single slot, two checks
    that find the cool-down over at the same instant can both be admitted
    before either has recorded an outcome.  The first has taken the slot but
    not stored its time; the second finds no slot, reads the time of an older
    claim and takes over a lease that was never abandoned. *)
Theorem concurrent_checks_exceed_slots config baseline s :
  let ms := millis_of baseline (clock_now s) in
  enabled config = true -> half_open_max_probes config = 1 ->
  state_ s = to_u8 Open -> half_open_probes s = 0 ->
  open_duration config <= from_millis (sat_sub ms (opened_at_millis s)) ->
  lease config <= sat_sub ms (probe_claimed_at_millis s) ->
  exists c', rtc cstep (s, repeat (check_thread config baseline) 2) c' /\
             clock_now c'.1 = clock_now s /\ admitted_threads c'.2 = 2.
Proof.
  intros ms Hen Hmax Hst Hp Hopen Hlease.
  pose proof (steps_claim config baseline Hen s Hst ltac:(lia) Hopen) as H1.
  set (s1 := set_probes _ _) in H1.
  destruct (steps_lease config baseline Hen s1) as (s2 & H2 & Hc2); [done| |done|].
  { unfold s1. cbn. rewrite Hp, Hmax. done. }
  pose proof (steps_admit ms s2) as H3.
  eexists. split; [|split].
  - eapply (run_schedule_steps (repeat 0%nat 8 ++ repeat 1%nat 7 ++ repeat 0%nat 2 ++ [])).
    erewrite (run_steps 0 8); [|reflexivity|exact H1].
    erewrite (run_steps 1 7); [|reflexivity|exact H2].
    erewrite (run_steps 0 2); [|reflexivity|exact H3]. reflexivity.
  - cbn. by rewrite Hc2.
  - reflexivity.
Qed.

(** A stale cool-down: [trip] publishes [Open] before it stores the
    time, so a check that runs in between measures the cool-down from the
    previous opening and is admitted at the very instant of the trip; when both
    calls have returned, the state is half-open while [is_open] answers
    [true], and the admitted probe holds no slot. *)
Theorem trip_race_breaks_mirror config baseline s :
  let ms := millis_of baseline (clock_now s) in
  enabled config = true -> 1 <= half_open_max_probes config ->
  state_ s = to_u8 Closed -> half_open_probes s = 0 ->
  should_trip config (with_window config true (clock_now s) (window s)) = true ->
  open_duration config <= from_millis (sat_sub ms (opened_at_millis s)) ->
  exists c', rtc cstep (s, [record_thread config baseline Failure; check_thread config baseline]) c' /\
             c'.2 = [Ret TRecord; Ret (TCheck (Ok tt))] /\
             clock_now c'.1 = clock_now s /\ opened_at_millis c'.1 = ms /\
             from_u8 (state_ c'.1) = HalfOpen /\ (exec is_open c'.1).2 = true /\ half_open_probes c'.1 = 0.
Proof.
  intros ms Hen Hmax Hst Hp Htrip Hopen.
  pose proof (steps_trip config baseline Hen s Hst Htrip) as H1.
  set (s1 := set_state _ _) in H1.
  pose proof (steps_claim config baseline Hen s1 eq_refl ltac:(cbn; lia) Hopen) as H2.
  set (s2 := set_probes _ _) in H2.
  pose proof (steps_admit ms s2) as H3. set (s3 := add_event _ _) in H3.
  pose proof (steps_trip_rest baseline s3) as H4.
  eexists. split.
  - eapply (run_schedule_steps (repeat 0%nat 4 ++ repeat 1%nat 8 ++ repeat 1%nat 2 ++ repeat 0%nat 7 ++ [])).
    erewrite (run_steps 0 4); [|reflexivity|exact H1].
    erewrite (run_steps 1 8); [|reflexivity|exact H2].
    erewrite (run_steps 1 2); [|reflexivity|exact H3].
    erewrite (run_steps 0 7); [|reflexivity|exact H4]. reflexivity.
  - cbn. done.
Qed.

(** ** Evaluation *)
Definition claimed_at_11s : CircuitBreakerInner := mkInner 2 0 1 11000 false window_new (secs 12) [].

(** Three checks at the twelfth second, two of them interleaved. *)
Definition three_checks : option conf :=
  run_schedule [0; 1; 0; 1; 0; 0; 1; 0; 1; 1; 0]%nat (claimed_at_11s, repeat (check_thread server 0) 3).

Lemma concurrent_probe_bound_witness :
  exists c', three_checks = Some c' /\ admitted_threads c'.2 <= 1 - 1.
Proof.
  assert (Hclk : (fun c => clock_now c.1) <$> three_checks = Some (secs 12)) by (vm_compute; reflexivity).
  destruct three_checks as [c'|] eqn:E; [|discriminate]. exists c'. split; [reflexivity|].
  apply (concurrent_probe_bound server 0 claimed_at_11s 3 (secs 20) c').
  - reflexivity.
  - reflexivity.
  - vm_compute. split; congruence.
  - vm_compute. reflexivity.
  - split; vm_compute; congruence.
  - vm_compute. split; congruence.
  - vm_compute. congruence.
  - vm_compute. reflexivity.
  - exact (run_schedule_steps _ _ _ E).
  - injection Hclk as ->. vm_compute. congruence.
Defined.

Lemma concurrent_checks_exceed_slots_witness :
  exists c', rtc cstep (mkInner 1 500 0 0 true window_new (secs 12) [], repeat (check_thread server 0) 2) c' /\
             clock_now c'.1 = secs 12 /\ admitted_threads c'.2 = 2.
Proof.
  apply (concurrent_checks_exceed_slots server 0 (mkInner 1 500 0 0 true window_new (secs 12) []));
    vm_compute; congruence.
Defined.

(** Nine failures within the window, the tenth being recorded. *)
Definition about_to_trip : CircuitBreakerInner :=
  mkInner 0 0 0 0 false (mkWindow (repeat (secs 11, true) 9) 9) (secs 12) [].

Lemma trip_race_breaks_mirror_witness :
  exists c', rtc cstep (about_to_trip, [record_thread server 0 Failure; check_thread server 0]) c' /\
             c'.2 = [Ret TRecord; Ret (TCheck (Ok tt))] /\
             clock_now c'.1 = secs 12 /\ opened_at_millis c'.1 = 12000 /\
             from_u8 (state_ c'.1) = HalfOpen /\ (exec is_open c'.1).2 = true /\ half_open_probes c'.1 = 0.
Proof. apply (trip_race_breaks_mirror server 0 about_to_trip); vm_compute; congruence. Defined.
