(* ===== verification/RetryPolicy.v ===== *)
(** * Response classification and breaker registry
    (ccode-circuit-breaker/src/retry_policy.rs, registry.rs)

    [RetryPolicy] maps a status code to what the caller should do.  The
    registry hands out one shared breaker per key: breakers live in a store
    and the registry maps keys to their index, so that two handles of a key
    are the same breaker. *)

From S2P Require Import Prelude F64 Window Breaker.
Local Open Scope Z_scope.

Inductive Disposition := Retryable | AuthRefresh | Terminal.

#[export] Instance Disposition_eq_dec : EqDecision Disposition.
Proof. solve_decision. Defined.

Record RetryPolicy := mkRetryPolicy {
  retryable : list Z;
  auth_refresh : list Z;
  terminal : list Z;
  default_disposition : Disposition
}.

Definition in_range (lo hi x : Z) : bool := (lo <=? x) && (x <? hi).

Definition classify (p : RetryPolicy) (status : Z) : option Disposition :=
  if in_range 200 300 status then None
  else if bool_decide (status ∈ auth_refresh p) then Some AuthRefresh
  else if bool_decide (status ∈ terminal p) then Some Terminal
  else if bool_decide (status ∈ retryable p) || in_range 500 600 status then Some Retryable
  else Some (default_disposition p).

Definition should_retry (p : RetryPolicy) (status : Z) : bool :=
  bool_decide (classify p status = Some Retryable).

Definition policy_server : RetryPolicy := mkRetryPolicy [429] [] [] Terminal.
Definition client_storage : RetryPolicy := mkRetryPolicy [] [401] [400; 403; 404] Retryable.

(** The server preset retries 429 and every 5xx, and nothing else. *)
Lemma server_should_retry status :
  should_retry policy_server status = true <-> status = 429 \/ 500 <= status < 600.
Proof.
  unfold should_retry, classify, in_range. cbn [auth_refresh terminal retryable policy_server default_disposition].
  rewrite !(bool_decide_eq_false_2 (status ∈ [])) by set_solver.
  rewrite bool_decide_eq_true.
  destruct ((200 <=? status) && (status <? 300)) eqn:E1;
    [apply andb_true_iff in E1 as [??]; zbool; split; [done|lia]|].
  destruct (bool_decide (status ∈ [429])) eqn:E2; zbool; cbn [orb].
  - apply list_elem_of_singleton in E2. split; auto.
  - destruct ((500 <=? status) && (status <? 600)) eqn:E3.
    + apply andb_true_iff in E3 as [??]. zbool. split; [lia|done].
    + apply andb_false_iff in E3. split; [done|]. intros [->|?]; [set_solver|].
      destruct E3; zbool; lia.
Qed.

(** ** Registry *)
Record CircuitBreakerRegistry := mkBreakerRegistry {
  reg_config : BreakerConfig;
  breakers : gmap string nat
}.

Definition breaker_registry_new (c : BreakerConfig) : CircuitBreakerRegistry := mkBreakerRegistry c ∅.

(** [heap] is the store of all breakers; a handle is an index of it. *)
Definition registry_get (r : CircuitBreakerRegistry) (heap : list CircuitBreakerInner) (now : Z) (key : string)
  : CircuitBreakerRegistry * list CircuitBreakerInner * option nat :=
  if negb (enabled (reg_config r)) then (r, heap, None)
  else match breakers r !! key with
  | Some cb => (r, heap, Some cb)
  | None =>
      let cb := length heap in
      (mkBreakerRegistry (reg_config r) (<[key := cb]> (breakers r)), heap ++ [with_clock now], Some cb)
  end.

Definition registry_wf (r : CircuitBreakerRegistry) (heap : list CircuitBreakerInner) : Prop :=
  (forall k i, breakers r !! k = Some i -> (i < length heap)%nat) /\
  (forall k1 k2 i, breakers r !! k1 = Some i -> breakers r !! k2 = Some i -> k1 = k2).

(** An enabled registry always returns a breaker; asking again for the same
    key returns the same one, and no two keys share one. *)
Lemma registry_get_spec r heap now key :
  registry_wf r heap -> enabled (reg_config r) = true ->
  let '(r', heap', h) := registry_get r heap now key in
  registry_wf r' heap' /\ h = breakers r' !! key /\ is_Some h /\
  (forall k i, breakers r !! k = Some i -> breakers r' !! k = Some i) /\
  forall now', registry_get r' heap' now' key = (r', heap', h).
Proof.
  intros [H1 H2] Hen. unfold registry_get. rewrite Hen. cbn [negb].
  destruct (breakers r !! key) as [i|] eqn:E; cbn.
  - split; [done|]. split; [by rewrite E|]. split; [by eexists|]. split; [done|].
    intros now'. by rewrite Hen, E.
  - split; [split|].
    + intros k i. cbn. rewrite length_app. cbn. intros [[<- <-]|[_ Hk%H1]]%lookup_insert_Some; lia.
    + intros k1 k2 i. cbn. intros [[<- <-]|[Hn1 Hk1]]%lookup_insert_Some [[<- E2]|[Hn2 Hk2]]%lookup_insert_Some;
        [done|apply H1 in Hk2; lia|subst; apply H1 in Hk1; lia|by eapply H2].
    + rewrite lookup_insert_eq. split; [done|]. split; [by eexists|]. split.
      * intros k i Hk. rewrite lookup_insert_ne; [done|]. by intros ->; rewrite E in Hk.
      * intros now'. by rewrite Hen.
Qed.
