(* ===== verification/DoomLoop.v ===== *)
(** * Doom loop detection (agent/doom_loop.rs)

    A bounded history of tool call signatures; [detect] looks for a signature
    that fills the threshold and escalates.  Ties between equally frequent
    signatures are broken by the hash map's order, so what is proved holds for
    every order. *)

From stdpp Require Import pretty.
From S2P Require Import Prelude RustStr F64 Window.

Record ToolCallSignature := mkSignature { tool_name : string; args_hash : Z }.

#[export] Instance ToolCallSignature_eq_dec : EqDecision ToolCallSignature.
Proof. solve_decision. Defined.
#[export] Instance ToolCallSignature_countable : Countable ToolCallSignature.
Proof.
  refine (inj_countable' (fun s => (tool_name s, args_hash s)) (fun p => mkSignature p.1 p.2) _).
  by intros [].
Defined.

Inductive EscapeAction :=
| InjectHint (hint : string)
| DisableTool (tool : string)
| DegradeModel.

#[export] Instance EscapeAction_eq_dec : EqDecision EscapeAction.
Proof. solve_decision. Defined.

Record DoomLoopDetector := mkDetector {
  history : list ToolCallSignature;
  window_size : nat;
  repeat_threshold : nat;
  model_degrade_level : Z
}.

Record DoomLoopResult := mkDoomLoopResult {
  detected : bool;
  repeated_tool : option string;
  repeat_count : nat;
  escape_actions : list EscapeAction
}.

Definition detector_new (window threshold : nat) : DoomLoopDetector := mkDetector [] window threshold 0.

Definition set_repeat_threshold (d : DoomLoopDetector) (threshold : nat) : DoomLoopDetector :=
  mkDetector (history d) (window_size d) threshold (model_degrade_level d).

Definition record (d : DoomLoopDetector) (tool : string) (hash : Z) : DoomLoopDetector :=
  let h := history d ++ [mkSignature tool hash] in
  mkDetector (if Nat.ltb (window_size d) (length h) then drop 1 h else h)
    (window_size d) (repeat_threshold d) (model_degrade_level d).

(** [*counts.entry(sig).or_insert(0) += 1] over the history. *)
Definition count_signatures (h : list ToolCallSignature) : gmap ToolCallSignature nat :=
  foldl (fun counts sig => <[sig := S (default 0 (counts !! sig))]> counts) ∅ h.

(** [iter().max_by_key(|(_, c)| *c)]: the last of the maxima. *)
Definition max_by_count (l : list (ToolCallSignature * nat)) : option (ToolCallSignature * nat) :=
  foldl (fun best e =>
           match best with
           | None => Some e
           | Some b => if Nat.leb (b.2) (e.2) then Some e else best
           end) None l.

Definition loop_hint (tool : string) (count : nat) : string :=
  "检测到 Doom Loop：工具 " +:+ tool +:+ " 重复调用 " +:+ pretty (N.of_nat count) +:+
  " 次。请换一种方法，避免重复相同的操作。".

Definition not_detected : DoomLoopResult := mkDoomLoopResult false None 0 [].

Definition detect `{!HashIter ToolCallSignature} (d : DoomLoopDetector)
  : DoomLoopDetector * DoomLoopResult :=
  if Nat.ltb (length (history d)) (repeat_threshold d) then (d, not_detected)
  else
    match max_by_count (hiter (count_signatures (history d))) with
    | Some (sig, count) =>
        if Nat.leb (repeat_threshold d) count then
          let level := if (model_degrade_level d <? 3)%Z then (model_degrade_level d + 1)%Z
                       else model_degrade_level d in
          (mkDetector (history d) (window_size d) (repeat_threshold d) level,
           mkDoomLoopResult true (Some (tool_name sig)) count
             ([InjectHint (loop_hint (tool_name sig) count); DisableTool (tool_name sig)] ++
              if (level <? 3)%Z then [DegradeModel] else []))
        else (d, not_detected)
    | None => (d, not_detected)
    end.

Definition current_reasoning_effort (d : DoomLoopDetector) : option f64 :=
  if (model_degrade_level d =? 0)%Z then None
  else if (model_degrade_level d =? 1)%Z then Some (f64_lit 1 2)
  else Some (f64_lit 2 10).

Definition reset (d : DoomLoopDetector) : DoomLoopDetector :=
  mkDetector [] (window_size d) (repeat_threshold d) (model_degrade_level d).

Definition reset_degrade_level (d : DoomLoopDetector) : DoomLoopDetector :=
  mkDetector (history d) (window_size d) (repeat_threshold d) 0.

(** ** Counting *)
Definition occurrences (sig : ToolCallSignature) (h : list ToolCallSignature) : nat :=
  length (filter (fun x => x = sig) h).

Lemma occurrences_app sig h k : occurrences sig (h ++ k) = occurrences sig h + occurrences sig k.
Proof. unfold occurrences. by rewrite filter_app, length_app. Qed.

Lemma occurrences_singleton sig x : occurrences sig [x] = if decide (x = sig) then 1 else 0.
Proof. unfold occurrences. rewrite filter_cons. by destruct (decide (x = sig)). Qed.

Lemma count_signatures_lookup h sig :
  count_signatures h !! sig = if decide (occurrences sig h = 0) then None else Some (occurrences sig h).
Proof.
  unfold count_signatures. induction h as [|x h IH] using rev_ind; [done|].
  rewrite foldl_app, occurrences_app, occurrences_singleton. cbn [foldl].
  destruct (decide (x = sig)) as [->|Hne].
  - rewrite lookup_insert_eq, IH, (decide_False (P := _ + 1 = 0)) by lia. f_equal.
    destruct (decide (occurrences sig h = 0)) as [->|]; cbn; lia.
  - rewrite lookup_insert_ne, IH by done. by rewrite Nat.add_0_r.
Qed.

Lemma max_by_count_spec l :
  match max_by_count l with
  | None => l = []
  | Some e => e ∈ l /\ forall x, x ∈ l -> x.2 <= e.2
  end.
Proof.
  unfold max_by_count. induction l as [|x l IH] using rev_ind; [done|].
  rewrite foldl_app. cbn [foldl]. destruct (foldl _ None l) as [b|].
  - destruct IH as [Hin Hmax]. destruct (Nat.leb b.2 x.2) eqn:E; zbool.
    + split; [set_solver|]. intros y [Hy%Hmax| ->%list_elem_of_singleton]%elem_of_app; lia.
    + split; [set_solver|]. intros y [Hy%Hmax| ->%list_elem_of_singleton]%elem_of_app; lia.
  - subst. split; [set_solver|]. intros y Hy. rewrite app_nil_l in Hy.
    apply list_elem_of_singleton in Hy as ->. lia.
Qed.

Lemma occurrences_le sig h : occurrences sig h <= length h.
Proof. apply length_filter. Qed.

(** [detect] reports a loop exactly when some signature occurs at least
    [repeat_threshold] times in the history (for a threshold of at least one);
    the tool reported is one with the largest number of occurrences, which is
    the count reported; each detection raises the degradation level by one up
    to 3 and asks for a degraded model only below 3; without a detection
    nothing changes. *)
Theorem detect_exact `{!HashIter ToolCallSignature} d :
  1 <= repeat_threshold d ->
  let d' := (detect d).1 in
  let r := (detect d).2 in
  (detected r = true <-> exists sig, repeat_threshold d <= occurrences sig (history d)) /\
  (detected r = true ->
     (exists sig, repeated_tool r = Some (tool_name sig) /\ repeat_count r = occurrences sig (history d) /\
        forall sig', occurrences sig' (history d) <= occurrences sig (history d)) /\
     model_degrade_level d' = Z.max (model_degrade_level d) (Z.min 3 (model_degrade_level d + 1)%Z) /\
     (DegradeModel ∈ escape_actions r <-> (model_degrade_level d' < 3)%Z)) /\
  (detected r = false -> d' = d /\ r = not_detected) /\
  history d' = history d.
Proof.
  intros Hth.
  assert (Hmiss : (forall sig, occurrences sig (history d) < repeat_threshold d) ->
    (detected not_detected = true <-> exists sig, repeat_threshold d <= occurrences sig (history d))).
  { intros Hlt. split; [done|]. intros [sig Hs]. specialize (Hlt sig). lia. }
  unfold detect. destruct (Nat.ltb _ _) eqn:E1; zbool.
  { cbn [fst snd]. split; [|done]. apply Hmiss. intros sig. pose proof (occurrences_le sig (history d)). lia. }
  pose proof (max_by_count_spec (hiter (count_signatures (history d)))) as Hm.
  assert (Hocc : forall sig c, (sig, c) ∈ hiter (count_signatures (history d)) ->
                               c = occurrences sig (history d)).
  { intros sig c Hin%elem_of_hiter. rewrite count_signatures_lookup in Hin.
    destruct (decide _); by simplify_eq. }
  destruct (max_by_count _) as [[sig count]|].
  - destruct Hm as [Hin Hmax]. pose proof (Hocc _ _ Hin) as ->.
    assert (Hall : forall sig', occurrences sig' (history d) <= occurrences sig (history d)).
    { intros sig'. destruct (decide (occurrences sig' (history d) = 0)) as [->|Hne]; [lia|].
      apply (Hmax (sig', occurrences sig' (history d))). apply elem_of_hiter.
      rewrite count_signatures_lookup. by rewrite decide_False. }
    destruct (Nat.leb _ _) eqn:E2; zbool; cbn [fst snd].
    + cbn [detected repeated_tool repeat_count escape_actions model_degrade_level history].
      split; [split; [intros _; by exists sig|done]|]. split; [|done]. intros _.
      split; [by exists sig|]. destruct (model_degrade_level d <? 3)%Z eqn:E3; zbool.
      * split; [lia|]. destruct (_ <? 3)%Z eqn:E4; zbool; set_solver by lia.
      * split; [lia|]. destruct (_ <? 3)%Z eqn:E4; zbool; [lia|]. set_solver by lia.
    + split; [|done]. apply Hmiss. intros sig'. specialize (Hall sig'). lia.
  - cbn [fst snd]. split; [|done]. apply Hmiss. intros sig.
    destruct (decide (occurrences sig (history d) = 0)) as [->|Hne]; [lia|]. exfalso.
    apply (not_elem_of_nil (sig, occurrences sig (history d))). rewrite <- Hm. apply elem_of_hiter.
    rewrite count_signatures_lookup. by rewrite decide_False.
Qed.

(** The history is the last [window_size] calls since the reset. *)
Lemma record_history calls : forall d,
  history d = [] ->
  history (foldl (fun d c => record d (tool_name c) (args_hash c)) d calls) = lastn (window_size d) calls /\
  window_size (foldl (fun d c => record d (tool_name c) (args_hash c)) d calls) = window_size d.
Proof.
  intros d Hd. induction calls as [|c calls [IH1 IH2]] using rev_ind.
  - cbn. unfold lastn. by rewrite Hd, drop_nil.
  - rewrite foldl_app. cbn [foldl]. unfold record at 1 3. cbn [history window_size].
    rewrite IH1, IH2. split; [|done]. destruct c as [t h]. cbn [tool_name args_hash].
    rewrite length_app, length_lastn. cbn [length].
    destruct (window_size d) as [|n].
    + rewrite Nat.min_0_r. unfold lastn. by rewrite !Nat.sub_0_r, !drop_all.
    + rewrite lastn_snoc, drop_lastn.
      destruct (Nat.ltb_spec (S n) (length calls `min` S n + 1)).
      * rewrite (proj2 (Nat.leb_le _ _)) by lia.
        rewrite drop_app_le; [done|]. rewrite length_lastn. lia.
      * by rewrite (proj2 (Nat.leb_gt _ _)) by lia.
Qed.

Definition grep_call : ToolCallSignature := mkSignature "grep" 7.

Lemma detect_exact_witness :
  let d := foldl (fun d c => record d (tool_name c) (args_hash c)) (detector_new 4 3)
             [grep_call; mkSignature "read" 1; grep_call; grep_call] in
  detected (@detect (gmap_iter _) d).2 = true /\
  repeated_tool (@detect (gmap_iter _) d).2 = Some "grep" /\
  history (@detect (gmap_iter _) d).1 = history d.
Proof.
  split; [vm_compute; reflexivity|]. split; [vm_compute; reflexivity|].
  refine (proj2 (proj2 (proj2 (@detect_exact (gmap_iter _) (foldl (fun d c => record d (tool_name c) (args_hash c)) (detector_new 4 3)
             [grep_call; mkSignature "read" 1; grep_call; grep_call]) _)))). vm_compute. lia.
Defined.
