(* ===== verification/Json.v ===== *)
(** * JSON values ([serde_json::Value])

    The value type and the accessors the sources use on message payloads.  An
    object is an association list with distinct keys. *)

From S2P Require Import Prelude F64.

Inductive number := PosInt (n : Z) | NegInt (n : Z) | Float (x : f64).

#[local] Set Warnings "-register-all".

Inductive Value :=
| Null
| Bool (b : bool)
| Number (n : number)
| Str (s : string)
| Array (l : list Value)
| Object (m : list (string * Value)).

Fixpoint assoc {A} (k : string) (m : list (string * A)) : option A :=
  match m with
  | [] => None
  | (k', v) :: m' => if decide (k = k') then Some v else assoc k m'
  end.

(** [v.get(k)] and [v[k]]: the latter is [Null] when there is no such entry. *)
Definition vget (v : Value) (k : string) : option Value :=
  match v with Object m => assoc k m | _ => None end.
Definition vindex (v : Value) (k : string) : Value := default Null (vget v k).

Definition as_str_opt (v : Value) : option string :=
  match v with Str s => Some s | _ => None end.
Definition as_u64 (v : Value) : option Z :=
  match v with Number (PosInt n) => Some n | _ => None end.
Definition as_bool (v : Value) : option bool :=
  match v with Bool b => Some b | _ => None end.
Definition as_array (v : Value) : option (list Value) :=
  match v with Array l => Some l | _ => None end.

(** [v.as_array().map(|a| a.iter().filter_map(as_str).collect()).unwrap_or_default()]. *)
Definition string_list (v : Value) : list string :=
  match as_array v with
  | Some l => omap as_str_opt l
  | None => []
  end.
