(* ===== verification/LoopState.v ===== *)
(** * The agent's loop state machine (agent/loop_state.rs)

    [transition] with one case per event; instants are nanoseconds and
    [Instant::now()] is an argument.  The derived [Debug] text of a reason,
    which only ends up in a report, is a parameter. *)

From S2P Require Import Prelude RustStr F64 Json DoomLoop.
Local Open Scope Z_scope.

Inductive AgentState :=
  Idle | Thinking | ToolCalling | AwaitingApproval | Outputting | Done | Error.

Inductive DoneReason :=
| ModelEndTurn
| RUserCancelled
| RBudgetExhausted
| RToolBudgetExhausted
| RLoopDetected (tool_name : string) (repeat_count : Z)
| RConsecutiveFailures (count : Z)
| RPermissionDenied (tool_name : string)
| RModelRefusal
| RMaxTurnsReached.

#[export] Instance AgentState_eq_dec : EqDecision AgentState.
Proof. solve_decision. Defined.
#[export] Instance DoneReason_eq_dec : EqDecision DoneReason.
Proof. solve_decision. Defined.

Inductive BudgetKind := Token | ToolCall.
Inductive ToolExecutionOutcome := Success | Failure (msg : string).

Inductive LoopEvent :=
| LLMResponse (stop_reason : string) (token_used : Z) (tool_calls : list (string * string * Value))
| ToolExecutionCompleted (tool_use_id tool_name : string) (result : ToolExecutionOutcome)
| PermissionDecision (tool_name tool_use_id : string) (allowed : bool)
| UserCancelled
| BudgetExhausted (kind : BudgetKind)
| LoopDetected (tool_name : string) (repeat_count : Z)
| ConsecutiveFailures (count : Z)
| MaxTurnsReached.

Inductive LoopAction :=
| CallLLM
| ExecuteTool (tool_name tool_use_id : string)
| WaitForPermission (tool_name tool_use_id : string)
| EndTurn (reason : DoneReason)
| ContinueLoop.

Definition from_doom_loop (r : DoomLoopResult) : option LoopEvent :=
  if detected r then Some (LoopDetected (default "" (repeated_tool r)) (Z.of_nat (repeat_count r)))
  else None.

Record TrajectoryStep := mkStep { step_type : string; content : string }.
Record TaskTrajectory := mkTrajectory {
  task : string;
  steps : list TrajectoryStep;
  success : bool;
  failure_reason : option string
}.

Record LoopStateMachine := mkLoop {
  state : AgentState;
  done_reason : option DoneReason;
  turn_count : Z;
  tokens_used : Z;
  consecutive_failures : Z;
  created_at : Z;
  collected_steps : list TrajectoryStep;
  task_description : option string
}.

(** The goal-level part of a snapshot is filled in by the caller. *)
Record LoopStateSnapshot := mkLoopSnapshot {
  ss_state : AgentState;
  ss_turn_count : Z;
  ss_tokens_used : Z;
  ss_consecutive_failures : Z;
  ss_elapsed_secs : Z;
  ss_done_reason : option DoneReason
}.

Definition loop_new (now : Z) : LoopStateMachine := mkLoop Idle None 0 0 0 now [] None.

Definition to_snapshot (m : LoopStateMachine) (now : Z) : LoopStateSnapshot :=
  mkLoopSnapshot (state m) (turn_count m) (tokens_used m) (wrap 32 (consecutive_failures m))
    (sat_sub now (created_at m) / 1000000000) (done_reason m).

Definition restore_from_snapshot (m : LoopStateMachine) (now : Z) (s : LoopStateSnapshot) : LoopStateMachine :=
  mkLoop (ss_state s) (ss_done_reason s) (ss_turn_count s) (ss_tokens_used s)
    (ss_consecutive_failures s) now (collected_steps m) (task_description m).

Definition set_task_description (m : LoopStateMachine) (desc : string) : LoopStateMachine :=
  mkLoop (state m) (done_reason m) (turn_count m) (tokens_used m) (consecutive_failures m)
    (created_at m) (collected_steps m) (Some desc).

Definition record_step (m : LoopStateMachine) (ty text : string) : LoopStateMachine :=
  mkLoop (state m) (done_reason m) (turn_count m) (tokens_used m) (consecutive_failures m)
    (created_at m) (collected_steps m ++ [mkStep ty text]) (task_description m).

Definition extract_trajectory (debug : DoneReason -> string) (m : LoopStateMachine) : TaskTrajectory :=
  let ok := bool_decide (done_reason m = Some ModelEndTurn) in
  mkTrajectory (default "" (task_description m)) (collected_steps m) ok
    (if ok then None else debug <$> done_reason m).

Definition AUTO_COMPACT_THRESHOLD_RATIO : f64 := f64_lit 8 10.

Definition should_auto_compact (total_tokens context_window : Z) : bool :=
  if context_window =? 0 then false
  else fge (fdiv (f64_of_Z total_tokens) (f64_of_Z context_window)) AUTO_COMPACT_THRESHOLD_RATIO.

(** [self.state = s; self.done_reason = r]. *)
Definition set_state (s : AgentState) (r : option DoneReason) (m : LoopStateMachine) : LoopStateMachine :=
  mkLoop s r (turn_count m) (tokens_used m) (consecutive_failures m) (created_at m)
    (collected_steps m) (task_description m).

Definition goto (s : AgentState) (m : LoopStateMachine) : LoopStateMachine :=
  set_state s (done_reason m) m.

Definition finish (s : AgentState) (r : DoneReason) (m : LoopStateMachine)
  : LoopStateMachine * LoopAction :=
  (set_state s (Some r) m, EndTurn r).

Definition count_response (used : Z) (m : LoopStateMachine) : LoopStateMachine :=
  mkLoop (state m) (done_reason m) (u32_add (turn_count m) 1) (u64_add (tokens_used m) used)
    (consecutive_failures m) (created_at m) (collected_steps m) (task_description m).

Definition count_tool (r : ToolExecutionOutcome) (m : LoopStateMachine) : LoopStateMachine :=
  mkLoop (state m) (done_reason m) (turn_count m) (tokens_used m)
    (match r with Success => 0 | Failure _ => u64_add (consecutive_failures m) 1 end)
    (created_at m) (collected_steps m) (task_description m).

Definition transition (m : LoopStateMachine) (event : LoopEvent) : LoopStateMachine * LoopAction :=
  match event with
  | LLMResponse stop_reason token_used tool_calls =>
      let m := count_response token_used m in
      if bool_decide (stop_reason = "end_turn") || bool_decide (stop_reason = "stop") then
        finish Done ModelEndTurn m
      else if bool_decide (stop_reason = "tool_use") then
        match tool_calls with
        | (id, name, _) :: _ => (goto AwaitingApproval m, WaitForPermission name id)
        | [] => finish Done ModelEndTurn m
        end
      else if bool_decide (stop_reason = "max_tokens") then
        match tool_calls with
        | (id, name, _) :: _ => (goto AwaitingApproval m, WaitForPermission name id)
        | [] => (goto Thinking m, CallLLM)
        end
      else (goto Thinking m, CallLLM)
  | ToolExecutionCompleted _ _ result => (goto Thinking (count_tool result m), CallLLM)
  | PermissionDecision tool_name tool_use_id allowed =>
      if allowed then (goto ToolCalling m, ExecuteTool tool_name tool_use_id)
      else finish Done (RPermissionDenied tool_name) m
  | UserCancelled => finish Done RUserCancelled m
  | BudgetExhausted kind =>
      finish Done (match kind with Token => RBudgetExhausted | ToolCall => RToolBudgetExhausted end) m
  | LoopDetected tool_name repeat_count => finish Done (RLoopDetected tool_name repeat_count) m
  | ConsecutiveFailures count => finish Error (RConsecutiveFailures count) m
  | MaxTurnsReached => finish Done RMaxTurnsReached m
  end.

Definition reset (m : LoopStateMachine) (now : Z) : LoopStateMachine := loop_new now.

(** ** Traces *)
Definition loop_run (now : Z) (evs : list LoopEvent) : LoopStateMachine :=
  foldl (fun m e => (transition m e).1) (loop_new now) evs.

Definition responses (evs : list LoopEvent) : list Z :=
  omap (fun e => match e with LLMResponse _ u _ => Some u | _ => None end) evs.

(** The tool outcomes, [true] for a failure. *)
Definition tool_failures (evs : list LoopEvent) : list bool :=
  omap (fun e => match e with
                 | ToolExecutionCompleted _ _ Success => Some false
                 | ToolExecutionCompleted _ _ (Failure _) => Some true
                 | _ => None
                 end) evs.

(** The length of the run of failures at the end. *)
Fixpoint trailing (l : list bool) : Z :=
  match l with
  | [] => 0
  | b :: l' => if b && forallb id l' then 1 + trailing l' else trailing l'
  end.

Definition terminal (s : AgentState) : bool :=
  match s with Done | Error => true | _ => false end.

Definition total (l : list Z) : Z := foldr Z.add 0 l.

(** Which events end the turn, and why. *)
Definition end_reason (e : LoopEvent) : option DoneReason :=
  match e with
  | LLMResponse sr _ calls =>
      if bool_decide (sr ∈ ["end_turn"; "stop"]) ||
         (bool_decide (sr = "tool_use") && match calls with [] => true | _ => false end)
      then Some ModelEndTurn else None
  | ToolExecutionCompleted _ _ _ => None
  | PermissionDecision t _ allowed => if allowed then None else Some (RPermissionDenied t)
  | UserCancelled => Some RUserCancelled
  | BudgetExhausted Token => Some RBudgetExhausted
  | BudgetExhausted ToolCall => Some RToolBudgetExhausted
  | LoopDetected t n => Some (RLoopDetected t n)
  | ConsecutiveFailures n => Some (RConsecutiveFailures n)
  | MaxTurnsReached => Some RMaxTurnsReached
  end.

Lemma transition_spec m e :
  let '(m', a) := transition m e in
  turn_count m' = (match e with LLMResponse _ _ _ => u32_add (turn_count m) 1 | _ => turn_count m end) /\
  tokens_used m' = (match e with LLMResponse _ u _ => u64_add (tokens_used m) u | _ => tokens_used m end) /\
  consecutive_failures m' =
    (match e with
     | ToolExecutionCompleted _ _ Success => 0
     | ToolExecutionCompleted _ _ (Failure _) => u64_add (consecutive_failures m) 1
     | _ => consecutive_failures m
     end) /\
  (match end_reason e with
   | Some r => a = EndTurn r /\ terminal (state m') = true /\ done_reason m' = Some r
   | None => (forall r, a <> EndTurn r) /\ terminal (state m') = false /\ done_reason m' = done_reason m
   end).
Proof.
  destruct e as [sr u calls|i n r|t i ok| |k|t n|n|]; cbn; try done.
  - assert (Hin : bool_decide (sr ∈ ["end_turn"; "stop"]) =
                  bool_decide (sr = "end_turn") || bool_decide (sr = "stop")).
    { apply Bool.eq_iff_eq_true. rewrite orb_true_iff, !bool_decide_eq_true. set_solver. }
    rewrite Hin. destruct (bool_decide (sr = "end_turn") || bool_decide (sr = "stop")); [done|]. cbn [orb].
    destruct (bool_decide (sr = "tool_use")); [by destruct calls as [|[[??]?]?]|].
    destruct (bool_decide (sr = "max_tokens")); [|done]. by destruct calls as [|[[??]?]?].
  - by destruct ok.
  - by destruct k.
Qed.

Lemma forallb_snoc l b : forallb id (l ++ [b]) = forallb id l && b.
Proof. rewrite forallb_app. cbn. by destruct (forallb id l), b. Qed.

Lemma trailing_snoc l b : trailing (l ++ [b]) = if b then 1 + trailing l else 0.
Proof.
  induction l as [|x l IH]; cbn; [by destruct b|]. rewrite forallb_snoc, IH.
  destruct b; [|by rewrite andb_false_r, andb_false_r].
  rewrite andb_true_r. destruct (x && forallb id l); lia.
Qed.

Lemma trailing_nonneg l : 0 <= trailing l.
Proof. induction l as [|x l IH]; cbn; [lia|]. destruct (x && _); lia. Qed.

Lemma wrap_add_l w x y : 0 <= w -> wrap w (wrap w x + y) = wrap w (x + y).
Proof. intros Hw. unfold wrap. by rewrite Zplus_mod_idemp_l. Qed.

Lemma total_snoc l x : total (l ++ [x]) = total l + x.
Proof. unfold total. induction l as [|y l IH]; cbn; lia. Qed.

Lemma last_omap_snoc {A B} (f : A -> option B) l x :
  last (omap f (l ++ [x])) = match f x with Some y => Some y | None => last (omap f l) end.
Proof.
  rewrite omap_app. cbn. destruct (f x); [by rewrite last_snoc|by rewrite app_nil_r].
Qed.

(** After any sequence of events the counters are exact (modulo their
    widths): turns are the model responses, tokens their sum, and
    [consecutive_failures] the tool failures since the last tool success; the
    state is [Done] or [Error] exactly when the last event ends the turn; and
    [done_reason] is the reason of the latest event that ended one. *)
Theorem loop_trace_exact now evs :
  let m := loop_run now evs in
  turn_count m = wrap 32 (Z.of_nat (length (responses evs))) /\
  tokens_used m = wrap 64 (total (responses evs)) /\
  consecutive_failures m = wrap 64 (trailing (tool_failures evs)) /\
  terminal (state m) = (match last evs with Some e => bool_decide (is_Some (end_reason e)) | None => false end) /\
  done_reason m = last (omap end_reason evs).
Proof.
  cbn zeta. induction evs as [|e evs IH] using rev_ind; [done|].
  unfold loop_run in *. rewrite foldl_app. cbn [foldl].
  set (m := foldl _ _ evs) in *. clearbody m. destruct IH as (H1 & H2 & H3 & H4 & H5).
  pose proof (transition_spec m e) as Ht. destruct (transition m e) as [m' a]. cbn [fst].
  destruct Ht as (-> & -> & -> & Hend). rewrite last_snoc, last_omap_snoc.
  unfold responses, tool_failures. rewrite !omap_app. cbn [omap list_omap].
  fold (responses evs) (tool_failures evs). rewrite H1, H2, H3.
  unfold u32_add, u64_add.
  split; [|split; [|split]].
  - destruct e; rewrite ?app_nil_r; try done. rewrite length_app, wrap_add_l by lia. f_equal. cbn. lia.
  - destruct e; rewrite ?app_nil_r; try done. by rewrite total_snoc, wrap_add_l by lia.
  - destruct e as [|i n r| | | | | |]; rewrite ?app_nil_r; try done.
    destruct r; rewrite trailing_snoc; [done|]. rewrite wrap_add_l by lia. f_equal. lia.
  - destruct (end_reason e) as [r|]; destruct Hend as (_ & -> & ->).
    + split; [|done]. symmetry. apply bool_decide_eq_true_2. by eexists.
    + split; [|done]. symmetry. apply bool_decide_eq_false_2. by intros [??].
Qed.

(** The reason outlives the state: a machine that ended a turn and then gets
    a tool request waits for approval with the old reason still set. *)
Lemma done_reason_outlives_done now u u' id name v :
  let m := loop_run now [LLMResponse "end_turn" u []; LLMResponse "tool_use" u' [(id, name, v)]] in
  state m = AwaitingApproval /\ done_reason m = Some ModelEndTurn /\
  forall debug, success (extract_trajectory debug m) = true.
Proof. done. Qed.

(** A snapshot restored into any machine gives back the state, the
    counters and the reason, when the failure count fits the 32 bits the
    snapshot has for it. *)
Theorem loop_snapshot_roundtrip m m0 now now' :
  0 <= consecutive_failures m <= u32_max ->
  let m' := restore_from_snapshot m0 now' (to_snapshot m now) in
  state m' = state m /\ done_reason m' = done_reason m /\ turn_count m' = turn_count m /\
  tokens_used m' = tokens_used m /\ consecutive_failures m' = consecutive_failures m /\
  to_snapshot m' now' = mkLoopSnapshot (state m) (turn_count m) (tokens_used m)
                          (consecutive_failures m) 0 (done_reason m).
Proof.
  intros Hf. unfold u32_max in Hf. cbn. rewrite wrap_small by lia.
  repeat split. unfold to_snapshot, sat_sub. cbn [restore_from_snapshot state turn_count tokens_used
    consecutive_failures created_at done_reason ss_state ss_done_reason ss_turn_count ss_tokens_used
    ss_consecutive_failures]. rewrite !wrap_small by (rewrite ?wrap_small; lia). by rewrite Z.sub_diag.
Qed.

Lemma loop_snapshot_roundtrip_witness :
  let m := loop_run 5 [LLMResponse "tool_use" 10 [("i", "grep", Null)]; ToolExecutionCompleted "i" "grep" (Failure "x")] in
  consecutive_failures (restore_from_snapshot (loop_new 0) 9 (to_snapshot m 8)) = 1 /\
  state (restore_from_snapshot (loop_new 0) 9 (to_snapshot m 8)) = state m.
Proof.
  split; [vm_compute; reflexivity|].
  apply (loop_snapshot_roundtrip
    (loop_run 5 [LLMResponse "tool_use" 10 [("i", "grep", Null)]; ToolExecutionCompleted "i" "grep" (Failure "x")])
    (loop_new 0) 8 9). vm_compute. split; congruence.
Defined.
