(* ===== verification/GoalLoop.v ===== *)
(** * The goal loop (agent/goal_loop.rs)

    A goal is a list of subtasks worked off by callbacks; the [u32] counters
    wrap.  Logging and the creation time, which only logging reads, are left
    out. *)

From S2P Require Import Prelude.
Local Open Scope Z_scope.

Inductive GoalState := Planning | ExecutingSubtask | VerifyingSubtask | Completed | GFailed.
Inductive SubTaskState := Pending | InProgress | Done | Failed.

#[export] Instance GoalState_eq_dec : EqDecision GoalState.
Proof. solve_decision. Defined.
#[export] Instance SubTaskState_eq_dec : EqDecision SubTaskState.
Proof. solve_decision. Defined.

Record SubTask := mkSubTask {
  description : string;
  st_state : SubTaskState;
  verification : string;
  attempts : Z;
  max_retries : Z
}.

#[local] Set Warnings "-register-all".

Inductive ExitCondition :=
| AllSubTasksComplete
| TestsPass (command : string) (expected_output : option string)
| LlmEval (prompt : string)
| All (conditions : list ExitCondition).

Record GoalSpec := mkGoalSpec {
  g_description : string;
  exit_conditions : list ExitCondition;
  subtasks : list SubTask;
  max_total_turns : Z;
  max_subtask_turns : Z
}.

Inductive GoalDoneReason :=
| AllComplete
| ExitConditionMet (what : string)
| TotalTurnsExhausted
| SubTaskTurnsExhausted (subtask : string)
| CriticalSubTaskFailed (subtask : string)
| UserCancelled.

Inductive GoalAction :=
| ExecuteSubTask (description : string)
| VerifySubTask (verification : string)
| GoalComplete (reason : GoalDoneReason)
| SubTaskFailed (subtask_idx : nat) (will_retry : bool).

Record GoalLoop := mkGoalLoop {
  spec : GoalSpec;
  state : GoalState;
  current_subtask_idx : nat;
  total_turns : Z;
  subtask_turns : Z;
  done_reason : option GoalDoneReason
}.

Definition goal_new (s : GoalSpec) : GoalLoop := mkGoalLoop s Planning 0 0 0 None.

Definition from_description (d : string) : GoalLoop :=
  goal_new (mkGoalSpec d [AllSubTasksComplete] [] 100 20).

Definition current_subtask (g : GoalLoop) : option SubTask :=
  subtasks (spec g) !! current_subtask_idx g.

(** Field updates. *)
Definition with_subtasks (l : list SubTask) (g : GoalLoop) : GoalLoop :=
  mkGoalLoop (mkGoalSpec (g_description (spec g)) (exit_conditions (spec g)) l
                (max_total_turns (spec g)) (max_subtask_turns (spec g)))
    (state g) (current_subtask_idx g) (total_turns g) (subtask_turns g) (done_reason g).
Definition with_state (s : GoalState) (g : GoalLoop) : GoalLoop :=
  mkGoalLoop (spec g) s (current_subtask_idx g) (total_turns g) (subtask_turns g) (done_reason g).
Definition with_turns (total sub : Z) (g : GoalLoop) : GoalLoop :=
  mkGoalLoop (spec g) (state g) (current_subtask_idx g) total sub (done_reason g).
Definition with_current (i : nat) (g : GoalLoop) : GoalLoop :=
  mkGoalLoop (spec g) (state g) i (total_turns g) (subtask_turns g) (done_reason g).
Definition finish (s : GoalState) (r : GoalDoneReason) (g : GoalLoop) : GoalLoop * GoalAction :=
  (mkGoalLoop (spec g) s (current_subtask_idx g) (total_turns g) (subtask_turns g) (Some r),
   GoalComplete r).
(** [if let Some(s) = subtasks.get_mut(current) { .. }]. *)
Definition update_current (f : SubTask -> SubTask) (g : GoalLoop) : GoalLoop :=
  with_subtasks (alter f (current_subtask_idx g) (subtasks (spec g))) g.

Definition set_st_state (s : SubTaskState) (t : SubTask) : SubTask :=
  mkSubTask (description t) s (verification t) (attempts t) (max_retries t).
Definition add_attempt (t : SubTask) : SubTask :=
  mkSubTask (description t) (st_state t) (verification t) (u32_add (attempts t) 1) (max_retries t).

Definition live (t : SubTask) : bool :=
  match st_state t with Pending | InProgress => true | Done | Failed => false end.

(** [iter().position(p)]. *)
Fixpoint position {A} (p : A -> bool) (l : list A) : option nat :=
  match l with
  | [] => None
  | x :: l' => if p x then Some 0%nat else S <$> position p l'
  end.

Definition advance_to_next_subtask (g : GoalLoop) : GoalLoop * GoalAction :=
  if forallb (fun t => bool_decide (st_state t = Done)) (subtasks (spec g)) then
    finish Completed AllComplete g
  else
    match position live (subtasks (spec g)) with
    | Some idx =>
        let g1 := with_state ExecutingSubtask (with_turns (total_turns g) 0 (with_current idx g)) in
        let g2 := update_current (set_st_state InProgress) g1 in
        (g2, ExecuteSubTask (default "" (description <$> current_subtask g2)))
    | None => finish Completed AllComplete g
    end.

Definition handle_subtask_failure (g : GoalLoop) : GoalLoop * GoalAction :=
  let will_retry := match current_subtask g with
                    | Some s => attempts s <? max_retries s
                    | None => false
                    end in
  if will_retry then
    (with_state ExecutingSubtask (with_turns (total_turns g) 0 (update_current add_attempt g)),
     SubTaskFailed (current_subtask_idx g) true)
  else advance_to_next_subtask (update_current (set_st_state Failed) g).

Definition on_subtasks_planned (g : GoalLoop) (l : list SubTask) : GoalLoop * GoalAction :=
  match l with
  | [] => finish GFailed (CriticalSubTaskFailed "规划失败：无子任务") g
  | _ =>
      let g1 := with_state ExecutingSubtask (with_turns (total_turns g) 0 (with_current 0 (with_subtasks l g))) in
      match current_subtask g1 with
      | Some s => (g1, ExecuteSubTask (description s))
      | None => (g1, GoalComplete AllComplete)
      end
  end.

Definition on_turn_complete (g : GoalLoop) (success : bool) : GoalLoop * GoalAction :=
  let g := with_turns (u32_add (total_turns g) 1) (u32_add (subtask_turns g) 1) g in
  if max_total_turns (spec g) <=? total_turns g then finish GFailed TotalTurnsExhausted g
  else if max_subtask_turns (spec g) <=? subtask_turns g then handle_subtask_failure g
  else if success then
    let g := with_state VerifyingSubtask g in
    match current_subtask g with
    | Some s => (g, VerifySubTask (verification s))
    | None => advance_to_next_subtask g
    end
  else
    let g := with_state ExecutingSubtask g in
    match current_subtask g with
    | Some s => (g, ExecuteSubTask (description s))
    | None => advance_to_next_subtask g
    end.

(** The attempt a failed verification counts. *)
Definition fail_attempt (t : SubTask) : SubTask :=
  let t' := add_attempt t in
  if max_retries t' <=? attempts t' then set_st_state Failed t' else t'.

Definition on_verification_result (g : GoalLoop) (passed : bool) : GoalLoop * GoalAction :=
  if passed then advance_to_next_subtask (update_current (set_st_state Done) g)
  else
    handle_subtask_failure (update_current fail_attempt g).

Definition cancel (g : GoalLoop) : GoalLoop * GoalAction := finish GFailed UserCancelled g.

Record GoalLoopSnapshot := mkGoalSnapshot {
  gs_state : GoalState;
  gs_current_subtask_idx : nat;
  gs_total_turns : Z;
  gs_subtask_turns : Z;
  gs_spec : GoalSpec;
  gs_done_reason : option GoalDoneReason
}.

Definition to_snapshot (g : GoalLoop) : GoalLoopSnapshot :=
  mkGoalSnapshot (state g) (current_subtask_idx g) (total_turns g) (subtask_turns g) (spec g) (done_reason g).

Definition restore_from_snapshot (g : GoalLoop) (s : GoalLoopSnapshot) : GoalLoop :=
  mkGoalLoop (gs_spec s) (gs_state s) (gs_current_subtask_idx s) (gs_total_turns s) (gs_subtask_turns s)
    (gs_done_reason s).

Definition check_exit_conditions (g : GoalLoop) (results : list bool) : bool :=
  if negb (Nat.eqb (length results) (length (exit_conditions (spec g)))) then false
  else forallb id results.

Definition progress (g : GoalLoop) : nat * nat :=
  (length (filter (fun t => st_state t = Done) (subtasks (spec g))), length (subtasks (spec g))).

Lemma goal_snapshot_roundtrip g g0 : restore_from_snapshot g0 (to_snapshot g) = g.
Proof. by destruct g. Qed.

(** ** Termination *)

(** What is left to try: one for a live subtask, and its attempts. *)
Definition cost (t : SubTask) : Z :=
  if live t then 1 + Z.max 0 (max_retries t - attempts t) else 0.
Fixpoint costs (l : list SubTask) : Z :=
  match l with [] => 0 | t :: l' => cost t + costs l' end.
Definition remaining (g : GoalLoop) : Z := costs (subtasks (spec g)).

Inductive goal_op := OTurn (success : bool) | OVerify (passed : bool).

Definition goal_step (g : GoalLoop) (op : goal_op) : GoalLoop * GoalAction :=
  match op with
  | OTurn s => on_turn_complete g s
  | OVerify p => on_verification_result g p
  end.

(** The callbacks as the driver makes them: until a [GoalComplete]. *)
Fixpoint goal_run (g : GoalLoop) (ops : list goal_op) : option (GoalLoop * nat) :=
  match ops with
  | [] => None
  | op :: ops' =>
      match goal_step g op with
      | (g', GoalComplete _) => Some (g', 1%nat)
      | (g', _) => '(r, n) ← goal_run g' ops'; Some (r, S n)
      end
  end.

(** A subtask still to run has counters below the maximum of their width. *)
Definition subtask_ok (t : SubTask) : Prop :=
  live t = true -> 0 <= attempts t < u32_max /\ 0 <= max_retries t < u32_max.

(** A loop in progress: the current subtask exists and is live. *)
Record goal_inv (g : GoalLoop) : Prop := {
  gi_tasks : Forall subtask_ok (subtasks (spec g));
  gi_live : exists t, current_subtask g = Some t /\ live t = true;
  gi_turns : 0 <= total_turns g < max_total_turns (spec g);
  gi_bound : max_total_turns (spec g) <= u32_max
}.

Lemma position_spec {A} (p : A -> bool) l :
  match position p l with
  | Some i => exists x, l !! i = Some x /\ p x = true
  | None => Forall (fun x => p x = false) l
  end.
Proof.
  induction l as [|x l IH]; cbn; [done|]. destruct (p x) eqn:E; [by exists x|].
  destruct (position p l); cbn; [done|]. by constructor.
Qed.

Lemma costs_alter f l : forall i t,
  l !! i = Some t -> costs (alter f i l) = costs l - cost t + cost (f t).
Proof.
  induction l as [|x l IH]; intros [|i] t H; simplify_eq/=; [lia|].
  rewrite (IH i t H). lia.
Qed.

Lemma Forall_alter_ok f l i :
  (forall t, l !! i = Some t -> subtask_ok t -> subtask_ok (f t)) -> Forall subtask_ok l ->
  Forall subtask_ok (alter f i l).
Proof. intros Hf Hl. by apply Forall_alter. Qed.

Lemma costs_nonneg l : 0 <= costs l.
Proof. induction l as [|t l IH]; cbn; [lia|]. unfold cost. destruct (live t); lia. Qed.

Lemma advance_eq g :
  advance_to_next_subtask g =
  match position live (subtasks (spec g)) with
  | Some idx =>
      let g1 := with_state ExecutingSubtask (with_turns (total_turns g) 0 (with_current idx g)) in
      let g2 := update_current (set_st_state InProgress) g1 in
      (g2, ExecuteSubTask (default "" (description <$> current_subtask g2)))
  | None => finish Completed AllComplete g
  end.
Proof.
  unfold advance_to_next_subtask. destruct (forallb _ _) eqn:E; [|done].
  pose proof (position_spec live (subtasks (spec g))) as H.
  destruct (position live _) as [i|]; [|done]. destruct H as (t & Ht & Hlive).
  apply (forallb_forall _ (subtasks (spec g))) with (x := t) in E;
    [|apply list_elem_of_In; by eapply list_elem_of_lookup_2].
  zbool. unfold live in Hlive. by rewrite E in Hlive.
Qed.

(** [advance_to_next_subtask] ends the goal exactly when nothing is live, and
    otherwise continues with a live subtask at no extra cost. *)
Lemma advance_spec g :
  Forall subtask_ok (subtasks (spec g)) -> 0 <= total_turns g < max_total_turns (spec g) ->
  max_total_turns (spec g) <= u32_max ->
  let '(g', a) := advance_to_next_subtask g in
  (a = GoalComplete AllComplete /\ state g' = Completed /\ done_reason g' = Some AllComplete /\
   Forall (fun t => live t = false) (subtasks (spec g'))) \/
  ((forall r, a <> GoalComplete r) /\ goal_inv g' /\ total_turns g' = total_turns g /\
   max_total_turns (spec g') = max_total_turns (spec g) /\ remaining g' = remaining g).
Proof.
  intros Hok Ht Hb. rewrite advance_eq. pose proof (position_spec live (subtasks (spec g))) as H.
  destruct (position live (subtasks (spec g))) as [idx|]; [right|by left].
  destruct H as (t & Hlk & Hlive). split; [done|].
  split; [split; cbn|split; [done|split; [done|]]]; try done.
  - apply Forall_alter_ok; [|done]. intros x Hx Hxok. simplify_eq. intros _. by apply Hxok.
  - exists (set_st_state InProgress t). unfold current_subtask. cbn.
    by rewrite list_lookup_alter_eq, Hlk.
  - unfold remaining. cbn. rewrite (costs_alter _ _ _ _ Hlk). unfold cost. rewrite Hlive. cbn. lia.
Qed.

Lemma failure_spec g t :
  Forall subtask_ok (subtasks (spec g)) -> current_subtask g = Some t ->
  0 <= total_turns g < max_total_turns (spec g) -> max_total_turns (spec g) <= u32_max ->
  (attempts t < max_retries t -> live t = true) ->
  let '(g', a) := handle_subtask_failure g in
  (a = GoalComplete AllComplete /\ state g' = Completed /\ done_reason g' = Some AllComplete /\
   Forall (fun t => live t = false) (subtasks (spec g'))) \/
  ((forall r, a <> GoalComplete r) /\ goal_inv g' /\ total_turns g' = total_turns g /\
   max_total_turns (spec g') = max_total_turns (spec g) /\
   remaining g' = remaining g - (if attempts t <? max_retries t then 1 else cost t)).
Proof.
  intros Hok Hcur Ht Hb Hlive. unfold handle_subtask_failure. rewrite Hcur.
  assert (Htok : subtask_ok t) by (by eapply Forall_lookup_1).
  destruct (attempts t <? max_retries t) eqn:E; zbool.
  - right. specialize (Hlive E). split; [done|].
    assert (Hadd : u32_add (attempts t) 1 = attempts t + 1).
    { destruct (Htok Hlive). apply u32_add_small. lia. }
    split; [split; cbn|split; [done|split; [done|]]]; try done.
    + apply Forall_alter_ok; [|done]. intros x Hx _. unfold current_subtask in Hcur. simplify_eq.
      destruct (Htok Hlive). intros _. cbn. rewrite Hadd. lia.
    + exists (add_attempt t). unfold current_subtask in *. cbn. by rewrite list_lookup_alter_eq, Hcur.
    + unfold remaining. cbn. unfold current_subtask in Hcur.
      rewrite (costs_alter _ _ _ _ Hcur). unfold cost. cbn [live add_attempt st_state attempts max_retries].
      change (live (add_attempt t)) with (live t). rewrite Hlive, Hadd. lia.
  - pose proof (advance_spec (update_current (set_st_state Failed) g)) as H.
    cbn [update_current with_subtasks spec subtasks total_turns max_total_turns] in H.
    specialize (H ltac:(apply Forall_alter_ok; done) Ht Hb).
    destruct (advance_to_next_subtask _) as [g' a]. destruct H as [H|(Ha & Hi & Ht' & Hm & Hr)]; [by left|right].
    split; [done|]. split; [done|]. split; [done|]. split; [done|]. rewrite Hr. unfold remaining. cbn.
    unfold current_subtask in Hcur. rewrite (costs_alter _ _ _ _ Hcur). cbn. lia.
Qed.

Definition potential (g : GoalLoop) : Z := max_total_turns (spec g) - total_turns g + remaining g.

(** The loop has ended: a reason is recorded, and a completed goal has no
    subtask left to run. *)
Definition ended (g : GoalLoop) : Prop :=
  (state g = Completed /\ done_reason g = Some AllComplete /\ Forall (fun t => live t = false) (subtasks (spec g))) \/
  (state g = GFailed /\ done_reason g = Some TotalTurnsExhausted).

Definition step_ok (g : GoalLoop) (r : GoalLoop * GoalAction) : Prop :=
  ((exists why, r.2 = GoalComplete why) /\ ended r.1) \/
  ((forall why, r.2 <> GoalComplete why) /\ goal_inv r.1 /\ potential r.1 < potential g).

Lemma turn_step_ok g success : goal_inv g -> step_ok g (on_turn_complete g success).
Proof.
  intros [Hok (t & Hcur & Hlive) Ht Hb]. unfold on_turn_complete.
  assert (Hadd : u32_add (total_turns g) 1 = total_turns g + 1) by (apply u32_add_small; lia).
  rewrite Hadd. cbn [with_turns spec total_turns subtask_turns].
  set (g1 := with_turns _ _ g). destruct (max_total_turns (spec g) <=? total_turns g + 1) eqn:E1; zbool.
  - left. split; [by eexists|]. by right.
  - assert (Hcur1 : current_subtask g1 = Some t) by exact Hcur.
    assert (Ht1 : 0 <= total_turns g1 < max_total_turns (spec g1)) by (cbn; lia).
    destruct (max_subtask_turns (spec g) <=? _) eqn:E2.
    + pose proof (failure_spec g1 t Hok Hcur1 Ht1 Hb (fun _ => Hlive)) as H.
      destruct (handle_subtask_failure g1) as [g' a].
      destruct H as [(-> & H)|(Ha & Hi & Htt & Hm & Hr)]; [left; split; [by eexists|by left]|right].
      split; [done|]. split; [done|]. unfold potential. cbn [fst]. rewrite Htt, Hm, Hr. cbn.
      change (remaining g1) with (remaining g). unfold cost. rewrite Hlive.
      destruct (attempts t <? max_retries t); lia.
    + right.
      assert (Hc : forall st, current_subtask (with_state st g1) = Some t) by (intros st; exact Hcur).
      destruct success; rewrite Hc; (split; [done|]); (split; [split|]); cbn; try done;
        try (by exists t); try lia; unfold potential, remaining; cbn; lia.
Qed.

Lemma verify_step_ok g passed : goal_inv g -> step_ok g (on_verification_result g passed).
Proof.
  intros [Hok (t & Hcur & Hlive) Ht Hb]. pose proof Hcur as Hlk. unfold current_subtask in Hlk.
  assert (Htok : subtask_ok t) by (by eapply Forall_lookup_1).
  assert (Hadd : u32_add (attempts t) 1 = attempts t + 1) by (destruct (Htok Hlive); apply u32_add_small; lia).
  unfold on_verification_result. destruct passed.
  - pose proof (advance_spec (update_current (set_st_state Done) g)) as H.
    specialize (H ltac:(apply Forall_alter_ok; done) Ht Hb).
    destruct (advance_to_next_subtask _) as [g' a].
    destruct H as [(-> & H)|(Ha & Hi & Htt & Hm & Hr)]; [left; split; [by eexists|by left]|right].
    split; [done|]. split; [done|]. unfold potential. cbn [fst]. rewrite Htt, Hm, Hr. unfold remaining. cbn.
    rewrite (costs_alter _ _ _ _ Hlk). unfold cost. rewrite Hlive. cbn. lia.
  - set (f := fail_attempt). set (g1 := update_current f g).
    assert (Hcur1 : current_subtask g1 = Some (f t)).
    { unfold current_subtask, g1. cbn. by rewrite list_lookup_alter_eq, Hlk. }
    assert (Hatt : attempts (f t) = attempts t + 1 /\ max_retries (f t) = max_retries t).
    { unfold f, fail_attempt. cbn. rewrite Hadd. by destruct (max_retries t <=? _). }
    destruct Hatt as [Hatt Hmax].
    assert (Hlive1 : live (f t) = negb (max_retries t <=? attempts t + 1)).
    { unfold f, fail_attempt. cbn. rewrite Hadd. destruct (max_retries t <=? attempts t + 1); [done|].
      by change (live (add_attempt t)) with (live t). }
    assert (Hrem : remaining g1 = remaining g - cost t + cost (f t)).
    { unfold remaining, g1. cbn. by rewrite (costs_alter _ _ _ _ Hlk). }
    assert (Hok1 : Forall subtask_ok (subtasks (spec g1))).
    { apply Forall_alter_ok; [|done]. intros x Hx _. simplify_eq. intros Hl. rewrite Hlive1 in Hl.
      apply negb_true_iff in Hl. zbool. destruct (Htok Hlive). rewrite Hatt, Hmax. lia. }
    pose proof (failure_spec g1 (f t) Hok1 Hcur1 Ht Hb) as H. rewrite Hatt, Hmax, Hlive1 in H.
    specialize (H ltac:(intros ?; apply negb_true_iff, Z.leb_gt; lia)).
    destruct (handle_subtask_failure g1) as [g' a].
    destruct H as [(-> & H)|(Ha & Hi & Htt & Hm & Hr)]; [left; split; [by eexists|by left]|right].
    split; [done|]. split; [done|]. unfold potential. cbn [fst]. rewrite Htt, Hm, Hr, Hrem. cbn.
    unfold cost. rewrite Hlive, Hlive1, Hatt, Hmax. cbn [negb].
    destruct (max_retries t <=? attempts t + 1) eqn:E; zbool; cbn [negb];
      destruct (attempts t + 1 <? max_retries t) eqn:E'; zbool; lia.
Qed.

Lemma goal_run_ends ops : forall g,
  goal_inv g -> potential g <= Z.of_nat (length ops) ->
  exists g' n, goal_run g ops = Some (g', n) /\ Z.of_nat n <= potential g /\ ended g'.
Proof.
  induction ops as [|op ops IH]; intros g Hinv Hlen.
  - exfalso. cbn in Hlen. destruct Hinv as [_ _ Ht _]. unfold potential, remaining in Hlen.
    pose proof (costs_nonneg (subtasks (spec g))). lia.
  - assert (Hpos : 1 <= potential g).
    { destruct Hinv as [_ _ Ht _]. unfold potential, remaining.
      pose proof (costs_nonneg (subtasks (spec g))). lia. }
    assert (Hstep : step_ok g (goal_step g op)).
    { destruct op; [by apply turn_step_ok|by apply verify_step_ok]. }
    cbn [goal_run]. destruct (goal_step g op) as [g1 a]. unfold step_ok in Hstep. cbn [fst snd] in Hstep.
    destruct Hstep as [[[why ->] Hend]|(Hne & Hinv1 & Hlt)].
    + exists g1, 1%nat. split; [done|]. split; [lia|done].
    + destruct (IH g1 Hinv1) as (g' & n & Hrun & Hn & Hend); [cbn in Hlen, Hlt; lia|].
      exists g', (S n). rewrite Hrun. destruct a; try (by exfalso; eapply Hne);
        (split; [done|split; [cbn in Hlt; lia|done]]).
Qed.

(** The subtasks a planner returns: not started, no attempts used. *)
Definition planned (t : SubTask) : Prop :=
  st_state t = Pending /\ attempts t = 0 /\ 0 <= max_retries t < u32_max.

Fixpoint retry_budget (l : list SubTask) : Z :=
  match l with [] => 0 | t :: l' => 1 + max_retries t + retry_budget l' end.

Lemma planned_costs l : Forall planned l -> costs l = retry_budget l.
Proof.
  induction 1 as [|t l (Hs & Ha & Hm) _ IH]; cbn; [done|].
  unfold cost, live. rewrite Hs, Ha, IH. lia.
Qed.

(** C38.  Termination: whatever the turns and the verifications answer, a goal
    with planned subtasks ends after at most [max_total_turns] plus the sum of
    [1 + max_retries] over its subtasks callbacks; it ends failed, out of
    turns, or completed with no subtask left to run. *)
Theorem goal_terminates s l ops :
  l <> [] -> Forall planned l -> 1 <= max_total_turns s <= u32_max ->
  max_total_turns s + retry_budget l <= Z.of_nat (length ops) ->
  exists g' n, goal_run (on_subtasks_planned (goal_new s) l).1 ops = Some (g', n) /\
    Z.of_nat n <= max_total_turns s + retry_budget l /\ ended g'.
Proof.
  intros Hne Hl Hmax Hlen. destruct l as [|t l]; [done|]. cbn [on_subtasks_planned].
  set (g := with_state _ _). change (current_subtask g) with (Some t). cbn [fst].
  assert (Hinv : goal_inv g).
  { split.
    - cbn. eapply Forall_impl; [exact Hl|]. intros x (_ & Ha & Hm) _. rewrite Ha. unfold u32_max in *. lia.
    - exists t. split; [done|]. inversion Hl as [|?? (Hs & _) _]; subst. unfold live. by rewrite Hs.
    - cbn. lia.
    - cbn. lia. }
  assert (Hpot : potential g = max_total_turns s + retry_budget (t :: l)).
  { unfold potential, remaining. cbn [g spec subtasks with_state with_turns with_current with_subtasks
      total_turns max_total_turns goal_new]. rewrite (planned_costs _ Hl). lia. }
  rewrite <- Hpot in Hlen |- *. by apply goal_run_ends.
Qed.

(** ** Retries after failed verifications *)

Lemma verify_fail_retry g t :
  current_subtask g = Some t -> 0 <= attempts t -> attempts t + 1 < max_retries t -> max_retries t <= u32_max ->
  exists g', on_verification_result g false = (g', SubTaskFailed (current_subtask_idx g) true) /\
    current_subtask_idx g' = current_subtask_idx g /\
    current_subtask g' = Some (mkSubTask (description t) (st_state t) (verification t) (attempts t + 2) (max_retries t)).
Proof.
  intros Hcur H0 Hlt Hm. pose proof Hcur as Hlk. unfold current_subtask in Hlk.
  assert (Ha1 : u32_add (attempts t) 1 = attempts t + 1) by (apply u32_add_small; lia).
  assert (Ha2 : u32_add (attempts t + 1) 1 = attempts t + 2).
  { rewrite u32_add_small; lia. }
  unfold on_verification_result, handle_subtask_failure. set (f := fail_attempt).
  assert (Hft : f t = add_attempt t).
  { unfold f, fail_attempt. cbn. rewrite Ha1, (proj2 (Z.leb_gt _ _)) by lia. done. }
  assert (Hc1 : current_subtask (update_current f g) = Some (add_attempt t)).
  { unfold current_subtask. cbn. by rewrite list_lookup_alter_eq, Hlk, <- Hft. }
  rewrite Hc1. cbn [attempts max_retries add_attempt]. rewrite Ha1, (proj2 (Z.ltb_lt _ _)) by lia.
  eexists. split; [done|]. split; [done|]. unfold current_subtask in *. cbn in *.
  rewrite list_lookup_alter_eq, Hc1. cbn. unfold add_attempt. cbn. by rewrite Ha1, Ha2.
Qed.

Lemma verify_fail_final g t :
  current_subtask g = Some t -> 0 <= attempts t < u32_max -> max_retries t <= attempts t + 1 ->
  (forall i, (on_verification_result g false).2 <> SubTaskFailed i true).
Proof.
  intros Hcur H0 Hge i. pose proof Hcur as Hlk. unfold current_subtask in Hlk.
  assert (Ha1 : u32_add (attempts t) 1 = attempts t + 1) by (apply u32_add_small; lia).
  unfold on_verification_result, handle_subtask_failure. set (f := fail_attempt).
  assert (Hc1 : current_subtask (update_current f g) = Some (set_st_state Failed (add_attempt t))).
  { unfold current_subtask. cbn. rewrite list_lookup_alter_eq, Hlk. cbn. unfold f, fail_attempt. cbn.
    by rewrite Ha1, (proj2 (Z.leb_le _ _)) by lia. }
  rewrite Hc1. cbn [attempts max_retries set_st_state add_attempt].
  rewrite Ha1, (proj2 (Z.ltb_ge _ _)) by lia. rewrite advance_eq. by destruct (position _ _).
Qed.

(** [n] verifications in a row that do not pass; the answers in order. *)
Fixpoint fail_verifications (n : nat) (g : GoalLoop) : GoalLoop * list GoalAction :=
  match n with
  | O => (g, [])
  | S n' => let (g1, a) := on_verification_result g false in
            let (g2, l) := fail_verifications n' g1 in (g2, a :: l)
  end.

Lemma fail_verifications_retry n : forall g t,
  current_subtask g = Some t -> 0 <= attempts t -> attempts t + 2 * Z.of_nat n <= max_retries t ->
  max_retries t <= u32_max ->
  (fail_verifications n g).2 = repeat (SubTaskFailed (current_subtask_idx g) true) n /\
  current_subtask (fail_verifications n g).1 =
    Some (mkSubTask (description t) (st_state t) (verification t) (attempts t + 2 * Z.of_nat n) (max_retries t)).
Proof.
  induction n as [|n IH]; intros g t Hcur H0 Hn Hm.
  - cbn. rewrite Z.add_0_r, Hcur. by destruct t.
  - destruct (verify_fail_retry g t Hcur H0) as (g1 & E & Hi & Hc1); [lia|done|].
    cbn [fail_verifications repeat]. rewrite E.
    destruct (IH g1 _ Hc1) as [Hl Hc]; cbn [attempts max_retries] in *; [lia|lia|done|].
    destruct (fail_verifications n g1) as [g2 l]. cbn [fst snd] in *. rewrite Hl, Hi, Hc.
    cbn [description st_state verification]. split; [done|]. do 2 f_equal. lia.
Qed.

(** A failed verification spends two attempts: a subtask with
    [max_retries = m] whose verification keeps failing is retried exactly
    [m / 2] times and is then given up. *)
Theorem verification_retries_halved g t :
  current_subtask g = Some t -> attempts t = 0 -> 0 <= max_retries t < u32_max ->
  let n := Z.to_nat (max_retries t / 2) in
  (fail_verifications n g).2 = repeat (SubTaskFailed (current_subtask_idx g) true) n /\
  forall i, (on_verification_result (fail_verifications n g).1 false).2 <> SubTaskFailed i true.
Proof.
  intros Hcur H0 Hm n.
  assert (Hn : Z.of_nat n = max_retries t / 2) by (unfold n; apply Z2Nat.id, Z.div_pos; lia).
  pose proof (Z.div_mod (max_retries t) 2 ltac:(lia)) as Hdm.
  pose proof (Z.mod_pos_bound (max_retries t) 2 ltac:(lia)) as Hmod.
  destruct (fail_verifications_retry n g t Hcur) as [Hl Hc]; [lia|lia|lia|].
  split; [done|]. eapply verify_fail_final; [exact Hc|cbn; lia|cbn; lia].
Qed.

(** ** Evaluation *)
Definition task_of (d : string) (m : Z) : SubTask := mkSubTask d Pending "v" 0 m.
Definition demo_spec : GoalSpec := mkGoalSpec "goal" [AllSubTasksComplete] [] 10 3.

(** The first subtask passes, the second is given up: the goal is reported
    complete with a failed subtask. *)
Example complete_with_failure :
  let g := (on_subtasks_planned (goal_new demo_spec) [task_of "a" 0; task_of "b" 0]).1 in
  let g := (on_verification_result g true).1 in
  let '(g, a) := on_verification_result g false in
  a = GoalComplete AllComplete /\ state g = Completed /\ st_state <$> subtasks (spec g) = [Done; Failed].
Proof. vm_compute. done. Qed.

Lemma goal_terminates_witness :
  exists g' n, goal_run (on_subtasks_planned (goal_new demo_spec) [task_of "a" 2; task_of "b" 0]).1
                 (repeat (OVerify false) 14) = Some (g', n) /\
    Z.of_nat n <= max_total_turns demo_spec + retry_budget [task_of "a" 2; task_of "b" 0] /\ ended g'.
Proof.
  apply (goal_terminates demo_spec [task_of "a" 2; task_of "b" 0] (repeat (OVerify false) 14)).
  - discriminate.
  - repeat constructor; vm_compute; congruence.
  - vm_compute. split; congruence.
  - vm_compute. congruence.
Defined.

Lemma verification_retries_halved_witness :
  let g := (on_subtasks_planned (goal_new demo_spec) [task_of "a" 3]).1 in
  (fail_verifications 1 g).2 = [SubTaskFailed 0 true] /\
  forall i, (on_verification_result (fail_verifications 1 g).1 false).2 <> SubTaskFailed i true.
Proof.
  apply (verification_retries_halved (on_subtasks_planned (goal_new demo_spec) [task_of "a" 3]).1 (task_of "a" 3));
    vm_compute; try split; congruence.
Defined.
