(* ===== verification/Permission.v ===== *)
(** * Tool permissions and shell safety (tools/permission.rs)

    Full Unicode lower-casing and the standard library's unspecified hash
    function are parameters ([StrEnv]): lower-casing is known on ASCII, the
    hash is some 64-bit number. *)

From S2P Require Import Prelude RustStr Json.
Local Open Scope Z_scope.

Inductive PermissionMode := AllowAll | AskUserMode | DenyAll | ReadOnly.
Inductive PermissionLevel := Safe | Dangerous.
Inductive PermissionDecision := Allow | Deny | AskUser.

#[export] Instance PermissionMode_eq_dec : EqDecision PermissionMode.
Proof. solve_decision. Defined.
#[export] Instance PermissionDecision_eq_dec : EqDecision PermissionDecision.
Proof. solve_decision. Defined.

Inductive ShellRisk :=
| CommandSubstitution | EnvInjection | PathTraversal | PipeToDangerous | RedirectSensitive
| BackslashEscape | UnicodeSpoof | NullByte | CommandChaining | BackgroundExec | SubShell
| HereDocInjection | ProcessSubstitution
| BlacklistedInterpreter (name : string)
| Unknown (what : string).

Record ShellSafetyResult := mkSafety { safe : bool; risks : list ShellRisk }.

Definition INTERPRETER_BLACKLIST : list string :=
  ["python"; "python3"; "python2"; "perl"; "ruby"; "node"; "php"; "bash"; "sh"; "zsh"; "fish";
   "lua"; "rscript"; "julia"; "powershell"; "cmd"].

Definition DANGEROUS_PIPE_TARGETS : list string :=
  ["sudo"; "su"; "chmod"; "chown"; "chgrp"; "rm"; "rmdir"; "mkfs"; "dd"; "curl"; "wget"; "ssh"; "scp";
   "crontab"; "launchctl"; "systemctl"].

Definition sensitive_paths : list string := ["/etc/"; "/var/"; "/root/"; "/home/"; "/.ssh/"; "/.env"].

(** ** Characters *)
Definition byte (n : nat) : ascii := ascii_of_nat n.
Definition of_bytes (l : list nat) : string := foldr (fun n s => String (byte n) s) EmptyString l.
Definition code (c : ascii) : Z := Z.of_N (N_of_ascii c).
Definition is_ascii_alphabetic (c : ascii) : bool :=
  ((65 <=? code c) && (code c <=? 90)) || ((97 <=? code c) && (code c <=? 122)).

(** The UTF-8 encodings of the characters with the White_Space property. *)
Definition whitespace : list string :=
  (of_bytes <$> [[9]; [10]; [11]; [12]; [13]; [32]; [194; 133]; [194; 160]; [225; 154; 128];
                 [226; 128; 128]; [226; 128; 129]; [226; 128; 130]; [226; 128; 131]; [226; 128; 132];
                 [226; 128; 133]; [226; 128; 134]; [226; 128; 135]; [226; 128; 136]; [226; 128; 137];
                 [226; 128; 138]; [226; 128; 168]; [226; 128; 169]; [226; 128; 175]; [226; 129; 159];
                 [227; 128; 128]])%nat.

(** The number of bytes of the white space character a string starts with. *)
Definition ws_len (s : string) : nat :=
  foldr (fun w n => if starts_with w s then String.length w else n) 0%nat whitespace.

Fixpoint str_drop (n : nat) (s : string) : string :=
  match n, s with
  | S n', String _ s' => str_drop n' s'
  | _, _ => s
  end.

(** [s.split_whitespace().next().unwrap_or("")]; one round per byte is
    enough. *)
Fixpoint skip_ws (fuel : nat) (s : string) : string :=
  match fuel with
  | O => s
  | S f => match ws_len s with O => s | n => skip_ws f (str_drop n s) end
  end.
Fixpoint take_word (s : string) : string :=
  match s with
  | EmptyString => EmptyString
  | String a s' => if Nat.eqb (ws_len s) 0 then String a (take_word s') else EmptyString
  end.
Definition first_word (s : string) : string := take_word (skip_ws (String.length s) s).

(** [w.split('/').last().unwrap_or(w)]. *)
Definition base_name (w : string) : string := default w (last (split_char "/"%char w)).

(** ** Shell safety *)
Fixpoint has_env_var (s : string) : bool :=
  match s with
  | EmptyString => false
  | String a s' =>
      (bool_decide (a = "$"%char) &&
       match s' with
       | String b _ => is_ascii_alphabetic b || bool_decide (b = "_"%char)
       | EmptyString => false
       end) || has_env_var s'
  end.

Definition push_if (b : bool) (r : ShellRisk) (l : list ShellRisk) : list ShellRisk :=
  if b then l ++ [r] else l.

Definition any_of (targets : list string) (command : string) : bool :=
  existsb (fun t => str_contains t command) targets.

Definition check_shell_safety (command : string) : ShellSafetyResult :=
  let r := [] in
  let r := push_if (str_contains "$(" command || has_char "`"%char command) CommandSubstitution r in
  let r := push_if (str_contains "${" command || has_env_var command) EnvInjection r in
  let r := push_if (str_contains "../" command) PathTraversal r in
  let r := push_if (has_char "|"%char command && any_of DANGEROUS_PIPE_TARGETS command) PipeToDangerous r in
  let r := push_if ((has_char ">"%char command || str_contains ">>" command) && any_of sensitive_paths command)
             RedirectSensitive r in
  let r := push_if (str_contains "\x" command || str_contains "\u" command || str_contains "\0" command)
             BackslashEscape r in
  let r := push_if (any_of (of_bytes <$> [[226; 128; 139]; [226; 128; 140]; [226; 128; 141]; [239; 187; 191]])%nat
                      command) UnicodeSpoof r in
  let r := push_if (has_char (byte 0) command) NullByte r in
  let r := push_if (has_char ";"%char command && negb (starts_with "echo" command)) CommandChaining r in
  let r := push_if (has_char "&"%char command && negb (str_contains "&&" command)) BackgroundExec r in
  let r := push_if (str_contains "$((" command || (has_char "("%char command && has_char ")"%char command))
             SubShell r in
  let r := push_if (str_contains "<<" command) HereDocInjection r in
  let r := push_if (str_contains "<(" command || str_contains ">(" command) ProcessSubstitution r in
  let base := base_name (first_word command) in
  let r := match list_find (fun i => base = i) INTERPRETER_BLACKLIST with
           | Some (_, i) => r ++ [BlacklistedInterpreter i]
           | None => r
           end in
  mkSafety (match r with [] => true | _ => false end) r.

(** ** The checker *)
Definition ascii_lower_char (c : ascii) : ascii :=
  if (65 <=? code c) && (code c <=? 90) then ascii_of_N (N_of_ascii c + 32)%N else c.
Fixpoint ascii_lower (s : string) : string :=
  match s with EmptyString => EmptyString | String c s' => String (ascii_lower_char c) (ascii_lower s') end.
Fixpoint is_ascii (s : string) : bool :=
  match s with EmptyString => true | String c s' => (code c <? 128) && is_ascii s' end.

Class StrEnv := {
  to_lowercase : string -> string;
  to_lowercase_ascii : forall s, is_ascii s = true -> to_lowercase s = ascii_lower s;
  default_hash : string -> Z;
  default_hash_range : forall s, 0 <= default_hash s < 2 ^ 64
}.

Record PermissionChecker := mkChecker { mode : PermissionMode; approved : gset string }.

Definition checker_new (m : PermissionMode) : PermissionChecker := mkChecker m ∅.

Definition safe_tools : list string := ["read"; "read_file"; "grep"; "glob"; "list_dir"; "ls"].
Definition path_tools : list string := ["write"; "write_file"; "edit"; "search_replace"].

Definition get_permission_level (tool_name : string) : PermissionLevel :=
  if bool_decide (tool_name ∈ safe_tools) then Safe else Dangerous.

(** [format!("{:016x}", h)]. *)
Definition hex_digit (n : Z) : ascii :=
  ascii_of_N (Z.to_N (if n <? 10 then 48 + n else 87 + n)).
Fixpoint hex (digits : nat) (h : Z) : string :=
  match digits with
  | O => EmptyString
  | S d => hex d (h / 16) +:+ String (hex_digit (h mod 16)) EmptyString
  end.

Section checker.
Context `{StrEnv}.

Definition approval_key (tool_name : string) (args : Value) : string :=
  let fallback :=
    if bool_decide (tool_name ∈ path_tools) then
      match as_str_opt (vindex args "path") with
      | Some path => tool_name +:+ ":" +:+ path
      | None => tool_name +:+ ":default"
      end
    else tool_name +:+ ":default" in
  if bool_decide (tool_name = "bash") then
    match as_str_opt (vindex args "command") with
    | Some cmd => "bash:" +:+ hex 16 (default_hash cmd)
    | None => fallback
    end
  else fallback.

(** The command of a [bash] call that does not pass the safety check. *)
Definition risky (tool_name : string) (args : Value) : bool :=
  bool_decide (tool_name = "bash") &&
  match as_str_opt (vindex args "command") with
  | Some cmd => negb (safe (check_shell_safety cmd))
  | None => false
  end.

Definition check (c : PermissionChecker) (tool : string) (args : Value) : PermissionDecision :=
  let tool_name := to_lowercase tool in
  match mode c with
  | AllowAll => Allow
  | DenyAll => Deny
  | ReadOnly =>
      match get_permission_level tool_name with Safe => Allow | Dangerous => Deny end
  | AskUserMode =>
      match get_permission_level tool_name with
      | Safe => Allow
      | Dangerous =>
          if risky tool_name args then Deny
          else if bool_decide (approval_key tool_name args ∈ approved c) then Allow else AskUser
      end
  end.

Definition approve (c : PermissionChecker) (tool : string) (args : Value) : PermissionChecker :=
  mkChecker (mode c) ({[ approval_key (to_lowercase tool) args ]} ∪ approved c).

Definition deny (c : PermissionChecker) (tool : string) (args : Value) : PermissionChecker := c.
End checker.

(** ** Sessions *)
Section sessions.
Context `{StrEnv}.

(** A session: the user's approvals in order. *)
Definition approve_all (m : PermissionMode) (l : list (string * Value)) : PermissionChecker :=
  foldl (fun c ta => approve c ta.1 ta.2) (checker_new m) l.

Lemma approve_all_approved m l k :
  mode (approve_all m l) = m /\
  (k ∈ approved (approve_all m l) <-> exists t a, (t, a) ∈ l /\ k = approval_key (to_lowercase t) a).
Proof.
  unfold approve_all. induction l as [|[t a] l [IHm IHk]] using rev_ind.
  - split; [done|]. cbn. split; [set_solver|]. intros (? & ? & ?%not_elem_of_nil & _). done.
  - rewrite foldl_app. cbn [foldl fst snd]. split; [done|]. cbn [approved approve].
    rewrite elem_of_union, elem_of_singleton, IHk. setoid_rewrite elem_of_app. split.
    + intros [->|(t' & a' & Hin & ->)]; [exists t, a|exists t', a']; set_solver.
    + intros (t' & a' & [Hin|[= -> ->]%list_elem_of_singleton] & ->); [right; by exists t', a'|by left].
Qed.

(** A call is allowed exactly when the mode is [AllowAll], or the tool
    is read-only and the mode is not [DenyAll], or, in the asking mode, the
    call passes the shell check and the session approved a call with the same
    key; in particular a risky shell command is denied whatever was
    approved, and read-only mode never allows anything else. *)
Theorem permission_allow_iff m l tool args :
  check (approve_all m l) tool args = Allow <->
  m = AllowAll \/
  (m <> DenyAll /\ to_lowercase tool ∈ safe_tools) \/
  (m = AskUserMode /\ risky (to_lowercase tool) args = false /\
   exists t a, (t, a) ∈ l /\ approval_key (to_lowercase tool) args = approval_key (to_lowercase t) a).
Proof.
  destruct (approve_all_approved m l (approval_key (to_lowercase tool) args)) as [Hm Hk].
  unfold check, get_permission_level. rewrite Hm.
  destruct m; cbn; [naive_solver| |naive_solver|].
  - case_bool_decide; [naive_solver|]. destruct (risky _ _); [naive_solver|].
    case_bool_decide as Ha; rewrite Hk in Ha; naive_solver.
  - case_bool_decide; naive_solver.
Qed.

Lemma risky_denied m l tool args :
  m <> AllowAll -> to_lowercase tool = "bash" -> risky "bash" args = true ->
  check (approve_all m l) tool args = Deny.
Proof.
  intros Hm Ht Hr. destruct (approve_all_approved m l "") as [Hm' _].
  unfold check, get_permission_level. rewrite Hm', Ht, Hr. by destruct m.
Qed.
End sessions.

(** ** Approval keys of shell commands *)
Definition str_last (s : string) : option ascii :=
  (fix go (s : string) (acc : option ascii) := match s with
   | EmptyString => acc | String c s' => go s' (Some c) end) s None.

Lemma str_last_app s c : str_last (s +:+ String c EmptyString) = Some c.
Proof.
  unfold str_last. generalize (@None ascii). induction s as [|a s IH]; intros acc; [done|].
  rewrite str_app_cons. apply IH.
Qed.

Lemma str_app_inv_head s t u : s +:+ t = s +:+ u -> t = u.
Proof. induction s as [|a s IH]; [done|]. rewrite !str_app_cons. intros [= E]. by apply IH. Qed.

Lemma str_snoc_inj s1 s2 c1 c2 :
  s1 +:+ String c1 EmptyString = s2 +:+ String c2 EmptyString -> s1 = s2 /\ c1 = c2.
Proof.
  revert s2. induction s1 as [|a s1 IH]; intros [|b s2] E; rewrite ?str_app_cons, ?str_app_nil_l in E.
  - by injection E.
  - injection E as _ E. by destruct s2.
  - injection E as _ E. by destruct s1.
  - injection E as -> E. by apply IH in E as [-> ->].
Qed.

Lemma hex_digit_inj x y : 0 <= x < 16 -> 0 <= y < 16 -> hex_digit x = hex_digit y -> x = y.
Proof.
  intros Hx Hy E. unfold hex_digit in E. apply (f_equal N_of_ascii) in E.
  rewrite !N_ascii_embedding in E by (repeat case_match; zbool; lia).
  destruct (x <? 10) eqn:?, (y <? 10) eqn:?; zbool; lia.
Qed.

Lemma hex_inj d : forall x y, 0 <= x < 16 ^ Z.of_nat d -> 0 <= y < 16 ^ Z.of_nat d -> hex d x = hex d y -> x = y.
Proof.
  induction d as [|d IH]; intros x y Hx Hy E; [cbn in Hx, Hy; lia|].
  rewrite Nat2Z.inj_succ, Z.pow_succ_r in Hx, Hy by lia. cbn [hex] in E.
  apply str_snoc_inj in E as [Eq Er].
  apply IH in Eq; [|split; [apply Z.div_pos; lia|apply Z.div_lt_upper_bound; lia]..].
  apply hex_digit_inj in Er; [|apply Z.mod_pos_bound; lia..].
  rewrite (Z.div_mod x 16), (Z.div_mod y 16) by lia. by rewrite Eq, Er.
Qed.

Lemma hex_last d x : str_last (hex (S d) x) = Some (hex_digit (x mod 16)).
Proof. cbn [hex]. apply str_last_app. Qed.

Lemma hex_ne d x : hex (S d) x <> "".
Proof. cbn [hex]. by destruct (hex d (x / 16)). Qed.

Lemma hex_digit_not_t x : 0 <= x < 16 -> hex_digit x <> "t"%char.
Proof.
  intros Hx E. unfold hex_digit in E. apply (f_equal N_of_ascii) in E.
  rewrite N_ascii_embedding in E by (case_match; zbool; lia).
  change (N_of_ascii "t"%char) with 116%N in E. destruct (x <? 10) eqn:?; zbool; lia.
Qed.

Lemma str_last_app_ne s t : t <> "" -> str_last (s +:+ t) = str_last t.
Proof.
  unfold str_last. generalize (@None ascii) at 1. intros acc Ht. revert acc.
  induction s as [|a s IH]; intros acc; [|rewrite str_app_cons; apply IH].
  rewrite str_app_nil_l. by destruct t.
Qed.

Section keys.
Context `{StrEnv}.

(** No call but a shell command has the key of a shell command, and two
    commands share one only when their hashes agree. *)
Lemma bash_key_inv tool args cmd :
  approval_key tool args = "bash:" +:+ hex 16 (default_hash cmd) ->
  tool = "bash" /\ exists cmd', as_str_opt (vindex args "command") = Some cmd' /\ default_hash cmd' = default_hash cmd.
Proof.
  assert (Hdef : forall t, t +:+ ":default" <> "bash:" +:+ hex 16 (default_hash cmd)).
  { intros t E. apply (f_equal str_last) in E.
    rewrite !str_last_app_ne in E by first [done|apply hex_ne]. rewrite hex_last in E.
    injection E as E. symmetry in E. revert E. apply hex_digit_not_t, Z.mod_pos_bound. lia. }
  unfold approval_key. case_bool_decide as Hb.
  - subst. destruct (as_str_opt (vindex args "command")) as [cmd'|].
    + intros E. split; [done|]. exists cmd'. split; [done|]. apply str_app_inv_head in E.
      pose proof (default_hash_range cmd). pose proof (default_hash_range cmd').
      apply (hex_inj 16) in E; [done|lia..].
    + rewrite (bool_decide_eq_false_2 ("bash" ∈ path_tools)) by (unfold path_tools; set_solver).
      by intros ?%Hdef.
  - case_bool_decide as Hp; [|by intros ?%Hdef]. destruct (as_str_opt _); [|by intros ?%Hdef].
    intros E. exfalso. unfold path_tools in Hp.
    repeat (apply elem_of_cons in Hp as [->|Hp]; [by cbn in E|]). by apply not_elem_of_nil in Hp.
Qed.

(** Approval of shell commands is per command: in the asking mode a
    command is allowed exactly when it passes the safety check and the session
    approved a shell command with the same hash. *)
Theorem bash_allowed_iff l tool args cmd :
  to_lowercase tool = "bash" -> as_str_opt (vindex args "command") = Some cmd ->
  check (approve_all AskUserMode l) tool args = Allow <->
  safe (check_shell_safety cmd) = true /\
  exists t a cmd', (t, a) ∈ l /\ to_lowercase t = "bash" /\
    as_str_opt (vindex a "command") = Some cmd' /\ default_hash cmd' = default_hash cmd.
Proof.
  intros Ht Hc. destruct (approve_all_approved AskUserMode l ("bash:" +:+ hex 16 (default_hash cmd))) as [Hm Hk].
  unfold check. rewrite Hm, Ht. change (get_permission_level "bash") with Dangerous.
  assert (Hkey : approval_key "bash" args = "bash:" +:+ hex 16 (default_hash cmd)).
  { unfold approval_key. change (bool_decide ("bash" = "bash")) with true. by rewrite Hc. }
  assert (Hrisk : risky "bash" args = negb (safe (check_shell_safety cmd))).
  { unfold risky. change (bool_decide ("bash" = "bash")) with true. by rewrite Hc. }
  rewrite Hrisk. destruct (safe (check_shell_safety cmd)); cbn [negb]; [|naive_solver].
  case_bool_decide as Ha; rewrite Hkey, Hk in Ha.
  - split; [|done]. intros _. split; [done|]. destruct Ha as (t & a & Hin & E). symmetry in E.
    apply bash_key_inv in E as (Et & cmd' & ? & ?). by exists t, a, cmd'.
  - split; [done|]. intros (_ & t & a & cmd' & Hin & Et & Ec & Eh). exfalso. apply Ha.
    exists t, a. split; [done|]. unfold approval_key. rewrite Et. change (bool_decide ("bash" = "bash")) with true. by rewrite Ec, Eh.
Qed.
End keys.

(** ** Evaluation: ASCII lower-casing and a toy hash. *)
Fixpoint toy_hash (s : string) : Z :=
  match s with EmptyString => 7 | String c s' => wrap 64 (code c + 31 * toy_hash s') end.
Lemma toy_hash_range s : 0 <= toy_hash s < 2 ^ 64.
Proof. destruct s; [done|]. cbn [toy_hash]. by apply wrap_range. Qed.
Definition ascii_env : StrEnv :=
  {| to_lowercase := ascii_lower; to_lowercase_ascii := fun s _ => eq_refl;
     default_hash := toy_hash; default_hash_range := toy_hash_range |}.

Definition bash_args (cmd : string) : Value := Object [("command", Str cmd)].

Lemma bash_allowed_iff_witness :
  @check ascii_env (@approve_all ascii_env AskUserMode [("Bash", bash_args "ls -l")]) "bash" (bash_args "ls -l") = Allow /\
  (@check ascii_env (@approve_all ascii_env AskUserMode [("Bash", bash_args "ls -l")]) "bash" (bash_args "rm x") = Allow <->
   safe (check_shell_safety "rm x") = true /\
   exists t a cmd', (t, a) ∈ [("Bash", bash_args "ls -l")] /\ @to_lowercase ascii_env t = "bash" /\
     as_str_opt (vindex a "command") = Some cmd' /\ @default_hash ascii_env cmd' = @default_hash ascii_env "rm x").
Proof.
  split; [vm_compute; reflexivity|].
  apply (@bash_allowed_iff ascii_env [("Bash", bash_args "ls -l")] "bash" (bash_args "rm x") "rm x"); reflexivity.
Defined.

Lemma permission_allow_iff_witness :
  @check ascii_env (@approve_all ascii_env ReadOnly [("write", Null)]) "Read" Null = Allow /\
  (@check ascii_env (@approve_all ascii_env ReadOnly [("write", Null)]) "Write" Null = Allow <->
   ReadOnly = AllowAll \/ (ReadOnly <> DenyAll /\ @to_lowercase ascii_env "Write" ∈ safe_tools) \/
   (ReadOnly = AskUserMode /\ @risky (@to_lowercase ascii_env "Write") Null = false /\
    exists t a, (t, a) ∈ [("write", Null)] /\
      @approval_key ascii_env (@to_lowercase ascii_env "Write") Null =
      @approval_key ascii_env (@to_lowercase ascii_env t) a)).
Proof.
  split; [vm_compute; reflexivity|]. apply (@permission_allow_iff ascii_env ReadOnly [("write", Null)] "Write" Null).
Defined.

(** ** What the shell check lets through: a command that starts with [echo]
    may chain another one, and a [&&] anywhere hides a background [&]. *)
Example chained_echo_is_safe : safe (check_shell_safety "echo ok; rm -rf /") = true.
Proof. vm_compute. done. Qed.
Example background_is_safe : safe (check_shell_safety "sleep 9 & ls && ls") = true.
Proof. vm_compute. done. Qed.
Example python_is_risky : risks (check_shell_safety "/usr/bin/python3 x.py") = [BlacklistedInterpreter "python3"].
Proof. vm_compute. done. Qed.
