(* ===== verification/Autonomic.v ===== *)
(** * Heartbeat supervision of agents (kernel/self_healing.rs, kernel/autonomic.rs)

    The health table of the autonomic nervous system and its periodic check.
    [Instant] is a number of nanoseconds; every [Instant::now()] is an
    argument.  The permits and the buffer pool of the same structure are a
    tokio semaphore and an empty implementation: they are not modelled. *)

From S2P Require Import Prelude RustStr.
Local Open Scope Z_scope.

Record AgentHealth := mkHealth {
  agent_id : string;
  last_heartbeat : Z;
  restart_count : Z;
  max_restarts : Z;
  marked_dead : bool
}.

Definition health_new (now : Z) (id : string) (max : Z) : AgentHealth := mkHealth id now 0 max false.

Definition health_heartbeat (now : Z) (h : AgentHealth) : AgentHealth :=
  mkHealth (agent_id h) now (restart_count h) (max_restarts h) false.

(** [self.last_heartbeat.elapsed() > timeout]; [elapsed] saturates at zero. *)
Definition is_timed_out (now : Z) (h : AgentHealth) (timeout : Z) : bool :=
  timeout <? sat_sub now (last_heartbeat h).

Definition can_restart (h : AgentHealth) : bool := restart_count h <? max_restarts h.

Definition record_restart (now : Z) (h : AgentHealth) : AgentHealth :=
  mkHealth (agent_id h) now (u32_add (restart_count h) 1) (max_restarts h) false.

Definition mark_dead (h : AgentHealth) : AgentHealth :=
  mkHealth (agent_id h) (last_heartbeat h) (restart_count h) (max_restarts h) true.

Record AutonomicNervousSystem := mkANS {
  agents : gmap string AgentHealth;
  heartbeat_timeout : Z;
  ans_max_restarts : Z
}.

Definition ans_new (heartbeat_timeout_secs max : Z) : AutonomicNervousSystem :=
  mkANS ∅ (heartbeat_timeout_secs * 1000000000) max.

Definition with_agents (f : gmap string AgentHealth -> gmap string AgentHealth)
    (a : AutonomicNervousSystem) : AutonomicNervousSystem :=
  mkANS (f (agents a)) (heartbeat_timeout a) (ans_max_restarts a).

Definition register_agent (now : Z) (id : string) (a : AutonomicNervousSystem) : AutonomicNervousSystem :=
  with_agents <[id := health_new now id (ans_max_restarts a)]> a.

Definition record_heartbeat (now : Z) (id : string) (a : AutonomicNervousSystem) : AutonomicNervousSystem :=
  with_agents (alter (health_heartbeat now) id) a.

Definition unregister_agent (id : string) (a : AutonomicNervousSystem) : AutonomicNervousSystem :=
  with_agents (delete id) a.

(** The body of the loop of [check_health] for one agent: [t1] is the time of
    the test, [t2] the time a restart is recorded. *)
Definition check_agent (timeout : Z) (t1 t2 : Z) (h : AgentHealth) : AgentHealth * bool :=
  if marked_dead h then (h, false)
  else if is_timed_out t1 h timeout then
    if can_restart h then (record_restart t2 h, true) else (mark_dead h, false)
  else (h, false).

(** [clock id] are the times read while [id] is examined. *)
Definition check_health `{!HashIter string} (clock : string -> Z * Z) (a : AutonomicNervousSystem)
  : AutonomicNervousSystem * list string :=
  foldl (fun '(a, need_restart) '(id, health) =>
           let '(health', again) := check_agent (heartbeat_timeout a) (clock id).1 (clock id).2 health in
           (with_agents <[id := health']> a, if again : bool then need_restart ++ [id] else need_restart))
    (a, []) (hiter (agents a)).

(** One round of [start_autonomic_loop]: an event per agent to restart. *)
Record HeartbeatEvent := mkHeartbeatEvent { ev_agent_id : string; ev_restart_count : Z }.

Definition autonomic_round `{!HashIter string} (clock : string -> Z * Z) (a : AutonomicNervousSystem)
  : AutonomicNervousSystem * list HeartbeatEvent :=
  let '(a', need_restart) := check_health clock a in
  (a', map (fun id => mkHeartbeatEvent id 0) need_restart).

(** ** One round, agent by agent *)
Section rounds.
Context `{HI : !HashIter string}.

Definition check_at (clock : string -> Z * Z) (a : AutonomicNervousSystem) (id : string) (h : AgentHealth)
  : AgentHealth * bool :=
  check_agent (heartbeat_timeout a) (clock id).1 (clock id).2 h.

Lemma check_fold clock timeout max l : forall m need, NoDup l.*1 ->
  exists m' need',
    foldl (fun '(a, need_restart) '(id, health) =>
             let '(health', again) := check_agent (heartbeat_timeout a) (clock id).1 (clock id).2 health in
             (with_agents <[id := health']> a, if again : bool then need_restart ++ [id] else need_restart))
      (mkANS m timeout max, need) l = (mkANS m' timeout max, need') /\
    (forall id, m' !! id =
       match (list_to_map l : gmap string AgentHealth) !! id with
       | Some h => Some (check_agent timeout (clock id).1 (clock id).2 h).1
       | None => m !! id
       end) /\
    need' = need ++ (filter (fun e => (check_agent timeout (clock e.1).1 (clock e.1).2 e.2).2 = true) l).*1.
Proof.
  induction l as [|[id h] l IH]; intros m need Hnd.
  { exists m, need. cbn. rewrite app_nil_r. done. }
  rewrite fmap_cons in Hnd. apply NoDup_cons in Hnd as [Hid Hnd]. cbn [foldl heartbeat_timeout].
  destruct (check_agent timeout (clock id).1 (clock id).2 h) as [h' r] eqn:E.
  destruct (IH (<[id:=h']> m) (if r then need ++ [id] else need) Hnd) as (m' & need' & Hf & Hm & Hn).
  exists m', need'. split; [exact Hf|]. split.
  - intros k. rewrite Hm. cbn [list_to_map foldr]. cbn in Hid.
    destruct (decide (id = k)) as [->|Hne].
    + rewrite (not_elem_of_list_to_map_1 l k) by done.
      change (list_to_map ((k, h) :: l)) with (<[k:=h]> (list_to_map l : gmap string AgentHealth)).
      rewrite !lookup_insert_eq. cbv beta iota. change (k, h).2 with h. by rewrite E.
    + change (list_to_map ((id, h) :: l)) with (<[id:=h]> (list_to_map l : gmap string AgentHealth)).
      rewrite !lookup_insert_ne by done. done.
  - rewrite Hn, filter_cons. cbn [fst snd]. rewrite E. cbn [snd].
    destruct r; [rewrite decide_True by done|rewrite decide_False by done].
    + by rewrite fmap_cons, <- app_assoc.
    + done.
Qed.

Lemma check_health_spec clock a :
  let '(a', need) := check_health clock a in
  heartbeat_timeout a' = heartbeat_timeout a /\ ans_max_restarts a' = ans_max_restarts a /\
  (forall id, agents a' !! id = (fun h => (check_at clock a id h).1) <$> agents a !! id) /\
  NoDup need /\
  (forall id, id ∈ need <-> exists h, agents a !! id = Some h /\ (check_at clock a id h).2 = true).
Proof.
  unfold check_health. destruct a as [m timeout max]. cbn [agents].
  destruct (check_fold clock timeout max (hiter m) m [] (NoDup_hiter_fst m)) as (m' & need & -> & Hm & ->).
  cbn [heartbeat_timeout ans_max_restarts agents]. split; [done|]. split; [done|].
  assert (Hl : list_to_map (hiter m) = m).
  { rewrite (list_to_map_proper _ (map_to_list m)); [apply list_to_map_to_list|apply NoDup_hiter_fst|apply hiter_perm]. }
  split; [|split].
  - intros id. rewrite Hm, Hl. by destruct (m !! id).
  - cbn [app]. apply (sublist_NoDup _ _ (NoDup_hiter_fst m)). apply fmap_sublist, sublist_filter.
  - intros id. cbn. rewrite list_elem_of_fmap. split.
    + intros ([k h] & -> & Hk). apply list_elem_of_filter in Hk as [Hc Hk]. exists h.
      by apply elem_of_hiter in Hk.
    + intros (h & Hk & Hc). exists (id, h). split; [done|]. apply list_elem_of_filter.
      split; [done|]. by apply elem_of_hiter.
Qed.
End rounds.

(** ** Histories *)
Inductive ans_op :=
| ORegister (now : Z) (id : string)
| OHeartbeat (now : Z) (id : string)
| OUnregister (id : string)
| OCheck (clock : string -> Z * Z).

Section histories.
Context `{HI : !HashIter string}.

Definition ans_step (a : AutonomicNervousSystem) (op : ans_op) : AutonomicNervousSystem * list string :=
  match op with
  | ORegister now id => (register_agent now id a, [])
  | OHeartbeat now id => (record_heartbeat now id a, [])
  | OUnregister id => (unregister_agent id a, [])
  | OCheck clock => check_health clock a
  end.

(** The state after a history, and for each agent the number of restarts
    asked for since it was last registered. *)
Fixpoint ans_run (a : AutonomicNervousSystem) (asked : string -> Z) (ops : list ans_op)
  : AutonomicNervousSystem * (string -> Z) :=
  match ops with
  | [] => (a, asked)
  | op :: ops =>
      let '(a', need) := ans_step a op in
      ans_run a'
        (fun id => match op with
                   | ORegister _ id' => if decide (id = id') then 0 else asked id
                   | OCheck _ => if decide (id ∈ need) then asked id + 1 else asked id
                   | _ => asked id
                   end) ops
  end.

(** The restart counters are the restarts asked for, within the limit, and an
    agent given up on has used all of them. *)
Definition ans_inv (a : AutonomicNervousSystem) (asked : string -> Z) : Prop :=
  forall id h, agents a !! id = Some h ->
    max_restarts h = ans_max_restarts a /\ restart_count h = asked id /\ 0 <= restart_count h <= max_restarts h /\ (marked_dead h = true -> restart_count h = max_restarts h).

Lemma check_agent_inv timeout t1 t2 h max n :
  max <= u32_max ->
  max_restarts h = max -> restart_count h = n -> 0 <= n <= max ->
  (marked_dead h = true -> n = max) ->
  let '(h', again) := check_agent timeout t1 t2 h in
  max_restarts h' = max /\ restart_count h' = (if again then n + 1 else n) /\ 0 <= restart_count h' <= max /\ (marked_dead h' = true -> restart_count h' = max).
Proof.
  intros Hu Hm Hn Hr Hd. unfold check_agent, can_restart.
  destruct (marked_dead h) eqn:Ed; [by rewrite Ed, Hm, Hn; auto|].
  destruct (is_timed_out t1 h timeout); [|by rewrite Ed, Hm, Hn].
  destruct (restart_count h <? max_restarts h) eqn:E; zbool; cbn.
  - rewrite u32_add_small by (unfold u32_max in *; lia). repeat split; try lia; done.
  - repeat split; lia.
Qed.

Lemma ans_step_inv a asked op :
  ans_max_restarts a <= u32_max -> 0 <= ans_max_restarts a ->
  ans_inv a asked ->
  let '(a', need) := ans_step a op in
  ans_max_restarts a' = ans_max_restarts a /\ ans_inv a' (fun id => match op with
                        | ORegister _ id' => if decide (id = id') then 0 else asked id
                        | OCheck _ => if decide (id ∈ need) then asked id + 1 else asked id
                        | _ => asked id
                        end).
Proof.
  intros Hu H0 Hinv. destruct op as [now id|now id|id|clock]; cbn [ans_step].
  - split; [done|]. intros k h. cbn. rewrite lookup_insert.
    destruct (decide (id = k)) as [->|Hne]; [intros [= <-]|intros Hk].
    + rewrite decide_True by done. cbn. repeat split; lia || done.
    + rewrite decide_False by done. by apply Hinv.
  - split; [done|]. intros k h. cbn. rewrite lookup_alter. case_decide as Hk; subst.
    + intros (h0 & Hh & ->)%fmap_Some. destruct (Hinv _ _ Hh) as (? & ? & ? & ?). cbn. done.
    + intros Hh. by apply Hinv.
  - split; [done|]. intros k h. cbn. rewrite lookup_delete. case_decide; [done|]. apply Hinv.
  - pose proof (check_health_spec clock a) as Hs. destruct (check_health clock a) as [a' need].
    destruct Hs as (_ & Hm & Ha & _ & Hn). split; [done|]. intros k h. rewrite Ha.
    intros (h0 & Hh & ->)%fmap_Some. destruct (Hinv _ _ Hh) as (E1 & E2 & E3 & E4).
    pose proof (check_agent_inv (heartbeat_timeout a) (clock k).1 (clock k).2 h0 _ _ Hu E1 E2 ltac:(lia)
                  ltac:(intros Hd; specialize (E4 Hd); lia)) as Hc.
    unfold check_at. specialize (Hn k). unfold check_at in Hn.
    destruct (check_agent _ _ _ h0) as [h' again] eqn:E. cbn [fst].
    destruct Hc as (C1 & C2 & C3 & C4). rewrite C1, C2, Hm.
    assert (Hag : again = bool_decide (k ∈ need)).
    { symmetry. destruct again; [apply bool_decide_eq_true|apply bool_decide_eq_false].
      - apply Hn. exists h0. by rewrite E.
      - intros (h1 & Hh1 & Hf)%Hn. simplify_eq. rewrite E in Hf. done. }
    rewrite bool_decide_decide in Hag. subst again.
    destruct (decide (k ∈ need)); repeat split; lia || (intros Hd; specialize (C4 Hd); lia).
Qed.

Lemma ans_run_inv ops : forall a asked,
  0 <= ans_max_restarts a <= u32_max -> ans_inv a asked ->
  ans_inv (ans_run a asked ops).1 (ans_run a asked ops).2.
Proof.
  induction ops as [|op ops IH]; intros a asked Hr Hinv; [done|].
  pose proof (ans_step_inv a asked op ltac:(lia) ltac:(lia) Hinv) as Hs. cbn [ans_run].
  destruct (ans_step a op) as [a' need]. destruct Hs as [Hm Hs]. apply IH; [lia|done].
Qed.

(** Whatever registrations, heartbeats, removals and checks happen, an agent
    is asked to be restarted at most [max_restarts] times between two
    registrations; it is given up on only after exactly that many, and a
    heartbeat does not give it new attempts. *)
Theorem restart_budget timeout_secs max ops id h :
  0 <= max <= u32_max ->
  let '(a, asked) := ans_run (ans_new timeout_secs max) (fun _ => 0) ops in
  agents a !! id = Some h ->
  restart_count h = asked id /\ 0 <= asked id <= max /\ (marked_dead h = true -> asked id = max).
Proof.
  intros Hmax.
  assert (Hi : ans_inv (ans_new timeout_secs max) (fun _ => 0)) by (intros k h'; cbn; by rewrite lookup_empty).
  pose proof (ans_run_inv ops (ans_new timeout_secs max) (fun _ => 0) Hmax Hi) as Hinv.
  assert (Hm : forall ops a asked, ans_max_restarts (ans_run a asked ops).1 = ans_max_restarts a).
  { clear. intros ops. induction ops as [|op ops IH]; intros a asked; [done|]. cbn [ans_run].
    pose proof (fun c => check_health_spec c a) as Hc.
    destruct op as [| | |clock]; cbn [ans_step]; try (rewrite IH; done).
    specialize (Hc clock). destruct (check_health clock a) as [a' need]. rewrite IH. apply Hc. }
  specialize (Hm ops (ans_new timeout_secs max) (fun _ => 0)).
  destruct (ans_run _ _ ops) as [a asked]. cbn [fst snd] in *. intros Hh.
  destruct (Hinv _ _ Hh) as (E1 & E2 & E3 & E4). cbn in Hm. split; [done|].
  rewrite <- E2. split; [lia|]. intros Hd. specialize (E4 Hd). lia.
Qed.

(** Checks of an agent that stays silent: the [i]-th at [t i], each more than
    the timeout after the time recorded at the one before. *)
Fixpoint silent_checks (id : string) (ts : list (Z * Z)) (a : AutonomicNervousSystem)
  : AutonomicNervousSystem * list (list string) :=
  match ts with
  | [] => (a, [])
  | t :: ts =>
      let '(a', need) := check_health (fun _ => t) a in
      let '(a'', rest) := silent_checks id ts a' in (a'', need :: rest)
  end.

Fixpoint spaced (timeout last : Z) (ts : list (Z * Z)) : Prop :=
  match ts with
  | [] => True
  | (t1, t2) :: ts => timeout < t1 - last /\ t1 <= t2 /\ spaced timeout t2 ts
  end.

Lemma dead_stays_dead id ts : forall a h,
  marked_dead h = true -> agents a !! id = Some h ->
  let '(a', needs) := silent_checks id ts a in
  map (fun need => bool_decide (id ∈ need)) needs = replicate (length ts) false /\ agents a' !! id = Some h.
Proof.
  induction ts as [|t ts IH]; intros a h Hd Ha; [done|]. cbn [silent_checks].
  pose proof (check_health_spec (fun _ => t) a) as Hs.
  destruct (check_health (fun _ => t) a) as [a1 need]. destruct Hs as (_ & _ & Ea & _ & En).
  specialize (Ea id). rewrite Ha in Ea. cbn in Ea. unfold check_at, check_agent in *. rewrite Hd in Ea.
  specialize (IH a1 h Hd Ea). destruct (silent_checks id ts a1) as [a2 needs]. destruct IH as [IH1 IH2].
  split; [|done]. cbn [map length replicate]. rewrite IH1, bool_decide_eq_false_2; [done|].
  intros (h0 & Hh0 & Hc)%En. simplify_eq. by rewrite Hd in Hc.
Qed.

Lemma silent_checks_outcome id ts : forall a h,
  0 <= heartbeat_timeout a ->
  0 <= restart_count h <= max_restarts h -> max_restarts h <= u32_max ->
  marked_dead h = false -> agents a !! id = Some h ->
  spaced (heartbeat_timeout a) (last_heartbeat h) ts ->
  let '(a', needs) := silent_checks id ts a in
  let left := Z.to_nat (max_restarts h - restart_count h) in
  map (fun need => bool_decide (id ∈ need)) needs =
    replicate (Nat.min (length ts) left) true ++ replicate (length ts - left) false /\
  exists h', agents a' !! id = Some h' /\
    restart_count h' = Z.min (restart_count h + Z.of_nat (length ts)) (max_restarts h) /\
    marked_dead h' = Nat.ltb left (length ts).
Proof.
  induction ts as [|[t1 t2] ts IH]; intros a h Ht Hc Hu Hd Ha Hsp.
  { cbn. split; [done|]. exists h. split; [done|]. split; [lia|done]. }
  destruct Hsp as (Hto & Hle & Hsp). cbn [silent_checks].
  pose proof (check_health_spec (fun _ => (t1, t2)) a) as Hs.
  destruct (check_health (fun _ => (t1, t2)) a) as [a1 need]. destruct Hs as (Et & _ & Ea & _ & En).
  specialize (Ea id). specialize (En id). rewrite Ha in Ea. cbn [fmap option_fmap option_map fst snd] in Ea.
  assert (Hneed : id ∈ need <-> (check_at (fun _ => (t1, t2)) a id h).2 = true).
  { rewrite En. split; [intros (h0 & Hh0 & ?); by simplify_eq|by exists h]. }
  assert (Htimed : is_timed_out t1 h (heartbeat_timeout a) = true).
  { apply Z.ltb_lt. unfold sat_sub. lia. }
  unfold check_at, check_agent, can_restart in Ea, Hneed. cbn [fst snd] in Ea, Hneed.
  rewrite Hd, Htimed in Ea, Hneed.
  destruct (restart_count h <? max_restarts h) eqn:E; zbool; cbn [fst snd] in Ea, Hneed.
  - assert (Er : u32_add (restart_count h) 1 = restart_count h + 1)
      by (apply u32_add_small; unfold u32_max in *; lia).
    specialize (IH a1 (record_restart t2 h)). rewrite Et in IH. cbn [restart_count max_restarts marked_dead last_heartbeat record_restart] in IH.
    rewrite Er in IH. specialize (IH Ht ltac:(lia) Hu eq_refl Ea Hsp).
    destruct (silent_checks id ts a1) as [a2 needs]. destruct IH as (IH1 & h' & Ha2 & IH2 & IH3).
    assert (Hl : Z.to_nat (max_restarts h - restart_count h) = S (Z.to_nat (max_restarts h - (restart_count h + 1)))) by lia.
    cbn [map length]. rewrite Hl, IH1, (bool_decide_eq_true_2 _ (proj2 Hneed eq_refl)).
    split; [done|]. exists h'. split; [done|]. rewrite IH2, IH3. split; [lia|done].
  - pose proof (dead_stays_dead id ts a1 (mark_dead h) eq_refl Ea) as Hdead.
    destruct (silent_checks id ts a1) as [a2 needs]. destruct Hdead as [Hn Ha2].
    assert (Hl : Z.to_nat (max_restarts h - restart_count h) = 0%nat) by lia.
    cbn [map length]. rewrite Hl, Hn, (bool_decide_eq_false_2 (id ∈ need)) by (by intros ?%Hneed).
    split; [done|]. exists (mark_dead h). split; [done|]. cbn. split; [lia|done].
Qed.

(** An agent that is registered and then stays silent through [n] checks
    spaced by more than the timeout is asked to be restarted at the first
    [max] of them and at none of the others, and is given up on from check
    [max + 1] on. *)
Theorem silent_agent_given_up timeout max now id ts a :
  0 <= max <= u32_max -> 0 <= timeout ->
  heartbeat_timeout a = timeout -> ans_max_restarts a = max ->
  spaced timeout now ts ->
  let '(a', needs) := silent_checks id ts (register_agent now id a) in
  map (fun need => bool_decide (id ∈ need)) needs =
    replicate (Nat.min (length ts) (Z.to_nat max)) true ++ replicate (length ts - Z.to_nat max) false /\
  exists h', agents a' !! id = Some h' /\ marked_dead h' = Nat.ltb (Z.to_nat max) (length ts).
Proof.
  intros Hmax Ht Et Em Hsp.
  assert (Hreg : agents (register_agent now id a) !! id = Some (health_new now id max))
    by (rewrite <- Em; apply lookup_insert_eq).
  pose proof (silent_checks_outcome id ts (register_agent now id a) (health_new now id max)
    ltac:(cbn; lia) ltac:(cbn; lia) ltac:(cbn; lia) eq_refl Hreg ltac:(cbn; by rewrite Et)) as Hs.
  cbn [restart_count max_restarts health_new] in Hs.
  destruct (silent_checks id ts (register_agent now id a)) as [a' needs].
  rewrite Z.sub_0_r in Hs. destruct Hs as (Hn & h' & Ha & _ & Hd). split; [done|]. by exists h'.
Qed.
End histories.

Lemma restart_budget_witness :
  exists h, agents (@ans_run (gmap_iter _) (ans_new 30 3) (fun _ => 0)
              [ORegister 0 "a"; OCheck (fun _ => (31000000000, 31000000000))]).1 !! "a" = Some h /\
    restart_count h = 1 /\ 0 <= 1 <= 3 /\ (marked_dead h = true -> 1 = 3).
Proof.
  eexists. split; [vm_compute; reflexivity|].
  refine (@restart_budget (gmap_iter _) 30 3
           [ORegister 0 "a"; OCheck (fun _ => (31000000000, 31000000000))] "a" _ _ _);
    [split; vm_compute; congruence|vm_compute; reflexivity].
Defined.

Lemma silent_agent_given_up_witness :
  map (fun need => bool_decide ("a" ∈ need))
    (@silent_checks (gmap_iter _) "a" [(31, 31); (62, 62); (93, 93)]
       (register_agent 0 "a" (mkANS ∅ 30 2))).2 = [true; true; false].
Proof.
  refine (proj1 (@silent_agent_given_up (gmap_iter _) 30 2 0 "a" [(31, 31); (62, 62); (93, 93)]
                   (mkANS ∅ 30 2) _ _ _ _ _));
    first [reflexivity | split; vm_compute; congruence | cbn; lia].
Defined.
