(* ===== verification/Param.v ===== *)
(** * The parameter server (message/param.rs)

    The untagged serialisation of [ParamValue] and the operations on the
    table.  A [Map] is an association list with distinct keys, as [Object] is
    in [Json]. *)

From S2P Require Import Prelude RustStr F64 Json.
Local Open Scope Z_scope.

#[local] Set Warnings "-register-all".

Inductive ParamValue :=
| PInteger (n : Z)
| PFloat (x : f64)
| PBoolean (b : bool)
| PString (s : string)
| PArray (l : list ParamValue)
| PMap (m : list (string * ParamValue))
| PNull.

Definition i64_max : Z := 2 ^ 63 - 1.

(** Deserialising an untagged enum tries the variants in order: a number is
    an [Integer] if it is an [i64], and a [Float] otherwise; every JSON value
    is accepted by some variant. *)
Definition param_number (n : number) : ParamValue :=
  match n with
  | PosInt k => if k <=? i64_max then PInteger k else PFloat (f64_of_Z k)
  | NegInt k => PInteger k
  | Float x => PFloat x
  end.

Fixpoint from_value (v : Value) : ParamValue :=
  match v with
  | Null => PNull
  | Bool b => PBoolean b
  | Number n => param_number n
  | Str s => PString s
  | Array l => PArray (map from_value l)
  | Object m => PMap (map (fun '(k, v) => (k, from_value v)) m)
  end.

(** Serialising: a float that is not finite becomes [null]. *)
Definition value_of_float (x : f64) : Value :=
  match x with S754_infinity _ | S754_nan => Null | _ => Number (Float x) end.

Fixpoint to_value (p : ParamValue) : Value :=
  match p with
  | PInteger n => Number (if 0 <=? n then PosInt n else NegInt n)
  | PFloat x => value_of_float x
  | PBoolean b => Bool b
  | PString s => Str s
  | PArray l => Array (map to_value l)
  | PMap m => Object (map (fun '(k, p) => (k, to_value p)) m)
  | PNull => Null
  end.

Record ParamServer := mkParams { params : gmap string ParamValue }.

Definition params_new : ParamServer := mkParams ∅.
Definition pset (s : ParamServer) (key : string) (v : ParamValue) : ParamServer :=
  mkParams (<[key := v]> (params s)).
Definition pget (s : ParamServer) (key : string) : option ParamValue := params s !! key.
Definition pdelete (s : ParamServer) (key : string) : ParamServer * option ParamValue :=
  (mkParams (delete key (params s)), params s !! key).
Definition phas (s : ParamServer) (key : string) : bool := bool_decide (is_Some (params s !! key)).
Definition plen (s : ParamServer) : nat := size (params s).
Definition pis_empty (s : ParamServer) : bool := bool_decide (params s = ∅).

Section listing.
Context `{HI : !HashIter string}.

Definition plist (s : ParamServer) : list string := (hiter (params s)).*1.
Definition list_prefix (s : ParamServer) (prefix : string) : list string :=
  filter (fun k => starts_with prefix k = true) (hiter (params s)).*1.

(** The segment-by-segment comparison of [search]. *)
Fixpoint segments_match (ps ks : list string) : bool :=
  match ps, ks with
  | p :: ps, k :: ks => (bool_decide (p = "*") || bool_decide (p = k)) && segments_match ps ks
  | _, _ => true
  end.

Definition key_matches (pattern k : string) : bool :=
  let pattern_parts := split_char "/"%char pattern in
  let key_parts := split_char "/"%char k in
  Nat.eqb (length pattern_parts) (length key_parts) && segments_match pattern_parts key_parts.

Definition search (s : ParamServer) (pattern : string) : list (string * ParamValue) :=
  if has_char "*"%char pattern then
    filter (fun e => key_matches pattern e.1 = true) (hiter (params s))
  else match params s !! pattern with Some v => [(pattern, v)] | None => [] end.
End listing.

(** ** Properties *)

(** The numbers of a JSON value that survive as they are. *)
Fixpoint value_wf (v : Value) : Prop :=
  match v with
  | Number (PosInt n) => 0 <= n <= i64_max
  | Number (NegInt n) => n < 0
  | Number (Float x) => value_of_float x = Number (Float x)
  | Array l => foldr (fun v P => value_wf v /\ P) True l
  | Object m => foldr (fun '(_, v) P => value_wf v /\ P) True m
  | _ => True
  end.

(** A parameter read back is the JSON value that was set. *)
Fixpoint to_from_value (v : Value) : value_wf v -> to_value (from_value v) = v.
Proof.
  destruct v as [|b|[n|n|x]|s|l|m]; cbn; try done.
  - unfold i64_max. intros Hn. rewrite (proj2 (Z.leb_le _ _)) by lia. cbn.
    by rewrite (proj2 (Z.leb_le 0 n)) by lia.
  - intros Hn. by rewrite (proj2 (Z.leb_gt 0 n)) by lia.
  - intros Hl. f_equal. rewrite map_map. induction l as [|v l IH]; [done|].
    destruct Hl as [Hv Hl]. cbn. by rewrite (to_from_value v Hv), IH.
  - intros Hm. f_equal. rewrite map_map. induction m as [|[k v] m IH]; [done|].
    destruct Hm as [Hv Hm]. cbn. by rewrite (to_from_value v Hv), IH.
Qed.

Lemma segments_match_spec ps ks :
  length ps = length ks ->
  segments_match ps ks = true <-> Forall2 (fun p k => p = "*" \/ p = k) ps ks.
Proof.
  revert ks. induction ps as [|p ps IH]; intros [|k ks]; cbn; try done.
  intros [= Hl]. rewrite andb_true_iff, orb_true_iff, !bool_decide_eq_true, IH by done.
  split; [intros [? ?]; by constructor|by inversion 1].
Qed.

Lemma split_char_free c d s : has_char d s = false -> Forall (fun x => has_char d x = false) (split_char c s).
Proof.
  induction s as [|a s IH]; cbn [split_char has_char]; [by repeat constructor|].
  intros [Ha Hs]%orb_false_iff. specialize (IH Hs). destruct (bool_decide (a = c)); [by constructor|].
  destruct (split_char c s) as [|h t]; [repeat constructor; cbn; by rewrite Ha|].
  apply Forall_cons in IH as [Hh Ht]. constructor; [|done]. cbn. by rewrite Ha, Hh.
Qed.

Lemma Forall2_literal ps ks :
  Forall2 (fun p k => p = "*" \/ p = k) ps ks -> Forall (fun p => has_char "*"%char p = false) ps -> ps = ks.
Proof.
  induction 1 as [|p k ps ks [->| ->] _ IH]; intros HF; [done|..]; apply Forall_cons in HF as [Hp HF]; [done|].
  f_equal. by apply IH.
Qed.

(** A search finds exactly the parameters whose key has as many segments as
    the pattern and equals it segment by segment, ["*"] standing for any. *)
Lemma search_exact `{HI : !HashIter string} s pattern k v :
  (k, v) ∈ search s pattern <->
  params s !! k = Some v /\
  Forall2 (fun p seg => p = "*" \/ p = seg) (split_char "/"%char pattern) (split_char "/"%char k).
Proof.
  assert (Hkm : key_matches pattern k = true <->
    Forall2 (fun p seg => p = "*" \/ p = seg) (split_char "/"%char pattern) (split_char "/"%char k)).
  { unfold key_matches. rewrite andb_true_iff, Nat.eqb_eq. split.
    - intros [Hl Hs]. by apply segments_match_spec.
    - intros HF. pose proof (Forall2_length _ _ _ HF) as Hl. split; [done|]. by apply segments_match_spec. }
  unfold search. destruct (has_char "*"%char pattern) eqn:Es.
  - rewrite list_elem_of_filter, elem_of_hiter. cbn [fst]. rewrite Hkm. tauto.
  - assert (HF : forall k, Forall2 (fun p seg => p = "*" \/ p = seg) (split_char "/"%char pattern) (split_char "/"%char k)
                 <-> pattern = k).
    { intros k'. split; [|intros ->; apply Forall_Forall2_diag, Forall_forall; auto].
      intros HF%Forall2_literal; [by apply split_char_inj in HF|by apply split_char_free]. }
    rewrite HF. destruct (params s !! pattern) as [w|] eqn:E.
    + rewrite list_elem_of_singleton. split; [intros [= -> ->]; done|intros [? ->]; by simplify_eq].
    + split; [by intros ?%not_elem_of_nil|intros [? ->]; by simplify_eq].
Qed.
