(* ===== verification/Reflex.v ===== *)
(** * Reflex rules and experience replay (kernel/reflex.rs, kernel/experience.rs)

    The rule base of the reflex router with its routing and the evolution of
    rules, and the experience log it learns from.  The regular expression
    engine is a third-party library: compiling a pattern gives a predicate on
    payloads or fails. *)

From S2P Require Import Prelude RustStr F64 Json.
Local Open Scope Z_scope.

Inductive ReflexLevel := L0 | L1Trial | L1Formal.

#[export] Instance ReflexLevel_eq_dec : EqDecision ReflexLevel.
Proof. solve_decision. Defined.

Record ReflexRule := mkRule {
  rule_id : string;
  pattern : string;
  signal_topic : string;
  level : ReflexLevel;
  action : string;
  params : Value;
  source : string;
  use_count : Z;
  success_count : Z;
  consecutive_fails : Z;
  disabled : bool
}.

Inductive ReflexAction :=
| Direct (action : string) (params : Value)
| Instinct (action : string) (params : Value)
| Trial (action : string) (params : Value).

Class RegexEngine := {
  regex_new : string -> option (string -> bool);
  regex_escape : string -> string
}.

Record ReflexRouter := mkRouter {
  rules : gmap string (list ReflexRule);
  compiled_patterns : gmap string (string -> bool)
}.

Definition router_new : ReflexRouter := mkRouter ∅ ∅.

(** The string without its last byte ([&s[..s.len() - 1]]). *)
Fixpoint str_init (s : string) : string :=
  match s with
  | EmptyString => EmptyString
  | String _ EmptyString => EmptyString
  | String c s' => String c (str_init s')
  end.

Definition is_code_modification (action : string) : bool :=
  starts_with "hand/" action || starts_with "limb/" action || starts_with "mouth/" action.

Definition reflex_action (r : ReflexRule) : ReflexAction :=
  match level r with
  | L0 => Direct (action r) (params r)
  | L1Formal => Instinct (action r) (params r)
  | L1Trial => Trial (action r) (params r)
  end.

Section router.
Context `{RX : RegexEngine}.

Definition add_rule (rt : ReflexRouter) (r : ReflexRule) : ReflexRouter :=
  match regex_new (pattern r) with
  | Some re =>
      mkRouter (<[signal_topic r := default [] (rules rt !! signal_topic r) ++ [r]]> (rules rt))
               (<[rule_id r := re]> (compiled_patterns rt))
  | None => rt
  end.

Definition with_rules (l : list ReflexRule) : ReflexRouter := foldl add_rule router_new l.

Definition propose_rule (rt : ReflexRouter) (id pat topic act : string) (ps : Value) : ReflexRouter :=
  add_rule rt (mkRule id pat topic L1Trial act ps "learned" 0 0 0 false).

(** The loop over the rules of one topic. *)
Definition rule_matches (rt : ReflexRouter) (payload : string) (r : ReflexRule) : bool :=
  negb (disabled r) &&
  match compiled_patterns rt !! rule_id r with Some re => re payload | None => false end.

Fixpoint first_match (rt : ReflexRouter) (payload : string) (l : list ReflexRule) : option ReflexAction :=
  match l with
  | [] => None
  | r :: l => if rule_matches rt payload r then Some (reflex_action r) else first_match rt payload l
  end.

(** The loops over the entries of the rule base: those whose key passes. *)
Fixpoint first_entry (rt : ReflexRouter) (payload : string) (passes : string -> bool)
    (l : list (string * list ReflexRule)) : option ReflexAction :=
  match l with
  | [] => None
  | (key, rs) :: l =>
      match (if passes key then first_match rt payload rs else None) with
      | Some a => Some a
      | None => first_entry rt payload passes l
      end
  end.

Definition prefix_key (topic key : string) : bool := starts_with (key +:+ "/") topic.
Definition wildcard_key (topic key : string) : bool :=
  ends_with "*" key && starts_with (str_init key) topic.

Definition route `{!HashIter string} (rt : ReflexRouter) (topic payload : string) : option ReflexAction :=
  match (match rules rt !! topic with Some rs => first_match rt payload rs | None => None end) with
  | Some a => Some a
  | None =>
      match first_entry rt payload (prefix_key topic) (hiter (rules rt)) with
      | Some a => Some a
      | None => first_entry rt payload (wildcard_key topic) (hiter (rules rt))
      end
  end.

(** The body of [record_result] for the rule found. *)
Definition set_level (l : ReflexLevel) (src : string) (r : ReflexRule) : ReflexRule :=
  mkRule (rule_id r) (pattern r) (signal_topic r) l (action r) (params r) src (use_count r)
    (success_count r) (consecutive_fails r) (disabled r).

Definition count_result (success : bool) (r : ReflexRule) : ReflexRule :=
  mkRule (rule_id r) (pattern r) (signal_topic r) (level r) (action r) (params r) (source r)
    (u32_add (use_count r) 1)
    (if success then u32_add (success_count r) 1 else success_count r)
    (if success then 0 else u32_add (consecutive_fails r) 1) (disabled r).

Definition disable (r : ReflexRule) : ReflexRule :=
  mkRule (rule_id r) (pattern r) (signal_topic r) (level r) (action r) (params r) (source r)
    (use_count r) (success_count r) (consecutive_fails r) true.

Definition apply_result (success : bool) (r : ReflexRule) : ReflexRule * bool :=
  let r := count_result success r in
  let '(r, evolved) :=
    if (2 <=? consecutive_fails r) && bool_decide (level r <> L0) then (disable r, true) else (r, false) in
  let '(r, evolved) :=
    if bool_decide (level r = L1Formal) && (20 <=? use_count r) && (success_count r =? use_count r) then
      if negb (is_code_modification (action r)) then (set_level L0 "evolved" r, true) else (r, evolved)
    else (r, evolved) in
  if bool_decide (level r = L1Trial) && (10 <=? use_count r) && (success_count r =? use_count r) then
    (set_level L1Formal (source r) r, true)
  else (r, evolved).

(** The first rule of that id in a list, updated. *)
Fixpoint update_first (id : string) (success : bool) (l : list ReflexRule) : option (list ReflexRule * bool) :=
  match l with
  | [] => None
  | r :: l =>
      if bool_decide (rule_id r = id) then
        let '(r', evolved) := apply_result success r in Some (r' :: l, evolved)
      else '(l', evolved) ← update_first id success l; Some (r :: l', evolved)
  end.

Fixpoint record_loop (rt : ReflexRouter) (id : string) (success : bool)
    (l : list (string * list ReflexRule)) : ReflexRouter * bool :=
  match l with
  | [] => (rt, false)
  | (key, rs) :: l =>
      match update_first id success rs with
      | Some (rs', evolved) => (mkRouter (<[key := rs']> (rules rt)) (compiled_patterns rt), evolved)
      | None => record_loop rt id success l
      end
  end.

Definition record_result `{!HashIter string} (rt : ReflexRouter) (id : string) (success : bool)
  : ReflexRouter * bool := record_loop rt id success (hiter (rules rt)).

Definition rules_for_topic (rt : ReflexRouter) (topic : string) : list ReflexRule :=
  default [] (rules rt !! topic).

Definition all_rules `{!HashIter string} (rt : ReflexRouter) : list ReflexRule :=
  concat (hiter (rules rt)).*2.
End router.

Record ReflexRouterStats := mkStats {
  total_rules : nat; l0_count : nat; l1_formal_count : nat; l1_trial_count : nat; disabled_count : nat
}.

Definition router_stats `{!HashIter string} (rt : ReflexRouter) : ReflexRouterStats :=
  let all := all_rules rt in
  mkStats (length all)
    (length (filter (fun r => level r = L0) all))
    (length (filter (fun r => level r = L1Formal) all))
    (length (filter (fun r => level r = L1Trial) all))
    (length (filter (fun r => disabled r = true) all)).

Definition builtin_reflex_rules : list ReflexRule :=
  [mkRule "log_file_change" ".*" "sensory/eye" L0 "kernel/log"
     (Object [("action", Str "log_file_change"); ("level", Str "debug")]) "manual" 0 0 0 false;
   mkRule "log_compile_error" ".*" "sensory/nose/compile_error" L0 "kernel/log"
     (Object [("action", Str "log_compile_error"); ("level", Str "warn")]) "manual" 0 0 0 false].

(** ** Evolution of a learned rule *)
Definition evolve (r : ReflexRule) (results : list bool) : ReflexRule :=
  foldl (fun r success => (apply_result success r).1) r results.

Definition all_true (l : list bool) : bool := forallb id l.

Fixpoint two_fails (l : list bool) : bool :=
  match l with
  | false :: (false :: _) as l' => true
  | _ :: l' => two_fails l'
  | [] => false
  end.

(** The first [n] results exist and are successes. *)
Definition perfect_start (n : nat) (l : list bool) : bool :=
  Nat.leb n (length l) && all_true (take n l).

Definition level_after (code : bool) (l : list bool) : ReflexLevel :=
  if negb code && perfect_start 20 l then L0
  else if perfect_start 10 l then L1Formal else L1Trial.

(** Failures at the end of the history. *)
Definition trailing_fails (l : list bool) : Z :=
  foldl (fun n (s : bool) => if s then 0 else n + 1) 0 l.

Definition successes (l : list bool) : Z := foldl (fun n (s : bool) => if s then n + 1 else n) 0 l.

Lemma all_true_app l1 l2 : all_true (l1 ++ l2) = all_true l1 && all_true l2.
Proof. apply forallb_app. Qed.

Lemma perfect_start_snoc n l s :
  perfect_start n (l ++ [s]) =
    perfect_start n l || (Nat.eqb n (S (length l)) && all_true (l ++ [s])).
Proof.
  unfold perfect_start. rewrite length_app. cbn [length].
  destruct (decide (n <= length l)%nat) as [Hle|Hgt].
  - rewrite take_app_le by done. rewrite (proj2 (Nat.leb_le n (length l + 1))) by lia.
    rewrite (proj2 (Nat.leb_le n (length l))) by lia. rewrite (proj2 (Nat.eqb_neq n (S (length l)))) by lia.
    by rewrite orb_false_r.
  - rewrite (proj2 (Nat.leb_gt n (length l))) by lia. cbn [andb orb].
    destruct (decide (n = S (length l))) as [->|Hne].
    + rewrite Nat.eqb_refl, Nat.add_1_r, Nat.leb_refl. cbn [andb].
      by rewrite take_ge by (rewrite length_app; cbn; lia).
    + rewrite (proj2 (Nat.leb_gt n (length l + 1))), (proj2 (Nat.eqb_neq n (S (length l)))) by lia. done.
Qed.

Lemma successes_le l : 0 <= successes l <= Z.of_nat (length l).
Proof.
  induction l as [|s l IH] using rev_ind; [done|]. unfold successes in *.
  rewrite foldl_snoc, length_app. cbn [length]. destruct s; lia.
Qed.

Lemma successes_all l : (successes l =? Z.of_nat (length l)) = all_true l.
Proof.
  induction l as [|s l IH] using rev_ind; [done|].
  pose proof (successes_le l) as Hle. unfold successes in *.
  rewrite foldl_snoc, length_app, all_true_app. cbn [length all_true forallb id].
  rewrite <- IH, Nat.add_1_r, Nat2Z.inj_succ. destruct s; cbn.
  - rewrite andb_true_r. apply eq_bool_prop_intro. rewrite !Is_true_true, !Z.eqb_eq. lia.
  - rewrite andb_false_r. apply Z.eqb_neq. lia.
Qed.

Lemma trailing_fails_nonneg l : 0 <= trailing_fails l <= Z.of_nat (length l).
Proof.
  induction l as [|s l IH] using rev_ind; [done|]. unfold trailing_fails in *.
  rewrite foldl_snoc, length_app. cbn [length]. destruct s; lia.
Qed.

Lemma two_fails_snoc l s : two_fails (l ++ [s]) = two_fails l || (negb s && bool_decide (last l = Some false)).
Proof.
  induction l as [|a l IH]; [by destruct s|].
  destruct l as [|b l]; [by destruct a, s|].
  assert (Hl : last (a :: b :: l) = last (b :: l)) by done.
  rewrite Hl. destruct a, b; cbn [app] in *; try exact IH; done.
Qed.

Lemma trailing_two l : (2 <=? trailing_fails (l ++ [false])) = bool_decide (last l = Some false).
Proof.
  unfold trailing_fails. rewrite foldl_snoc. fold (trailing_fails l).
  destruct l as [|s l _] using rev_ind; [done|]. rewrite last_snoc.
  unfold trailing_fails. rewrite foldl_snoc. fold (trailing_fails l).
  pose proof (trailing_fails_nonneg l). destruct s; [by rewrite bool_decide_eq_false_2|].
  rewrite bool_decide_eq_true_2 by done. apply Z.leb_le. lia.
Qed.

Lemma two_fails_all_true l : two_fails l = true -> all_true l = false.
Proof.
  induction l as [|a l IH]; [done|]. destruct a; cbn; [|done].
  intros Ht. change (true && all_true l = false). cbn. apply IH. by destruct l.
Qed.

(** Comparisons of two known levels are evaluated. *)
Ltac simpl_levels :=
  repeat match goal with
  | |- context [bool_decide ?P] =>
      let v := eval vm_compute in (bool_decide P) in
      match v with
      | true => change (bool_decide P) with true
      | false => change (bool_decide P) with false
      end
  end; cbv beta iota zeta.

(** The record of a rule proposed as a trial, after a history of results. *)
Definition rule_after (r r' : ReflexRule) (l : list bool) : Prop :=
  rule_id r' = rule_id r /\ pattern r' = pattern r /\ signal_topic r' = signal_topic r /\
  action r' = action r /\ params r' = params r /\
  use_count r' = Z.of_nat (length l) /\ success_count r' = successes l /\
  consecutive_fails r' = trailing_fails l /\
  level r' = level_after (is_code_modification (action r)) l /\
  disabled r' = bool_decide (level r' <> L0) && two_fails l.

Lemma level_after_snoc code l s :
  level_after code (l ++ [s]) =
    match level_after code l with
    | L0 => L0
    | L1Formal => if negb code && Nat.leb 20 (S (length l)) && all_true (l ++ [s]) then L0 else L1Formal
    | L1Trial => if Nat.leb 10 (S (length l)) && all_true (l ++ [s]) then L1Formal else L1Trial
    end.
Proof.
  unfold level_after. rewrite !perfect_start_snoc.
  assert (Hp : forall n, all_true (l ++ [s]) = true -> (n <= length l)%nat -> perfect_start n l = true).
  { intros n Ha Hn. unfold perfect_start. rewrite (proj2 (Nat.leb_le _ _) Hn). cbn [andb].
    rewrite all_true_app in Ha. apply andb_true_iff in Ha as [Ha _].
    rewrite <- (take_drop n l), all_true_app in Ha. by apply andb_true_iff in Ha as [? _]. }
  destruct code; cbn [negb andb].
  - destruct (perfect_start 10 l) eqn:E10; [done|]. cbn [orb].
    destruct (all_true (l ++ [s])) eqn:Ea; [|by rewrite !andb_false_r].
    rewrite !andb_true_r. destruct (Nat.leb 10 (S (length l))) eqn:El; zbool.
    + destruct (decide (10 <= length l)%nat) as [Hl|Hl]; [by rewrite (Hp 10%nat eq_refl Hl) in E10|].
      by rewrite (proj2 (Nat.eqb_eq 10 (S (length l)))) by lia.
    + by rewrite (proj2 (Nat.eqb_neq 10 (S (length l)))) by lia.
  - destruct (perfect_start 20 l) eqn:E20; [done|]. cbn [orb].
    destruct (all_true (l ++ [s])) eqn:Ea.
    + rewrite !andb_true_r. destruct (perfect_start 10 l) eqn:E10; cbn [orb].
      * destruct (Nat.leb 20 (S (length l))) eqn:El; zbool.
        -- destruct (decide (20 <= length l)%nat) as [Hl|Hl]; [by rewrite (Hp 20%nat eq_refl Hl) in E20|].
           by rewrite (proj2 (Nat.eqb_eq 20 (S (length l)))) by lia.
        -- by rewrite (proj2 (Nat.eqb_neq 20 (S (length l)))) by lia.
      * assert (Hl : ~ (10 <= length l)%nat) by (intros Hl; by rewrite (Hp 10%nat eq_refl Hl) in E10).
        rewrite (proj2 (Nat.eqb_neq 20 (S (length l)))) by lia.
        destruct (Nat.eqb 10 (S (length l))) eqn:El; zbool.
        -- by rewrite (proj2 (Nat.leb_le 10 (S (length l)))) by lia.
        -- by rewrite (proj2 (Nat.leb_gt 10 (S (length l)))) by lia.
    + rewrite !andb_false_r. cbn [orb]. by rewrite !orb_false_r; destruct (perfect_start 10 l).
Qed.

Lemma apply_result_fields s r :
  let c := count_result s r in
  let r' := (apply_result s r).1 in
  let perfect := success_count c =? use_count c in
  rule_id r' = rule_id r /\ pattern r' = pattern r /\ signal_topic r' = signal_topic r /\
  action r' = action r /\ params r' = params r /\
  use_count r' = use_count c /\ success_count r' = success_count c /\ consecutive_fails r' = consecutive_fails c /\
  level r' = match level r with
             | L0 => L0
             | L1Formal =>
                 if negb (is_code_modification (action r)) && (20 <=? use_count c) && perfect then L0 else L1Formal
             | L1Trial => if (10 <=? use_count c) && perfect then L1Formal else L1Trial
             end /\
  disabled r' = disabled r || ((2 <=? consecutive_fails c) && bool_decide (level r <> L0)).
Proof.
  unfold apply_result. cbv zeta. remember (count_result s r) as c eqn:Ec.
  assert (rule_id r = rule_id c /\ pattern r = pattern c /\ signal_topic r = signal_topic c /\
          action r = action c /\ params r = params c /\ level r = level c /\ disabled r = disabled c)
    as (-> & -> & -> & -> & -> & -> & ->) by (by subst c).
  clear Ec r. destruct c as [i p t lv a ps src u sc cf d].
  cbn [rule_id pattern signal_topic level action params use_count success_count consecutive_fails disabled].
  destruct (2 <=? cf) eqn:E1, (20 <=? u) eqn:E2, (10 <=? u) eqn:E3, (sc =? u) eqn:E4,
    (is_code_modification a) eqn:E5, lv;
    repeat (progress (simpl_levels; cbn -[bool_decide is_code_modification Z.leb Z.eqb]; rewrite ?E1, ?E2, ?E3, ?E4, ?E5));
    rewrite ?orb_true_r, ?orb_false_r; done.
Qed.

Lemma apply_result_after r r' l s :
  Z.of_nat (length l) < u32_max -> rule_after r r' l -> rule_after r (apply_result s r').1 (l ++ [s]).
Proof.
  intros Hlen (E1 & E2 & E3 & E4 & E5 & E6 & E7 & E8 & E9 & E10).
  pose proof (successes_le l). pose proof (trailing_fails_nonneg l).
  assert (Hu : use_count (count_result s r') = Z.of_nat (length (l ++ [s]))).
  { cbn. rewrite E6, u32_add_small, length_app; [cbn; lia|unfold u32_max in *; lia]. }
  assert (Hs : success_count (count_result s r') = successes (l ++ [s])).
  { unfold successes. cbn. rewrite E7, foldl_snoc. destruct s; [|done].
    apply u32_add_small. unfold successes, u32_max in *. lia. }
  assert (Hc : consecutive_fails (count_result s r') = trailing_fails (l ++ [s])).
  { unfold trailing_fails. cbn. rewrite E8, foldl_snoc. destruct s; [done|].
    apply u32_add_small. unfold trailing_fails, u32_max in *. lia. }
  assert (Hge : forall n : nat, (Z.of_nat n <=? Z.of_nat (length (l ++ [s]))) = Nat.leb n (S (length l))).
  { intros n. rewrite length_app, Nat.add_1_r. apply eq_bool_prop_intro.
    rewrite !Is_true_true, Z.leb_le, Nat.leb_le. lia. }
  destruct (apply_result_fields s r') as (F1 & F2 & F3 & F4 & F5 & F6 & F7 & F8 & F9 & F10).
  rewrite Hu, Hs, successes_all, E4, E9 in F9.
  change 20 with (Z.of_nat 20) in F9. change 10 with (Z.of_nat 10) in F9. rewrite !Hge in F9.
  rewrite Hc, E10, E9 in F10.
  assert (Hlev : level (apply_result s r').1 = level_after (is_code_modification (action r)) (l ++ [s]))
    by (rewrite level_after_snoc; exact F9).
  unfold rule_after. rewrite Hlev. repeat (split; [congruence|]).
  rewrite F10, two_fails_snoc.
  assert (Hfail : (2 <=? trailing_fails (l ++ [s])) = negb s && bool_decide (last l = Some false)).
  { destruct s; [|apply trailing_two]. unfold trailing_fails. by rewrite foldl_snoc. }
  rewrite Hfail. rewrite level_after_snoc.
  assert (Hnf : all_true (l ++ [s]) = true -> negb s && bool_decide (last l = Some false) = false /\ two_fails l = false).
  { intros Ha. rewrite all_true_app in Ha. apply andb_true_iff in Ha as [Ha1 Ha2].
    destruct s; [|done]. split; [done|]. destruct (two_fails l) eqn:Et; [|done].
    by rewrite (two_fails_all_true l Et) in Ha1. }
  destruct (level_after _ l); simpl_levels; [by rewrite andb_false_r|rewrite andb_true_r..].
  - by destruct (_ && all_true _).
  - destruct (_ && all_true (l ++ [s])) eqn:Ea; simpl_levels; [|done].
    apply andb_true_iff in Ea as [_ Ea]. by destruct (Hnf Ea) as [-> ->].
Qed.

(** A rule proposed as a trial becomes formal exactly when its first ten
    results are successes, and a pure reflex exactly when its first twenty are
    and its action does not modify code; it is disabled exactly when two
    results in a row were failures before it was a pure reflex.  One early
    failure blocks both promotions for ever. *)
Theorem evolution_exact r results :
  level r = L1Trial -> use_count r = 0 -> success_count r = 0 -> consecutive_fails r = 0 ->
  disabled r = false -> Z.of_nat (length results) <= u32_max ->
  rule_after r (evolve r results) results.
Proof.
  intros H1 H2 H3 H4 H5. induction results as [|s results IH] using rev_ind; intros Hlen.
  - unfold rule_after. cbn. rewrite H1, H2, H3, H4, H5. repeat split; try done.
    by destruct (is_code_modification (action r)).
  - rewrite length_app in Hlen. cbn in Hlen. unfold evolve. rewrite foldl_snoc.
    apply apply_result_after; [lia|]. apply IH. lia.
Qed.

(** ** Routing *)
Section routing.
Context `{HI : !HashIter string}.

(** An enabled rule of the base that applies to a signal by its key. *)
Definition applies (rt : ReflexRouter) (key_ok : string -> bool) (payload : string) (r : ReflexRule) : Prop :=
  exists key rs, rules rt !! key = Some rs /\ key_ok key = true /\ r ∈ rs /\ rule_matches rt payload r = true.

Lemma first_match_spec rt payload l :
  match first_match rt payload l with
  | Some a => exists r, r ∈ l /\ rule_matches rt payload r = true /\ a = reflex_action r
  | None => forall r, r ∈ l -> rule_matches rt payload r = false
  end.
Proof.
  induction l as [|r l IH]; cbn; [by intros ? ?%not_elem_of_nil|].
  destruct (rule_matches rt payload r) eqn:E; [exists r; set_solver|].
  destruct (first_match rt payload l).
  - destruct IH as (r' & ? & ?). exists r'. set_solver.
  - intros r' [->|?]%elem_of_cons; [done|by apply IH].
Qed.

Lemma first_entry_spec rt payload passes l :
  match first_entry rt payload passes l with
  | Some a => exists key rs r, (key, rs) ∈ l /\ passes key = true /\ r ∈ rs /\
                rule_matches rt payload r = true /\ a = reflex_action r
  | None => forall key rs r, (key, rs) ∈ l -> passes key = true -> r ∈ rs -> rule_matches rt payload r = false
  end.
Proof.
  induction l as [|[key rs] l IH]; cbn; [by intros ? ? ? ?%not_elem_of_nil|].
  pose proof (first_match_spec rt payload rs) as Hm.
  destruct (passes key) eqn:Ep; [destruct (first_match rt payload rs)|].
  - destruct Hm as (r0 & ? & ? & ?). exists key, rs, r0. set_solver.
  - destruct (first_entry rt payload passes l).
    + destruct IH as (k & rs' & r0 & ? & ?). exists k, rs', r0. set_solver.
    + intros k rs' r0 [[= -> ->]|?]%elem_of_cons; eauto.
  - destruct (first_entry rt payload passes l).
    + destruct IH as (k & rs' & r0 & ? & ?). exists k, rs', r0. set_solver.
    + intros k rs' r0 [[= -> ->]|?]%elem_of_cons; [congruence|]; eauto.
Qed.

(** [route] answers with the action of an enabled rule whose compiled pattern
    matches: one of the topic itself if there is one, otherwise one of a
    proper prefix of it, otherwise one of a wildcard; and it answers nothing
    only when no rule of the three kinds matches. *)
Lemma route_spec rt topic payload :
  let exact := applies rt (fun k => bool_decide (k = topic)) payload in
  let prefix := applies rt (prefix_key topic) payload in
  let wildcard := applies rt (wildcard_key topic) payload in
  match route rt topic payload with
  | Some a => exists r, a = reflex_action r /\
      (exact r \/ ((forall r', ~ exact r') /\ prefix r) \/
       ((forall r', ~ exact r' /\ ~ prefix r') /\ wildcard r))
  | None => forall r, ~ exact r /\ ~ prefix r /\ ~ wildcard r
  end.
Proof.
  cbv zeta. unfold route.
  assert (Hex : match (match rules rt !! topic with Some rs => first_match rt payload rs | None => None end) with
                | Some a => exists r, a = reflex_action r /\ applies rt (fun k => bool_decide (k = topic)) payload r
                | None => forall r, ~ applies rt (fun k => bool_decide (k = topic)) payload r
                end).
  { destruct (rules rt !! topic) as [rs|] eqn:E.
    - pose proof (first_match_spec rt payload rs) as Hm. destruct (first_match rt payload rs).
      + destruct Hm as (r0 & ? & ? & ?). exists r0. split; [done|]. exists topic, rs.
        by rewrite bool_decide_eq_true_2.
      + intros r (k & rs' & Hk & Heq & Hin & Hmt). apply bool_decide_eq_true in Heq as ->.
        simplify_eq. by rewrite (Hm r Hin) in Hmt.
    - intros r (k & rs' & Hk & Heq & _). apply bool_decide_eq_true in Heq as ->. congruence. }
  assert (Hen : forall passes,
            match first_entry rt payload passes (hiter (rules rt)) with
            | Some a => exists r, a = reflex_action r /\ applies rt passes payload r
            | None => forall r, ~ applies rt passes payload r
            end).
  { intros passes. pose proof (first_entry_spec rt payload passes (hiter (rules rt))) as Hm.
    destruct (first_entry _ _ _ _).
    - destruct Hm as (k & rs & r0 & Hk%elem_of_hiter & ? & ? & ? & ?). exists r0. split; [done|]. by exists k, rs.
    - intros r (k & rs & Hk%elem_of_hiter & Hp & Hin & Hmt). by rewrite (Hm k rs r Hk Hp Hin) in Hmt. }
  destruct (match rules rt !! topic with Some rs => _ | None => None end) as [a|].
  { destruct Hex as (r & ? & ?). exists r. auto. }
  pose proof (Hen (prefix_key topic)) as Hp. destruct (first_entry rt payload (prefix_key topic) _) as [a|].
  { destruct Hp as (r & ? & ?). exists r. auto. }
  pose proof (Hen (wildcard_key topic)) as Hw. destruct (first_entry rt payload (wildcard_key topic) _) as [a|].
  - destruct Hw as (r & ? & ?). exists r. split; [done|]. right. right. auto.
  - auto.
Qed.
End routing.

(** ** Experience log *)
Record ExperienceEntry := mkEntry {
  e_timestamp : Z;
  e_signal : string;
  e_signal_topic : string;
  e_level : ReflexLevel;
  e_action : string;
  e_result : bool;
  e_context : Value
}.

Record ProposedRule := mkProposed {
  pr_signal_topic : string;
  pattern_hint : string;
  pr_action : string;
  success_rate : f64;
  sample_count : nat
}.

Record ExperienceLog := mkLog { entries : list ExperienceEntry; max_entries : nat }.

Definition log_new : ExperienceLog := mkLog [] 1000.

Definition log_record (lg : ExperienceLog) (e : ExperienceEntry) : ExperienceLog :=
  mkLog ((if Nat.leb (max_entries lg) (length (entries lg)) then tail (entries lg) else entries lg) ++ [e])
        (max_entries lg).

Definition recent_entries (lg : ExperienceLog) (n : nat) : list ExperienceEntry := take n (rev (entries lg)).

Definition entries_for_topic (lg : ExperienceLog) (topic : string) : list ExperienceEntry :=
  filter (fun e => e_signal_topic e = topic) (entries lg).

Definition log_clear (lg : ExperienceLog) : ExperienceLog := mkLog [] (max_entries lg).

Definition outcome_word (e : ExperienceEntry) : string := if e_result e then "success" else "failure".

Definition recent_outcome_summary (lg : ExperienceLog) : string :=
  join_char ","%char (map outcome_word (take 5 (rev (entries lg)))).

(** [s.chars().take(n).collect()] on a UTF-8 string: a continuation byte
    belongs to the character before it. *)
Fixpoint take_chars (n : nat) (s : string) : string :=
  match s with
  | EmptyString => EmptyString
  | String c s' =>
      let b := Z.of_N (N_of_ascii c) in
      if (128 <=? b) && (b <? 192) then String c (take_chars n s')
      else match n with O => EmptyString | S n' => String c (take_chars n' s') end
  end.

(** [groups.entry(key).or_default().push(entry)] over the log. *)
Definition group_entries (l : list ExperienceEntry) : gmap (string * string) (list ExperienceEntry) :=
  foldl (fun m e => let key := (e_signal_topic e, e_action e) in
                    <[key := default [] (m !! key) ++ [e]]> m) ∅ l.

Definition propose_group (g : (string * string) * list ExperienceEntry) : option ProposedRule :=
  let '((topic, act), es) := g in
  let total := length es in
  let ok := filter (fun e => e_result e = true) es in
  let success_count := length ok in
  if Nat.leb 3 success_count && Nat.leb 3 total then
    Some (mkProposed topic
            (match ok with e :: _ => take_chars 50 (e_signal e) | [] => EmptyString end)
            act (fdiv (f64_of_Z (Z.of_nat success_count)) (f64_of_Z (Z.of_nat total))) total)
  else None.

(** The stable sort by decreasing success rate: an element goes after the
    later ones of a strictly greater rate. *)
Fixpoint insert_rate (x : ProposedRule) (l : list ProposedRule) : list ProposedRule :=
  match l with
  | [] => [x]
  | y :: l' => if fgt (success_rate y) (success_rate x) then y :: insert_rate x l' else x :: y :: l'
  end.
Definition sort_by_rate (l : list ProposedRule) : list ProposedRule := foldr insert_rate [] l.

Definition extract_patterns `{!HashIter (string * string)} (lg : ExperienceLog) : list ProposedRule :=
  sort_by_rate (omap propose_group (hiter (group_entries (entries lg)))).

Definition entries_of (topic act : string) (l : list ExperienceEntry) : list ExperienceEntry :=
  filter (fun e => (e_signal_topic e, e_action e) = (topic, act)) l.

Lemma group_entries_lookup l topic act :
  group_entries l !! (topic, act) =
    match entries_of topic act l with [] => None | es => Some es end.
Proof.
  unfold group_entries, entries_of. induction l as [|e l IH] using rev_ind; [done|].
  rewrite foldl_snoc, filter_app, filter_cons, filter_nil.
  destruct (decide ((e_signal_topic e, e_action e) = (topic, act))) as [Heq|Hne].
  - rewrite Heq, lookup_insert_eq, IH. by destruct (filter _ l).
  - rewrite lookup_insert_ne by done. rewrite IH, app_nil_r. done.
Qed.

Lemma sort_by_rate_perm l : sort_by_rate l ≡ₚ l.
Proof.
  induction l as [|x l IH]; [done|]. cbn.
  assert (Hins : forall k, insert_rate x k ≡ₚ x :: k).
  { intros k. induction k as [|y k IHk]; [done|]. cbn. case_match; [|done].
    rewrite IHk. apply Permutation_swap. }
  by rewrite Hins, IH.
Qed.

(** A rate between groups: no element precedes one of a strictly greater rate
    next to it. *)
Fixpoint rates_descend (l : list ProposedRule) : Prop :=
  match l with
  | x :: ((y :: _) as l') => fgt (success_rate y) (success_rate x) = false /\ rates_descend l'
  | _ => True
  end.

Lemma insert_rate_descend x l :
  (forall y, y ∈ l -> fgt (success_rate y) (success_rate x) = true -> fgt (success_rate x) (success_rate y) = false) ->
  rates_descend l -> rates_descend (insert_rate x l).
Proof.
  induction l as [|y l IH]; intros Has Hd; [done|]. cbn.
  destruct (fgt (success_rate y) (success_rate x)) eqn:E; [|done].
  assert (Hy : fgt (success_rate x) (success_rate y) = false) by (apply Has; [set_solver|done]).
  assert (Hrec : rates_descend (insert_rate x l)).
  { apply IH; [|by destruct l; [|apply Hd]]. intros z Hz. apply Has. set_solver. }
  destruct l as [|z l]; [by split|]. cbn in Hrec |- *.
  destruct (fgt (success_rate z) (success_rate x)); (split; [|done]); [apply Hd|done].
Qed.

Lemma fgt_asym x y : fgt x y = true -> fgt y x = false.
Proof.
  unfold fgt, SFltb. intros H. destruct (SFcompare y x) as [[]|] eqn:E; try done.
  assert (Hc : SFcompare x y = Some Gt).
  { clear H. revert E. destruct x as [[]|[]| |[] m e], y as [[]|[]| |[] m' e']; cbn; try done.
    - intros [= E]. destruct (Z.compare_spec e' e); destruct (Z.compare_spec e e'); subst; try lia; try done.
      destruct (Pos.compare_cont Eq m' m) eqn:P; try done. cbn in E.
      change (Pos.compare_cont Eq m' m) with (Pos.compare m' m) in P.
      change (Pos.compare_cont Eq m m') with (Pos.compare m m').
      by rewrite Pos.compare_antisym, P.
    - intros [= E]. destruct (Z.compare_spec e' e); destruct (Z.compare_spec e e'); subst; try lia; try done.
      change (Pos.compare_cont Eq m' m) with (Pos.compare m' m) in E.
      change (Pos.compare_cont Eq m m') with (Pos.compare m m').
      by rewrite Pos.compare_antisym, E. }
  by rewrite Hc.
Qed.

Definition log_run (es : list ExperienceEntry) : ExperienceLog := foldl log_record log_new es.

(** The log holds the last thousand entries. *)
Lemma log_run_entries es : log_run es = mkLog (drop (length es - 1000) es) 1000.
Proof.
  induction es as [|e es IH] using rev_ind; [done|].
  unfold log_run in *. rewrite foldl_snoc, IH, length_app. cbn [length]. unfold log_record.
  cbn [entries max_entries]. f_equal. rewrite length_drop.
  destruct (Nat.leb 1000 (length es - (length es - 1000))) eqn:E; zbool.
  - rewrite drop_app_le by lia.
    replace (length es + 1 - 1000)%nat with ((length es - 1000) + 1)%nat by lia.
    rewrite <- drop_drop. by destruct (drop (length es - 1000) es).
  - replace (length es + 1 - 1000)%nat with 0%nat by lia.
    by replace (length es - 1000)%nat with 0%nat by lia.
Qed.

Definition ok_entries (topic act : string) (l : list ExperienceEntry) : list ExperienceEntry :=
  filter (fun e => e_result e = true) (entries_of topic act l).

(** The rule proposed for a topic and an action. *)
Definition proposal (topic act : string) (l : list ExperienceEntry) : ProposedRule :=
  mkProposed topic
    (match ok_entries topic act l with e :: _ => take_chars 50 (e_signal e) | [] => EmptyString end) act
    (fdiv (f64_of_Z (Z.of_nat (length (ok_entries topic act l))))
          (f64_of_Z (Z.of_nat (length (entries_of topic act l)))))
    (length (entries_of topic act l)).

Lemma propose_group_eq topic act l :
  propose_group ((topic, act), entries_of topic act l) =
    if Nat.leb 3 (length (ok_entries topic act l)) then Some (proposal topic act l) else None.
Proof.
  unfold propose_group. fold (ok_entries topic act l).
  assert (Hle : (length (ok_entries topic act l) <= length (entries_of topic act l))%nat)
    by apply length_filter.
  destruct (Nat.leb 3 (length (ok_entries topic act l))) eqn:E; zbool; [|done].
  by rewrite (proj2 (Nat.leb_le 3 (length (entries_of topic act l)))) by lia.
Qed.

(** Whatever the order of the hash map, the patterns extracted from a log are
    one per topic and action with at least three successes among the last
    thousand entries, by decreasing success rate. *)
Theorem extract_patterns_exact `{HI : !HashIter (string * string)} es :
  let kept := drop (length es - 1000) es in
  let found := extract_patterns (log_run es) in
  (forall p, p ∈ found <->
     exists topic act, (3 <= length (ok_entries topic act kept))%nat /\ p = proposal topic act kept) /\
  NoDup (map (fun p => (pr_signal_topic p, pr_action p)) found) /\
  rates_descend found.
Proof.
  cbv zeta. unfold extract_patterns. rewrite log_run_entries. cbn [entries].
  set (kept := drop _ es).
  assert (Hg : forall topic act xs, ((topic, act), xs) ∈ hiter (group_entries kept) ->
            xs = entries_of topic act kept).
  { intros topic act xs Hx%elem_of_hiter. rewrite group_entries_lookup in Hx. by case_match; simplify_eq. }
  split; [|split].
  - intros p. rewrite sort_by_rate_perm, list_elem_of_omap. split.
    + intros ([[topic act] xs] & Hin & Hp). rewrite (Hg _ _ _ Hin), propose_group_eq in Hp.
      exists topic, act. by case_match; zbool; simplify_eq.
    + intros (topic & act & Hlen & ->). exists ((topic, act), entries_of topic act kept). split.
      * apply elem_of_hiter. rewrite group_entries_lookup.
        assert (Hle : (length (ok_entries topic act kept) <= length (entries_of topic act kept))%nat)
          by apply length_filter.
        destruct (entries_of topic act kept); [cbn in Hle; lia|done].
      * rewrite propose_group_eq. by rewrite (proj2 (Nat.leb_le 3 _)).
  - rewrite sort_by_rate_perm.
    apply (sublist_NoDup _ _ (NoDup_hiter_fst (group_entries kept))).
    induction (hiter (group_entries kept)) as [|[[topic act] xs] l IH]; [constructor|].
    rewrite fmap_cons. cbn [omap list_omap fst].
    assert (Hl : map (fun p => (pr_signal_topic p, pr_action p)) (omap propose_group l) `sublist_of` l.*1)
      by (apply IH; intros; apply Hg; set_solver).
    unfold propose_group at 1. destruct (Nat.leb 3 _ && Nat.leb 3 _);
      [by apply sublist_skip|by apply sublist_cons].
  - induction (omap propose_group _) as [|p l IH]; [done|]. cbn.
    apply insert_rate_descend; [|done]. intros y _. apply fgt_asym.
Qed.

(** ** The rule base of the kernel *)

(** [s.replace('/', "_")]. *)
Fixpoint underscores (s : string) : string :=
  match s with
  | EmptyString => EmptyString
  | String c s' => String (if bool_decide (c = "/"%char) then "_"%char else c) (underscores s')
  end.

(** The rule the kernel makes of a proposal. *)
Definition learned_rule `{RegexEngine} (p : ProposedRule) : ReflexRule :=
  mkRule ("learned_" +:+ underscores (pr_signal_topic p) +:+ "_" +:+ underscores (pr_action p))
    ("(?i)" +:+ regex_escape (pattern_hint p))
    (pr_signal_topic p) L1Trial (pr_action p)
    (Object [("source", Str "experience"); ("success_rate", Number (Float (success_rate p)));
             ("sample_count", Number (PosInt (Z.of_nat (sample_count p))))])
    "experience" 0 0 0 false.

(** One firing of the experience timer: proposals that modify code are
    skipped. *)
Definition experience_tick `{RegexEngine, !HashIter (string * string)} (lg : ExperienceLog) (rt : ReflexRouter)
  : ReflexRouter :=
  foldl (fun rt p => if is_code_modification (pr_action p) then rt else add_rule rt (learned_rule p))
    rt (extract_patterns lg).

Inductive reflex_op :=
| OPropose (id pat topic act : string) (ps : Value)
| OTick (lg : ExperienceLog)
| OResult (id : string) (success : bool).

Section safety.
Context `{RX : RegexEngine} `{HI : !HashIter string} `{HI2 : !HashIter (string * string)}.

Definition reflex_step (rt : ReflexRouter) (op : reflex_op) : ReflexRouter :=
  match op with
  | OPropose id pat topic act ps => propose_rule rt id pat topic act ps
  | OTick lg => experience_tick lg rt
  | OResult id success => (record_result rt id success).1
  end.

(** No rule that modifies code is a pure reflex. *)
Definition rule_safe (r : ReflexRule) : Prop := level r = L0 -> is_code_modification (action r) = false.
Definition router_safe (rt : ReflexRouter) : Prop := map_Forall (fun _ rs => Forall rule_safe rs) (rules rt).

Lemma add_rule_safe rt r : rule_safe r -> router_safe rt -> router_safe (add_rule rt r).
Proof.
  intros Hr Hrt. unfold add_rule. destruct (regex_new (pattern r)); [|done].
  apply map_Forall_insert_2; [|done]. apply Forall_app. split; [|by constructor].
  destruct (rules rt !! signal_topic r) eqn:E; [|constructor]. by apply (Hrt _ _ E).
Qed.

Lemma apply_result_safe s r : rule_safe r -> rule_safe (apply_result s r).1.
Proof.
  unfold rule_safe. destruct (apply_result_fields s r) as (_ & _ & _ & -> & _ & _ & _ & _ & -> & _).
  intros Hr. destruct (level r); [by auto|..].
  - by destruct (_ && _).
  - destruct (is_code_modification (action r)); cbn; done.
Qed.

Lemma update_first_safe id s l l' b :
  update_first id s l = Some (l', b) -> Forall rule_safe l -> Forall rule_safe l'.
Proof.
  revert l' b. induction l as [|r l IH]; intros l' b; [done|]. cbn. case_bool_decide.
  - pose proof (apply_result_safe s r). destruct (apply_result s r) as [r' e].
    intros [= <- <-] [? ?]%Forall_cons. constructor; auto.
  - destruct (update_first id s l) as [[l1 b1]|] eqn:E; [|done].
    intros [= <- <-] [? ?]%Forall_cons. constructor; [done|]. by eapply IH.
Qed.

Lemma record_result_safe rt id s : router_safe rt -> router_safe (record_result rt id s).1.
Proof.
  intros Hrt. unfold record_result.
  assert (Hl : forall k rs, (k, rs) ∈ hiter (rules rt) -> Forall rule_safe rs)
    by (intros k rs Hk%elem_of_hiter; by apply (Hrt _ _ Hk)).
  induction (hiter (rules rt)) as [|[k rs] l IH]; [done|]. cbn.
  destruct (update_first id s rs) as [[rs' b]|] eqn:E.
  - apply map_Forall_insert_2; [|done]. eapply update_first_safe; [done|]. apply (Hl k). set_solver.
  - apply IH. intros k' rs'' ?. apply (Hl k'). set_solver.
Qed.

Lemma reflex_step_safe rt op : router_safe rt -> router_safe (reflex_step rt op).
Proof.
  intros Hrt. destruct op as [id pat topic act ps|lg|id s]; cbn.
  - by apply add_rule_safe.
  - unfold experience_tick. revert rt Hrt. induction (extract_patterns lg) as [|p l IH]; intros rt Hrt; [done|].
    cbn. apply IH. case_match; [done|]. by apply add_rule_safe.
  - by apply record_result_safe.
Qed.

(** From the built-in rules, whatever is proposed, learned and reported, a
    signal answered without the language model never triggers an action that
    modifies code. *)
Theorem direct_reflex_safe ops topic payload act ps :
  route (foldl reflex_step (with_rules builtin_reflex_rules) ops) topic payload = Some (Direct act ps) ->
  is_code_modification act = false.
Proof.
  assert (Hsafe : router_safe (foldl reflex_step (with_rules builtin_reflex_rules) ops)).
  { assert (H0 : router_safe (with_rules builtin_reflex_rules)).
    { unfold with_rules. cbn [foldl builtin_reflex_rules]. do 2 (apply add_rule_safe; [done|]). apply map_Forall_empty. }
    revert H0. generalize (with_rules builtin_reflex_rules).
    induction ops as [|op ops IH]; intros rt Hrt; [done|]. by apply IH, reflex_step_safe. }
  set (rt := foldl _ _ _) in *. intros Hr. pose proof (route_spec rt topic payload) as Hs.
  cbv zeta in Hs. rewrite Hr in Hs. destruct Hs as (r & Ha & Hor).
  assert (exists passes, applies rt passes payload r) as (passes & key & rs & Hk & _ & Hin & _)
    by (destruct Hor as [?|[[_ ?]|[_ ?]]]; eauto).
  pose proof (proj1 (Forall_forall _ _) (Hsafe _ _ Hk) r Hin) as Hrs.
  unfold reflex_action in Ha. destruct (level r) eqn:El; simplify_eq. by apply Hrs.
Qed.
End safety.

(** An engine to evaluate with: a pattern is a literal, [".*"] matches all. *)
Definition literal_engine : RegexEngine :=
  {| regex_new := fun p => Some (if bool_decide (p = ".*") then fun _ => true else str_contains p);
     regex_escape := fun s => s |}.

Definition trial_rule : ReflexRule :=
  mkRule "r" "err" "sensory/nose" L1Trial "kernel/notify" Null "learned" 0 0 0 false.

Lemma evolution_exact_witness :
  level (evolve trial_rule (replicate 20 true)) = L0 /\
  disabled (evolve trial_rule [true; false; false]) = true.
Proof.
  split.
  - destruct (evolution_exact trial_rule (replicate 20 true)) as (_ & _ & _ & _ & _ & _ & _ & _ & E & _);
      [reflexivity..|vm_compute; congruence|]. exact E.
  - destruct (evolution_exact trial_rule [true; false; false]) as (_ & _ & _ & _ & _ & _ & _ & _ & _ & E);
      [reflexivity..|vm_compute; congruence|]. exact E.
Defined.

Lemma direct_reflex_safe_witness : is_code_modification "kernel/log" = false.
Proof.
  apply (@direct_reflex_safe literal_engine (gmap_iter _) (gmap_iter _) [OResult "log_file_change" true]
           "sensory/eye/read" "x" "kernel/log"
           (Object [("action", Str "log_file_change"); ("level", Str "debug")])).
  vm_compute. reflexivity.
Defined.
