(* ===== verification/TokenBudget.v ===== *)
(** * Token budget (sampler/token_budget.rs)

    The context window table, the budget of the current model and the
    auto-compaction threshold, with the percentages in IEEE arithmetic.
    [usize] is 64 bits wide. *)

From S2P Require Import Prelude RustStr F64.
Local Open Scope Z_scope.

Definition MODEL_CONTEXT_WINDOWS : list (string * Z) :=
  [("claude-3.5-sonnet", 200000); ("claude-3-opus", 200000); ("claude-3-haiku", 200000);
   ("gpt-4o", 128000); ("gpt-4-turbo", 128000); ("gpt-4", 8192); ("gpt-3.5-turbo", 16385);
   ("deepseek-chat", 64000); ("deepseek-coder", 16384)].

Definition DEFAULT_CONTEXT_WINDOW : Z := 128000.
Definition AUTOCOMPACT_THRESHOLD : f64 := f64_lit 8 10.
Definition SYSTEM_BUFFER : f64 := f64_lit 1 10.

Record TokenBudgetManager := mkBudget {
  model : string;
  context_window : Z;
  tokens_used : Z;
  model_windows : gmap string Z
}.

Record BudgetStatus := mkBudgetStatus {
  st_context_window : Z;
  st_tokens_used : Z;
  tokens_available : Z;
  usage_ratio : f64;
  should_compact : bool;
  tokens_until_compact : Z
}.

(** [x as i64] on a 64-bit unsigned integer. *)
Definition as_i64 (n : Z) : Z := let m := wrap 64 n in if m <? 2 ^ 63 then m else m - 2 ^ 64.
(** A signed 64-bit subtraction, wrapping. *)
Definition i64_sub (x y : Z) : Z := as_i64 (x - y).

Section budget.
Context `{HI : !HashIter string}.

Definition resolve_context_window (windows : gmap string Z) (m : string) : Z :=
  match windows !! m with
  | Some w => w
  | None =>
      match filter (fun e => starts_with e.1 m = true) (hiter windows) with
      | (_, w) :: _ => w
      | [] => DEFAULT_CONTEXT_WINDOW
      end
  end.

Definition budget_new (m : string) : TokenBudgetManager :=
  let windows := foldl (fun t e => <[e.1 := e.2]> t) ∅ MODEL_CONTEXT_WINDOWS in
  mkBudget m (resolve_context_window windows m) 0 windows.

Definition switch_model (b : TokenBudgetManager) (m : string) : TokenBudgetManager :=
  mkBudget m (resolve_context_window (model_windows b) m) (tokens_used b) (model_windows b).
End budget.

Definition budget_status (b : TokenBudgetManager) : BudgetStatus :=
  let reserved := f64_to_u64 (fmul (f64_of_Z (context_window b)) SYSTEM_BUFFER) in
  let available := sat_sub (context_window b) reserved in
  let ratio := if 0 <? available then fdiv (f64_of_Z (tokens_used b)) (f64_of_Z available) else f64_of_Z 1 in
  let compact_threshold := f64_to_u64 (fmul (f64_of_Z available) AUTOCOMPACT_THRESHOLD) in
  mkBudgetStatus (context_window b) (tokens_used b) (sat_sub available (tokens_used b)) ratio
    (compact_threshold <=? tokens_used b) (i64_sub (as_i64 compact_threshold) (as_i64 (tokens_used b))).

Definition record_usage (b : TokenBudgetManager) (input_tokens output_tokens : Z) : TokenBudgetManager :=
  mkBudget (model b) (context_window b) (u64_add (tokens_used b) (u64_add input_tokens output_tokens)) (model_windows b).

Definition reset_after_compact (b : TokenBudgetManager) (new_usage : Z) : TokenBudgetManager :=
  mkBudget (model b) (context_window b) new_usage (model_windows b).

Definition can_fit (b : TokenBudgetManager) (additional_tokens : Z) : bool :=
  additional_tokens <=? tokens_available (budget_status b).

Definition remaining_capacity (b : TokenBudgetManager) : Z := tokens_available (budget_status b).

(** ** Properties *)

(** Another enumeration of the entries of a map. *)
Definition rev_iter K `{Countable K} : HashIter K :=
  {| hiter := fun V (m : gmap K V) => rev (map_to_list m);
     hiter_perm := fun V m => symmetry (Permutation_rev (map_to_list m)) |}.

(** The window of a model that is in the table is the one of the table; the
    window of a dated name is the one of some entry it starts with.  Where two
    entries are prefixes of the name, as ["gpt-4o"] and ["gpt-4"] of
    ["gpt-4o-mini"], the budget depends on the order of the hash map: 128000
    with one order and 8192 with another. *)
Theorem context_window_resolution :
  (forall (HI : HashIter string) m w, (m, w) ∈ MODEL_CONTEXT_WINDOWS -> context_window (@budget_new HI m) = w) /\
  (exists HI1 HI2 : HashIter string,
     context_window (@budget_new HI1 "gpt-4o-mini") = 128000 /\
     context_window (@budget_new HI2 "gpt-4o-mini") = 8192).
Proof.
  split.
  - intros HI m w Hin. apply list_elem_of_In in Hin. cbn in Hin. cbn [context_window budget_new].
    unfold resolve_context_window.
    repeat (destruct Hin as [[= <- <-]|Hin]; [vm_compute (_ !! _); reflexivity|]). done.
  - first [ exists (gmap_iter _), (rev_iter _); split; vm_compute; reflexivity
          | exists (rev_iter _), (gmap_iter _); split; vm_compute; reflexivity ].
Qed.

(** For each window of the table: nine tenths are available, rounded up, and
    compaction is advised at eight tenths of those, rounded down. *)
Lemma table_thresholds :
  map (fun e => let st := budget_status (mkBudget e.1 e.2 0 ∅) in
                (tokens_available st, tokens_until_compact st)) MODEL_CONTEXT_WINDOWS =
  map (fun e => let a := e.2 - e.2 / 10 in (a, 8 * a / 10)) MODEL_CONTEXT_WINDOWS.
Proof. vm_compute. reflexivity. Qed.

(** What fits after some usage is what the window leaves. *)
Lemma can_fit_iff b n :
  can_fit b n = true <->
  n <= Z.max 0 (Z.max 0 (context_window b - f64_to_u64 (fmul (f64_of_Z (context_window b)) SYSTEM_BUFFER)) - tokens_used b).
Proof. unfold can_fit. rewrite Z.leb_le. done. Qed.
