(* ===== verification/Kernel.v ===== *)
(** * The kernel: message dispatch and health checks (kernel/mod.rs)

    [handle_incoming] with every arm of its dispatch, and the timers of the
    event loop, over the components modelled in the other files.  A handler is
    a program of the monad [M]: it changes the kernel, hands messages to the
    transport and may stop with an error, keeping what it did before.

    What a handler reads from outside is in [Env]: the clocks, the identifiers
    and time stamps of the messages it builds, and whether the transport takes
    a message (its channels may be closed).  Episodic memory, which nothing
    here reads, is left out, and so is the back-pressure delay: it only makes
    the kernel wait. *)

From S2P Require Import Prelude RustStr F64 Json Topic Node Frame Sequence Broker Registry.
From S2P Require Import Autonomic Param Reflex TokenBudget.
Local Open Scope Z_scope.

(** MessagePack and JSON text of [serde_json::Value], third-party codecs. *)
Class ValueCodec := {
  vc_rmp :: RmpCodec;
  value_to_vec : Value -> result rmp_error bytes;
  value_from_read : bytes -> result rmp_error Value;
  value_to_string : Value -> string
}.

Inductive AgentType := Primary | GeneralPurpose | Explore | Plan | Codex.

(** [AgentType::from_str], which cannot fail. *)
Definition parse_agent_type (s : string) : AgentType :=
  if bool_decide (s = "primary") then Primary
  else if bool_decide (s = "general-purpose") || bool_decide (s = "general") then GeneralPurpose
  else if bool_decide (s = "explore") then Explore
  else if bool_decide (s = "plan") then Plan
  else if bool_decide (s = "codex") then Codex
  else GeneralPurpose.

(** [format!("{:?}", t)]. *)
Definition agent_type_debug (t : AgentType) : string :=
  match t with
  | Primary => "Primary" | GeneralPurpose => "GeneralPurpose" | Explore => "Explore"
  | Plan => "Plan" | Codex => "Codex"
  end.

Record IncomingMessage := mkIncoming { identity : bytes; message : Message }.

(** What a handler does to the outside: a message for one node, a message for
    all, a sub-agent started in a task of its own. *)
Inductive output :=
| SendTo (identity : bytes) (frames : list bytes)
| Broadcast (frames : list bytes)
| Launch (id parent : NodeId) (t : AgentType) (model : option string) (task : string).

Record Metrics := mkMetrics {
  messages_received : Z;
  messages_success : Z;
  sequence_errors : Z;
  latencies : list f64
}.

Record KernelConfig := mkKernelConfig {
  heartbeat_timeout_secs : Z;
  max_subagents : nat;
  runtime_config_set : bool
}.

Record Kernel := mkKernel {
  config : KernelConfig;
  broker : Broker;
  registry : Registry;
  sequence_checker : SequenceChecker;
  param_server : ParamServer;
  autonomic : AutonomicNervousSystem;
  reflex_router : ReflexRouter;
  experience_log : ExperienceLog;
  token_budget : TokenBudgetManager;
  node_heartbeats : gmap string Z;
  metrics : Metrics;
  sent_count : Z;
  registration_count : nat
}.

(** ** Field updates *)
Definition set_broker (f : Broker -> Broker) (k : Kernel) : Kernel :=
  mkKernel (config k) (f (broker k)) (registry k) (sequence_checker k) (param_server k) (autonomic k)
    (reflex_router k) (experience_log k) (token_budget k) (node_heartbeats k) (metrics k) (sent_count k)
    (registration_count k).
Definition set_registry (f : Registry -> Registry) (k : Kernel) : Kernel :=
  mkKernel (config k) (broker k) (f (registry k)) (sequence_checker k) (param_server k) (autonomic k)
    (reflex_router k) (experience_log k) (token_budget k) (node_heartbeats k) (metrics k) (sent_count k)
    (registration_count k).
Definition set_checker (c : SequenceChecker) (k : Kernel) : Kernel :=
  mkKernel (config k) (broker k) (registry k) c (param_server k) (autonomic k)
    (reflex_router k) (experience_log k) (token_budget k) (node_heartbeats k) (metrics k) (sent_count k)
    (registration_count k).
Definition set_params (f : ParamServer -> ParamServer) (k : Kernel) : Kernel :=
  mkKernel (config k) (broker k) (registry k) (sequence_checker k) (f (param_server k)) (autonomic k)
    (reflex_router k) (experience_log k) (token_budget k) (node_heartbeats k) (metrics k) (sent_count k)
    (registration_count k).
Definition set_autonomic (f : AutonomicNervousSystem -> AutonomicNervousSystem) (k : Kernel) : Kernel :=
  mkKernel (config k) (broker k) (registry k) (sequence_checker k) (param_server k) (f (autonomic k))
    (reflex_router k) (experience_log k) (token_budget k) (node_heartbeats k) (metrics k) (sent_count k)
    (registration_count k).
Definition set_router (f : ReflexRouter -> ReflexRouter) (k : Kernel) : Kernel :=
  mkKernel (config k) (broker k) (registry k) (sequence_checker k) (param_server k) (autonomic k)
    (f (reflex_router k)) (experience_log k) (token_budget k) (node_heartbeats k) (metrics k) (sent_count k)
    (registration_count k).
Definition set_log (f : ExperienceLog -> ExperienceLog) (k : Kernel) : Kernel :=
  mkKernel (config k) (broker k) (registry k) (sequence_checker k) (param_server k) (autonomic k)
    (reflex_router k) (f (experience_log k)) (token_budget k) (node_heartbeats k) (metrics k) (sent_count k)
    (registration_count k).
Definition set_heartbeats (f : gmap string Z -> gmap string Z) (k : Kernel) : Kernel :=
  mkKernel (config k) (broker k) (registry k) (sequence_checker k) (param_server k) (autonomic k)
    (reflex_router k) (experience_log k) (token_budget k) (f (node_heartbeats k)) (metrics k) (sent_count k)
    (registration_count k).
Definition set_metrics (f : Metrics -> Metrics) (k : Kernel) : Kernel :=
  mkKernel (config k) (broker k) (registry k) (sequence_checker k) (param_server k) (autonomic k)
    (reflex_router k) (experience_log k) (token_budget k) (node_heartbeats k) (f (metrics k)) (sent_count k)
    (registration_count k).
Definition set_sent (n : Z) (k : Kernel) : Kernel :=
  mkKernel (config k) (broker k) (registry k) (sequence_checker k) (param_server k) (autonomic k)
    (reflex_router k) (experience_log k) (token_budget k) (node_heartbeats k) (metrics k) n
    (registration_count k).
Definition set_count (n : nat) (k : Kernel) : Kernel :=
  mkKernel (config k) (broker k) (registry k) (sequence_checker k) (param_server k) (autonomic k)
    (reflex_router k) (experience_log k) (token_budget k) (node_heartbeats k) (metrics k) (sent_count k) n.

(** Counters of [MetricsCollector]; at most ten thousand latencies are kept. *)
Definition record_received (m : Metrics) : Metrics :=
  mkMetrics (u64_add (messages_received m) 1) (messages_success m) (sequence_errors m) (latencies m).
Definition record_sequence_error (m : Metrics) : Metrics :=
  mkMetrics (messages_received m) (messages_success m) (u64_add (sequence_errors m) 1) (latencies m).
Definition record_success (latency_ms : f64) (m : Metrics) : Metrics :=
  let l := latencies m ++ [latency_ms] in
  mkMetrics (messages_received m) (u64_add (messages_success m) 1) (sequence_errors m)
    (drop (length l - Z.to_nat 10000) l).

Definition kernel_new `{RegexEngine, !HashIter string} (cfg : KernelConfig) : Kernel :=
  mkKernel cfg broker_new registry_new (checker_new 100) params_new
    (ans_new (heartbeat_timeout_secs cfg) 3) (with_rules builtin_reflex_rules) log_new
    (budget_new "claude-3.5-sonnet") ∅ (mkMetrics 0 0 0 []) 0 0.

(** ** The monad of handlers *)
Inductive kerror (E : Type) := EFrame (e : FrameError E) | EClosed | ESubagentLimit.
Arguments EFrame {E} e.
Arguments EClosed {E}.
Arguments ESubagentLimit {E}.

Record Env := mkEnv {
  utc_now : Z;
  monitor_now : Z;
  autonomic_now : Z;
  latency_ms : f64;
  ids : nat -> string * string;
  fresh_id : string;
  accept : output -> bool
}.

Declare Scope kernel_scope.
Delimit Scope kernel_scope with kernel.

Section handlers.
Context `{VC : ValueCodec} `{RX : RegexEngine}.
Context `{HI : !HashIter string} `{HI2 : !HashIter (string * string)}.
Context (env : Env).

Definition M (A : Type) : Type := Kernel -> Kernel * list output * result (kerror rmp_error) A.

Definition ret {A} (a : A) : M A := fun k => (k, [], Ok a).
Definition mbind {A B} (m : M A) (f : A -> M B) : M B := fun k =>
  match m k with
  | (k1, o1, Ok a) => let '(k2, o2, r) := f a k1 in (k2, o1 ++ o2, r)
  | (k1, o1, Err e) => (k1, o1, Err e)
  end.
Definition modify (f : Kernel -> Kernel) : M unit := fun k => (f k, [], Ok tt).
Definition gets {A} (f : Kernel -> A) : M A := fun k => (k, [], Ok (f k)).
Definition lift {A} (r : result (FrameError rmp_error) A) : M A := fun k => (k, [], map_err EFrame r).
(** A message is handed to the transport, or its channel is closed. *)
Definition emit (o : output) : M unit := fun k =>
  if accept env o then (k, [o], Ok tt) else (k, [], Err EClosed).
(** A task is started; this does not go through the transport. *)
Definition launch (o : output) : M unit := fun k => (k, [o], Ok tt).
Definition fail {A} (e : kerror rmp_error) : M A := fun k => (k, [], Err e).
(** [if let Err(e) = m { warn!(..) }]. *)
Definition try_ {A} (m : M A) : M unit := fun k => let '(k1, o1, _) := m k in (k1, o1, Ok tt).
Fixpoint for_each {A} (f : A -> M unit) (l : list A) : M unit :=
  match l with
  | [] => ret tt
  | x :: l => mbind (f x) (fun _ => for_each f l)
  end.

#[local] Notation "'let*' x ':=' m 'in' k" := (mbind m (fun x => k))
  (at level 10, x name, m at level 200, k at level 200).
#[local] Notation "m ';>' k" := (mbind m (fun _ => k)) (at level 199, right associativity).

(** ** Messages *)
Definition field (v : Value) (key dflt : string) : string := default dflt (as_str_opt (vindex v key)).
Definition field_opt (v : Value) (key : string) : option string := as_str_opt (vindex v key).

Definition payload_of (msg : Message) : M Value := lift (decode_payload value_from_read msg).

(** The [i]-th message a handler builds. *)
Definition kernel_message (i : nat) (t : Topic) (v : Value) : M Message :=
  lift (new_message (ids env i).1 (ids env i).2 t "kernel" (value_to_vec v)).
Definition kernel_reply (i : nat) (t : Topic) (to : string) (v : Value) : M Message :=
  lift (new_reply (ids env i).1 (ids env i).2 t "kernel" to (value_to_vec v)).

Definition json_strings (l : list string) : Value := Array (map Str l).
Definition json_publisher (p : PublisherInfo) : Value :=
  Object [("node_id", Str (p_node_id p)); ("pub_addr", Str (pub_addr p)); ("topics", json_strings (topics p))].
Definition json_publishers (pattern : string) (ps : list PublisherInfo) : Value :=
  Object [("pattern", Str pattern); ("publishers", Array (map json_publisher ps))].
Definition json_opt (o : option string) : Value := match o with Some s => Str s | None => Null end.

(** ** Routing to subscribers *)
Definition route_and_forward (msg : Message) : M unit :=
  let* targets := gets (fun k => find_targets (broker k) msg) in
  match targets with
  | [] => ret tt
  | _ =>
      let* frames := lift (encode msg) in
      for_each (fun t => emit (SendTo t.1 frames)) targets ;>
      modify (fun k => set_sent (u64_add (sent_count k) 1) k)
  end.

Definition send_ack (original : Message) : M unit :=
  let* ack := kernel_reply 0 sys_ack (msg_id (header original))
    (Object [("ack_for", Str (msg_id (header original))); ("topic", Str (as_str (topic original)));
             ("status", Str "received")]) in
  let* frames := lift (encode ack) in
  emit (Broadcast frames).

Definition ack_if_required (msg : Message) : M unit :=
  if requires_ack (header msg) then try_ (send_ack msg) else ret tt.

(** ** Registration *)
Definition atomic_register_node (n : NodeId) (t : NodeType) (subs : list string) (ident : bytes) (k : Kernel) : Kernel :=
  set_broker (fun b => foldl (fun b p => subscribe b n p) (register_identity b n ident) subs)
    (set_registry (fun r => register r (utc_now env) n t subs) k).

Definition atomic_deregister_node (n : NodeId) (k : Kernel) : Kernel :=
  set_broker (fun b => deregister_identity b n) (set_registry (fun r => deregister r n) k).

(** [Kernel::register_node], called by the launcher. *)
Definition register_node (n : NodeId) (t : NodeType) (subs : list string) (ident : bytes) (k : Kernel) : Kernel :=
  set_broker (fun b => foldl (fun b p => subscribe b n p) (register_identity b n ident) subs)
    (set_registry (fun r => register r (utc_now env) n t subs) k).

Definition deregister_node (n : NodeId) (k : Kernel) : Kernel := atomic_deregister_node n k.

(** The nodes interested in a new publisher are told about it; a failure to
    reach one does not stop the others. *)
Definition announce_publisher (n : NodeId) (addr : string) (published : list string) : M unit :=
  let* interested := gets (fun k => find_subscribers_for_publisher (broker k) published) in
  match interested with
  | [] => ret tt
  | _ =>
      let* change := kernel_message 1 sys_publisher_change
        (Object [("type", Str "publisher_change");
                 ("publishers", Array [json_publishers (join_char ","%char published)
                                         [mkPublisherInfo n addr published]])]) in
      let* frames := lift (encode change) in
      for_each (fun s =>
        if bool_decide (s = n) then ret tt
        else let* i := gets (fun k => get_identity (broker k) s) in
             match i with
             | Some ident => try_ (emit (SendTo ident frames))
             | None => ret tt
             end) interested
  end.

Definition register_service (payload : Value) (n : NodeId) : M unit :=
  match field_opt payload "rep_addr", field_opt payload "service_name" with
  | Some rep, Some name =>
      modify (set_broker (fun b => register_service_provider b (mkServiceProviderInfo n rep name)))
  | _, _ => ret tt
  end.

(** The publishers of what the new node subscribes to are sent to it. *)
Definition send_discovery (inc : IncomingMessage) (subs : list string) : M unit :=
  let* found := gets (fun k => find_publishers_for_subscriptions (broker k) subs) in
  match found with
  | [] => ret tt
  | _ =>
      let* reply := kernel_reply 2 sys_register (msg_id (header (message inc)))
        (Object [("type", Str "publisher_discovery");
                 ("publishers", Array (map (fun e => json_publishers e.1 e.2) found))]) in
      let* frames := lift (encode reply) in
      emit (SendTo (identity inc) frames)
  end.

Definition on_register (inc : IncomingMessage) : M unit :=
  let* payload := payload_of (message inc) in
  let n := field payload "node_id" "" in
  let t := parse_node_type (field payload "node_type" "agent") in
  let subs := string_list (vindex payload "subscriptions") in
  let addr := field payload "pub_addr" "" in
  let published := string_list (vindex payload "published_topics") in
  ack_if_required (message inc) ;>
  modify (fun k => set_checker (reset (sequence_checker k) n) k) ;>
  modify (set_heartbeats <[n := monitor_now env]>) ;>
  modify (atomic_register_node n t subs (identity inc)) ;>
  (if negb (bool_decide (addr = "")) && negb (bool_decide (published = [])) then
     modify (set_broker (fun b => register_publisher b (mkPublisherInfo n addr published))) ;>
     announce_publisher n addr published
   else ret tt) ;>
  register_service payload n ;>
  modify (set_metrics (record_success (latency_ms env))) ;>
  modify (set_autonomic (register_agent (autonomic_now env) n)) ;>
  modify (fun k => set_count (len (registry k)) k) ;>
  send_discovery inc subs.

Definition on_heartbeat (inc : IncomingMessage) : M unit :=
  let* payload := payload_of (message inc) in
  let n := field payload "node_id" "" in
  modify (set_registry (fun r => heartbeat r (utc_now env) n)) ;>
  modify (set_autonomic (record_heartbeat (autonomic_now env) n)) ;>
  ack_if_required (message inc).

Definition on_deregister (inc : IncomingMessage) : M unit :=
  let* payload := payload_of (message inc) in
  let n := field payload "node_id" "" in
  modify (deregister_node n) ;>
  modify (set_autonomic (unregister_agent n)).

(** ** Sub-agents *)
Definition request_spawn_subagent (parent : NodeId) (t : AgentType) (model : option string) (task : string) : M unit :=
  let* current := gets (fun k => length (find_by_type (registry k) Node.Agent)) in
  let* limit := gets (fun k => max_subagents (config k)) in
  if Nat.leb limit current then fail ESubagentLimit
  else
    launch (Launch (fresh_id env) parent t model task) ;>
    let* spawn := kernel_message 0 sys_spawn
      (Object [("node_id", Str (fresh_id env)); ("node_type", Str "agent");
               ("agent_type", Str (agent_type_debug t)); ("parent_id", Str parent);
               ("model", json_opt model); ("task_description", Str task)]) in
    let* frames := lift (encode spawn) in
    emit (Broadcast frames).

Definition on_spawn (inc : IncomingMessage) : M unit :=
  let* payload := payload_of (message inc) in
  try_ (request_spawn_subagent (src_node (header (message inc)))
          (parse_agent_type (field payload "agent_type" "general-purpose"))
          (field_opt payload "model") (field payload "task_description" "")).

(** ** Services and parameters *)
Definition on_service_register (inc : IncomingMessage) : M unit :=
  let* payload := payload_of (message inc) in
  let name := field payload "service_name" "" in
  let rep := field payload "rep_addr" "" in
  let n := field payload "node_id" "" in
  if negb (bool_decide (name = "")) && negb (bool_decide (rep = "")) then
    modify (set_broker (fun b => register_service_provider b (mkServiceProviderInfo n rep name)))
  else ret tt.

Definition on_service_lookup (inc : IncomingMessage) : M unit :=
  let* payload := payload_of (message inc) in
  let name := field payload "service_name" "" in
  let* provider := gets (fun k => find_service_provider (broker k) name) in
  let response :=
    match provider with
    | Some p => Object [("found", Bool true); ("node_id", Str (s_node_id p)); ("rep_addr", Str (rep_addr p));
                        ("service_name", Str name)]
    | None => Object [("found", Bool false); ("service_name", Str name)]
    end in
  let* reply := kernel_reply 0 (topic (message inc)) (msg_id (header (message inc))) response in
  let* frames := lift (encode reply) in
  emit (SendTo (identity inc) frames).

Definition on_param_set (inc : IncomingMessage) : M unit :=
  let* payload := payload_of (message inc) in
  (match field_opt payload "key", vget payload "value" with
   | Some key, Some v => modify (set_params (fun p => pset p key (from_value v)))
   | _, _ => ret tt
   end) ;>
  route_and_forward (message inc).

Definition on_param_get (inc : IncomingMessage) : M unit :=
  let* payload := payload_of (message inc) in
  let key := field payload "key" "" in
  let* value := gets (fun k => pget (param_server k) key) in
  match value with
  | Some v =>
      let* response := kernel_reply 0 param_changed (msg_id (header (message inc)))
        (Object [("key", Str key); ("value", to_value v)]) in
      route_and_forward response
  | None => ret tt
  end.

(** ** Cognition: the build links the stub implementations of stubs.rs *)
Inductive DifficultyLevel := Trivial | Moderate | Complex | Extreme.
Definition assess_difficulty (task : string) : DifficultyLevel := Moderate.
Definition detect_conflicts (plan : list string) : list string := [].
Definition allow_request : bool := true.
Definition difficulty_debug (d : DifficultyLevel) : string :=
  match d with Trivial => "Trivial" | Moderate => "Moderate" | Complex => "Complex" | Extreme => "Extreme" end.
Definition suggested_strategy (d : DifficultyLevel) : string :=
  match d with
  | Trivial => "direct" | Moderate => "step_by_step" | Complex => "decompose" | Extreme => "multi_agent"
  end.

(** [context.split(" | ")] only feeds [detect_conflicts], which ignores it. *)
Definition on_meta_assess (inc : IncomingMessage) : M unit :=
  let* payload := payload_of (message inc) in
  let context := field payload "context" "" in
  let assessment := assess_difficulty context in
  let conflicts := detect_conflicts [context] in
  try_ (let* result := kernel_message 0 (Topic_new "cortex/meta_result")
          (Object [("difficulty", Str (difficulty_debug assessment));
                   ("conflicts", Array (map (fun d => Object [("description", Str d)]) conflicts));
                   ("suggested_strategy", Str (suggested_strategy assessment))]) in
        route_and_forward result).

Definition on_budget_check (inc : IncomingMessage) : M unit :=
  let* payload := payload_of (message inc) in
  let* budget_ok := gets (fun k => can_fit (token_budget k) 1000) in
  let circuit_ok := allow_request in
  if negb budget_ok || negb circuit_ok then
    let reason := if negb budget_ok then "Token 预算不足" else "熔断器开启" in
    try_ (let* deny := kernel_message 0 (Topic_new "cortex/budget_deny") (Object [("reason", Str reason)]) in
          route_and_forward deny)
  else ret tt.

(** The trajectory is handed to [extract_heuristics], whose stub returns
    nothing; so does [retrieve_relevant]. *)
Definition on_erl (inc : IncomingMessage) : M unit :=
  let* payload := payload_of (message inc) in ret tt.

(** *** Verification of a subtask *)
Record GoalVerifyRequest := mkVerify { gv_agent_id : string; subtask_description : string; verification : string }.

(** A structure is also read from an array of its fields; otherwise missing
    or ill-typed fields are empty. *)
Definition verify_request (payload : Value) : GoalVerifyRequest :=
  match payload with
  | Array [Str a; Str s; Str v] => mkVerify a s v
  | _ => mkVerify (field payload "agent_id" "") (field payload "subtask_description" "")
           (field payload "verification" "")
  end.

Definition quick_pass (r : GoalVerifyRequest) (recent : string) : bool :=
  negb (bool_decide (verification r = "")) &&
  existsb (fun w => str_contains w recent) ["success"; "passed"; "ok"; "完成"; "created"; "written"; "exists"].

Definition quick_fail (recent : string) : bool :=
  existsb (fun w => str_contains w recent) ["error"; "failed"; "失败"; "not found"; "不存在"].

Definition newline : string := String "010"%char EmptyString.
Definition quote : string := String "034"%char EmptyString.

Definition to_verify_prompt (r : GoalVerifyRequest) : string :=
  "你是一个任务验证评估器。请判断以下子任务是否已完成。" +:+ newline +:+ newline +:+
  "子任务：" +:+ subtask_description r +:+ newline +:+
  "验证标准：" +:+ verification r +:+ newline +:+ newline +:+
  "请仅回答 JSON：{" +:+ quote +:+ "passed" +:+ quote +:+ ": true/false, " +:+
  quote +:+ "reasoning" +:+ quote +:+ ": " +:+ quote +:+ "评估理由" +:+ quote +:+ "}".

Definition verdict_json (passed : bool) (r : GoalVerifyRequest) (reasoning : string) : Value :=
  Object [("passed", Bool passed); ("verification", Str (verification r));
          ("subtask_description", Str (subtask_description r)); ("reasoning", Str reasoning)].

Definition send_verdict (i : nat) (passed : bool) (r : GoalVerifyRequest) (reasoning : string) : M unit :=
  try_ (let* result := kernel_message i (Topic_new "cortex/goal_verify_result") (verdict_json passed r reasoning) in
        route_and_forward result).

(** [match m { Ok(()) => (), Err(e) => h }]. *)
Definition or_else (m h : M unit) : M unit := fun k =>
  match m k with
  | (k1, o1, Ok _) => (k1, o1, Ok tt)
  | (k1, o1, Err _) => let '(k2, o2, r) := h k1 in (k2, o1 ++ o2, r)
  end.

Definition on_goal_verify (inc : IncomingMessage) : M unit :=
  let* payload := payload_of (message inc) in
  let r := verify_request payload in
  let* recent := gets (fun k => recent_outcome_summary (experience_log k)) in
  if quick_pass r recent || quick_fail recent then
    send_verdict 0 (quick_pass r recent) r ("经验日志快速验证：" +:+ recent)
  else
    let* ask := kernel_message 0 sampler_request
      (Object [("request_id", Str ("goal_verify_" +:+ fresh_id env)); ("agent_id", Str (gv_agent_id r));
               ("model", Str "fast");
               ("messages", Array [Object [("role", Str "user"); ("content", Str (to_verify_prompt r))]]);
               ("stream", Bool false); ("max_tokens", Number (PosInt 100)); ("goal_verify", Bool true);
               ("subtask_description", Str (subtask_description r)); ("verification", Str (verification r))]) in
    or_else (route_and_forward ask)
      (send_verdict 1 (Nat.ltb (String.length (verification r)) 15) r "LLM 验证失败，回退到简单验证").

(** *** Sensory signals *)

(** A motor command goes to its subscribers; a message that cannot be built is
    dropped. *)
Definition send_motor (act : string) (ps : Value) : M unit := fun k =>
  match kernel_message 0 (Topic_new act) ps k with
  | (_, _, Ok motor) =>
      (let* targets := gets (fun k => find_targets (broker k) motor) in
       match targets with
       | [] => ret tt
       | _ =>
           let* frames := lift (encode motor) in
           for_each (fun t => emit (SendTo t.1 frames)) targets
       end) k
  | (_, _, Err _) => ret tt k
  end.

(** The thinker node is told. *)
Definition send_summary (body : list (string * Value)) : M unit :=
  let* summary := kernel_message 1 (Topic_new "cortex/sensory") (Object body) in
  route_and_forward summary.

Definition run_reflex (t payload_str : string) (r : option ReflexAction) : M unit :=
  match r with
  | Some (Direct act ps) => if bool_decide (act = "kernel/log") then ret tt else send_motor act ps
  | Some (Instinct act ps) =>
      send_motor act ps ;>
      send_summary [("signal_topic", Str t); ("action", Str act); ("params", ps); ("level", Str "L1_formal")]
  | Some (Trial act ps) =>
      send_motor act ps ;>
      send_summary [("signal_topic", Str t); ("action", Str act); ("params", ps); ("level", Str "L1_trial");
                    ("needs_confirmation", Bool true)]
  | None => send_summary [("signal_topic", Str t); ("payload", Str payload_str); ("level", Str "L2")]
  end.

Definition sensory_entry (t payload_str : string) : ExperienceEntry :=
  mkEntry (utc_now env) (take_chars 200 payload_str) t L0 "sensory_received" true
    (Object [("source", Str "thinker")]).

Definition on_sensory (inc : IncomingMessage) : M unit :=
  let t := as_str (topic (message inc)) in
  route_and_forward (message inc) ;>
  let payload_str := match decode_payload value_from_read (message inc) with
                     | Ok v => value_to_string v
                     | Err _ => EmptyString
                     end in
  modify (set_log (fun l => log_record l (sensory_entry t payload_str))) ;>
  let* r := gets (fun k => route (reflex_router k) t payload_str) in
  run_reflex t payload_str r.

(** *** Everything else goes to its subscribers *)
Definition on_default (inc : IncomingMessage) : M unit :=
  let* targets := gets (fun k => find_targets (broker k) (message inc)) in
  match targets with
  | [] => ret tt
  | _ => route_and_forward (message inc)
  end.

(** ** Dispatch *)
Definition dispatch (inc : IncomingMessage) : M unit :=
  let t := as_str (topic (message inc)) in
  if bool_decide (t = "sys/register") then on_register inc
  else if bool_decide (t = "sys/heartbeat") then on_heartbeat inc
  else if bool_decide (t = "sys/deregister") then on_deregister inc
  else if ends_with "/spawn" t then on_spawn inc
  else if starts_with "service/" t && ends_with "/register" t then on_service_register inc
  else if starts_with "service/" t && ends_with "/lookup" t then on_service_lookup inc
  else if bool_decide (t = "param/set") then on_param_set inc
  else if bool_decide (t = "param/get") then on_param_get inc
  else if bool_decide (t = "cortex/meta_assess") then on_meta_assess inc
  else if bool_decide (t = "cortex/budget_check") then on_budget_check inc
  else if starts_with "sensory/" t then on_sensory inc
  else if bool_decide (t = "cortex/erl_trajectory") then on_erl inc
  else if bool_decide (t = "cortex/erl_retrieve_request") then on_erl inc
  else if bool_decide (t = "cortex/goal_verify") then on_goal_verify inc
  else on_default inc.

(** The sequence check; [None] when the message is rejected. *)
Definition sequence_gate (inc : IncomingMessage) (k : Kernel) : Kernel * bool :=
  if bool_decide (as_str (topic (message inc)) = "sys/register") then (k, true)
  else
    let '(c, r) := Sequence.check (sequence_checker k) (src_node (header (message inc)))
                     (sequence (header (message inc))) in
    let k := set_checker c k in
    match r with
    | Ok InOrder => (k, true)
    | Ok (Gap _) => (set_metrics record_sequence_error k, true)
    | Err _ => (set_metrics record_sequence_error k, false)
    end.

Definition handle_incoming (inc : IncomingMessage) : M unit := fun k =>
  let '(k1, accepted) := sequence_gate inc (set_metrics record_received k) in
  if accepted then dispatch inc k1 else (k1, [], Ok tt).

(** ** Timers *)
Definition broadcast_node_deregister (n : NodeId) : M unit :=
  try_ (let* msg := kernel_message 0 sys_deregister (Object [("node_id", Str n)]) in
        let* frames := lift (encode msg) in
        emit (Broadcast frames)).

(** The health timer: dead nodes leave the registry, the broker and the
    heartbeat supervision, and the others are told. *)
Definition health_tick : M unit := fun k =>
  let '(r, dead) := remove_stale (registry k) (utc_now env) (heartbeat_timeout_secs (config k)) in
  for_each (fun n =>
    modify (set_broker (fun b => deregister_identity b n)) ;>
    modify (set_autonomic (unregister_agent n)) ;>
    broadcast_node_deregister n) dead (set_registry (fun _ => r) k).

(** A heartbeat event: a replacement is launched and supervised under a new
    id; the launcher is new too, so the parent is one more fresh id. *)
Definition heartbeat_event (e : HeartbeatEvent) : M unit :=
  let* on := gets (fun k => runtime_config_set (config k)) in
  if on : bool then
    launch (Launch (fresh_id env) (ids env 0).1 Primary None ("重启 Agent " +:+ ev_agent_id e)) ;>
    modify (set_autonomic (register_agent (autonomic_now env) (fresh_id env)))
  else ret tt.

Definition learn_tick : M unit := modify (fun k => set_router (experience_tick (experience_log k)) k).
End handlers.
