(* ===== verification/KernelInv.v ===== *)
(** * Invariants of the kernel (kernel/mod.rs)

    Theorems about [Kernel.v]: what every history of messages and timers keeps
    true of the registry and the broker together, what a handler sends and to
    whom, and what a rejected message does. *)

From S2P Require Import Prelude RustStr F64 Json Topic Node Frame Sequence Broker Registry Transaction.
From S2P Require Import Autonomic Param Reflex TokenBudget Kernel.
Local Open Scope Z_scope.

(** ** Histories of the kernel *)
Inductive event :=
| Incoming (inc : IncomingMessage)
| HealthTick
| Heartbeat (e : HeartbeatEvent)
| LearnTick
| LauncherRegister (n : NodeId) (t : NodeType) (subs : list string) (ident : bytes).

Section theorems.
Context `{VC : ValueCodec} `{RX : RegexEngine}.
Context `{HI : !HashIter string} `{HI2 : !HashIter (string * string)}.

Definition state_of {A} (x : Kernel * list output * result (kerror rmp_error) A) : Kernel := x.1.1.
Definition outputs_of {A} (x : Kernel * list output * result (kerror rmp_error) A) : list output := x.1.2.
Definition result_of {A} (x : Kernel * list output * result (kerror rmp_error) A) : result (kerror rmp_error) A := x.2.

Definition kernel_step (env : Env) (e : event) : M unit :=
  match e with
  | Incoming inc => handle_incoming env inc
  | HealthTick => health_tick env
  | Heartbeat e => heartbeat_event env e
  | LearnTick => learn_tick
  | LauncherRegister n t subs ident => modify (register_node env n t subs ident)
  end.

(** The kernel after a history of events, each with its environment; errors
    are logged and the loop goes on. *)
Definition kernel_run (cfg : KernelConfig) (h : list (Env * event)) : Kernel :=
  foldl (fun k ee => state_of (kernel_step ee.1 ee.2 k)) (kernel_new cfg) h.

(** *** Programs that keep an invariant *)
Definition keeps (I : Kernel -> Prop) {A} (m : M A) : Prop := forall k, I k -> I (state_of (m k)).

Section keeps.
Context (I : Kernel -> Prop) (env : Env).

Lemma keeps_ret {A} (a : A) : keeps I (ret a).
Proof. by intros k. Qed.
Lemma keeps_fail {A} e : keeps I (@fail _ A e).
Proof. by intros k. Qed.
Lemma keeps_gets {A} (f : Kernel -> A) : keeps I (gets f).
Proof. by intros k. Qed.
Lemma keeps_lift {A} (r : result (FrameError rmp_error) A) : keeps I (lift r).
Proof. by intros k. Qed.
Lemma keeps_emit o : keeps I (emit env o).
Proof. intros k Hk. unfold emit. by destruct (accept env o). Qed.
Lemma keeps_launch o : keeps I (launch o).
Proof. by intros k. Qed.
Lemma keeps_modify f : (forall k, I k -> I (f k)) -> keeps I (modify f).
Proof. intros Hf k. apply Hf. Qed.
Lemma keeps_bind {A B} (m : M A) (f : A -> M B) :
  keeps I m -> (forall a, keeps I (f a)) -> keeps I (mbind m f).
Proof.
  intros Hm Hf k Hk. specialize (Hm k Hk). unfold mbind.
  destruct (m k) as [[k1 o1] [a|e]]; [|done]. specialize (Hf a k1 Hm). by destruct (f a k1) as [[k2 o2] r].
Qed.
Lemma keeps_try {A} (m : M A) : keeps I m -> keeps I (try_ m).
Proof. intros Hm k Hk. specialize (Hm k Hk). unfold try_. by destruct (m k) as [[k1 o1] r]. Qed.
Lemma keeps_or_else m h : keeps I m -> keeps I h -> keeps I (or_else m h).
Proof.
  intros Hm Hh k Hk. specialize (Hm k Hk). unfold or_else. destruct (m k) as [[k1 o1] [a|e]]; [done|].
  specialize (Hh k1 Hm). by destruct (h k1) as [[k2 o2] r].
Qed.
Lemma keeps_for_each {A} (f : A -> M unit) l : (forall a, keeps I (f a)) -> keeps I (for_each f l).
Proof.
  intros Hf. induction l as [|a l IH]; cbn; [apply keeps_ret|]. by apply keeps_bind.
Qed.
End keeps.

(** The pairs of one broker and one registry that belong together. *)
Record tables_ok (b : Broker) (r : Registry) : Prop := {
  ok_broker : broker_inv b;
  ok_identity : forall n, is_Some (node_identities b !! n) <-> is_Some (nodes r !! n);
  ok_subscriber : forall pat n, n ∈ subs_of b pat -> is_Some (nodes r !! n);
  ok_declared : forall n info pat, nodes r !! n = Some info -> pat ∈ Registry.subscriptions info -> n ∈ subs_of b pat;
  ok_publisher : forall n, is_Some (publishers b !! n) -> is_Some (nodes r !! n)
}.

Definition kernel_ok (k : Kernel) : Prop := tables_ok (broker k) (registry k).
Definition known (n : NodeId) (k : Kernel) : Prop := is_Some (nodes (registry k) !! n).

Lemma subscribes_spec n subs : forall b,
  let b' := foldl (fun b p => subscribe b n p) b subs in
  (broker_inv b -> broker_inv b') /\ node_identities b' = node_identities b /\ publishers b' = publishers b /\
  topic_publishers b' = topic_publishers b /\ service_providers b' = service_providers b /\
  forall pat m, m ∈ subs_of b' pat <-> m ∈ subs_of b pat \/ (m = n /\ pat ∈ subs).
Proof.
  induction subs as [|p subs IH]; intros b; cbn [foldl].
  { cbv zeta. repeat (split; [done|]). set_solver. }
  destruct (IH (subscribe b n p)) as (H1 & H2 & H3 & H4 & H5 & H6). cbv zeta.
  split; [intros Hb; by apply H1, subscribe_inv|]. rewrite H2, H3, H4, H5. repeat (split; [done|]).
  intros pat m. rewrite H6, subs_of_subscribe.
  destruct (decide (p = pat)) as [->|]; [|set_solver].
  destruct (decide (n ∈ subs_of b pat)); set_solver.
Qed.

Lemma tables_register b r now n t subs i :
  tables_ok b r ->
  tables_ok (foldl (fun b p => subscribe b n p) (register_identity b n i) subs) (register r now n t subs).
Proof.
  intros [H1 H2 H3 H4 H5].
  destruct (subscribes_spec n subs (register_identity b n i)) as (S1 & S2 & S3 & S4 & S5 & S6).
  assert (Hreg : forall m, is_Some (nodes (register r now n t subs) !! m) <-> m = n \/ is_Some (nodes r !! m)).
  { intros m. cbn. rewrite lookup_insert_is_Some'. naive_solver. }
  split.
  - apply S1. by apply register_identity_inv.
  - intros m. rewrite S2, Hreg. cbn. rewrite lookup_insert_is_Some'. rewrite H2. naive_solver.
  - intros pat m [Hm|[-> _]]%S6; rewrite Hreg; [right; by apply (H3 pat)|by left].
  - intros m info pat. cbn. rewrite lookup_insert_Some. intros [[<- <-]|[Hne Hm]] Hp; apply S6; [by right|left].
    by apply (H4 m info).
  - intros m Hm. rewrite S3 in Hm. rewrite Hreg. right. by apply H5.
Qed.

Lemma tables_deregister b r n :
  tables_ok b r -> tables_ok (deregister_identity b n) (deregister r n).
Proof.
  intros [H1 H2 H3 H4 H5].
  assert (Hreg : forall m, is_Some (nodes (deregister r n) !! m) <-> m <> n /\ is_Some (nodes r !! m)).
  { intros m. cbn. rewrite lookup_delete_is_Some. naive_solver. }
  split.
  - by apply deregister_identity_inv.
  - intros m. rewrite Hreg. cbn. rewrite lookup_delete_is_Some, H2. naive_solver.
  - intros pat m [Hm ?]%elem_of_subs_deregister. rewrite Hreg. split; [done|]. by apply (H3 pat).
  - intros m info pat. cbn. rewrite lookup_delete_Some. intros [Hne Hm] Hp.
    apply elem_of_subs_deregister. split; [by apply (H4 m info)|done].
  - intros m. cbn. rewrite lookup_delete_is_Some. intros [Hne Hm]. rewrite lookup_delete_is_Some. auto.
Qed.

Lemma tables_publisher b r i :
  is_Some (nodes r !! p_node_id i) -> tables_ok b r -> tables_ok (register_publisher b i) r.
Proof.
  intros Hk [H1 H2 H3 H4 H5]. split; try done; [by apply register_publisher_inv|].
  intros n. cbn. rewrite lookup_insert_is_Some'. intros [<-|?]; auto.
Qed.

Lemma tables_service b r i : tables_ok b r -> tables_ok (register_service_provider b i) r.
Proof. intros [H1 H2 H3 H4 H5]. split; try done. by apply register_service_provider_inv. Qed.

Lemma tables_heartbeat b r now n : tables_ok b r -> tables_ok b (heartbeat r now n).
Proof.
  intros [H1 H2 H3 H4 H5].
  assert (Hreg : forall m, is_Some (nodes (heartbeat r now n) !! m) <-> is_Some (nodes r !! m)).
  { intros m. cbn. apply lookup_alter_is_Some. }
  split; try done; try (intros; rewrite Hreg; eauto; fail).
  intros m info pat. cbn. rewrite lookup_alter_Some.
  intros [(-> & info' & Hi & ->)|[_ Hi]] Hp; [by apply (H4 m info')|by apply (H4 m info)].
Qed.

(** *** Every handler keeps the tables together *)
Ltac keeps_auto :=
  repeat first
    [ apply keeps_ret | apply keeps_fail | apply keeps_gets | apply keeps_lift | apply keeps_emit
    | apply keeps_launch | apply keeps_try | apply keeps_or_else
    | apply keeps_for_each; intros ? | apply keeps_bind; [|intros ?]
    | match goal with |- keeps _ (match ?x with _ => _ end) => destruct x end
    | match goal with |- keeps _ (if ?x then _ else _) => destruct x end
    | match goal with |- keeps _ (let _ := _ in _) => cbv zeta end
    | apply keeps_modify; intros ? ? ].

(** An invariant of the two tables and the sequence numbers. *)
Definition on_tables (P : Broker -> Registry -> SequenceChecker -> Prop) (k : Kernel) : Prop :=
  P (broker k) (registry k) (sequence_checker k).
Definition tables (b : Broker) (r : Registry) (c : SequenceChecker) : Prop := tables_ok b r.

Section sending.
Context (P : Broker -> Registry -> SequenceChecker -> Prop) (env : Env).
Abbreviation J := (on_tables P).

Lemma keeps_forward msg : keeps J (route_and_forward env msg).
Proof. unfold route_and_forward. keeps_auto; done. Qed.

Lemma keeps_ack msg : keeps J (ack_if_required env msg).
Proof. unfold ack_if_required, send_ack. keeps_auto; done. Qed.

Lemma keeps_announce n addr published : keeps J (announce_publisher env n addr published).
Proof. unfold announce_publisher. keeps_auto; done. Qed.

Lemma keeps_discovery inc subs : keeps J (send_discovery env inc subs).
Proof. unfold send_discovery. keeps_auto; done. Qed.

Lemma keeps_spawn inc : keeps J (on_spawn env inc).
Proof. unfold on_spawn, request_spawn_subagent. keeps_auto; done. Qed.

Lemma keeps_lookup inc : keeps J (on_service_lookup env inc).
Proof. unfold on_service_lookup. keeps_auto; done. Qed.

Lemma keeps_param_set inc : keeps J (on_param_set env inc).
Proof. unfold on_param_set. keeps_auto; done. Qed.

Lemma keeps_param_get inc : keeps J (on_param_get env inc).
Proof. unfold on_param_get. keeps_auto; done. Qed.

Lemma keeps_meta inc : keeps J (on_meta_assess env inc).
Proof. unfold on_meta_assess. keeps_auto; done. Qed.

Lemma keeps_budget inc : keeps J (on_budget_check env inc).
Proof. unfold on_budget_check. keeps_auto; done. Qed.

Lemma keeps_erl inc : keeps J (on_erl inc).
Proof. unfold on_erl. keeps_auto. Qed.

Lemma keeps_goal inc : keeps J (on_goal_verify env inc).
Proof. unfold on_goal_verify, send_verdict. keeps_auto; done. Qed.

Lemma keeps_motor act ps : keeps J (send_motor env act ps).
Proof.
  intros k Hk. unfold send_motor. destruct (kernel_message env 0 (Topic_new act) ps k) as [[? ?] [motor|e]]; [|done].
  revert k Hk. change (keeps J (mbind (gets (fun k => find_targets (broker k) motor)) (fun targets =>
    match targets with
    | [] => ret tt
    | _ => mbind (lift (encode motor)) (fun frames => for_each (fun t => emit env (SendTo t.1 frames)) targets)
    end))). keeps_auto.
Qed.

Lemma keeps_sensory inc : keeps J (on_sensory env inc).
Proof.
  unfold on_sensory, run_reflex, send_summary. cbv zeta.
  keeps_auto; first [done|by apply keeps_motor].
Qed.

Lemma keeps_default inc : keeps J (on_default env inc).
Proof. unfold on_default. keeps_auto; done. Qed.
End sending.

Lemma keeps_then {A B} (I J : Kernel -> Prop) (m : M A) (f : A -> M B) :
  (forall k, I k -> J (state_of (m k))) -> (forall k, J k -> I k) -> (forall a, keeps J (f a)) ->
  keeps I (mbind m f).
Proof.
  intros Hm HJ Hf k Hk. apply HJ. specialize (Hm k Hk). unfold mbind.
  destruct (m k) as [[k1 o1] [a|e]]; [|done]. specialize (Hf a k1 Hm). by destruct (f a k1) as [[k2 o2] r].
Qed.

(** Tables that belong together, of which one node is registered. *)
Definition tables_with (n : NodeId) (b : Broker) (r : Registry) (c : SequenceChecker) : Prop :=
  tables_ok b r /\ is_Some (nodes r !! n).

Lemma keeps_register env inc : keeps kernel_ok (on_register env inc).
Proof.
  change kernel_ok with (on_tables tables). unfold on_register.
  apply keeps_bind; [apply keeps_lift|intros payload]. cbv zeta.
  apply keeps_bind; [apply keeps_ack|intros _].
  do 2 (apply keeps_bind; [apply keeps_modify; done|intros _]).
  set (n := field payload "node_id" "").
  apply (keeps_then _ (on_tables (tables_with n))).
  - intros k Hk. split; [by apply tables_register|]. cbn. rewrite lookup_insert_eq. by eexists.
  - by intros k [? _].
  - intros _. apply keeps_bind; [|intros _].
    { destruct (_ && _); [|apply keeps_ret]. apply keeps_bind; [|intros _; apply keeps_announce].
      apply keeps_modify. intros k [Hk Hn]. split; [|done]. by apply tables_publisher. }
    apply keeps_bind; [|intros _].
    { unfold register_service. keeps_auto. destruct H. split; [|done]. by apply tables_service. }
    do 3 (apply keeps_bind; [apply keeps_modify; done|intros _]). apply keeps_discovery.
Qed.

Lemma keeps_dispatch env inc : keeps kernel_ok (dispatch env inc).
Proof.
  unfold dispatch. cbv zeta.
  repeat match goal with |- keeps _ (if ?x then _ else _) => destruct x end;
    try (change kernel_ok with (on_tables tables)).
  - apply keeps_register.
  - unfold on_heartbeat. apply keeps_bind; [apply keeps_lift|intros payload]. cbv zeta.
    apply keeps_bind; [|intros _; apply keeps_bind; [by apply keeps_modify|intros _; apply keeps_ack]].
    apply keeps_modify. intros k Hk. by apply tables_heartbeat.
  - unfold on_deregister. apply keeps_bind; [apply keeps_lift|intros payload]. cbv zeta.
    apply keeps_bind; [|intros _; by apply keeps_modify].
    apply keeps_modify. intros k Hk. by apply tables_deregister.
  - apply keeps_spawn.
  - unfold on_service_register. keeps_auto. by apply tables_service.
  - apply keeps_lookup.
  - apply keeps_param_set.
  - apply keeps_param_get.
  - apply keeps_meta.
  - apply keeps_budget.
  - apply keeps_sensory.
  - apply keeps_erl.
  - apply keeps_erl.
  - apply keeps_goal.
  - apply keeps_default.
Qed.

Lemma gate_tables inc k : kernel_ok k -> kernel_ok (sequence_gate inc k).1.
Proof.
  intros Hk. unfold sequence_gate. case_bool_decide; [done|].
  destruct (Sequence.check _ _ _) as [c [[]|]]; done.
Qed.

Lemma keeps_incoming env inc : keeps kernel_ok (handle_incoming env inc).
Proof.
  intros k Hk. unfold handle_incoming.
  pose proof (gate_tables inc (set_metrics record_received k) Hk) as Hg.
  destruct (sequence_gate _ _) as [k1 []]; [|done]. by apply keeps_dispatch.
Qed.

(** *** The health timer *)

(** What is sent when [n] is declared dead. *)
Definition obituary (env : Env) (n : NodeId) : list output :=
  match new_message (ids env 0).1 (ids env 0).2 sys_deregister "kernel" (value_to_vec (Object [("node_id", Str n)])) with
  | Ok msg => match encode msg with
              | Ok frames => if accept env (Broadcast frames) then [Broadcast frames] else []
              | Err _ => []
              end
  | Err _ => []
  end.

Lemma broadcast_node_deregister_eq env n k :
  broadcast_node_deregister env n k = (k, obituary env n, Ok tt).
Proof.
  unfold broadcast_node_deregister, try_, mbind, kernel_message, lift, obituary.
  destruct (new_message _ _ _ _ _) as [msg|e]; cbn [map_err]; [|done].
  destruct (encode msg) as [frames|e]; cbn [map_err]; [|done].
  unfold emit. by destruct (accept env (Broadcast frames)).
Qed.

Definition bury (dead : list NodeId) (k : Kernel) : Kernel :=
  foldl (fun k n => set_autonomic (unregister_agent n) (set_broker (fun b => deregister_identity b n) k)) k dead.

Lemma health_loop env dead : forall k,
  for_each (fun n =>
    mbind (modify (set_broker (fun b => deregister_identity b n))) (fun _ =>
    mbind (modify (set_autonomic (unregister_agent n))) (fun _ =>
    broadcast_node_deregister env n))) dead k
  = (bury dead k, concat (map (obituary env) dead), Ok tt).
Proof.
  induction dead as [|n dead IH]; intros k; [done|]. cbn [for_each]. unfold mbind at 1.
  unfold mbind at 1, modify at 1. unfold mbind at 1, modify at 1. rewrite broadcast_node_deregister_eq.
  rewrite IH. done.
Qed.

Lemma bury_fields dead : forall k,
  registry (bury dead k) = registry k /\
  broker (bury dead k) = foldl deregister_identity (broker k) dead /\
  (forall n, agents (autonomic (bury dead k)) !! n =
     if decide (n ∈ dead) then None else agents (autonomic k) !! n) /\
  config (bury dead k) = config k.
Proof.
  induction dead as [|m dead IH]; intros k; [cbn; set_solver|]. cbn [bury foldl].
  destruct (IH (set_autonomic (unregister_agent m) (set_broker (fun b => deregister_identity b m) k)))
    as (E1 & E2 & E3 & E4). split; [done|]. split; [done|]. split; [|done].
  intros n. change (agents (autonomic (bury dead (set_autonomic (unregister_agent m)
    (set_broker (fun b => deregister_identity b m) k)))) !! n = if decide (n ∈ m :: dead) then None else agents (autonomic k) !! n).
  rewrite E3. cbn. destruct (decide (n = m)) as [->|Hne].
  - rewrite lookup_delete_eq, (decide_True (P := m ∈ m :: dead)) by set_solver. by destruct (decide _).
  - rewrite lookup_delete_ne by done.
    destruct (decide (n ∈ dead)); [by rewrite decide_True by set_solver|by rewrite decide_False by set_solver].
Qed.

Lemma tables_bury dead : forall b r, tables_ok b r ->
  tables_ok (foldl deregister_identity b dead) (foldl deregister r dead).
Proof. induction dead as [|n dead IH]; intros b r H; [done|]. cbn. by apply IH, tables_deregister. Qed.

Lemma same_about_trans n b1 b2 b3 : same_about n b1 b2 -> same_about n b2 b3 -> same_about n b1 b3.
Proof.
  intros (A1 & A2 & A3 & A4 & A5) (B1 & B2 & B3 & B4 & B5). split; [congruence|].
  split; [intros pat; by rewrite A2, B2|]. split; [congruence|]. split; [intros t; by rewrite A4, B4|].
  intros s0 info Hn. by rewrite A5, B5.
Qed.

Lemma deregister_gone b n : broker_inv b -> ~ mentions (deregister_identity b n) n.
Proof.
  intros Hinv [Hs|[[pat Hs]|[Hs|[[t Ht]|(s0 & i & Hs & Hn)]]]].
  - cbn in Hs. rewrite lookup_delete_eq in Hs. by destruct Hs.
  - by apply elem_of_subs_deregister in Hs as [_ ?].
  - cbn in Hs. rewrite lookup_delete_eq in Hs. by destruct Hs.
  - by apply elem_of_pubs_deregister in Ht as [_ ?].
  - by apply map_lookup_filter_Some in Hs as [_ ?].
Qed.

Lemma deregister_other b n m : broker_inv b -> m <> n -> same_about m b (deregister_identity b n).
Proof.
  intros Hinv Hm. split; [cbn; by rewrite lookup_delete_ne|].
  split; [intros pat; rewrite elem_of_subs_deregister; tauto|].
  split; [cbn; by rewrite lookup_delete_ne|].
  split; [intros t; rewrite elem_of_pubs_deregister by done; tauto|].
  intros s0 i Hi. cbn. rewrite map_lookup_filter_Some. cbn. rewrite Hi. tauto.
Qed.

Lemma bury_broker dead : forall b, broker_inv b ->
  let b' := foldl deregister_identity b dead in
  broker_inv b' /\ (forall n, n ∈ dead -> ~ mentions b' n) /\ (forall n, n ∉ dead -> same_about n b b').
Proof.
  induction dead as [|m dead IH]; intros b Hb; cbv zeta; cbn [foldl].
  { split; [done|]. split; [by intros n ?%not_elem_of_nil|]. by intros n _. }
  destruct (IH (deregister_identity b m) (deregister_identity_inv b m Hb)) as (I1 & I2 & I3).
  split; [done|]. split.
  - intros n Hn. destruct (decide (n ∈ dead)) as [Hd|Hd]; [by apply I2|].
    apply elem_of_cons in Hn as [->|?]; [|done].
    assert (Hg := deregister_gone b m Hb). specialize (I3 m Hd). destruct I3 as (A1 & A2 & A3 & A4 & A5).
    intros Hm. apply Hg. unfold mentions in *. rewrite <- A1, <- A3 in Hm.
    setoid_rewrite <- A2 in Hm. setoid_rewrite <- A4 in Hm.
    destruct Hm as [?|[?|[?|[?|(s0 & i & Hs & Hi)]]]]; eauto 10. do 4 right. exists s0, i. split; [|done]. by apply A5.
  - intros n Hn. apply not_elem_of_cons in Hn as [Hne Hn].
    eapply same_about_trans; [by apply deregister_other|by apply I3].
Qed.

Lemma keeps_health env : keeps kernel_ok (health_tick env).
Proof.
  intros k Hk. unfold health_tick, remove_stale. rewrite health_loop. unfold state_of, kernel_ok. cbn [fst].
  set (dead := (filter _ _).*1). set (k0 := set_registry _ k).
  destruct (bury_fields dead k0) as (-> & -> & _). by apply tables_bury.
Qed.

Lemma keeps_step env e : keeps kernel_ok (kernel_step env e).
Proof.
  destruct e as [inc| |e| |n t subs ident]; cbn [kernel_step].
  - apply keeps_incoming.
  - apply keeps_health.
  - unfold heartbeat_event. keeps_auto. done.
  - by apply keeps_modify.
  - apply keeps_modify. intros k Hk. by apply tables_register.
Qed.

Lemma kernel_new_ok cfg : kernel_ok (kernel_new cfg).
Proof.
  split; cbn; [apply broker_new_inv|..].
  - intros n. by rewrite !lookup_empty.
  - by intros pat n ?%not_elem_of_nil.
  - intros n info pat. by rewrite lookup_empty.
  - intros n. rewrite lookup_empty. by intros [? ?].
Qed.

Lemma kernel_run_ok cfg h : kernel_ok (kernel_run cfg h).
Proof.
  unfold kernel_run. generalize (kernel_new_ok cfg). generalize (kernel_new cfg).
  induction h as [|[env e] h IH]; intros k Hk; [done|]. cbn. by apply IH, keeps_step.
Qed.

(** C4.  After any history of messages of every kind and of timers, with any
    codec, clocks and transport failures: the nodes with an identity in the
    broker are exactly those in the registry, only those are subscribed or
    announce topics, each is subscribed to all it declared, and the broker's
    own tables agree. *)
Theorem kernel_tables_consistent cfg h :
  let k := kernel_run cfg h in
  broker_inv (broker k) /\
  (forall n, is_Some (node_identities (broker k) !! n) <-> known n k) /\
  (forall pat n, n ∈ subs_of (broker k) pat -> known n k) /\
  (forall n t, publishes (broker k) n t -> known n k) /\
  (forall n info pat, nodes (registry k) !! n = Some info -> pat ∈ Registry.subscriptions info ->
     n ∈ subs_of (broker k) pat).
Proof.
  cbv zeta. destruct (kernel_run_ok cfg h) as [H1 H2 H3 H4 H5]. split; [done|]. split; [done|].
  split; [done|]. split; [|done]. intros n t (info & Hi & _). apply H5. by eexists.
Qed.

(** A health check tells about and forgets exactly the stale nodes: nothing
    in the registry, the broker or the supervision mentions one afterwards,
    and everything about the other nodes is as before. *)
Theorem health_tick_exact env cfg h :
  let k := kernel_run cfg h in
  let stale := (remove_stale (registry k) (utc_now env) (heartbeat_timeout_secs (config k))).2 in
  let '(k', out, r) := health_tick env k in
  r = Ok tt /\ out = concat (map (obituary env) stale) /\
  (forall n, n ∈ stale -> ~ known n k' /\ ~ mentions (broker k') n /\ agents (autonomic k') !! n = None) /\
  (forall n, n ∉ stale ->
     nodes (registry k') !! n = nodes (registry k) !! n /\ same_about n (broker k) (broker k') /\
     agents (autonomic k') !! n = agents (autonomic k) !! n).
Proof.
  cbv zeta. pose proof (kernel_run_ok cfg h) as Hok. set (k := kernel_run cfg h) in *.
  unfold health_tick, remove_stale. rewrite health_loop. cbn [fst snd].
  set (dead := (filter _ _).*1). set (k0 := set_registry _ k).
  destruct (bury_fields dead k0) as (E1 & E2 & E3 & _).
  destruct (bury_broker dead (broker k) (ok_broker _ _ Hok)) as (_ & B2 & B3).
  split; [done|]. split; [done|]. unfold known. rewrite E1, E2. split.
  - intros n Hn. split; [|split; [by apply B2|by rewrite E3, decide_True]].
    cbn. rewrite deregister_all_lookup, decide_True by done. by intros [? ?].
  - intros n Hn. split; [|split; [by apply B3|by rewrite E3, decide_False]].
    cbn. by rewrite deregister_all_lookup, decide_False.
Qed.

(** *** The sequence check *)

(** A message other than a registration whose number is not above the last
    one accepted from its sender has no effect: nothing is sent, no error is
    reported, and only the counters of received messages and of sequence
    errors change. *)
Theorem stale_message_inert env inc k last :
  as_str (topic (message inc)) <> "sys/register" ->
  last_received (sequence_checker k) !! src_node (header (message inc)) = Some last ->
  sequence (header (message inc)) <= last ->
  handle_incoming env inc k =
    (set_metrics (fun m => record_sequence_error (record_received m)) k, [], Ok tt).
Proof.
  intros Ht Hl Hs. unfold handle_incoming, sequence_gate. rewrite bool_decide_eq_false_2 by done.
  unfold Sequence.check. cbn [sequence_checker set_metrics]. rewrite Hl.
  rewrite (proj2 (Z.ltb_ge _ _)) by lia. destruct k. by destruct (_ =? _).
Qed.

(** *** Delivery *)
Lemma emit_all env (l : list (bytes * NodeId)) frames k :
  (forall o, accept env o = true) ->
  for_each (fun t => emit env (SendTo t.1 frames)) l k = (k, map (fun t => SendTo t.1 frames) l, Ok tt).
Proof.
  intros Ha. induction l as [|t l IH]; [done|]. cbn [for_each]. unfold mbind at 1.
  assert (emit env (SendTo t.1 frames) k = (k, [SendTo t.1 frames], Ok tt)) as -> by (unfold emit; by rewrite Ha).
  by rewrite IH.
Qed.

Lemma forward_outputs env msg frames k :
  (forall o, accept env o = true) -> encode msg = Ok frames ->
  exists k', route_and_forward env msg k = (k', map (fun t => SendTo t.1 frames) (find_targets (broker k) msg), Ok tt).
Proof.
  intros Ha He. unfold route_and_forward, mbind at 1, gets.
  destruct (find_targets (broker k) msg) as [|t l] eqn:E; [by eexists|].
  unfold mbind at 1, lift. rewrite He. cbn [map_err]. unfold mbind at 1. rewrite emit_all by done.
  eexists. unfold modify. by rewrite app_nil_r.
Qed.

(** The arm a topic selects when no other applies. *)
Definition plain_topic (t : string) : bool :=
  negb (bool_decide (t ∈ ["sys/register"; "sys/heartbeat"; "sys/deregister"; "param/set"; "param/get";
     "cortex/meta_assess"; "cortex/budget_check"; "cortex/erl_trajectory"; "cortex/erl_retrieve_request";
     "cortex/goal_verify"]) || ends_with "/spawn" t || starts_with "service/" t || starts_with "sensory/" t).

Lemma dispatch_plain env inc : plain_topic (as_str (topic (message inc))) = true -> dispatch env inc = on_default env inc.
Proof.
  unfold plain_topic, dispatch. cbv zeta. set (t := as_str _).
  rewrite negb_true_iff, !orb_false_iff, bool_decide_eq_false. intros [[[Hn H1] H2] H3]. rewrite H1, H2, H3.
  repeat (rewrite bool_decide_eq_false_2 by (intros Heq; apply Hn; rewrite Heq; set_solver)). done.
Qed.

Lemma gate_broker inc k : broker (sequence_gate inc k).1 = broker k.
Proof.
  unfold sequence_gate. case_bool_decide; [done|]. destruct (Sequence.check _ _ _) as [c [[]|]]; done.
Qed.

(** C40.  An ordinary message that passes the sequence check reaches, each once,
    exactly the registered nodes other than its sender that are subscribed to
    a pattern matching its topic. *)
Theorem ordinary_message_delivered env inc k frames :
  let msg := message inc in
  plain_topic (as_str (topic msg)) = true ->
  (sequence_gate inc k).2 = true ->
  (forall o, accept env o = true) -> encode msg = Ok frames ->
  let targets := find_targets (broker k) msg in
  outputs_of (handle_incoming env inc k) = map (fun t => SendTo t.1 frames) targets /\
  result_of (handle_incoming env inc k) = Ok tt /\
  NoDup targets.*2 /\
  forall i n, (i, n) ∈ targets <->
    n <> src_node (header msg) /\ node_identities (broker k) !! n = Some i /\
    subscribed (broker k) n (as_str (topic msg)).
Proof.
  cbv zeta. intros Hp Hg Ha He. unfold handle_incoming.
  assert (Hgate : (sequence_gate inc (set_metrics record_received k)).2 = true /\
                  broker (sequence_gate inc (set_metrics record_received k)).1 = broker k).
  { split; [|by rewrite gate_broker]. revert Hg. unfold sequence_gate. case_bool_decide; [done|].
    cbn [sequence_checker set_metrics]. destruct (Sequence.check _ _ _) as [c [[]|]]; done. }
  destruct (sequence_gate _ (set_metrics _ k)) as [k1 ok]. cbn [fst snd] in Hgate. destruct Hgate as [-> Hb].
  rewrite dispatch_plain by done. unfold on_default, mbind, gets. rewrite Hb.
  destruct (forward_outputs env (message inc) frames k1 Ha He) as [k' Hf]. rewrite Hb in Hf.
  split; [|split; [|split; [apply find_targets_NoDup|intros i n; apply elem_of_find_targets]]].
  - destruct (find_targets (broker k) (message inc)) as [|t l]; [done|]. by rewrite Hf.
  - destruct (find_targets (broker k) (message inc)) as [|t l]; [done|]. by rewrite Hf.
Qed.

(** What a registration leaves behind, whatever fails after it. *)
Definition registered (n : NodeId) (info : NodeInfo) (ident : bytes)
    (b : Broker) (r : Registry) (c : SequenceChecker) : Prop :=
  nodes r !! n = Some info /\ node_identities b !! n = Some ident /\
  (forall pat, pat ∈ Registry.subscriptions info -> n ∈ subs_of b pat) /\ last_received c !! n = None.

Lemma ends_keep {A B} (J : Kernel -> Prop) (m : M A) (f : A -> M B) k :
  J (state_of (m k)) -> (forall a, keeps J (f a)) -> J (state_of (mbind m f k)).
Proof.
  intros Hm Hf. unfold mbind. destruct (m k) as [[k1 o1] [a|e]]; [|done].
  specialize (Hf a k1 Hm). by destruct (f a k1) as [[k2 o2] r].
Qed.

Lemma bind_ok {A B} (m : M A) (f : A -> M B) k k1 o a :
  m k = (k1, o, Ok a) -> state_of (mbind m f k) = state_of (f a k1).
Proof. intros Hm. unfold mbind. rewrite Hm. by destruct (f a k1) as [[k2 o2] r]. Qed.

Lemma ack_ok env msg k : exists o, ack_if_required env msg k = (k, o, Ok tt).
Proof.
  unfold ack_if_required. destruct (requires_ack (header msg)); [|by eexists].
  unfold try_, send_ack, mbind, kernel_reply, lift.
  destruct (new_reply _ _ _ _ _ _) as [ack|e]; cbn [map_err]; [|by eexists].
  destruct (encode ack) as [frames|e]; cbn [map_err]; [|by eexists].
  unfold emit. destruct (accept env _); by eexists.
Qed.

(** Once a registration message is handled, and even if announcing it fails,
    the node is in the registry with the type and subscriptions it sent and
    the current time, its sequence numbers start afresh, and every message of
    another node whose topic matches one of its patterns is routed to the
    identity the registration came from. *)
Theorem registration_routes env inc k payload :
  as_str (topic (message inc)) = "sys/register" ->
  decode_payload value_from_read (message inc) = Ok payload ->
  let n := field payload "node_id" "" in
  let subs := string_list (vindex payload "subscriptions") in
  let k' := state_of (handle_incoming env inc k) in
  nodes (registry k') !! n =
    Some (mkNodeInfo (parse_node_type (field payload "node_type" "agent")) subs (utc_now env)) /\
  last_received (sequence_checker k') !! n = None /\
  forall pat msg, pat ∈ subs -> topic_matches pat (as_str (topic msg)) = true ->
    src_node (header msg) <> n -> (identity inc, n) ∈ find_targets (broker k') msg.
Proof.
  intros Ht Hp. cbv zeta. set (n := field payload "node_id" ""). set (subs := string_list _).
  set (info := mkNodeInfo _ subs _).
  assert (Hreg : on_tables (registered n info (identity inc)) (state_of (handle_incoming env inc k))).
  { unfold handle_incoming, sequence_gate. rewrite bool_decide_eq_true_2 by done.
    unfold dispatch. cbv zeta. rewrite bool_decide_eq_true_2 by done.
    set (k0 := set_metrics _ k). unfold on_register, payload_of.
    erewrite bind_ok by (unfold lift; rewrite Hp; reflexivity). cbv zeta.
    destruct (ack_ok env (message inc) k0) as [o Ho].
    erewrite bind_ok by exact Ho. do 2 (erewrite bind_ok by reflexivity).
    apply ends_keep.
    { destruct (subscribes_spec n subs (register_identity (broker k0) n (identity inc)))
        as (_ & S2 & _ & _ & _ & S6).
      split; [apply lookup_insert_eq|].
      split; [exact (eq_trans (f_equal (fun m => m !! n) S2) (lookup_insert_eq _ _ _))|].
      split; [|apply lookup_delete_eq]. intros pat Hpat. apply S6. by right. }
    intros _. apply keeps_bind; [|intros _].
    { destruct (_ && _); [|apply keeps_ret]. apply keeps_bind; [|intros _; apply keeps_announce].
      apply keeps_modify. done. }
    apply keeps_bind; [unfold register_service; keeps_auto; done|intros _].
    do 3 (apply keeps_bind; [by apply keeps_modify|intros _]). apply keeps_discovery. }
  destruct Hreg as (R1 & R2 & R3 & R4). split; [done|]. split; [done|].
  intros pat msg Hpat Hm Hsrc. apply elem_of_find_targets. split; [done|]. split; [done|].
  exists pat. split; [done|]. by apply R3.
Qed.

(** *** Parameters *)

(** Setting a parameter stores the value under its key and leaves the other
    parameters alone; what is sent is the request itself, to the nodes
    subscribed to [param/set].  No [param/changed] message is sent. *)
Theorem param_set_exact env inc k payload key v frames :
  as_str (topic (message inc)) = "param/set" ->
  (sequence_gate inc k).2 = true ->
  decode_payload value_from_read (message inc) = Ok payload ->
  field_opt payload "key" = Some key -> vget payload "value" = Some v ->
  (forall o, accept env o = true) -> encode (message inc) = Ok frames ->
  let x := handle_incoming env inc k in
  pget (param_server (state_of x)) key = Some (from_value v) /\
  (forall key', key' <> key -> pget (param_server (state_of x)) key' = pget (param_server k) key') /\
  outputs_of x = map (fun t => SendTo t.1 frames) (find_targets (broker k) (message inc)) /\
  forall i n, (i, n) ∈ find_targets (broker k) (message inc) -> subscribed (broker k) n "param/set".
Proof.
  intros Ht Hg Hp Hkey Hv Ha He.
  assert (Hgate : (sequence_gate inc (set_metrics record_received k)).2 = true /\
                  broker (sequence_gate inc (set_metrics record_received k)).1 = broker k /\
                  param_server (sequence_gate inc (set_metrics record_received k)).1 = param_server k).
  { revert Hg. unfold sequence_gate. case_bool_decide; [done|].
    cbn [sequence_checker set_metrics]. destruct (Sequence.check _ _ _) as [c [[]|]]; done. }
  destruct (sequence_gate inc (set_metrics record_received k)) as [k1 ok] eqn:Eg.
  cbn [fst snd] in Hgate. destruct Hgate as (-> & Hb & Hps).
  set (k2 := set_params (fun p => pset p key (from_value v)) k1).
  destruct (forward_outputs env (message inc) frames k2 Ha He) as [k3 Hf].
  assert (Hk3 : param_server k3 = param_server k2).
  { assert (Hkeep : keeps (fun k => param_server k = param_server k2) (route_and_forward env (message inc)))
      by (unfold route_and_forward; keeps_auto; done).
    specialize (Hkeep k2 eq_refl). by rewrite Hf in Hkeep. }
  assert (Hb2 : broker k2 = broker k) by exact Hb. rewrite Hb2 in Hf.
  assert (Hx : handle_incoming env inc k =
    (k3, map (fun t => SendTo t.1 frames) (find_targets (broker k) (message inc)), Ok tt)).
  { unfold handle_incoming. rewrite Eg.
    assert (Hd : dispatch env inc = on_param_set env inc) by (unfold dispatch; by rewrite Ht).
    rewrite Hd. unfold on_param_set, payload_of, mbind at 1, lift. rewrite Hp. cbn [map_err].
    rewrite Hkey, Hv. unfold mbind, modify. fold k2. by rewrite Hf. }
  cbv zeta. rewrite Hx. unfold state_of, outputs_of. cbn [fst snd]. rewrite Hk3. unfold k2, pget.
  cbn [param_server set_params pset params]. rewrite Hps.
  split; [apply lookup_insert_eq|]. split; [intros key' Hne; by apply lookup_insert_ne|]. split; [done|].
  intros i n (_ & _ & Hs)%elem_of_find_targets. by rewrite Ht in Hs.
Qed.

(** *** Verification of subtasks *)
Lemma summary_words (l : list ExperienceEntry) :
  map outcome_word l = map (fun ok : bool => if ok then "success" else "failure") (map e_result l).
Proof. rewrite map_map. done. Qed.

Lemma words_exact (bs : list bool) :
  (length bs <= 5)%nat ->
  let s := join_char ","%char (map (fun ok : bool => if ok then "success" else "failure") bs) in
  quick_fail s = false /\
  existsb (fun w => str_contains w s) ["success"; "passed"; "ok"; "完成"; "created"; "written"; "exists"] = existsb id bs.
Proof.
  intros Hl. do 5 (destruct bs as [|[] bs]; [by vm_compute|..]; try (cbn in Hl; lia)).
  all: try (destruct bs; [by vm_compute|cbn in Hl; lia]).
Qed.

(** Every entry the kernel logs is a success. *)
Definition log_good (k : Kernel) : Prop := Forall (fun e => e_result e = true) (entries (experience_log k)).

Lemma log_record_good lg e :
  e_result e = true -> Forall (fun e => e_result e = true) (entries lg) ->
  Forall (fun e => e_result e = true) (entries (log_record lg e)).
Proof.
  intros He Hl. cbn. apply Forall_app. split; [|by constructor].
  destruct (Nat.leb _ _); [|done]. destruct (entries lg); [done|]. by apply Forall_cons in Hl as [_ ?].
Qed.

Lemma log_good_motor env act ps : keeps log_good (send_motor env act ps).
Proof.
  intros k Hk. unfold send_motor. destruct (kernel_message env 0 (Topic_new act) ps k) as [[? ?] [motor|e]]; [|done].
  revert k Hk. change (keeps log_good (mbind (gets (fun k => find_targets (broker k) motor)) (fun targets =>
    match targets with
    | [] => ret tt
    | _ => mbind (lift (encode motor)) (fun frames => for_each (fun t => emit env (SendTo t.1 frames)) targets)
    end))). keeps_auto.
Qed.

Lemma log_good_dispatch env inc : keeps log_good (dispatch env inc).
Proof.
  unfold dispatch. cbv zeta.
  repeat match goal with |- keeps _ (if ?x then _ else _) => destruct x end.
  - unfold on_register, ack_if_required, announce_publisher, register_service, send_discovery. keeps_auto; done.
  - unfold on_heartbeat, ack_if_required. keeps_auto; done.
  - unfold on_deregister. keeps_auto; done.
  - unfold on_spawn, request_spawn_subagent. keeps_auto; done.
  - unfold on_service_register. keeps_auto; done.
  - unfold on_service_lookup. keeps_auto; done.
  - unfold on_param_set. keeps_auto; done.
  - unfold on_param_get. keeps_auto; done.
  - unfold on_meta_assess. keeps_auto; done.
  - unfold on_budget_check. keeps_auto; done.
  - unfold on_sensory, run_reflex, send_summary. cbv zeta.
    keeps_auto; first [done|by apply log_good_motor|by apply log_record_good].
  - unfold on_erl. keeps_auto; done.
  - unfold on_erl. keeps_auto; done.
  - unfold on_goal_verify, send_verdict. keeps_auto; done.
  - unfold on_default. keeps_auto; done.
Qed.

Lemma log_good_run cfg h : log_good (kernel_run cfg h).
Proof.
  assert (Hs : forall env e, keeps log_good (kernel_step env e)).
  { intros env [inc| |e| |n t subs ident]; cbn [kernel_step].
    - intros k Hk. unfold handle_incoming.
      assert (Hg : log_good (sequence_gate inc (set_metrics record_received k)).1).
      { unfold sequence_gate. case_bool_decide; [done|]. destruct (Sequence.check _ _ _) as [c [[]|]]; done. }
      destruct (sequence_gate _ _) as [k1 []]; [|done]. by apply log_good_dispatch.
    - intros k Hk. unfold health_tick, remove_stale. rewrite health_loop. unfold state_of. cbn [fst].
      generalize (filter (fun e : NodeId * NodeInfo => (heartbeat_timeout_secs (config k) <?
        elapsed_secs_u64 (utc_now env) (Registry.last_heartbeat e.2)) = true) (hiter (nodes (registry k)))).*1. intros dead.
      assert (Hb : forall k0, log_good k0 -> log_good (bury dead k0)).
      { induction dead as [|d dead IH]; intros k0 H0; [done|]. cbn. by apply IH. }
      by apply Hb.
    - unfold heartbeat_event. keeps_auto; done.
    - by apply keeps_modify.
    - by apply keeps_modify. }
  unfold kernel_run. assert (H0 : log_good (kernel_new cfg)) by constructor.
  revert H0. generalize (kernel_new cfg). induction h as [|[env e] h IH]; intros k Hk; [done|].
  cbn. by apply IH, Hs.
Qed.

(** The fast verdict on a subtask: it is never a failure, whatever the log
    says, and in every reachable kernel it is a pass for any non-empty
    criterion as soon as one sensory signal has been logged. *)
Theorem goal_verdict_exact cfg h lg r :
  let log := experience_log (kernel_run cfg h) in
  quick_fail (recent_outcome_summary lg) = false /\
  (quick_pass r (recent_outcome_summary lg) = true <->
     verification r <> "" /\ exists e, e ∈ take 5 (rev (entries lg)) /\ e_result e = true) /\
  (quick_pass r (recent_outcome_summary log) = true <-> verification r <> "" /\ entries log <> []).
Proof.
  cbv zeta.
  assert (Hw : forall lg, quick_fail (recent_outcome_summary lg) = false /\
    (quick_pass r (recent_outcome_summary lg) = true <->
     verification r <> "" /\ exists e, e ∈ take 5 (rev (entries lg)) /\ e_result e = true)).
  { intros l. unfold recent_outcome_summary. rewrite summary_words.
    destruct (words_exact (map e_result (take 5 (rev (entries l))))) as [Hf Hp].
    { rewrite length_map, length_take. lia. }
    split; [done|]. unfold quick_pass. rewrite Hp, andb_true_iff, negb_true_iff, bool_decide_eq_false.
    rewrite existsb_exists. setoid_rewrite in_map_iff. setoid_rewrite <- list_elem_of_In. naive_solver. }
  destruct (Hw lg) as [H1 H2]. split; [done|]. split; [done|].
  destruct (Hw (experience_log (kernel_run cfg h))) as [_ ->].
  pose proof (log_good_run cfg h) as Hg. unfold log_good in Hg. revert Hg.
  generalize (entries (experience_log (kernel_run cfg h))). intros l Hg. split.
  - intros (Hv & e & He & _). split; [done|]. intros ->. cbn in He. by apply not_elem_of_nil in He.
  - intros [Hv Hne]. split; [done|]. destruct l as [|e l _] using rev_ind; [done|].
    exists e. rewrite rev_unit. split; [cbn; set_solver|]. apply Forall_app in Hg as [_ Hg].
    by apply Forall_cons in Hg as [? _].
Qed.
End theorems.

(** ** A kernel to evaluate with *)

(** Payloads of the examples: a registration and a parameter. *)
Definition sample_registration : Value :=
  Object [("node_id", Str "n1"); ("node_type", Str "tool"); ("subscriptions", Array [Str "param/*"; Str "agent/*/output"])].
Definition sample_param : Value := Object [("key", Str "rate"); ("value", Number (PosInt 5))].

Definition sample_values : ValueCodec :=
  {| vc_rmp := bit_codec;
     value_to_vec := fun _ => Ok "v";
     value_from_read := fun b => Ok (if bool_decide (b = "reg") then sample_registration else sample_param);
     value_to_string := fun _ => "{}" |}.

Definition sample_env : Env := mkEnv 1000 0 0 (f64_of_Z 0) (fun _ => ("m", "t")) "fresh" (fun _ => true).
Definition sample_config : KernelConfig := mkKernelConfig 30 10 false.

Definition sample_msg (t src : string) (seq : Z) (body : bytes) : Message :=
  mkMessage (Topic_new t) (mkHeader "m0" "t0" src None seq false) body.

Definition sample_start : Kernel := @kernel_new literal_engine (gmap_iter _) sample_config.

Definition sample_kernel : Kernel :=
  state_of (VC := sample_values)
    (@handle_incoming sample_values (gmap_iter _) sample_env
       (mkIncoming "zmq-1" (sample_msg "sys/register" "n1" 0 "reg")) sample_start).

Lemma registration_routes_witness :
  ("zmq-1", "n1") ∈ @find_targets (gmap_iter _) (broker sample_kernel) (sample_msg "agent/a1/output" "n2" 1 "x").
Proof.
  refine (proj2 (proj2 (@registration_routes sample_values (gmap_iter _)
    sample_env (mkIncoming "zmq-1" (sample_msg "sys/register" "n1" 0 "reg")) sample_start sample_registration _ _))
    "agent/*/output" (sample_msg "agent/a1/output" "n2" 1 "x") _ _ _).
  - reflexivity.
  - reflexivity.
  - apply list_elem_of_In. vm_compute. auto.
  - vm_compute. reflexivity.
  - vm_compute. discriminate.
Defined.

Lemma stale_message_inert_witness :
  let inc := mkIncoming "zmq-2" (sample_msg "agent/a1/output" "n2" 3 "x") in
  let k := set_checker (mkSequenceChecker {[ "n2" := 3 ]} 100) sample_kernel in
  @handle_incoming sample_values (gmap_iter _) sample_env inc k =
    (set_metrics (fun m => record_sequence_error (record_received m)) k, [], Ok tt).
Proof.
  cbv zeta.
  apply (@stale_message_inert sample_values (gmap_iter _) sample_env _ _ 3);
    [vm_compute; discriminate|vm_compute; reflexivity|vm_compute; discriminate].
Defined.

Lemma ordinary_message_delivered_witness :
  exists frames,
    let inc := mkIncoming "zmq-2" (sample_msg "agent/a1/output" "n2" 3 "x") in
    @encode bit_codec (message inc) = Ok frames /\
    outputs_of (VC := sample_values)
      (@handle_incoming sample_values (gmap_iter _) sample_env inc sample_kernel) =
      map (fun t => SendTo t.1 frames) (@find_targets (gmap_iter _) (broker sample_kernel) (message inc)).
Proof.
  eexists. cbv zeta. split; [reflexivity|].
  refine (proj1 (@ordinary_message_delivered sample_values (gmap_iter _) sample_env
    (mkIncoming "zmq-2" (sample_msg "agent/a1/output" "n2" 3 "x")) sample_kernel _ _ _ _ _)).
  - vm_compute. reflexivity.
  - vm_compute. reflexivity.
  - intros o. reflexivity.
  - reflexivity.
Defined.

Lemma param_set_exact_witness :
  pget (param_server (state_of (VC := sample_values)
    (@handle_incoming sample_values (gmap_iter _) sample_env
       (mkIncoming "zmq-2" (sample_msg "param/set" "n2" 1 "x")) sample_kernel))) "rate" =
  Some (PInteger 5).
Proof.
  refine (proj1 (@param_set_exact sample_values (gmap_iter _) sample_env
    (mkIncoming "zmq-2" (sample_msg "param/set" "n2" 1 "x")) sample_kernel sample_param "rate"
    (Number (PosInt 5)) _ _ _ _ _ _ _ _)).
  - reflexivity.
  - vm_compute. reflexivity.
  - reflexivity.
  - reflexivity.
  - reflexivity.
  - intros o. reflexivity.
  - reflexivity.
Defined.
