(* ===== verification/Backpressure.v ===== *)
(** * Back-pressure and traffic shaping

    [kernel/backpressure.rs]: the levels of a channel, the token bucket
    [TrafficShaper] and the sender that combines them.

    The token bucket is modelled twice.  [try_acquire] is one call on its own.
    [bstep] interleaves the calls of several threads one atomic access at a
    time, with sequentially consistent accesses: [refill] computes the new
    number of tokens from a load and writes it with a plain store, so tokens
    taken in between come back.

    - On its own, a bucket grants at most its capacity plus the tokens of the
      whole seconds that passed.
    - Interleaved, it grants at most one capacity more for each second, and a
      schedule reaches more than the bound of the bucket on its own.
    - Waiting for a token ends within about a second when the rate is positive. *)

From S2P Require Import Prelude F64.
Local Open Scope Z_scope.

(** ** Levels *)

Record BackpressureConfig := mkBpConfig {
  high_watermark : f64; critical_watermark : f64;
  backpressure_delay_ms : Z; critical_delay_ms : Z; max_rate : Z
}.
Definition default_config : BackpressureConfig := mkBpConfig (f64_lit 8 10) (f64_lit 95 100) 10 100 1000.

Inductive BackpressureLevel := Normal | High | Critical.
#[export] Instance level_eq_dec : EqDecision BackpressureLevel.
Proof. solve_decision. Defined.

Record BackpressureController := mkController {
  config : BackpressureConfig; level : Z;
  sent_count : Z; dropped_count : Z; backpressure_count : Z
}.
Definition controller_new (c : BackpressureConfig) : BackpressureController := mkController c 0 0 0 0.

(** What [try_reserve] and [try_send] see of a channel; [capacity()] is the
    number of free slots. *)
Inductive Channel := Free (slots : Z) | Full | Closed.

Definition usage (ch : Channel) : f64 :=
  match ch with
  | Free slots => fmul (f64_lit 5 10) (fmin (fdiv (f64_of_Z 1) (f64_of_Z (Z.max slots 1))) (f64_of_Z 1))
  | Full | Closed => f64_of_Z 1
  end.

Definition level_of (c : BackpressureConfig) (u : f64) : BackpressureLevel :=
  if fge u (critical_watermark c) then Critical
  else if fge u (high_watermark c) then High else Normal.

Definition level_code (l : BackpressureLevel) : Z := match l with Normal => 0 | High => 1 | Critical => 2 end.

Definition check_channel (ch : Channel) (b : BackpressureController) : BackpressureController * BackpressureLevel :=
  let l := level_of (config b) (usage ch) in
  (mkController (config b) (level_code l) (sent_count b) (dropped_count b)
     (if bool_decide (l = Normal) then backpressure_count b else u64_add (backpressure_count b) 1), l).

Definition get_level (b : BackpressureController) : BackpressureLevel :=
  if level b =? 0 then Normal else if level b =? 1 then High else if level b =? 2 then Critical else Normal.

Definition get_delay (b : BackpressureController) : option Z :=
  match get_level b with
  | Normal => None
  | High => Some (backpressure_delay_ms (config b))
  | Critical => Some (critical_delay_ms (config b))
  end.

Definition record_sent (b : BackpressureController) : BackpressureController :=
  mkController (config b) (level b) (u64_add (sent_count b) 1) (dropped_count b) (backpressure_count b).
Definition record_dropped (b : BackpressureController) : BackpressureController :=
  mkController (config b) (level b) (sent_count b) (u64_add (dropped_count b) 1) (backpressure_count b).

Record BackpressureStats := mkStats { st_level : BackpressureLevel; st_sent : Z; st_dropped : Z; st_pressed : Z }.
Definition stats (b : BackpressureController) : BackpressureStats :=
  mkStats (get_level b) (sent_count b) (dropped_count b) (backpressure_count b).

(** ** The token bucket *)

(** Times are nanoseconds of a monotone clock. *)
Definition SECOND : Z := 1000000000.
Definition MILLI : Z := 1000000.

Record TrafficShaper := mkShaper { tokens : Z; capacity : Z; refill_rate : Z; last_refill : Z }.
Definition shaper_new (cap rate now : Z) : TrafficShaper := mkShaper cap cap rate now.

(** The value [refill] stores, from the tokens it loaded. *)
Definition refilled (s : TrafficShaper) (elapsed current : Z) : Z :=
  Z.min (u64_add current (u64_mul (elapsed / SECOND) (refill_rate s))) (capacity s).

Definition refill (now : Z) (s : TrafficShaper) : TrafficShaper :=
  let elapsed := sat_sub now (last_refill s) in
  if SECOND <=? elapsed then mkShaper (refilled s elapsed (tokens s)) (capacity s) (refill_rate s) now else s.

Definition set_tokens (n : Z) (s : TrafficShaper) : TrafficShaper := mkShaper n (capacity s) (refill_rate s) (last_refill s).

Definition try_acquire (now : Z) (s : TrafficShaper) : TrafficShaper * bool :=
  let s := refill now s in
  if tokens s =? 0 then (s, false) else (set_tokens (tokens s - 1) s, true).

(** [acquire]: an attempt each millisecond; the time of the token, or [None]
    when the fuel runs out. *)
Fixpoint acquire (fuel : nat) (now : Z) (s : TrafficShaper) : option (TrafficShaper * Z) :=
  match fuel with
  | O => None
  | S f => let '(s, got) := try_acquire now s in if got then Some (s, now) else acquire f (now + MILLI) s
  end.

(** ** The sender *)

Record BackpressureSender := mkSender { controller : BackpressureController; shaper : option TrafficShaper }.

(** [send] at time [now], [channel] being the state of the channel at the time
    of the send: the sender, the time of the send and whether it was accepted. *)
Definition send (fuel : nat) (now : Z) (channel : Z -> Channel) (b : BackpressureSender)
    : option (BackpressureSender * Z * bool) :=
  '(sh, now) ← match shaper b with
               | None => Some (None, now)
               | Some s => '(s, now) ← acquire fuel now s; Some (Some s, now)
               end;
  let now := now + MILLI * default 0 (get_delay (controller b)) in
  Some match channel now with
       | Free _ => (mkSender (record_sent (controller b)) sh, now, true)
       | Full => (mkSender (record_dropped (controller b)) sh, now, false)
       | Closed => (mkSender (controller b) sh, now, false)
       end.

(** ** Interleavings of [try_acquire] *)

(** Where a call is; from [Locked] to the store it holds the lock of
    [last_refill].  The store of the tokens, that of [last_refill] and the
    release of the lock are one step: the last two touch only what the lock
    protects. *)
Inductive Pc :=
| Begin
| Locked
| Loading (now elapsed : Z)
| Storing (now new : Z)
| Reading
| Swapping (current : Z)
| Done (got : bool).

Record Bucket := mkBucket { shared : TrafficShaper; lock : bool; now : Z; granted : Z; calls : list Pc }.

Definition goto (i : nat) (pc : Pc) (b : Bucket) : Bucket :=
  mkBucket (shared b) (lock b) (now b) (granted b) (<[i := pc]> (calls b)).
Definition with_lock (l : bool) (b : Bucket) : Bucket := mkBucket (shared b) l (now b) (granted b) (calls b).
Definition with_shared (s : TrafficShaper) (b : Bucket) : Bucket := mkBucket s (lock b) (now b) (granted b) (calls b).
Definition grant (b : Bucket) : Bucket := mkBucket (shared b) (lock b) (now b) (granted b + 1) (calls b).

Definition advance (i : nat) (pc : Pc) (b : Bucket) : Bucket :=
  let s := shared b in
  match pc with
  | Begin => if lock b then goto i Reading b else goto i Locked (with_lock true b)
  | Locked =>
      let elapsed := sat_sub (now b) (last_refill s) in
      if SECOND <=? elapsed then goto i (Loading (now b) elapsed) b else goto i Reading (with_lock false b)
  | Loading t elapsed => goto i (Storing t (refilled s elapsed (tokens s))) b
  | Storing t new => goto i Reading (with_lock false (with_shared (mkShaper new (capacity s) (refill_rate s) t) b))
  | Reading => goto i (if tokens s =? 0 then Done false else Swapping (tokens s)) b
  | Swapping current =>
      if tokens s =? current then goto i (Done true) (grant (with_shared (set_tokens (current - 1) s) b))
      else goto i Reading b
  | Done _ => goto i Begin b
  end.

Inductive bstep : Bucket -> Bucket -> Prop :=
| bstep_run i pc b : calls b !! i = Some pc -> bstep b (advance i pc b)
| bstep_tick d b : 0 <= d -> bstep b (mkBucket (shared b) (lock b) (now b + d) (granted b) (calls b)).

Definition bucket_new (cap rate t0 : Z) (callers : nat) : Bucket :=
  mkBucket (shaper_new cap rate t0) false t0 0 (replicate callers Begin).

(** A schedule: which call moves next, or how long nothing does. *)
Definition bucket_run (l : list (nat + Z)) (b : Bucket) : Bucket :=
  foldl (fun b x =>
    match x with
    | inl i => from_option (fun pc => advance i pc b) b (calls b !! i)
    | inr d => mkBucket (shared b) (lock b) (now b + d) (granted b) (calls b)
    end) b l.

(** ** One caller at a time *)

Lemma u64_add_le x y : 0 <= x -> 0 <= y -> 0 <= u64_add x y <= x + y.
Proof. intros ??. unfold u64_add, wrap. split; [by apply Z.mod_pos_bound|by apply Z.mod_le; lia]. Qed.
Lemma u64_mul_le x y : 0 <= x -> 0 <= y -> 0 <= u64_mul x y <= x * y.
Proof. intros ??. unfold u64_mul, wrap. split; [by apply Z.mod_pos_bound|apply Z.mod_le; nia]. Qed.

(** A refill never exceeds the capacity nor the tokens of the time elapsed:
    arithmetic that wraps only loses tokens. *)
Lemma refilled_le s elapsed current :
  0 <= elapsed -> 0 <= current -> 0 <= refill_rate s -> 0 <= capacity s ->
  0 <= refilled s elapsed current <= capacity s /\
  refilled s elapsed current <= current + elapsed / SECOND * refill_rate s.
Proof.
  intros He Hc Hr Hk. unfold refilled. assert (0 <= elapsed / SECOND) as Hs by (apply Z.div_pos; unfold SECOND; lia).
  pose proof (u64_mul_le _ _ Hs Hr) as Hm.
  pose proof (u64_add_le current (u64_mul (elapsed / SECOND) (refill_rate s)) Hc ltac:(lia)). lia.
Qed.

(** [n] whole seconds of tokens were added since [t0], and [count] tokens granted. *)
Definition shaper_inv (t0 count n : Z) (s : TrafficShaper) : Prop :=
  0 <= n /\ n * SECOND <= last_refill s - t0 /\
  0 <= tokens s <= capacity s /\ count + tokens s <= capacity s + n * refill_rate s.

Lemma refill_inv t0 count n now s : 0 <= refill_rate s -> shaper_inv t0 count n s ->
  exists n', shaper_inv t0 count n' (refill now s).
Proof.
  intros Hr (Hn & Hl & Ht & Hc). unfold refill. destruct (SECOND <=? sat_sub now (last_refill s)) eqn:E.
  - zbool. set (el := sat_sub now (last_refill s)) in *.
    assert (now - last_refill s = el) as Hel by (unfold el, sat_sub, SECOND in *; lia).
    destruct (refilled_le s el (tokens s)) as [Hb Ha]; [unfold SECOND in *; lia..|]. exists (n + el / SECOND).
    pose proof (Z.mul_div_le el SECOND ltac:(unfold SECOND; lia)).
    pose proof (Z.div_pos el SECOND ltac:(unfold SECOND in *; lia) ltac:(unfold SECOND; lia)).
    unfold shaper_inv. cbn [tokens capacity refill_rate last_refill]. rewrite !Z.mul_add_distr_r.
    split_and!; unfold SECOND in *; lia.
  - by exists n.
Qed.

Lemma refill_const now s :
  capacity (refill now s) = capacity s /\ refill_rate (refill now s) = refill_rate s /\
  (last_refill (refill now s) = last_refill s \/ last_refill (refill now s) = now).
Proof. unfold refill. destruct (_ <=? _); cbn; auto. Qed.

(** Calls at the given times, in that order: the tokens granted. *)
Definition run_calls (l : list Z) (s : TrafficShaper) : TrafficShaper * Z :=
  foldl (fun '(s, c) t => let '(s, got) := try_acquire t s in (s, if got then c + 1 else c)) (s, 0) l.

Lemma run_calls_inv t0 tend cap rate l : 0 <= cap -> 0 <= rate -> t0 <= tend -> Forall (fun t => t <= tend) l ->
  let '(s, c) := run_calls l (shaper_new cap rate t0) in
  capacity s = cap /\ refill_rate s = rate /\ last_refill s <= tend /\ exists n, shaper_inv t0 c n s.
Proof.
  intros Hc Hr Ht. unfold run_calls. induction l as [|t l IH] using rev_ind; intros Hl.
  { cbn. split_and!; try done. exists 0. unfold shaper_inv. cbn. lia. }
  apply Forall_app in Hl as [Hl [Hx _]%Forall_cons]. rewrite foldl_app. specialize (IH Hl).
  destruct (foldl _ _ l) as [s c]. destruct IH as (H1 & H2 & H3 & n & Hn). cbn [foldl]. unfold try_acquire.
  destruct (refill_const t s) as (C1 & C2 & C3). destruct (refill_inv t0 c n t s ltac:(lia) Hn) as (n' & Hn').
  destruct (tokens (refill t s) =? 0) eqn:E; zbool; cbn.
  - split_and!; try congruence; [destruct C3; lia|]. by exists n'.
  - split_and!; try congruence; [destruct C3; lia|]. exists n'. unfold shaper_inv in *. cbn. lia.
Qed.

(** A token bucket used by one caller at a time: whatever the times of the
    calls, even out of order, up to [tend] it grants at most its capacity and
    the tokens of the whole seconds since it was made; arithmetic that wraps
    only loses tokens. *)
Theorem shaper_bound t0 tend cap rate l :
  0 <= cap -> 0 <= rate -> t0 <= tend -> Forall (fun t => t <= tend) l ->
  (run_calls l (shaper_new cap rate t0)).2 <= cap + (tend - t0) / SECOND * rate.
Proof.
  intros Hc Hr Ht Hl. pose proof (run_calls_inv t0 tend cap rate l Hc Hr Ht Hl) as H.
  destruct (run_calls l _) as [s c]. destruct H as (H1 & H2 & H3 & n & Hn1 & Hn2 & Hn3 & Hn4). cbn.
  assert (n <= (tend - t0) / SECOND) by (apply Z.div_le_lower_bound; unfold SECOND in *; lia). subst. nia.
Qed.

(** ** Interleaved callers *)

Definition holds (pc : Pc) : bool := match pc with Locked | Loading _ _ | Storing _ _ => true | _ => false end.

(** What a call in the middle of a refill knows. *)
Definition call_ok (b : Bucket) (pc : Pc) : Prop :=
  match pc with
  | Loading t elapsed => SECOND <= t - last_refill (shared b) /\ t <= now b /\ 0 <= elapsed
  | Storing t new => SECOND <= t - last_refill (shared b) /\ t <= now b /\ 0 <= new <= capacity (shared b)
  | Swapping c => 0 < c
  | _ => True
  end.

(** The lock is held by at most one call. *)
Definition lock_ok (b : Bucket) : Prop :=
  forall i pc, calls b !! i = Some pc -> holds pc = true ->
  lock b = true /\ forall j pc', calls b !! j = Some pc' -> holds pc' = true -> j = i.

Definition bucket_inv (t0 : Z) (b : Bucket) : Prop :=
  let s := shared b in
  lock_ok b /\ (forall i pc, calls b !! i = Some pc -> call_ok b pc) /\
  0 <= tokens s <= capacity s /\ last_refill s <= now b /\ 0 <= refill_rate s /\
  exists n, 0 <= n /\ n * SECOND <= last_refill s - t0 /\ granted b + tokens s <= capacity s * (1 + n).

Lemma lock_ok_keep b i pc pc' : lock_ok b -> calls b !! i = Some pc -> (holds pc' = true -> holds pc = true) ->
  lock_ok (goto i pc' b).
Proof.
  intros H Hi Hh j q. cbn. rewrite list_lookup_insert_Some. intros Hj Hq.
  assert (exists q', calls b !! j = Some q' /\ holds q' = true) as (q' & Hq' & Hh').
  { destruct Hj as [(-> & -> & _)|[_ Hj]]; eauto. }
  destruct (H j q' Hq' Hh') as [Hl Hu]. split; [done|]. intros k r. rewrite list_lookup_insert_Some.
  intros [(<- & <- & _)|[_ Hk]] Hr; eauto.
Qed.

Lemma lock_ok_take b i : lock_ok b -> lock b = false -> lock_ok (goto i Locked (with_lock true b)).
Proof.
  intros H Hl j q. cbn. rewrite list_lookup_insert_Some. intros Hj Hq. split; [done|]. intros k r.
  assert (forall m x, calls b !! m = Some x -> holds x = true -> False) as Hno.
  { intros m x Hm Hx. destruct (H m x Hm Hx). congruence. }
  rewrite list_lookup_insert_Some. destruct Hj as [(<- & _)|[_ Hj]]; [|by destruct (Hno _ _ Hj Hq)].
  intros [(<- & _)|[_ Hk]] Hr; [done|]. by destruct (Hno _ _ Hk Hr).
Qed.

Lemma lock_ok_release b i pc s :
  lock_ok b -> calls b !! i = Some pc -> holds pc = true -> lock_ok (goto i Reading (with_lock false (with_shared s b))).
Proof.
  intros H Hi Hh j q. cbn. rewrite list_lookup_insert_Some. intros [(<- & <- & _)|[Hne Hj]] Hq; [done|].
  destruct (H i pc Hi Hh) as [_ Hu]. by destruct Hne; rewrite (Hu j q Hj Hq).
Qed.

Lemma calls_ok_goto b b' i pc' : calls b' = <[i := pc']> (calls b) ->
  (forall j pc, j <> i -> calls b !! j = Some pc -> call_ok b' pc) -> call_ok b' pc' ->
  forall j pc, calls b' !! j = Some pc -> call_ok b' pc.
Proof.
  intros -> Ho Hn j pc. rewrite list_lookup_insert_Some. intros [(<- & <- & _)|[Hne Hj]]; [done|]. eauto.
Qed.

(** A step that changes neither the tokens nor the count. *)
Lemma bucket_inv_quiet t0 b b' :
  bucket_inv t0 b -> shared b' = shared b -> granted b' = granted b -> now b <= now b' ->
  lock_ok b' -> (forall i pc, calls b' !! i = Some pc -> call_ok b' pc) -> bucket_inv t0 b'.
Proof.
  intros (_ & _ & Ht & Hla & Hra & n & Hn) Hs Hg Hw Hl Hc. unfold bucket_inv. rewrite Hs, Hg.
  split_and!; try done; try lia. by exists n.
Qed.

Lemma quiet_goto t0 b i pc pc' : bucket_inv t0 b -> calls b !! i = Some pc -> (holds pc' = true -> holds pc = true) ->
  call_ok b pc' -> bucket_inv t0 (goto i pc' b).
Proof.
  intros H Hi Hh Hc. apply (bucket_inv_quiet t0 b); try done; [by eapply lock_ok_keep; [apply H|..]|].
  eapply calls_ok_goto; [done|..|done]. intros j q _ Hj. by apply H in Hj.
Qed.

Lemma store_inv t0 b i t new : bucket_inv t0 b -> calls b !! i = Some (Storing t new) ->
  bucket_inv t0 (advance i (Storing t new) b).
Proof.
  intros (Hlk & Hok & Ht & Hla & Hra & n & Hn1 & Hn2 & Hn3) Hi. pose proof (Hok i _ Hi) as Hpc. cbn in Hpc.
  assert (SECOND = 1000000000) as HS by done.
  split; [by apply (lock_ok_release b i (Storing t new))|]. split.
  - eapply calls_ok_goto; try done. intros j q Hj Hq. destruct (holds q) eqn:Hh.
    { destruct (Hlk i _ Hi eq_refl) as [_ Hu]. by destruct Hj; apply (Hu j q). }
    specialize (Hok j q Hq). by destruct q.
  - cbn. split_and!; try lia. exists (n + 1). split_and!; lia.
Qed.

Lemma swap_inv t0 b i c : bucket_inv t0 b -> calls b !! i = Some (Swapping c) ->
  bucket_inv t0 (advance i (Swapping c) b).
Proof.
  intros H Hi. cbn [advance]. destruct (tokens (shared b) =? c) eqn:E; zbool; [|by eapply quiet_goto].
  destruct H as (Hlk & Hok & Ht & Hla & Hra & n & Hn1 & Hn2 & Hn3). pose proof (Hok i _ Hi) as Hpc. cbn in Hpc.
  split; [by apply (lock_ok_keep (grant (with_shared _ b)) i (Swapping c))|]. split.
  - eapply calls_ok_goto; try done. intros j q Hj Hq. specialize (Hok j q Hq). by destruct q.
  - cbn. split_and!; try lia. exists n. split_and!; lia.
Qed.

Lemma bstep_inv t0 b b' : bstep b b' -> bucket_inv t0 b -> bucket_inv t0 b'.
Proof.
  destruct 1 as [i pc b Hi|d b Hd]; intros H.
  2:{ apply (bucket_inv_quiet t0 b); try done; [cbn; lia|apply H|]. intros i pc Hi. apply H in Hi.
      destruct pc; cbn in *; try done; lia. }
  assert (SECOND = 1000000000) as HS by done. pose proof H as (Hlk & Hok & Ht & Hla & Hra & _).
  pose proof (Hok i pc Hi) as Hpc. destruct pc as [| |t el|t new| |c|got]; cbn [call_ok] in Hpc.
  - cbn [advance]. destruct (lock b) eqn:El; [by eapply quiet_goto|].
    apply (bucket_inv_quiet t0 b); try done; [by apply lock_ok_take|]. by eapply calls_ok_goto; [|eauto|].
  - cbn [advance]. destruct (SECOND <=? sat_sub (now b) (last_refill (shared b))) eqn:E; zbool.
    + eapply quiet_goto; try done. cbn. unfold sat_sub in *. lia.
    + apply (bucket_inv_quiet t0 b); try done; [by apply (lock_ok_release b i Locked (shared b))|].
      by eapply calls_ok_goto; [|eauto|].
  - cbn [advance]. eapply quiet_goto; try done. cbn.
    destruct (refilled_le (shared b) el (tokens (shared b))) as [Hr _]; lia.
  - by apply store_inv.
  - cbn [advance]. eapply quiet_goto; try done; [by destruct (_ =? _)|].
    destruct (_ =? _) eqn:E; zbool; cbn; lia.
  - by apply swap_inv.
  - by eapply quiet_goto.
Qed.

Lemma bucket_new_inv cap rate t0 callers : 0 <= cap -> 0 <= rate -> bucket_inv t0 (bucket_new cap rate t0 callers).
Proof.
  intros Hc Hr. assert (forall i pc, calls (bucket_new cap rate t0 callers) !! i = Some pc -> pc = Begin) as Hb.
  { intros i pc Hi. by apply lookup_replicate in Hi as [-> _]. }
  split_and!; cbn; try lia.
  - intros i pc ->%Hb. done.
  - by intros i pc ->%Hb.
  - exists 0. lia.
Qed.

(** However many threads call [try_acquire] and however their accesses
    interleave, the tokens granted by the time [now] are at most the capacity,
    once at the start and once for each whole second since. *)
Theorem interleaved_bound cap rate t0 callers b :
  0 <= cap -> 0 <= rate -> rtc bstep (bucket_new cap rate t0 callers) b ->
  granted b <= cap * (1 + (now b - t0) / SECOND).
Proof.
  intros Hc Hr Hb. assert (bucket_inv t0 b /\ capacity (shared b) = cap) as [H Hcap].
  { revert b Hb. apply (rtc_ind_r (fun b => bucket_inv t0 b /\ capacity (shared b) = cap)).
    { by split; [apply bucket_new_inv|]. }
    intros x y _ Hxy [Hx Hk]. split; [by eapply bstep_inv|].
    rewrite <- Hk. destruct Hxy as [i pc x _|]; [|done]. unfold advance. by repeat case_match. }
  destruct H as (_ & _ & Ht & Hla & _ & n & Hn1 & Hn2 & Hn3).
  assert (n <= (now b - t0) / SECOND) by (apply Z.div_le_lower_bound; unfold SECOND in *; lia). subst cap. nia.
Qed.

Lemma bucket_run_steps l b : Forall (fun x => match x with inl _ => True | inr d => 0 <= d end) l ->
  rtc bstep b (bucket_run l b).
Proof.
  unfold bucket_run. revert b. induction l as [|x l IH]; intros b Hl; [done|].
  apply Forall_cons in Hl as [Hx Hl]. cbn [foldl]. etrans; [|by apply IH].
  destruct x as [i|d]; [|by apply rtc_once, bstep_tick].
  destruct (calls b !! i) as [pc|] eqn:E; cbn; [by apply rtc_once, bstep_run|done].
Qed.

Lemma run_next i pc l s k t g cs : (i < length cs)%nat ->
  bucket_run (inl i :: l) (mkBucket s k t g (<[i := pc]> cs)) =
  bucket_run l (advance i pc (mkBucket s k t g (<[i := pc]> cs))).
Proof. intros H. unfold bucket_run. cbn [foldl calls]. by rewrite list_lookup_insert_eq. Qed.

Ltac run_next e :=
  rewrite run_next by done; cbn [advance shared lock now granted calls]; rewrite ?e;
  unfold goto, with_lock, with_shared, grant; cbn [shared lock now granted calls]; rewrite ?list_insert_insert_eq.

(** A call that runs alone is [try_acquire], in at most six steps. *)
Lemma alone_is_try_acquire b i : lock b = false -> calls b !! i = Some Begin ->
  let '(s, got) := try_acquire (now b) (shared b) in
  exists k, (k <= 6)%nat /\
  bucket_run (replicate k (inl i)) b =
    mkBucket s false (now b) (if got then granted b + 1 else granted b) (<[i := Done got]> (calls b)).
Proof.
  intros Hl Hi. destruct b as [s l t g cs]. cbn [shared now granted calls lock] in *. subst l.
  assert (i < length cs)%nat as Hlt by by apply lookup_lt_Some in Hi.
  unfold try_acquire, refill. destruct (SECOND <=? sat_sub t (last_refill s)) eqn:E.
  - set (s' := mkShaper _ _ _ t). destruct (tokens s' =? 0) eqn:Ez; [exists 5%nat|exists 6%nat]; (split; [lia|]);
      cbn [replicate]; rewrite <- (list_insert_id cs i Begin Hi) at 1; do 4 run_next E; fold s'; run_next Ez; [done|].
    by run_next (Z.eqb_refl (tokens s')).
  - destruct (tokens s =? 0) eqn:Ez; [exists 3%nat|exists 4%nat]; (split; [lia|]);
      cbn [replicate]; rewrite <- (list_insert_id cs i Begin Hi) at 1; do 2 run_next E; run_next Ez; [done|].
    by run_next (Z.eqb_refl (tokens s)).
Qed.

(** ** Waiting for a token *)

Lemma refill_gives now s : 0 < refill_rate s -> 0 < capacity s -> 0 <= tokens s ->
  SECOND <= now - last_refill s ->
  tokens s + (now - last_refill s) / SECOND * refill_rate s <= u64_max -> 0 < tokens (refill now s).
Proof.
  intros Hr Hc Ht He Hb. unfold refill, sat_sub, refilled. rewrite Z.max_r by (unfold SECOND in *; lia).
  rewrite (proj2 (Z.leb_le _ _) He). cbn [tokens].
  assert (1 <= (now - last_refill s) / SECOND) as Hq by (apply Z.div_le_lower_bound; unfold SECOND in *; lia).
  unfold u64_mul. rewrite wrap_small by (unfold u64_max in *; nia). rewrite u64_add_small by nia. nia.
Qed.

(** With a positive rate and capacity, waiting for a token ends within
    one second of waiting, if the tokens of the time since the last refill do
    not overflow. *)
Theorem acquire_ends s now :
  0 < refill_rate s -> 0 < capacity s -> 0 <= tokens s <= capacity s -> last_refill s <= now ->
  capacity s + ((now - last_refill s) / SECOND + 1) * refill_rate s <= u64_max ->
  exists s' t, acquire 1001 now s = Some (s', t) /\ now <= t <= now + SECOND /\ 0 <= tokens s' < capacity s.
Proof.
  intros Hr Hc Ht Hl Hb. assert (SECOND = 1000000000) as HS by done. assert (MILLI = 1000000) as HM by done.
  assert (forall f t, (0 < f)%nat -> now <= t -> t + MILLI * (Z.of_nat f - 1) = now + SECOND ->
    exists s' t', acquire f t s = Some (s', t') /\ now <= t' <= now + SECOND /\ 0 <= tokens s' < capacity s) as H.
  2:{ apply (H 1001%nat now); lia. }
  induction f as [|f IH]; intros t Hf Hn Hsum; [lia|]. cbn [acquire]. unfold try_acquire.
  assert (0 <= tokens (refill t s) <= capacity s) as Hbd.
  { unfold refill. destruct (SECOND <=? _) eqn:E; zbool; [|lia]. cbn [tokens].
    destruct (refilled_le s (sat_sub t (last_refill s)) (tokens s)); lia. }
  destruct (tokens (refill t s) =? 0) eqn:Ez; zbool.
  2:{ eexists _, _. split; [done|]. cbn. lia. }
  destruct (decide (SECOND <= t - last_refill s)) as [He|He].
  { assert ((t - last_refill s) / SECOND <= (now - last_refill s) / SECOND + 1).
    { rewrite <- Z.div_add by lia. apply Z.div_le_mono; lia. }
    pose proof (refill_gives t s Hr Hc ltac:(lia) He). nia. }
  assert (refill t s = s) as ->.
  { unfold refill. destruct (SECOND <=? _) eqn:E; zbool; [|done]. unfold sat_sub in E. lia. }
  destruct f as [|f]; [lia|]. apply IH; lia.
Qed.

(** ** Witnesses *)

Lemma shaper_bound_witness :
  (run_calls [0; 0; SECOND; SECOND; 5 * SECOND] (shaper_new 1 1 0)).2 = 3 /\
  (run_calls [0; 0; SECOND; SECOND; 5 * SECOND] (shaper_new 1 1 0)).2 <= 1 + (5 * SECOND - 0) / SECOND * 1.
Proof.
  split; [by vm_compute|]. apply (shaper_bound 0 (5 * SECOND) 1 1); try (unfold SECOND; lia).
  repeat constructor; unfold SECOND; lia.
Defined.

(** One call of thread 1 while thread 0 holds the lock. *)
Definition one_grant : list (nat + Z) := [inl 1%nat; inl 1%nat; inl 1%nat; inl 1%nat].
Definition race : list (nat + Z) :=
  [inr SECOND; inl 0%nat; inl 0%nat; inl 0%nat] ++ one_grant ++ one_grant ++ one_grant ++ one_grant ++ one_grant ++
  [inl 0%nat] ++ [inl 1%nat; inl 1%nat; inl 1%nat; inl 1%nat; inl 1%nat; inl 1%nat] ++
  one_grant ++ one_grant ++ one_grant ++ one_grant ++ one_grant.

(** Five tokens taken between the load and the store of a refill come back:
    ten are granted in one second, where the bucket on its own gives six. *)
Lemma interleaved_bound_witness :
  granted (bucket_run race (bucket_new 5 1 0 2)) = 10 /\
  granted (bucket_run race (bucket_new 5 1 0 2)) <= 5 * (1 + (now (bucket_run race (bucket_new 5 1 0 2)) - 0) / SECOND).
Proof.
  split; [by vm_compute|]. apply (interleaved_bound 5 1 0 2); [lia|lia|]. apply bucket_run_steps.
  unfold race, one_grant. cbn [app]. repeat (apply Forall_cons_2; [first [exact I|unfold SECOND; lia]|]). constructor.
Defined.

Lemma acquire_ends_witness :
  exists s' t, acquire 1001 0 (mkShaper 0 10 5 0) = Some (s', t) /\ 0 <= t <= 0 + SECOND /\ 0 <= tokens s' < 10.
Proof. apply (acquire_ends (mkShaper 0 10 5 0) 0); cbn [refill_rate capacity tokens last_refill]; try lia. by vm_compute. Defined.

(** A bucket with rate zero never gives a token again. *)
Lemma empty_without_rate f now s : refill_rate s = 0 -> tokens s = 0 -> 0 <= capacity s -> acquire f now s = None.
Proof.
  revert now s. induction f as [|f IH]; intros now s Hr Ht Hc; [done|]. cbn [acquire]. unfold try_acquire.
  assert (tokens (refill now s) = 0) as Hz.
  { unfold refill. destruct (SECOND <=? _); [|done]. cbn [tokens]. unfold refilled, u64_add, u64_mul, wrap.
    rewrite Hr, Ht, Z.mul_0_r, Z.add_0_l, !Z.mod_0_l by done. lia. }
  destruct (refill_const now s) as (H1 & H2 & _). rewrite Hz. cbn. apply IH; congruence || lia.
Qed.

(** The level follows from full or not: the estimate of a channel with a free
    slot is at most one half, so the level between the marks is not used. *)
Example channel_levels :
  (fun ch => (check_channel ch (controller_new default_config)).2) <$>
    [Free 1; Free 2; Free 10; Free 100; Free 1024; Free 10000; Full; Closed]
  = [Normal; Normal; Normal; Normal; Normal; Normal; Critical; Critical].
Proof. by vm_compute. Qed.

Lemma check_then_level ch b : get_level (check_channel ch b).1 = (check_channel ch b).2.
Proof. unfold check_channel, get_level. cbn. by destruct (level_of _ _). Qed.
