(* ===== verification/HunkDiff.v ===== *)
(** * Hunks of a file (ccode-hunk/src/diff.rs, types.rs)

    A hunk is a maximal run of changed lines between the baseline of a file and
    its current content.  [compute_hunks] cuts the change list of the line
    differ ([similar], a third-party crate, here the class [Differ]) into
    hunks; [patch_lines] replaces a range of lines, which is how hunks are
    accepted (into the baseline) and rejected (out of the current content);
    [find_matching_old_hunk] pairs the hunks of two diffs.

    The display-only fields [created_at] and [selected] of a hunk are left
    out.  A [HunkId] is the number of the UUID drawn; [N] makes the draws
    distinct. *)

From S2P Require Import Prelude RustStr TextLines.

(** ** Data *)

Abbreviation HunkId := N.

Record HunkLineInfo := mkLineInfo {
  old_start : nat;
  old_count : nat;
  new_start : nat;
  new_count : nat
}.

Inductive HunkSource :=
| AgentEdit (prompt_index : nat)
| ExternalEditOnAgentFile
| External.

Record Hunk := mkHunk {
  id : HunkId;
  path : string;
  line_info : HunkLineInfo;
  source : HunkSource;
  old_text : option string;
  new_text : string;
  patch : option string
}.

#[export] Instance HunkLineInfo_eq_dec : EqDecision HunkLineInfo.
Proof. solve_decision. Defined.
#[export] Instance HunkSource_eq_dec : EqDecision HunkSource.
Proof. solve_decision. Defined.
#[export] Instance Hunk_eq_dec : EqDecision Hunk.
Proof. solve_decision. Defined.

Definition is_agent_edit (s : HunkSource) : bool :=
  match s with AgentEdit _ => true | _ => false end.
Definition is_external (s : HunkSource) : bool :=
  match s with External | ExternalEditOnAgentFile => true | _ => false end.
Definition prompt_index (s : HunkSource) : option nat :=
  match s with AgentEdit p => Some p | _ => None end.

Definition with_id (i : HunkId) (h : Hunk) : Hunk :=
  mkHunk i (path h) (line_info h) (source h) (old_text h) (new_text h) (patch h).
Definition with_source (s : HunkSource) (h : Hunk) : Hunk :=
  mkHunk (id h) (path h) (line_info h) s (old_text h) (new_text h) (patch h).
Definition with_patch (p : option string) (h : Hunk) : Hunk :=
  mkHunk (id h) (path h) (line_info h) (source h) (old_text h) (new_text h) p.

(** The hunk of a created and of a deleted file. *)
Definition file_created (i : HunkId) (p content : string) (src : HunkSource) : Hunk :=
  mkHunk i p (mkLineInfo 0 0 1 (length (lines content) `max` 1)) src None content None.
Definition file_deleted (i : HunkId) (p content : string) (src : HunkSource) : Hunk :=
  mkHunk i p (mkLineInfo 1 (length (lines content) `max` 1) 0 0) src (Some content) "" None.

(** ** The line differ *)

Inductive ChangeTag := Equal | Delete | Insert.

Definition old_values (chs : list (ChangeTag * string)) : list string :=
  omap (fun '(t, v) => match t with Insert => None | _ => Some v end) chs.
Definition new_values (chs : list (ChangeTag * string)) : list string :=
  omap (fun '(t, v) => match t with Delete => None | _ => Some v end) chs.

(** [TextDiff::configure().timeout(..).diff_lines(old, new)]: the changes of
    [iter_all_changes] and the time the diff took.  The changes that are in the
    old text spell its lines, and those in the new text spell the lines of the
    new one (for texts without carriage returns, which [similar] also takes
    for terminators). *)
Class Differ := {
  diff_changes : string -> string -> list (ChangeTag * string);
  diff_elapsed_ms : string -> string -> Z;
  diff_old : forall b c, has_char cr b = false -> has_char cr c = false ->
    old_values (diff_changes b c) = split_inclusive b;
  diff_new : forall b c, has_char cr b = false -> has_char cr c = false ->
    new_values (diff_changes b c) = split_inclusive c
}.

Definition DIFF_TIMEOUT_ms : Z := 10000.
Definition MAX_DIFF_FILE_SIZE : Z := 1024 * 1024.
Definition CONTEXT_LINES : nat := 3.

(** ** Building hunks *)

Record HunkBuilder := mkBuilder {
  b_old_start : nat;
  b_new_start : nat;
  b_old_lines : list string;
  b_new_lines : list string
}.

Definition builder_new (o n : nat) : HunkBuilder := mkBuilder o n [] [].
Definition add_old_line (v : string) (b : HunkBuilder) : HunkBuilder :=
  mkBuilder (b_old_start b) (b_new_start b) (b_old_lines b ++ [v]) (b_new_lines b).
Definition add_new_line (v : string) (b : HunkBuilder) : HunkBuilder :=
  mkBuilder (b_old_start b) (b_new_start b) (b_old_lines b) (b_new_lines b ++ [v]).

Definition build (i : HunkId) (p : string) (src : HunkSource) (b : HunkBuilder) : Hunk :=
  mkHunk i p
    (mkLineInfo (b_old_start b) (length (b_old_lines b)) (b_new_start b) (length (b_new_lines b)))
    src
    (if bool_decide (b_old_lines b = []) then None else Some (str_concat (b_old_lines b)))
    (str_concat (b_new_lines b)) None.

(** The variables of the loop over the changes. *)
Record Scan := mkScan {
  hunks_out : list Hunk;
  old_line : nat;
  new_line : nat;
  current_hunk : option HunkBuilder;
  next_uuid : N
}.

(** [if let Some(builder) = current_hunk.take() { hunks.push(builder.build(..)) }] *)
Definition finish_hunk (p : string) (src : HunkSource) (s : Scan) : Scan :=
  match current_hunk s with
  | None => s
  | Some b =>
      mkScan (hunks_out s ++ [build (next_uuid s) p src b]) (old_line s) (new_line s) None
             (next_uuid s + 1)
  end.

Definition scan_change (p : string) (src : HunkSource) (s : Scan) (ch : ChangeTag * string) : Scan :=
  let '(tag, v) := ch in
  let cur := default (builder_new (old_line s) (new_line s)) (current_hunk s) in
  match tag with
  | Equal =>
      let s := finish_hunk p src s in
      mkScan (hunks_out s) (old_line s + 1) (new_line s + 1) (current_hunk s) (next_uuid s)
  | Delete =>
      mkScan (hunks_out s) (old_line s + 1) (new_line s) (Some (add_old_line v cur)) (next_uuid s)
  | Insert =>
      mkScan (hunks_out s) (old_line s) (new_line s + 1) (Some (add_new_line v cur)) (next_uuid s)
  end.

Definition scan_changes (p : string) (src : HunkSource) (next : N) (chs : list (ChangeTag * string))
    : Scan :=
  finish_hunk p src (foldl (scan_change p src) (mkScan [] 1 1 None next) chs).

(** [compute_hunks]: the hunks and the next UUID. *)
Definition compute_hunks `{Differ} (p baseline current : string) (src : HunkSource) (next : N)
    : list Hunk * N :=
  if bool_decide (baseline = current) then ([], next)
  else if (MAX_DIFF_FILE_SIZE <? Z.of_nat (String.length baseline))%Z
       || (MAX_DIFF_FILE_SIZE <? Z.of_nat (String.length current))%Z then ([], next)
  else if (DIFF_TIMEOUT_ms <=? diff_elapsed_ms baseline current)%Z then ([], next)
  else let s := scan_changes p src next (diff_changes baseline current) in
       (hunks_out s, next_uuid s).

(** ** Patching *)

Definition patch_lines (content : string) (start_line remove_count : nat) (insert_text : string)
    : string :=
  let ls := lines content in
  let start_idx := start_line - 1 in
  let inserted := if bool_decide (insert_text = "") then [] else lines insert_text in
  let end_idx := (start_idx + remove_count) `min` length ls in
  let result := take (start_idx `min` length ls) ls ++ inserted ++ drop end_idx ls in
  let output := join_char nl result in
  if ends_with (str1 nl) content && negb (bool_decide (output = ""))
  then output +:+ str1 nl else output.

(** ** Matching hunks of two diffs *)

Definition hunks_match_content (a b : Hunk) : bool :=
  bool_decide (path a = path b) && bool_decide (old_text a = old_text b)
  && bool_decide (new_text a = new_text b).

Definition hunk_moved (old new : Hunk) : bool :=
  hunks_match_content old new && negb (bool_decide (line_info old = line_info new)).

Definition hunks_overlap (a b : Hunk) : bool :=
  if negb (bool_decide (path a = path b)) then false
  else
    let a_start := old_start (line_info a) in
    let a_count := old_count (line_info a) in
    let b_start := old_start (line_info b) in
    let b_count := old_count (line_info b) in
    let a_end := a_start + a_count in
    let b_end := b_start + b_count in
    if (a_count =? 0) && (b_count =? 0) then a_start =? b_start
    else if a_count =? 0 then (b_start <=? a_start) && (a_start <=? b_end)
    else if b_count =? 0 then (a_start <=? b_start) && (b_start <=? a_end)
    else negb ((a_end <? b_start) || (b_end <? a_start)).

Definition calculate_overlap_size (a b : HunkLineInfo) : nat :=
  (old_start a + old_count a) `min` (old_start b + old_count b)
  - (old_start a `max` old_start b).

Definition abs_diff (x y : nat) : nat := (x - y) + (y - x).

(** [iter.min_by_key(f)]: the first of the smallest. *)
Fixpoint min_by_key {A} (f : A -> nat) (l : list A) : option A :=
  match l with
  | [] => None
  | x :: l' => match min_by_key f l' with
               | Some y => if f y <? f x then Some y else Some x
               | None => Some x
               end
  end.

(** [iter.max_by_key(f)]: the last of the largest. *)
Fixpoint max_by_key {A} (f : A -> nat) (l : list A) : option A :=
  match l with
  | [] => None
  | x :: l' => match max_by_key f l' with
               | Some y => if f x <=? f y then Some y else Some x
               | None => Some x
               end
  end.

Definition find_matching_old_hunk (new_hunk : Hunk) (old_hunks : list Hunk) : option Hunk :=
  let content_matches := filter (fun o => hunks_match_content o new_hunk = true) old_hunks in
  if negb (bool_decide (content_matches = [])) then
    min_by_key (fun o => abs_diff (new_start (line_info o)) (new_start (line_info new_hunk)))
               content_matches
  else
    max_by_key (fun o => calculate_overlap_size (line_info o) (line_info new_hunk))
               (filter (fun o => hunks_overlap o new_hunk = true) old_hunks).

(** ** The two texts as segments

    A change list is a sequence of kept lines and edits (the lines removed and
    the lines put in their place), two edits never adjacent. *)

Inductive seg :=
| Keep (v : string)
| Edit (o n : list string).

Fixpoint group (chs : list (ChangeTag * string)) : list seg :=
  match chs with
  | [] => []
  | (Equal, v) :: r => Keep v :: group r
  | (Delete, v) :: r =>
      match group r with Edit o n :: t => Edit (v :: o) n :: t | t => Edit [v] [] :: t end
  | (Insert, v) :: r =>
      match group r with Edit o n :: t => Edit o (v :: n) :: t | t => Edit [] [v] :: t end
  end.

Fixpoint old_side (l : list seg) : list string :=
  match l with
  | [] => []
  | Keep v :: r => v :: old_side r
  | Edit o _ :: r => o ++ old_side r
  end.
Fixpoint new_side (l : list seg) : list string :=
  match l with
  | [] => []
  | Keep v :: r => v :: new_side r
  | Edit _ n :: r => n ++ new_side r
  end.
Definition swap_seg (g : seg) : seg :=
  match g with Keep v => Keep v | Edit o n => Edit n o end.

Fixpoint alternating (l : list seg) : Prop :=
  match l with
  | [] => True
  | Keep _ :: r => alternating r
  | Edit o n :: r =>
      (o <> [] \/ n <> []) /\ match r with Edit _ _ :: _ => False | _ => True end /\ alternating r
  end.

Lemma group_sides chs : old_side (group chs) = old_values chs /\ new_side (group chs) = new_values chs.
Proof.
  induction chs as [|[[] v] r [IHo IHn]]; [done|..]; cbn [group old_values new_values omap list_omap];
    fold (old_values r) (new_values r); rewrite <- IHo, <- IHn.
  - done.
  - by destruct (group r) as [|[]].
  - by destruct (group r) as [|[]].
Qed.

Lemma group_alternating chs : alternating (group chs).
Proof.
  induction chs as [|[[] v] r IH]; cbn; [done..| |];
    destruct (group r) as [|[|o n] t]; cbn in *; naive_solver.
Qed.

Lemma swap_sides l :
  old_side (swap_seg <$> l) = new_side l /\ new_side (swap_seg <$> l) = old_side l.
Proof.
  induction l as [|[v|o n] l [IHo IHn]]; [done|..]; rewrite fmap_cons; cbn; by rewrite IHo, IHn.
Qed.

Lemma swap_alternating l : alternating l -> alternating (swap_seg <$> l).
Proof.
  induction l as [|[|o n] l IH]; [done|..]; rewrite fmap_cons; cbn.
  - done.
  - intros (H1 & H2 & H3). split; [tauto|]. split; [|auto].
    destruct l as [|[]]; done.
Qed.

(** ** The hunks of a list of segments *)

Fixpoint aligned (ol nw : nat) (l : list seg) (hs : list Hunk) : Prop :=
  match l, hs with
  | [], [] => True
  | Keep _ :: r, _ => aligned (S ol) (S nw) r hs
  | Edit o n :: r, h :: hs' =>
      line_info h = mkLineInfo ol (length o) nw (length n) /\
      old_text h = (if bool_decide (o = []) then None else Some (str_concat o)) /\
      new_text h = str_concat n /\
      aligned (ol + length o) (nw + length n) r hs'
  | _, _ => False
  end.

(** A builder in progress is an edit in front of the segments to come. *)
Definition push_builder (b : option HunkBuilder) (l : list seg) : list seg :=
  match b with
  | None => l
  | Some b =>
      match l with
      | Edit o n :: t => Edit (b_old_lines b ++ o) (b_new_lines b ++ n) :: t
      | t => Edit (b_old_lines b) (b_new_lines b) :: t
      end
  end.

Definition scan_start (s : Scan) : nat * nat :=
  match current_hunk s with
  | None => (old_line s, new_line s)
  | Some b => (b_old_start b, b_new_start b)
  end.

Definition scan_ok (s : Scan) : Prop :=
  match current_hunk s with
  | None => True
  | Some b => old_line s = b_old_start b + length (b_old_lines b) /\
              new_line s = b_new_start b + length (b_new_lines b)
  end.

(** The hunks pushed from a scan state on: consecutive identifiers, path and
    source of the call, aligned with the segments. *)
Definition hunks_from (p : string) (src : HunkSource) (next : N) (hs : list Hunk) : Prop :=
  id <$> hs = (fun k => next + N.of_nat k)%N <$> seq 0 (length hs) /\
  Forall (fun h => path h = p /\ source h = src /\ patch h = None) hs.

Lemma hunks_from_cons p src next h hs :
  id h = next -> path h = p -> source h = src -> patch h = None ->
  hunks_from p src (next + 1) hs -> hunks_from p src next (h :: hs).
Proof.
  intros Hi Hp Hs Hq [IHi IHf]. split; [|by constructor].
  cbn [length seq]. rewrite !fmap_cons, Hi, IHi, <- fmap_S_seq, <- list_fmap_compose.
  f_equal; [lia|]. apply list_fmap_ext. intros _ k _. cbn. lia.
Qed.

Lemma scan_fold p src chs : forall out ol nw cur nx, scan_ok (mkScan out ol nw cur nx) ->
  let s' := finish_hunk p src (foldl (scan_change p src) (mkScan out ol nw cur nx) chs) in
  let start := scan_start (mkScan out ol nw cur nx) in
  exists hs, hunks_out s' = out ++ hs /\
    aligned start.1 start.2 (push_builder cur (group chs)) hs /\
    hunks_from p src nx hs /\ next_uuid s' = (nx + N.of_nat (length hs))%N.
Proof.
  induction chs as [|[tag v] r IH]; intros out ol nw cur nx Hs; cbn [foldl].
  - destruct cur as [b|]; cbn.
    + eexists [_]. split_and!; try done. by apply hunks_from_cons.
    + exists []. rewrite app_nil_r. split_and!; [done..|by split|cbn; lia].
  - destruct tag, cur as [b|]; cbn [scan_change finish_hunk current_hunk default hunks_out old_line
      new_line next_uuid]; unfold scan_ok in Hs; cbn in Hs.
    + destruct (IH (out ++ [build nx p src b]) (ol + 1) (nw + 1) None (nx + 1)%N)
        as (hs & Ho & Ha & Hf & Hn); [done|].
      exists (build nx p src b :: hs). cbv zeta. rewrite Ho, Hn, <- app_assoc.
      destruct Hs as [-> ->]. cbn in Ha |- *. rewrite !Nat.add_1_r in Ha.
      split_and!; try done; [by apply hunks_from_cons|lia].
    + destruct (IH out (ol + 1) (nw + 1) None nx) as (hs & Ho & Ha & Hf & Hn); [done|].
      exists hs. cbn in Ha |- *. by rewrite !Nat.add_1_r in Ha.
    + destruct (IH out (ol + 1) nw (Some (add_old_line v b)) nx) as (hs & Ho & Ha & Hf & Hn).
      { unfold scan_ok. cbn. rewrite length_app. cbn. lia. }
      exists hs. split_and!; try done. cbn in Ha |- *.
      destruct (group r) as [|[|o n] t]; cbn in Ha |- *; by rewrite ?app_nil_r, <- ?app_assoc in *.
    + destruct (IH out (ol + 1) nw (Some (add_old_line v (builder_new ol nw))) nx)
        as (hs & Ho & Ha & Hf & Hn); [unfold scan_ok; cbn; lia|].
      exists hs. split_and!; try done. cbn in Ha |- *. by destruct (group r) as [|[|o n] t].
    + destruct (IH out ol (nw + 1) (Some (add_new_line v b)) nx) as (hs & Ho & Ha & Hf & Hn).
      { unfold scan_ok. cbn. rewrite length_app. cbn. lia. }
      exists hs. split_and!; try done. cbn in Ha |- *.
      destruct (group r) as [|[|o n] t]; cbn in Ha |- *; by rewrite ?app_nil_r, <- ?app_assoc in *.
    + destruct (IH out ol (nw + 1) (Some (add_new_line v (builder_new ol nw))) nx)
        as (hs & Ho & Ha & Hf & Hn); [unfold scan_ok; cbn; lia|].
      exists hs. split_and!; try done. cbn in Ha |- *. by destruct (group r) as [|[|o n] t].
Qed.

Lemma scan_changes_spec p src next chs :
  let s := scan_changes p src next chs in
  aligned 1 1 (group chs) (hunks_out s) /\ hunks_from p src next (hunks_out s) /\
  next_uuid s = (next + N.of_nat (length (hunks_out s)))%N.
Proof.
  destruct (scan_fold p src chs [] 1 1 None next I) as (hs & Ho & Ha & Hf & Hn).
  unfold scan_changes. cbv zeta. rewrite Ho. by rewrite app_nil_l.
Qed.

(** The hunks computed are fresh and carry the path and source of the call. *)
Lemma compute_hunks_fresh `{Differ} p b c src next :
  let '(hs, next') := compute_hunks p b c src next in
  hunks_from p src next hs /\ next' = (next + N.of_nat (length hs))%N.
Proof.
  unfold compute_hunks. repeat case_match; simplify_eq/=; try (split; [by split|cbn; lia]).
  destruct (scan_changes_spec p src next (diff_changes b c)) as (_ & Hf & Hn). done.
Qed.

Lemma aligned_starts ol nw l hs :
  aligned ol nw l hs ->
  Forall (fun h => ol <= old_start (line_info h) /\ nw <= new_start (line_info h)) hs.
Proof.
  revert ol nw hs. induction l as [|[v|o n] l IH]; intros ol nw hs Ha.
  - by destruct hs.
  - apply IH in Ha. eapply Forall_impl; [exact Ha|]. cbn. lia.
  - destruct hs as [|h hs]; [done|]. destruct Ha as (Hl & _ & _ & Ha).
    constructor; [rewrite Hl; cbn; lia|].
    apply IH in Ha. eapply Forall_impl; [exact Ha|]. cbn. lia.
Qed.

(** Two hunks of one diff are apart in both files: the later starts at least
    one line after the end of the earlier. *)
Definition apart (a b : Hunk) : Prop :=
  old_start (line_info a) + old_count (line_info a) < old_start (line_info b) /\
  new_start (line_info a) + new_count (line_info a) < new_start (line_info b).

Lemma aligned_apart ol nw l hs :
  aligned ol nw l hs -> alternating l -> StronglySorted apart hs.
Proof.
  revert ol nw hs. induction l as [|[v|o n] l IH]; intros ol nw hs Ha Hw.
  - destruct hs; [constructor|done].
  - eapply IH; eauto.
  - destruct hs as [|h hs]; [done|]. destruct Ha as (Hl & _ & _ & Ha), Hw as (_ & Hnext & Hw).
    constructor; [eapply IH; eauto|].
    assert (Forall (fun h' => ol + length o < old_start (line_info h') /\
                              nw + length n < new_start (line_info h')) hs) as Hs.
    { destruct l as [|[v|] l]; [by destruct hs| |done].
      cbn [aligned] in Ha. apply aligned_starts in Ha. eapply Forall_impl; [exact Ha|]. cbn. lia. }
    eapply Forall_impl; [exact Hs|]. intros h'. unfold apart. rewrite Hl. cbn. lia.
Qed.

Lemma apart_no_overlap a b : apart a b -> hunks_overlap a b = false /\ hunks_overlap b a = false.
Proof.
  intros [Ho _]. unfold hunks_overlap.
  split; (destruct (bool_decide _); [cbv zeta; cbn [negb]|done]);
    repeat match goal with
    | |- context [?x =? ?y] => destruct (Nat.eqb_spec x y)
    | |- context [?x <=? ?y] => destruct (Nat.leb_spec x y)
    | |- context [?x <? ?y] => destruct (Nat.ltb_spec x y)
    end; cbn; try done; lia.
Qed.

(** ** Patching along the segments

    [pf] reads a hunk as a patch: start line, number of lines removed, text
    inserted.  [along] says that the patches replace the left sides of the
    edits by the right sides, [mixed sel] is the text with the edits of the
    selected hunks replaced. *)

Definition accept_patch (h : Hunk) : nat * nat * string :=
  (old_start (line_info h), old_count (line_info h), new_text h).
Definition reject_patch (h : Hunk) : nat * nat * string :=
  (new_start (line_info h), new_count (line_info h), default "" (old_text h)).

Definition apply_patch (pf : Hunk -> nat * nat * string) (content : string) (h : Hunk) : string :=
  let '(start, count, ins) := pf h in patch_lines content start count ins.

Fixpoint along (pf : Hunk -> nat * nat * string) (pos : nat) (l : list seg) (hs : list Hunk) : Prop :=
  match l, hs with
  | [], [] => True
  | Keep _ :: r, _ => along pf (S pos) r hs
  | Edit f t :: r, h :: hs' =>
      pf h = (pos, length f, str_concat t) /\ along pf (pos + length f) r hs'
  | _, _ => False
  end.

Fixpoint mixed (sel : Hunk -> bool) (l : list seg) (hs : list Hunk) : list string :=
  match l, hs with
  | Keep v :: r, _ => v :: mixed sel r hs
  | Edit f t :: r, h :: hs' => (if sel h then t else f) ++ mixed sel r hs'
  | _, _ => []
  end.

Lemma aligned_along_accept ol nw l hs : aligned ol nw l hs -> along accept_patch ol l hs.
Proof.
  revert ol nw hs. induction l as [|[v|o n] l IH]; intros ol nw hs Ha.
  - done.
  - eapply IH, Ha.
  - destruct hs as [|h hs]; [done|]. destruct Ha as (Hl & _ & Hn & Ha).
    split; [unfold accept_patch; by rewrite Hl, Hn|]. eapply IH, Ha.
Qed.

Lemma aligned_along_reject ol nw l hs :
  aligned ol nw l hs -> along reject_patch nw (swap_seg <$> l) hs.
Proof.
  revert ol nw hs. induction l as [|[v|o n] l IH]; intros ol nw hs Ha; rewrite ?fmap_cons.
  - done.
  - eapply IH, Ha.
  - destruct hs as [|h hs]; [done|]. destruct Ha as (Hl & Ho & _ & Ha).
    split; [|eapply IH, Ha]. unfold reject_patch. rewrite Hl, Ho. cbn.
    case_bool_decide; by simplify_eq/=.
Qed.

Lemma mixed_all pf sel pos l hs :
  along pf pos l hs -> Forall (fun h => sel h = true) hs -> mixed sel l hs = new_side l.
Proof.
  revert pos hs. induction l as [|[v|f t] l IH]; intros pos hs Ha Hs; cbn.
  - done.
  - f_equal. eapply IH; eauto.
  - destruct hs as [|h hs]; [done|]. destruct Ha as [_ Ha]. apply Forall_cons in Hs as [-> Hs].
    f_equal. eapply IH; eauto.
Qed.

Lemma mixed_swap pf sel pos l hs :
  along pf pos l hs ->
  mixed sel (swap_seg <$> l) hs = mixed (fun h => negb (sel h)) l hs.
Proof.
  revert pos hs. induction l as [|[v|f t] l IH]; intros pos hs Ha; rewrite ?fmap_cons; cbn.
  - done.
  - f_equal. eapply IH; eauto.
  - destruct hs as [|h hs]; [done|]. destruct Ha as [_ Ha]. erewrite IH by eauto.
    by destruct (sel h).
Qed.

(** A line with its terminator. *)
Definition raw_line (x : string) : Prop := exists y, clean y /\ x = y +:+ str1 nl.

Lemma raw_lines l :
  Forall raw_line l -> exists ys, Forall clean ys /\ l = (fun y => y +:+ str1 nl) <$> ys.
Proof.
  induction 1 as [|x l (y & Hy & ->) _ (ys & Hys & ->)]; [by exists []|].
  exists (y :: ys). split; [by constructor|done].
Qed.

Lemma split_inclusive_raw s : lf_text s = true -> Forall raw_line (split_inclusive s).
Proof.
  intros (l & Hl & ->)%lf_text_unlines. rewrite split_inclusive_unlines by done.
  apply Forall_fmap. eapply Forall_impl; [exact Hl|]. intros y Hy. by exists y.
Qed.

Lemma concat_split_inclusive s : str_concat (split_inclusive s) = s.
Proof.
  induction s as [|a s IH]; [done|]. cbn [split_inclusive]. case_bool_decide.
  - cbn [str_concat]. by rewrite IH.
  - destruct (split_inclusive s) as [|x l]; cbn [str_concat] in *; by rewrite <- IH, ?str_app_cons.
Qed.

Lemma unlines_nil l : unlines l = "" <-> l = [].
Proof.
  split; [|by intros ->]. destruct l as [|x l]; [done|].
  rewrite unlines_cons. by destruct x.
Qed.

Lemma take_min_length {A} n (l : list A) : take (n `min` length l) l = take n l.
Proof.
  destruct (Nat.min_spec n (length l)) as [[? ->]|[? ->]]; [done|].
  by rewrite !take_ge by lia.
Qed.

Lemma drop_min_length {A} n (l : list A) : drop (n `min` length l) l = drop n l.
Proof.
  destruct (Nat.min_spec n (length l)) as [[? ->]|[? ->]]; [done|].
  by rewrite !drop_ge by lia.
Qed.

Lemma patch_raw L I s c :
  Forall raw_line L -> Forall raw_line I -> L <> [] ->
  take s L ++ I ++ drop (s + c) L <> [str1 nl] ->
  patch_lines (str_concat L) (S s) c (str_concat I) = str_concat (take s L ++ I ++ drop (s + c) L).
Proof.
  intros (ys & Hys & ->)%raw_lines (zs & Hzs & ->)%raw_lines HL HR.
  rewrite <- fmap_take, <- fmap_drop, <- !fmap_app in *.
  change (str_concat (?f <$> ?l)) with (unlines l). unfold patch_lines. cbn [Nat.sub].
  rewrite !lines_unlines by done. rewrite Nat.sub_0_r, take_min_length, drop_min_length.
  assert ((if bool_decide (unlines zs = "") then [] else zs) = zs) as ->.
  { case_bool_decide as H; [|done]. by apply unlines_nil in H. }
  assert (ys <> []) as Hne by (by intros ->).
  rewrite unlines_ends by done. rewrite andb_true_l.
  destruct (bool_decide (join_char nl _ = "")) eqn:E; cbn [negb]; zbool.
  - rewrite E. apply join_nl_empty in E as [->| E]; [done|]. rewrite E in HR. done.
  - apply join_nl. intros H. by rewrite H in E.
Qed.

(** The first line of a text is not blank. *)
Definition first_ok (l : list string) : Prop := head l <> Some (str1 nl).

Lemma mixed_raw sel l : forall hs,
  Forall raw_line (old_side l) -> Forall raw_line (new_side l) -> Forall raw_line (mixed sel l hs).
Proof.
  induction l as [|[v|f t] l IH]; intros hs Ho Hn; cbn in *; [done|..].
  - apply Forall_cons in Ho as [? ?], Hn as [? ?]. constructor; auto.
  - destruct hs as [|h hs]; [done|]. apply Forall_app in Ho as [? ?], Hn as [? ?].
    apply Forall_app. destruct (sel h); auto.
Qed.

Lemma mixed_first pf pos sel l hs :
  along pf pos l hs -> alternating l ->
  first_ok (old_side l) -> first_ok (new_side l) -> first_ok (mixed sel l hs).
Proof.
  unfold first_ok. destruct l as [|[v|f t] l]; intros Ha Hw Ho Hn; cbn in *; [done|done|].
  destruct hs as [|h hs]; [done|]. destruct Ha as [_ Ha], Hw as (_ & Hnext & Hw).
  assert (head (mixed sel l hs) = head (old_side l) /\ head (mixed sel l hs) = head (new_side l))
    as [E1 E2].
  { destruct l as [|[v|] l]; [|done..]. by destruct hs. }
  destruct (sel h); [destruct t as [|x t]|destruct f as [|x f]]; cbn in *; congruence.
Qed.

(** Applying the patches of the selected hunks from the last to the first
    replaces exactly the selected edits. *)
Lemma fold_patch pf sel l : forall hs pre,
  along pf (S (length pre)) l hs -> alternating l ->
  Forall raw_line (pre ++ old_side l) -> Forall raw_line (new_side l) ->
  pre ++ old_side l <> [] ->
  first_ok (pre ++ old_side l) -> (pre = [] -> first_ok (new_side l)) ->
  foldr (fun h acc => if sel h : bool then apply_patch pf acc h else acc)
        (str_concat (pre ++ old_side l)) hs
  = str_concat (pre ++ mixed sel l hs).
Proof.
  induction l as [|[v|f t] l IH]; intros hs pre Ha Hw Hr Hn Hne Ho Hf; cbn in Ha.
  - by destruct hs.
  - assert (forall k, pre ++ v :: k = (pre ++ [v]) ++ k) as E by (intros; by rewrite <- app_assoc).
    cbn [old_side new_side mixed] in *. rewrite (E (old_side l)) in Hr, Hne, Ho |- *.
    rewrite (E (mixed sel l hs)). apply IH; try done.
    + rewrite length_app. cbn. by rewrite Nat.add_1_r.
    + by apply Forall_cons in Hn as [_ ?].
    + by destruct pre.
  - destruct hs as [|h hs]; [done|]. destruct Ha as [Hh Ha]. pose proof Hw as Hw0.
    cbn in Hw. destruct Hw as (Hft & Hnx & Hw).
    cbn [old_side new_side foldr mixed] in *. apply Forall_app in Hn as Htn. destruct Htn as [Ht Hn'].
    assert (mixed sel l hs = [] -> l = []) as Hml by (destruct l as [|[v|] l]; done).
    rewrite (app_assoc pre f) in *.
    rewrite IH; try done; [|by rewrite length_app|].
    2: { intros [-> ->]%app_nil. destruct Hft as [|Ht0]; [done|]. by destruct l as [|[v|] l]. }
    destruct (sel h) eqn:Es; [|by rewrite <- app_assoc].
    unfold apply_patch. rewrite Hh. apply Forall_app in Hr as [Hr1 Hr2].
    rewrite patch_raw; try done; rewrite <- ?(app_assoc pre f), ?take_app_length, ?drop_app_add,
      ?drop_app_length; try done.
    + rewrite app_assoc. apply Forall_app. auto using mixed_raw.
    + rewrite app_assoc. intros [Hpf Hm]%app_nil. apply Hml in Hm. subst l. by rewrite Hpf in Hne.
    + destruct pre as [|x pre].
      * pose proof (mixed_first pf 1 sel (Edit f t :: l) (h :: hs)) as Hm. cbn in Hm. rewrite Es in Hm.
        intros Hb. rewrite app_nil_l in Hb. rewrite Hb in Hm. apply Hm; auto.
      * intros [= -> Hp]. by apply Ho.
Qed.

(** ** Batches

    [sort_by_key(|h| Reverse(key(h)))], a stable sort, applied to the hunks of
    one diff gives them from the last to the first. *)

Fixpoint insert_desc {A} (key : A -> nat) (x : A) (l : list A) : list A :=
  match l with
  | [] => [x]
  | y :: l' => if key y <=? key x then x :: l else y :: insert_desc key x l'
  end.

Definition sort_desc {A} (key : A -> nat) (l : list A) : list A :=
  foldr (insert_desc key) [] l.

Lemma insert_desc_last {A} (key : A -> nat) x l :
  Forall (fun y => key x < key y) l -> insert_desc key x l = l ++ [x].
Proof.
  induction 1 as [|y l Hy Hl IH]; cbn; [done|].
  destruct (Nat.leb_spec (key y) (key x)); [lia|]. by rewrite IH.
Qed.

Lemma sort_desc_rev {A} (key : A -> nat) l :
  StronglySorted (fun a b => key a < key b) l -> sort_desc key l = rev l.
Proof.
  induction 1 as [|x l Hl IH Hx]; [done|]. cbn. fold (sort_desc key l).
  rewrite IH, insert_desc_last; [done|]. by apply Forall_rev.
Qed.

Lemma StronglySorted_filter {A} (R : A -> A -> Prop) (P : A -> Prop) `{forall x, Decision (P x)} l :
  StronglySorted R l -> StronglySorted R (filter P l).
Proof.
  induction 1 as [|x l Hl IH Hx]; [constructor|]. rewrite filter_cons. case_decide; [|done].
  constructor; [done|]. apply Forall_forall. intros y [_ Hy]%list_elem_of_filter.
  by apply (proj1 (Forall_forall _ _) Hx).
Qed.

Lemma StronglySorted_impl {A} (R Q : A -> A -> Prop) l :
  (forall a b, R a b -> Q a b) -> StronglySorted R l -> StronglySorted Q l.
Proof.
  intros HRQ. induction 1 as [|x l Hl IH Hx]; constructor; [done|].
  eapply Forall_impl; [exact Hx|auto].
Qed.

Lemma foldr_filter {A B} (f : A -> B -> B) (sel : A -> bool) b l :
  foldr f b (filter (fun x => sel x = true) l) = foldr (fun x acc => if sel x then f x acc else acc) b l.
Proof.
  induction l as [|x l IH]; [done|]. rewrite filter_cons. cbn. rewrite <- IH.
  by destruct (sel x).
Qed.

Lemma foldl_rev {A B} (f : B -> A -> B) b l : foldl f b (rev l) = foldr (fun x acc => f acc x) b l.
Proof.
  revert b. induction l as [|x l IH]; intros b; cbn; [done|]. by rewrite foldl_app, IH.
Qed.

(** A text that starts with a blank line. *)
Definition starts_blank (s : string) : bool := starts_with (str1 nl) s.

Lemma first_ok_split s : starts_blank s = false -> first_ok (split_inclusive s).
Proof.
  unfold first_ok, starts_blank. destruct s as [|a s]; [done|]. cbn [split_inclusive starts_with str1].
  rewrite andb_true_r. case_bool_decide as Ha.
  - done.
  - intros _. rewrite bool_decide_false by done.
    destruct (split_inclusive s); unfold str1; cbn; intros H; by simplify_eq.
Qed.

Lemma split_inclusive_nil s : split_inclusive s = [] -> s = "".
Proof. intros H. by rewrite <- (concat_split_inclusive s), H. Qed.

(** The texts the tracker patches without loss: line feeds only, every line
    terminated, no leading blank line. *)
Definition patchable (s : string) : Prop := lf_text s = true /\ starts_blank s = false.

Section batches.
Context `{D : Differ}.

Lemma patchable_old b c :
  patchable b -> patchable c ->
  old_side (group (diff_changes b c)) = split_inclusive b /\
  new_side (group (diff_changes b c)) = split_inclusive c.
Proof.
  intros [Hb _] [Hc _]. destruct (group_sides (diff_changes b c)) as [-> ->].
  unfold lf_text in *. apply andb_true_iff in Hb as [Hb%negb_true_iff _], Hc as [Hc%negb_true_iff _].
  split; [by apply diff_old|by apply diff_new].
Qed.

(** Accepting the selected hunks turns the baseline into the text with
    exactly those edits made; rejecting them turns the current content into
    the text with exactly those edits undone. *)
Lemma accept_selected sel b c hs :
  patchable b -> patchable c -> b <> "" ->
  aligned 1 1 (group (diff_changes b c)) hs ->
  foldl (apply_patch accept_patch) b
    (sort_desc (fun h => old_start (line_info h)) (filter (fun h => sel h = true) hs))
  = str_concat (mixed sel (group (diff_changes b c)) hs).
Proof.
  intros Hb Hc Hne Ha. destruct (patchable_old b c Hb Hc) as [Eo En].
  pose proof (group_alternating (diff_changes b c)) as Hw.
  pose proof (aligned_apart _ _ _ _ Ha Hw) as Hs.
  rewrite sort_desc_rev.
  2: { apply StronglySorted_filter. eapply StronglySorted_impl; [|exact Hs].
       unfold apart. intros x y [? _]. lia. }
  rewrite foldl_rev, foldr_filter. rewrite <- (concat_split_inclusive b) at 1. rewrite <- Eo.
  destruct Hb as [Hb1 Hb2], Hc as [Hc1 Hc2].
  apply (fold_patch accept_patch sel (group (diff_changes b c)) hs []); rewrite ?app_nil_l, ?Eo, ?En;
    eauto using aligned_along_accept, split_inclusive_raw, first_ok_split.
  by intros ?%split_inclusive_nil.
Qed.

Lemma reject_selected sel b c hs :
  patchable b -> patchable c -> c <> "" ->
  aligned 1 1 (group (diff_changes b c)) hs ->
  foldl (apply_patch reject_patch) c
    (sort_desc (fun h => new_start (line_info h)) (filter (fun h => sel h = true) hs))
  = str_concat (mixed (fun h => negb (sel h)) (group (diff_changes b c)) hs).
Proof.
  intros Hb Hc Hne Ha. destruct (patchable_old b c Hb Hc) as [Eo En].
  pose proof (group_alternating (diff_changes b c)) as Hw.
  pose proof (aligned_apart _ _ _ _ Ha Hw) as Hs.
  destruct (swap_sides (group (diff_changes b c))) as [So Sn].
  rewrite sort_desc_rev.
  2: { apply StronglySorted_filter. eapply StronglySorted_impl; [|exact Hs].
       unfold apart. intros x y [_ ?]. lia. }
  rewrite foldl_rev, foldr_filter. rewrite <- (concat_split_inclusive c) at 1. rewrite <- En, <- So.
  erewrite <- mixed_swap by (by eapply aligned_along_accept).
  destruct Hb as [Hb1 Hb2], Hc as [Hc1 Hc2].
  apply (fold_patch reject_patch sel _ hs []); rewrite ?app_nil_l, ?So, ?Sn, ?Eo, ?En;
    eauto using aligned_along_reject, swap_alternating, split_inclusive_raw, first_ok_split.
  by intros ?%split_inclusive_nil.
Qed.

(** With all hunks selected these are the two texts of the diff. *)
Lemma mixed_all_current b c hs :
  patchable b -> patchable c -> aligned 1 1 (group (diff_changes b c)) hs ->
  str_concat (mixed (fun _ => true) (group (diff_changes b c)) hs) = c /\
  str_concat (mixed (fun _ => false) (group (diff_changes b c)) hs) = b.
Proof.
  intros Hb Hc Ha. destruct (patchable_old b c Hb Hc) as [Eo En].
  destruct (swap_sides (group (diff_changes b c))) as [So Sn]. split.
  - erewrite mixed_all; [|by eapply aligned_along_accept|by apply Forall_true].
    by rewrite En, concat_split_inclusive.
  - change (fun _ : Hunk => false) with (fun _ : Hunk => negb true).
    erewrite <- (mixed_swap _ (fun _ => true)) by (by eapply aligned_along_accept).
    erewrite mixed_all; [|by eapply aligned_along_reject|by apply Forall_true].
    by rewrite Sn, Eo, concat_split_inclusive.
Qed.
End batches.

(** A differ that compares the texts line by line. *)
Fixpoint positional_changes (l k : list string) : list (ChangeTag * string) :=
  match l, k with
  | [], _ => (fun v => (Insert, v)) <$> k
  | _, [] => (fun v => (Delete, v)) <$> l
  | x :: l', y :: k' =>
      if bool_decide (x = y) then (Equal, x) :: positional_changes l' k'
      else (Delete, x) :: (Insert, y) :: positional_changes l' k'
  end.

Lemma positional_values l : forall k,
  old_values (positional_changes l k) = l /\ new_values (positional_changes l k) = k.
Proof.
  assert (forall k, old_values ((fun v => (Insert, v)) <$> k) = [] /\
                    new_values ((fun v => (Insert, v)) <$> k) = k) as Hi.
  { induction k as [|y k [IH1 IH2]]; [done|]. unfold old_values, new_values in *. cbn.
    split; [done|]. by f_equal. }
  induction l as [|x l IH]; intros k; [apply Hi|]. destruct k as [|y k]; cbn [positional_changes].
  - clear. induction (x :: l) as [|z m [IH1 IH2]]; [done|]. unfold old_values, new_values in *. cbn.
    split; [by f_equal|done].
  - specialize (IH k) as [IH1 IH2]. unfold old_values, new_values in *.
    case_bool_decide; subst; cbn; split; by f_equal.
Qed.

Definition positional_differ : Differ := {|
  diff_changes := fun b c => positional_changes (split_inclusive b) (split_inclusive c);
  diff_elapsed_ms := fun _ _ => 0%Z;
  diff_old := fun b c _ _ => proj1 (positional_values _ _);
  diff_new := fun b c _ _ => proj2 (positional_values _ _)
|}.
