(* ===== verification/HunkTracker.v ===== *)
(** * The hunk tracker (ccode-hunk/src/actor)

    The tracker keeps, for every file it follows, the baseline (the content at
    git HEAD or when the session started), the current content and the hunks
    between them, with an index from the agent's turns to hunk identifiers.
    Its commands are the writes of the agent, the notifications of the file
    system, git refreshes, and the user's acceptance or rejection of hunks; the
    actor handles one command at a time, so each is a function on the state.

    The state includes the disk the tracker reads and writes, as a map from
    paths to nodes, and the events sent so far.  What git reports (HEAD
    contents, status, HEAD and index state, all read through [gix]) and which
    writes fail are a [World], an argument of each command.  Paths are
    normalised strings. *)

From S2P Require Import Prelude RustStr TextLines HunkDiff.

(** ** File contents (state.rs, file_utils.rs) *)

Inductive FileContentState :=
| Missing
| Binary (byte_len : option nat)
| TooLarge (byte_len : nat)
| LfsPointer (byte_len : nat)
| Symlink
| Full (content : string).

#[export] Instance FileContentState_eq_dec : EqDecision FileContentState.
Proof. solve_decision. Defined.

Definition as_str (s : FileContentState) : option string :=
  match s with Full c => Some c | _ => None end.
Definition is_diffable (s : FileContentState) : bool :=
  match s with Full _ => true | _ => false end.

Definition MAX_TRACKED_TEXT_BYTES : Z := 1024 * 1024.
Definition too_large (n : nat) : bool := (MAX_TRACKED_TEXT_BYTES <? Z.of_nat n)%Z.

Definition LFS_POINTER_PREFIX : string :=
  "version https://git-lfs.github.com/spec/v1" +:+ str1 nl.

Definition is_lfs_pointer (b : string) : bool :=
  (String.length b <? 1024) && starts_with LFS_POINTER_PREFIX b.

Definition BINARY_CHECK : nat := Z.to_nat 8000.

Definition is_binary (b : string) : bool :=
  has_char "000" (str_take (String.length b `min` BINARY_CHECK) b).

Definition classify_bytes (b : string) : FileContentState :=
  let byte_len := String.length b in
  if too_large byte_len then TooLarge byte_len
  else if is_lfs_pointer b then LfsPointer byte_len
  else if is_binary b then Binary (Some byte_len)
  else if utf8_valid b then Full b else Binary (Some byte_len).

Definition classify_string (s : string) : FileContentState :=
  let byte_len := String.length s in
  if too_large byte_len then TooLarge byte_len
  else if is_lfs_pointer s then LfsPointer byte_len
  else if is_binary s then Binary (Some byte_len)
  else Full s.

(** ** The disk *)

Inductive DiskNode :=
| DFile (bytes : string)
| DLink (target : string)
| DDir.

Abbreviation Disk := (gmap string DiskNode).

(** Reads and writes go through one level of symbolic links. *)
Definition resolve (d : Disk) (p : string) : string :=
  match d !! p with Some (DLink t) => t | _ => p end.

(** [path.exists()] *)
Definition path_exists (d : Disk) (p : string) : bool :=
  match d !! resolve d p with Some _ => true | None => false end.
Definition path_is_dir (d : Disk) (p : string) : bool :=
  match d !! resolve d p with Some DDir => true | _ => false end.

(** [read_file_bounded]: [got] is the number of bytes the first [read] returns
    for a buffer of the given size. *)
Definition read_file_bounded (got : nat -> nat) (d : Disk) (p : string) : FileContentState :=
  match d !! p with
  | None => Missing
  | Some (DLink _) => Symlink
  | Some DDir => Missing
  | Some (DFile b) =>
      let byte_len := String.length b in
      if too_large byte_len then TooLarge byte_len
      else
        let prefix_size := BINARY_CHECK `min` byte_len in
        let n := got prefix_size `min` prefix_size in
        let prefix_buf := str_take n b in
        if is_lfs_pointer prefix_buf then LfsPointer byte_len
        else if is_binary prefix_buf then Binary (Some byte_len)
        else
          let full_buf := if prefix_size <? byte_len then prefix_buf +:+ str_drop n b else prefix_buf in
          if utf8_valid full_buf then Full full_buf else Binary (Some byte_len)
  end.

(** ** The tracker's state *)

Record FileHunkState := mkFile {
  baseline : FileContentState;
  current_content : FileContentState;
  hunks : list Hunk;
  is_agent_file : bool;
  baseline_accepted : bool
}.

Inductive TrackingMode := AgentOnly | AllDirty.

#[export] Instance TrackingMode_eq_dec : EqDecision TrackingMode.
Proof. solve_decision. Defined.

Inductive HunkRemovalReason := Accepted | Rejected | Superseded.

Inductive HunkEvent :=
| HunkAdded (p : string) (h : Hunk)
| HunkRemoved (p : string) (i : HunkId) (reason : HunkRemovalReason)
| HunkMoved (p : string) (i : HunkId) (new_line_info : HunkLineInfo)
| HunkContentChanged (p : string) (h : Hunk) (trigger_source : HunkSource)
    (prev_lines_added prev_lines_removed : nat)
| FileAdded (p : string) (agent_file : bool)
| FileRemoved (p : string)
| BaselineUpdated (p : string).

Record SessionStats := mkStats {
  accepted_hunks : nat;
  rejected_hunks : nat;
  accepted_lines_added : nat;
  accepted_lines_removed : nat;
  rejected_lines_added : nat;
  rejected_lines_removed : nat
}.

Definition stats_default : SessionStats := mkStats 0 0 0 0 0 0.

Record RepoSyncState := mkSync { head_oid : option string; index_mtime : option Z }.

#[export] Instance RepoSyncState_eq_dec : EqDecision RepoSyncState.
Proof. solve_decision. Defined.

Record Tracker := mkTracker {
  working_dir : string;
  file_states : gmap string FileHunkState;
  turn_index : gmap nat (gset HunkId);
  git_dirty_cache : gset string;
  git_staged_cache : gset string;
  repo_sync_state : RepoSyncState;
  mode : TrackingMode;
  session_stats : SessionStats;
  next_id : N;
  disk : Disk;
  events : list HunkEvent
}.

(** [HunkTrackerActor::new] on a disk. *)
Definition tracker_new (dir : string) (m : TrackingMode) (d : Disk) : Tracker :=
  mkTracker dir ∅ ∅ ∅ ∅ (mkSync None None) m stats_default 0 d [].

(** Field updates. *)
Definition set_files (f : gmap string FileHunkState) (t : Tracker) : Tracker :=
  mkTracker (working_dir t) f (turn_index t) (git_dirty_cache t) (git_staged_cache t)
    (repo_sync_state t) (mode t) (session_stats t) (next_id t) (disk t) (events t).
Definition set_index (x : gmap nat (gset HunkId)) (t : Tracker) : Tracker :=
  mkTracker (working_dir t) (file_states t) x (git_dirty_cache t) (git_staged_cache t)
    (repo_sync_state t) (mode t) (session_stats t) (next_id t) (disk t) (events t).
Definition set_caches (dirty staged : gset string) (t : Tracker) : Tracker :=
  mkTracker (working_dir t) (file_states t) (turn_index t) dirty staged
    (repo_sync_state t) (mode t) (session_stats t) (next_id t) (disk t) (events t).
Definition set_sync (s : RepoSyncState) (t : Tracker) : Tracker :=
  mkTracker (working_dir t) (file_states t) (turn_index t) (git_dirty_cache t) (git_staged_cache t)
    s (mode t) (session_stats t) (next_id t) (disk t) (events t).
Definition set_tracking (m : TrackingMode) (t : Tracker) : Tracker :=
  mkTracker (working_dir t) (file_states t) (turn_index t) (git_dirty_cache t) (git_staged_cache t)
    (repo_sync_state t) m (session_stats t) (next_id t) (disk t) (events t).
Definition set_stats (s : SessionStats) (t : Tracker) : Tracker :=
  mkTracker (working_dir t) (file_states t) (turn_index t) (git_dirty_cache t) (git_staged_cache t)
    (repo_sync_state t) (mode t) s (next_id t) (disk t) (events t).
Definition set_next (n : N) (t : Tracker) : Tracker :=
  mkTracker (working_dir t) (file_states t) (turn_index t) (git_dirty_cache t) (git_staged_cache t)
    (repo_sync_state t) (mode t) (session_stats t) n (disk t) (events t).
Definition set_disk (d : Disk) (t : Tracker) : Tracker :=
  mkTracker (working_dir t) (file_states t) (turn_index t) (git_dirty_cache t) (git_staged_cache t)
    (repo_sync_state t) (mode t) (session_stats t) (next_id t) d (events t).
Definition send_event (e : HunkEvent) (t : Tracker) : Tracker :=
  mkTracker (working_dir t) (file_states t) (turn_index t) (git_dirty_cache t) (git_staged_cache t)
    (repo_sync_state t) (mode t) (session_stats t) (next_id t) (disk t) (events t ++ [e]).
Definition send_events (es : list HunkEvent) (t : Tracker) : Tracker :=
  foldl (fun t e => send_event e t) t es.

Definition put_file (p : string) (f : FileHunkState) (t : Tracker) : Tracker :=
  set_files (<[p := f]> (file_states t)) t.

Definition set_contents (b c : FileContentState) (hs : list Hunk) (acc : bool) (f : FileHunkState)
    : FileHunkState :=
  mkFile b c hs (is_agent_file f) acc.
Definition mark_agent (f : FileHunkState) : FileHunkState :=
  mkFile (baseline f) (current_content f) (hunks f) true (baseline_accepted f).

(** ** The turn index *)

(** [set.remove(&hunk.id)] in the set of the hunk's turn, if there is one. *)
Definition unindex (h : Hunk) (ti : gmap nat (gset HunkId)) : gmap nat (gset HunkId) :=
  match prompt_index (source h) with
  | None => ti
  | Some k => match ti !! k with
              | None => ti
              | Some s => <[k := s ∖ {[id h]}]> ti
              end
  end.

(** [turn_index.entry(prompt_index).or_default().insert(hunk.id)] *)
Definition index_hunk (h : Hunk) (ti : gmap nat (gset HunkId)) : gmap nat (gset HunkId) :=
  match prompt_index (source h) with
  | None => ti
  | Some k => <[k := {[id h]} ∪ default ∅ (ti !! k)]> ti
  end.

Definition unindex_all (hs : list Hunk) (ti : gmap nat (gset HunkId)) : gmap nat (gset HunkId) :=
  foldl (fun ti h => unindex h ti) ti hs.
Definition index_all (hs : list Hunk) (ti : gmap nat (gset HunkId)) : gmap nat (gset HunkId) :=
  foldl (fun ti h => index_hunk h ti) ti hs.

(** ** Recomputation of the hunks of a file (hunks.rs) *)

(** Identifiers and sources carried over from the old hunks: each old hunk is
    claimed by at most one new one, an external edit keeps the attribution of
    the agent's hunk it matches. *)
Fixpoint claim (old : list Hunk) (claimed : gset HunkId) (l : list Hunk) : list Hunk :=
  match l with
  | [] => []
  | h :: r =>
      match find_matching_old_hunk h old with
      | None => h :: claim old claimed r
      | Some m =>
          if bool_decide (id m ∈ claimed) then h :: claim old claimed r
          else
            let h1 := with_id (id m) h in
            let h2 := if is_external (source h1) && is_agent_edit (source m)
                      then with_source (source m) h1 else h1 in
            h2 :: claim old ({[id m]} ∪ claimed) r
      end
  end.

Definition emit_removed (p : string) (old new : list Hunk) : list HunkEvent :=
  omap (fun o => if existsb (fun n => hunks_overlap o n || hunks_match_content o n) new
                 then None else Some (HunkRemoved p (id o) Superseded)) old.

Definition emit_new (p : string) (old : list Hunk) (trigger : HunkSource) (n : Hunk) : option HunkEvent :=
  match find (fun o => hunks_match_content o n) old with
  | Some o => if hunk_moved o n then Some (HunkMoved p (id o) (line_info n)) else None
  | None =>
      if negb (existsb (fun o => hunks_overlap o n) old) then Some (HunkAdded p n)
      else
        let prev := match find (fun o => (id o =? id n)%N) old with
                    | Some o => Some o
                    | None => find (fun o => hunks_overlap o n) old
                    end in
        let '(a, r) := match prev with
                       | Some o => (new_count (line_info o), old_count (line_info o))
                       | None => (0, 0)
                       end in
        Some (HunkContentChanged p n trigger a r)
  end.

Definition emit_hunk_diff_events (p : string) (old new : list Hunk) (trigger : HunkSource)
    : list HunkEvent :=
  emit_removed p old new ++ omap (emit_new p old trigger) new.

Section tracker.
Context {D : Differ} {HI : HashIter string}.

(** The hunks between two contents, before identifiers are carried over. *)
Definition diff_states (p : string) (b c : FileContentState) (src : HunkSource) (next : N)
    : list Hunk * N :=
  match b, c with
  | Full b, Full c => compute_hunks p b c src next
  | Full b, Missing =>
      if bool_decide (b = "") then ([], next) else ([file_deleted next p b src], (next + 1)%N)
  | Missing, Full c =>
      if bool_decide (c = "") then ([], next) else ([file_created next p c src], (next + 1)%N)
  | _, _ => ([], next)
  end.

Definition recompute_hunks (p : string) (new_current : option FileContentState) (src : HunkSource)
    (t : Tracker) : Tracker :=
  match file_states t !! p with
  | None => t
  | Some st =>
      let old_hunks := hunks st in
      let cur := default Missing new_current in
      let '(fresh, next) := diff_states p (baseline st) cur src (next_id t) in
      let new_hunks := claim old_hunks ∅ fresh in
      let t := put_file p (set_contents (baseline st) cur new_hunks (baseline_accepted st) st) t in
      let t := set_next next t in
      let t := set_index (index_all new_hunks (unindex_all old_hunks (turn_index t))) t in
      send_events (emit_hunk_diff_events p old_hunks new_hunks src) t
  end.

(** [first remaining hunk's source, else External] *)
Definition remaining_source (p : string) (t : Tracker) : HunkSource :=
  match file_states t !! p with
  | Some st => match head (hunks st) with Some h => source h | None => External end
  | None => External
  end.

(** ** Accepting and rejecting (actions.rs) *)

Inductive HunkAction := Accept | Reject.

Inductive HunkActionError :=
| HunkNotFound (i : HunkId)
| WriteError (p : string)
| DeleteError (p : string).

(** What lies outside the tracker during a command. *)
Record World := mkWorld {
  head_content : string -> FileContentState;
  git_status : option (list string) -> option (list string * list string);
  git_sync : option RepoSyncState;
  write_fails : string -> bool;
  remove_fails : string -> bool;
  read_got : nat -> nat
}.

Definition fs_write (w : World) (p content : string) (d : Disk) : option Disk :=
  if write_fails w p then None
  else match d !! resolve d p with
       | Some DDir => None
       | _ => Some (<[resolve d p := DFile content]> d)
       end.

Definition fs_remove (w : World) (p : string) (d : Disk) : option Disk :=
  if remove_fails w p then None
  else match d !! p with
       | None | Some DDir => None
       | Some _ => Some (delete p d)
       end.

(** [usize::saturating_add] *)
Definition usize_sat_add (x y : nat) : nat := Z.to_nat (Z.min u64_max (Z.of_nat x + Z.of_nat y)).

Definition update_session_stats (li : HunkLineInfo) (accepted : bool) (t : Tracker) : Tracker :=
  let s := session_stats t in
  if accepted then
    set_stats (mkStats (usize_sat_add (accepted_hunks s) 1) (rejected_hunks s)
      (usize_sat_add (accepted_lines_added s) (new_count li)) (usize_sat_add (accepted_lines_removed s) (old_count li))
      (rejected_lines_added s) (rejected_lines_removed s)) t
  else
    set_stats (mkStats (accepted_hunks s) (usize_sat_add (rejected_hunks s) 1)
      (accepted_lines_added s) (accepted_lines_removed s)
      (usize_sat_add (rejected_lines_added s) (new_count li)) (usize_sat_add (rejected_lines_removed s) (old_count li))) t.

Definition remove_from_turn_index (h : Hunk) (t : Tracker) : Tracker :=
  set_index (unindex h (turn_index t)) t.

(** [hunks.retain(|h| !ids.contains(&h.id))] *)
Definition retain_not (ids : list HunkId) (hs : list Hunk) : list Hunk :=
  filter (fun h => id h ∉ ids) hs.

Definition removed_events (p : string) (reason : HunkRemovalReason) (hs : list Hunk) : list HunkEvent :=
  (fun h => HunkRemoved p (id h) reason) <$> hs.

(** [if let FileContentState::Full(baseline) = &state.baseline { .. patch_lines .. }] *)
Definition patch_state (pf : Hunk -> nat * nat * string) (s : FileContentState) (h : Hunk)
    : FileContentState :=
  match s with Full c => Full (apply_patch pf c h) | _ => s end.

Definition accept_hunk (p : string) (h : Hunk) (t : Tracker) : Tracker :=
  match file_states t !! p with
  | None => t
  | Some st =>
      let rest := retain_not [id h] (hunks st) in
      let '(recompute, st') :=
        match baseline st with
        | Missing => (false, set_contents (current_content st) (current_content st) rest true st)
        | b => (true, set_contents (patch_state accept_patch b h) (current_content st) rest true st)
        end in
      let t := put_file p st' t in
      let t := send_events [HunkRemoved p (id h) Accepted; BaselineUpdated p] t in
      if recompute : bool then
        recompute_hunks p (Some (current_content st)) (remaining_source p t) t
      else t
  end.

Inductive RejectAction :=
| RestoreDeleted (b : string)
| DeleteCreated
| RevertChange (patched : string)
| NoOp.

Definition reject_action (st : FileHunkState) (h : Hunk) : RejectAction :=
  match current_content st, baseline st with
  | Missing, Full b => RestoreDeleted b
  | Full c, Missing => DeleteCreated
  | Full c, _ => RevertChange (apply_patch reject_patch c h)
  | _, _ => NoOp
  end.

Definition reject_hunk (w : World) (p : string) (h : Hunk) (t : Tracker)
    : Tracker * result HunkActionError unit :=
  match file_states t !! p with
  | None => (t, Ok tt)
  | Some st =>
      let rest := retain_not [id h] (hunks st) in
      match reject_action st h with
      | NoOp => (t, Ok tt)
      | RestoreDeleted b =>
          match fs_write w p b (disk t) with
          | None => (t, Err (WriteError p))
          | Some d =>
              let t := put_file p (set_contents (baseline st) (Full b) rest (baseline_accepted st) st)
                         (set_disk d t) in
              (send_event (HunkRemoved p (id h) Rejected) t, Ok tt)
          end
      | DeleteCreated =>
          match fs_remove w p (disk t) with
          | None => (t, Err (DeleteError p))
          | Some d =>
              let t := put_file p (set_contents (baseline st) Missing rest (baseline_accepted st) st)
                         (set_disk d t) in
              (send_event (HunkRemoved p (id h) Rejected) t, Ok tt)
          end
      | RevertChange patched =>
          match fs_write w p patched (disk t) with
          | None => (t, Err (WriteError p))
          | Some d =>
              let t := put_file p (set_contents (baseline st) (Full patched) rest (baseline_accepted st) st)
                         (set_disk d t) in
              let t := send_event (HunkRemoved p (id h) Rejected) t in
              (recompute_hunks p (Some (Full patched)) (remaining_source p t) t, Ok tt)
          end
      end
  end.

(** The file whose hunks contain the identifier, in the order of the map. *)
Definition find_hunk (i : HunkId) (t : Tracker) : option (string * Hunk) :=
  head (omap (fun '(p, st) => h ← find (fun h => (id h =? i)%N) (hunks st); Some (p, h))
             (hiter (file_states t))).

Definition apply_hunk_action (w : World) (i : HunkId) (a : HunkAction) (t : Tracker)
    : Tracker * result HunkActionError unit :=
  match find_hunk i t with
  | None => (t, Err (HunkNotFound i))
  | Some (p, h) =>
      let t := update_session_stats (line_info h) (match a with Accept => true | Reject => false end) t in
      let t := remove_from_turn_index h t in
      match a with
      | Accept => (accept_hunk p h t, Ok tt)
      | Reject => reject_hunk w p h t
      end
  end.

Definition accept_hunks_batch (p : string) (hs : list Hunk) (t : Tracker) : Tracker :=
  if bool_decide (hs = []) then t
  else match file_states t !! p with
  | None => t
  | Some st =>
      let rest := retain_not (id <$> hs) (hunks st) in
      match baseline st with
      | Missing =>
          let t := put_file p (set_contents (current_content st) (current_content st) rest true st) t in
          send_events (removed_events p Accepted hs ++ [BaselineUpdated p]) t
      | b =>
          let b' := foldl (patch_state accept_patch) b
                      (sort_desc (fun h => old_start (line_info h)) hs) in
          let t := put_file p (set_contents b' (current_content st) rest true st) t in
          let t := send_events (removed_events p Accepted hs ++ [BaselineUpdated p]) t in
          recompute_hunks p (Some (current_content st)) (remaining_source p t) t
      end
  end.

Definition reject_hunks_batch (w : World) (p : string) (hs : list Hunk) (t : Tracker)
    : Tracker * result HunkActionError unit :=
  if bool_decide (hs = []) then (t, Ok tt)
  else match file_states t !! p with
  | None => (t, Ok tt)
  | Some st =>
      let rest := retain_not (id <$> hs) (hunks st) in
      match current_content st, baseline st with
      | Missing, Full b =>
          match fs_write w p b (disk t) with
          | None => (t, Err (WriteError p))
          | Some d =>
              let t := put_file p (set_contents (Full b) (Full b) rest (baseline_accepted st) st)
                         (set_disk d t) in
              (send_events (removed_events p Rejected hs) t, Ok tt)
          end
      | Full c, Missing =>
          match fs_remove w p (disk t) with
          | None => (t, Err (DeleteError p))
          | Some d =>
              let t := put_file p (set_contents Missing Missing rest (baseline_accepted st) st)
                         (set_disk d t) in
              (send_events (removed_events p Rejected hs) t, Ok tt)
          end
      | Full c, _ =>
          let current := foldl (apply_patch reject_patch) c
                           (sort_desc (fun h => new_start (line_info h)) hs) in
          match fs_write w p current (disk t) with
          | None => (t, Err (WriteError p))
          | Some d =>
              let t := put_file p (set_contents (baseline st) (Full current) rest (baseline_accepted st) st)
                         (set_disk d t) in
              let t := send_events (removed_events p Rejected hs) t in
              (recompute_hunks p (Some (Full current)) (remaining_source p t) t, Ok tt)
          end
      | _, _ => (t, Ok tt)
      end
  end.

(** The loop of [apply_action_batch], which stops at the first error. *)
Definition note_hunk (a : HunkAction) (t : Tracker) (h : Hunk) : Tracker :=
  remove_from_turn_index h
    (update_session_stats (line_info h) (match a with Accept => true | Reject => false end) t).

Fixpoint apply_action_batch (w : World) (files : list (string * list Hunk)) (a : HunkAction)
    (affected : list HunkId) (t : Tracker) : Tracker * result HunkActionError (list HunkId) :=
  match files with
  | [] => (t, Ok affected)
  | (p, hs) :: r =>
      let t := foldl (note_hunk a) t hs in
      match a with
      | Accept => apply_action_batch w r a (affected ++ (id <$> hs)) (accept_hunks_batch p hs t)
      | Reject =>
          match reject_hunks_batch w p hs t with
          | (t, Err e) => (t, Err e)
          | (t, Ok _) => apply_action_batch w r a (affected ++ (id <$> hs)) t
          end
      end
  end.

Definition apply_file_action (w : World) (p : string) (a : HunkAction) (t : Tracker)
    : Tracker * result HunkActionError (list HunkId) :=
  match file_states t !! p with
  | None => (t, Ok [])
  | Some st =>
      if bool_decide (hunks st = []) then (t, Ok [])
      else apply_action_batch w [(p, hunks st)] a [] t
  end.

Definition apply_all_action (w : World) (a : HunkAction) (t : Tracker)
    : Tracker * result HunkActionError (list HunkId) :=
  let files := omap (fun '(p, st) => if bool_decide (hunks st = []) then None else Some (p, hunks st))
                    (hiter (file_states t)) in
  apply_action_batch w files a [] t.

Definition apply_turn_action (w : World) (k : nat) (a : HunkAction) (t : Tracker)
    : Tracker * result HunkActionError (list HunkId) :=
  let files_with_hunks : gmap string (list Hunk) :=
    omap (fun st =>
      let hs := filter (fun h => prompt_index (source h) = Some k) (hunks st) in
      if bool_decide (hs = []) then None else Some hs) (file_states t) in
  apply_action_batch w (hiter files_with_hunks) a [] t.

(** ** Paths *)

(** [path.strip_prefix(base)] and [base.join(rel)] on normalised paths. *)
Definition strip_path (base p : string) : option string :=
  if bool_decide (p = base) then Some ""
  else if starts_with (base +:+ "/") p then Some (str_drop (String.length base + 1) p)
  else None.
Definition join_path (base rel : string) : string :=
  if starts_with "/" rel then rel
  else if bool_decide (rel = "") then base else base +:+ "/" +:+ rel.

(** [path.strip_prefix(&self.working_dir).unwrap_or(&path)] looked up in the
    dirty cache. *)
Definition dirty (t : Tracker) (p : string) : bool :=
  bool_decide (default p (strip_path (working_dir t) p) ∈ git_dirty_cache t).

(** ** Notifications and writes (mutations.rs) *)

Definition strip_suffix (suffix s : string) : option string :=
  if ends_with suffix s then Some (str_take (String.length s - String.length suffix) s) else None.

Definition strip_single_trailing_newline (s : string) : string :=
  match strip_suffix (String cr (str1 nl)) s with
  | Some r => r
  | None => default s (strip_suffix (str1 nl) s)
  end.

Definition new_file (b c : FileContentState) (agent : bool) : FileHunkState :=
  mkFile b c [] agent false.

Definition record_agent_write (w : World) (p content : string) (k : nat) (previous : option string)
    (t : Tracker) : Tracker :=
  let cur := classify_string content in
  if negb (is_diffable cur) then
    match file_states t !! p with
    | None =>
        let b := match previous with Some prev => classify_string prev | None => head_content w p end in
        send_event (FileAdded p true) (put_file p (new_file b cur true) t)
    | Some st =>
        put_file p (mkFile (baseline st) cur [] true (baseline_accepted st)) t
    end
  else
    let t :=
      match file_states t !! p with
      | None =>
          let b := match head_content w p with
                   | Missing => match previous with Some prev => classify_string prev | None => Missing end
                   | other => other
                   end in
          send_event (FileAdded p true) (put_file p (new_file b cur true) t)
      | Some st => put_file p (mark_agent st) t
      end in
    recompute_hunks p (Some cur) (AgentEdit k) t.

(** A file whose content is back at HEAD. *)
Definition content_matches_head (t : Tracker) (p : string) (c h : FileContentState) : bool :=
  match c, h with
  | Full c, Full h =>
      bool_decide (strip_single_trailing_newline c = strip_single_trailing_newline h)
  | Missing, Missing | Binary _, Binary _ | TooLarge _, TooLarge _
  | LfsPointer _, LfsPointer _ | Symlink, Symlink => true
  | Symlink, Full _ | Full _, Symlink => negb (dirty t p)
  | _, _ => false
  end.

(** Gitignored: no baseline, not dirty, not a directory. *)
Definition ignored (t : Tracker) (p : string) (b : FileContentState) : bool :=
  bool_decide (mode t = AllDirty) && bool_decide (b = Missing)
  && negb (path_is_dir (disk t) p) && negb (dirty t p).

Definition external_source (p : string) (t : Tracker) : HunkSource :=
  match file_states t !! p with
  | Some st => if is_agent_file st then ExternalEditOnAgentFile else External
  | None => External
  end.

Definition process_file_change (w : World) (p : string) (preloaded : option FileContentState)
    (t : Tracker) : Tracker :=
  let read_base := default (head_content w p) preloaded in
  match file_states t !! p with
  | None =>
      if bool_decide (mode t = AgentOnly) then t
      else
        let cur := read_file_bounded (read_got w) (disk t) p in
        if negb (is_diffable cur) then
          if ignored t p read_base then t
          else
            let t := send_event (FileAdded p false) (put_file p (new_file read_base cur false) t) in
            if is_diffable read_base then recompute_hunks p None External t else t
        else if ignored t p read_base then t
        else
          let t := send_event (FileAdded p false) (put_file p (new_file read_base Missing false) t) in
          recompute_hunks p (Some cur) (external_source p t) t
  | Some st =>
      let cur := read_file_bounded (read_got w) (disk t) p in
      if baseline_accepted st && content_matches_head t p cur read_base then
        put_file p (mkFile read_base read_base [] (is_agent_file st) false) t
      else recompute_hunks p (Some cur) (external_source p t) t
  end.

Definition handle_file_change (w : World) (p : string) (t : Tracker) : Tracker :=
  process_file_change w p None t.

(** [handle_file_changes_batch]: baselines are read for the paths that need
    one before any is processed; a path listed twice finds the entry removed. *)
Definition needs_baseline (t : Tracker) (p : string) : bool :=
  match file_states t !! p with
  | None => negb (bool_decide (mode t = AgentOnly))
  | Some st => baseline_accepted st
  end.

Fixpoint process_batch (w : World) (baselines : gmap string FileContentState) (ps : list string)
    (t : Tracker) : Tracker :=
  match ps with
  | [] => t
  | p :: r => process_batch w (delete p baselines) r (process_file_change w p (baselines !! p) t)
  end.

Definition handle_file_changes_batch (w : World) (ps : list string) (t : Tracker) : Tracker :=
  let read := list_to_map ((fun p => (p, head_content w p)) <$> filter (fun p => needs_baseline t p = true) ps) in
  process_batch w read ps t.

Definition handle_file_deleted (w : World) (p : string) (t : Tracker) : Tracker :=
  match file_states t !! p with
  | None =>
      if bool_decide (mode t = AgentOnly) then t
      else if path_exists (disk t) p then t
      else
        let b := head_content w p in
        if bool_decide (b = Missing) then t
        else
          let t := send_event (FileAdded p false) (put_file p (new_file b Missing false) t) in
          recompute_hunks p None External t
  | Some st =>
      if path_exists (disk t) p then handle_file_change w p t
      else recompute_hunks p None (external_source p t) t
  end.

(** Unindex hunks and announce their removal, as when a file is dropped. *)
Definition drop_hunks (p : string) (hs : list Hunk) (t : Tracker) : Tracker :=
  send_events (removed_events p Superseded hs) (set_index (unindex_all hs (turn_index t)) t).

Definition reset_baseline (p : string) (t : Tracker) : Tracker :=
  match file_states t !! p with
  | None => t
  | Some st =>
      let t := put_file p (set_contents (current_content st) (current_content st) [] false st) t in
      send_event (BaselineUpdated p) (drop_hunks p (hunks st) t)
  end.

(** [refresh_git_dirty_cache]: [None] from [git_status] is a failed or skipped
    scan. *)
Definition refresh_git_dirty_cache (w : World) (scope : option (list string)) (t : Tracker) : Tracker :=
  match git_status w scope with
  | None => t
  | Some (dirty_files, staged_files) =>
      let to_track := filter (fun rel => file_states t !! join_path (working_dir t) rel = None)
                             dirty_files in
      let t := set_caches (list_to_set dirty_files) (list_to_set staged_files) t in
      if bool_decide (mode t = AllDirty) then
        foldl (fun t rel => handle_file_change w (join_path (working_dir t) rel) t) t to_track
      else t
  end.

Definition is_clean (t : Tracker) (p : string) (b c : FileContentState) : bool :=
  match b, c with
  | Full b, Full c =>
      bool_decide (strip_single_trailing_newline b = strip_single_trailing_newline c)
  | Binary _, Binary _ | TooLarge _, TooLarge _ | LfsPointer _, LfsPointer _ | Symlink, Symlink
  | LfsPointer _, _ | _, LfsPointer _ | Symlink, Full _ | Full _, Symlink => negb (dirty t p)
  | Missing, Missing => negb (path_exists (disk t) p)
  | Missing, _ => negb (dirty t p)
  | _, _ => false
  end.

Definition refresh_file (w : World) (t : Tracker) (p : string) : Tracker :=
  match file_states t !! p with
  | None => t
  | Some st =>
      let b := head_content w p in
      let c := read_file_bounded (read_got w) (disk t) p in
      let st1 := set_contents b c (hunks st) false st in
      if is_clean t p b c then
        if is_agent_file st then
          let t := put_file p (set_contents b c [] false st) t in
          send_event (BaselineUpdated p) (drop_hunks p (hunks st) t)
        else
          let t := set_files (delete p (file_states t)) t in
          send_event (FileRemoved p) (drop_hunks p (hunks st) t)
      else
        let t := put_file p st1 t in
        let src := if is_agent_file st then ExternalEditOnAgentFile else External in
        send_event (BaselineUpdated p) (recompute_hunks p (Some c) src t)
  end.

(** The scan before a refresh: of the whole worktree, or of the tracked paths
    under the working directory. *)
Definition refresh_caches (w : World) (t : Tracker) : Tracker :=
  match mode t with
  | AllDirty => refresh_git_dirty_cache w None t
  | AgentOnly =>
      let rels := omap (fun '(p, _) => strip_path (working_dir t) p) (hiter (file_states t)) in
      if bool_decide (rels = []) then set_caches ∅ ∅ t
      else refresh_git_dirty_cache w (Some rels) t
  end.

Definition refresh_files (w : World) (skip : gset string) (t : Tracker) : Tracker :=
  let t := refresh_caches w t in
  foldl (refresh_file w) t (filter (fun p => p ∉ skip) (fst <$> hiter (file_states t))).

Definition refresh_all_baselines_except (w : World) (skip : gset string) (t : Tracker) : Tracker :=
  if bool_decide (mode t = AgentOnly) && bool_decide (file_states t = ∅) then t
  else match git_sync w with
       | None => refresh_files w skip t
       | Some s =>
           if bool_decide (s = repo_sync_state t) then t else refresh_files w skip (set_sync s t)
       end.

Definition refresh_all_baselines (w : World) (t : Tracker) : Tracker :=
  refresh_all_baselines_except w ∅ t.

Definition drop_file (t : Tracker) (p : string) : Tracker :=
  match file_states t !! p with
  | None => t
  | Some st =>
      send_event (FileRemoved p) (drop_hunks p (hunks st) (set_files (delete p (file_states t)) t))
  end.

Definition set_mode (w : World) (m : TrackingMode) (t : Tracker) : Tracker :=
  let old := mode t in
  let t := set_tracking m t in
  match old, m with
  | AgentOnly, AllDirty => refresh_git_dirty_cache w None t
  | AllDirty, AgentOnly =>
      foldl drop_file t
        (omap (fun '(p, st) => if is_agent_file st then None else Some p) (hiter (file_states t)))
  | _, _ => t
  end.

(** ** Snapshots (mod.rs) *)

Record HunkTrackerSnapshot := mkSnapshot {
  snap_files : gmap string FileHunkState;
  snap_index : gmap nat (gset HunkId);
  snap_stats : SessionStats
}.

Definition take_snapshot (t : Tracker) : HunkTrackerSnapshot :=
  mkSnapshot (file_states t) (turn_index t) (session_stats t).

Definition restore_snapshot (s : HunkTrackerSnapshot) (t : Tracker) : Tracker :=
  set_stats (snap_stats s) (set_index (snap_index s) (set_files (snap_files s) t)).

Record HunkTurnDelta := mkDelta {
  delta_prompt : nat;
  delta_files : gmap string FileHunkState;
  delta_ids : gset HunkId
}.

Definition take_turn_delta (k : nat) (t : Tracker) : HunkTurnDelta :=
  let ids := default ∅ (turn_index t !! k) in
  mkDelta k (filter (fun '(_, st) => existsb (fun h => bool_decide (id h ∈ ids)) (hunks st) = true)
                    (file_states t)) ids.

(** ** Queries (queries.rs) *)

Definition get_all_hunks (t : Tracker) : list Hunk :=
  mjoin ((fun '(_, st) => hunks st) <$> hiter (file_states t)).

Definition get_hunks_for_path (p : string) (t : Tracker) : list Hunk :=
  match file_states t !! p with Some st => hunks st | None => [] end.

Definition get_hunk (i : HunkId) (t : Tracker) : option Hunk :=
  find (fun h => (id h =? i)%N) (get_all_hunks t).

(** The order of the identifiers of a turn is that of a [HashSet]. *)
Definition get_hunks_for_turn (k : nat) (t : Tracker) : list Hunk :=
  match turn_index t !! k with
  | None => []
  | Some ids => omap (fun i => get_hunk i t) (elements ids)
  end.

(** ** Commands (mod.rs) *)

Inductive HunkTrackerCommand :=
| RecordAgentWrite (p content : string) (k : nat) (previous : option string)
| HandleFileChange (p : string)
| HandleFileDeleted (p : string)
| RefreshGitDirtyCache
| ResetBaseline (p : string)
| SetMode (m : TrackingMode)
| HunkActionCmd (i : HunkId) (a : HunkAction)
| FileAction (p : string) (a : HunkAction)
| AllAction (a : HunkAction)
| TurnAction (k : nat) (a : HunkAction)
| ResetStats
| RefreshAllBaselines
| RestoreState (s : HunkTrackerSnapshot).

(** [handle_command] for the commands that change the state. *)
Definition handle_command (w : World) (cmd : HunkTrackerCommand) (t : Tracker) : Tracker :=
  match cmd with
  | RecordAgentWrite p c k prev => record_agent_write w p c k prev t
  | HandleFileChange p => handle_file_change w p t
  | HandleFileDeleted p => handle_file_deleted w p t
  | RefreshGitDirtyCache => refresh_git_dirty_cache w None t
  | ResetBaseline p => reset_baseline p t
  | SetMode m => set_mode w m t
  | HunkActionCmd i a => (apply_hunk_action w i a t).1
  | FileAction p a => (apply_file_action w p a t).1
  | AllAction a => (apply_all_action w a t).1
  | TurnAction k a => (apply_turn_action w k a t).1
  | ResetStats => set_stats stats_default t
  | RefreshAllBaselines => refresh_all_baselines w t
  | RestoreState s => restore_snapshot s t
  end.

(** ** Coalescing of queued notifications *)

Inductive CoalescedPathAction := CChanged | CDeleted | CDeletedThenChanged.

Record CoalescedBatch := mkBatch {
  file_actions : gmap string CoalescedPathAction;
  refresh_all : bool;
  refresh_dirty : bool;
  other_commands : list HunkTrackerCommand
}.

Definition batch_new : CoalescedBatch := mkBatch ∅ false false [].

Definition batch_add (b : CoalescedBatch) (cmd : HunkTrackerCommand) : CoalescedBatch :=
  match cmd with
  | HandleFileChange p =>
      let a := match file_actions b !! p with
               | None => CChanged
               | Some CDeleted => CDeletedThenChanged
               | Some a => a
               end in
      mkBatch (<[p := a]> (file_actions b)) (refresh_all b) (refresh_dirty b) (other_commands b)
  | HandleFileDeleted p =>
      mkBatch (<[p := CDeleted]> (file_actions b)) (refresh_all b) (refresh_dirty b) (other_commands b)
  | RefreshAllBaselines => mkBatch (file_actions b) true (refresh_dirty b) (other_commands b)
  | RefreshGitDirtyCache => mkBatch (file_actions b) (refresh_all b) true (other_commands b)
  | c => mkBatch (file_actions b) (refresh_all b) (refresh_dirty b) (other_commands b ++ [c])
  end.

Definition is_coalescable (cmd : HunkTrackerCommand) : bool :=
  match cmd with
  | HandleFileChange _ | HandleFileDeleted _ | RefreshAllBaselines | RefreshGitDirtyCache => true
  | _ => false
  end.

(** [drain_and_coalesce]: the command received and those already queued. *)
Definition drain_and_coalesce (first : HunkTrackerCommand) (queued : list HunkTrackerCommand)
    : CoalescedBatch :=
  foldl batch_add (batch_add batch_new first) queued.

Definition refresh_action (w : World) (acc : Tracker * gset string)
    (pa : string * CoalescedPathAction) : Tracker * gset string :=
  let '(t, done) := acc in
  let '(p, a) := pa in
  match a with
  | CChanged | CDeletedThenChanged =>
      match file_states t !! p with
      | None => (handle_file_change w p t, {[p]} ∪ done)
      | Some _ => (t, done)
      end
  | CDeleted =>
      match file_states t !! p with
      | None => (t, done)
      | Some _ => (handle_file_deleted w p t, done)
      end
  end.

Definition plain_action (w : World) (acc : Tracker * list string)
    (pa : string * CoalescedPathAction) : Tracker * list string :=
  let '(t, changed) := acc in
  let '(p, a) := pa in
  match a with
  | CChanged | CDeletedThenChanged => (t, changed ++ [p])
  | CDeleted => (handle_file_deleted w p t, changed)
  end.

(** The notifications of a batch, then the other commands in order. *)
Definition handle_batch_files (w : World) (b : CoalescedBatch) (t : Tracker) : Tracker :=
  let t := if refresh_dirty b && negb (refresh_all b) then refresh_git_dirty_cache w None t else t in
  if refresh_all b then
    let '(t, processed) := foldl (refresh_action w) (t, ∅) (hiter (file_actions b)) in
    refresh_all_baselines_except w processed t
  else
    let '(t, changed) := foldl (plain_action w) (t, []) (hiter (file_actions b)) in
    handle_file_changes_batch w changed t.

Definition handle_coalesced_batch (w : World) (b : CoalescedBatch) (t : Tracker) : Tracker :=
  foldl (fun t c => handle_command w c t) (handle_batch_files w b t) (other_commands b).

(** One turn of the actor's loop. *)
Definition actor_step (w : World) (cmd : HunkTrackerCommand) (queued : list HunkTrackerCommand)
    (t : Tracker) : Tracker :=
  if is_coalescable cmd then handle_coalesced_batch w (drain_and_coalesce cmd queued) t
  else handle_command w cmd t.
End tracker.
