(* ===== verification/HunkInv.v ===== *)
(** * Invariants of the hunk tracker

    Whatever the tracker is told, hunk identifiers are unique and the index
    from turns to hunks never attributes a pending hunk to the wrong turn; as
    long as no file operation fails it lists every pending hunk of a turn. *)

From S2P Require Import Prelude RustStr TextLines HunkDiff HunkTracker.

Lemma elem_of_fst {A B} (x : A) (y : B) l : (x, y) ∈ l -> x ∈ l.*1.
Proof. intros H. apply list_elem_of_fmap. by exists (x, y). Qed.

(** ** The turn index *)

Definition indexed (ti : gmap nat (gset HunkId)) (k : nat) (i : HunkId) : Prop :=
  i ∈ default ∅ (ti !! k).

Definition in_turn (h : Hunk) (k : nat) (i : HunkId) : Prop :=
  prompt_index (source h) = Some k /\ id h = i.

Lemma indexed_insert ti k s k' i :
  indexed (<[k := s]> ti) k' i <-> (k = k' /\ i ∈ s) \/ (k <> k' /\ indexed ti k' i).
Proof.
  unfold indexed. destruct (decide (k = k')) as [->|Hk].
  - rewrite lookup_insert_eq. cbn. naive_solver.
  - rewrite lookup_insert_ne by done. naive_solver.
Qed.

Lemma indexed_unindex h ti k i :
  indexed (unindex h ti) k i <-> indexed ti k i /\ ~ in_turn h k i.
Proof.
  unfold unindex, in_turn. destruct (prompt_index (source h)) as [q|]; [|naive_solver].
  destruct (ti !! q) as [s|] eqn:Hq.
  - rewrite indexed_insert. unfold indexed. destruct (decide (q = k)) as [->|Hk].
    + rewrite Hq. cbn. set_solver.
    + naive_solver.
  - split; [|tauto]. intros Hi. split; [done|]. intros [[= ->] <-].
    unfold indexed in Hi. by rewrite Hq in Hi.
Qed.

Lemma indexed_index h ti k i :
  indexed (index_hunk h ti) k i <-> indexed ti k i \/ in_turn h k i.
Proof.
  unfold index_hunk, in_turn. destruct (prompt_index (source h)) as [q|]; [|naive_solver].
  rewrite indexed_insert. unfold indexed. destruct (decide (q = k)) as [->|Hk]; set_solver.
Qed.

Lemma indexed_unindex_all hs : forall ti k i,
  indexed (unindex_all hs ti) k i <-> indexed ti k i /\ ~ Exists (fun h => in_turn h k i) hs.
Proof.
  induction hs as [|h hs IH]; intros ti k i.
  - rewrite Exists_nil. change (unindex_all [] ti) with ti. tauto.
  - change (unindex_all (h :: hs) ti) with (unindex_all hs (unindex h ti)).
    rewrite IH, indexed_unindex, Exists_cons. tauto.
Qed.

Lemma indexed_index_all hs : forall ti k i,
  indexed (index_all hs ti) k i <-> indexed ti k i \/ Exists (fun h => in_turn h k i) hs.
Proof.
  induction hs as [|h hs IH]; intros ti k i.
  - rewrite Exists_nil. change (index_all [] ti) with ti. tauto.
  - change (index_all (h :: hs) ti) with (index_all hs (index_hunk h ti)).
    rewrite IH, indexed_index, Exists_cons. tauto.
Qed.

(** ** The invariant *)

Section invariant.
Implicit Types files : gmap string FileHunkState.

(** [h] is pending in file [p]. *)
Definition pending files (p : string) (h : Hunk) : Prop :=
  exists st, files !! p = Some st /\ h ∈ hunks st.

(** Hunks exist between two texts, or singly for a created or deleted file. *)
Definition shape (st : FileHunkState) : Prop :=
  match baseline st, current_content st with
  | Full _, Full _ => True
  | Full _, Missing | Missing, Full _ => length (hunks st) <= 1
  | _, _ => hunks st = []
  end.

Record Inv files (ti : gmap nat (gset HunkId)) (next : N) : Prop := {
  inv_fresh : forall p h, pending files p h -> (id h < next)%N;
  inv_nodup : forall p st, files !! p = Some st -> NoDup (id <$> hunks st);
  inv_uniq : forall p q h g, pending files p h -> pending files q g -> id h = id g -> p = q;
  inv_shape : forall p st, files !! p = Some st -> shape st;
  inv_index : forall k i, indexed ti k i ->
    (i < next)%N /\ forall p h, pending files p h -> id h = i -> prompt_index (source h) = Some k
}.

Definition Complete files (ti : gmap nat (gset HunkId)) : Prop :=
  forall p h k, pending files p h -> prompt_index (source h) = Some k -> indexed ti k (id h).

Lemma pending_same files p st h : files !! p = Some st -> pending files p h <-> h ∈ hunks st.
Proof. unfold pending. intros E. rewrite E. naive_solver. Qed.

Lemma pending_insert files p st q h :
  pending (<[p := st]> files) q h <-> (q = p /\ h ∈ hunks st) \/ (q <> p /\ pending files q h).
Proof.
  unfold pending. destruct (decide (p = q)) as [->|Hq].
  - rewrite lookup_insert_eq. naive_solver.
  - rewrite lookup_insert_ne by done. naive_solver.
Qed.

Lemma pending_delete files p q h :
  pending (delete p files) q h <-> q <> p /\ pending files q h.
Proof.
  unfold pending. destruct (decide (p = q)) as [->|Hq].
  - rewrite lookup_delete_eq. naive_solver.
  - rewrite lookup_delete_ne by done. naive_solver.
Qed.

Lemma ids_inj (l : list Hunk) h g :
  NoDup (id <$> l) -> h ∈ l -> g ∈ l -> id h = id g -> h = g.
Proof.
  intros Hd [i Hi]%list_elem_of_lookup [j Hj]%list_elem_of_lookup E.
  assert (i = j) as ->.
  { eapply (NoDup_lookup (id <$> l)); [done|..]; rewrite list_lookup_fmap.
    - by rewrite Hi.
    - rewrite Hj. cbn. by rewrite E. }
  congruence.
Qed.

Definition old_hunks files (p : string) : list Hunk := from_option hunks [] (files !! p).

Lemma elem_of_old_hunks files p g : g ∈ old_hunks files p <-> pending files p g.
Proof.
  unfold old_hunks, pending. destruct (files !! p) as [st|]; cbn; [naive_solver|].
  rewrite elem_of_nil. naive_solver.
Qed.

(** Replacing the hunks of a file by hunks whose identifiers are its own or
    fresh, with the index brought up to date. *)
Section replace.
Context files (ti : gmap nat (gset HunkId)) (next next' : N) (p : string) (st' : FileHunkState).
Hypothesis HI : Inv files ti next.
Hypothesis Hd : NoDup (id <$> hunks st').
Hypothesis Hs : shape st'.
Hypothesis Hle : (next <= next')%N.
Hypothesis Hids :
  forall h, h ∈ hunks st' -> id h ∈ id <$> old_hunks files p \/ (next <= id h < next')%N.

Let ti' := index_all (hunks st') (unindex_all (old_hunks files p) ti).

Lemma replace_other h q g : h ∈ hunks st' -> q <> p -> pending files q g -> id h <> id g.
Proof.
  intros Hh Hq Hg E. destruct (Hids h Hh) as [(o & Eo & Ho)%list_elem_of_fmap|Hf].
  - apply Hq. eapply (inv_uniq _ _ _ HI q p g o); [done|by apply elem_of_old_hunks|congruence].
  - apply (inv_fresh _ _ _ HI) in Hg. lia.
Qed.

Lemma replace_fresh h : h ∈ hunks st' -> (id h < next')%N.
Proof.
  intros Hh. destruct (Hids h Hh) as [(o & -> & Ho)%list_elem_of_fmap|Hf]; [|lia].
  apply elem_of_old_hunks, (inv_fresh _ _ _ HI) in Ho. lia.
Qed.

Lemma replace_index k i :
  indexed ti' k i ->
  (i < next')%N /\
  forall q h, pending (<[p := st']> files) q h -> id h = i -> prompt_index (source h) = Some k.
Proof.
  intros [[Hi Hno]%indexed_unindex_all|Hex]%indexed_index_all.
  - destruct (inv_index _ _ _ HI k i Hi) as [Hlt Hidx]. split; [lia|].
    intros q h [[-> Hh]|[Hq Hp]]%pending_insert E; [|eauto]. exfalso.
    destruct (Hids h Hh) as [(o & Eo & Ho)%list_elem_of_fmap|Hf]; [|lia].
    apply Hno, Exists_exists. exists o. split; [done|]. split; [|congruence].
    eapply Hidx; [by apply elem_of_old_hunks|congruence].
  - apply Exists_exists in Hex as (g & Hg & Hk & <-). split; [by apply replace_fresh|].
    intros q h [[-> Hh]|[Hq Hp]]%pending_insert E.
    + by rewrite (ids_inj _ _ _ Hd Hh Hg E).
    + exfalso. by apply (replace_other g q h).
Qed.

Lemma inv_replace : Inv (<[p := st']> files) ti' next'.
Proof.
  split.
  - intros q h [[-> Hh]|[Hq Hp]]%pending_insert; [by apply replace_fresh|].
    apply (inv_fresh _ _ _ HI) in Hp. lia.
  - intros q st. destruct (decide (p = q)) as [->|Hq].
    + rewrite lookup_insert_eq. by intros [= <-].
    + rewrite lookup_insert_ne by done. apply (inv_nodup _ _ _ HI).
  - intros q r h g [[-> Hh]|[Hq Hp]]%pending_insert [[-> Hg]|[Hr Hg]]%pending_insert E.
    + done.
    + exfalso. by apply (replace_other h r g).
    + exfalso. by apply (replace_other g q h).
    + by eapply (inv_uniq _ _ _ HI).
  - intros q st. destruct (decide (p = q)) as [->|Hq].
    + rewrite lookup_insert_eq. by intros [= <-].
    + rewrite lookup_insert_ne by done. apply (inv_shape _ _ _ HI).
  - apply replace_index.
Qed.

Lemma complete_replace : Complete files ti -> Complete (<[p := st']> files) ti'.
Proof.
  intros HC q h k [[-> Hh]|[Hq Hp]]%pending_insert Hk; apply indexed_index_all.
  - right. apply Exists_exists. by exists h.
  - left. apply indexed_unindex_all. split; [by eapply HC|].
    intros (o & Ho & _ & E)%Exists_exists. apply Hq.
    eapply (inv_uniq _ _ _ HI); [done|by apply elem_of_old_hunks|done].
Qed.
End replace.

(** Fewer hunks, and an index that forgets only hunks that are gone. *)
Lemma inv_shrink files files' ti ti' next :
  Inv files ti next ->
  (forall p st', files' !! p = Some st' -> shape st' /\
     (hunks st' = [] \/ exists st, files !! p = Some st /\ sublist (hunks st') (hunks st))) ->
  (forall k i, indexed ti' k i -> indexed ti k i) ->
  Inv files' ti' next.
Proof.
  intros HI Hf Hti.
  assert (forall p h, pending files' p h -> pending files p h) as Hp.
  { intros p h (st' & E & Hh). destruct (Hf _ _ E) as [_ [En|(st & Es & Hsub)]].
    - rewrite En in Hh. by apply elem_of_nil in Hh.
    - exists st. split; [done|]. by eapply elem_of_sublist. }
  split.
  - intros p h Hpd%Hp. by eapply inv_fresh.
  - intros p st' E. destruct (Hf _ _ E) as [_ [->|(st & Es & Hsub)]]; [constructor|].
    eapply sublist_NoDup; [by eapply inv_nodup|by apply fmap_sublist].
  - intros p q h g Hpa%Hp Hpb%Hp. by eapply inv_uniq.
  - intros p st' E. by apply Hf in E as [? _].
  - intros k i Hi%Hti. destruct (inv_index _ _ _ HI k i Hi) as [? Hidx]. split; [done|].
    intros p h Hpd%Hp. by apply (Hidx p).
Qed.
End invariant.

(** ** Recomputation *)

Lemma min_by_key_elem {A} (f : A -> nat) l x : min_by_key f l = Some x -> x ∈ l.
Proof.
  revert x. induction l as [|y l IH]; intros x; cbn; [done|].
  destruct (min_by_key f l) as [z|].
  - case_match; intros [= <-]; [right; by apply IH|left].
  - intros [= <-]. left.
Qed.

Lemma max_by_key_elem {A} (f : A -> nat) l x : max_by_key f l = Some x -> x ∈ l.
Proof.
  revert x. induction l as [|y l IH]; intros x; cbn; [done|].
  destruct (max_by_key f l) as [z|].
  - case_match; intros [= <-]; [right; by apply IH|left].
  - intros [= <-]. left.
Qed.

Lemma find_matching_elem h old m : find_matching_old_hunk h old = Some m -> m ∈ old.
Proof.
  unfold find_matching_old_hunk. case_match; intros Hm.
  - by apply min_by_key_elem, list_elem_of_filter in Hm as [_ ?].
  - by apply max_by_key_elem, list_elem_of_filter in Hm as [_ ?].
Qed.

Lemma length_claim old l : forall claimed, length (claim old claimed l) = length l.
Proof.
  induction l as [|h l IH]; intros claimed; cbn; [done|].
  repeat case_match; cbn; by rewrite IH.
Qed.

(** The identifiers after carrying over are new ones or unclaimed old ones,
    without repetition. *)
Lemma claim_ids old l : forall claimed,
  NoDup (id <$> l) -> (forall h m, h ∈ l -> m ∈ old -> id h <> id m) ->
  NoDup (id <$> claim old claimed l) /\
  forall g, g ∈ claim old claimed l ->
    id g ∈ id <$> l \/ (id g ∈ id <$> old /\ id g ∉ claimed).
Proof.
  induction l as [|h l IH]; intros claimed Hd Hdis.
  { split; [constructor|]. intros g Hg%elem_of_nil. done. }
  rewrite fmap_cons in Hd. apply NoDup_cons in Hd as [Hh Hd].
  assert (forall h' m, h' ∈ l -> m ∈ old -> id h' <> id m) as Hdis' by (intros; apply Hdis; [by right|done]).
  assert (forall c, id h ∉ id <$> claim old c l) as Hfresh.
  { intros c (g & E & Hg)%list_elem_of_fmap. destruct (IH c Hd Hdis') as [_ Hin].
    destruct (Hin g Hg) as [Hg'|[(m & Em & Hm)%list_elem_of_fmap _]].
    - by rewrite <- E in Hg'.
    - apply (Hdis h m); [left|done|congruence]. }
  assert (NoDup (id <$> h :: claim old claimed l) /\
          forall g, g ∈ h :: claim old claimed l ->
            id g ∈ id <$> h :: l \/ (id g ∈ id <$> old /\ id g ∉ claimed)) as Hplain.
  { destruct (IH claimed Hd Hdis') as [IHd IHi]. rewrite !fmap_cons. split; [by constructor|].
    intros g [->|Hg]%elem_of_cons; [left; left|]. destruct (IHi g Hg); [left; by right|by right]. }
  cbn [claim]. destruct (find_matching_old_hunk h old) as [m|] eqn:Hm; [|done].
  case_bool_decide as Hcl; [done|]. apply find_matching_elem in Hm.
  destruct (IH ({[id m]} ∪ claimed) Hd Hdis') as [IHd IHi].
  set (h2 := if is_external _ && _ then _ else _).
  assert (id h2 = id m) as E2 by (unfold h2; by case_match).
  rewrite !fmap_cons, E2. split.
  - constructor; [|done]. intros (g & Eg & Hg)%list_elem_of_fmap.
    destruct (IHi g Hg) as [(h' & Eh & Hh')%list_elem_of_fmap|[_ Hno]].
    + apply (Hdis' h' m); [done..|congruence].
    + set_solver.
  - intros g [->|Hg]%elem_of_cons.
    + right. rewrite E2. split; [by apply list_elem_of_fmap_2|done].
    + destruct (IHi g Hg) as [?|[? ?]]; [left; by right|right; set_solver].
Qed.

Section commands.
Context {D : Differ} {HI : HashIter string}.

(** The hunks of a diff of contents are fresh and have the shape. *)
Lemma diff_states_ids p b c src next hs next' :
  diff_states p b c src next = (hs, next') ->
  (next <= next')%N /\ NoDup (id <$> hs) /\ (forall h, h ∈ hs -> next <= id h < next')%N.
Proof.
  assert (forall hs next', hunks_from p src next hs /\ next' = (next + N.of_nat (length hs))%N ->
    (next <= next')%N /\ NoDup (id <$> hs) /\ (forall h, h ∈ hs -> next <= id h < next')%N) as Hmain.
  { intros ? ? [[Hi _] ->]. split; [lia|]. rewrite Hi. split.
    - apply NoDup_fmap_2; [intros x y; lia|]. apply NoDup_seq.
    - intros h Hh. assert (id h ∈ id <$> hs0) as Hin by (by apply list_elem_of_fmap_2).
      rewrite Hi in Hin. apply list_elem_of_fmap in Hin as (k & -> & Hk%elem_of_seq). lia. }
  unfold diff_states. intros E. apply Hmain.
  destruct b, c; simplify_eq/=; try (split; [by split|cbn; lia]).
  - case_bool_decide; simplify_eq/=; [split; [by split|cbn; lia]|].
    split; [|cbn; lia]. by apply hunks_from_cons.
  - case_bool_decide; simplify_eq/=; [split; [by split|cbn; lia]|].
    split; [|cbn; lia]. by apply hunks_from_cons.
  - pose proof (compute_hunks_fresh p content content0 src next) as Hf. by rewrite E in Hf.
Qed.

Lemma diff_states_shape p b c src next hs next' f acc :
  diff_states p b c src next = (hs, next') ->
  forall hs', length hs' = length hs -> shape (set_contents b c hs' acc f).
Proof.
  unfold diff_states, shape. cbn. intros E hs' Hl.
  destruct b, c; simplify_eq/=; try (by apply length_zero_iff_nil); try done;
    case_bool_decide; simplify_eq/=; lia.
Qed.

(** What a step of the tracker preserves. *)
Definition TInv (t : Tracker) : Prop := Inv (file_states t) (turn_index t) (next_id t).
Definition TComplete (t : Tracker) : Prop := Complete (file_states t) (turn_index t).
Definition steps (t t' : Tracker) : Prop :=
  TInv t -> TInv t' /\ (TComplete t -> TComplete t').

Lemma steps_refl t : steps t t.
Proof. unfold steps. tauto. Qed.

Lemma steps_intro t t' : (TInv t -> steps t t') -> steps t t'.
Proof. unfold steps. tauto. Qed.

Lemma steps_trans t1 t2 t3 : steps t1 t2 -> steps t2 t3 -> steps t1 t3.
Proof. unfold steps. tauto. Qed.

(** Only files, index and identifiers matter. *)
Lemma steps_same t t' :
  file_states t' = file_states t -> turn_index t' = turn_index t -> next_id t' = next_id t ->
  steps t t'.
Proof. unfold steps, TInv, TComplete. intros -> -> ->. tauto. Qed.

Lemma send_events_same es : forall t,
  let t' := send_events es t in
  file_states t' = file_states t /\ turn_index t' = turn_index t /\ next_id t' = next_id t /\
  disk t' = disk t /\ mode t' = mode t /\ session_stats t' = session_stats t.
Proof.
  induction es as [|e es IH]; intros t; [done|].
  change (send_events (e :: es) t) with (send_events es (send_event e t)). apply (IH (send_event e t)).
Qed.

Lemma steps_events es t : steps t (send_events es t).
Proof. destruct (send_events_same es t) as (?&?&?&_). by apply steps_same. Qed.

Lemma steps_event e t : steps t (send_event e t).
Proof. by apply steps_same. Qed.

Lemma steps_foldl {A} (f : Tracker -> A -> Tracker) l :
  (forall t x, steps t (f t x)) -> forall t, steps t (foldl f t l).
Proof.
  intros Hf. induction l as [|x l IH]; intros t; [apply steps_refl|].
  eapply steps_trans; [apply Hf|apply IH].
Qed.

(** Recomputing a file, also when its contents were just replaced. *)
Lemma recompute_put_steps p st st1 cur src t :
  file_states t !! p = Some st -> hunks st1 = hunks st ->
  steps t (recompute_hunks p cur src (put_file p st1 t)).
Proof.
  intros Hp E1. unfold recompute_hunks, put_file. cbn. rewrite lookup_insert_eq, E1.
  destruct (diff_states _ _ _ _ _) as [fresh next] eqn:Hd.
  eapply steps_trans; [|apply steps_events]. intros Hinv.
  destruct (diff_states_ids _ _ _ _ _ _ _ Hd) as (Hle & Hnd & Hfr).
  assert (old_hunks (file_states t) p = hunks st) as Eold by (unfold old_hunks; by rewrite Hp).
  assert (forall h m, h ∈ fresh -> m ∈ hunks st -> id h <> id m) as Hdis.
  { intros h m Hh%Hfr Hm E. assert (id m < next_id t)%N; [|lia].
    eapply (inv_fresh _ _ _ Hinv p). by exists st. }
  destruct (claim_ids (hunks st) fresh ∅ Hnd Hdis) as [Hcd Hci].
  set (st' := set_contents (baseline st1) _ _ _ _).
  assert (shape st') as Hsh by (eapply diff_states_shape; [done|by rewrite length_claim]).
  assert (forall h, h ∈ hunks st' ->
    id h ∈ id <$> old_hunks (file_states t) p \/ (next_id t <= id h < next)%N) as Hids.
  { intros h Hh. rewrite Eold. destruct (Hci h Hh) as [(g & -> & Hg)%list_elem_of_fmap|[Ho _]]; auto. }
  unfold TInv, TComplete. cbn. rewrite insert_insert_eq. split.
  - pose proof (inv_replace _ _ _ _ _ st' Hinv Hcd Hsh Hle Hids) as Hr. by rewrite Eold in Hr.
  - intros HC. pose proof (complete_replace _ _ _ p st' Hinv HC) as Hr. by rewrite Eold in Hr.
Qed.

Lemma recompute_steps p cur src t : steps t (recompute_hunks p cur src t).
Proof.
  destruct (file_states t !! p) as [st|] eqn:Hp.
  - pose proof (recompute_put_steps p st st cur src t Hp eq_refl) as Hs.
    unfold put_file, set_files in Hs. rewrite insert_id in Hs by done. by destruct t.
  - unfold recompute_hunks. rewrite Hp. apply steps_refl.
Qed.

(** ** Removing hunks *)

Lemma retain_not_sublist ids hs : sublist (retain_not ids hs) hs.
Proof. apply sublist_filter. Qed.

Lemma elem_of_retain_not ids hs h : (h ∈ retain_not ids hs) <-> (id h ∉ ids) /\ (h ∈ hs).
Proof. unfold retain_not. by rewrite list_elem_of_filter. Qed.

(** Hunks of a file leave the file and the index together. *)
Lemma remove_steps t t' p st st' hs :
  file_states t !! p = Some st -> hs ⊆ hunks st ->
  file_states t' = <[p := st']> (file_states t) ->
  hunks st' = retain_not (id <$> hs) (hunks st) -> shape st' ->
  turn_index t' = unindex_all hs (turn_index t) -> next_id t' = next_id t ->
  steps t t'.
Proof.
  intros Hp Hsub Ef Eh Hsh Ei En Hinv. unfold TInv, TComplete in *. rewrite Ef, Ei, En. split.
  - eapply inv_shrink; [done| |].
    + intros q st0. destruct (decide (p = q)) as [->|Hq].
      * rewrite lookup_insert_eq. intros [= <-]. split; [done|]. right. exists st.
        split; [done|]. rewrite Eh. apply retain_not_sublist.
      * rewrite lookup_insert_ne by done. intros E. split; [by eapply inv_shape|].
        right. by exists st0.
    + by intros k i [? _]%indexed_unindex_all.
  - intros HC q h k Hpd Hk. apply indexed_unindex_all.
    assert (pending (file_states t) q h /\ ~ (q = p /\ id h ∈ id <$> hs)) as [Hold Hno].
    { apply pending_insert in Hpd as [[-> Hh]|[Hq Hh]]; [|naive_solver].
      rewrite Eh in Hh. apply elem_of_retain_not in Hh as [Hn Hh]. split; [by exists st|naive_solver]. }
    split; [by eapply HC|]. intros (o & Ho & _ & E)%Exists_exists. apply Hno.
    split; [|rewrite <- E; by apply list_elem_of_fmap_2].
    eapply (inv_uniq _ _ _ Hinv); [done| |done]. exists st. auto.
Qed.

Lemma note_same a hs : forall t,
  let t' := foldl (note_hunk a) t hs in
  file_states t' = file_states t /\ turn_index t' = unindex_all hs (turn_index t) /\
  next_id t' = next_id t /\ disk t' = disk t.
Proof.
  induction hs as [|h hs IH]; intros t; [done|]. cbn [foldl].
  destruct (IH (note_hunk a t h)) as (E1 & E2 & E3 & E4). cbv zeta. rewrite E1, E2, E3, E4.
  unfold note_hunk, remove_from_turn_index, update_session_stats. by destruct a.
Qed.

Lemma note_keeps a hs t : TInv t -> TInv (foldl (note_hunk a) t hs).
Proof.
  intros Hinv. unfold TInv. destruct (note_same a hs t) as (-> & -> & -> & _).
  eapply inv_shrink; [done| |].
  - intros p st E. split; [by eapply inv_shape|]. right. by exists st.
  - by intros k i [? _]%indexed_unindex_all.
Qed.

Lemma shape_retain st st' ids :
  shape st -> hunks st' = retain_not ids (hunks st) ->
  (baseline st' = baseline st \/
   exists b b', baseline st = Full b /\ baseline st' = Full b') ->
  current_content st' = current_content st -> shape st'.
Proof.
  unfold shape. intros Hs Eh Eb Ec. rewrite Ec.
  assert (length (hunks st') <= length (hunks st)) as Hl
    by (rewrite Eh; apply sublist_length, retain_not_sublist).
  assert (hunks st = [] -> hunks st' = []) as Hn by (intros E; rewrite Eh, E; done).
  destruct Eb as [-> | (b & b' & Eb & ->)]; [|rewrite Eb in Hs];
    destruct (current_content st); try destruct (baseline st); auto; lia.
Qed.

Lemma patch_states_full pf hs s :
  foldl (patch_state pf) s hs = s \/
  exists b, s = Full b /\ foldl (patch_state pf) s hs = Full (foldl (apply_patch pf) b hs).
Proof.
  destruct s; try (left; induction hs; done). right. exists content. split; [done|].
  revert content. induction hs as [|h hs IH]; intros c; [done|]. apply IH.
Qed.

(** The state after the bookkeeping of a batch and the removal of its hunks
    from the file. *)
Lemma put_removed_steps a p hs st st' t t1 :
  file_states t !! p = Some st -> hs ⊆ hunks st ->
  hunks st' = retain_not (id <$> hs) (hunks st) -> shape st' ->
  (t1 = foldl (note_hunk a) t hs \/ exists d, t1 = set_disk d (foldl (note_hunk a) t hs)) ->
  steps t (put_file p st' t1).
Proof.
  intros Hp Hsub Eh Hsh Ht. destruct (note_same a hs t) as (E1 & E2 & E3 & _).
  eapply remove_steps; try done; destruct Ht as [->|[d ->]]; try done;
    unfold put_file; cbn; by rewrite E1.
Qed.

Lemma shape_patched pf hs' st ids acc :
  shape st ->
  shape (set_contents (foldl (patch_state pf) (baseline st) hs') (current_content st)
           (retain_not ids (hunks st)) acc st).
Proof.
  intros Hsh. eapply shape_retain; [exact Hsh|done| |done]. cbn.
  destruct (patch_states_full pf hs' (baseline st)) as [->|(b & -> & ->)]; eauto.
Qed.

Lemma shape_no_hunks st :
  shape st -> hunks st <> [] ->
  (exists b c, baseline st = Full b /\ current_content st = Full c) \/
  (exists b, baseline st = Full b /\ current_content st = Missing /\ length (hunks st) <= 1) \/
  (exists c, baseline st = Missing /\ current_content st = Full c /\ length (hunks st) <= 1).
Proof.
  unfold shape. destruct (baseline st), (current_content st); try done; naive_solver.
Qed.

Lemma patch_states_text pf hs b :
  foldl (patch_state pf) (Full b) hs = Full (foldl (apply_patch pf) b hs).
Proof. revert b. induction hs as [|h hs IH]; intros b; [done|]. apply IH. Qed.

Lemma accept_batch_steps p hs st t :
  hs <> [] -> file_states t !! p = Some st -> hs ⊆ hunks st ->
  steps t (accept_hunks_batch p hs (foldl (note_hunk Accept) t hs)).
Proof.
  intros Hne Hp Hsub. apply steps_intro. intros Hinv.
  destruct (note_same Accept hs t) as (E1 & _). unfold accept_hunks_batch.
  rewrite bool_decide_false, E1, Hp by done. cbv beta iota zeta.
  pose proof (inv_shape _ _ _ Hinv _ _ Hp) as Hsh.
  pose proof (fun hs' => shape_patched accept_patch hs' st (id <$> hs) true Hsh) as Hshp.
  destruct (baseline st) eqn:Hb;
    (eapply steps_trans; [|first [apply recompute_steps|apply steps_events]]);
    try (eapply steps_trans; [|apply steps_events]);
    (eapply put_removed_steps; [done..| |by left]); try apply Hshp.
  unfold shape in *. rewrite Hb in Hsh. cbn. destruct (current_content st); try done; by rewrite Hsh.
Qed.

(** Every hunk of a created or deleted file is in the batch. *)
Lemma retain_single hs (l : list Hunk) :
  hs <> [] -> hs ⊆ l -> length l <= 1 -> retain_not (id <$> hs) l = [].
Proof.
  intros Hne Hsub Hl. destruct l as [|h [|]]; [done| |cbn in Hl; lia].
  destruct hs as [|g hs]; [done|]. assert (g = h) as ->.
  { apply list_elem_of_singleton, Hsub. left. }
  unfold retain_not. rewrite filter_cons, decide_False; [done|]. intros Hn. apply Hn. left.
Qed.

Lemma reject_batch_steps w p hs st t t' r :
  hs <> [] -> file_states t !! p = Some st -> hs ⊆ hunks st ->
  reject_hunks_batch w p hs (foldl (note_hunk Reject) t hs) = (t', r) ->
  match r with Ok _ => steps t t' | Err _ => t' = foldl (note_hunk Reject) t hs end.
Proof.
  intros Hne Hp Hsub. destruct (note_same Reject hs t) as (E1 & _). unfold reject_hunks_batch.
  rewrite bool_decide_false, E1, Hp by done. cbv beta iota zeta.
  assert (TInv t -> shape st) as Hsh by (intros H; by eapply (inv_shape _ _ _ H)).
  assert (hunks st <> []) as Hhn.
  { intros En. rewrite En in Hsub. destruct hs as [|h hs]; [done|].
    specialize (Hsub h (list_elem_of_here _ _)). by apply elem_of_nil in Hsub. }
  assert (forall d, steps t (set_disk d t)) as Hdisk by (intros d; by apply steps_same).
  intros E. destruct r as [[]|e].
  2: { repeat case_match; by simplify_eq. }
  apply steps_intro. intros Hinv. destruct (shape_no_hunks st (Hsh Hinv) Hhn)
    as [(b & c & Hb & Hc)|[(b & Hb & Hc & Hl)|(c & Hb & Hc & Hl)]]; rewrite Hb, Hc in E;
    (case_match; [|done]); injection E as <-.
  - eapply steps_trans; [|apply recompute_steps]. eapply steps_trans; [|apply steps_events].
    eapply put_removed_steps; eauto. done.
  - eapply steps_trans; [|apply steps_events]. eapply put_removed_steps; eauto. done.
  - eapply steps_trans; [|apply steps_events]. eapply put_removed_steps; eauto.
    unfold shape. cbn. by apply retain_single.
Qed.

(** ** Actions *)

Lemma recompute_other p q cur src t :
  q <> p -> file_states (recompute_hunks p cur src t) !! q = file_states t !! q.
Proof.
  intros Hq. unfold recompute_hunks. destruct (file_states t !! p) as [st|]; [|done].
  destruct (diff_states _ _ _ _ _) as [hs n].
  match goal with |- context [send_events ?es ?t'] => destruct (send_events_same es t') as (-> & _) end.
  cbn. by rewrite lookup_insert_ne.
Qed.

Lemma accept_other p q hs t :
  q <> p -> file_states (accept_hunks_batch p hs t) !! q = file_states t !! q.
Proof.
  intros Hq. unfold accept_hunks_batch. repeat case_match; try done;
    rewrite ?recompute_other by done;
    match goal with |- context [send_events ?es ?t'] => destruct (send_events_same es t') as (-> & _) end;
    cbn; by rewrite lookup_insert_ne.
Qed.

Lemma reject_other w p q hs t :
  q <> p -> file_states (reject_hunks_batch w p hs t).1 !! q = file_states t !! q.
Proof.
  intros Hq. unfold reject_hunks_batch. repeat case_match; cbn [fst]; try done;
    rewrite ?recompute_other by done;
    match goal with |- context [send_events ?es ?t'] => destruct (send_events_same es t') as (-> & _) end;
    cbn; by rewrite lookup_insert_ne.
Qed.

(** A single hunk is handled like a batch of one. *)
Lemma accept_hunk_batch p h t : accept_hunk p h t = accept_hunks_batch p [h] t.
Proof.
  unfold accept_hunk, accept_hunks_batch. rewrite bool_decide_false by done.
  destruct (file_states t !! p) as [st|]; [|done]. by destruct (baseline st).
Qed.

Lemma reject_hunk_batch w p h t : reject_hunk w p h t = reject_hunks_batch w p [h] t.
Proof.
  unfold reject_hunk, reject_hunks_batch, reject_action. rewrite bool_decide_false by done.
  destruct (file_states t !! p) as [st|]; [|done].
  destruct (current_content st), (baseline st); try done; cbn; by case_match.
Qed.

Lemma elem_of_hiter_files t p st : (p, st) ∈ hiter (file_states t) <-> file_states t !! p = Some st.
Proof. apply elem_of_hiter. Qed.

Lemma find_hunk_spec i t p h :
  find_hunk i t = Some (p, h) -> id h = i /\ exists st, file_states t !! p = Some st /\ h ∈ hunks st.
Proof.
  unfold find_hunk. intros Hh. 
  assert ((p, h) ∈ omap (fun '(p, st) => h ← find (fun h => (id h =? i)%N) (hunks st); Some (p, h))
             (hiter (file_states t))) as Hin.
  { destruct (omap _ _) as [|x l]; [done|]. injection Hh as ->. left. }
  apply list_elem_of_omap in Hin as ((q & st) & Hq%elem_of_hiter & E). cbn in E.
  destruct (find _ (hunks st)) as [g|] eqn:Hf; [|done]. cbn in E. simplify_eq.
  apply find_some in Hf as [Hin Hid%N.eqb_eq]. split; [done|]. exists st. split; [done|].
  by apply list_elem_of_In.
Qed.

(** The outcome of an action: an error of the file system leaves the
    bookkeeping of the hunks it was about. *)
Definition io_failed {A} (r : result HunkActionError A) : bool :=
  match r with Err (WriteError _) | Err (DeleteError _) => true | _ => false end.

Lemma hunk_action_steps w i a t t' r :
  apply_hunk_action w i a t = (t', r) ->
  (TInv t -> TInv t') /\ (io_failed r = false -> steps t t').
Proof.
  unfold apply_hunk_action. destruct (find_hunk i t) as [[p h]|] eqn:Hf.
  2: { intros [= <- <-]. split; [tauto|]. intros _. apply steps_refl. }
  apply find_hunk_spec in Hf as (_ & st & Hp & Hh).
  assert ([h] ⊆ hunks st) as Hsub by (intros x ->%list_elem_of_singleton; done).
  destruct a.
  - rewrite accept_hunk_batch. intros [= <- <-].
    pose proof (accept_batch_steps p [h] st t ltac:(done) Hp Hsub) as Hs.
    split; [intros Hi; apply Hs, Hi|]. intros _. exact Hs.
  - rewrite reject_hunk_batch. intros E.
    pose proof (reject_batch_steps w p [h] st t t' r ltac:(done) Hp Hsub E) as Hs.
    destruct r as [[]|e].
    + split; [intros Hi; apply Hs, Hi|]. intros _. exact Hs.
    + subst t'. split; [apply (note_keeps Reject [h])|].
      revert E. unfold reject_hunks_batch. rewrite bool_decide_false by done.
      intros E. repeat case_match; by simplify_eq/=.
Qed.

(** The files of a batch: distinct, tracked, with some of their hunks each. *)
Definition batch_ok (files : list (string * list Hunk)) (t : Tracker) : Prop :=
  NoDup files.*1 /\
  forall p hs, (p, hs) ∈ files ->
    hs <> [] /\ exists st, file_states t !! p = Some st /\ hs ⊆ hunks st.

Lemma batch_ok_tail p hs files t t' :
  batch_ok ((p, hs) :: files) t ->
  (forall q, q <> p -> file_states t' !! q = file_states t !! q) -> batch_ok files t'.
Proof.
  intros [Hd Hin] Hq. rewrite fmap_cons in Hd. apply NoDup_cons in Hd as [Hp Hd]. split; [done|].
  intros q gs Hg. destruct (Hin q gs) as (Hne & st & Es & Hsub); [by right|]. split; [done|].
  exists st. rewrite Hq; [done|]. intros ->. apply Hp. by apply (elem_of_fst p gs).
Qed.

Lemma action_batch_steps w a files : forall aff t t' r,
  batch_ok files t -> apply_action_batch w files a aff t = (t', r) ->
  (TInv t -> TInv t') /\ (io_failed r = false -> steps t t').
Proof.
  induction files as [|[p hs] files IH]; intros aff t t' r Hb E.
  { injection E as <- <-. split; [tauto|]. intros _. apply steps_refl. }
  pose proof Hb as [_ Hin]. destruct (Hin p hs) as (Hne & st & Hp & Hsub); [left|].
  destruct (note_same a hs t) as (En & _). cbn [apply_action_batch] in E. destruct a.
  - pose proof (accept_batch_steps p hs st t Hne Hp Hsub) as Hs.
    apply IH in E as [IH1 IH2].
    + split; [intros Hi; by apply IH1, Hs|]. intros Hr. eapply steps_trans; [exact Hs|auto].
    + eapply batch_ok_tail; [done|]. intros q Hq. by rewrite accept_other, En.
  - destruct (reject_hunks_batch w p hs _) as [t1 r1] eqn:Er.
    pose proof (reject_batch_steps w p hs st t t1 r1 Hne Hp Hsub Er) as Hs. destruct r1 as [[]|e].
    + apply IH in E as [IH1 IH2].
      * split; [intros Hi; by apply IH1, Hs|]. intros Hr. eapply steps_trans; [exact Hs|auto].
      * eapply batch_ok_tail; [done|]. intros q Hq.
        change t1 with ((t1, Ok tt : result HunkActionError unit).1). rewrite <- Er.
        by rewrite reject_other, En.
    + injection E as <- <-. subst t1. split; [apply note_keeps|].
      revert Er. unfold reject_hunks_batch. intros Er. repeat case_match; by simplify_eq/=.
Qed.

Lemma hiter_omap_ok (t : Tracker) (f : FileHunkState -> list Hunk) :
  (forall st, f st ⊆ hunks st) ->
  batch_ok (omap (fun '(p, st) => if bool_decide (f st = []) then None else Some (p, f st))
                 (hiter (file_states t))) t.
Proof.
  intros Hf. split.
  - pose proof (NoDup_hiter_fst (file_states t)) as Hd. induction (hiter (file_states t)) as [|[p st] l IH].
    + constructor.
    + rewrite fmap_cons in Hd. apply NoDup_cons in Hd as [Hp Hd]. cbn. case_bool_decide; cbn; [auto|].
      constructor; [|auto]. intros ((q & gs) & -> & Hg)%list_elem_of_fmap. apply Hp.
      apply list_elem_of_omap in Hg as ((q' & st') & Hq & E). case_bool_decide; simplify_eq.
      by apply (elem_of_fst q st').
  - intros p hs ((q & st) & Hq%elem_of_hiter & E)%list_elem_of_omap.
    case_bool_decide; simplify_eq. split; [done|]. exists st. auto.
Qed.

Lemma file_action_steps w p a t t' r :
  apply_file_action w p a t = (t', r) ->
  (TInv t -> TInv t') /\ (io_failed r = false -> steps t t').
Proof.
  unfold apply_file_action. destruct (file_states t !! p) as [st|] eqn:Hp.
  2: { intros [= <- <-]. split; [tauto|]. intros _. apply steps_refl. }
  case_bool_decide as Hh; [intros [= <- <-]; split; [tauto|]; intros _; apply steps_refl|].
  apply action_batch_steps. split.
  - by apply NoDup_singleton.
  - intros q hs [= -> ->]%list_elem_of_singleton. split; [done|]. by exists st.
Qed.

Lemma all_action_steps w a t t' r :
  apply_all_action w a t = (t', r) ->
  (TInv t -> TInv t') /\ (io_failed r = false -> steps t t').
Proof. apply action_batch_steps. by apply (hiter_omap_ok t hunks). Qed.

Lemma turn_files_ok k (t : Tracker) :
  batch_ok (hiter (omap (fun st =>
    let hs := filter (fun h => prompt_index (source h) = Some k) (hunks st) in
    if bool_decide (hs = []) then None else Some hs) (file_states t))) t.
Proof.
  split; [apply NoDup_hiter_fst|].
  intros p hs Hp%elem_of_hiter. rewrite lookup_omap in Hp.
  destruct (file_states t !! p) as [st|] eqn:Es; [|done]. cbn in Hp.
  case_bool_decide; simplify_eq. split; [done|]. exists st. split; [done|].
  by intros h [_ ?]%list_elem_of_filter.
Qed.

Lemma turn_action_steps w k a t t' r :
  apply_turn_action w k a t = (t', r) ->
  (TInv t -> TInv t') /\ (io_failed r = false -> steps t t').
Proof. apply action_batch_steps, turn_files_ok. Qed.

(** ** Notifications and refreshes *)

Lemma shape_nil st : hunks st = [] -> shape st.
Proof. unfold shape. intros ->. destruct (baseline st), (current_content st); cbn; auto. Qed.

Lemma steps_shrink t t' :
  next_id t' = next_id t -> turn_index t' = turn_index t ->
  (forall p st', file_states t' !! p = Some st' ->
     (hunks st' = [] \/ exists st, file_states t !! p = Some st /\ hunks st' = hunks st /\ (shape st -> shape st'))) ->
  steps t t'.
Proof.
  intros En Ei Hf Hinv. unfold TInv, TComplete. rewrite En, Ei. split.
  - eapply inv_shrink; [done| |done]. intros p st' E.
    destruct (Hf p st' E) as [Hn|(st & Es & Eh & Hsh)].
    + split; [by apply shape_nil|by left].
    + split; [apply Hsh; by eapply inv_shape|]. right. exists st. by rewrite Eh.
  - intros HC p h k (st' & E & Hh) Hk. destruct (Hf p st' E) as [Hn|(st & Es & Eh & _)].
    + rewrite Hn in Hh. by apply elem_of_nil in Hh.
    + eapply HC; [|done]. exists st. by rewrite <- Eh.
Qed.

Lemma put_cleared_steps p st t : hunks st = [] -> steps t (put_file p st t).
Proof.
  intros Hn. apply steps_shrink; [done..|]. intros q st'. unfold put_file. cbn.
  destruct (decide (p = q)) as [->|Hq].
  - rewrite lookup_insert_eq. intros [= <-]. by left.
  - rewrite lookup_insert_ne by done. intros E. right. by exists st'.
Qed.

Lemma mark_agent_steps p st t : file_states t !! p = Some st -> steps t (put_file p (mark_agent st) t).
Proof.
  intros Hp. apply steps_shrink; [done..|]. intros q st'. unfold put_file. cbn.
  destruct (decide (p = q)) as [->|Hq].
  - rewrite lookup_insert_eq. intros [= <-]. right. by exists st.
  - rewrite lookup_insert_ne by done. intros E. right. by exists st'.
Qed.

Lemma retain_all l : retain_not (id <$> l) l = [].
Proof.
  apply elem_of_nil_inv. intros h [Hn Hh]%elem_of_retain_not. apply Hn. by apply list_elem_of_fmap_2.
Qed.

Lemma put_dropped_steps p st st' t :
  file_states t !! p = Some st -> hunks st' = [] ->
  steps t (drop_hunks p (hunks st) (put_file p st' t)).
Proof.
  intros Hp Hn. eapply steps_trans; [|apply steps_events].
  eapply (remove_steps _ _ p st st' (hunks st)); try done; [by rewrite retain_all|by apply shape_nil].
Qed.

Lemma delete_steps p st t :
  file_states t !! p = Some st ->
  steps t (drop_hunks p (hunks st) (set_files (delete p (file_states t)) t)).
Proof.
  intros Hp. eapply steps_trans; [|apply steps_events]. intros Hinv. unfold TInv, TComplete. cbn.
  split.
  - eapply inv_shrink; [done| |by intros k i [? _]%indexed_unindex_all].
    intros q st' [Hq E]%lookup_delete_Some. split; [by eapply inv_shape|]. right. by exists st'.
  - intros HC q h k [Hq Hpd]%pending_delete Hk. apply indexed_unindex_all. split; [by eapply HC|].
    intros (o & Ho & _ & E)%Exists_exists. apply Hq.
    eapply (inv_uniq _ _ _ Hinv); [done|by exists st|done].
Qed.

Lemma record_agent_write_steps w p c k prev t : steps t (record_agent_write w p c k prev t).
Proof.
  unfold record_agent_write. destruct (negb _).
  - destruct (file_states t !! p) as [st|]; [by apply put_cleared_steps|].
    eapply steps_trans; [|apply steps_event]. by apply put_cleared_steps.
  - eapply steps_trans; [|apply recompute_steps]. destruct (file_states t !! p) as [st|] eqn:Hp.
    + by apply mark_agent_steps.
    + eapply steps_trans; [|apply steps_event]. by apply put_cleared_steps.
Qed.

Lemma process_file_change_steps w p pre t : steps t (process_file_change w p pre t).
Proof.
  unfold process_file_change. destruct (file_states t !! p) as [st|] eqn:Hp.
  - case_match; [by apply put_cleared_steps|apply recompute_steps].
  - repeat case_match; try apply steps_refl;
      try (eapply steps_trans; [|apply recompute_steps]);
      (eapply steps_trans; [|apply steps_event]); by apply put_cleared_steps.
Qed.

Lemma process_batch_steps w ps : forall bs t, steps t (process_batch w bs ps t).
Proof.
  induction ps as [|p ps IH]; intros bs t; [apply steps_refl|].
  eapply steps_trans; [apply process_file_change_steps|apply IH].
Qed.

Lemma handle_file_deleted_steps w p t : steps t (handle_file_deleted w p t).
Proof.
  unfold handle_file_deleted. destruct (file_states t !! p) as [st|] eqn:Hp.
  - case_match; [apply process_file_change_steps|apply recompute_steps].
  - repeat case_match; try apply steps_refl. eapply steps_trans; [|apply recompute_steps].
    eapply steps_trans; [|apply steps_event]. by apply put_cleared_steps.
Qed.

Lemma reset_baseline_steps p t : steps t (reset_baseline p t).
Proof.
  unfold reset_baseline. destruct (file_states t !! p) as [st|] eqn:Hp; [|apply steps_refl].
  eapply steps_trans; [|apply steps_event]. by apply put_dropped_steps.
Qed.

Lemma refresh_git_dirty_cache_steps w scope t : steps t (refresh_git_dirty_cache w scope t).
Proof.
  unfold refresh_git_dirty_cache. destruct (git_status w scope) as [[ds ss]|]; [|apply steps_refl].
  case_match; [|by apply steps_same].
  eapply steps_trans; [|apply steps_foldl; intros; apply process_file_change_steps]. by apply steps_same.
Qed.

Lemma refresh_file_steps w t p : steps t (refresh_file w t p).
Proof.
  unfold refresh_file. destruct (file_states t !! p) as [st|] eqn:Hp; [|apply steps_refl].
  case_match; [case_match|]; (eapply steps_trans; [|apply steps_event]).
  - by apply put_dropped_steps.
  - by apply delete_steps.
  - by eapply recompute_put_steps.
Qed.

Lemma refresh_files_steps w skip t : steps t (refresh_files w skip t).
Proof.
  unfold refresh_files. eapply steps_trans; [|apply steps_foldl, refresh_file_steps].
  unfold refresh_caches. repeat case_match; try apply refresh_git_dirty_cache_steps. by apply steps_same.
Qed.

Lemma refresh_all_steps w skip t : steps t (refresh_all_baselines_except w skip t).
Proof.
  unfold refresh_all_baselines_except. repeat case_match; try apply steps_refl.
  - eapply steps_trans; [|apply refresh_files_steps]. by apply steps_same.
  - apply refresh_files_steps.
Qed.

Lemma drop_file_steps t p : steps t (drop_file t p).
Proof.
  unfold drop_file. destruct (file_states t !! p) as [st|] eqn:Hp; [|apply steps_refl].
  eapply steps_trans; [|apply steps_event]. by apply delete_steps.
Qed.

Lemma set_mode_steps w m t : steps t (set_mode w m t).
Proof.
  unfold set_mode. eapply (steps_trans _ (set_tracking m t)); [by apply steps_same|].
  destruct (mode t), m; try apply steps_refl.
  - apply refresh_git_dirty_cache_steps.
  - apply steps_foldl, drop_file_steps.
Qed.

Lemma batch_files_steps w b t : steps t (handle_batch_files w b t).
Proof.
  unfold handle_batch_files.
  eapply (steps_trans _ (if refresh_dirty b && negb (refresh_all b)
                         then refresh_git_dirty_cache w None t else t)).
  { case_match; [apply refresh_git_dirty_cache_steps|apply steps_refl]. }
  generalize (if refresh_dirty b && negb (refresh_all b) then refresh_git_dirty_cache w None t else t).
  clear t. intros t. case_match.
  - destruct (foldl (refresh_action w) (t, ∅) _) as [t1 ps] eqn:E.
    eapply steps_trans; [|apply refresh_all_steps]. revert E.
    generalize (∅ : gset string). generalize (hiter (file_actions b)). intros l. revert t.
    induction l as [|[p a] l IH]; intros t ps0; cbn [foldl]; [by intros [= <- <-]; apply steps_refl|].
    destruct (refresh_action w (t, ps0) (p, a)) as [t2 ps2] eqn:Ea. intros E.
    eapply steps_trans; [|by eapply IH]. unfold refresh_action in Ea.
    repeat case_match; simplify_eq; try apply steps_refl;
      first [apply process_file_change_steps|apply handle_file_deleted_steps].
  - destruct (foldl (plain_action w) (t, []) _) as [t1 ps] eqn:E.
    eapply steps_trans; [|apply process_batch_steps]. revert E.
    generalize (@nil string). generalize (hiter (file_actions b)). intros l. revert t.
    induction l as [|[p a] l IH]; intros t ps0; cbn [foldl]; [by intros [= <- <-]; apply steps_refl|].
    destruct (plain_action w (t, ps0) (p, a)) as [t2 ps2] eqn:Ea. intros E.
    eapply steps_trans; [|by eapply IH]. unfold plain_action in Ea.
    repeat case_match; simplify_eq; try apply steps_refl. apply handle_file_deleted_steps.
Qed.

(** ** Histories *)

(** An accept or reject that failed on the file system. *)
Definition cmd_failed (w : World) (cmd : HunkTrackerCommand) (t : Tracker) : bool :=
  match cmd with
  | HunkActionCmd i a => io_failed (apply_hunk_action w i a t).2
  | FileAction p a => io_failed (apply_file_action w p a t).2
  | AllAction a => io_failed (apply_all_action w a t).2
  | TurnAction k a => io_failed (apply_turn_action w k a t).2
  | _ => false
  end.

Definition not_restore (cmd : HunkTrackerCommand) : Prop :=
  match cmd with RestoreState _ => False | _ => True end.

(** The states a tracker can be in: any commands and batches of notifications
    in any worlds, a disk that others change, identifiers drawn elsewhere, and
    snapshots of trackers that drew no later identifiers.  A strict history
    has no failed file operation. *)
Inductive reached (strict : bool) : Tracker -> Prop :=
| reached_new dir m d : reached strict (tracker_new dir m d)
| reached_cmd t w cmd :
    reached strict t -> not_restore cmd -> (strict = true -> cmd_failed w cmd t = false) ->
    reached strict (handle_command w cmd t)
| reached_batch t w b : reached strict t -> reached strict (handle_batch_files w b t)
| reached_disk t d : reached strict t -> reached strict (set_disk d t)
| reached_ids t n : reached strict t -> (next_id t <= n)%N -> reached strict (set_next n t)
| reached_restore t0 t :
    reached strict t0 -> reached strict t -> (next_id t0 <= next_id t)%N ->
    reached strict (restore_snapshot (take_snapshot t0) t).

Lemma inv_later files ti n n' : (n <= n')%N -> Inv files ti n -> Inv files ti n'.
Proof.
  intros Hle Hi. split; try apply Hi.
  - intros p h Hp%(inv_fresh _ _ _ Hi). lia.
  - intros k i [Hlt Hx]%(inv_index _ _ _ Hi). split; [lia|done].
Qed.

Lemma command_steps w cmd t :
  not_restore cmd ->
  (TInv t -> TInv (handle_command w cmd t)) /\
  (cmd_failed w cmd t = false -> steps t (handle_command w cmd t)).
Proof.
  assert (forall t', steps t t' -> (TInv t -> TInv t') /\ (false = false -> steps t t')) as Hs
    by (unfold steps; tauto).
  destruct cmd; intros Hr; cbn [handle_command cmd_failed]; try (apply Hs).
  - apply record_agent_write_steps.
  - apply process_file_change_steps.
  - apply handle_file_deleted_steps.
  - apply refresh_git_dirty_cache_steps.
  - apply reset_baseline_steps.
  - apply set_mode_steps.
  - destruct (apply_hunk_action w i a t) eqn:E. by eapply hunk_action_steps.
  - destruct (apply_file_action w p a t) eqn:E. by eapply file_action_steps.
  - destruct (apply_all_action w a t) eqn:E. by eapply all_action_steps.
  - destruct (apply_turn_action w k a t) eqn:E. by eapply turn_action_steps.
  - by apply steps_same.
  - apply refresh_all_steps.
  - done.
Qed.

Lemma inv_empty n : Inv ∅ ∅ n.
Proof.
  assert (forall p h, ~ pending (∅ : gmap string FileHunkState) p h) as Hno
    by (intros p h (st & E & _); by rewrite lookup_empty in E).
  split.
  - intros p h Hp. by apply Hno in Hp.
  - intros p st E. by rewrite lookup_empty in E.
  - intros p q h g Hp. by apply Hno in Hp.
  - intros p st E. by rewrite lookup_empty in E.
  - intros k i Hi. unfold indexed in Hi. rewrite lookup_empty in Hi. by apply not_elem_of_empty in Hi.
Qed.

Lemma reached_inv strict t : reached strict t -> TInv t /\ (strict = true -> TComplete t).
Proof.
  induction 1 as [dir m d|t w cmd Hr [IHi IHc] Hn Hf|t w b Hr [IHi IHc]|t d Hr [IHi IHc]
                 |t n Hr [IHi IHc] Hle|t0 t Hr0 [IHi0 IHc0] Hr [IHi IHc] Hle].
  - split; [apply inv_empty|]. intros _ p h k (st & E & _). cbn in E. by rewrite lookup_empty in E.
  - destruct (command_steps w cmd t Hn) as [H1 H2]. split; [auto|].
    intros Hst. apply H2; auto.
  - destruct (batch_files_steps w b t IHi) as [H1 H2]. auto.
  - done.
  - split; [by apply (inv_later _ _ (next_id t))|done].
  - split; [by apply (inv_later _ _ (next_id t0))|done].
Qed.

Lemma reached_step w cmd queued t :
  not_restore cmd -> Forall not_restore queued ->
  reached false t -> reached false (actor_step w cmd queued t).
Proof.
  intros Hc Hq Ht. unfold actor_step. case_match; [|by apply reached_cmd].
  unfold handle_coalesced_batch. apply (reached_batch _ _ w (drain_and_coalesce cmd queued)) in Ht.
  revert Ht. generalize (handle_batch_files w (drain_and_coalesce cmd queued) t). clear t.
  assert (Forall not_restore (other_commands (drain_and_coalesce cmd queued))) as Ho.
  { unfold drain_and_coalesce. assert (Forall not_restore (other_commands (batch_add batch_new cmd))) as H0.
    { destruct cmd; try done; by repeat constructor. }
    revert H0. generalize (batch_add batch_new cmd). induction Hq as [|c q Hcq Hq IH]; intros b Hb; [done|].
    apply IH. destruct c; cbn; try done; apply Forall_app; split; try done; by repeat constructor. }
  induction Ho as [|c l Hcl Hl IH]; intros t Ht; [done|]. apply IH. by apply reached_cmd.
Qed.

(** ** Queries by turn *)

Definition turn_hunks (k : nat) (t : Tracker) : list Hunk :=
  filter (fun h => prompt_index (source h) = Some k) (get_all_hunks t).

Lemma elem_of_all_hunks t h : h ∈ get_all_hunks t <-> exists p, pending (file_states t) p h.
Proof.
  unfold get_all_hunks. rewrite list_elem_of_join. split.
  - intros (hs & Hh & Hin). apply list_elem_of_fmap in Hin as ((p & st) & -> & Hp%elem_of_hiter).
    exists p, st. done.
  - intros (p & st & Hp & Hh). exists (hunks st). split; [done|]. apply list_elem_of_fmap.
    exists (p, st). by rewrite elem_of_hiter.
Qed.

Lemma NoDup_ids_join (l : list (string * FileHunkState)) :
  NoDup l.*1 -> (forall p st, (p, st) ∈ l -> NoDup (id <$> hunks st)) ->
  (forall p q s1 s2 h g, (p, s1) ∈ l -> (q, s2) ∈ l -> h ∈ hunks s1 -> g ∈ hunks s2 ->
     id h = id g -> p = q) ->
  NoDup (id <$> mjoin ((fun '(_, st) => hunks st) <$> l)).
Proof.
  induction l as [|[p st] l IH]; intros Hd Hn Hu; [constructor|].
  rewrite fmap_cons in Hd. rewrite fmap_cons. apply NoDup_cons in Hd as [Hp Hd]. cbn [mjoin list_join].
  rewrite fmap_app. apply NoDup_app. split_and!.
  - apply (Hn p). left.
  - intros i (h & -> & Hh)%list_elem_of_fmap (g & E & Hg)%list_elem_of_fmap.
    apply list_elem_of_join in Hg as (hs & Hg & Hin).
    apply list_elem_of_fmap in Hin as ((q & s2) & -> & Hq). apply Hp.
    assert (p = q) as ->.
    { apply (Hu p q st s2 h g); [left|by right|done..]. }
    by apply (elem_of_fst q s2).
  - apply IH; [done|..].
    + intros q s Hq. apply (Hn q). by right.
    + intros q r s1 s2 h g Hq Hr. apply (Hu q r); by right.
Qed.

Lemma NoDup_all_hunks t : TInv t -> NoDup (id <$> get_all_hunks t).
Proof.
  intros Hi. apply NoDup_ids_join; [apply NoDup_hiter_fst|..].
  - intros p st Hp%elem_of_hiter. by eapply inv_nodup.
  - intros p q s1 s2 h g Hp%elem_of_hiter Hq%elem_of_hiter Hh Hg.
    eapply (inv_uniq _ _ _ Hi); [by exists s1|by exists s2].
Qed.

Lemma get_hunk_spec i t h : TInv t -> get_hunk i t = Some h <-> h ∈ get_all_hunks t /\ id h = i.
Proof.
  intros Hi. unfold get_hunk. split.
  - intros [Hin Hid%N.eqb_eq]%find_some. by rewrite list_elem_of_In.
  - intros [Hh Hid]. destruct (find _ _) as [g|] eqn:Hf.
    + apply find_some in Hf as [Hg Hgi%N.eqb_eq]. apply list_elem_of_In in Hg. f_equal.
      apply (ids_inj (get_all_hunks t)); [by apply NoDup_all_hunks|done..|congruence].
    + apply list_elem_of_In in Hh. apply (find_none _ _ Hf) in Hh. by apply N.eqb_neq in Hh.
Qed.

Lemma elem_of_turn_query k t h :
  TInv t -> h ∈ get_hunks_for_turn k t <-> h ∈ get_all_hunks t /\ indexed (turn_index t) k (id h).
Proof.
  intros Hi. unfold get_hunks_for_turn, indexed. destruct (turn_index t !! k) as [ids|]; cbn.
  - rewrite list_elem_of_omap. setoid_rewrite elem_of_elements. setoid_rewrite (get_hunk_spec _ _ _ Hi).
    naive_solver.
  - rewrite elem_of_nil. set_solver.
Qed.

Lemma NoDup_turn_query k t : TInv t -> NoDup (get_hunks_for_turn k t).
Proof.
  intros Hi. unfold get_hunks_for_turn. destruct (turn_index t !! k) as [ids|]; [|constructor].
  pose proof (NoDup_elements ids) as Hd. induction (elements ids) as [|i l IH]; [constructor|].
  apply NoDup_cons in Hd as [Hn Hd]. cbn. destruct (get_hunk i t) as [h|] eqn:Hg; [|auto].
  constructor; [|auto]. intros (j & Hj & Ej)%list_elem_of_omap.
  apply (get_hunk_spec _ _ _ Hi) in Hg as [_ Hg], Ej as [_ Ej]. by subst.
Qed.

(** ** Hunks are those of the texts

    The hunks of a file with two texts are the edits of a diff of these texts
    (there may be none when the diff was skipped or timed out). *)

Definition synced (st : FileHunkState) : Prop :=
  match baseline st, current_content st with
  | Full b, Full c => hunks st = [] \/ aligned 1 1 (group (diff_changes b c)) (hunks st)
  | _, _ => True
  end.

Definition TSynced (t : Tracker) : Prop :=
  forall p st, file_states t !! p = Some st -> synced st.
Definition SyncedExcept (p : string) (t : Tracker) : Prop :=
  forall q st, q <> p -> file_states t !! q = Some st -> synced st.

Lemma aligned_claim old l : forall claimed ol nw hs,
  aligned ol nw l hs -> aligned ol nw l (claim old claimed hs).
Proof.
  induction l as [|[v|o n] l IH]; intros claimed ol nw hs Ha.
  - by destruct hs.
  - by apply IH.
  - destruct hs as [|h hs]; [done|]. destruct Ha as (H1 & H2 & H3 & Ha). cbn [claim].
    destruct (find_matching_old_hunk h old) as [m|]; [|by split_and!; auto].
    destruct (bool_decide (id m ∈ claimed)); [by split_and!; auto|].
    destruct (is_external _ && _); split_and!; auto.
Qed.

Lemma synced_nil st : hunks st = [] -> synced st.
Proof. unfold synced. destruct (baseline st), (current_content st); auto. Qed.

Lemma synced_diff p b c src next old f acc :
  synced (set_contents b c (claim old ∅ (diff_states p b c src next).1) acc f).
Proof.
  unfold synced. cbn. destruct b as [| | | | |b], c as [| | | | |c]; try done. cbn.
  unfold compute_hunks. repeat case_match; try (by left).
  right. apply aligned_claim, scan_changes_spec.
Qed.

Lemma synced_except p t : TSynced t -> SyncedExcept p t.
Proof. intros H q st _. apply H. Qed.

Lemma synced_put p st t : SyncedExcept p t -> synced st -> TSynced (put_file p st t).
Proof.
  intros H Hs q st'. unfold put_file. cbn. destruct (decide (p = q)) as [->|Hq].
  - rewrite lookup_insert_eq. by intros [= <-].
  - rewrite lookup_insert_ne by done. by apply H.
Qed.

Lemma synced_except_put p st t : SyncedExcept p t -> SyncedExcept p (put_file p st t).
Proof.
  intros H q st' Hq. unfold put_file. cbn. rewrite lookup_insert_ne by done. by apply H.
Qed.

Lemma synced_same t t' : file_states t' = file_states t -> TSynced t -> TSynced t'.
Proof. unfold TSynced. by intros ->. Qed.

Lemma synced_except_same p t t' : file_states t' = file_states t -> SyncedExcept p t -> SyncedExcept p t'.
Proof. unfold SyncedExcept. by intros ->. Qed.

Lemma synced_recompute p cur src t : SyncedExcept p t -> TSynced (recompute_hunks p cur src t).
Proof.
  intros H. unfold recompute_hunks. destruct (file_states t !! p) as [st|] eqn:Hp.
  - pose proof (synced_diff p (baseline st) (default Missing cur) src (next_id t) (hunks st) st
                  (baseline_accepted st)) as Hs.
    destruct (diff_states _ _ _ _ _) as [fresh next]. eapply synced_same; [apply send_events_same|].
    by apply (synced_put p _ t).
  - intros q st Hq. destruct (decide (q = p)) as [->|]; [congruence|]. by eapply H.
Qed.

(** ... in both relations of this section: what follows an unsynced put is a
    recomputation or clears the hunks. *)
Definition syncs (t t' : Tracker) : Prop := TInv t -> TSynced t -> TSynced t'.

Lemma accept_batch_syncs p hs st t :
  hs <> [] -> file_states t !! p = Some st -> hs ⊆ hunks st ->
  syncs t (accept_hunks_batch p hs (foldl (note_hunk Accept) t hs)).
Proof.
  intros Hne Hp Hsub Hinv Hsy. destruct (note_same Accept hs t) as (E1 & _). unfold accept_hunks_batch.
  rewrite bool_decide_false, E1, Hp by done. cbv beta iota zeta.
  pose proof (inv_shape _ _ _ Hinv _ _ Hp) as Hsh. apply (synced_except p) in Hsy.
  apply (synced_except_same p _ _ E1) in Hsy.
  destruct (baseline st) eqn:Hb;
    try (apply synced_recompute; eapply synced_except_same; [apply send_events_same|];
         by apply synced_except_put).
  eapply synced_same; [apply send_events_same|]. apply synced_put; [done|]. apply synced_nil. cbn.
  unfold shape in Hsh. rewrite Hb in Hsh. destruct (current_content st); try (by rewrite Hsh).
  by apply retain_single.
Qed.

Lemma reject_batch_syncs w p hs st t :
  hs <> [] -> file_states t !! p = Some st -> hs ⊆ hunks st ->
  syncs t (reject_hunks_batch w p hs (foldl (note_hunk Reject) t hs)).1.
Proof.
  intros Hne Hp Hsub Hinv Hsy. destruct (note_same Reject hs t) as (E1 & _).
  pose proof (synced_same _ _ E1 Hsy) as Hsy0. unfold reject_hunks_batch.
  rewrite bool_decide_false, E1, Hp by done. cbv beta iota zeta.
  pose proof (inv_shape _ _ _ Hinv _ _ Hp) as Hsh. unfold shape in Hsh.
  pose proof (synced_except p _ Hsy0) as Hse.
  repeat case_match; cbn [fst]; try done;
    first [ apply synced_recompute; eapply synced_except_same; [apply send_events_same|];
            by apply synced_except_put
          | eapply synced_same; [apply send_events_same|]; apply synced_put; [done|];
            by apply synced_nil, retain_single ].
Qed.

Lemma hunk_action_syncs w i a t : syncs t (apply_hunk_action w i a t).1.
Proof.
  unfold apply_hunk_action. destruct (find_hunk i t) as [[p h]|] eqn:Hf; [|by intros _].
  apply find_hunk_spec in Hf as (_ & st & Hp & Hh).
  assert ([h] ⊆ hunks st) as Hsub by (intros x ->%list_elem_of_singleton; done).
  destruct a; cbn [fst].
  - rewrite accept_hunk_batch. by apply (accept_batch_syncs p [h] st).
  - rewrite reject_hunk_batch. by apply (reject_batch_syncs w p [h] st).
Qed.

Lemma action_batch_syncs w a files : forall aff t,
  batch_ok files t -> syncs t (apply_action_batch w files a aff t).1.
Proof.
  induction files as [|[p hs] files IH]; intros aff t Hb Hinv Hsy; [done|].
  pose proof Hb as [_ Hin]. destruct (Hin p hs) as (Hne & st & Hp & Hsub); [left|].
  destruct (note_same a hs t) as (En & _). cbn [apply_action_batch]. destruct a.
  - apply IH.
    + eapply batch_ok_tail; [done|]. intros q Hq. by rewrite accept_other, En.
    + by eapply accept_batch_steps.
    + by eapply accept_batch_syncs.
  - pose proof (reject_batch_syncs w p hs st t Hne Hp Hsub Hinv Hsy) as Hs.
    assert (forall q, q <> p -> file_states (reject_hunks_batch w p hs (foldl (note_hunk Reject) t hs)).1 !! q
                                = file_states t !! q) as Ho by (intros q Hq; by rewrite reject_other, En).
    destruct (reject_hunks_batch w p hs _) as [t1 [[]|e]] eqn:Er; [|done]. apply IH; try done.
    + by eapply batch_ok_tail.
    + pose proof (reject_batch_steps w p hs st t t1 _ Hne Hp Hsub Er) as Hst. by apply Hst.
Qed.

Lemma file_action_batch w p a t :
  exists files, batch_ok files t /\ (apply_file_action w p a t).1 = (apply_action_batch w files a [] t).1.
Proof.
  unfold apply_file_action. destruct (file_states t !! p) as [st|] eqn:Hp; [case_bool_decide as Hh|].
  - exists []. split; [|done]. split; [constructor|]. intros ?? Hx%elem_of_nil. done.
  - exists [(p, hunks st)]. split; [|done]. split; [by apply NoDup_singleton|].
    intros q hs [= -> ->]%list_elem_of_singleton. split; [done|]. by exists st.
  - exists []. split; [|done]. split; [constructor|]. intros ?? Hx%elem_of_nil. done.
Qed.

Lemma synced_put_nil p st t : hunks st = [] -> TSynced t -> TSynced (put_file p st t).
Proof. intros Hn Hs. apply synced_put; [by apply synced_except|by apply synced_nil]. Qed.

Lemma synced_recompute_after p cur src t : TSynced t -> TSynced (recompute_hunks p cur src t).
Proof. intros H. by apply synced_recompute, synced_except. Qed.

Lemma record_agent_write_syncs w p c k prev t :
  TSynced t -> TSynced (record_agent_write w p c k prev t).
Proof.
  intros Hs. unfold record_agent_write.
  repeat case_match;
    first [ by apply (synced_put_nil p)
          | apply synced_recompute; by apply (synced_except_put p _ t), synced_except ].
Qed.

Lemma process_file_change_syncs w p pre t : TSynced t -> TSynced (process_file_change w p pre t).
Proof.
  intros Hs. unfold process_file_change.
  repeat case_match; try done; try (by apply synced_recompute_after); try (by apply synced_put_nil);
    try apply synced_recompute_after; by apply (synced_put_nil p _ t).
Qed.

Lemma handle_file_deleted_syncs w p t : TSynced t -> TSynced (handle_file_deleted w p t).
Proof.
  intros Hs. unfold handle_file_deleted.
  repeat case_match; try done; try (by apply process_file_change_syncs);
    try (by apply synced_recompute_after).
  apply synced_recompute_after. by apply (synced_put_nil p _ t).
Qed.

Lemma synced_foldl {A} (f : Tracker -> A -> Tracker) l :
  (forall t x, TSynced t -> TSynced (f t x)) -> forall t, TSynced t -> TSynced (foldl f t l).
Proof. intros Hf. induction l as [|x l IH]; intros t Ht; [done|]. apply IH. auto. Qed.

Lemma refresh_git_dirty_cache_syncs w scope t :
  TSynced t -> TSynced (refresh_git_dirty_cache w scope t).
Proof.
  intros Hs. unfold refresh_git_dirty_cache. repeat case_match; try done.
  apply synced_foldl; [|done]. intros t1 x. apply process_file_change_syncs.
Qed.

Lemma drop_hunks_syncs p hs t : TSynced t -> TSynced (drop_hunks p hs t).
Proof. intros Hs. eapply synced_same; [apply send_events_same|done]. Qed.

Lemma synced_delete p t : TSynced t -> TSynced (set_files (delete p (file_states t)) t).
Proof. intros Hs q st. cbn. intros [_ E]%lookup_delete_Some. by eapply Hs. Qed.

Lemma refresh_file_syncs w t p : TSynced t -> TSynced (refresh_file w t p).
Proof.
  intros Hs. unfold refresh_file. destruct (file_states t !! p) as [st|] eqn:Hp; [|done].
  case_match; [case_match|].
  - by apply (drop_hunks_syncs p (hunks st)), synced_put_nil.
  - by apply (drop_hunks_syncs p (hunks st)), synced_delete.
  - apply (synced_recompute p). by apply synced_except_put, synced_except.
Qed.

Lemma refresh_all_syncs w skip t : TSynced t -> TSynced (refresh_all_baselines_except w skip t).
Proof.
  assert (forall t, TSynced t -> TSynced (refresh_files w skip t)) as Hf.
  { intros t' Hs. unfold refresh_files. apply synced_foldl; [apply refresh_file_syncs|].
    unfold refresh_caches. repeat case_match; try done; by apply refresh_git_dirty_cache_syncs. }
  intros Hs. unfold refresh_all_baselines_except. repeat case_match; auto.
Qed.

Lemma process_batch_syncs w ps : forall bs t, TSynced t -> TSynced (process_batch w bs ps t).
Proof.
  induction ps as [|p ps IH]; intros bs t Ht; [done|]. by apply IH, process_file_change_syncs.
Qed.

Lemma batch_files_syncs w b t : TSynced t -> TSynced (handle_batch_files w b t).
Proof.
  intros Hs. unfold handle_batch_files. assert (TSynced (if refresh_dirty b && negb (refresh_all b)
    then refresh_git_dirty_cache w None t else t)) as H0
    by (case_match; [by apply refresh_git_dirty_cache_syncs|done]).
  revert H0. generalize (if refresh_dirty b && negb (refresh_all b)
    then refresh_git_dirty_cache w None t else t). clear t Hs. intros t Hs. case_match.
  - assert (TSynced (foldl (refresh_action w) (t, ∅) (hiter (file_actions b))).1) as H1.
    { generalize (∅ : gset string). revert t Hs. induction (hiter (file_actions b)) as [|[p a] l IH];
        intros t Hs ps; [done|]. cbn [foldl refresh_action]. repeat case_match; apply IH; try done;
        first [by apply process_file_change_syncs|by apply handle_file_deleted_syncs]. }
    destruct (foldl _ _ _) as [t1 ps]. by apply refresh_all_syncs.
  - assert (TSynced (foldl (plain_action w) (t, []) (hiter (file_actions b))).1) as H1.
    { generalize (@nil string). revert t Hs. induction (hiter (file_actions b)) as [|[p a] l IH];
        intros t Hs ps; [done|]. cbn [foldl plain_action]. repeat case_match; apply IH; try done.
      by apply handle_file_deleted_syncs. }
    destruct (foldl _ _ _) as [t1 ps]. by apply process_batch_syncs.
Qed.

Lemma command_syncs w cmd t : not_restore cmd -> syncs t (handle_command w cmd t).
Proof.
  intros Hr Hi Hs. destruct cmd; cbn [handle_command].
  - by apply record_agent_write_syncs.
  - by apply process_file_change_syncs.
  - by apply handle_file_deleted_syncs.
  - by apply refresh_git_dirty_cache_syncs.
  - unfold reset_baseline. case_match; [|done].
    by apply (drop_hunks_syncs p (hunks f)), synced_put_nil.
  - unfold set_mode. destruct (mode t), m; try done.
    + by apply refresh_git_dirty_cache_syncs.
    + apply synced_foldl; [|done]. intros t1 p Ht. unfold drop_file. case_match; [|done].
      by apply (drop_hunks_syncs p (hunks f)), synced_delete.
  - by apply hunk_action_syncs.
  - destruct (file_action_batch w p a t) as (files & Hb & ->). by apply action_batch_syncs.
  - apply action_batch_syncs; [|done..]. by apply (hiter_omap_ok t hunks).
  - apply action_batch_syncs; [by apply turn_files_ok|done..].
  - done.
  - by apply refresh_all_syncs.
  - done.
Qed.

Lemma reached_synced strict t : reached strict t -> TSynced t.
Proof.
  induction 1 as [dir m d|t w cmd Hr IH Hn Hf|t w b Hr IH|t d Hr IH|t n Hr IH Hle|t0 t Hr0 IH0 Hr IH Hle];
    try done.
  - apply command_syncs; [done|by apply (reached_inv strict t)|done].
  - by apply batch_files_syncs.
Qed.

(** ** Properties *)

(** C10.  In every state a tracker can reach, the hunks listed for a turn are
    pending hunks attributed to that turn, each once; as long as no accept or
    reject failed on the file system they are all of them. *)
Theorem turn_query_exact strict t k :
  reached strict t ->
  get_hunks_for_turn k t ⊆+ turn_hunks k t /\
  (strict = true -> get_hunks_for_turn k t ≡ₚ turn_hunks k t).
Proof.
  intros Hr. destruct (reached_inv _ _ Hr) as [Hi Hc].
  assert (forall h, h ∈ get_hunks_for_turn k t -> h ∈ turn_hunks k t) as Hsub.
  { intros h [Hh Hx]%(elem_of_turn_query _ _ _ Hi). apply list_elem_of_filter. split; [|done].
    apply elem_of_all_hunks in Hh as [p Hp]. by eapply (inv_index _ _ _ Hi). }
  pose proof (NoDup_turn_query k t Hi) as Hnd. split; [by apply NoDup_submseteq|].
  intros Hst. apply NoDup_Permutation; [done|..].
  - apply NoDup_filter, (NoDup_fmap_1 id), NoDup_all_hunks, Hi.
  - intros h. split; [apply Hsub|]. intros [Hk Hh]%list_elem_of_filter.
    apply (elem_of_turn_query _ _ _ Hi). split; [done|].
    apply elem_of_all_hunks in Hh as [p Hp]. by eapply Hc.
Qed.

(** A hunk's texts are the lines of the two files at its position. *)
Definition located (ol nw : nat) (old new : list string) (h : Hunk) : Prop :=
  let li := line_info h in
  ol <= old_start li /\ nw <= new_start li /\
  old_start li - ol + old_count li <= length old /\ new_start li - nw + new_count li <= length new /\
  str_concat (take (old_count li) (drop (old_start li - ol) old)) = default "" (old_text h) /\
  str_concat (take (new_count li) (drop (new_start li - nw) new)) = new_text h.

Lemma located_shift o n ol nw old new h :
  located (ol + length o) (nw + length n) old new h -> located ol nw (o ++ old) (n ++ new) h.
Proof.
  unfold located. cbv zeta. intros (H1 & H2 & H3 & H4 & H5 & H6). rewrite !length_app.
  replace (old_start (line_info h) - ol) with (length o + (old_start (line_info h) - (ol + length o))) by lia.
  replace (new_start (line_info h) - nw) with (length n + (new_start (line_info h) - (nw + length n))) by lia.
  rewrite !drop_app_add. split_and!; try lia; done.
Qed.

Lemma aligned_located l : forall ol nw hs,
  aligned ol nw l hs -> Forall (located ol nw (old_side l) (new_side l)) hs.
Proof.
  induction l as [|[v|o n] l IH]; intros ol nw hs Ha.
  - by destruct hs.
  - apply (Forall_impl (located (ol + length [v]) (nw + length [v]) (old_side l) (new_side l))).
    + apply IH. by rewrite !Nat.add_1_r.
    + intros h. apply (located_shift [v] [v]).
  - destruct hs as [|h hs]; [done|]. destruct Ha as (Hl & Ho & Hn & Ha). constructor.
    + unfold located. rewrite Hl, Ho, Hn. cbn. rewrite !length_app, !Nat.sub_diag, !drop_0, !take_app_length.
      split_and!; try lia; [|done]. case_bool_decide; by subst.
    + eapply Forall_impl; [by apply IH|]. intros h'. apply located_shift.
Qed.

Lemma pending_located strict t p st b c :
  reached strict t -> file_states t !! p = Some st ->
  baseline st = Full b -> current_content st = Full c ->
  has_char cr b = false -> has_char cr c = false ->
  StronglySorted apart (hunks st) /\
  Forall (located 1 1 (split_inclusive b) (split_inclusive c)) (hunks st).
Proof.
  intros Hr Hp Hb Hc Rb Rc.
  pose proof (reached_synced _ _ Hr p st Hp) as Hs. unfold synced in Hs. rewrite Hb, Hc in Hs.
  destruct Hs as [->|Ha]; [by split; constructor|].
  split; [eapply aligned_apart, group_alternating; exact Ha|].
  apply aligned_located in Ha. destruct (group_sides (diff_changes b c)) as [Eo En].
  by rewrite Eo, En, diff_old, diff_new in Ha.
Qed.

(** C28.  In every reachable state, the hunks pending between two texts without
    carriage returns are well formed: distinct identifiers, increasing and
    separated by at least one unchanged line in both texts, inside both texts,
    and carrying exactly the lines found at their positions. *)
Theorem pending_hunks_wf strict t p st b c :
  reached strict t -> file_states t !! p = Some st ->
  baseline st = Full b -> current_content st = Full c ->
  has_char cr b = false -> has_char cr c = false ->
  NoDup (id <$> hunks st) /\ StronglySorted apart (hunks st) /\
  Forall (located 1 1 (split_inclusive b) (split_inclusive c)) (hunks st).
Proof.
  intros Hr Hp Hb Hc Rb Rc. destruct (reached_inv _ _ Hr) as [Hi _].
  split; [by eapply (inv_nodup _ _ _ Hi)|by eapply pending_located].
Qed.

(** When rejecting an agent's hunk fails on the file system, the hunk stays
    pending and neither files nor disk change, but the hunk is no longer listed
    for its turn and is counted as rejected. *)
Theorem failed_reject_forgets_turn strict w t t' i p h k e :
  reached strict t -> find_hunk i t = Some (p, h) -> prompt_index (source h) = Some k ->
  apply_hunk_action w i Reject t = (t', Err e) ->
  file_states t' = file_states t /\ disk t' = disk t /\
  (h ∈ get_all_hunks t') /\ (h ∉ get_hunks_for_turn k t') /\
  rejected_hunks (session_stats t') = usize_sat_add (rejected_hunks (session_stats t)) 1.
Proof.
  intros Hr Hf Hk E. destruct (reached_inv _ _ Hr) as [Hi _].
  destruct (hunk_action_steps _ _ _ _ _ _ E) as [Hk' _].
  pose proof (find_hunk_spec _ _ _ _ Hf) as (_ & st & Hp & Hh).
  assert (t' = note_hunk Reject t h) as ->.
  { unfold apply_hunk_action in E. rewrite Hf, reject_hunk_batch in E.
    pose proof (reject_batch_steps w p [h] st t t' (Err e) ltac:(done) Hp) as Hs. cbn in Hs. apply Hs; [|done].
    intros x ->%list_elem_of_singleton. done. }
  split_and!; try done.
  - apply elem_of_all_hunks. exists p, st. done.
  - intros [_ Hx]%(elem_of_turn_query _ _ _ (Hk' Hi)). cbn in Hx.
    apply indexed_unindex in Hx as [_ Hx]. by apply Hx.
Qed.

(** Reviewing all hunks of a file. *)
Lemma file_action_single w p a st t :
  file_states t !! p = Some st -> hunks st <> [] ->
  apply_file_action w p a t = apply_action_batch w [(p, hunks st)] a [] t.
Proof. intros Hp Hh. unfold apply_file_action. by rewrite Hp, bool_decide_false. Qed.

Lemma filter_all (hs : list Hunk) : filter (fun _ : Hunk => true = true) hs = hs.
Proof. induction hs as [|h hs IH]; [done|]. rewrite filter_cons, decide_True by done. by rewrite IH. Qed.

Lemma recompute_equal p b src t st :
  file_states t !! p = Some st -> baseline st = Full b ->
  let t' := recompute_hunks p (Some (Full b)) src t in
  file_states t' !! p = Some (set_contents (Full b) (Full b) [] (baseline_accepted st) st) /\
  disk t' = disk t.
Proof.
  intros Hp Hb. unfold recompute_hunks. rewrite Hp, Hb.
  change (default Missing (Some (Full b))) with (Full b). cbn [diff_states].
  assert (compute_hunks p b b src (next_id t) = ([], next_id t)) as ->
    by (unfold compute_hunks; by rewrite bool_decide_true).
  cbv zeta iota beta.
  match goal with |- context [send_events ?es ?t'] =>
    destruct (send_events_same es t') as (-> & _ & _ & -> & _) end.
  cbn. by rewrite lookup_insert_eq.
Qed.

(** In every reachable state, accepting the hunks pending between a
    baseline text and a current text makes the current text the baseline and
    leaves nothing pending, when the texts have line feeds only, terminated
    lines, no leading blank line, and the baseline is not empty. *)
Theorem accept_file_exact strict w p st b c t :
  reached strict t -> file_states t !! p = Some st -> hunks st <> [] ->
  baseline st = Full b -> current_content st = Full c ->
  patchable b -> patchable c -> b <> "" ->
  let '(t', r) := apply_file_action w p Accept t in
  r = Ok (id <$> hunks st) /\ disk t' = disk t /\
  file_states t' !! p = Some (mkFile (Full c) (Full c) [] (is_agent_file st) true).
Proof.
  intros Hr Hp Hh Hb Hc Pb Pc Hne. rewrite (file_action_single w p Accept st t Hp Hh).
  cbn [apply_action_batch]. destruct (note_same Accept (hunks st) t) as (E1 & _ & _ & E4).
  pose proof (reached_synced _ _ Hr p st Hp) as Hs. unfold synced in Hs. rewrite Hb, Hc in Hs.
  destruct Hs as [?|Ha]; [done|].
  pose proof (accept_selected (fun _ => true) b c (hunks st) Pb Pc Hne Ha) as Hacc.
  rewrite filter_all, (proj1 (mixed_all_current b c (hunks st) Pb Pc Ha)) in Hacc.
  split; [done|]. unfold accept_hunks_batch. rewrite bool_decide_false, E1, Hp, Hb by done.
  cbv beta iota zeta. rewrite patch_states_text, Hacc, Hc.
  match goal with |- context [recompute_hunks p _ ?src ?t1] =>
    destruct (recompute_equal p c src t1 (set_contents (Full c) (Full c)
      (retain_not (id <$> hunks st) (hunks st)) true st)) as [-> ->] end; [|done|].
  - match goal with |- context [send_events ?es ?t'] =>
      destruct (send_events_same es t') as (-> & _) end. unfold put_file. cbn. by rewrite lookup_insert_eq.
  - match goal with |- context [send_events ?es ?t'] =>
      destruct (send_events_same es t') as (_ & _ & _ & -> & _) end. done.
Qed.

(** C20.  In every reachable state, rejecting the hunks of a file writes the
    baseline to the disk and leaves nothing pending, when the write succeeds, the
    current text is not empty, and both texts have line feeds only, every line
    terminated and no blank first line. *)
Theorem reject_file_restores strict w p st b c d t :
  reached strict t -> file_states t !! p = Some st -> hunks st <> [] ->
  baseline st = Full b -> current_content st = Full c ->
  patchable b -> patchable c -> c <> "" ->
  fs_write w p b (disk t) = Some d ->
  let '(t', r) := apply_file_action w p Reject t in
  r = Ok (id <$> hunks st) /\ disk t' = d /\
  file_states t' !! p = Some (mkFile (Full b) (Full b) [] (is_agent_file st) (baseline_accepted st)).
Proof.
  intros Hr Hp Hh Hb Hc Pb Pc Hne Hw. rewrite (file_action_single w p Reject st t Hp Hh).
  cbn [apply_action_batch]. destruct (note_same Reject (hunks st) t) as (E1 & _ & _ & E4).
  pose proof (reached_synced _ _ Hr p st Hp) as Hs. unfold synced in Hs. rewrite Hb, Hc in Hs.
  destruct Hs as [?|Ha]; [done|].
  pose proof (reject_selected (fun _ => true) b c (hunks st) Pb Pc Hne Ha) as Hacc.
  rewrite filter_all in Hacc. change (fun h : Hunk => negb true) with (fun _ : Hunk => false) in Hacc.
  rewrite (proj2 (mixed_all_current b c (hunks st) Pb Pc Ha)) in Hacc.
  unfold reject_hunks_batch. rewrite bool_decide_false, E1, Hp, Hb, Hc by done.
  cbv beta iota zeta. rewrite Hacc, E4, Hw. split; [done|].
  match goal with |- context [recompute_hunks p _ ?src ?t1] =>
    destruct (recompute_equal p b src t1 (set_contents (Full b) (Full b)
      (retain_not (id <$> hunks st) (hunks st)) (baseline_accepted st) st)) as [-> ->] end; [|done|].
  - match goal with |- context [send_events ?es ?t'] =>
      destruct (send_events_same es t') as (-> & _) end. unfold put_file. cbn. by rewrite lookup_insert_eq.
  - match goal with |- context [send_events ?es ?t'] =>
      destruct (send_events_same es t') as (_ & _ & _ & -> & _) end. done.
Qed.
End commands.

(** ** Reading files *)

Lemma str_take_ge n s : String.length s <= n -> str_take n s = s.
Proof. revert n. induction s as [|a s IH]; intros [|n] Hn; cbn in *; try done; [lia|]. f_equal. apply IH. lia. Qed.

Lemma str_take_take n m s : str_take n (str_take m s) = str_take (n `min` m) s.
Proof. revert n m. induction s as [|a s IH]; intros [|n] [|m]; cbn; try done. by rewrite IH. Qed.

(** The checks of a prefix of [BINARY_CHECK] bytes are those of the file. *)
Lemma lfs_prefix b : is_lfs_pointer (str_take (BINARY_CHECK `min` String.length b) b) = is_lfs_pointer b.
Proof.
  unfold is_lfs_pointer. rewrite length_str_take. assert (1024 < BINARY_CHECK) by (apply Nat.ltb_lt; by vm_compute).
  destruct (decide (String.length b < 1024)).
  - rewrite str_take_ge by lia. do 2 f_equal. lia.
  - by rewrite (proj2 (Nat.ltb_ge _ _)), (proj2 (Nat.ltb_ge _ _)) by lia.
Qed.

Lemma binary_prefix b : is_binary (str_take (BINARY_CHECK `min` String.length b) b) = is_binary b.
Proof. unfold is_binary. rewrite length_str_take, str_take_take. do 2 f_equal. lia. Qed.

(** When the first [read] fills its buffer, reading a regular file in two
    steps classifies it as [classify_bytes] classifies its whole content. *)
Theorem read_file_classifies got d p b :
  (forall n, n <= got n) -> d !! p = Some (DFile b) -> read_file_bounded got d p = classify_bytes b.
Proof.
  intros Hg Hp. unfold read_file_bounded, classify_bytes. rewrite Hp. cbv beta iota zeta.
  rewrite (Nat.min_r (got _)) by apply Hg. rewrite lfs_prefix, binary_prefix.
  assert ((if BINARY_CHECK `min` String.length b <? String.length b
           then str_take (BINARY_CHECK `min` String.length b) b +:+
                str_drop (BINARY_CHECK `min` String.length b) b
           else str_take (BINARY_CHECK `min` String.length b) b) = b) as ->; [|done].
  rewrite str_take_drop. case_match eqn:E; [done|]. apply Nat.ltb_ge in E. apply str_take_ge. lia.
Qed.

(** ** Coalescing *)

Inductive notification := NChange | NDelete.

Definition notified (p : string) (cmd : HunkTrackerCommand) : option notification :=
  match cmd with
  | HandleFileChange q => if decide (q = p) then Some NChange else None
  | HandleFileDeleted q => if decide (q = p) then Some NDelete else None
  | _ => None
  end.

(** What the notifications of one path amount to. *)
Definition summary (l : list notification) : option CoalescedPathAction :=
  match last l with
  | None => None
  | Some NDelete => Some CDeleted
  | Some NChange => if existsb (fun n => match n with NDelete => true | _ => false end) l
                    then Some CDeletedThenChanged else Some CChanged
  end.

Definition is_refresh (cmd : HunkTrackerCommand) : bool :=
  match cmd with RefreshAllBaselines => true | _ => false end.
Definition is_refresh_dirty (cmd : HunkTrackerCommand) : bool :=
  match cmd with RefreshGitDirtyCache => true | _ => false end.

Definition summarises (b : CoalescedBatch) (cmds : list HunkTrackerCommand) : Prop :=
  other_commands b = filter (fun c => is_coalescable c = false) cmds /\
  refresh_all b = existsb is_refresh cmds /\ refresh_dirty b = existsb is_refresh_dirty cmds /\
  forall p, file_actions b !! p = summary (omap (notified p) cmds).

Lemma omap_snoc {A B} (f : A -> option B) l x :
  omap f (l ++ [x]) = omap f l ++ option_list (f x).
Proof. rewrite omap_app. cbn. by destruct (f x). Qed.

Lemma summary_snoc l n :
  summary (l ++ [n]) =
  Some match n, summary l with
       | NDelete, _ => CDeleted
       | NChange, None => CChanged
       | NChange, Some CDeleted => CDeletedThenChanged
       | NChange, Some a => a
       end.
Proof.
  unfold summary. rewrite last_snoc, existsb_app. destruct n; [|done]. cbn. rewrite orb_false_r.
  induction l as [|x l _] using rev_ind; [done|]. rewrite last_snoc, existsb_app. cbn.
  destruct (existsb _ l), x; done.
Qed.

Lemma batch_add_summarises b cmds c : summarises b cmds -> summarises (batch_add b c) (cmds ++ [c]).
Proof.
  intros (Ho & Ha & Hd & Hf). unfold summarises. rewrite filter_app, !existsb_app.
  split_and!.
  - destruct c; cbn [batch_add other_commands]; rewrite filter_cons; cbn; rewrite ?app_nil_r, <- ?Ho; done.
  - destruct c; cbn; rewrite ?orb_false_r, ?orb_true_r, <- ?Ha; done.
  - destruct c; cbn; rewrite ?orb_false_r, ?orb_true_r, <- ?Hd; done.
  - intros p. rewrite omap_snoc. specialize (Hf p).
    destruct c; cbn [notified batch_add file_actions option_list]; rewrite ?app_nil_r; try done.
    all: case_decide as E; cbn [option_list]; rewrite ?app_nil_r;
      [subst; rewrite lookup_insert_eq; etrans; [|symmetry; apply summary_snoc]; rewrite ?Hf; done|by rewrite lookup_insert_ne].
Qed.

(** A drained batch keeps, for every path, exactly what its notifications
    amount to (deleted if the last is a deletion, else changed, with a mark
    when a deletion came before), both refreshes once, and the other commands
    in their order. *)
Theorem coalesce_exact first queued : summarises (drain_and_coalesce first queued) (first :: queued).
Proof.
  assert (forall q b cmds, summarises b cmds -> summarises (foldl batch_add b q) (cmds ++ q)) as Hq.
  { induction q as [|c q IH]; intros b cmds Hb; [by rewrite app_nil_r|].
    rewrite cons_middle, app_assoc. apply IH, batch_add_summarises, Hb. }
  apply (Hq queued _ [first]), (batch_add_summarises _ []).
  by split_and!.
Qed.

(** ** Concrete histories *)

Definition demo_base : string := unlines ["a"; "b"; "c"].
Definition demo_text : string := unlines ["a"; "B"; "c"; "d"].
Definition demo_disk : Disk := {["/w/f" := DFile demo_text]}.
Definition demo_world (fails : bool) : World :=
  mkWorld (fun _ => Full demo_base) (fun _ => None) None (fun _ => fails) (fun _ => fails) (fun n => n).
Definition demo_write : HunkTrackerCommand := RecordAgentWrite "/w/f" demo_text 3 None.

(** A tracker after the agent's write in turn 3: two pending hunks. *)
Definition demo_tracker : Tracker :=
  @handle_command positional_differ (gmap_iter _) (demo_world false) demo_write
    (tracker_new "/w" AgentOnly demo_disk).
Definition demo_file : FileHunkState :=
  default (new_file Missing Missing false) (file_states demo_tracker !! "/w/f").
Definition demo_hunk : Hunk := default (file_created 0 "" "" External) (head (hunks demo_file)).

Lemma demo_reached : @reached positional_differ (gmap_iter _) true demo_tracker.
Proof. by apply reached_cmd; [apply reached_new|..]. Qed.

Lemma turn_query_exact_witness :
  length (@get_hunks_for_turn (gmap_iter _) 3 demo_tracker) = 2 /\
  @get_hunks_for_turn (gmap_iter _) 3 demo_tracker ≡ₚ @turn_hunks (gmap_iter _) 3 demo_tracker.
Proof.
  split; [by vm_compute|].
  exact (proj2 (@turn_query_exact positional_differ (gmap_iter _) true demo_tracker 3 demo_reached) eq_refl).
Defined.

Lemma pending_hunks_wf_witness :
  length (hunks demo_file) = 2 /\
  Forall (located 1 1 (split_inclusive demo_base) (split_inclusive demo_text)) (hunks demo_file).
Proof.
  split; [by vm_compute|].
  pose proof (@pending_hunks_wf positional_differ (gmap_iter _) true demo_tracker "/w/f" demo_file demo_base
    demo_text demo_reached ltac:(by vm_compute) ltac:(by vm_compute) ltac:(by vm_compute)
    ltac:(by vm_compute) ltac:(by vm_compute)) as H.
  exact (proj2 (proj2 H)).
Defined.

Lemma failed_reject_forgets_turn_witness :
  let t' := (@apply_hunk_action positional_differ (gmap_iter _) (demo_world true) 0 Reject demo_tracker).1 in
  (demo_hunk ∈ @get_all_hunks (gmap_iter _) t') /\
  (demo_hunk ∉ @get_hunks_for_turn (gmap_iter _) 3 t').
Proof.
  intros t'.
  assert (@apply_hunk_action positional_differ (gmap_iter _) (demo_world true) 0 Reject demo_tracker
          = (t', Err (WriteError "/w/f"))) as E by (by vm_compute).
  pose proof (@failed_reject_forgets_turn positional_differ (gmap_iter _) true (demo_world true)
    demo_tracker t' 0%N "/w/f" demo_hunk 3 (WriteError "/w/f") demo_reached
    ltac:(by vm_compute) ltac:(by vm_compute) E) as H.
  exact (conj (proj1 (proj2 (proj2 H))) (proj1 (proj2 (proj2 (proj2 H))))).
Defined.

Lemma accept_file_exact_witness :
  file_states (@apply_file_action positional_differ (demo_world false) "/w/f" Accept demo_tracker).1
    !! "/w/f" = Some (mkFile (Full demo_text) (Full demo_text) [] true true).
Proof.
  pose proof (@accept_file_exact positional_differ (gmap_iter _) true (demo_world false) "/w/f" demo_file
    demo_base demo_text demo_tracker demo_reached ltac:(by vm_compute) ltac:(by vm_compute)
    ltac:(by vm_compute) ltac:(by vm_compute) ltac:(by vm_compute) ltac:(by vm_compute) ltac:(done)) as H.
  revert H. destruct (apply_file_action _ _ _ _) as [t' r]. intros H. exact (proj2 (proj2 H)).
Defined.

Lemma reject_file_restores_witness :
  let t' := (@apply_file_action positional_differ (demo_world false) "/w/f" Reject demo_tracker).1 in
  disk t' = {["/w/f" := DFile demo_base]} /\
  file_states t' !! "/w/f" = Some (mkFile (Full demo_base) (Full demo_base) [] true false).
Proof.
  pose proof (@reject_file_restores positional_differ (gmap_iter _) true (demo_world false) "/w/f" demo_file
    demo_base demo_text {["/w/f" := DFile demo_base]} demo_tracker demo_reached ltac:(by vm_compute)
    ltac:(by vm_compute) ltac:(by vm_compute) ltac:(by vm_compute) ltac:(by vm_compute)
    ltac:(by vm_compute) ltac:(done) ltac:(by vm_compute)) as H.
  revert H. destruct (apply_file_action _ _ _ _) as [t' r]. intros H. exact (proj2 H).
Defined.

Lemma read_file_classifies_witness :
  read_file_bounded (fun n => n) demo_disk "/w/f" = Full demo_text.
Proof.
  rewrite (read_file_classifies (fun n => n) demo_disk "/w/f" demo_text (fun n => le_n n) ltac:(by vm_compute)).
  by vm_compute.
Defined.
