(* ===== verification/HunkLoc.v ===== *)
(** * Lines-of-code attribution (ccode-hunk/src/loc/mod.rs)

    The sink consumes the tracker's events and appends attribution records.
    It accumulates the lines counted for every live hunk, so that a rejected
    or superseded hunk can be taken back by a negating record.  A record's
    timestamp is left out; the writer is a predicate saying which writes
    succeed (a failed write is logged and the record dropped). *)

From S2P Require Import Prelude RustStr TextLines HunkDiff HunkTracker HunkInv.
From Stdlib Require Import ZArith.
Local Open Scope Z_scope.

Inductive AuthorType := Agent | Human.
Inductive SourceType := SAgentEdit | SExternalEditOnAgentFile | SExternal.
Inductive EventType := Added | Updated | Removed.

Record HunkRecord := mkRecord {
  hunk_id : HunkId;
  file_path : string;
  hunk_start : nat;
  hunk_end : nat;
  lines_added : Z;
  lines_removed : Z;
  author_type : option AuthorType;
  author_id : option string;
  agent_id : string;
  session_id : string;
  rec_prompt_index : option nat;
  source_type : option SourceType;
  event_type : EventType;
  removal_reason : option HunkRemovalReason
}.

Record LocSinkContext := mkCtx {
  ctx_session_id : string;
  ctx_agent_id : string;
  ctx_user_id : option string;
  ctx_aggregates : bool
}.

Definition from_hunk (h : Hunk) (ctx : LocSinkContext) (ev : EventType) (attribution_source : HunkSource)
    : HunkRecord :=
  let '(a, aid, pix, st) :=
    match attribution_source with
    | AgentEdit k => (Agent, Some (ctx_agent_id ctx), Some k, SAgentEdit)
    | ExternalEditOnAgentFile => (Human, ctx_user_id ctx, None, SExternalEditOnAgentFile)
    | External => (Human, ctx_user_id ctx, None, SExternal)
    end in
  let li := line_info h in
  let '(start, count) :=
    if (new_count li =? 0)%nat then (old_start li, old_count li) else (new_start li, new_count li) in
  let stop := if (count =? 0)%nat then start else (start + count - 1)%nat in
  mkRecord (id h) (path h) start stop (Z.of_nat (new_count li)) (Z.of_nat (old_count li))
    (Some a) aid (ctx_agent_id ctx) (ctx_session_id ctx) pix (Some st) ev None.

Inductive LocAggregate :=
| LinesChanged (a : AuthorType) (added removed : Z) (p : string)
| LinesReverted (added_reverted removed_reverted : Z).

(** The accumulator, the records written and the aggregates sent. *)
Record Sink := mkSink {
  acc : gmap HunkId (Z * Z);
  records : list HunkRecord;
  aggregates : list LocAggregate
}.

Definition sink_new : Sink := mkSink ∅ [] [].

Section sink.
Context (ctx : LocSinkContext) (write_ok : HunkRecord -> bool).

Definition write_record (r : HunkRecord) (s : Sink) : Sink :=
  if write_ok r then mkSink (acc s) (records s ++ [r]) (aggregates s) else s.

Definition send_aggregate (a : LocAggregate) (s : Sink) : Sink :=
  if ctx_aggregates ctx then mkSink (acc s) (records s) (aggregates s ++ [a]) else s.

(** [acc.entry(id).or_insert((0, 0))], then both components increased. *)
Definition accumulate (i : HunkId) (a r : Z) (s : Sink) : Sink :=
  let '(x, y) := default (0, 0) (acc s !! i) in
  mkSink (<[i := (x + a, y + r)]> (acc s)) (records s) (aggregates s).

Definition forget (i : HunkId) (s : Sink) : Sink :=
  mkSink (delete i (acc s)) (records s) (aggregates s).

Definition with_lines (a r : Z) (rec : HunkRecord) : HunkRecord :=
  mkRecord (hunk_id rec) (file_path rec) (hunk_start rec) (hunk_end rec) a r (author_type rec)
    (author_id rec) (agent_id rec) (session_id rec) (rec_prompt_index rec) (source_type rec)
    (event_type rec) (removal_reason rec).

(** Count a record, announce it and write it. *)
Definition emit_change (or_author : AuthorType) (r : HunkRecord) (s : Sink) : Sink :=
  let s := accumulate (hunk_id r) (lines_added r) (lines_removed r) s in
  let s := send_aggregate (LinesChanged (default or_author (author_type r)) (lines_added r)
                             (lines_removed r) (file_path r)) s in
  write_record r s.

Definition removal_record (i : HunkId) (p : string) (a r : Z) (reason : HunkRemovalReason) : HunkRecord :=
  mkRecord i p 0 0 (- a) (- r) None None (ctx_agent_id ctx) (ctx_session_id ctx) None None Removed
    (Some reason).

(** The arm for rejected and superseded hunks. *)
Definition revert_hunk (i : HunkId) (p : string) (reason : HunkRemovalReason) (s : Sink) : Sink :=
  match acc s !! i with
  | None => s
  | Some (a, r) =>
      let s := forget i s in
      if (a =? 0) && (r =? 0) then s
      else
        let s := send_aggregate (LinesReverted (a `max` 0) (r `max` 0)) s in
        write_record (removal_record i p a r reason) s
  end.

Definition handle_event (s : Sink) (e : HunkEvent) : Sink :=
  match e with
  | HunkAdded _ h => emit_change Agent (from_hunk h ctx Added (source h)) s
  | HunkContentChanged _ h trigger pa pr =>
      let r := with_lines (Z.of_nat (new_count (line_info h)) - Z.of_nat pa)
                          (Z.of_nat (old_count (line_info h)) - Z.of_nat pr)
                          (from_hunk h ctx Updated trigger) in
      emit_change Human r s
  | HunkRemoved p i reason =>
      match reason with
      | Accepted => forget i s
      | Rejected | Superseded => revert_hunk i p reason s
      end
  | HunkMoved _ _ _ | FileAdded _ _ | FileRemoved _ | BaselineUpdated _ => s
  end.

(** The sink over the events received, in order; those still queued at
    cancellation are drained by the same handler. *)
Definition run_loc_sink (es : list HunkEvent) : Sink := foldl handle_event sink_new es.

(** ** What the records of a hunk add up to *)

Definition pair_add (x y : Z * Z) : Z * Z := (x.1 + y.1, x.2 + y.2).

Definition total (i : HunkId) (rs : list HunkRecord) : Z * Z :=
  foldr (fun r s => if decide (hunk_id r = i) then pair_add (lines_added r, lines_removed r) s else s) (0, 0) rs.

(** The reference: the lines of the hunk since it was last removed, and those
    it had when it was accepted. *)
Definition hunk_ledger (i : HunkId) (l : (Z * Z) * (Z * Z)) (e : HunkEvent) : (Z * Z) * (Z * Z) :=
  let '(live, kept) := l in
  match e with
  | HunkAdded _ h =>
      if decide (id h = i) then
        (pair_add live (Z.of_nat (new_count (line_info h)), Z.of_nat (old_count (line_info h))), kept)
      else l
  | HunkContentChanged _ h _ pa pr =>
      if decide (id h = i) then
        (pair_add live (Z.of_nat (new_count (line_info h)) - Z.of_nat pa,
                        Z.of_nat (old_count (line_info h)) - Z.of_nat pr), kept)
      else l
  | HunkRemoved _ j Accepted => if decide (j = i) then ((0, 0), pair_add kept live) else l
  | HunkRemoved _ j _ => if decide (j = i) then ((0, 0), kept) else l
  | _ => l
  end.

Definition ledger (i : HunkId) (es : list HunkEvent) : (Z * Z) * (Z * Z) :=
  foldl (hunk_ledger i) ((0, 0), (0, 0)) es.

Lemma total_app i l k : total i (l ++ k) = pair_add (total i l) (total i k).
Proof.
  induction l as [|r l IH]; [by change ([] ++ k) with k; destruct (total i k)|]. cbn.
  unfold total in *. rewrite IH. case_decide; [|done]. unfold pair_add. cbn. f_equal; lia.
Qed.

Lemma from_hunk_fields h ev src :
  hunk_id (from_hunk h ctx ev src) = id h /\
  lines_added (from_hunk h ctx ev src) = Z.of_nat (new_count (line_info h)) /\
  lines_removed (from_hunk h ctx ev src) = Z.of_nat (old_count (line_info h)).
Proof. unfold from_hunk. repeat case_match; simplify_eq; done. Qed.

(** What the sink holds of a hunk agrees with the ledger. *)
Definition agrees (i : HunkId) (s : Sink) (l : (Z * Z) * (Z * Z)) : Prop :=
  default (0, 0) (acc s !! i) = l.1 /\ total i (records s) = pair_add l.1 l.2.

Hypothesis writes_ok : forall r, write_ok r = true.

Lemma agrees_change i who r s l :
  agrees i s l ->
  agrees i (emit_change who r s)
    (if decide (hunk_id r = i) then (pair_add l.1 (lines_added r, lines_removed r), l.2) else l).
Proof.
  intros [Ha Ht]. unfold emit_change, write_record, agrees. rewrite writes_ok. cbn [acc records].
  assert (forall a s, acc (send_aggregate a s) = acc s /\ records (send_aggregate a s) = records s) as Hs
    by (intros a s'; unfold send_aggregate; by case_match).
  destruct (Hs (LinesChanged (default who (author_type r)) (lines_added r) (lines_removed r) (file_path r))
    (accumulate (hunk_id r) (lines_added r) (lines_removed r) s)) as [-> ->].
  unfold accumulate. destruct (default (0, 0) (acc s !! hunk_id r)) as [x y] eqn:E. cbn [acc records].
  rewrite total_app, Ht. cbn. case_decide as Hi.
  - subst i. rewrite lookup_insert_eq. rewrite E in Ha. destruct l as [live kept]. cbn in *. subst live.
    split; [done|]. unfold pair_add. cbn. f_equal; lia.
  - rewrite lookup_insert_ne by done. split; [done|]. unfold pair_add. cbn. f_equal; lia.
Qed.

Lemma aggregate_same a s :
  acc (send_aggregate a s) = acc s /\ records (send_aggregate a s) = records s.
Proof. unfold send_aggregate. by case_match. Qed.

(** A hunk whose lines are taken back. *)
Lemma agrees_revert i p j reason s l :
  agrees i s l -> agrees i (revert_hunk j p reason s) (if decide (j = i) then ((0, 0), l.2) else l).
Proof.
  intros [Ha Ht]. unfold agrees, revert_hunk. destruct (acc s !! j) as [[a r]|] eqn:E.
  - assert (total i (if (a =? 0) && (r =? 0) then [] else [removal_record j p a r reason])
            = if decide (j = i) then (- a, - r) else (0, 0)) as Hneg.
    { case_match eqn:Hz; [|cbn; unfold pair_add; cbn; case_decide; f_equal; lia].
      apply andb_true_iff in Hz as [->%Z.eqb_eq ->%Z.eqb_eq]. by case_decide. }
    assert (forall s', s' = (if (a =? 0) && (r =? 0) then forget j s
              else write_record (removal_record j p a r reason)
                     (send_aggregate (LinesReverted (a `max` 0) (r `max` 0)) (forget j s))) ->
            acc s' = delete j (acc s) /\
            records s' = records s ++ if (a =? 0) && (r =? 0) then [] else [removal_record j p a r reason]) as Hs.
    { intros s' ->. case_match; [by rewrite app_nil_r|]. unfold write_record. rewrite writes_ok. cbn [acc records].
      by destruct (aggregate_same (LinesReverted (a `max` 0) (r `max` 0)) (forget j s)) as [-> ->]. }
    destruct (Hs _ eq_refl) as [-> ->]. rewrite total_app, Hneg, Ht.
    case_decide as Hj; [|rewrite lookup_delete_ne by done; split; [done|]; unfold pair_add; cbn; f_equal; lia].
    subst j. rewrite lookup_delete_eq. rewrite E in Ha. change (default (0, 0) (Some (a, r))) with (a, r) in Ha.
    rewrite <- Ha. split; [done|]. unfold pair_add. cbn. f_equal; lia.
  - case_decide as Hj; [|done]. subst j. rewrite E in *. change (default (0, 0) None) with (0, 0) in *.
    cbn [fst snd]. by rewrite Ht, <- Ha.
Qed.

Lemma agrees_event i s l e : agrees i s l -> agrees i (handle_event s e) (hunk_ledger i l e).
Proof.
  intros Hs. destruct l as [live kept]. destruct e as [p h|p j reason|p j li|p h trig pa pr| | |]; try done.
  - cbn [handle_event hunk_ledger].
    destruct (from_hunk_fields h Added (source h)) as (E1 & E2 & E3).
    pose proof (agrees_change i Agent (from_hunk h ctx Added (source h)) s _ Hs) as H.
    by rewrite E1, E2, E3 in H.
  - cbn [handle_event hunk_ledger]. destruct reason; [|by apply (agrees_revert i p j _ s (live, kept))..].
    destruct Hs as [Ha Ht]. unfold agrees. cbn [acc records forget fst snd] in *. case_decide as Hj.
    + subst j. rewrite lookup_delete_eq. split; [done|]. rewrite Ht. unfold pair_add. cbn. f_equal; lia.
    + by rewrite lookup_delete_ne.
  - cbn [handle_event hunk_ledger].
    destruct (from_hunk_fields h Updated trig) as (E1 & _ & _).
    match goal with |- agrees _ (emit_change _ ?r _) _ =>
      pose proof (agrees_change i Human r s _ Hs) as H end.
    cbn [hunk_id with_lines lines_added lines_removed] in H. by rewrite E1 in H.
Qed.

(** C39.  When every write succeeds, the records written about a hunk add up to
    the lines it has had since it was last removed plus those it had whenever
    it was accepted: rejected and superseded edits are taken back exactly, and
    the sink still holds what the pending hunk contributes. *)
Theorem loc_records_exact es i :
  let s := run_loc_sink es in
  let '(live, kept) := ledger i es in
  total i (records s) = pair_add live kept /\ default (0, 0) (acc s !! i) = live.
Proof.
  assert (agrees i (run_loc_sink es) (ledger i es)) as [H1 H2].
  { unfold run_loc_sink, ledger.
    assert (agrees i sink_new ((0, 0), (0, 0))) as H0 by done.
    revert H0. generalize sink_new ((0, 0), (0, 0)).
    induction es as [|e es IH]; intros s l Hs; [done|]. apply IH, agrees_event, Hs. }
  cbn zeta. destruct (ledger i es) as [live kept]. done.
Qed.
End sink.

(** The agent's write of the demonstration, then all hunks rejected. *)
Definition demo_rejected : list HunkEvent :=
  events (@apply_file_action positional_differ (demo_world false) "/w/f" Reject demo_tracker).1.
Definition demo_ctx : LocSinkContext := mkCtx "s" "agent" None true.

Lemma loc_records_exact_witness :
  let s := run_loc_sink demo_ctx (fun _ => true) demo_rejected in
  length (records s) = 4%nat /\ total 0 (records s) = (0, 0).
Proof.
  split; [by vm_compute|].
  exact (proj1 (loc_records_exact demo_ctx (fun _ => true) (fun _ => eq_refl) demo_rejected 0%N)).
Defined.
