(* ===== verification/HunkQuery.v ===== *)
(** * Queries of the hunk tracker (ccode-hunk/src/actor/queries.rs, types.rs, diff.rs)

    The session summary, the patches shown for the hunks of a file, and the
    transfer of a snapshot between working directories.  A subtraction of
    [usize] that would go below zero panics, so the functions with such a
    subtraction return an [option]. *)

From S2P Require Import Prelude RustStr TextLines TextFind HunkDiff HunkTracker HunkInv.

(** ** The patch of a hunk (diff.rs) *)

(** [writeln!(output, "{}{}", mark, line)] for the lines of a range. *)
Definition marked (mark : string) (l : list string) : string :=
  str_concat ((fun x => mark +:+ x +:+ str1 nl) <$> l).

Definition range {A} (l : list A) (from to : nat) : list A := take (to - from) (drop from l).

Definition checked_sub (x y : nat) : option nat := if y <=? x then Some (x - y) else None.

Definition generate_hunk_patch (baseline current : string) (h : Hunk) : option string :=
  let li := line_info h in
  let old_lines := lines baseline in
  let new_lines := lines current in
  let old_start_idx := old_start li - 1 in
  let new_start_idx := new_start li - 1 in
  let context_before_start := old_start_idx - CONTEXT_LINES in
  let changes_end_new := new_start_idx + new_count li in
  let context_after_end := (changes_end_new + CONTEXT_LINES) `min` length new_lines in
  let changes_end_old := old_start_idx + old_count li in
  let context_after_end_old := (changes_end_old + CONTEXT_LINES) `min` length old_lines in
  before ← checked_sub old_start_idx context_before_start;
  after_old ← checked_sub context_after_end_old changes_end_old;
  after_new ← checked_sub context_after_end changes_end_new;
  let total_old_lines := before + old_count li + after_old in
  let total_new_lines := before + new_count li + after_new in
  let header := "@@ -" +:+ show (context_before_start + 1) +:+ "," +:+ show total_old_lines +:+
                " +" +:+ show (context_before_start + 1) +:+ "," +:+ show total_new_lines +:+ " @@" +:+
                str1 nl in
  Some (header +:+ marked " " (range old_lines context_before_start old_start_idx) +:+
        marked "-" (lines (default "" (old_text h))) +:+ marked "+" (lines (new_text h)) +:+
        marked " " (range new_lines changes_end_new context_after_end)).

(** ** Views (types.rs) *)

Inductive FileContentStatus := SMissing | SBinary | STooLarge | SLfsPointer | SSymlink | SFull.

Record FileContentView := mkView {
  view_status : FileContentStatus;
  view_byte_len : option nat;
  view_content : option string
}.

Definition from_content_state (s : FileContentState) : FileContentView :=
  match s with
  | Missing => mkView SMissing None None
  | Binary n => mkView SBinary n None
  | TooLarge n => mkView STooLarge (Some n) None
  | LfsPointer n => mkView SLfsPointer (Some n) None
  | Symlink => mkView SSymlink None None
  | Full c => mkView SFull (Some (String.length c)) (Some c)
  end.

Record FileHunkData := mkData {
  data_hunks : list Hunk;
  data_baseline : FileContentView;
  data_current : FileContentView;
  baseline_content : option string;
  data_current_content : option string
}.

Definition view_default : FileContentView := mkView SMissing None None.
Definition data_default : FileHunkData := mkData [] view_default view_default None None.

(** The hunk with its patch; [None] when generating it panics. *)
Definition patched_hunk (b c : option string) (h : Hunk) : option Hunk :=
  match b, c with
  | None, None => Some (with_patch None h)
  | _, _ => s ← generate_hunk_patch (default "" b) (default "" c) h; Some (with_patch (Some s) h)
  end.

Definition get_file_hunk_data (p : string) (t : Tracker) : option FileHunkData :=
  match file_states t !! p with
  | None => Some data_default
  | Some st =>
      hs ← mapM (patched_hunk (as_str (baseline st)) (as_str (current_content st))) (hunks st);
      let b := from_content_state (baseline st) in
      let c := from_content_state (current_content st) in
      Some (mkData hs b c (view_content b) (view_content c))
  end.

(** ** Summaries (queries.rs) *)

Inductive HunkSourceFilter := FAgent | FExternal.

Record TurnData := mkTurnData {
  turn_files : gset string;
  turn_pending : list Hunk;
  turn_added : nat;
  turn_removed : nat
}.

Definition turn_default : TurnData := mkTurnData ∅ [] 0 0.

Record TurnSummary := mkTurnSummary {
  ts_prompt : nat;
  ts_files : list string;
  ts_pending : list Hunk;
  ts_added : nat;
  ts_removed : nat
}.

Record SessionSummary := mkSummary {
  sum_stats : SessionStats;
  sum_turns : list TurnSummary;
  files_modified : nat;
  files_with_pending : nat;
  pending_hunks : nat;
  pending_lines_added : nat;
  pending_lines_removed : nat;
  unattributed_pending : nat
}.

(** The variables of the loops over the files and their hunks. *)
Record Tally := mkTally {
  by_prompt : gmap nat TurnData;
  unattributed : nat;
  agent_files : gset string
}.

Definition add_pending (p : string) (h : Hunk) (d : TurnData) : TurnData :=
  mkTurnData ({[p]} ∪ turn_files d) (turn_pending d ++ [h])
    (turn_added d + new_count (line_info h)) (turn_removed d + old_count (line_info h)).

Definition tally_hunk (p : string) (acc : Tally * bool) (h : Hunk) : Tally * bool :=
  let '(ty, has_agent) := acc in
  match prompt_index (source h) with
  | Some k =>
      (mkTally (<[k := add_pending p h (default turn_default (by_prompt ty !! k))]> (by_prompt ty))
         (unattributed ty) (agent_files ty), true)
  | None => (mkTally (by_prompt ty) (unattributed ty + 1) (agent_files ty), has_agent)
  end.

Definition tally_file (ty : Tally) (pst : string * FileHunkState) : Tally :=
  let '(p, st) := pst in
  let '(ty, has_agent) := foldl (tally_hunk p) (ty, false) (hunks st) in
  if has_agent : bool then mkTally (by_prompt ty) (unattributed ty) ({[p]} ∪ agent_files ty) else ty.

Definition turn_summary (kd : nat * TurnData) : TurnSummary :=
  let '(k, d) := kd in
  mkTurnSummary k (elements (turn_files d)) (turn_pending d) (turn_added d) (turn_removed d).

Definition turn_le (a b : TurnSummary) : Prop := ts_prompt a <= ts_prompt b.

#[export] Instance turn_le_dec a b : Decision (turn_le a b).
Proof. unfold turn_le. apply _. Defined.
#[export] Instance turn_le_total : Total turn_le.
Proof. intros a b. unfold turn_le. lia. Qed.
#[export] Instance turn_le_trans : Transitive turn_le.
Proof. intros a b c. unfold turn_le. lia. Qed.

Section queries.
Context {HI : HashIter string} {HN : HashIter nat}.

Definition get_all_tracked_paths (t : Tracker) : list string := fst <$> hiter (file_states t).

Definition get_hunks_by_source (f : HunkSourceFilter) (t : Tracker) : list Hunk :=
  filter (fun h => match f with FAgent => is_agent_edit (source h) | FExternal => is_external (source h) end = true)
         (get_all_hunks t).

Definition compute_session_summary (t : Tracker) : SessionSummary :=
  let ty := foldl tally_file (mkTally ∅ 0 ∅) (hiter (file_states t)) in
  let turns := merge_sort turn_le (turn_summary <$> hiter (by_prompt ty)) in
  mkSummary (session_stats t) turns (size (agent_files ty)) (size (agent_files ty))
    (sum_list_with (fun s => length (ts_pending s)) turns) (sum_list_with ts_added turns)
    (sum_list_with ts_removed turns) (unattributed ty).
End queries.

(** ** Transfer of a snapshot (types.rs) *)

Definition rewrite_single_path (p old_cwd canonical_old new_cwd : string) : option string :=
  let relative := match strip_path canonical_old p with
                  | Some r => Some r
                  | None => strip_path old_cwd p
                  end in
  rel ← relative; Some (join_path new_cwd rel).

Definition with_path (p : string) (h : Hunk) : Hunk :=
  mkHunk (id h) p (line_info h) (source h) (old_text h) (new_text h) (patch h).

Definition move_file (p : string) (st : FileHunkState) : FileHunkState :=
  mkFile (baseline st) (current_content st) (with_path p <$> hunks st) (is_agent_file st)
    (baseline_accepted st).

Definition rewrite_paths {HI : HashIter string} (old_cwd canonical_old new_cwd : string)
    (s : HunkTrackerSnapshot) : HunkTrackerSnapshot :=
  let target p := default p (rewrite_single_path p old_cwd canonical_old new_cwd) in
  mkSnapshot
    (foldl (fun m '(p, st) => <[target p := move_file (target p) st]> m) ∅ (hiter (snap_files s)))
    (snap_index s) (snap_stats s).

(** ** The summary counts every pending hunk once *)

Abbreviation entry := (string * Hunk)%type.

Definition of_turn (k : nat) (l : list entry) : list entry :=
  filter (fun e => prompt_index (source e.2) = Some k) l.
Definition external_entries (l : list entry) : list entry :=
  filter (fun e => prompt_index (source e.2) = None) l.
Definition data_of (l : list entry) : TurnData :=
  foldl (fun d e => add_pending e.1 e.2 d) turn_default l.

(** A tally of the hunks listed so far. *)
Definition tallied (l : list entry) (ty : Tally) : Prop :=
  (forall k, by_prompt ty !! k = if decide (of_turn k l = []) then None else Some (data_of (of_turn k l))) /\
  unattributed ty = length (external_entries l).

Lemma data_of_snoc l e : data_of (l ++ [e]) = add_pending e.1 e.2 (data_of l).
Proof. unfold data_of. by rewrite foldl_app. Qed.

Lemma tally_hunk_spec p h b l ty : tallied l ty -> tallied (l ++ [(p, h)]) (tally_hunk p (ty, b) h).1.
Proof.
  intros [Hk Hu]. unfold tallied, of_turn, external_entries, tally_hunk. cbn [fst snd].
  destruct (prompt_index (source h)) as [j|] eqn:Ej; cbn [fst by_prompt unattributed].
  - split; [|rewrite filter_app, filter_cons; cbn; rewrite Ej, decide_False by done; by rewrite app_nil_r].
    intros k. rewrite filter_app, filter_cons. cbn [fst snd]. rewrite Ej. destruct (decide (Some j = Some k)) as [Ek|Ek].
    + simplify_eq. rewrite lookup_insert_eq, Hk. rewrite (decide_False (P := _ ++ _ = [])) by (by intros [_ ?]%app_eq_nil).
      fold (of_turn k l). change (filter _ []) with (@nil entry). rewrite data_of_snoc. cbn [fst snd].
      by case_decide as E; [rewrite E|].
    + rewrite lookup_insert_ne by congruence. by rewrite app_nil_r.
  - split; [|rewrite filter_app, length_app, filter_cons; cbn; rewrite Ej, decide_True by done; cbn; by rewrite Hu].
    intros k. rewrite filter_app, filter_cons. cbn [fst snd]. rewrite Ej, (decide_False (P := None = Some k)) by done. rewrite app_nil_r. apply Hk.
Qed.

Lemma tally_file_spec p st l ty : tallied l ty -> tallied (l ++ ((p,.) <$> hunks st)) (tally_file ty (p, st)).
Proof.
  intros Hl. unfold tally_file.
  assert (forall hs b l ty, tallied l ty -> tallied (l ++ ((p,.) <$> hs)) (foldl (tally_hunk p) (ty, b) hs).1) as Hf.
  { induction hs as [|h hs IH]; intros b l' ty' H; [by rewrite app_nil_r|]. cbn [foldl]. rewrite fmap_cons.
    rewrite cons_middle, app_assoc. pose proof (tally_hunk_spec p h b l' ty' H) as H'.
    destruct (tally_hunk p (ty', b) h) as [ty1 b1]. by apply IH. }
  specialize (Hf (hunks st) false l ty Hl).
  destruct (foldl (tally_hunk p) (ty, false) (hunks st)) as [ty1 [|]]; [|done].
  by destruct Hf.
Qed.

Section summary.
Context {HI : HashIter string} {HN : HashIter nat}.

Definition entries (t : Tracker) : list entry :=
  mjoin ((fun pst => (pst.1,.) <$> hunks pst.2) <$> hiter (file_states t)).

Lemma entries_all t : snd <$> entries t = get_all_hunks t.
Proof.
  unfold entries, get_all_hunks. induction (hiter (file_states t)) as [|[p st] l IH]; [done|].
  rewrite !fmap_cons. cbn [mjoin list_join fst snd]. rewrite fmap_app. f_equal; [|exact IH].
  rewrite <- list_fmap_compose. apply list_fmap_id.
Qed.

Lemma summary_tallied t : tallied (entries t) (foldl tally_file (mkTally ∅ 0 ∅) (hiter (file_states t))).
Proof.
  assert (forall fs l ty, tallied l ty ->
    tallied (l ++ mjoin ((fun pst => (pst.1,.) <$> hunks pst.2) <$> fs)) (foldl tally_file ty fs)) as Hf.
  { induction fs as [|[p st] fs IH]; intros l ty H; [by rewrite app_nil_r|]. cbn [foldl]. rewrite fmap_cons. cbn [mjoin list_join].
    rewrite app_assoc. by apply IH, tally_file_spec. }
  apply (Hf _ []). split; [|done]. intros k. apply lookup_empty.
Qed.

Lemma of_turn_hunks k t : snd <$> of_turn k (entries t) = turn_hunks k t.
Proof.
  unfold turn_hunks. rewrite <- entries_all. unfold of_turn.
  induction (entries t) as [|e l IH]; [done|]. rewrite fmap_cons, !filter_cons.
  by case_decide; rewrite ?fmap_cons, IH.
Qed.

Lemma data_of_fields l :
  turn_pending (data_of l) = snd <$> l /\
  turn_added (data_of l) = sum_list_with (fun h => new_count (line_info h)) (snd <$> l) /\
  turn_removed (data_of l) = sum_list_with (fun h => old_count (line_info h)) (snd <$> l).
Proof.
  induction l as [|e l (H1 & H2 & H3)] using rev_ind; [done|].
  rewrite data_of_snoc, !fmap_app, !sum_list_with_app. cbn. by rewrite H1, H2, H3, !Nat.add_0_r.
Qed.

Lemma sum_list_with_cons {A} (f : A -> nat) x l : sum_list_with f (x :: l) = f x + sum_list_with f l.
Proof. done. Qed.

(** One more entry adds one to the sum over the turns. *)
Lemma sum_turns_cons e l ks j :
  prompt_index (source e.2) = Some j -> NoDup ks -> j ∈ ks ->
  sum_list_with (fun k => length (of_turn k (e :: l))) ks
  = S (sum_list_with (fun k => length (of_turn k l)) ks).
Proof.
  intros Ej.
  assert (forall k, length (of_turn k (e :: l)) = (if decide (j = k) then 1 else 0) + length (of_turn k l)) as Hc.
  { intros k. unfold of_turn. rewrite filter_cons, Ej. destruct (decide (j = k)) as [->|Hn].
    - by rewrite decide_True.
    - by rewrite decide_False by congruence. }
  assert (forall r, j ∉ r -> sum_list_with (fun k => length (of_turn k (e :: l))) r
    = sum_list_with (fun k => length (of_turn k l)) r) as Hno.
  { clear ks. induction r as [|k r IH]; intros Hj; [done|]. apply not_elem_of_cons in Hj as [Hk Hr].
    rewrite !sum_list_with_cons, Hc, decide_False by done. f_equal. by apply IH. }
  induction 1 as [|k r Hk Hr IH]; intros Hj; [by apply not_elem_of_nil in Hj|].
  rewrite !sum_list_with_cons, Hc. destruct (decide (j = k)) as [->|Hn].
  - rewrite Hno by done. lia.
  - apply elem_of_cons in Hj as [?|Hj]; [done|]. rewrite IH by done. lia.
Qed.

(** The turns and the unattributed hunks partition the entries. *)
Lemma turns_partition l ks :
  NoDup ks -> (forall k, of_turn k l <> [] -> k ∈ ks) ->
  sum_list_with (fun k => length (of_turn k l)) ks + length (external_entries l) = length l.
Proof.
  intros Hn. induction l as [|e l IH]; intros Hk.
  { clear. induction ks as [|k r IH]; [done|]. by rewrite sum_list_with_cons. }
  destruct (prompt_index (source e.2)) as [j|] eqn:Ej.
  - rewrite (sum_turns_cons e l ks j Ej Hn) by (apply Hk; unfold of_turn; rewrite filter_cons, decide_True; done).
    unfold external_entries. rewrite filter_cons, decide_False by congruence. cbn [length]. rewrite Nat.add_succ_l. f_equal. apply IH.
    intros k Hl. apply Hk. unfold of_turn in *. rewrite filter_cons. by case_decide.
  - assert (forall k, of_turn k (e :: l) = of_turn k l) as E
      by (intros k; unfold of_turn; rewrite filter_cons, decide_False; congruence).
    unfold external_entries. rewrite filter_cons, decide_True by done. cbn [length]. rewrite Nat.add_succ_r. f_equal.
    rewrite <- IH by (intros k; rewrite <- E; apply Hk).
    f_equal. clear -E. induction ks as [|k r IH]; [done|]. by rewrite !sum_list_with_cons, E, IH.
Qed.

(** The turns before sorting. *)
Definition turn_of (t : Tracker) (k : nat) (d : TurnData) : Prop :=
  turn_hunks k t <> [] /\ turn_pending d = turn_hunks k t /\
  turn_added d = sum_list_with (fun h => new_count (line_info h)) (turn_hunks k t) /\
  turn_removed d = sum_list_with (fun h => old_count (line_info h)) (turn_hunks k t).

Lemma by_prompt_spec t ty k :
  tallied (entries t) ty ->
  (forall d, by_prompt ty !! k = Some d -> turn_of t k d) /\
  (turn_hunks k t <> [] -> is_Some (by_prompt ty !! k)).
Proof.
  intros [Hk _]. rewrite Hk. pose proof (of_turn_hunks k t) as E.
  destruct (data_of_fields (of_turn k (entries t))) as (H1 & H2 & H3). rewrite E in *.
  case_decide as Hn.
  - rewrite Hn in E. cbn in E. split; [done|]. by rewrite <- E.
  - split; [|by eexists]. intros d [= <-]. split_and!; try done.
    rewrite <- E. intros Hx. by apply fmap_nil_inv in Hx.
Qed.

Lemma sorted_turns_lt l :
  NoDup (ts_prompt <$> l) -> StronglySorted turn_le l -> StronglySorted (fun a b => ts_prompt a < ts_prompt b) l.
Proof.
  induction l as [|a l IH]; intros Hn Hs; [constructor|]. rewrite fmap_cons in Hn.
  apply NoDup_cons in Hn as [Ha Hn]. apply StronglySorted_inv in Hs as [Hs Hle]. constructor; [by apply IH|].
  rewrite Forall_forall in Hle |- *. intros b Hb. specialize (Hle b Hb). unfold turn_le in Hle.
  assert (ts_prompt a <> ts_prompt b); [|lia]. intros E. apply Ha. rewrite E. by apply list_elem_of_fmap_2.
Qed.

(** The session summary lists the turns with pending hunks in increasing
    order, each with exactly the pending hunks attributed to it and their line
    counts, and the hunks of the turns and the unattributed ones are together
    all pending hunks. *)
Theorem session_summary_exact t :
  let s := compute_session_summary t in
  StronglySorted (fun a b => ts_prompt a < ts_prompt b) (sum_turns s) /\
  (forall k, (k ∈ ts_prompt <$> sum_turns s) <-> turn_hunks k t <> []) /\
  Forall (fun u => ts_pending u = turn_hunks (ts_prompt u) t /\
    ts_added u = sum_list_with (fun h => new_count (line_info h)) (ts_pending u) /\
    ts_removed u = sum_list_with (fun h => old_count (line_info h)) (ts_pending u)) (sum_turns s) /\
  pending_hunks s + unattributed_pending s = length (get_all_hunks t).
Proof.
  cbv zeta. unfold compute_session_summary. cbn [sum_turns pending_hunks unattributed_pending].
  pose proof (summary_tallied t) as Hty. set (ty := foldl tally_file _ _) in *.
  set (l := turn_summary <$> hiter (by_prompt ty)).
  assert (ts_prompt <$> l = fst <$> hiter (by_prompt ty)) as Ek
    by (unfold l; rewrite <- list_fmap_compose; apply list_fmap_ext; intros ? [k d] _; done).
  assert (NoDup (ts_prompt <$> l)) as Hnd by (rewrite Ek; apply NoDup_hiter_fst).
  assert (merge_sort turn_le l ≡ₚ l) as Hp by apply merge_sort_Permutation.
  assert (forall k, (k ∈ ts_prompt <$> l) <-> turn_hunks k t <> []) as Hk.
  { intros k. rewrite Ek. destruct (by_prompt_spec t ty k Hty) as [H1 H2]. split.
    - intros ([k' d] & -> & Hd%elem_of_hiter)%list_elem_of_fmap. by destruct (H1 _ Hd).
    - intros [d Hd]%H2. apply list_elem_of_fmap. exists (k, d). split; [done|]. by apply elem_of_hiter. }
  assert (Forall (fun u => ts_pending u = turn_hunks (ts_prompt u) t /\
    ts_added u = sum_list_with (fun h => new_count (line_info h)) (ts_pending u) /\
    ts_removed u = sum_list_with (fun h => old_count (line_info h)) (ts_pending u)) l) as Hf.
  { apply Forall_forall. intros u ([k d] & -> & Hd%elem_of_hiter)%list_elem_of_fmap.
    destruct (by_prompt_spec t ty k Hty) as [H1 _]. destruct (H1 _ Hd) as (_ & E1 & E2 & E3).
    cbn. by rewrite E1. }
  split_and!.
  - apply sorted_turns_lt; [by rewrite Hp|]. by apply StronglySorted_merge_sort; apply _.
  - intros k. rewrite Hp. apply Hk.
  - by rewrite Hp.
  - rewrite Hp, (proj2 Hty), <- entries_all, length_fmap.
    rewrite <- (turns_partition (entries t) (ts_prompt <$> l) Hnd).
    2: { intros k Hne. apply Hk. rewrite <- of_turn_hunks. intros E%fmap_nil_inv. done. }
    f_equal. clear -Hf. induction Hf as [|u r [Hu _] _ IH]; [done|].
    rewrite fmap_cons, !sum_list_with_cons, IH, Hu, <- of_turn_hunks. by rewrite length_fmap.
Qed.
End summary.

(** ** Patches never panic on texts without carriage returns *)

Lemma checked_sub_le x y : y <= x -> checked_sub x y = Some (x - y).
Proof. intros H. unfold checked_sub. by rewrite (proj2 (Nat.leb_le _ _)). Qed.

Lemma length_lines s : length (lines s) = length (split_inclusive s).
Proof. apply length_fmap. Qed.

Lemma located_patch b c h :
  located 1 1 (split_inclusive b) (split_inclusive c) h -> is_Some (generate_hunk_patch b c h).
Proof.
  intros (H1 & H2 & H3 & H4 & _). unfold generate_hunk_patch. cbv zeta. rewrite !length_lines.
  rewrite !checked_sub_le by (unfold CONTEXT_LINES; lia). cbn. by eexists.
Qed.

Section patches.
Context {D : Differ} {HI : HashIter string}.

(** In every reachable state the data shown for a file tracked between two
    texts without carriage returns can be produced: no patch underflows its
    context counts, and each pending hunk is shown with a patch. *)
Theorem hunk_data_total strict t p st b c :
  reached strict t -> file_states t !! p = Some st ->
  baseline st = Full b -> current_content st = Full c ->
  has_char cr b = false -> has_char cr c = false ->
  exists d, get_file_hunk_data p t = Some d /\
    id <$> data_hunks d = id <$> hunks st /\ Forall (fun h => is_Some (patch h)) (data_hunks d) /\
    baseline_content d = Some b /\ data_current_content d = Some c.
Proof.
  intros Hr Hp Hb Hc Rb Rc. destruct (pending_located _ _ _ _ _ _ Hr Hp Hb Hc Rb Rc) as [_ Hl].
  unfold get_file_hunk_data. rewrite Hp, Hb, Hc. cbn [as_str].
  assert (exists hs, mapM (patched_hunk (Some b) (Some c)) (hunks st) = Some hs /\
    id <$> hs = id <$> hunks st /\ Forall (fun h => is_Some (patch h)) hs) as (hs & -> & H1 & H2).
  { induction Hl as [|h l Hh _ (hs & E & H1 & H2)]; [by exists []|].
    destruct (located_patch _ _ _ Hh) as [x Hx].
    exists (with_patch (Some x) h :: hs). split; [|split].
    - cbn [mapM].
      change (patched_hunk (Some b) (Some c) h)
        with (s ← generate_hunk_patch b c h; Some (with_patch (Some s) h)).
      rewrite Hx. cbn. by rewrite E.
    - by rewrite !fmap_cons, H1.
    - by constructor. }
  eexists. split; [done|]. done.
Qed.

(** ** Snapshots moved between directories *)

(** The path of a file below a directory. *)
Definition below (dir rel : string) : string := dir +:+ "/" +:+ rel.

Lemma strip_below dir rel : strip_path dir (below dir rel) = Some rel.
Proof.
  unfold strip_path, below. rewrite bool_decide_false.
  - assert (starts_with (dir +:+ "/") (dir +:+ "/" +:+ rel) = true) as ->
      by (apply starts_with_spec; exists rel; by rewrite str_app_assoc).
    f_equal. rewrite <- (str_app_assoc dir "/" rel).
    assert (String.length dir + 1 = String.length (dir +:+ "/")) as -> by (by rewrite length_str_app).
    induction (dir +:+ "/") as [|a s IH]; [by rewrite str_app_nil_l|]. by rewrite str_app_cons.
  - intros E%(f_equal String.length). rewrite !length_str_app in E. cbn in E. lia.
Qed.

(** A relative path as [strip_prefix] yields it for a file. *)
Definition relative (rel : string) : Prop := rel <> "" /\ starts_with "/" rel = false.

Lemma rewrite_below old new rel :
  relative rel -> rewrite_single_path (below old rel) old old new = Some (below new rel).
Proof.
  intros [Hne Hr]. unfold rewrite_single_path. rewrite strip_below. cbn. f_equal.
  unfold join_path. by rewrite Hr, bool_decide_false.
Qed.

(** All files of a snapshot lie below a directory and own their hunks. *)
Definition placed (dir : string) (s : HunkTrackerSnapshot) : Prop :=
  forall p st, snap_files s !! p = Some st ->
    (exists rel, relative rel /\ p = below dir rel) /\ Forall (fun h => path h = p) (hunks st).

Lemma below_inj dir r1 r2 : below dir r1 = below dir r2 -> r1 = r2.
Proof. intros E%(f_equal (strip_path dir)). rewrite !strip_below in E. congruence. Qed.

Lemma rewrite_lookup old new s q v :
  placed old s ->
  snap_files (rewrite_paths old old new s) !! q = Some v <->
  exists rel st, relative rel /\ snap_files s !! below old rel = Some st /\
    q = below new rel /\ v = move_file (below new rel) st.
Proof.
  intros Hpl. unfold rewrite_paths. cbv zeta. cbn [snap_files].
  assert (forall p st, (p, st) ∈ hiter (snap_files s) <-> snap_files s !! p = Some st) as Hh
    by (intros; apply elem_of_hiter).
  pose proof (NoDup_hiter_fst (snap_files s)) as Hnd.
  assert (forall p, (exists st, (p, st) ∈ hiter (snap_files s)) ->
    exists rel, relative rel /\ p = below old rel /\
      default p (rewrite_single_path p old old new) = below new rel) as Ht.
  { intros p [st Hp%Hh]. destruct (Hpl _ _ Hp) as [(rel & Hr & ->) _].
    exists rel. by rewrite rewrite_below. }
  assert ((exists rel st, relative rel /\ snap_files s !! below old rel = Some st /\
    q = below new rel /\ v = move_file (below new rel) st) <->
    exists rel st, relative rel /\ (below old rel, st) ∈ hiter (snap_files s) /\
    q = below new rel /\ v = move_file (below new rel) st) as ->
    by (split; intros (rel & st & ? & ? & ?); exists rel, st; by rewrite Hh in * || rewrite <- Hh in *).
  clear Hpl Hh. revert Hnd Ht. generalize (hiter (snap_files s)). intros l.
  induction l as [|[p st] l IH] using rev_ind; intros Hnd Ht.
  { cbn [foldl]. split; [by rewrite lookup_empty|]. intros (? & ? & _ & H & _). by apply not_elem_of_nil in H. }
  rewrite foldl_app. cbn [foldl]. rewrite fmap_app in Hnd. cbn in Hnd.
  apply NoDup_app in Hnd as (Hnd & Hdis & _).
  destruct (Ht p) as (rel & Hr & -> & E); [exists st; set_solver|]. cbv beta. rewrite E.
  assert (forall p', (exists st', (p', st') ∈ l) -> exists rel, relative rel /\ p' = below old rel /\
      default p' (rewrite_single_path p' old old new) = below new rel) as Ht'
    by (intros p' [st' Hp']; apply Ht; exists st'; set_solver).
  destruct (decide (q = below new rel)) as [->|Hq].
  - rewrite lookup_insert_eq. split.
    + intros [= <-]. exists rel, st. set_solver.
    + intros (rel' & st' & _ & [Hin|Hin]%elem_of_app & ->%below_inj & ->).
      * apply elem_of_fst, Hdis in Hin. set_solver.
      * apply list_elem_of_singleton in Hin. by simplify_eq.
  - rewrite lookup_insert_ne by done. rewrite (IH Hnd Ht'). split; intros (rel' & st' & Hr' & Hin & -> & ->).
    + exists rel', st'. set_solver.
    + exists rel', st'. split_and!; try done. apply elem_of_app in Hin as [Hin|Hin]; [done|].
      apply list_elem_of_singleton, pair_equal_spec in Hin as [->%below_inj _]. done.
Qed.

Lemma move_back p q st : Forall (fun h => path h = p) (hunks st) -> move_file p (move_file q st) = st.
Proof.
  intros Hf. destruct st as [b c hs ag acc]. unfold move_file. cbn in *. f_equal.
  rewrite <- list_fmap_compose. rewrite <- (list_fmap_id hs) at 2. apply list_fmap_ext.
  intros i h Hi. apply list_elem_of_lookup_2 in Hi. rewrite Forall_forall in Hf. rewrite <- (Hf h Hi).
  by destruct h.
Qed.

(** Moving a snapshot to another directory and back restores it, when its
    files lie below the first directory. *)
Theorem snapshot_transfer_roundtrip old new s :
  placed old s -> rewrite_paths new new old (rewrite_paths old old new s) = s.
Proof.
  intros Hpl. pose proof (rewrite_lookup old new s) as H1.
  assert (placed new (rewrite_paths old old new s)) as Hpn.
  { intros p st (rel & st0 & Hr & _ & -> & ->)%H1; [|done]. split; [by exists rel|]. cbn.
    apply Forall_fmap, Forall_true. done. }
  assert (snap_files (rewrite_paths new new old (rewrite_paths old old new s)) = snap_files s) as E.
  { apply map_eq. intros q. apply option_eq. intros v. rewrite (rewrite_lookup new old _ q v Hpn). split.
    - intros (rel & st & Hr & (rel' & st' & _ & Hs & ->%below_inj & ->)%H1 & -> & ->); [|done].
      rewrite Hs. f_equal. symmetry. apply move_back, (Hpl _ _ Hs).
    - intros Hv. destruct (Hpl _ _ Hv) as [(rel & Hr & ->) Hf].
      exists rel, (move_file (below new rel) v). split_and!; try done; [apply H1; [done|by exists rel, v]|].
      symmetry. by apply move_back. }
  destruct s. unfold rewrite_paths in *. cbn in *. by rewrite E.
Qed.
End patches.

Lemma hunk_data_total_witness :
  exists d, get_file_hunk_data "/w/f" demo_tracker = Some d /\
    Forall (fun h => is_Some (patch h)) (data_hunks d) /\ length (data_hunks d) = 2.
Proof.
  destruct (@hunk_data_total positional_differ (gmap_iter _) true demo_tracker "/w/f" demo_file demo_base
    demo_text demo_reached ltac:(by vm_compute) ltac:(by vm_compute) ltac:(by vm_compute)
    ltac:(by vm_compute) ltac:(by vm_compute)) as (d & E & _ & H & _).
  exists d. split; [exact E|]. split; [exact H|]. revert E. vm_compute. by intros [= <-].
Defined.

Lemma demo_placed : placed "/w" (take_snapshot demo_tracker).
Proof.
  intros p st E.
  assert (snap_files (take_snapshot demo_tracker) = {["/w/f" := demo_file]}) as Es by (by vm_compute).
  rewrite Es in E. apply lookup_singleton_Some in E as [<- <-]. split.
  - exists "f". by vm_compute.
  - vm_compute. by repeat constructor.
Qed.

Lemma snapshot_transfer_roundtrip_witness :
  @rewrite_paths (gmap_iter _) "/v" "/v" "/w" (@rewrite_paths (gmap_iter _) "/w" "/w" "/v" (take_snapshot demo_tracker))
  = take_snapshot demo_tracker /\
  snap_files (@rewrite_paths (gmap_iter _) "/w" "/w" "/v" (take_snapshot demo_tracker)) !! "/w/f" = None.
Proof.
  split; [|by vm_compute]. apply (@snapshot_transfer_roundtrip (gmap_iter _) "/w" "/v"), demo_placed.
Defined.
