(* ===== verification/Compaction.v ===== *)
(** * Compaction of a conversation (ccode-compaction/src)

    The choice of the split point ([select.rs]) and the trigger
    ([intra_compaction/trigger.rs]).  Token counts are [u32] values in [Z];
    lengths and limits of [usize] are [nat]. *)

From S2P Require Import Prelude RustStr TextLines TextFind.

(** ** Items (item.rs) *)

Inductive CompactionRole := System | Developer | User | Assistant | Tool.

#[export] Instance CompactionRole_eq_dec : EqDecision CompactionRole.
Proof. solve_decision. Defined.

Record CompactionFileRef := mkFileRef { ref_id : string; ref_name : string }.

(** The trait [CompactionItem]. *)
Class CompactionItem (T : Type) := {
  role : T -> CompactionRole;
  text : T -> option string;
  has_tool_requests : T -> bool;
  is_compaction_summary : T -> bool;
  attachment_refs : T -> list CompactionFileRef
}.

Definition is_tool_result `{CompactionItem T} (x : T) : bool := bool_decide (role x = Tool).

(** ** Where to split (select.rs) *)

Record SplitPlan := mkPlan { split_idx : nat; tokens_to_compact : Z }.

(** [a.saturating_add(b)] on [u32]. *)
Definition sat_add (a b : Z) : Z := Z.min (a + b) u32_max.
Definition sat_sum (l : list Z) : Z := foldl sat_add 0%Z l.

(** The loop over the counts from the last one: [kept] tokens so far, the items
    from [split] on are kept. *)
Fixpoint walk_back (target : Z) (rev_counts : list Z) (kept : Z) (split : nat) : nat :=
  match rev_counts with
  | [] => split
  | c :: r =>
      if (target <? sat_add kept c)%Z then split
      else walk_back target r (sat_add kept c) (split - 1)
  end.

Section select.
Context `{CI : CompactionItem T}.

Fixpoint tool_run (l : list T) : nat :=
  match l with
  | [] => 0
  | x :: r => if is_tool_result x then S (tool_run r) else 0
  end.

Definition snap_to_safe_boundary (items : list T) (candidate : nat) : nat :=
  if length items <=? candidate then length items
  else candidate + tool_run (drop candidate items).

Definition select_turns_to_compact (counts : list Z) (items : list T) (target min_compactable : Z)
    : option SplitPlan :=
  let total := length items in
  if total =? 0 then None
  else
    let split := walk_back target (reverse counts) 0 total in
    if split =? 0 then None
    else
      let safe := snap_to_safe_boundary items split in
      if total <=? safe then None
      else
        let tokens := sat_sum (take safe counts) in
        if (tokens <? min_compactable)%Z then None else Some (mkPlan safe tokens).

Definition sumZ (l : list Z) : Z := foldr Z.add 0%Z l.

Definition u32s (l : list Z) : Prop := Forall (fun c => 0 <= c <= u32_max)%Z l.

Lemma sumZ_app l k : sumZ (l ++ k) = (sumZ l + sumZ k)%Z.
Proof. induction l as [|x l IH]; cbn; [done|]. unfold sumZ in *. lia. Qed.

Lemma sumZ_nonneg l : u32s l -> (0 <= sumZ l)%Z.
Proof. induction 1 as [|x l Hx _ IH]; cbn; [done|]. unfold sumZ in *. lia. Qed.

(** The sum kept decreases as the split moves on. *)
Lemma suffix_mono l i j : u32s l -> i <= j -> (sumZ (drop j l) <= sumZ (drop i l))%Z.
Proof.
  intros Hl Hij. rewrite <- (take_drop (j - i) (drop i l)). rewrite drop_drop, sumZ_app.
  replace (i + (j - i)) with j by lia.
  assert (0 <= sumZ (take (j - i) (drop i l)))%Z; [|lia].
  apply sumZ_nonneg, Forall_take, Forall_drop, Hl.
Qed.

(** The tokens kept by a split, as the saturating sum counts them. *)
Definition kept_tokens (l : list Z) : Z := Z.min (sumZ l) u32_max.

Lemma kept_mono l i j : u32s l -> i <= j -> (kept_tokens (drop j l) <= kept_tokens (drop i l))%Z.
Proof. intros Hl Hij. pose proof (suffix_mono l i j Hl Hij). unfold kept_tokens. lia. Qed.

Lemma sat_add_kept c l : (0 <= c)%Z -> sat_add (kept_tokens l) c = kept_tokens (c :: l).
Proof. intros Hc. unfold sat_add, kept_tokens. cbn. unfold sumZ. lia. Qed.

(** The walk stops at the first split that fits. *)
Lemma walk_back_spec target pre post :
  u32s (pre ++ post) -> (kept_tokens post <= target)%Z ->
  let k := walk_back target (reverse pre) (kept_tokens post) (length pre) in
  k <= length pre /\ (kept_tokens (drop k (pre ++ post)) <= target)%Z /\
  (forall j, j < k -> (target < kept_tokens (drop j (pre ++ post)))%Z).
Proof.
  revert post. induction pre as [|c pre IH] using rev_ind; intros post Hu Hs k.
  { subst k. cbn. rewrite drop_0. split_and!; [done|done|lia]. }
  subst k. rewrite reverse_snoc, length_app. cbn [walk_back length].
  assert (u32s (pre ++ c :: post)) as Hu' by (by rewrite <- app_assoc in Hu).
  assert (0 <= c <= u32_max)%Z as Hc
    by (apply Forall_app in Hu' as [_ Hp]; by apply Forall_cons in Hp as [? _]).
  rewrite <- app_assoc. cbn [app]. rewrite (sat_add_kept c post) by lia.
  destruct (target <? kept_tokens (c :: post))%Z eqn:E; zbool.
  - rewrite Nat.add_1_r. split_and!; [lia| |].
    + rewrite cons_middle, app_assoc, drop_app_ge by (rewrite length_app; cbn; lia).
      rewrite length_app. cbn [length]. replace (S (length pre) - (length pre + 1)) with 0 by lia. by rewrite drop_0.
    + intros j Hj. apply (Z.lt_le_trans _ (kept_tokens (drop (length pre) (pre ++ c :: post)))).
      * by rewrite drop_app_length.
      * apply kept_mono; [done|lia].
  - rewrite Nat.add_sub. destruct (IH (c :: post)) as (H1 & H2 & H3); [done|lia|]. split_and!; [lia|done|done].
Qed.

(** The next position that does not hold a tool result. *)
Lemma tool_run_spec l :
  (forall j x, j < tool_run l -> l !! j = Some x -> is_tool_result x = true) /\
  (forall x, l !! tool_run l = Some x -> is_tool_result x = false) /\ tool_run l <= length l.
Proof.
  induction l as [|y l (IH1 & IH2 & IH3)]; cbn; [split_and!; [lia|done|done]|].
  destruct (is_tool_result y) eqn:E.
  - split_and!; [|done|lia]. intros [|j] x Hj Hx; cbn in Hx; [by simplify_eq|]. eapply IH1; [|done]. lia.
  - split_and!; [lia| |lia]. intros x [= <-]. done.
Qed.

(** [s] is a place to split: what is kept fits and does not start with a tool
    result. *)
Definition fits_safely (counts : list Z) (items : list T) (target : Z) (s : nat) : Prop :=
  (kept_tokens (drop s counts) <= target)%Z /\
  exists x, items !! s = Some x /\ is_tool_result x = false.

Lemma snap_spec counts items target k :
  u32s counts -> (kept_tokens (drop k counts) <= target)%Z ->
  (forall j, j < k -> (target < kept_tokens (drop j counts))%Z) -> k <= length items ->
  let s := snap_to_safe_boundary items k in
  s <= length items /\ k <= s /\
  (s < length items -> fits_safely counts items target s) /\
  (forall j, j < s -> ~ fits_safely counts items target j).
Proof.
  intros Hu Hk Hj Hl s. subst s. unfold snap_to_safe_boundary.
  destruct (tool_run_spec (drop k items)) as (H1 & H2 & H3). rewrite length_drop in H3.
  assert (forall j, j < k + tool_run (drop k items) -> ~ fits_safely counts items target j) as Hno.
  { intros j Hlt [Hf (x & Hx & Ex)]. destruct (decide (j < k)) as [Hjk|Hjk]; [specialize (Hj _ Hjk); lia|].
    rewrite (H1 (j - k) x) in Ex; [done|lia|]. rewrite lookup_drop. by replace (k + (j - k)) with j by lia. }
  destruct (length items <=? k) eqn:E; zbool.
  - assert (k = length items) as -> by lia. split_and!; [done|done|lia|].
    intros j Hlt. apply Hno. lia.
  - split_and!; [lia|lia| |done]. intros Hs. split.
    + eapply Z.le_trans; [apply kept_mono|exact Hk]; [done|lia].
    + apply lookup_lt_is_Some in Hs as [x Hx]. exists x. split; [done|]. apply H2. by rewrite lookup_drop.
Qed.

(** A split is returned exactly when the whole conversation does not fit the
    target: it is the first position from which the rest fits and does not
    start with a tool result, and the tokens before it, counted with
    saturation, reach the minimum. *)
Theorem select_exact counts items target minc s tokens :
  u32s counts -> length counts = length items -> (0 <= target)%Z ->
  select_turns_to_compact counts items target minc = Some (mkPlan s tokens) <->
  (target < kept_tokens counts)%Z /\ fits_safely counts items target s /\
  (forall j, j < s -> ~ fits_safely counts items target j) /\
  tokens = sat_sum (take s counts) /\ (minc <= tokens)%Z.
Proof.
  intros Hu Hlen Ht. unfold select_turns_to_compact. cbv zeta.
  destruct (walk_back_spec target counts []) as (K1 & K2 & K3); [by rewrite app_nil_r|cbn; unfold kept_tokens, u32_max; cbn; lia|].
  change (kept_tokens []) with 0%Z in *. rewrite app_nil_r, Hlen in *.
  set (k := walk_back target (reverse counts) 0 (length items)) in *.
  destruct (snap_spec counts items target k Hu K2 K3 ltac:(lia)) as (S1 & S2 & S3 & S4).
  set (z := snap_to_safe_boundary items k) in *.
  assert (k = 0 <-> (kept_tokens counts <= target)%Z) as Hk0.
  { split; intros H.
    - rewrite H, drop_0 in K2. done.
    - destruct (decide (k = 0)) as [|Hne]; [done|]. specialize (K3 0 ltac:(lia)). rewrite drop_0 in K3. lia. }
  assert (forall s, fits_safely counts items target s -> s < length items) as Hlt
    by (intros x [_ (y & Hy & _)]; by eapply lookup_lt_Some).
  split.
  - intros E. repeat case_match; simplify_eq. zbool. split_and!; [|by apply S3|done|done|done].
    destruct (decide (target < kept_tokens counts)%Z); [done|]. exfalso. apply H0, Hk0. lia.
  - intros (H1 & H2 & H3 & -> & H5).
    assert (s = z) as ->.
    { pose proof (Hlt s H2). assert (z <= s) by (apply not_gt; intros ?; by apply (S4 s)).
      assert (~ z < s) by (intros ?; apply (H3 z); [done|]; apply S3; lia). lia. }
    rewrite (proj2 (Nat.eqb_neq _ _)) by (pose proof (Hlt _ H2); lia).
    rewrite (proj2 (Nat.eqb_neq _ _)) by (intros E; apply Hk0 in E; lia).
    rewrite (proj2 (Nat.leb_gt _ _)) by (by apply Hlt).
    by rewrite (proj2 (Z.ltb_ge _ _)).
Qed.

(** Every tool result follows a tool result or an item that requests tools. *)
Definition paired (l : list T) : Prop :=
  forall i x, l !! i = Some x -> is_tool_result x = true ->
    exists j y, i = S j /\ l !! j = Some y /\ (is_tool_result y || has_tool_requests y) = true.

Lemma select_head counts items target minc plan :
  select_turns_to_compact counts items target minc = Some plan ->
  exists x, items !! split_idx plan = Some x /\ is_tool_result x = false.
Proof.
  unfold select_turns_to_compact. intros E. repeat case_match; simplify_eq. cbn [split_idx].
  match goal with H : (_ <=? _) = false |- _ => apply Nat.leb_gt in H as Hlt end.
  unfold snap_to_safe_boundary in *. case_match; [lia|].
  apply lookup_lt_is_Some in Hlt as [x Hx]. exists x. split; [done|].
  match type of Hx with items !! (?k + tool_run (drop ?k items)) = _ =>
    apply (proj1 (proj2 (tool_run_spec (drop k items)))) end.
  by rewrite lookup_drop.
Qed.

(** C16.  Splitting a conversation in which every tool result follows its request
    leaves no orphaned tool result in the part that is kept. *)
Theorem select_keeps_pairs counts items target minc plan :
  paired items -> select_turns_to_compact counts items target minc = Some plan ->
  paired (drop (split_idx plan) items) /\ paired (take (split_idx plan) items).
Proof.
  intros Hp E. destruct (select_head _ _ _ _ _ E) as (h & Hh & Hn). split.
  - intros i x Hx Ht. rewrite lookup_drop in Hx. destruct i as [|i].
    { rewrite Nat.add_0_r in Hx. congruence. }
    destruct (Hp _ _ Hx Ht) as (j & y & Hj & Hy & Hr). exists i, y. split_and!; [done| |done].
    rewrite lookup_drop. by replace (split_idx plan + i) with j by lia.
  - intros i x Hx Ht. apply lookup_take_Some in Hx as [Hx Hi].
    destruct (Hp _ _ Hx Ht) as (j & y & -> & Hy & Hr). exists j, y. split_and!; [done| |done].
    apply lookup_take_Some. split; [done|lia].
Qed.
End select.

(** A conversation for evaluation: role and requests. *)
#[export] Instance demo_items : CompactionItem (CompactionRole * bool) := {|
  role := fst; text := fun _ => None; has_tool_requests := snd;
  is_compaction_summary := fun _ => false; attachment_refs := fun _ => []
|}.

Definition demo_conversation : list (CompactionRole * bool) :=
  [(User, false); (Assistant, true); (Tool, false); (Tool, false); (Assistant, false)].

Lemma select_exact_witness :
  select_turns_to_compact [10; 10; 50; 50; 10]%Z demo_conversation 60 5 = Some (mkPlan 4 120) /\
  (60 < kept_tokens [10; 10; 50; 50; 10])%Z.
Proof.
  split; [by vm_compute|].
  refine (proj1 (proj1 (select_exact [10; 10; 50; 50; 10]%Z demo_conversation 60 5 4 120 _ _ _) _)).
  - repeat constructor; vm_compute; congruence.
  - by vm_compute.
  - vm_compute; congruence.
  - by vm_compute.
Defined.

Lemma select_keeps_pairs_witness : paired (drop 4 demo_conversation).
Proof.
  refine (proj1 (select_keeps_pairs [10; 10; 50; 50; 10]%Z demo_conversation 60 5 (mkPlan 4 120) _ _)).
  - intros i x Hx Ht. do 5 (destruct i as [|i]; [cbn in Hx; simplify_eq; try done; by eexists _, _|]). done.
  - by vm_compute.
Defined.

(** ** When to compact (intra_compaction/trigger.rs) *)

Inductive IntraCompactionMode := FullReplace | StepsOnly | HistoryOnly | HistoryThenSteps.

#[export] Instance IntraCompactionMode_eq_dec : EqDecision IntraCompactionMode.
Proof. solve_decision. Defined.

(** The fields of [IntraCompactionConfig] the trigger reads. *)
Record IntraCompactionConfig := mkIntra {
  enabled : bool;
  mode : IntraCompactionMode;
  trigger_threshold_percent : Z;
  min_steps_before_compact : Z
}.

Record IntraCompactionTrigger := mkTrigger {
  last_prompt_tokens : Z;
  context_window : Z;
  percent : Z;
  step : Z
}.

Definition should_compact (policy : IntraCompactionConfig) (last cw current_step : Z)
    : option IntraCompactionTrigger :=
  if negb (enabled policy) then None
  else if (cw =? 0)%Z then None
  else if negb (bool_decide (mode policy = FullReplace)) && (current_step <? min_steps_before_compact policy)%Z
  then None
  else
    let threshold := wrap 32 (cw * trigger_threshold_percent policy / 100) in
    if (last <=? threshold)%Z then None
    else Some (mkTrigger last cw (Z.min (last * 100 / cw) 100) current_step).

(** For a threshold of at most one hundred percent, compaction is triggered
    exactly when it is enabled, the window is not empty, the first steps are
    over (except for a full replacement) and the prompt exceeds the threshold,
    without rounding or overflow; the percentage reported is between the
    threshold and one hundred. *)
Theorem should_compact_exact policy last cw st :
  (0 <= cw <= u32_max)%Z -> (0 <= last <= u32_max)%Z -> (0 <= trigger_threshold_percent policy <= 100)%Z ->
  (is_Some (should_compact policy last cw st) <->
   enabled policy = true /\ (0 < cw)%Z /\
   (mode policy = FullReplace \/ (min_steps_before_compact policy <= st)%Z) /\
   (trigger_threshold_percent policy * cw < 100 * last)%Z) /\
  (forall t, should_compact policy last cw st = Some t ->
    last_prompt_tokens t = last /\ context_window t = cw /\ step t = st /\
    (trigger_threshold_percent policy <= percent t <= 100)%Z).
Proof.
  intros Hcw Hl Hp. unfold should_compact. set (p := trigger_threshold_percent policy) in *.
  assert (0 <= cw * p / 100 <= cw)%Z as Hd.
  { split; [apply Z.div_pos; nia|]. apply Z.div_le_upper_bound; nia. }
  rewrite (wrap_small 32) by (unfold u32_max in *; lia).
  assert (cw * p / 100 < last <-> p * cw < 100 * last)%Z as Hth.
  { pose proof (Z.div_mod (cw * p) 100 ltac:(lia)). pose proof (Z.mod_pos_bound (cw * p) 100 ltac:(lia)). nia. }
  destruct (enabled policy); cbn [negb]; [|split; [split; [by intros []|naive_solver]|done]].
  destruct (cw =? 0)%Z eqn:E0; zbool; [split; [split; [by intros []|lia]|done]|].
  case_bool_decide as Em; cbn [negb andb].
  2: destruct (st <? min_steps_before_compact policy)%Z eqn:Es; zbool;
     [split; [split; [by intros []|intros (_ & _ & [?|?] & _); [done|lia]]|done]|].
  all: destruct (last <=? cw * p / 100)%Z eqn:El; zbool;
    [split; [split; [by intros []|intros (_ & _ & _ & ?); lia]|done]|].
  all: split; [split; [intros _; split_and!; auto; lia|by eexists]|].
  all: intros t [= <-]; cbn; split_and!; try done; [|lia].
  all: apply Z.min_glb; [|lia]; apply Z.div_le_lower_bound; lia.
Qed.

Lemma should_compact_exact_witness :
  is_Some (should_compact (mkIntra true FullReplace 85 3) 85001 100000 0) /\
  should_compact (mkIntra true FullReplace 85 3) 85000 100000 0 = None.
Proof.
  split; [|by vm_compute].
  refine (proj2 (proj1 (should_compact_exact (mkIntra true FullReplace 85 3) 85001 100000 0 _ _ _)) _);
    try (vm_compute; split; congruence).
  split_and!; try done. by left.
Defined.
