(* ===== verification/ToolOutput.v ===== *)
(** * Shrinking tool outputs (ccode-compaction/src)

    The token budget of a tool's output ([budget.rs]), the structural cut
    ([snip.rs]) and the clearing of old results ([micro_compact.rs],
    [cache_aware.rs]), which share a list of compactable tools
    ([compactable.rs]).  A byte slice inside a character panics: [None]. *)

From S2P Require Import Prelude RustStr TextLines TextFind.

(** ** Compactable tools (compactable.rs) *)

Definition COMPACTABLE_TOOLS : list string :=
  ["FileRead"; "Bash"; "Grep"; "Glob"; "WebSearch"; "WebFetch"; "FileEdit"; "FileWrite"; "ListDir";
   "ReadFile"].

Definition is_compactable (tool : string) : bool :=
  existsb (fun t => eq_ignore_ascii_case t tool) COMPACTABLE_TOOLS.

(** [chars / 4] *)
Definition estimate_tokens (s : string) : nat := chars_count s / 4.

(** ** Token budgets (budget.rs) *)

Definition DEFAULT_BUDGETS : list (string * nat) :=
  [("FileRead", Z.to_nat 4000); ("ReadFile", Z.to_nat 4000); ("Bash", Z.to_nat 8000);
   ("Grep", Z.to_nat 4000); ("Glob", Z.to_nat 2000); ("ListDir", Z.to_nat 2000);
   ("WebSearch", Z.to_nat 2000); ("WebFetch", Z.to_nat 4000); ("FileEdit", Z.to_nat 4000);
   ("FileWrite", Z.to_nat 4000)].

Abbreviation ToolBudget := (gmap string nat).

Definition from_defaults : ToolBudget :=
  foldl (fun m '(name, cap) => <[name := cap]> m) ∅ DEFAULT_BUDGETS.
Definition budget_set (tool : string) (cap : nat) (b : ToolBudget) : ToolBudget := <[tool := cap]> b.
Definition limit (b : ToolBudget) (tool : string) : option nat := b !! tool.

Inductive BudgetResult := Within | Over (cap overage : nat) | NotApplicable.

Definition budget_check (b : ToolBudget) (tool : string) (output_tokens : nat) : BudgetResult :=
  if negb (is_compactable tool) then NotApplicable
  else match limit b tool with
       | Some cap => if cap <? output_tokens then Over cap (output_tokens - cap) else Within
       | None => Within
       end.

Record TruncateResult := mkTruncate {
  t_output : string;
  original_tokens : nat;
  saved_tokens : nat;
  truncated : bool
}.

Definition unchanged (output : string) : TruncateResult :=
  mkTruncate output (estimate_tokens output) 0 false.

Definition truncated_note (saved : nat) : string := "[truncated, " +:+ show saved +:+ " tokens saved]".

Definition truncate (b : ToolBudget) (tool output : string) : option TruncateResult :=
  let est_tokens := estimate_tokens output in
  match budget_check b tool est_tokens with
  | Within | NotApplicable => Some (unchanged output)
  | Over cap _ =>
      let keep_chars := cap / 2 * 4 in
      let len := String.length output in
      if len <=? keep_chars * 2 then Some (unchanged output)
      else
        head ← slice_to output (keep_chars `min` len);
        tail ← slice_from output ((len - keep_chars) `max` keep_chars);
        let saved := est_tokens - cap in
        Some (mkTruncate (head +:+ str1 nl +:+ truncated_note saved +:+ str1 nl +:+ tail) est_tokens saved true)
  end.

(** ** Structural cuts (snip.rs) *)

Record SnipConfig := mkSnip {
  file_read_max_lines : nat;
  bash_max_chars : nat;
  grep_max_matches : nat;
  glob_max_entries : nat;
  list_dir_max_entries : nat;
  web_max_chars : nat
}.

Definition SnipConfig_default : SnipConfig :=
  mkSnip (Z.to_nat 2000) (Z.to_nat 10000) 500 1000 1000 (Z.to_nat 10000).

Definition truncated_result (original output : string) : TruncateResult :=
  let o := estimate_tokens original in
  mkTruncate output o (o - estimate_tokens output) true.

Definition omitted_note (omitted : nat) (unit : string) : string :=
  "[... " +:+ show omitted +:+ " " +:+ unit +:+ " omitted ...]".

(** The first and the last [max / 2] elements of a longer list. *)
Definition snip_head {A} (max : nat) (l : list A) : list A := take ((max / 2) `min` length l) l.
Definition snip_tail {A} (max : nat) (l : list A) : list A :=
  drop ((length l - max / 2) `max` (max / 2)) l.
Definition snip_omitted {A} (max : nat) (l : list A) : nat :=
  length l - length (snip_head max l) - length (snip_tail max l).

Definition snip_lines (output : string) (max : nat) (unit : string) : TruncateResult :=
  if max =? 0 then unchanged output
  else
    let ls := lines output in
    if length ls <=? max then unchanged output
    else truncated_result output
           (join_str (str1 nl) (snip_head max ls) +:+ str1 nl +:+ omitted_note (snip_omitted max ls) unit +:+
            str1 nl +:+ join_str (str1 nl) (snip_tail max ls)).

Definition snip_chars (output : string) (max : nat) (unit : string) : option TruncateResult :=
  let len := String.length output in
  if (max =? 0) || (len <=? max) then Some (unchanged output)
  else
    let keep := max / 2 in
    head ← slice_to output (keep `min` len);
    tail ← slice_from output ((len - keep) `max` keep);
    let omitted := len - String.length head - String.length tail in
    Some (truncated_result output (head +:+ str1 nl +:+ omitted_note omitted unit +:+ str1 nl +:+ tail)).

Definition blank_line : string := String nl (str1 nl).

Definition snip_blocks (output : string) (max : nat) (unit : string) : TruncateResult :=
  if max =? 0 then unchanged output
  else
    let blocks := split_str blank_line output in
    if length blocks <=? max then unchanged output
    else truncated_result output
           (join_str blank_line (snip_head max blocks) +:+ str1 nl +:+
            omitted_note (snip_omitted max blocks) unit +:+ str1 nl +:+
            join_str blank_line (snip_tail max blocks)).

Definition snip (tool output : string) (config : SnipConfig) : option TruncateResult :=
  if negb (is_compactable tool) || bool_decide (output = "") then Some (unchanged output)
  else
    let lower := to_ascii_lowercase tool in
    if str_contains "bash" lower then snip_chars output (bash_max_chars config) "chars"
    else if str_contains "grep" lower then Some (snip_blocks output (grep_max_matches config) "matches")
    else if str_contains "glob" lower || str_contains "list" lower then
      Some (snip_lines output (glob_max_entries config `max` list_dir_max_entries config) "entries")
    else if str_contains "web" lower then snip_chars output (web_max_chars config) "chars"
    else Some (snip_lines output (file_read_max_lines config) "lines").

(** ** Clearing old results (micro_compact.rs) *)

Definition CLEARED_MESSAGE : string := "[Old tool result content cleared]".

Record MicroCompactConfig := mkMicro { max_age : Z; summary_max_chars : nat }.

(** The trait [MicroCompactable]; times in milliseconds. *)
Class MicroCompactable (T : Type) := {
  created_at : T -> Z;
  mc_tool_result : T -> bool;
  tool_name : T -> option string;
  content : T -> string;
  with_content : T -> string -> T
}.

(** What a message type may promise beyond the trait: [with_content] changes
    the content and nothing else. *)
Class MicroLaws (T : Type) `{MicroCompactable T} := {
  content_with : forall m s, content (with_content m s) = s;
  created_with : forall m s, created_at (with_content m s) = created_at m;
  result_with : forall m s, mc_tool_result (with_content m s) = mc_tool_result m;
  name_with : forall m s, tool_name (with_content m s) = tool_name m;
  with_with : forall m s s', with_content (with_content m s) s' = with_content m s'
}.

Section micro.
Context `{MC : MicroCompactable T}.

(** The age is that of [Instant::duration_since], zero for a later instant. *)
Definition stale (config : MicroCompactConfig) (now : Z) (m : T) : bool :=
  mc_tool_result m &&
  match tool_name m with
  | None => false
  | Some name => is_compactable name && (max_age config <? sat_sub now (created_at m))%Z
  end.

Definition summary_of (n : nat) (c : string) : option string :=
  if String.length c <=? n then Some CLEARED_MESSAGE
  else h ← slice_to c n; Some (h +:+ str1 nl +:+ CLEARED_MESSAGE).

Definition micro_compact_message (config : MicroCompactConfig) (now : Z) (m : T) : option T :=
  if stale config now m
  then c ← summary_of (summary_max_chars config) (content m); Some (with_content m c)
  else Some m.

Definition micro_compact_messages (messages : list T) (config : MicroCompactConfig) (now : Z)
    : option (list T) :=
  mapM (micro_compact_message config now) messages.

(** ** Cache-aware clearing (cache_aware.rs) *)

Definition CacheAwareState : Type := gset string.

Record CachedMicroCompactResult := mkCached {
  c_items : list T;
  cache_edits : list string;
  skipped : nat
}.

(** The loop over the messages: what to compact, the edits, the messages
    skipped and the state. *)
Definition cache_step (fingerprint : T -> option string)
    (acc : list T * list string * nat * CacheAwareState) (m : T)
    : list T * list string * nat * CacheAwareState :=
  let '(to_compact, edits, skip, state) := acc in
  match fingerprint m with
  | Some fp =>
      if bool_decide (fp ∈ state) then (to_compact ++ [m], edits, skip + 1, state)
      else (to_compact ++ [m], edits ++ [fp], skip, {[fp]} ∪ state)
  | None => (to_compact ++ [m], edits, skip, state)
  end.

Definition cached_micro_compact (messages : list T) (config : MicroCompactConfig) (now : Z)
    (state : CacheAwareState) (fingerprint : T -> option string)
    : option CachedMicroCompactResult * CacheAwareState :=
  let '(to_compact, edits, skip, state) :=
    foldl (cache_step fingerprint) ([], [], 0, state) messages in
  ((items ← micro_compact_messages to_compact config now; Some (mkCached items edits skip)), state).
End micro.

(** [fold_hash]: FNV-1a on 64 bits, as sixteen hexadecimal digits. *)
Fixpoint fnv1a (h : Z) (s : string) : Z :=
  match s with
  | EmptyString => h
  | String c r => fnv1a (u64_mul (Z.lxor h (Z.of_N (N_of_ascii c))) 1099511628211) r
  end.

Definition hex_digit (d : Z) : ascii :=
  ascii_of_N (Z.to_N (if (d <? 10)%Z then 48 + d else 87 + d)).

Fixpoint hex_digits (n : nat) (h : Z) : string :=
  match n with
  | O => EmptyString
  | S k => hex_digits k (Z.shiftr h 4) +:+ str1 (hex_digit (Z.land h 15))
  end.

Definition fold_hash (s : string) : string := hex_digits 16 (fnv1a 14695981039346656037 s).

Definition default_fingerprint `{MicroCompactable T} (m : T) : option string :=
  if mc_tool_result m then
    tool ← tool_name m; Some (tool +:+ ":" +:+ fold_hash (chars_take 64 (content m)))
  else None.

(** ** Properties of the token budget *)

Lemma chars_count_app s t : chars_count (s +:+ t) = chars_count s + chars_count t.
Proof.
  induction s as [|a s IH]; [by rewrite str_app_nil_l|]. rewrite str_app_cons. cbn [chars_count].
  rewrite IH. lia.
Qed.

Lemma budget_over b tool n cap o :
  budget_check b tool n = Over cap o ->
  is_compactable tool = true /\ limit b tool = Some cap /\ cap < n.
Proof.
  unfold budget_check. destruct (is_compactable tool); [|done]. cbn [negb]. destruct (limit b tool) as [c|]; [|done].
  destruct (c <? n) eqn:E; [|done]. zbool. by intros [= <- <-].
Qed.

(** The text between a head and a tail of [k] bytes each. *)
Lemma cut_middle k s :
  2 * k <= String.length s ->
  exists m, s = str_take k s +:+ m +:+ str_drop (String.length s - k) s.
Proof.
  intros Hk. exists (str_take (String.length s - k - k) (str_drop k s)).
  assert (forall n m x, str_drop n (str_drop m x) = str_drop (m + n) x) as Hdd.
  { intros n m. induction m as [|m IH]; intros [|a x]; cbn; auto. by destruct n. }
  rewrite <- (str_take_drop k s) at 1. f_equal.
  rewrite <- (str_take_drop (String.length s - k - k) (str_drop k s)) at 1. f_equal.
  rewrite Hdd. f_equal. lia.
Qed.

(** An output that is not cut is returned as it is; one that is cut exceeded
    the budget of its tool and keeps its first and its last bytes, [cap / 2]
    tokens of four bytes each, which are at most [cap] tokens; for an ASCII
    output the cut always succeeds. *)
Theorem budget_truncate_spec b tool out :
  (is_ascii out = true -> is_Some (truncate b tool out)) /\
  forall r, truncate b tool out = Some r ->
    r = unchanged out \/
    exists cap h m t, limit b tool = Some cap /\ cap < estimate_tokens out /\
      out = h +:+ m +:+ t /\ String.length h = cap / 2 * 4 /\ String.length t = cap / 2 * 4 /\
      estimate_tokens h + estimate_tokens t <= cap /\
      t_output r = h +:+ str1 nl +:+ truncated_note (saved_tokens r) +:+ str1 nl +:+ t /\
      saved_tokens r = estimate_tokens out - cap.
Proof.
  unfold truncate. destruct (budget_check b tool (estimate_tokens out)) as [|cap o|] eqn:E;
    [split; [intros _; by eexists|]; intros r [= <-]; by left| |split; [intros _; by eexists|]; intros r [= <-]; by left].
  destruct (budget_over _ _ _ _ _ E) as (_ & Hl & Hc). cbv zeta.
  destruct (String.length out <=? cap / 2 * 4 * 2) eqn:El; zbool; [split; [intros _; by eexists|]; intros r [= <-]; by left|].
  set (k := cap / 2 * 4) in *. rewrite (Nat.min_l k), (Nat.max_l _ k) by lia.
  unfold slice_to, slice_from. split.
  - intros Ha. by rewrite !(ascii_boundary out) by (done || lia).
  - destruct (is_char_boundary out k); [|done]. destruct (is_char_boundary out (_ - k)); [|done]. cbn [mbind option_bind].
    intros r [= <-]. right. destruct (cut_middle k out) as [m Hm]; [lia|].
    exists cap, (str_take k out), m, (str_drop (String.length out - k) out).
    assert (String.length (str_take k out) = k) as H1 by (rewrite length_str_take; lia).
    assert (String.length (str_drop (String.length out - k) out) = k) as H2 by (rewrite length_str_drop; lia).
    split_and!; try done. unfold estimate_tokens.
    pose proof (chars_count_le (str_take k out)). pose proof (chars_count_le (str_drop (String.length out - k) out)).
    assert (k / 4 = cap / 2) as Hk4 by (unfold k; by rewrite Nat.div_mul).
    pose proof (Nat.div_mod_eq cap 2).
    assert (chars_count (str_take k out) / 4 <= k / 4) by (apply Nat.Div0.div_le_mono; lia).
    assert (chars_count (str_drop (String.length out - k) out) / 4 <= k / 4) by (apply Nat.Div0.div_le_mono; lia).
    lia.
Qed.

(** A text of two-byte characters after one byte. *)
Fixpoint accents (n : nat) : string :=
  match n with
  | O => EmptyString
  | S k => String "195" (String "169" (accents k))
  end.

Lemma length_accents n : String.length (accents n) = 2 * n.
Proof. induction n as [|n IH]; [done|]. cbn [accents String.length]. lia. Qed.
Lemma chars_count_accents n : chars_count (accents n) = n.
Proof. induction n as [|n IH]; [done|]. cbn [accents chars_count]. by rewrite IH. Qed.
Lemma utf8_accents n : utf8_valid (accents n) = true.
Proof. by induction n. Qed.

Lemma accents_inside k n : k < n -> exists r, str_drop (2 * k + 1) (accents n) = String "169" r.
Proof.
  revert n. induction k as [|k IH]; intros [|n] Hk; try lia; [by exists (accents n)|].
  destruct (IH n) as [r Hr]; [lia|]. exists r. rewrite <- Hr.
  by replace (2 * S k + 1) with (S (S (2 * k + 1))) by lia.
Qed.

(** Whatever the budget of a compactable tool, there is a valid UTF-8 output
    on which the cut falls inside a character and the truncation panics. *)
Theorem budget_truncate_panics b tool cap :
  is_compactable tool = true -> limit b tool = Some cap -> 2 <= cap ->
  exists out, utf8_valid out = true /\ truncate b tool out = None.
Proof.
  intros Ht Hl Hc. exists (String "a" (accents (4 * cap + 4))). split; [apply utf8_accents|].
  set (n := 4 * cap + 4). assert (chars_count (String "a" (accents n)) = S n) as Hn
    by (cbn [chars_count]; by rewrite chars_count_accents).
  assert (cap < estimate_tokens (String "a" (accents n))) as Hov.
  { unfold estimate_tokens. rewrite Hn. apply Nat.div_le_lower_bound; lia. }
  unfold truncate, budget_check. rewrite Ht, Hl. cbn [negb]. rewrite (proj2 (Nat.ltb_lt _ _) Hov). cbv zeta.
  assert (String.length (String "a" (accents n)) = 2 * n + 1) as Hlen
    by (cbn [String.length]; rewrite length_accents; lia).
  rewrite Hlen. pose proof (Nat.div_mod_eq cap 2). pose proof (Nat.mod_upper_bound cap 2 ltac:(lia)).
  assert (1 <= cap / 2) by (apply Nat.div_le_lower_bound; lia).
  rewrite (proj2 (Nat.leb_gt _ _)), Nat.min_l by lia.
  unfold slice_to, is_char_boundary. rewrite (proj2 (Nat.eqb_neq _ _)), Hlen, (proj2 (Nat.ltb_ge _ _)) by lia.
  destruct (accents_inside (cap / 2 * 2 - 1) n) as [r Hr]; [lia|].
  replace (cap / 2 * 4) with (S (2 * (cap / 2 * 2 - 1) + 1)) by lia. cbn [str_drop]. by rewrite Hr.
Qed.

Lemma budget_truncate_panics_witness : exists out, utf8_valid out = true /\ truncate from_defaults "Bash" out = None.
Proof.
  apply (budget_truncate_panics from_defaults "Bash" (Z.to_nat 8000)); [by vm_compute..|].
  apply Nat.leb_le. by vm_compute.
Defined.

(** ** Properties of structural cuts *)

(** What a cut keeps of a list of lines or blocks. *)
Lemma snip_parts {A} max (l : list A) :
  max < length l ->
  snip_head max l = take (max / 2) l /\ snip_tail max l = drop (length l - max / 2) l /\
  length (snip_head max l) = max / 2 /\ length (snip_tail max l) = max / 2 /\
  snip_omitted max l = length l - 2 * (max / 2).
Proof.
  intros Hm. pose proof (Nat.div_mod_eq max 2).
  assert (snip_head max l = take (max / 2) l) as H1 by (unfold snip_head; by rewrite Nat.min_l by lia).
  assert (snip_tail max l = drop (length l - max / 2) l) as H2 by (unfold snip_tail; by rewrite Nat.max_l by lia).
  unfold snip_omitted. rewrite H1, H2, length_take, length_drop. split_and!; try done; lia.
Qed.

(** ** Properties of clearing *)

(** A summary is its own summary. *)
Lemma summary_stable n c c' :
  String.length CLEARED_MESSAGE <= n -> summary_of n c = Some c' -> summary_of n c' = Some c'.
Proof.
  intros Hn. unfold summary_of. destruct (String.length c <=? n) eqn:E; zbool.
  - intros [= <-]. by rewrite (proj2 (Nat.leb_le _ _) Hn).
  - unfold slice_to. destruct (is_char_boundary c n); [|done]. cbn [mbind option_bind]. intros [= <-].
    assert (String.length (str_take n c) = n) as Hl by (rewrite length_str_take; lia).
    set (h := str_take n c) in *. rewrite length_str_app, Hl.
    rewrite (proj2 (Nat.leb_gt _ _)) by (rewrite length_str_app; cbn [String.length str1]; lia).
    unfold is_char_boundary. rewrite length_str_app, Hl, (proj2 (Nat.ltb_ge _ n)) by lia.
    rewrite <- Hl, str_drop_app, str_take_app. by destruct (String.length h =? 0).
Qed.

Section clearing.
Context `{MC : MicroCompactable T} {ML : MicroLaws T}.

Lemma stale_with config now m c : stale config now (with_content m c) = stale config now m.
Proof. unfold stale. by rewrite result_with, name_with, created_with. Qed.

(** Clearing is idempotent when the summary may be as long as the marker:
    clearing a cleared conversation again at the same instant succeeds and
    changes nothing. *)
Theorem micro_compact_idempotent messages config now out :
  String.length CLEARED_MESSAGE <= summary_max_chars config ->
  micro_compact_messages messages config now = Some out ->
  micro_compact_messages out config now = Some out.
Proof.
  intros Hn. unfold micro_compact_messages. revert out.
  induction messages as [|m l IH]; intros out E; cbn [mapM] in E; [by injection E as <-|].
  destruct (micro_compact_message config now m) as [m'|] eqn:Em; [|done]. cbn in E.
  destruct (mapM _ l) as [l'|] eqn:El; [|done]. injection E as <-.
  cbn [mapM]. rewrite (IH _ eq_refl).
  assert (micro_compact_message config now m' = Some m') as ->; [|done].
  unfold micro_compact_message in *. destruct (stale config now m) eqn:Es; [|simplify_eq; by rewrite Es].
  destruct (summary_of _ (content m)) as [c|] eqn:Ec; [|done]. cbn [mbind option_bind] in Em. simplify_eq.
  rewrite stale_with, Es, content_with, (summary_stable _ _ _ Hn Ec). cbn [mbind option_bind].
  by rewrite with_with.
Qed.

End clearing.

Section caching.
Context `{MC : MicroCompactable T}.

(** The cache of fingerprints has no effect on the messages: whatever was
    recorded, all messages are cleared as without it; only the edits reported
    and the recorded fingerprints depend on it. *)
Theorem cached_compact_ignores_cache messages config now state fp :
  c_items <$> (cached_micro_compact messages config now state fp).1 = micro_compact_messages messages config now /\
  (cached_micro_compact messages config now state fp).2 = state ∪ list_to_set (omap fp messages).
Proof.
  unfold cached_micro_compact.
  assert (forall acc edits skip st,
    let '(to_compact, _, _, st') := foldl (cache_step fp) (acc, edits, skip, st) messages in
    to_compact = acc ++ messages /\ st' = st ∪ list_to_set (omap fp messages)) as Hf.
  { induction messages as [|m l IH]; intros acc edits skip st; cbn [foldl omap list_omap].
    - rewrite app_nil_r. split; [done|]. cbn. set_solver.
    - unfold cache_step at 2. destruct (fp m) as [x|] eqn:Ex; [case_bool_decide|]; cbn;
      match goal with |- context [foldl (cache_step fp) (?a, ?e, ?k, ?s) l] =>
        specialize (IH a e k s); destruct (foldl (cache_step fp) (a, e, k, s) l) as [[[??]?]?] end;
      destruct IH as [-> ->]; rewrite <- app_assoc; rewrite ?Ex; cbn; (split; [done|]); try set_solver. }
  specialize (Hf [] [] 0 state).
  destruct (foldl (cache_step fp) ([], [], 0, state) messages) as [[[tc ed] sk] st']. destruct Hf as [-> ->].
  cbn [fst snd app]. split; [|done]. by destruct (micro_compact_messages messages config now).
Qed.
End caching.

(** Messages for evaluation: creation time, tool and content. *)
#[export] Instance demo_messages : MicroCompactable (Z * string * string) := {|
  created_at := fun m => m.1.1; mc_tool_result := fun _ => true; tool_name := fun m => Some m.1.2;
  content := snd; with_content := fun m s => (m.1, s)
|}.
#[export] Program Instance demo_laws : MicroLaws (Z * string * string).
Solve All Obligations with by intros [[??]?].

Lemma micro_compact_idempotent_witness :
  let config := mkMicro 300000 200 in
  exists out, micro_compact_messages [(0%Z, "Bash", "ok"); (0%Z, "Task", "kept")] config 400000 = Some out /\
    micro_compact_messages out config 400000 = Some out.
Proof.
  eexists. split; [by vm_compute|].
  apply (micro_compact_idempotent [(0%Z, "Bash", "ok"); (0%Z, "Task", "kept")]).
  - apply Nat.leb_le. by vm_compute.
  - by vm_compute.
Defined.
