(* ===== verification/CompactSummary.v ===== *)
(** * Cleaning a compaction summary (ccode-compaction/src/code_compaction)

    [summary.rs] turns the raw answer of the summarising model into the text
    that seeds the next turn: drafting blocks are removed, the outer wrapper is
    unwrapped, and control tokens still quoted in the body are defused.
    [failure.rs] decides whether a failed call is worth retrying. *)

From S2P Require Import Prelude RustStr TextLines TextFind.

(** ** [str] operations *)

(** [s.rfind(needle)]: the last byte position. *)
Fixpoint rfind_str (needle s : string) : option nat :=
  match s with
  | EmptyString => if starts_with needle s then Some 0 else None
  | String _ s' =>
      match rfind_str needle s' with
      | Some n => Some (S n)
      | None => if starts_with needle s then Some 0 else None
      end
  end.

(** [s.trim_start_matches(chars)] *)
Fixpoint trim_start_chars (set : list ascii) (s : string) : string :=
  match s with
  | EmptyString => EmptyString
  | String c s' => if bool_decide (c ∈ set) then trim_start_chars set s' else s
  end.

Definition starts_with_digit (s : string) : bool :=
  match s with String c _ => byte_in 48 57 c | EmptyString => false end.

(** ** Cleaning (summary.rs) *)

Definition A_OPEN : string := "<analysis>".
Definition A_CLOSE : string := "</analysis>".
Definition S_OPEN : string := "<summary>".
Definition S_CLOSE : string := "</summary>".

Definition is_blank (s : string) : bool := bool_decide (trim s = "").

(** One turn of the loop that peels leading drafting blocks: the new text and
    whether to go on; [None] leaves the loop. *)
Definition peel_analysis (s : string) : option (string * bool) :=
  start ← find_str A_OPEN s;
  let is_leading :=
    match find_str S_OPEN s with
    | Some sp => (start <? sp) || is_blank (slice s (sp + String.length S_OPEN) start)
    | None => is_blank (str_take start s)
    end in
  if negb is_leading then None
  else match find_str A_CLOSE (str_drop start s) with
       | Some rel => Some (str_take start s +:+ str_drop (start + rel + String.length A_CLOSE) s, true)
       | None =>
           let drop_to := match find_str S_OPEN (str_drop start s) with
                          | Some rel => start + rel
                          | None => String.length s
                          end in
           Some (str_take start s +:+ str_drop drop_to s, false)
       end.

Fixpoint peel_loop (fuel : nat) (s : string) : string :=
  match fuel with
  | O => s
  | S f => match peel_analysis s with
           | None => s
           | Some (s', true) => peel_loop f s'
           | Some (s', false) => s'
           end
  end.

Definition strip_leading_scratchpad (inner : string) : string :=
  let s := trim inner in
  let lead := trim_start_chars ["#"; "*"; "-"; ">"; " "; "009"]%char s in
  let s := if starts_with_digit lead then s
           else match rfind_str A_CLOSE s with
                | Some pos => trim_start (str_drop (pos + String.length A_CLOSE) s)
                | None => s
                end in
  if starts_with S_OPEN s then trim_start (str_drop (String.length S_OPEN) s) else s.

Definition unwrap_summary (s : string) : string :=
  match find_str S_OPEN s, rfind_str S_CLOSE s with
  | Some start, Some stop =>
      if start <? stop then
        let inner := strip_leading_scratchpad (trim (slice s (start + String.length S_OPEN) stop)) in
        str_take start s +:+ "Summary:" +:+ str1 nl +:+ inner +:+ str_drop (stop + String.length S_CLOSE) s
      else s
  | _, _ => s
  end.

(** U+200B, the zero-width space inserted after the bracket. *)
Definition ZWSP : string := String "226" (String "128" (str1 "139")).

Definition defuse (rest : string) (s : string) : string :=
  str_replace (String "<" rest) (String "<" (ZWSP +:+ rest)) s.

Definition control_tokens : list string :=
  ["/summary>"; "summary>"; "/analysis>"; "analysis>"; "/summary_request>"; "summary_request>"].

Definition neutralize_compaction_control_tokens (s : string) : string :=
  foldl (fun s rest => defuse rest s) s control_tokens.

Definition nl2 : string := String nl (str1 nl).
Definition nl3 : string := String nl nl2.

Fixpoint collapse_blank (fuel : nat) (s : string) : string :=
  match fuel with
  | O => s
  | S f => if str_contains nl3 s then collapse_blank f (str_replace nl3 nl2 s) else s
  end.

(** Every pass of either loop shortens the text, so its length is enough
    fuel. *)
Definition format_compact_summary (summary : string) : string :=
  let s := peel_loop (String.length summary) summary in
  let s := neutralize_compaction_control_tokens (unwrap_summary s) in
  trim (collapse_blank (String.length s) s).

Definition MIN_SUMMARY_SEED_CHARS : nat := 500.

Definition is_degenerate_summary (raw : string) : bool :=
  chars_count (format_compact_summary raw) <? MIN_SUMMARY_SEED_CHARS.

Definition format_compact_summary_content (raw : string) : string :=
  "This session is being continued from a previous conversation that ran out of context. The summary below covers the earlier portion of the conversation."
  +:+ nl2 +:+ format_compact_summary raw.

Definition wrap_user_query (t : string) : string :=
  "<user_query>" +:+ str1 nl +:+ t +:+ str1 nl +:+ "</user_query>".

(** ** Failures (failure.rs) *)

Inductive FailureKind := Deterministic | Transient.

Definition is_context_length_error (message : string) : bool :=
  let m := to_ascii_lowercase message in
  str_contains "too long for this model" m || str_contains "prompt is too long" m
  || str_contains "maximum prompt length" m || str_contains "maximum context length" m
  || str_contains "context_length_exceeded" m.

Definition client_error (status : Z) : bool :=
  (400 <=? status)%Z && (status <? 500)%Z && negb (status =? 408)%Z && negb (status =? 429)%Z.

Definition classify_http_status (status : Z) (message : string) : FailureKind :=
  if is_context_length_error message || client_error status then Deterministic else Transient.

Definition classify_stream_event_error (code : option string) (message : string) : FailureKind :=
  if bool_decide (code = Some "invalid_request_error") || str_contains "invalid_request_error" message
  then Deterministic
  else if match code ≫= parse_u16 with Some status => client_error status | None => false end
  then Deterministic
  else if is_context_length_error message then Deterministic
  else Transient.

(** ** Defusing leaves no control token *)


Fixpoint str_forall (p : ascii -> bool) (s : string) : bool :=
  match s with
  | EmptyString => true
  | String c s' => p c && str_forall p s'
  end.

(** Occurrences of texts over a set of characters in [s] are occurrences in
    [t], at the front and anywhere. *)
Definition front_into (p : ascii -> bool) (s t : string) : Prop :=
  forall u, str_forall p u = true -> starts_with u s = true -> starts_with u t = true.
Definition occurs_into (p : ascii -> bool) (s t : string) : Prop :=
  forall u, str_forall p u = true -> u <> "" -> str_contains u s = true -> str_contains u t = true.

Lemma front_into_app p y s t : front_into p s t -> front_into p (y +:+ s) (y +:+ t).
Proof.
  intros H. induction y as [|c y IH]; [done|]. intros [|d u] Hu; [done|].
  rewrite !str_app_cons. cbn [starts_with str_forall] in *. apply andb_true_iff in Hu as [_ Hu].
  rewrite !andb_true_iff. intros [Hd Hs]. split; [done|]. by apply IH.
Qed.

Lemma contains_cons u c s : str_contains u (String c s) = starts_with u (String c s) || str_contains u s.
Proof. done. Qed.

Lemma occurs_into_app p y s t :
  front_into p s t -> occurs_into p s t -> occurs_into p (y +:+ s) (y +:+ t).
Proof.
  intros Hf Ho. induction y as [|c y IH]; [done|]. intros u Hu Hne.
  rewrite !str_app_cons, !contains_cons, !orb_true_iff. intros [H|H].
  - left. rewrite <- str_app_cons in *. by apply (front_into_app p _ s t Hf u Hu).
  - right. by apply IH.
Qed.

Lemma contains_app_r u y s : str_contains u s = true -> str_contains u (y +:+ s) = true.
Proof. induction y as [|c y IH]; [done|]. intros H. rewrite str_app_cons, contains_cons. by rewrite IH, orb_true_r. Qed.

(** Induction along a replacement. *)
Lemma replace_ind from (P : string -> Prop) :
  from <> "" -> P "" -> (forall r, P r -> P (from +:+ r)) ->
  (forall c s, starts_with from (String c s) = false -> P s -> P (String c s)) -> forall s, P s.
Proof.
  intros Hne H0 Hm Ho s. remember (String.length s) as n. revert s Heqn.
  induction (lt_wf n) as [n _ IH]. intros s ->. destruct s as [|c s]; [done|].
  destruct (starts_with from (String c s)) eqn:E.
  - apply starts_with_spec in E as [r Hr]. rewrite Hr. apply Hm. apply (IH (String.length r)); [|done].
    rewrite Hr, length_str_app. destruct from; [done|]. cbn [String.length]. lia.
  - apply Ho; [done|]. apply (IH (String.length s)); [cbn; lia|done].
Qed.

Section replacement.
Context (p : ascii -> bool) (from to : string).
Hypothesis from_ne : from <> "".
Hypothesis to_front : forall z w, front_into p (to +:+ z) (from +:+ w).
Hypothesis to_occurs : forall z, occurs_into p (to +:+ z) (from +:+ z).

Lemma replace_front s : front_into p (str_replace from to s) s.
Proof.
  revert s. apply (replace_ind from); [done|by intros u|intros r IH|intros c s Hn IH].
  - rewrite replace_match by done. apply to_front.
  - rewrite str_replace_other by done. apply (front_into_app p (String c "")), IH.
Qed.

Lemma replace_occurs s : occurs_into p (str_replace from to s) s.
Proof.
  revert s. apply (replace_ind from); [done|by intros u|intros r IH|intros c s Hn IH].
  - rewrite replace_match by done. intros u Hu Hne H.
    apply (occurs_into_app p from (str_replace from to r) r (replace_front r) IH u Hu Hne).
    by apply to_occurs.
  - rewrite str_replace_other by done. apply (occurs_into_app p (String c "")); [apply replace_front|apply IH].
Qed.
End replacement.

(** ** Defused tokens *)

Definition ascii7 (c : ascii) : bool := byte_in 0 127 c.

(** A token's text after the bracket: ASCII without another bracket. *)
Definition token (rest : string) : bool := str_forall (fun c => ascii7 c && negb (bool_decide (c = "<"%char))) rest.

Lemma defuse_front rest z w : front_into ascii7 (String "<" (ZWSP +:+ rest) +:+ z) (String "<" rest +:+ w).
Proof.
  intros [|c [|d u]] Hu; [done| |].
  - rewrite !str_app_cons. cbn. by rewrite !andb_true_r.
  - unfold ZWSP. rewrite !str_app_cons. cbn [starts_with str_forall] in *.
    rewrite !andb_true_iff, !bool_decide_eq_true. intros (_ & -> & _).
    by rewrite !andb_true_iff in Hu; destruct Hu as (_ & ? & _).
Qed.

Lemma zwsp_skip u z :
  str_forall ascii7 u = true -> u <> "" -> str_contains u (ZWSP +:+ z) = true -> str_contains u z = true.
Proof.
  intros Hu Hne. destruct u as [|c u]; [done|]. cbn [str_forall] in Hu. apply andb_true_iff in Hu as [Hc _].
  unfold ZWSP, str1. rewrite !str_app_cons, str_app_nil_l, !contains_cons, !orb_true_iff. cbn [starts_with].
  rewrite !andb_true_iff, !bool_decide_eq_true.
  intros [[-> _]|[[-> _]|[[-> _]|H]]]; done.
Qed.

Lemma defuse_occurs rest z : occurs_into ascii7 (String "<" (ZWSP +:+ rest) +:+ z) (String "<" rest +:+ z).
Proof.
  intros u Hu Hne. pose proof (defuse_front rest z z u Hu) as Hf. rewrite !str_app_cons, str_app_assoc in *.
  rewrite !contains_cons, !orb_true_iff. intros [H|H]; [left; by apply Hf|right; by apply zwsp_skip].
Qed.

(** Defusing a token creates no occurrence of an ASCII text, and removes all
    occurrences of the token. *)
Lemma defuse_into rest s : occurs_into ascii7 (defuse rest s) s.
Proof. apply replace_occurs; [done|apply defuse_front|apply defuse_occurs]. Qed.

Lemma no_bracket_skip rest y z :
  token y = true -> str_contains (String "<" rest) (y +:+ z) = true -> str_contains (String "<" rest) z = true.
Proof.
  induction y as [|c y IH]; [done|]. unfold token. cbn [str_forall].
  rewrite !andb_true_iff, negb_true_iff, bool_decide_eq_false.
  intros [[_ Hc] Hy]. rewrite str_app_cons, contains_cons, orb_true_iff. intros [H|H]; [|by apply IH].
  cbn [starts_with] in H. apply andb_true_iff in H as [H _]. apply bool_decide_eq_true in H. congruence.
Qed.

Lemma token_ascii rest : token rest = true -> str_forall ascii7 rest = true.
Proof.
  induction rest as [|c r IH]; [done|]. unfold token in *. cbn [str_forall]. rewrite !andb_true_iff.
  intros [[? _] ?]. auto.
Qed.

Lemma defuse_removes rest s :
  rest <> "" -> token rest = true -> str_contains (String "<" rest) (defuse rest s) = false.
Proof.
  intros Hne Ht. apply not_true_is_false. unfold defuse. revert s.
  assert (str_forall ascii7 (String "<" rest) = true) as Ha by (cbn; by apply token_ascii).
  apply (replace_ind (String "<" rest)); [done|done|intros r IH|intros c s Hn IH].
  - rewrite replace_match by done. rewrite str_app_cons, str_app_assoc, contains_cons, orb_true_iff. intros [H|H].
    + unfold ZWSP in H. rewrite str_app_cons in H. destruct rest as [|d rest]; [done|].
      cbn [starts_with] in H. rewrite !andb_true_iff, !bool_decide_eq_true in H. by destruct H as (_ & -> & _).
    + apply zwsp_skip in H; [|done|done]. by apply no_bracket_skip in H.
  - rewrite str_replace_other by done. rewrite contains_cons, orb_true_iff. intros [H|H]; [|done].
    assert (front_into ascii7 (String c (defuse rest s)) (String c s)) as Hf.
    { apply (front_into_app ascii7 (String c "")). apply replace_front; [done|apply defuse_front]. }
    apply (Hf _ Ha) in H. congruence.
Qed.

Lemma occurs_into_trans p s t u : occurs_into p s t -> occurs_into p t u -> occurs_into p s u.
Proof. intros H1 H2 x Hx Hne H. by apply H2, H1. Qed.

Lemma neutralize_into l s : occurs_into ascii7 (foldl (fun s rest => defuse rest s) s l) s.
Proof.
  revert s. induction l as [|r l IH]; intros s; [by intros u|]. cbn [foldl].
  eapply occurs_into_trans; [apply IH|apply defuse_into].
Qed.

Lemma neutralize_removes l s rest :
  Forall (fun r => r <> "" /\ token r = true) l -> rest ∈ l ->
  str_contains (String "<" rest) (foldl (fun s rest => defuse rest s) s l) = false.
Proof.
  intros Hl Hin. revert s. induction Hl as [|r l [Hne Ht] Hl IH]; intros s; [by apply not_elem_of_nil in Hin|].
  cbn [foldl]. apply elem_of_cons in Hin as [->|Hin]; [|by apply IH].
  apply not_true_is_false. intros H. apply neutralize_into in H; [|cbn; by apply token_ascii|done].
  by rewrite defuse_removes in H.
Qed.

(** ** Blank lines *)

Definition no_nl (c : ascii) : bool := negb (bool_decide (c = nl)).

Lemma nl_skip u y z :
  str_forall no_nl u = true -> u <> "" -> str_forall (fun c => bool_decide (c = nl)) y = true ->
  str_contains u (y +:+ z) = true -> str_contains u z = true.
Proof.
  intros Hu Hne. destruct u as [|c u]; [done|]. cbn [str_forall] in Hu. apply andb_true_iff in Hu as [Hc _].
  unfold no_nl in Hc. rewrite negb_true_iff, bool_decide_eq_false in Hc.
  induction y as [|d y IH]; [done|]. cbn [str_forall]. intros [->%bool_decide_eq_true Hy]%andb_true_iff.
  rewrite str_app_cons, contains_cons, orb_true_iff. intros [H|H]; [|by apply IH].
  cbn [starts_with] in H. apply andb_true_iff in H as [H%bool_decide_eq_true _]. done.
Qed.

Lemma blank_front z w : front_into no_nl (nl2 +:+ z) (nl3 +:+ w).
Proof.
  intros [|c u] Hu; [done|]. cbn [str_forall] in Hu. unfold nl2. rewrite str_app_cons. cbn [starts_with].
  rewrite !andb_true_iff, bool_decide_eq_true. intros [-> _]. done.
Qed.

Lemma blank_occurs z : occurs_into no_nl (nl2 +:+ z) (nl3 +:+ z).
Proof. intros u Hu Hne H. apply contains_app_r. by apply (nl_skip u nl2). Qed.

Lemma blank_into s : occurs_into no_nl (str_replace nl3 nl2 s) s.
Proof. apply replace_occurs; [done|apply blank_front|apply blank_occurs]. Qed.

(** A pass over the blank lines shortens the text. *)
Lemma blank_shorter s :
  String.length (str_replace nl3 nl2 s) <= String.length s /\
  (str_contains nl3 s = true -> String.length (str_replace nl3 nl2 s) < String.length s).
Proof.
  revert s. apply (replace_ind nl3); [done|done|intros r [IH _]|intros c s Hn [IH1 IH2]].
  - rewrite replace_match, !length_str_app by done. cbn. lia.
  - rewrite str_replace_other by done. cbn [String.length]. split; [lia|].
    rewrite contains_cons, Hn. intros ?%IH2. lia.
Qed.

Lemma collapse_blank_spec fuel s :
  String.length s <= fuel ->
  str_contains nl3 (collapse_blank fuel s) = false /\ occurs_into no_nl (collapse_blank fuel s) s.
Proof.
  revert s. induction fuel as [|f IH]; intros s Hf; cbn [collapse_blank].
  { destruct s; [|cbn in Hf; lia]. split; [done|by intros u]. }
  destruct (str_contains nl3 s) eqn:E; [|split; [done|by intros u]].
  destruct (blank_shorter s) as [_ H]. specialize (H E).
  destruct (IH (str_replace nl3 nl2 s)) as [H1 H2]; [lia|].
  split; [done|]. eapply occurs_into_trans; [done|apply blank_into].
Qed.

(** ** Trimming *)

Lemma contains_app u l s r : str_contains u s = true -> str_contains u (l +:+ s +:+ r) = true.
Proof. rewrite !str_contains_spec. intros (a & b & ->). exists (l +:+ a), (b +:+ r). by rewrite !str_app_assoc. Qed.

Lemma trim_start_suffix s : exists l, s = l +:+ trim_start s.
Proof.
  unfold trim_start. assert (forall k s, exists l, s = l +:+ trim_start_from k s) as H; [|by apply H].
  intros k t. revert k. induction t as [|c t IH]; intros k; [by exists ""|]. cbn [trim_start_from].
  destruct k as [|k]; [destruct (ws_prefix _) as [|k]; [by exists ""|]|].
  all: destruct (IH k) as [l Hl]; exists (String c l); rewrite str_app_cons; by f_equal.
Qed.

Lemma trim_end_prefix s : exists r, s = trim_end s +:+ r.
Proof.
  induction s as [|c s [r Hr]]; [by exists ""|]. cbn [trim_end]. case_bool_decide; [by eexists|].
  exists r. rewrite str_app_cons. by f_equal.
Qed.

Lemma trim_contains u s : str_contains u (trim s) = true -> str_contains u s = true.
Proof.
  intros H. destruct (trim_start_suffix s) as [l Hl], (trim_end_prefix (trim_start s)) as [r Hr].
  rewrite Hl, Hr. by apply contains_app.
Qed.

(** C33.  A cleaned summary contains no compaction control token, opening or
    closing, and no run of three line feeds, whatever the model wrote. *)
Theorem summary_defused raw :
  Forall (fun rest => str_contains (String "<" rest) (format_compact_summary raw) = false) control_tokens /\
  str_contains nl3 (format_compact_summary raw) = false.
Proof.
  unfold format_compact_summary. set (s := neutralize_compaction_control_tokens _).
  destruct (collapse_blank_spec (String.length s) s) as [Hn Ho]; [done|]. split.
  - apply Forall_forall. intros rest Hin.
    apply not_true_is_false. intros H%trim_contains. apply Ho in H.
    + unfold s, neutralize_compaction_control_tokens in H. rewrite neutralize_removes in H; [done| |done].
      unfold control_tokens. repeat constructor; done.
    + clear H. revert rest Hin. apply Forall_forall. by repeat constructor.
    + done.
  - apply not_true_is_false. intros H%trim_contains. congruence.
Qed.

(** ** Termination of the loops *)

Lemma peel_shorter s s' : peel_analysis s = Some (s', true) -> String.length s' < String.length s.
Proof.
  unfold peel_analysis. destruct (find_str A_OPEN s) as [start|]; [|done]. cbn [mbind option_bind].
  destruct (negb _); [done|]. destruct (find_str A_CLOSE (str_drop start s)) as [rel|] eqn:E; [|done].
  intros [= <-]. destruct (find_str_spec _ _ _ E) as (r & Hr & Hrel).
  assert (String.length (str_drop start s) = rel + 11 + String.length r) as Hl.
  { rewrite Hr. rewrite !length_str_app, length_str_take. rewrite Nat.min_l by done. cbn. lia. }
  rewrite length_str_drop in Hl. rewrite length_str_app, length_str_take, length_str_drop. cbn. lia.
Qed.

(** Both loops of the cleaning stop: with any fuel of at least the length of
    the text they yield the same result, and no run of three line feeds is left
    by the second. *)
Theorem summary_loops_terminate s fuel :
  String.length s <= fuel ->
  peel_loop fuel s = peel_loop (String.length s) s /\
  collapse_blank fuel s = collapse_blank (String.length s) s /\
  str_contains nl3 (collapse_blank fuel s) = false.
Proof.
  intros Hf. split; [|split; [|by apply collapse_blank_spec]].
  - assert (forall n s f, String.length s <= n -> n <= f -> peel_loop f s = peel_loop n s) as H; [|by apply H].
    clear. induction n as [|n IH]; intros s f Hs Hf.
    { destruct s; [|cbn in Hs; lia]. destruct f; [done|]. done. }
    destruct f as [|f]; [lia|]. cbn [peel_loop]. destruct (peel_analysis s) as [[s' []]|] eqn:E; [|done|done].
    apply peel_shorter in E. apply IH; lia.
  - assert (forall n s f, String.length s <= n -> n <= f -> collapse_blank f s = collapse_blank n s) as H; [|by apply H].
    clear. induction n as [|n IH]; intros s f Hs Hf.
    { destruct s; [|cbn in Hs; lia]. by destruct f. }
    destruct f as [|f]; [lia|]. cbn [collapse_blank]. destruct (str_contains nl3 s) eqn:E; [|done].
    destruct (blank_shorter s) as [_ H]. specialize (H E). apply IH; lia.
Qed.

Lemma summary_loops_terminate_witness :
  peel_loop 100 "<analysis>x</analysis><summary>y</summary>" = "<summary>y</summary>".
Proof.
  rewrite (proj1 (summary_loops_terminate "<analysis>x</analysis><summary>y</summary>" 100
    ltac:(apply Nat.leb_le; by vm_compute))). by vm_compute.
Defined.
