(* ===== verification/CompactHistory.v ===== *)
(** * History filters and collapse (ccode-compaction/src)

    [history/filter.rs] selects and rebuilds the items given to the
    summarising model and carries the user's queries from one summary to the
    next; [context_collapse.rs] replaces early turns by a summary;
    [code_compaction/assemble.rs] lays out the rebuilt history.  The model's
    answer and the host's constructors are arguments. *)

From S2P Require Import Prelude RustStr TextLines TextFind Compaction CompactSummary.

(** The trait [CompactionItemBuilder], with the law its documentation states. *)
Class CompactionItemBuilder (T : Type) `{CompactionItem T} := {
  compaction_summary_item : string -> T;
  strip_tool_content : T -> option T;
  summary_item_law : forall s, is_compaction_summary (compaction_summary_item s) = true;
  summary_item_text : forall s, text (compaction_summary_item s) = Some s
}.

(** ** Filters (filter.rs) *)

Definition keep_turn_for_basic_compaction `{CompactionItem T} (x : T) : bool :=
  match role x with
  | System => false
  | Developer => is_compaction_summary x
  | _ => true
  end.

Definition filter_turns_for_basic `{CompactionItem T} (l : list T) : list T :=
  filter (fun x => keep_turn_for_basic_compaction x = true) l.

Definition filter_turns_for_inter_compaction `{CompactionItemBuilder T} (l : list T) : list T :=
  omap (fun x => match role x with
                 | Tool | System => None
                 | Developer => if is_compaction_summary x then Some x else None
                 | User => Some x
                 | Assistant => strip_tool_content x
                 end) l.

(** ** Queries of earlier summaries *)

Definition Q_OPEN : string := "<ccode_user_queries>".
Definition Q_CLOSE : string := "</ccode_user_queries>".

(** [if !rest.is_empty() { rest.push('\n') }; rest.push_str(x)] for a part that
    is not empty. *)
Definition push_rest (rest x : string) : string :=
  if bool_decide (x = "") then rest
  else if bool_decide (rest = "") then x else rest +:+ str1 nl +:+ x.

(** The loop on the text after the cursor; every block takes a byte. *)
Fixpoint split_loop (fuel : nat) (rem : string) (sections : list string) (rest : string)
    : list string * string :=
  match fuel with
  | O => (sections, push_rest rest (trim rem))
  | S f =>
      match find_str Q_OPEN rem with
      | None => (sections, push_rest rest (trim rem))
      | Some start =>
          match find_str Q_CLOSE (str_drop start rem) with
          | None => (sections, push_rest rest (trim rem))
          | Some stop =>
              let len := stop + String.length Q_CLOSE in
              split_loop f (str_drop (start + len) rem)
                (sections ++ [str_take len (str_drop start rem)])
                (push_rest rest (trim (str_take start rem)))
          end
      end
  end.

Definition split_prior_compaction_text (t : string) : option string * string :=
  let '(sections, rest) := split_loop (String.length t) t [] "" in
  if bool_decide (sections = []) then (None, t) else (Some (join_str (str1 nl) sections), rest).

Definition TRUNCATION_MARK : string := "...[truncated]...".

Definition truncate_middle (msg : string) (max_chars : nat) : option string :=
  let char_count := chars_count msg in
  if char_count <=? max_chars then None
  else
    let front_len := max_chars / 2 in
    let back_len := max_chars - front_len in
    Some (chars_take front_len msg +:+ TRUNCATION_MARK +:+ chars_skip (char_count - back_len) msg).

Definition quote : ascii := "034"%char.

Definition file_line (r : CompactionFileRef) : string :=
  "<ccode_file id=" +:+ str1 quote +:+ ref_id r +:+ str1 quote +:+ " name=" +:+ str1 quote +:+ ref_name r
  +:+ str1 quote +:+ " />" +:+ str1 nl.

Definition query_element (threshold : nat) (t : string) (refs : list CompactionFileRef) : string :=
  "<ccode_query>" +:+ default t (truncate_middle t threshold) +:+
  (if bool_decide (length refs = 0) then "" else str1 nl +:+ str_concat (file_line <$> refs)) +:+
  "</ccode_query>" +:+ str1 nl.

Definition query_of `{CompactionItem T} (threshold : nat) (x : T) : option string :=
  if bool_decide (role x = User) then
    let t := default "" (text x) in
    let refs := attachment_refs x in
    if bool_decide (t = "") && bool_decide (length refs = 0) then None
    else Some (query_element threshold t refs)
  else None.

Definition extract_user_queries_from_turns `{CompactionItem T} (l : list T) (threshold : nat) : option string :=
  match omap (query_of threshold) l with
  | [] => None
  | qs => Some (Q_OPEN +:+ str1 nl +:+ str_concat qs +:+ Q_CLOSE)
  end.

Record SeparatedHistoryTurns (T : Type) := mkSeparated {
  turns_for_llm : list T;
  prior_user_queries : option string;
  has_prior_compaction : bool
}.
Arguments mkSeparated {T}.
Arguments turns_for_llm {T}.
Arguments prior_user_queries {T}.
Arguments has_prior_compaction {T}.

Definition separate_step `{CompactionItemBuilder T} (acc : SeparatedHistoryTurns T) (x : T)
    : SeparatedHistoryTurns T :=
  if is_compaction_summary x then
    let '(section, rest) := split_prior_compaction_text (default "" (text x)) in
    let prior := match section, prior_user_queries acc with
                 | None, p => p
                 | Some u, Some e => Some (e +:+ str1 nl +:+ u)
                 | Some u, None => Some u
                 end in
    mkSeparated (if bool_decide (rest = "") then turns_for_llm acc
                 else turns_for_llm acc ++ [compaction_summary_item rest]) prior true
  else mkSeparated (turns_for_llm acc ++ [x]) (prior_user_queries acc) (has_prior_compaction acc).

Definition separate_prior_user_queries `{CompactionItemBuilder T} (l : list T) : SeparatedHistoryTurns T :=
  foldl separate_step (mkSeparated [] None false) l.

Definition extract_prior_user_queries `{CompactionItemBuilder T} (l : list T) : option string :=
  prior_user_queries (separate_prior_user_queries l).

Definition assemble_user_queries_preamble (prior current : option string) : string :=
  let part o := match o with Some p => p +:+ nl2 | None => "" end in
  part prior +:+ part current.

Definition build_user_queries_preamble `{CompactionItemBuilder T} (l : list T) (current : option string) : string :=
  assemble_user_queries_preamble (extract_prior_user_queries l) current.

Definition wrap_chunk_analysis (index : nat) (thinking : string) : string :=
  let t := trim thinking in
  if bool_decide (t = "") then ""
  else "<chunk_analysis index=" +:+ str1 quote +:+ show index +:+ str1 quote +:+ ">" +:+ str1 nl +:+ t +:+
       str1 nl +:+ "</chunk_analysis>" +:+ nl2.

(** ** Context collapse (context_collapse.rs) *)

Record ContextCollapseConfig := mkCollapse {
  collapse_threshold_percent : Z;
  max_summary_tokens : Z;
  keep_recent : nat
}.

Definition should_collapse (total_tokens window : Z) (config : ContextCollapseConfig) : bool :=
  if (window =? 0)%Z then false
  else (collapse_threshold_percent config <=? u64_mul total_tokens 100 / window)%Z.

Inductive CollapseError := Sampler (e : string) | Degenerate.

Record CollapseResult (T : Type) := mkCollapsed {
  col_items : list T;
  col_summary : string;
  collapsed_count : nat
}.
Arguments mkCollapsed {T}.
Arguments col_items {T}.
Arguments col_summary {T}.
Arguments collapsed_count {T}.

Definition is_degenerate (summary : string) : bool :=
  let t := trim summary in
  (String.length t <? 20) || str_forall (fun c => bool_decide (c = "."%char) || bool_decide (c = " "%char)) t.

Definition context_collapse {T} (items : list T) (config : ContextCollapseConfig)
    (summarize : string -> Z -> result string string) (flatten : list T -> string) (carrier : string -> T)
    : result CollapseError (CollapseResult T) :=
  if length items <=? keep_recent config then Ok (mkCollapsed items "" 0)
  else
    let split := length items - keep_recent config in
    let early := take split items in
    let to_summarize := flatten early in
    if bool_decide (trim to_summarize = "") then Ok (mkCollapsed items "" 0)
    else match summarize to_summarize (max_summary_tokens config) with
         | Err e => Err (Sampler e)
         | Ok summary =>
             if is_degenerate summary then Err Degenerate
             else Ok (mkCollapsed (carrier summary :: drop split items) summary (length early))
         end.

(** ** The rebuilt history (assemble.rs) *)

(** The trait [CompactionItemFactory]. *)
Class CompactionItemFactory (T : Type) := {
  new_user : string -> T;
  new_user_meta : string -> T;
  new_project_instructions : string -> T;
  new_system_reminder : string -> T
}.

Record CompactedHistoryParts (T : Type) := mkParts {
  system_message : T;
  user_message_prefix : string;
  agents_md_reminder : option string;
  last_user_query : option string;
  recent_messages : list T;
  compaction_summary : string;
  system_reminder : option string;
  transcript_hint : option string
}.
Arguments system_message {T}.
Arguments user_message_prefix {T}.
Arguments agents_md_reminder {T}.
Arguments last_user_query {T}.
Arguments recent_messages {T}.
Arguments compaction_summary {T}.
Arguments system_reminder {T}.
Arguments transcript_hint {T}.

Definition assemble_compacted_history `{CompactionItemFactory T} (parts : CompactedHistoryParts T) : list T :=
  let formatted := format_compact_summary_content (compaction_summary parts) +:+
                   default "" (transcript_hint parts) in
  [system_message parts; new_user_meta (user_message_prefix parts)]
  ++ option_list (new_project_instructions <$> agents_md_reminder parts)
  ++ option_list ((fun q => new_user (wrap_user_query q)) <$> last_user_query parts)
  ++ recent_messages parts ++ [new_user_meta formatted]
  ++ option_list (new_system_reminder <$> system_reminder parts).

(** ** The queries survive recompaction *)

(** A block as [extract_user_queries_from_turns] writes it: the closing tag
    occurs only at the end. *)
Definition query_block (b : string) : Prop :=
  starts_with Q_OPEN b = true /\ exists k, find_str Q_CLOSE b = Some k /\ k + String.length Q_CLOSE = String.length b.

Fixpoint newlines (n : nat) : string :=
  match n with O => EmptyString | S k => String nl (newlines k) end.

(** Blocks, each after some line feeds, then the rest of the text. *)
Fixpoint laid (l : list (nat * string)) (r : string) : string :=
  match l with
  | [] => r
  | (n, b) :: l' => newlines n +:+ b +:+ laid l' r
  end.

Lemma starts_with_app u s t : starts_with u s = true -> starts_with u (s +:+ t) = true.
Proof. rewrite !starts_with_spec. intros [r ->]. exists (r +:+ t). by rewrite str_app_assoc. Qed.

Lemma starts_with_long u s t :
  String.length u <= String.length s -> starts_with u (s +:+ t) = starts_with u s.
Proof.
  revert s. induction u as [|c u IH]; intros [|d s] Hl; cbn [String.length] in Hl; try done; [lia|].
  rewrite str_app_cons. cbn [starts_with]. by rewrite IH by lia.
Qed.

(** The first occurrence in a text is the first in a longer one. *)
Lemma find_str_app u s t k : find_str u s = Some k -> find_str u (s +:+ t) = Some k.
Proof.
  revert k. induction s as [|c s IH]; intros k E.
  - rewrite str_app_nil_l. cbn [find_str] in E. destruct (starts_with u "") eqn:Eu; [|done].
    destruct u; [|done]. injection E as <-. by destruct t.
  - rewrite str_app_cons. cbn [find_str] in *. destruct (starts_with u (String c s)) eqn:Eu.
    + by rewrite <- str_app_cons, starts_with_app.
    + destruct (find_str u s) as [m|] eqn:F; [|done]. rewrite (IH m eq_refl).
      destruct (find_str_spec _ _ _ F) as (r & Hr & Hm).
      apply (f_equal String.length) in Hr. rewrite !length_str_app, length_str_take in Hr.
      rewrite <- str_app_cons, starts_with_long, Eu by (cbn; lia). done.
Qed.

Lemma find_open n b r : starts_with Q_OPEN b = true -> find_str Q_OPEN (newlines n +:+ b +:+ r) = Some n.
Proof.
  intros Hb. induction n as [|n IH].
  - cbn [newlines]. rewrite str_app_nil_l. assert (starts_with Q_OPEN (b +:+ r) = true) as H by by apply starts_with_app.
    destruct (b +:+ r); cbn [find_str]; by rewrite H.
  - cbn [newlines]. rewrite str_app_cons. cbn [find_str]. by rewrite IH.
Qed.

Lemma length_newlines n : String.length (newlines n) = n.
Proof. induction n as [|n IH]; [done|]. cbn. by rewrite IH. Qed.

Lemma trim_newlines n : trim (newlines n) = "".
Proof.
  unfold trim. assert (trim_start (newlines n) = "") as ->; [|done].
  unfold trim_start. induction n as [|n IH]; [done|]. exact IH.
Qed.


Lemma drop_newlines n s : str_drop n (newlines n +:+ s) = s.
Proof. rewrite <- (length_newlines n) at 1. apply str_drop_app. Qed.
Lemma take_newlines n s : str_take n (newlines n +:+ s) = newlines n.
Proof. rewrite <- (length_newlines n) at 1. apply str_take_app. Qed.

Lemma split_laid l r : forall fuel sections rest,
  Forall (fun nb => query_block nb.2) l -> str_contains Q_OPEN r = false ->
  length l <= fuel ->
  split_loop fuel (laid l r) sections rest = (sections ++ l.*2, push_rest rest (trim r)).
Proof.
  induction l as [|[n b] l IH]; intros fuel sections rest Hl Hr Hf.
  - cbn [laid]. rewrite app_nil_r. destruct fuel as [|f]; [done|]. cbn [split_loop].
    by rewrite (proj2 (find_str_none Q_OPEN r) Hr).
  - destruct fuel as [|f]; [cbn in Hf; lia|]. apply Forall_cons in Hl as [(Ho & k & Hk & Hlen) Hl].
    cbn [snd] in Ho, Hk, Hlen.
    cbn [laid split_loop]. rewrite (find_open n b (laid l r) Ho).
    cbv beta iota zeta. rewrite drop_newlines, (find_str_app _ _ _ _ Hk). cbv beta iota zeta.
    rewrite Hlen, take_newlines, str_take_app, trim_newlines.
    assert (str_drop (n + String.length b) (newlines n +:+ b +:+ laid l r) = laid l r) as ->.
    { rewrite <- str_app_assoc. rewrite <- (length_newlines n) at 1. rewrite <- length_str_app.
      apply str_drop_app. }
    unfold push_rest at 1. rewrite bool_decide_true by done.
    rewrite IH by (done || (cbn in Hf; lia)). by rewrite <- app_assoc.
Qed.

Lemma laid_app l k r : laid (l ++ k) r = laid l (laid k r).
Proof. induction l as [|[n b] l IH]; [done|]. cbn [laid app]. by rewrite IH. Qed.

Lemma join_laid x l r : join_str (str1 nl) (x :: l) +:+ r = laid ((0, x) :: ((1,.) <$> l)) r.
Proof.
  cbn [laid newlines]. rewrite str_app_nil_l. revert x. induction l as [|y l IH]; intros x; [done|].
  rewrite fmap_cons. cbn [laid newlines]. rewrite <- IH.
  change (join_str (str1 nl) (x :: y :: l)) with (x +:+ str1 nl +:+ join_str (str1 nl) (y :: l)).
  by rewrite !str_app_assoc.
Qed.

(** The queries of earlier rounds as one text. *)
Definition join_queries (l : list string) : option string :=
  match l with [] => None | _ => Some (join_str (str1 nl) l) end.

Definition layout (prior : list string) (current : string) : list (nat * string) :=
  match prior with
  | [] => [(0, current)]
  | p :: l => (0, p) :: ((1,.) <$> l) ++ [(2, current)]
  end.

Lemma preamble_laid prior current summary :
  assemble_user_queries_preamble (join_queries prior) (Some current) +:+ summary
  = laid (layout prior current) (nl2 +:+ summary).
Proof.
  unfold assemble_user_queries_preamble. destruct prior as [|p l]; cbn [join_queries layout].
  - cbn [laid newlines]. by rewrite !str_app_nil_l, str_app_assoc.
  - rewrite !str_app_assoc, join_laid. change ((0, p) :: ((1,.) <$> l) ++ [(2, current)])
      with (((0, p) :: ((1,.) <$> l)) ++ [(2, current)]).
    rewrite laid_app. f_equal.
Qed.

Lemma layout_blocks prior current : (layout prior current).*2 = prior ++ [current].
Proof.
  destruct prior as [|p l]; [done|]. cbn [layout]. rewrite fmap_cons, fmap_app. cbn. do 2 f_equal.
  rewrite <- list_fmap_compose. apply list_fmap_id.
Qed.

Lemma laid_length l r : Forall (fun nb => query_block nb.2) l -> length l <= String.length (laid l r).
Proof.
  induction 1 as [|[n b] l (_ & k & _ & Hk) _ IH]; [cbn; lia|]. cbn [laid length snd] in *.
  rewrite !length_str_app, <- Hk. cbn [String.length Q_CLOSE]. lia.
Qed.

Lemma split_preamble prior current summary :
  Forall query_block (prior ++ [current]) -> str_contains Q_OPEN summary = false ->
  split_prior_compaction_text (assemble_user_queries_preamble (join_queries prior) (Some current) +:+ summary)
  = (join_queries (prior ++ [current]), trim summary).
Proof.
  intros Hb Hs. unfold split_prior_compaction_text. rewrite preamble_laid.
  assert (Forall (fun nb => query_block nb.2) (layout prior current)) as Hl
    by (rewrite <- (layout_blocks prior current) in Hb; exact (proj1 (Forall_fmap snd _ _) Hb)).
  rewrite split_laid; [|done| |by apply laid_length].
  2: { unfold nl2, str1. rewrite !str_app_cons, str_app_nil_l, !contains_cons, Hs. done. }
  rewrite layout_blocks, app_nil_l. cbv beta iota.
  rewrite (bool_decide_false (prior ++ [current] = [])) by (by intros [_ ?]%app_eq_nil).
  f_equal; [by destruct prior|].
  unfold push_rest. rewrite (bool_decide_true ("" = "")) by done.
  change (trim (nl2 +:+ summary)) with (trim summary). by case_bool_decide.
Qed.

(** The user's queries survive recompaction: from a summary item that starts
    with the preamble of all queries so far, the next round recovers exactly
    these queries, in order, and passes on the summary without them; the other
    items are untouched. *)
Theorem queries_survive_recompaction `{CB : CompactionItemBuilder T} prior current summary turns :
  Forall query_block (prior ++ [current]) -> str_contains Q_OPEN summary = false ->
  Forall (fun x => is_compaction_summary x = false) turns ->
  let carrier := compaction_summary_item
    (assemble_user_queries_preamble (join_queries prior) (Some current) +:+ summary) in
  let sep := separate_prior_user_queries (carrier :: turns) in
  prior_user_queries sep = join_queries (prior ++ [current]) /\ has_prior_compaction sep = true /\
  turns_for_llm sep = (if bool_decide (trim summary = "") then [] else [compaction_summary_item (trim summary)]) ++ turns.
Proof.
  intros Hb Hs Ht carrier sep. subst sep. unfold separate_prior_user_queries. cbn [foldl].
  assert (separate_step (mkSeparated [] None false) carrier =
    mkSeparated (if bool_decide (trim summary = "") then [] else [compaction_summary_item (trim summary)])
      (join_queries (prior ++ [current])) true) as ->.
  { unfold separate_step, carrier. rewrite summary_item_law, summary_item_text.
    change (default "" (Some ?x)) with x. rewrite split_preamble by done. cbn [prior_user_queries turns_for_llm app].
    f_equal. by destruct (join_queries (prior ++ [current])). }
  assert (forall acc, foldl separate_step acc turns =
    mkSeparated (turns_for_llm acc ++ turns) (prior_user_queries acc) (has_prior_compaction acc)) as Hf.
  { induction Ht as [|x l Hx _ IH]; intros [tl pq hp]; cbn [foldl]; [cbn; by rewrite app_nil_r|].
    rewrite IH. unfold separate_step. rewrite Hx. cbn. by rewrite <- app_assoc. }
  by rewrite Hf.
Qed.

(** ** Truncated messages *)

Lemma count_chars_take n s : chars_count (chars_take n s) = n `min` chars_count s.
Proof.
  revert n. induction s as [|c s IH]; intros n; cbn [chars_take chars_count]; [by rewrite Nat.min_0_r|].
  destruct (cont c) eqn:E; [cbn [chars_count]; by rewrite E, IH|].
  destruct n as [|n]; cbn [chars_count]; [done|]. rewrite E, IH. lia.
Qed.

Lemma count_chars_skip n s : chars_count (chars_skip n s) = chars_count s - n.
Proof.
  revert n. induction s as [|c s IH]; intros n; cbn [chars_skip chars_count]; [done|].
  destruct (cont c) eqn:E; [by rewrite IH|].
  destruct n as [|n]; cbn [chars_count]; [rewrite E; lia|]. rewrite IH. lia.
Qed.

(** A query in the preamble has at most its limit of characters and the mark. *)
Lemma truncate_middle_bound msg n :
  chars_count (default msg (truncate_middle msg n)) <= n + chars_count TRUNCATION_MARK /\
  (forall r, truncate_middle msg n = Some r -> chars_count r = n + chars_count TRUNCATION_MARK).
Proof.
  assert (forall s t, chars_count (s +:+ t) = chars_count s + chars_count t) as Happ.
  { induction s as [|c s IH]; intros t; [done|]. rewrite str_app_cons. cbn [chars_count]. rewrite IH. lia. }
  unfold truncate_middle. destruct (chars_count msg <=? n) eqn:E; zbool; cbn [default].
  - split; [cbn; lia|done].
  - assert (chars_count (chars_take (n / 2) msg +:+ TRUNCATION_MARK +:+
      chars_skip (chars_count msg - (n - n / 2)) msg) = n + chars_count TRUNCATION_MARK) as Hc.
    { rewrite !Happ, count_chars_take, count_chars_skip. pose proof (Nat.Div0.div_le_upper_bound n 2 n). lia. }
    split; [apply Nat.eq_le_incl, Hc|]. by intros r [= <-].
Qed.

(** ** Collapse *)

(** A collapse replaces all but the last turns by one summary item, or leaves
    the conversation as it is. *)
Lemma collapse_exact {T} (items : list T) config summarize flatten carrier r :
  context_collapse items config summarize flatten carrier = Ok r ->
  r = mkCollapsed items "" 0 \/
  (collapsed_count r = length items - keep_recent config /\ collapsed_count r <> 0 /\
   col_items r = carrier (col_summary r) :: drop (length items - keep_recent config) items /\
   is_degenerate (col_summary r) = false).
Proof.
  unfold context_collapse. destruct (length items <=? keep_recent config) eqn:El; [intros; simplify_eq; by left|].
  zbool. cbv zeta. case_bool_decide; [intros; simplify_eq; by left|].
  destruct (summarize _ _) as [s|]; [|done]. destruct (is_degenerate s) eqn:Ed; [done|]. intros [= <-]. right.
  cbn [collapsed_count col_items col_summary]. rewrite length_take, Nat.min_l by lia. split_and!; [done|lia|done|done].
Qed.

(** A collapse can leave a tool result whose request it removed: with any
    number of recent turns to keep there is a well paired conversation whose
    collapse is not, whatever summary the model writes. *)
Theorem collapse_orphans_tool_result keep tokens pct summarize s :
  1 <= keep -> summarize "turns" tokens = Ok s -> is_degenerate s = false ->
  exists (l : list (CompactionRole * bool)) r,
    paired l /\
    context_collapse l (mkCollapse pct tokens keep) summarize (fun _ => "turns") (fun _ => (Developer, false)) = Ok r /\
    ~ paired (col_items r).
Proof.
  intros Hk Hs Hd. set (l := (Assistant, true) :: replicate keep (Tool, false)).
  exists l, (mkCollapsed ((Developer, false) :: drop 1 l) s 1). split_and!.
  - intros [|i] x Hx Ht; [cbn in Hx; simplify_eq; done|]. exists i. cbn in Hx.
    apply lookup_replicate in Hx as [-> Hi]. destruct i as [|i]; [by exists (Assistant, true)|].
    exists (Tool, false). split_and!; [done| |done]. cbn. apply lookup_replicate. split; [done|lia].
  - unfold context_collapse. cbn [length keep_recent max_summary_tokens].
    assert (length l = S keep) as Hl by (unfold l; cbn; by rewrite length_replicate).
    rewrite Hl, (proj2 (Nat.leb_gt _ _)) by lia. replace (S keep - keep) with 1 by lia.
    rewrite bool_decide_false by (by vm_compute). by rewrite Hs, Hd.
  - cbn. destruct keep as [|k]; [lia|]. cbn. intros H.
    destruct (H 1 (Tool, false) eq_refl eq_refl) as (j & y & Hj & Hy & Hr).
    injection Hj as <-. cbn in Hy. injection Hy as <-. done.
Qed.

Definition demo_summary : string := "the earlier turns are summarised here".

Lemma collapse_orphans_tool_result_witness :
  exists (l : list (CompactionRole * bool)) r, paired l /\
    context_collapse l (mkCollapse 85 2000 6) (fun _ _ => Ok demo_summary) (fun _ => "turns")
      (fun _ => (Developer, false)) = Ok r /\ ~ paired (col_items r).
Proof.
  apply (collapse_orphans_tool_result 6 2000 85 (fun _ _ => Ok demo_summary) demo_summary); [lia|done|by vm_compute].
Defined.

(** Items that carry their text. *)
#[export] Instance demo_texts : CompactionItem (CompactionRole * string) := {|
  role := fst; text := fun x => Some x.2; has_tool_requests := fun _ => false;
  is_compaction_summary := fun x => bool_decide (x.1 = Developer); attachment_refs := fun _ => []
|}.

#[export] Instance demo_builder : CompactionItemBuilder (CompactionRole * string) := {|
  compaction_summary_item := fun s => (Developer, s); strip_tool_content := Some;
  summary_item_law := fun s => eq_refl; summary_item_text := fun s => eq_refl
|}.

Definition demo_block : string :=
  default "" (extract_user_queries_from_turns [(User, "fix the bug"); (Assistant, "done")] 100).

Lemma queries_survive_recompaction_witness :
  let carrier : CompactionRole * string :=
    compaction_summary_item (assemble_user_queries_preamble None (Some demo_block) +:+ "Summary") in
  prior_user_queries (separate_prior_user_queries [carrier; (User, "next")]) = Some demo_block.
Proof.
  refine (proj1 (queries_survive_recompaction [] demo_block "Summary" [(User, "next")] _ _ _)).
  - constructor; [|constructor]. split; [by vm_compute|]. eexists. split; by vm_compute.
  - by vm_compute.
  - by repeat constructor.
Defined.
