(* ===== verification/StdPath.v ===== *)
(** * Paths ([std::path] on Unix)

    A path is the list of its components, which is how the standard library
    compares, joins, splits and strips paths: repeated separators, a trailing
    separator and every [.] but a leading one disappear. *)

From S2P Require Import Prelude RustStr TextLines.

Inductive Component := RootDir | CurDir | ParentDir | Normal (name : string).

#[export] Instance component_eq_dec : EqDecision Component.
Proof. solve_decision. Defined.

#[export] Instance component_countable : Countable Component.
Proof.
  refine (inj_countable'
    (fun c => match c with RootDir => inl 0 | CurDir => inl 1 | ParentDir => inl 2 | Normal n => inr n end)
    (fun x => match x with inl 0 => RootDir | inl 1 => CurDir | inl _ => ParentDir | inr n => Normal n end) _).
  by intros [].
Defined.

Abbreviation path := (list Component).

(** ** Parsing and printing *)

Definition parse_segment (s : string) : option Component :=
  if bool_decide (s = "") || bool_decide (s = ".") then None
  else if bool_decide (s = "..") then Some ParentDir else Some (Normal s).

(** [Path::new(s).components()] *)
Definition components (s : string) : path :=
  match split_char "/" s with
  | [] => []
  | seg :: segs =>
      if bool_decide (seg = "") then
        match segs with
        | [] => []
        | _ => RootDir :: omap parse_segment segs
        end
      else (if bool_decide (seg = ".") then [CurDir] else option_list (parse_segment seg))
           ++ omap parse_segment segs
  end.

Definition component_str (c : Component) : string :=
  match c with RootDir => "" | CurDir => "." | ParentDir => ".." | Normal n => n end.

(** [p.display()] and [p.to_string_lossy()] of a path built from components. *)
Definition display (p : path) : string :=
  match p with
  | [RootDir] => "/"
  | _ => join_char "/" (component_str <$> p)
  end.

(** ** Operations *)

Definition is_absolute (p : path) : bool :=
  match p with RootDir :: _ => true | _ => false end.

(** [base.join(p)]: an absolute [p] replaces the base, and the leading [.] of a
    relative one disappears behind a non-empty base. *)
Definition path_join (base p : path) : path :=
  if is_absolute p then p
  else match base with
       | [] => p
       | _ => base ++ match p with CurDir :: r => r | _ => p end
       end.

(** [p.strip_prefix(base)] and [p.starts_with(base)]. *)
Fixpoint strip_prefix (base p : path) : option path :=
  match base, p with
  | [], _ => Some p
  | b :: base', c :: p' => if bool_decide (b = c) then strip_prefix base' p' else None
  | _ :: _, [] => None
  end.
Definition path_starts_with (p base : path) : bool :=
  match strip_prefix base p with Some _ => true | None => false end.

Definition parent (p : path) : option path :=
  match last p with
  | None | Some RootDir => None
  | Some _ => Some (removelast p)
  end.

Definition file_name (p : path) : option string :=
  match last p with Some (Normal n) => Some n | _ => None end.

(** The file name cut at its last dot: stem and extension.  A name with no dot,
    or whose only dot is the first character, has no extension. *)
Fixpoint rsplit_dot (s : string) : option (string * string) :=
  match s with
  | EmptyString => None
  | String c s' =>
      match rsplit_dot s' with
      | Some (a, b) => Some (String c a, b)
      | None => if bool_decide (c = "."%char) then Some (EmptyString, s') else None
      end
  end.

Definition stem_ext (n : string) : string * option string :=
  match rsplit_dot n with
  | Some (EmptyString, _) | None => (n, None)
  | Some (a, b) => (a, Some b)
  end.

Definition extension (p : path) : option string := file_name p ≫= fun n => (stem_ext n).2.

Definition with_extension (p : path) (ext : string) : path :=
  match file_name p with
  | None => p
  | Some n => removelast p ++ [Normal ((stem_ext n).1 +:+ (if bool_decide (ext = "") then "" else "." +:+ ext))]
  end.

(** ** Lemmas *)

Definition plain (c : Component) : bool :=
  match c with RootDir | Normal _ => true | _ => false end.

Lemma strip_prefix_spec base p r : strip_prefix base p = Some r <-> p = base ++ r.
Proof.
  revert p. induction base as [|b base IH]; intros p; cbn; [naive_solver|].
  destruct p as [|c p]; [naive_solver|]. case_bool_decide as E; [|naive_solver].
  subst. rewrite IH. naive_solver.
Qed.

Lemma path_starts_with_spec p base : path_starts_with p base = true <-> exists r, p = base ++ r.
Proof.
  unfold path_starts_with. destruct (strip_prefix base p) as [r|] eqn:E.
  - apply strip_prefix_spec in E. naive_solver.
  - split; [done|]. intros [r Hr%strip_prefix_spec]. congruence.
Qed.

Lemma with_extension_length p ext : length (with_extension p ext) = length p.
Proof.
  unfold with_extension, file_name. destruct (last p) as [c|] eqn:E; [|done].
  apply last_Some in E as [q ->]. destruct c; try done.
  rewrite removelast_last, !length_app. done.
Qed.

(** Changing the extension stays in the same directory. *)
Lemma with_extension_parent p ext : parent (with_extension p ext) = parent p.
Proof.
  unfold parent, with_extension, file_name. destruct (last p) as [c|] eqn:E; [|by rewrite E].
  destruct c; rewrite ?E; try done. rewrite last_snoc. apply last_Some in E as [q ->].
  by rewrite !removelast_last.
Qed.

Example components_std :
  components "/usr//lib/./x/" = [RootDir; Normal "usr"; Normal "lib"; Normal "x"] /\
  components "./a/../b" = [CurDir; Normal "a"; ParentDir; Normal "b"] /\
  extension (components "a/.bashrc") = None /\ extension (components "x.tar.gz") = Some "gz" /\
  with_extension (components "src/main.rs") "tmp" = components "src/main.tmp".
Proof. by vm_compute. Qed.
