(* ===== verification/Fs.v ===== *)
(** * A file system ([std::fs] on Unix)

    Files, directories and symbolic links by their real location, with the
    path resolution of the kernel: a link met on the way is replaced by its
    target, at most [MAX_LINKS] times.  Each operation takes the faults of the
    environment ([Faults]): a refused access, or a write that stops early. *)

From S2P Require Import Prelude RustStr TextLines StdPath.

Inductive Node := NFile (content : string) | NDir | NLink (target : path).

(** [cwd] is the process's working directory, which the kernel keeps resolved. *)
Record Disk := mkDisk { nodes : gmap path Node; cwd : path }.

Definition set_nodes (f : gmap path Node -> gmap path Node) (d : Disk) : Disk := mkDisk (f (nodes d)) (cwd d).

Inductive IoError := NotFound | IsADirectory | PermissionDenied | InvalidData | OtherIo.

(** [stops p] is the number of bytes a failing write of [p] leaves behind. *)
Record Faults := mkFaults {
  denied : path -> bool;
  stops : path -> option nat;
  rename_fails : path -> bool;
  remove_fails : path -> bool;
  mkdir_fails : path -> bool
}.
Definition no_faults : Faults :=
  mkFaults (fun _ => false) (fun _ => None) (fun _ => false) (fun _ => false) (fun _ => false).

(** ** Path resolution *)

Definition MAX_LINKS : nat := 40.

(** The location reached from the directory [cur]; [None] when a component does
    not exist, is a file in the middle, or the links are used up. *)
Fixpoint walk (links : nat) (d : Disk) : path -> path -> option path :=
  fix go cur rest :=
    match rest with
    | [] => Some cur
    | RootDir :: r => go [RootDir] r
    | CurDir :: r => go cur r
    | ParentDir :: r => go (default cur (parent cur)) r
    | Normal n :: r =>
        let p := cur ++ [Normal n] in
        match nodes d !! p with
        | None => None
        | Some NDir => go p r
        | Some (NFile _) => match r with [] => Some p | _ => None end
        | Some (NLink t) => match links with O => None | S k => walk k d cur (t ++ r) end
        end
    end.

(** [p.canonicalize()] *)
Definition canonicalize (d : Disk) (p : path) : option path := walk MAX_LINKS d (cwd d) p.

Definition node_at (d : Disk) (c : path) : option Node :=
  if bool_decide (c = [RootDir]) then Some NDir else nodes d !! c.

(** [p.exists()] *)
Definition path_exists (d : Disk) (p : path) : bool :=
  match canonicalize d p with Some _ => true | None => false end.

(** The directory of [p] and the name in it, for the calls that act on a
    directory entry: links on the way are followed, the entry itself is not. *)
Definition entry (d : Disk) (p : path) : option path :=
  match last p, canonicalize d (removelast p) with
  | Some (Normal n), Some dir =>
      match node_at d dir with Some NDir => Some (dir ++ [Normal n]) | _ => None end
  | _, _ => None
  end.

(** Where an [open] that may create the file lands: a link at the end is
    followed, also to a missing target. *)
Fixpoint locate (links : nat) (d : Disk) (p : path) : option path :=
  match entry d p with
  | None => None
  | Some e =>
      match nodes d !! e with
      | Some (NLink t) => match links with
                          | O => None
                          | S k => locate k d (path_join (removelast e) t)
                          end
      | _ => Some e
      end
  end.

(** ** Operations *)

(** [fs::read] *)
Definition fs_read (w : Faults) (d : Disk) (p : path) : result IoError string :=
  match canonicalize d p with
  | None => Err NotFound
  | Some c => if denied w c then Err PermissionDenied
              else match node_at d c with
                   | Some (NFile b) => Ok b
                   | Some NDir => Err IsADirectory
                   | _ => Err NotFound
                   end
  end.

(** [fs::read_to_string] *)
Definition fs_read_text (w : Faults) (d : Disk) (p : path) : result IoError string :=
  match fs_read w d p with
  | Ok b => if utf8_valid b then Ok b else Err InvalidData
  | Err e => Err e
  end.

(** [fs::write]: create or truncate, then write. *)
Definition fs_write (w : Faults) (d : Disk) (p : path) (b : string) : Disk * result IoError unit :=
  match locate MAX_LINKS d p with
  | None => (d, Err NotFound)
  | Some c =>
      if denied w c then (d, Err PermissionDenied)
      else match nodes d !! c with
           | Some NDir => (d, Err IsADirectory)
           | _ => match stops w c with
                  | None => (set_nodes <[c := NFile b]> d, Ok tt)
                  | Some n => (set_nodes <[c := NFile (str_take n b)]> d, Err OtherIo)
                  end
           end
  end.

(** [fs::remove_file] *)
Definition fs_remove (w : Faults) (d : Disk) (p : path) : Disk * result IoError unit :=
  match entry d p with
  | None => (d, Err NotFound)
  | Some e => match nodes d !! e with
              | None => (d, Err NotFound)
              | Some NDir => (d, Err IsADirectory)
              | Some _ => if remove_fails w e then (d, Err PermissionDenied)
                          else (set_nodes (delete e) d, Ok tt)
              end
  end.

(** [fs::rename] of a file or link: an existing file at the target is replaced. *)
Definition fs_rename (w : Faults) (d : Disk) (a b : path) : Disk * result IoError unit :=
  match entry d a, entry d b with
  | Some ea, Some eb =>
      match nodes d !! ea with
      | None => (d, Err NotFound)
      | Some NDir => (d, Err OtherIo)
      | Some n =>
          if rename_fails w eb then (d, Err OtherIo)
          else match nodes d !! eb with
               | Some NDir => (d, Err IsADirectory)
               | _ => (set_nodes (fun m => <[eb := n]> (delete ea m)) d, Ok tt)
               end
      end
  | _, _ => (d, Err NotFound)
  end.

(** [fs::create_dir_all]: the missing directories from the outermost on. *)
Fixpoint mkdir_from (w : Faults) (d : Disk) (done : path) (rest : path) : Disk * result IoError unit :=
  match rest with
  | [] => (d, Ok tt)
  | c :: r =>
      let p := done ++ [c] in
      if path_exists d p then
        match canonicalize d p ≫= node_at d with
        | Some NDir => mkdir_from w d p r
        | _ => (d, Err OtherIo)
        end
      else match entry d p with
           | None => (d, Err NotFound)
           | Some e => if mkdir_fails w e then (d, Err PermissionDenied)
                       else match nodes d !! e with
                            | Some _ => (d, Err OtherIo)
                            | None => mkdir_from w (set_nodes <[e := NDir]> d) p r
                            end
           end
  end.
Definition create_dir_all (w : Faults) (d : Disk) (p : path) : Disk * result IoError unit :=
  mkdir_from w d [] p.

(** ** Real locations *)

(** The directories on the way to a real location. *)
Definition real_dir (d : Disk) (p : path) : Prop :=
  exists ns, p = RootDir :: (Normal <$> ns) /\
  forall k, 0 < k <= length ns -> nodes d !! (RootDir :: (Normal <$> take k ns)) = Some NDir.

(** A location no link leads away from. *)
Definition real (d : Disk) (c : path) : Prop :=
  real_dir d c \/ exists dir n b, c = dir ++ [Normal n] /\ real_dir d dir /\ nodes d !! c = Some (NFile b).

Lemma real_root d : real_dir d [RootDir].
Proof. exists []. split; [done|]. intros k Hk. cbn in Hk. lia. Qed.

Lemma real_snoc d p n : real_dir d p -> nodes d !! (p ++ [Normal n]) = Some NDir -> real_dir d (p ++ [Normal n]).
Proof.
  intros (ns & -> & Hd) Hn. exists (ns ++ [n]). split; [by rewrite fmap_app|].
  intros k Hk. rewrite length_app in Hk. cbn in Hk. destruct (decide (k = S (length ns))) as [->|].
  - rewrite take_ge by (rewrite length_app; cbn; lia). by rewrite fmap_app.
  - rewrite take_app_le by lia. apply Hd. lia.
Qed.

Lemma real_parent d p : real_dir d p -> real_dir d (default p (parent p)).
Proof.
  intros (ns & -> & Hd). destruct ns as [|x ns _] using rev_ind; [apply real_root|].
  unfold parent. rewrite fmap_app. cbn [fmap list_fmap]. rewrite app_comm_cons, last_snoc.
  cbn [default]. change (default ?d (Some ?x)) with x. rewrite removelast_last.
  exists ns. split; [done|]. intros k Hk. rewrite <- (take_app_le ns [x] k) by lia.
  apply Hd. rewrite length_app. cbn. lia.
Qed.

(** Resolution ends at a real location. *)
Lemma walk_real links d cur rest c : real_dir d cur -> walk links d cur rest = Some c -> real d c.
Proof.
  revert cur rest. induction links as [|k IHk]; intros cur rest;
    (revert cur; induction rest as [|x r IH]; intros cur Hc;
     [intros [= <-]; by left|destruct x as [| | |n]; cbn; [apply IH, real_root|by apply IH|by apply IH, real_parent|]]);
    (destruct (nodes d !! (cur ++ [Normal n])) as [[b| |t]|] eqn:E; intros H; try done;
     [destruct r; [|done]; injection H as <-; right; by exists cur, n, b
     |by apply (IH (cur ++ [Normal n])); [apply real_snoc|]|..]).
  - by eapply IHk.
Qed.

(** ... which resolves to itself. *)
Lemma walk_dir links d ns r cur :
  (forall k, 0 < k <= length ns -> nodes d !! (cur ++ (Normal <$> take k ns)) = Some NDir) ->
  walk links d cur ((Normal <$> ns) ++ r) = walk links d (cur ++ (Normal <$> ns)) r.
Proof.
  revert cur. induction ns as [|n ns IH]; intros cur Hd; cbn [fmap list_fmap app].
  - by rewrite app_nil_r.
  - assert (nodes d !! (cur ++ [Normal n]) = Some NDir) as E by (apply (Hd 1); cbn; lia).
    transitivity (walk links d (cur ++ [Normal n]) ((Normal <$> ns) ++ r)).
    { destruct links; cbn; by rewrite E. }
    rewrite IH; [by rewrite <- app_assoc|]. intros k Hk. rewrite <- app_assoc. apply (Hd (S k)). cbn. lia.
Qed.

Lemma walk_root links d cur r : walk links d cur (RootDir :: r) = walk links d [RootDir] r.
Proof. by destruct links. Qed.

Lemma canonicalize_real d c : real d c -> canonicalize d c = Some c.
Proof.
  unfold canonicalize. intros [(ns & -> & Hd)|(dir & n & b & -> & (ns & -> & Hd) & Hb)].
  - rewrite walk_root. rewrite <- (app_nil_r (Normal <$> ns)) at 1. by rewrite walk_dir.
  - cbn [app]. rewrite walk_root, walk_dir by done. cbn [app] in *. unfold MAX_LINKS. cbn. by rewrite Hb.
Qed.

Lemma entry_real d dir n : real_dir d dir -> entry d (dir ++ [Normal n]) = Some (dir ++ [Normal n]).
Proof.
  intros Hd. unfold entry. rewrite last_snoc, removelast_last, canonicalize_real by by left.
  unfold node_at. case_bool_decide as E; [done|]. destruct Hd as (ns & -> & Hd).
  destruct ns as [|x ns]; [done|]. cbn [app]. specialize (Hd (length (x :: ns))).
  rewrite firstn_all in Hd. rewrite Hd; [done|]. cbn. lia.
Qed.

(** The entry of a real location is found at once unless it is a link. *)
Lemma locate_real k d dir n :
  real_dir d dir -> (forall t, nodes d !! (dir ++ [Normal n]) <> Some (NLink t)) ->
  locate k d (dir ++ [Normal n]) = Some (dir ++ [Normal n]).
Proof.
  intros Hd Hl. destruct k; cbn [locate]; rewrite entry_real by done;
    destruct (nodes d !! (dir ++ [Normal n])) as [[]|]; try done; by edestruct Hl.
Qed.

#[export] Hint Resolve real_root real_parent : ccode.
