(* ===== verification/PathGuard.v ===== *)
(** * Path checks of the tools

    [tools/path_validator.rs]: the path a tool may touch is resolved, or
    normalised textually when it does not exist yet, and must start with the
    workspace; binary, hidden and sensitive files are recognised by name and
    content.  [tools/gitignore_filter.rs]: the files skipped by default and by
    a simplified reading of [.gitignore]. *)

From S2P Require Import Prelude RustStr F64 Permission TextLines TextFind StdPath Fs.

(** ** Validation (path_validator.rs) *)

Definition SENSITIVE_FILES : list string :=
  [".env"; ".env.local"; ".env.production"; "credentials.json"; "service-account-key.json";
   "id_rsa"; "id_ed25519"; ".npmrc"; ".pypirc"].

Definition SENSITIVE_DIRS : list string := [".ssh"; ".gnupg"; ".aws"].

Definition BINARY_EXTENSIONS : list string :=
  ["exe"; "dll"; "so"; "dylib"; "o"; "obj"; "a"; "lib";
   "png"; "jpg"; "jpeg"; "gif"; "bmp"; "ico"; "webp"; "tiff";
   "mp3"; "mp4"; "wav"; "avi"; "mov"; "mkv"; "flv";
   "zip"; "tar"; "gz"; "bz2"; "xz"; "7z"; "rar";
   "pdf"; "doc"; "docx"; "xls"; "xlsx"; "ppt"; "pptx";
   "pyc"; "pyd"; "class"; "jar"; "war";
   "woff"; "woff2"; "ttf"; "eot";
   "sqlite"; "db"].

Record PathValidation := mkValidation {
  canonical : path;
  relative : option path;
  in_workspace : bool;
  is_binary : bool;
  is_hidden : bool;
  is_sensitive : bool;
  warnings : list string
}.

(** [..] drops the component before it, whatever that is. *)
Definition normalize_step (acc : path) (c : Component) : path :=
  match c with
  | ParentDir => removelast acc
  | CurDir => acc
  | c => acc ++ [c]
  end.
Definition normalize_path (p : path) : path := foldl normalize_step [] p.

Definition nul : ascii := "000"%char.

Section validation.
Context `{StrEnv}.

Definition is_binary_file (w : Faults) (d : Disk) (p : path) : bool :=
  match extension p with
  | Some ext => bool_decide (to_lowercase ext ∈ BINARY_EXTENSIONS)
  | None => false
  end ||
  (path_exists d p &&
   match fs_read w d p with
   | Ok content =>
       let check_len := String.length content `min` N.to_nat 8192 in
       if bool_decide (0 < check_len) then
         let nul_count := count_char nul (str_take check_len content) in
         fgt (fdiv (f64_of_Z (Z.of_nat nul_count)) (f64_of_Z (Z.of_nat check_len))) (f64_lit 1 10)
       else false
   | Err _ => false
   end).

Definition is_hidden_file (p : path) : bool :=
  match file_name p with Some n => starts_with "." n | None => false end.

Definition is_sensitive_file (p : path) : bool :=
  let name := default "" (file_name p) in
  let parent_name := default "" (parent p ≫= file_name) in
  bool_decide (name ∈ SENSITIVE_FILES) || bool_decide (parent_name ∈ SENSITIVE_DIRS)
  || starts_with ".env" name
  || (let lower := to_lowercase name in
      str_contains "key" lower || str_contains "secret" lower || str_contains "token" lower
      || str_contains "password" lower).

Definition validate_path (w : Faults) (d : Disk) (p : string) (workspace_root : path) : PathValidation :=
  let p := components p in
  let full := if is_absolute p then p else path_join workspace_root p in
  let canonical := default (normalize_path full) (canonicalize d full) in
  let in_workspace := path_starts_with canonical workspace_root in
  let relative := strip_prefix workspace_root canonical in
  let is_binary := is_binary_file w d canonical in
  let is_hidden := is_hidden_file canonical in
  let is_sensitive := is_sensitive_file canonical in
  let warnings :=
    (if in_workspace then [] else ["路径 " +:+ display canonical +:+ " 在工作目录外"])
    ++ (if is_binary then [display canonical +:+ " 是二进制文件"] else [])
    ++ (if is_sensitive then [display canonical +:+ " 可能包含敏感信息"] else []) in
  mkValidation canonical relative in_workspace is_binary is_hidden is_sensitive warnings.

Definition ensure_in_workspace (w : Faults) (d : Disk) (p : string) (workspace_root : path) : result string path :=
  let v := validate_path w d p workspace_root in
  if in_workspace v then Ok (canonical v)
  else Err ("路径 " +:+ display (canonical v) +:+ " 在工作目录 " +:+ display workspace_root +:+ " 外，操作被拒绝").
End validation.

(** ** Files skipped (gitignore_filter.rs) *)

Definition DEFAULT_SKIP_DIRS : list string :=
  [".git"; ".hg"; ".svn"; "node_modules"; "target"; "__pycache__"; ".tox"; ".mypy_cache"; ".pytest_cache";
   ".next"; ".nuxt"; "dist"; "build"; ".cache"; "vendor"].

Definition DEFAULT_SKIP_FILES : list string :=
  [".DS_Store"; "Thumbs.db"; "*.pyc"; "*.pyo"; "*.so"; "*.dylib"; "*.dll"].

Record GitignoreFilter := mkFilter {
  workspace_root : path;
  patterns : list string;
  default_skip : bool
}.

Definition load_gitignore (w : Faults) (d : Disk) (root : path) : list string :=
  match fs_read w d (path_join root (components ".gitignore")) with
  | Ok content =>
      if utf8_valid content then
        trim <$> filter (fun l => l <> "" /\ starts_with "#" l = false) (lines content)
      else []
  | Err _ => []
  end.

Definition gitignore_new (w : Faults) (d : Disk) (root : path) : GitignoreFilter :=
  mkFilter root (load_gitignore w d root) true.
Definition without_defaults (w : Faults) (d : Disk) (root : path) : GitignoreFilter :=
  mkFilter root (load_gitignore w d root) false.

Definition skips_name (name : string) : bool :=
  bool_decide (name ∈ DEFAULT_SKIP_DIRS) ||
  existsb (fun skip_file =>
    if starts_with "*" skip_file then ends_with (str_drop 1 skip_file) name
    else bool_decide (name = skip_file)) DEFAULT_SKIP_FILES.

Definition matches_default_skip (p : path) : bool :=
  existsb (fun c => match c with Normal name => skips_name name | _ => false end) p.

Definition trim_end_slashes (s : string) : string :=
  (fix go s := match s with
   | EmptyString => EmptyString
   | String c s' => match go s' with
                    | EmptyString => if bool_decide (c = "/"%char) then EmptyString else str1 c
                    | r => String c r
                    end
   end) s.

Definition pattern_skips (path_str pattern : string) : bool :=
  if starts_with "!" pattern then false
  else if ends_with "/" pattern then str_contains (trim_end_slashes pattern) path_str
  else if starts_with "*" pattern then ends_with (str_drop 1 pattern) path_str
  else if starts_with "**/" pattern then
    let name := str_drop 3 pattern in ends_with name path_str || str_contains ("/" +:+ name) path_str
  else bool_decide (path_str = pattern) || starts_with (pattern +:+ "/") path_str.

Definition matches_gitignore (g : GitignoreFilter) (p : path) : bool :=
  let relative := default p (strip_prefix (workspace_root g) p) in
  existsb (pattern_skips (display relative)) (patterns g).

Definition should_skip (g : GitignoreFilter) (p : path) : bool :=
  (default_skip g && matches_default_skip p) || matches_gitignore g p.

(** ** Properties of the checks *)

Lemma normalize_plain p : Forall (fun c => plain c = true) (normalize_path p).
Proof.
  unfold normalize_path. assert (Forall (fun c => plain c = true) []) as H by constructor.
  revert H. generalize (@nil Component). induction p as [|c p IH]; intros acc Ha; [done|]. cbn [foldl]. apply IH.
  destruct c; cbn [normalize_step]; try done.
  - by apply Forall_app_2; [|repeat constructor].
  - destruct acc as [|x acc _] using rev_ind; [done|]. rewrite removelast_last. by apply Forall_app in Ha as [? _].
  - by apply Forall_app_2; [|repeat constructor].
Qed.

Lemma normalize_normal a ns : normalize_path (a ++ (Normal <$> ns)) = normalize_path a ++ (Normal <$> ns).
Proof.
  unfold normalize_path. rewrite foldl_app. generalize (foldl normalize_step [] a). clear a.
  induction ns as [|n ns IH]; intros acc; cbn [fmap list_fmap foldl]; [by rewrite app_nil_r|].
  rewrite IH. cbn [normalize_step]. by rewrite <- app_assoc.
Qed.

Lemma normalize_rooted ns : normalize_path (RootDir :: (Normal <$> ns)) = RootDir :: (Normal <$> ns).
Proof. apply (normalize_normal [RootDir]). Qed.

(** The root appears at the front only. *)
Definition rooted_tail (p : path) : Prop := Forall (fun c => c <> RootDir) (drop 1 p).

Lemma Forall_removelast (P : Component -> Prop) l : Forall P l -> Forall P (removelast l).
Proof.
  destruct l as [|x l _] using rev_ind; [done|]. rewrite removelast_last. by intros [? _]%Forall_app.
Qed.

Lemma removelast_tail l : rooted_tail l -> rooted_tail (removelast l).
Proof.
  unfold rooted_tail. destruct l as [|a [|b l]]; try done. cbn [removelast drop]. apply Forall_removelast.
Qed.

Lemma normalize_tail p : rooted_tail p -> rooted_tail (normalize_path p).
Proof.
  assert (forall p acc, Forall (fun c => c <> RootDir) p -> rooted_tail acc -> rooted_tail (foldl normalize_step acc p)) as Hgo.
  { intros q. induction q as [|c q IH]; intros acc Hq Ha; [done|]. inversion Hq; subst. cbn [foldl]. apply IH; [done|].
    destruct c; cbn [normalize_step]; [done|done|by apply removelast_tail|].
    unfold rooted_tail in *. destruct acc as [|a acc]; [constructor|]. cbn [app drop] in *.
    apply Forall_app_2; [done|by constructor]. }
  intros Hp. unfold normalize_path. destruct p as [|c p]; [constructor|]. cbn [foldl]. apply Hgo; [done|].
  destruct c; constructor.
Qed.

Lemma omap_no_root l : Forall (fun c => c <> RootDir) (omap parse_segment l).
Proof.
  induction l as [|x l IH]; [constructor|]. cbn [omap list_omap]. unfold parse_segment at 1.
  destruct (_ || _); [done|]. by destruct (bool_decide _); constructor.
Qed.

Lemma components_tail s : rooted_tail (components s).
Proof.
  unfold rooted_tail, components. destruct (split_char _ s) as [|x l]; [constructor|].
  assert (Forall (fun c => c <> RootDir) (omap parse_segment l)) as Hl by apply omap_no_root.
  destruct (bool_decide (x = "")); [destruct l; [constructor|done]|].
  destruct (bool_decide (x = ".")); [done|]. unfold parse_segment at 1.
  destruct (_ || _); [by apply Forall_drop|]. destruct (bool_decide _); cbn; done.
Qed.

Lemma join_tail ws s : rooted_tail ws -> rooted_tail (path_join ws (components s)).
Proof.
  intros Hw. pose proof (components_tail s) as Hs. unfold path_join.
  destruct (components s) as [|[] l]; cbn [is_absolute]; try done; destruct ws as [|a ws]; try done;
    unfold rooted_tail in *; cbn [app drop] in *; apply Forall_app_2; try done; by repeat constructor.
Qed.

Lemma plain_tail_normal p : Forall (fun c => plain c = true) p -> Forall (fun c => c <> RootDir) p ->
  exists ns, p = Normal <$> ns.
Proof.
  induction p as [|c p IH]; intros Hp Hr; [by exists []|]. inversion Hp; inversion Hr; subst.
  destruct IH as [ns ->]; [done..|]. destruct c; try done. by exists (name :: ns).
Qed.

Lemma real_plain d c : real d c -> Forall (fun c => plain c = true) c /\ rooted_tail c.
Proof.
  assert (forall ns, Forall (fun c => plain c = true) (Normal <$> ns) /\ Forall (fun c => c <> RootDir) (Normal <$> ns)) as Hn.
  { intros ns. split; apply Forall_fmap, Forall_true; by intros ?. }
  intros [(ns & -> & _)|(dir & n & b & -> & (ns & -> & _) & _)].
  - split; [constructor; [done|apply Hn]|apply Hn].
  - cbn [app]. change [Normal n] with (Normal <$> [n]). unfold rooted_tail. cbn [drop].
    rewrite <- fmap_app. split; [constructor; [done|]|]; apply Hn.
Qed.

Section guard.
Context `{StrEnv}.

(** Every path the guard lets through lies under the workspace, with no [..]
    left, and is its own real location when it exists. *)
Lemma workspace_guard w d p ws c :
  real_dir d ws -> cwd d = ws -> ensure_in_workspace w d p ws = Ok c ->
  (exists ns, c = ws ++ (Normal <$> ns)) /\
  (path_exists d (path_join ws (components p)) = true -> real d c).
Proof.
  intros Hw Hc. unfold ensure_in_workspace, validate_path. cbn [in_workspace canonical].
  set (full := if is_absolute _ then _ else _).
  assert (full = path_join ws (components p)) as Ef.
  { unfold full, path_join. by destruct (is_absolute (components p)). }
  clearbody full. subst full. destruct (path_starts_with _ ws) eqn:E; [|done]. intros [= <-].
  apply path_starts_with_spec in E as [r Hr]. unfold path_exists.
  assert (rooted_tail ws) as Htw by (apply (real_plain d ws); by left).
  destruct (canonicalize d (path_join ws (components p))) as [c|] eqn:Ec.
  - change (default ?x (Some ?y)) with y in *. assert (real d c) as Hreal.
    { eapply walk_real; [|exact Ec]. by rewrite Hc. }
    split; [|done]. subst c. destruct (real_plain _ _ Hreal) as [Hp Ht].
    destruct Hw as (ns & -> & _). destruct (plain_tail_normal r) as [ms ->]; [..|by exists ms].
    + by apply Forall_app in Hp as [_ ?].
    + unfold rooted_tail in Ht. cbn [app drop] in Ht. by apply Forall_app in Ht as [_ ?].
  - change (default ?x (@None _)) with x in *. split; [|done].
    pose proof (normalize_plain (path_join ws (components p))) as Hp.
    pose proof (normalize_tail _ (join_tail ws p Htw)) as Ht. rewrite Hr in Hp, Ht.
    destruct Hw as (ns & -> & _). destruct (plain_tail_normal r) as [ms ->]; [..|by exists ms].
    + by apply Forall_app in Hp as [_ ?].
    + unfold rooted_tail in Ht. cbn [app drop] in Ht. by apply Forall_app in Ht as [_ ?].
Qed.

(** A new file named without [..] is let through under its own name. *)
Lemma guard_new w d p ws ns :
  real_dir d ws -> components p = Normal <$> ns -> ns <> [] ->
  canonicalize d (ws ++ (Normal <$> ns)) = None ->
  canonical (validate_path w d p ws) = ws ++ (Normal <$> ns) /\ in_workspace (validate_path w d p ws) = true.
Proof.
  intros (ms & -> & _) Hp Hn Hc. unfold validate_path. cbn [in_workspace canonical]. rewrite Hp.
  assert (path_join (RootDir :: (Normal <$> ms)) (Normal <$> ns) = (RootDir :: (Normal <$> ms)) ++ (Normal <$> ns)) as ->.
  { unfold path_join. by destruct ns as [|n ns]. }
  replace (is_absolute (Normal <$> ns)) with false by (by destruct ns). rewrite Hc.
  change (default ?x (@None _)) with x. cbn [app]. rewrite <- fmap_app, normalize_rooted, fmap_app.
  split; [done|]. apply path_starts_with_spec. by exists (Normal <$> ns).
Qed.

Lemma canonicalize_link d ws l t r :
  real_dir d ws -> real_dir d t -> nodes d !! (ws ++ [Normal l]) = Some (NLink t) ->
  canonicalize d (ws ++ Normal l :: r) = walk (MAX_LINKS - 1) d t r.
Proof.
  intros (ns & -> & Hn) (ts & -> & Ht) Hl. unfold canonicalize. cbn [app]. rewrite walk_root, walk_dir by done.
  cbn [app] in *. change MAX_LINKS with (S 39). change (S 39 - 1) with 39. generalize 39. intros k.
  transitivity (walk k d (RootDir :: (Normal <$> ns)) ((RootDir :: (Normal <$> ts)) ++ r)); [cbn; by rewrite Hl|].
  by rewrite <- app_comm_cons, walk_root, walk_dir by done.
Qed.

(** A directory link inside the workspace leads a new file out of it: the path
    through the link is accepted, and creating the file there creates it in
    the directory the link points to. *)
Lemma guard_follows_link w d ws l t n p :
  cwd d = ws -> real_dir d ws -> real_dir d t -> nodes d !! (ws ++ [Normal l]) = Some (NLink t) ->
  nodes d !! (t ++ [Normal n]) = None -> components p = [Normal l; Normal n] ->
  ensure_in_workspace w d p ws = Ok (ws ++ [Normal l; Normal n]) /\
  locate MAX_LINKS d (ws ++ [Normal l; Normal n]) = Some (t ++ [Normal n]).
Proof.
  intros Hc Hw Ht Hl Hn Hp.
  assert (canonicalize d (ws ++ [Normal l; Normal n]) = None) as Hnone.
  { rewrite (canonicalize_link d ws l t) by done. unfold MAX_LINKS. cbn. by rewrite Hn. }
  split.
  - unfold ensure_in_workspace. destruct (guard_new w d p ws [l; n]) as [-> ->]; done.
  - assert (entry d (ws ++ [Normal l; Normal n]) = Some (t ++ [Normal n])) as He.
    { pose proof (entry_real d t n Ht) as E. unfold entry in *. rewrite last_snoc, removelast_last in E.
      change [Normal l; Normal n] with ([Normal l] ++ [Normal n]). rewrite app_assoc, last_snoc, removelast_last.
      rewrite (canonicalize_link d ws l t []) by done. rewrite canonicalize_real in E by by left. done. }
    unfold MAX_LINKS. cbn [locate]. by rewrite He, Hn.
Qed.
End guard.

(** ** Reading of [.gitignore] *)

(** The recursive form is taken for a suffix: it skips only names that end in
    the literal text after the first star. *)
Lemma recursive_pattern_is_suffix name path_str :
  ends_with "/" ("**/" +:+ name) = false ->
  pattern_skips path_str ("**/" +:+ name) = ends_with ("*/" +:+ name) path_str.
Proof. intros E. unfold pattern_skips. by rewrite E. Qed.

(** A directory pattern skips every path that contains its text. *)
Example directory_pattern_overmatches : pattern_skips "src/catalog.rs" "log/" = true.
Proof. by vm_compute. Qed.

(** Source files are refused for their names. *)
Example source_is_sensitive :
  is_sensitive_file (H := ascii_env) (components "/ws/sampler/token_budget.rs") = true /\
  is_sensitive_file (H := ascii_env) (components "/ws/src/keyboard.rs") = true.
Proof. by vm_compute. Qed.
