(* ===== verification/ToolFormat.v ===== *)
(** * Formatting of tool output

    [tools/output_formatter.rs]: truncation by bytes and by lines, line numbers,
    file headers, the context shown after an edit and the line-by-line diff.
    [None] is a panic (a byte slice off a character boundary).  Numbers of
    lines are [nat]; the subtractions the code leaves unchecked wrap at 64
    bits. *)

From S2P Require Import Prelude RustStr TextLines TextFind.
From stdpp Require Import pretty.

Definition DEFAULT_MAX_OUTPUT_CHARS : nat := N.to_nat 50000.
Definition DEFAULT_MAX_LINES : nat := N.to_nat 2000.

Definition line_str (s : string) : string := s +:+ str1 nl.
Definition nl2 : string := String nl (str1 nl).

(** A number as the code computes it in [usize]. *)
Definition show_usize (z : Z) : string := pretty (Z.to_N (wrap 64 z)).

(** [{:>width$}] *)
Fixpoint spaces (n : nat) : string :=
  match n with O => EmptyString | S n => String " " (spaces n) end.
Definition pad_left (width : nat) (s : string) : string := spaces (width - String.length s) +:+ s.

Definition truncate_output (output : string) (max_chars : nat) : option string :=
  if String.length output <=? max_chars then Some output
  else truncated ← slice_to output max_chars;
       Some (truncated +:+ nl2 +:+ "... [截断，显示 " +:+ show max_chars +:+ " / "
             +:+ show (String.length output) +:+ " 字符]").

Definition truncate_lines (content : string) (max_lines : nat) : string :=
  let ls := lines content in
  if length ls <=? max_lines then content
  else join_char nl (take max_lines ls) +:+ nl2 +:+ "... [截断，显示前 " +:+ show max_lines +:+ " 行]".

(** [floor(log10 n) + 1], at least 4. *)
Definition number_width (n : nat) : nat := String.length (show n) `max` 4.

Definition numbered (width start_line : nat) (ls : list string) : string :=
  join_char nl (imap (fun i line => pad_left width (show (start_line + i)) +:+ "→" +:+ line) ls).

Definition format_with_line_numbers (content : string) (start_line : nat) : string :=
  numbered (number_width (length (lines content) + start_line)) start_line (lines content).

Definition format_range_with_line_numbers (content : string) (start_line end_line : nat) : string :=
  numbered (number_width end_line) start_line (lines content).

(** [{:.1}] of [n / d]: one decimal, ties to even. *)
Definition fixed1 (n d : Z) : string :=
  let q := (10 * n / d)%Z in
  let r := (10 * n - q * d)%Z in
  let q := if (2 * r <? d)%Z then q else if (d <? 2 * r)%Z then (q + 1)%Z
           else if Z.even q then q else (q + 1)%Z in
  pretty (q / 10)%Z +:+ "." +:+ pretty (q mod 10)%Z.

Definition format_file_header (path : string) (size_bytes : Z) : string :=
  let size_str :=
    if (size_bytes <? 1024)%Z then pretty size_bytes +:+ " bytes"
    else if (size_bytes <? 1024 * 1024)%Z then fixed1 size_bytes 1024 +:+ " KB"
    else fixed1 size_bytes (1024 * 1024) +:+ " MB" in
  line_str ("→ " +:+ path) +:+ line_str ("   大小: " +:+ size_str).

Definition row (mark : string) (ln : Z) (line : string) : string :=
  line_str (mark +:+ " " +:+ pad_left 4 (show_usize ln) +:+ " | " +:+ line).

(** The lines around an edit point. *)
Definition context_rows (line_num : nat) (before : list string) (line : string) (after : list string) : string :=
  str_concat (imap (fun i l => row " " (Z.of_nat line_num - Z.of_nat (length before) + Z.of_nat i) l) before)
  +:+ row "→" (Z.of_nat line_num) line
  +:+ str_concat (imap (fun i l => row " " (Z.of_nat (line_num + i + 1)) l) after).

Definition format_search_result (line_num : nat) (content : string) (before after : list string) : string :=
  context_rows line_num before content after.

Definition format_error (tool path error : string) : string :=
  "错误[" +:+ tool +:+ "] " +:+ path +:+ ": " +:+ error.

Definition format_edit_result (path : string) (line_num : nat) (before : list string) (edited : string)
    (after : list string) : string :=
  line_str ("已编辑 " +:+ path) +:+ context_rows line_num before edited after.

(** ** The diff *)

Inductive DiffLine := Same (l : string) | Minus (l : string) | Plus (l : string).

Definition render (x : DiffLine) : string :=
  match x with Same l => line_str (" " +:+ l) | Minus l => line_str ("-" +:+ l) | Plus l => line_str ("+" +:+ l) end.

(** The first index where two lists differ, up to the shorter one's end. *)
Fixpoint first_diff (a b : list string) : option nat :=
  match a, b with
  | x :: a', y :: b' => if bool_decide (x = y) then S <$> first_diff a' b' else Some 0
  | _, _ => None
  end.

(** The lines at position [i], an absent one read as empty. *)
Definition diff_at (o m : list string) (i : nat) : list DiffLine :=
  let ol := default "" (o !! i) in
  let ml := default "" (m !! i) in
  if bool_decide (ol = ml) then [Same ol]
  else (if negb (bool_decide (ol = "")) || (i <? length o) then [Minus ol] else [])
       ++ (if negb (bool_decide (ml = "")) || (i <? length m) then [Plus ml] else []).

Definition diff_tail_at (o m : list string) (i : nat) : list DiffLine :=
  match o !! i, m !! i with
  | Some ol, Some ml => if bool_decide (ol = ml) then [Same ol] else [Minus ol; Plus ml]
  | Some ol, None => [Minus ol]
  | None, Some ml => [Plus ml]
  | None, None => []
  end.

Definition diff_header (path : string) (os oc ms mc : Z) : string :=
  line_str ("--- " +:+ path) +:+ line_str ("+++ " +:+ path)
  +:+ line_str ("@@ -" +:+ show_usize os +:+ "," +:+ show_usize oc +:+ " +" +:+ show_usize ms +:+ ","
                +:+ show_usize mc +:+ " @@").

(** The window shown: from before the first difference to after the last one,
    counted in the lines of the original. *)
Definition diff_window (o m : list string) (context_lines : nat) : option (nat * nat) :=
  first ← first_diff o m;
  back ← first_diff (reverse o) (reverse m);
  let last := length o - back in
  Some (first - context_lines, (last + context_lines) `min` (length o `max` length m)).

Definition diff_body (o m : list string) (s e : nat) : list DiffLine :=
  mjoin (diff_at o m <$> seq s (e - s)).

Definition generate_unified_diff (original modified path : string) (context_lines : nat) : string :=
  let o := lines original in
  let m := lines modified in
  match diff_window o m context_lines with
  | Some (s, e) =>
      let count := (Z.of_nat e - Z.of_nat s)%Z in
      diff_header path (Z.of_nat s + 1) count (Z.of_nat s + 1) count
      +:+ str_concat (render <$> diff_body o m s e)
  | None =>
      if length o =? length m then "（无变更）"
      else diff_header path 1 (Z.of_nat (length o)) 1 (Z.of_nat (length m))
           +:+ str_concat (render <$> mjoin (diff_tail_at o m <$> seq 0 (length o `max` length m)))
  end.

Definition old_side (l : list DiffLine) : list string :=
  omap (fun x => match x with Same s | Minus s => Some s | Plus _ => None end) l.
Definition new_side (l : list DiffLine) : list string :=
  omap (fun x => match x with Same s | Plus s => Some s | Minus _ => None end) l.

(** ** Proofs *)

Lemma first_diff_some a b i :
  first_diff a b = Some i ->
  i < length a /\ i < length b /\ a !! i <> b !! i /\ forall j, j < i -> a !! j = b !! j.
Proof.
  revert b i. induction a as [|x a IH]; intros [|y b] i; cbn [first_diff]; try done.
  case_bool_decide as E.
  - destruct (first_diff a b) as [k|] eqn:F; [|done]. intros [= <-].
    destruct (IH b k F) as (? & ? & ? & Hj). cbn. split_and!; [lia|lia|done|].
    intros [|j] Hlt; [by rewrite E|]. apply Hj. lia.
  - intros [= <-]. cbn. split_and!; [lia|lia|naive_solver|lia].
Qed.

Lemma first_diff_none a b : length a = length b -> first_diff a b = None -> a = b.
Proof.
  revert b. induction a as [|x a IH]; intros [|y b]; try done. cbn. intros Hl.
  case_bool_decide as E; [|done]. subst. destruct (first_diff a b) eqn:F; [done|].
  intros _. f_equal. apply IH; [lia|done].
Qed.

Lemma first_diff_refl a : first_diff a a = None.
Proof. induction a as [|x a IH]; [done|]. cbn. rewrite bool_decide_true by done. by rewrite IH. Qed.

(** Between texts with as many lines, the window covers every difference. *)
Lemma window_covers o m ctx s e i :
  length o = length m -> diff_window o m ctx = Some (s, e) ->
  o !! i <> m !! i -> s <= i < e /\ e <= length o.
Proof.
  intros Hl Hw Hi. unfold diff_window in Hw.
  destruct (first_diff o m) as [f|] eqn:Ef; [|done]. cbn in Hw.
  destruct (first_diff (reverse o) (reverse m)) as [b|] eqn:Eb; [|done]. cbn in Hw. injection Hw as <- <-.
  destruct (first_diff_some _ _ _ Ef) as (Hf1 & _ & _ & Hf). destruct (first_diff_some _ _ _ Eb) as (Hb1 & _ & _ & Hb).
  rewrite length_reverse in Hb1.
  assert (i < length o) as Hlt.
  { destruct (decide (i < length o)); [done|]. rewrite !lookup_ge_None_2 in Hi by lia. done. }
  assert (f <= i) by (destruct (decide (i < f)) as [Hif|]; [by apply Hf in Hif|lia]).
  assert (i < length o - b).
  { destruct (decide (i < length o - b)); [done|]. exfalso. apply Hi.
    specialize (Hb (length o - 1 - i)). 
    rewrite !reverse_lookup in Hb by lia. rewrite <- Hl in Hb.
    replace (length o - S (length o - 1 - i)) with i in Hb by lia. apply Hb. lia. }
  lia.
Qed.

Lemma lookup_slice (l : list string) s k : s + k <= length l ->
  mjoin ((fun i => [default "" (l !! i)]) <$> seq s k) = take k (drop s l).
Proof.
  revert s. induction k as [|k IH]; intros s Hs; [done|]. cbn [seq fmap list_fmap mjoin list_join].
  rewrite IH by lia. destruct (lookup_lt_is_Some_2 l s) as [x Hx]; [lia|]. rewrite Hx.
  erewrite (drop_S l x s) by done. done.
Qed.

Lemma old_side_app a b : old_side (a ++ b) = old_side a ++ old_side b.
Proof. apply omap_app. Qed.
Lemma new_side_app a b : new_side (a ++ b) = new_side a ++ new_side b.
Proof. apply omap_app. Qed.

Lemma side_old o m s k : s + k <= length o -> s + k <= length m ->
  old_side (mjoin (diff_at o m <$> seq s k)) = take k (drop s o) /\
  new_side (mjoin (diff_at o m <$> seq s k)) = take k (drop s m).
Proof.
  intros Ho Hm. rewrite <- !lookup_slice by done. revert s Ho Hm.
  induction k as [|k IH]; intros s Ho Hm; [done|]. cbn [seq]. rewrite !fmap_cons.
  repeat change (mjoin (?a :: ?b)) with (a ++ mjoin b).
  destruct (IH (S s)) as [Eo En]; [lia..|]. rewrite old_side_app, new_side_app, Eo, En.
  unfold diff_at. set (a := default "" (o !! s)). set (b := default "" (m !! s)).
  replace (s <? length o) with true by (symmetry; apply Nat.ltb_lt; lia).
  replace (s <? length m) with true by (symmetry; apply Nat.ltb_lt; lia).
  rewrite !orb_true_r. case_bool_decide as E; [|done]. by rewrite <- E.
Qed.

(** For texts with as many lines the diff is exact: equal texts say so;
    otherwise one hunk whose header counts its lines covers every difference,
    and its two sides are the lines of the two texts in that range. *)
Lemma diff_exact original modified path ctx :
  let o := lines original in let m := lines modified in
  length o = length m ->
  (o = m /\ generate_unified_diff original modified path ctx = "（无变更）") \/
  (exists s e body,
     (forall i, o !! i <> m !! i -> s <= i < e) /\ s < e <= length o /\
     generate_unified_diff original modified path ctx =
       diff_header path (Z.of_nat (s + 1)) (Z.of_nat (e - s)) (Z.of_nat (s + 1)) (Z.of_nat (e - s))
       +:+ str_concat (render <$> body) /\
     old_side body = take (e - s) (drop s o) /\ new_side body = take (e - s) (drop s m)).
Proof.
  intros o m Hl. unfold generate_unified_diff. fold o m. destruct (diff_window o m ctx) as [[s e]|] eqn:Ew.
  - right. exists s, e, (diff_body o m s e).
    assert (exists i, o !! i <> m !! i) as [i Hi].
    { unfold diff_window in Ew. destruct (first_diff o m) as [f|] eqn:Ef; [|done].
      exists f. by apply (first_diff_some _ _ _ Ef). }
    destruct (window_covers _ _ _ _ _ _ Hl Ew Hi) as [Hs He].
    split_and!; [intros j Hj; by apply (window_covers _ _ _ _ _ _ Hl Ew Hj)|lia|lia| |..].
    + f_equal. f_equal; lia.
    + apply side_old; lia.
    + apply side_old; lia.
  - left. rewrite (proj2 (Nat.eqb_eq _ _) Hl). split; [|done].
    unfold diff_window in Ew. destruct (first_diff o m) as [f|] eqn:Ef; [|by apply first_diff_none].
    destruct (first_diff (reverse o) (reverse m)) as [b|] eqn:Eb; [done|].
    apply first_diff_none in Eb; [|by rewrite !length_reverse]. apply (f_equal reverse) in Eb.
    by rewrite !reverse_involutive in Eb.
Qed.

(** ** A duplicated line *)

Lemma first_diff_common p a b : first_diff (p ++ a) (p ++ b) = Nat.add (length p) <$> first_diff a b.
Proof.
  induction p as [|x p IH]; cbn; [by destruct (first_diff a b)|].
  rewrite bool_decide_true by done. rewrite IH. by destruct (first_diff a b).
Qed.

Lemma first_diff_here p (x y : string) a b : x <> y -> first_diff (p ++ x :: a) (p ++ y :: b) = Some (length p).
Proof. intros Hn. rewrite first_diff_common. cbn. rewrite bool_decide_false by done. cbn. by rewrite Nat.add_0_r. Qed.

Lemma window_of_duplicate A (a x b : string) B L ctx :
  x <> a -> x <> b -> ctx <= L ->
  diff_window (A ++ a :: replicate L x ++ b :: B) (A ++ a :: replicate (S L) x ++ b :: B) ctx =
  Some (length A + 1 + L - ctx, length A + 1 + ctx).
Proof.
  intros Ha Hb Hc. unfold diff_window.
  assert (A ++ a :: replicate L x ++ b :: B = (A ++ a :: replicate L x) ++ b :: B) as E1.
  { by rewrite <- app_assoc, <- app_comm_cons. }
  assert (A ++ a :: replicate (S L) x ++ b :: B = (A ++ a :: replicate L x) ++ x :: b :: B) as E2.
  { rewrite replicate_S_end, <- !app_assoc. done. }
  assert (first_diff (A ++ a :: replicate L x ++ b :: B) (A ++ a :: replicate (S L) x ++ b :: B)
          = Some (length A + S L)) as ->.
  { rewrite E1, E2, first_diff_here by done. rewrite length_app. cbn [length]. by rewrite length_replicate. }
  assert (first_diff (reverse (A ++ a :: replicate L x ++ b :: B)) (reverse (A ++ a :: replicate (S L) x ++ b :: B))
          = Some (S (length B) + L)) as ->.
  { assert (forall n, reverse (A ++ a :: replicate n x ++ b :: B) = (reverse B ++ [b]) ++ replicate n x ++ a :: reverse A) as Hr.
    { intros n. rewrite !reverse_app, !reverse_cons, reverse_app, reverse_cons, reverse_replicate, <- !app_assoc. done. }
    rewrite !Hr, replicate_S_end, <- !(app_assoc (replicate L x)). cbn [app].
    rewrite (app_assoc (_ ++ _) (replicate L x)), (app_assoc (_ ++ _) (replicate L x) (x :: _)).
    rewrite first_diff_here by done. rewrite !length_app, length_reverse, length_replicate. cbn [length]. f_equal. lia. }
  cbn [mbind option_bind]. rewrite !length_app. cbn [length]. rewrite !length_app, !length_replicate. cbn [length].
  f_equal. f_equal; lia.
Qed.

(** Doubling a line inside a run of more than twice the context: the window
    ends before it starts, the header counts [2^64] less the gap, and no line
    is shown. *)
Lemma diff_of_duplicate original modified path A a x b B L ctx :
  lines original = A ++ a :: replicate L x ++ b :: B ->
  lines modified = A ++ a :: replicate (S L) x ++ b :: B ->
  x <> a -> x <> b -> 2 * ctx < L ->
  let start := Z.of_nat (length A + 2 + L - ctx) in
  let count := (2 ^ 64 - Z.of_nat (L - 2 * ctx))%Z in
  generate_unified_diff original modified path ctx = diff_header path start count start count.
Proof.
  intros Ho Hm Ha Hb Hc start count. unfold generate_unified_diff. rewrite Ho, Hm, window_of_duplicate by (done || lia).
  unfold diff_body. replace (length A + 1 + ctx - (length A + 1 + L - ctx)) with 0 by lia. cbn [seq fmap list_fmap].
  change (str_concat (render <$> mjoin [])) with "". rewrite str_app_nil_r.
  replace (Z.of_nat (length A + 1 + L - ctx) + 1)%Z with start by lia.
  unfold diff_header.
  assert (show_usize (Z.of_nat (length A + 1 + ctx) - Z.of_nat (length A + 1 + L - ctx)) = show_usize count) as ->; [|done].
  unfold show_usize, wrap, count. do 2 f_equal. rewrite <- (Z.mod_add (_ - _) 1 (2 ^ 64)) by done. f_equal. lia.
Qed.

Definition seven_blank : string := unlines ["a"; "x"; "x"; "x"; "x"; "x"; "x"; "x"; "b"].
Definition eight_blank : string := unlines ["a"; "x"; "x"; "x"; "x"; "x"; "x"; "x"; "x"; "b"].

Example duplicate_diff : generate_unified_diff seven_blank eight_blank "f" 3 =
  line_str "--- f" +:+ line_str "+++ f" +:+ line_str "@@ -6,18446744073709551615 +6,18446744073709551615 @@".
Proof. by vm_compute. Qed.

(** A deletion is shown as if every later line of the window had changed. *)
Example deletion_diff : generate_unified_diff (unlines ["a"; "b"; "c"; "d"; "e"; "f"; "g"; "h"])
    (unlines ["a"; "c"; "d"; "e"; "f"; "g"; "h"]) "f" 1 =
  line_str "--- f" +:+ line_str "+++ f" +:+ line_str "@@ -1,3 +1,3 @@" +:+ line_str " a"
  +:+ line_str "-b" +:+ line_str "+c" +:+ line_str "-c" +:+ line_str "+d".
Proof. by vm_compute. Qed.

Lemma truncate_ascii s n : is_ascii s = true -> exists r, truncate_output s n = Some r.
Proof.
  intros Hs. unfold truncate_output. destruct (String.length s <=? n) eqn:E; [by eexists|]. zbool.
  unfold slice_to. rewrite ascii_boundary by (done || lia). by eexists.
Qed.
