(* ===== verification/FileTools.v ===== *)
(** * The file tools: read, write and edit

    [tools/builtin.rs] (ReadExecutor, WriteExecutor, EditExecutor) with what
    they use: [tools/read_tracker.rs] (the files read in the session),
    [tools/file_transaction.rs] (TempFileGuard) and the path checks.  A call
    takes the arguments as JSON and returns the new state and [Done] with a
    text or an error text, or [Panicked] with the state the panic leaves. *)

From S2P Require Import Prelude RustStr F64 Json Permission TextLines TextFind StdPath Fs PathGuard ToolFormat.
From stdpp Require Import pretty.

(** ** State *)

Record ToolState := mkTools { disk : Disk; read_files : gset string }.

Inductive Outcome := Done (r : result string string) | Panicked.

Definition on_disk (st : ToolState) (d : Disk) : ToolState := mkTools d (read_files st).

(** ** The read tracker (read_tracker.rs) *)

Definition mark_read (p : string) (st : ToolState) : ToolState := mkTools (disk st) ({[p]} ∪ read_files st).
Definition has_been_read (p : string) (st : ToolState) : bool := bool_decide (p ∈ read_files st).
Definition require_read (p : string) (st : ToolState) : result string unit :=
  if has_been_read p st then Ok tt
  else Err ("必须先读取文件 " +:+ p +:+ " 才能写入或编辑。" +:+ str1 nl +:+ "请先使用 read 工具读取此文件。").
Definition clear_reads (st : ToolState) : ToolState := mkTools (disk st) ∅.

(** ** Temporary files (file_transaction.rs) *)

Record TempFileGuard := mkGuard { guard_path : path; committed : bool }.
Definition guard_new (p : path) : TempFileGuard := mkGuard p false.

Definition guard_drop (w : Faults) (g : TempFileGuard) (d : Disk) : Disk :=
  if negb (committed g) && path_exists d (guard_path g) then (fs_remove w d (guard_path g)).1 else d.

(** Committing drops the guard too. *)
Definition guard_commit (w : Faults) (g : TempFileGuard) (d : Disk) : Disk :=
  guard_drop w (mkGuard (guard_path g) true) d.

(** ** Searching and replacing text *)

(** [s.chars()], each as a string. *)
Fixpoint char_strings (fuel : nat) (s : string) : list string :=
  match fuel, s with
  | S f, String _ _ => chars_take 1 s :: char_strings f (chars_skip 1 s)
  | _, _ => []
  end.

(** The pieces of [s] between the matches of [from]; the empty text matches at
    every character boundary. *)
Definition pieces (from s : string) : list string :=
  if bool_decide (from = "") then "" :: char_strings (String.length s) s ++ [""] else split_str from s.

(** [s.matches(from).count()], [s.replace(from, to)], [s.replacen(from, to, 1)]. *)
Definition match_count (from s : string) : nat := length (pieces from s) - 1.
Definition replace_all (from to s : string) : string := join_str to (pieces from s).
Definition replace_first (from to s : string) : string :=
  match find_str from s with
  | Some n => str_take n s +:+ to +:+ str_drop (n + String.length from) s
  | None => s
  end.

(** [&v[a..b]] *)
Definition sub_slice (l : list string) (a b : nat) : option (list string) :=
  if (a <=? b) && (b <=? length l) then Some (take (b - a) (drop a l)) else None.

Definition quote : ascii := ascii_of_nat 34.

(** ** Edit helpers (builtin.rs) *)

Record EditContext := mkContext { before : list string; edited : string; after : list string }.

Fixpoint find_edit_from (i : nat) (ls : list string) (old_text : string) : nat :=
  match ls with
  | [] => 1
  | line :: r =>
      if str_contains old_text line || existsb (fun l => str_contains l line) (lines old_text)
      then i + 1 else find_edit_from (i + 1) r old_text
  end.
Definition find_edit_line (content old_text : string) : nat := find_edit_from 0 (lines content) old_text.

Definition get_edit_context (content : string) (edit_line context_size : nat) : option EditContext :=
  let ls := lines content in
  let edit_idx := edit_line - 1 in
  let before_start := edit_idx - context_size in
  before ← sub_slice ls before_start edit_idx;
  let edited := default "" (ls !! edit_idx) in
  let after_end := (edit_idx + context_size + 1) `min` length ls in
  after ← sub_slice ls (edit_idx + 1) after_end;
  Some (mkContext before edited after).

Section tools.
Context `{StrEnv}.
(** The text of an I/O error, and the filter built once from [.gitignore]. *)
Context (io_text : IoError -> string) (gitignore : GitignoreFilter).

(** ** read *)

Definition read_failed (p : string) (e : IoError) : string :=
  match e with
  | NotFound => "read: 文件 " +:+ p +:+ " 不存在"
  | PermissionDenied => "read: 无权限读取 " +:+ p
  | IsADirectory => "read: " +:+ p +:+ " 是目录，请使用 list_dir"
  | e => "read: 读取 " +:+ p +:+ " 失败：" +:+ io_text e
  end.

(** The page shown: [None] when the slice is out of range. *)
Definition read_page (content : string) (offset limit : Z) : option (nat * nat * list string) :=
  let ls := lines content in
  let start := ((Z.max offset 1 `min` (Z.of_nat (length ls) + 1)) - 1)%Z in
  let stop := (wrap 64 (start + limit) `min` Z.of_nat (length ls))%Z in
  selected ← sub_slice ls (Z.to_nat start) (Z.to_nat stop);
  Some (Z.to_nat start, Z.to_nat stop, selected).

Definition read_output (p content : string) (offset limit : Z) (show_line_numbers : bool) : option string :=
  '(start, stop, selected) ← read_page content offset limit;
  let slice := join_char nl selected in
  let total := length (lines content) in
  Some (format_file_header p (Z.of_nat (String.length content))
        +:+ (if (0 <? offset)%Z || (stop <? total)
             then line_str ("   行 " +:+ show (start + 1) +:+ "-" +:+ show stop +:+ " / " +:+ show total) else "")
        +:+ str1 nl
        +:+ (if show_line_numbers then format_with_line_numbers slice (start + 1) else slice)).

Definition large_file_text (p content : string) : string :=
  line_str ("read: 文件较大 (" +:+ fixed1 (Z.of_nat (String.length content)) (1024 * 1024) +:+ " MB, "
            +:+ show (length (lines content)) +:+ " 行)")
  +:+ line_str "  建议使用 offset 和 limit 参数分页读取"
  +:+ "  示例: read(path=" +:+ str1 quote +:+ p +:+ str1 quote +:+ ", offset=1, limit=100)".

Definition read_execute (w : Faults) (st : ToolState) (args : Value) : ToolState * Outcome :=
  match as_str_opt (vindex args "path") with
  | None => (st, Done (Err "read: 缺少 path 参数"))
  | Some p =>
      let offset := default 0%Z (as_u64 (vindex args "offset")) in
      let limit := default 2000%Z (as_u64 (vindex args "limit")) in
      let show_line_numbers := default true (as_bool (vindex args "show_line_numbers")) in
      let v := validate_path w (disk st) p (cwd (disk st)) in
      if negb (in_workspace v) then (st, Done (Err ("read: 路径 " +:+ p +:+ " 在工作目录外，操作被拒绝")))
      else if is_binary v then
        (st, Done (Err ("read: " +:+ p +:+ " 是二进制文件，无法以文本方式读取" +:+ str1 nl
                        +:+ "  文件大小: 请使用 bash 工具查看")))
      else if is_sensitive v then
        (st, Done (Err ("read: " +:+ p +:+ " 可能包含敏感信息，读取被拒绝" +:+ str1 nl
                        +:+ "  如确需读取，请使用 bash: cat " +:+ p)))
      else if should_skip gitignore (canonical v) then
        (st, Done (Err ("read: 文件 " +:+ p +:+ " 被 .gitignore 忽略")))
      else match fs_read_text w (disk st) (canonical v) with
           | Err e => (st, Done (Err (read_failed p e)))
           | Ok content =>
               let st := mark_read p st in
               if (1048576 <? Z.of_nat (String.length content))%Z && (offset =? 0)%Z && (limit =? 2000)%Z
               then (st, Done (Ok (large_file_text p content)))
               else match read_output p content offset limit show_line_numbers with
                    | Some text => (st, Done (Ok text))
                    | None => (st, Panicked)
                    end
           end
  end.

(** ** write *)

(** Write a temporary file beside [c] and rename it over [c]; the guard removes
    what is left at the temporary path. *)
Definition write_through_temp (w : Faults) (d : Disk) (c : path) (content : string)
    : Disk * result (bool * IoError) unit :=
  let tmp := with_extension c "tmp" in
  let g := guard_new tmp in
  match fs_write w d tmp content with
  | (d, Err e) => (guard_drop w g d, Err (false, e))
  | (d, Ok _) =>
      match fs_rename w d tmp c with
      | (d, Err e) => (guard_drop w g d, Err (true, e))
      | (d, Ok _) => (guard_drop w g d, Ok tt)
      end
  end.

Definition write_execute (w : Faults) (st : ToolState) (args : Value) : ToolState * Outcome :=
  match as_str_opt (vindex args "path"), as_str_opt (vindex args "content") with
  | None, _ => (st, Done (Err "write: 缺少 path 参数"))
  | Some _, None => (st, Done (Err "write: 缺少 content 参数"))
  | Some p, Some content =>
      let v := validate_path w (disk st) p (cwd (disk st)) in
      if negb (in_workspace v) then (st, Done (Err ("write: 路径 " +:+ p +:+ " 在工作目录外，操作被拒绝")))
      else
        match (if path_exists (disk st) (canonical v) then require_read p st else Ok tt) with
        | Err e => (st, Done (Err e))
        | Ok _ =>
            if has_char nul content then
              (st, Done (Err ("write: 内容包含 NUL 字节，可能是二进制数据" +:+ str1 nl
                              +:+ "  二进制文件请使用 bash: base64/xxd 等工具")))
            else
              let '(d, r) := match parent (canonical v) with
                             | Some dir => create_dir_all w (disk st) dir
                             | None => (disk st, Ok tt)
                             end in
              match r with
              | Err e => (on_disk st d, Done (Err (io_text e)))
              | Ok _ =>
                  match write_through_temp w d (canonical v) content with
                  | (d, Err (false, e)) => (on_disk st d, Done (Err ("write: 写入临时文件失败：" +:+ io_text e)))
                  | (d, Err (true, e)) => (on_disk st d, Done (Err ("write: 重命名到目标路径失败：" +:+ io_text e)))
                  | (d, Ok _) =>
                      match fs_read_text w d (canonical v) with
                      | Err e => (on_disk st d, Done (Err ("write: 验证写入失败：" +:+ io_text e)))
                      | Ok verified =>
                          if String.length verified =? String.length content then
                            (on_disk st d, Done (Ok ("已写入 " +:+ p +:+ " (" +:+ show (String.length content)
                                                     +:+ " bytes, 已验证)")))
                          else
                            (on_disk st d, Done (Err ("write: 验证失败，写入 " +:+ show (String.length content)
                               +:+ " 字节但验证到 " +:+ show (String.length verified) +:+ " 字节")))
                      end
                  end
              end
        end
  end.

(** ** edit *)

Definition atomic_write (w : Faults) (d : Disk) (c : path) (content : string) : Disk * result string unit :=
  match write_through_temp w d c content with
  | (d, Ok _) => (d, Ok tt)
  | (d, Err (false, e)) => (d, Err ("写入临时文件失败：" +:+ io_text e))
  | (d, Err (true, e)) => (d, Err ("重命名失败：" +:+ io_text e))
  end.

Definition edit_read (w : Faults) (d : Disk) (c : path) : result string string :=
  match fs_read_text w d c with
  | Ok content => Ok content
  | Err e => Err ("edit: 读取 " +:+ display c +:+ " 失败：" +:+ io_text e)
  end.

(** The new text of a replacement, or why there is none. *)
Definition replacement (content old_text new_text : string) (all : bool) : result string string :=
  let count := match_count old_text content in
  if count =? 0 then Err "edit: 未找到搜索文本"
  else if all then Ok (replace_all old_text new_text content)
  else if 1 <? count then
    Err ("edit: 找到 " +:+ show count +:+ " 处匹配，请提供更具体的上下文或设置 replace_all=true")
  else Ok (replace_first old_text new_text content).

Definition edit_report (content new_content old_text : string) (c : path) : option string :=
  let diff := generate_unified_diff content new_content (display c) 3 in
  let edit_line := find_edit_line content old_text in
  ctx ← get_edit_context new_content edit_line 3;
  Some (format_edit_result (display c) edit_line (before ctx) (edited ctx) (after ctx)
        +:+ nl2 +:+ line_str "Diff:" +:+ diff).

Definition execute_replace (w : Faults) (st : ToolState) (args : Value) (c : path) : ToolState * Outcome :=
  match as_str_opt (vindex args "old_text"), as_str_opt (vindex args "new_text") with
  | None, _ => (st, Done (Err "edit: 缺少 old_text 参数"))
  | Some _, None => (st, Done (Err "edit: 缺少 new_text 参数"))
  | Some old_text, Some new_text =>
      match edit_read w (disk st) c with
      | Err e => (st, Done (Err e))
      | Ok content =>
          let all := default false (as_bool (vindex args "replace_all")) in
          match replacement content old_text new_text all with
          | Err e => (st, Done (Err e))
          | Ok new_content =>
              match atomic_write w (disk st) c new_content with
              | (d, Err e) => (on_disk st d, Done (Err e))
              | (d, Ok _) =>
                  match edit_report content new_content old_text c with
                  | Some text => (on_disk st d, Done (Ok text))
                  | None => (on_disk st d, Panicked)
                  end
              end
          end
      end
  end.

(** The lines of [content] put after line [after_line]. *)
Definition insert_lines (file_content content : string) (after_line : nat) : string :=
  let ls := lines file_content in
  join_char nl (take after_line ls ++ lines content ++ drop after_line ls).

Definition execute_insert (w : Faults) (st : ToolState) (args : Value) (c : path) : ToolState * Outcome :=
  match as_u64 (vindex args "after_line"), as_str_opt (vindex args "content") with
  | None, _ => (st, Done (Err "edit(insert): 缺少 after_line 参数"))
  | Some _, None => (st, Done (Err "edit(insert): 缺少 content 参数"))
  | Some after_line, Some content =>
      match edit_read w (disk st) c with
      | Err e => (st, Done (Err e))
      | Ok file_content =>
          let total := length (lines file_content) in
          if (Z.of_nat total <? after_line)%Z then
            (st, Done (Err ("edit: after_line " +:+ pretty after_line +:+ " 超出文件行数 " +:+ show total)))
          else
            let new_content := insert_lines file_content content (Z.to_nat after_line) in
            let diff := generate_unified_diff file_content new_content (display c) 3 in
            match atomic_write w (disk st) c new_content with
            | (d, Err e) => (on_disk st d, Done (Err e))
            | (d, Ok _) =>
                (on_disk st d,
                 Done (Ok ("已插入到 " +:+ pretty after_line +:+ " 后（" +:+ show (length (lines content)) +:+ " 行）"
                           +:+ nl2 +:+ line_str "Diff:" +:+ diff)))
            end
      end
  end.

Definition execute_write (w : Faults) (st : ToolState) (args : Value) (c : path) : ToolState * Outcome :=
  match as_str_opt (vindex args "content") with
  | None => (st, Done (Err "edit(write): 缺少 content 参数"))
  | Some content =>
      match atomic_write w (disk st) c content with
      | (d, Err e) => (on_disk st d, Done (Err e))
      | (d, Ok _) =>
          (on_disk st d, Done (Ok ("已覆盖写入 " +:+ display c +:+ " (" +:+ show (String.length content) +:+ " bytes)")))
      end
  end.

Definition edit_execute (w : Faults) (st : ToolState) (args : Value) : ToolState * Outcome :=
  match as_str_opt (vindex args "path") with
  | None => (st, Done (Err "edit: 缺少 path 参数"))
  | Some p =>
      let mode := default "replace" (as_str_opt (vindex args "mode")) in
      let v := validate_path w (disk st) p (cwd (disk st)) in
      if negb (in_workspace v) then (st, Done (Err ("edit: 路径 " +:+ p +:+ " 在工作目录外，操作被拒绝")))
      else match require_read p st with
           | Err e => (st, Done (Err e))
           | Ok _ =>
               if bool_decide (mode = "replace") then execute_replace w st args (canonical v)
               else if bool_decide (mode = "insert") then execute_insert w st args (canonical v)
               else if bool_decide (mode = "write") then execute_write w st args (canonical v)
               else (st, Done (Err ("edit: 未知模式 '" +:+ mode +:+ "'，支持: replace/insert/write")))
           end
  end.

(** ** A session *)

Inductive ToolCall := CallRead (args : Value) | CallWrite (args : Value) | CallEdit (args : Value).

Definition call_args (c : ToolCall) : Value :=
  match c with CallRead a | CallWrite a | CallEdit a => a end.

Definition run_call (st : ToolState) (wc : Faults * ToolCall) : ToolState :=
  match wc with
  | (w, CallRead a) => (read_execute w st a).1
  | (w, CallWrite a) => (write_execute w st a).1
  | (w, CallEdit a) => (edit_execute w st a).1
  end.

(** What the environment and the other tools do to the files between calls. *)
Definition run_session (d : Disk) (l : list ((Disk -> Disk) * (Faults * ToolCall))) : ToolState :=
  foldl (fun st fc => run_call (on_disk st (fc.1 (disk st))) fc.2) (mkTools d ∅) l.
End tools.
