(* ===== verification/FileToolsInv.v ===== *)
(** * What the file tools guarantee

    Writing through a temporary file is all or nothing for the target, at the
    price of the file of the same name with extension [tmp]; an existing file
    no call read is never written; the replacement of a unique text; and the
    cases where a call panics, deletes its target or leaves the workspace. *)

From S2P Require Import Prelude RustStr F64 Json Permission TextLines TextFind StdPath Fs PathGuard ToolFormat FileTools.
From stdpp Require Import pretty.

(** ** Operations at a directory entry *)

(** Nothing, or a regular file. *)
Definition plain_entry (d : Disk) (e : path) : Prop :=
  match nodes d !! e with None | Some (NFile _) => True | _ => False end.

Lemma real_dir_mono d d' p :
  (forall q, nodes d !! q = Some NDir -> nodes d' !! q = Some NDir) -> real_dir d p -> real_dir d' p.
Proof. intros Hm (ns & -> & Hd). exists ns. split; [done|]. intros k Hk. by apply Hm, Hd. Qed.

Lemma real_dir_update (d : Disk) (dir e : path) (f : gmap path Node -> gmap path Node) :
  plain_entry d e -> (forall q, q <> e -> f (nodes d) !! q = nodes d !! q) ->
  real_dir d dir -> real_dir (set_nodes f d) dir.
Proof.
  intros He Hf Hd. eapply real_dir_mono; [|exact Hd]. intros q Hq. cbn.
  destruct (decide (q = e)) as [->|Hne]; [|by rewrite Hf]. unfold plain_entry in He. by rewrite Hq in He.
Qed.

Lemma canonicalize_entry d dir t :
  real_dir d dir -> plain_entry d (dir ++ [Normal t]) ->
  canonicalize d (dir ++ [Normal t]) =
  match nodes d !! (dir ++ [Normal t]) with Some _ => Some (dir ++ [Normal t]) | None => None end.
Proof.
  intros (ns & -> & Hd) He. unfold canonicalize. cbn [app]. rewrite walk_root, walk_dir by done.
  unfold plain_entry in He. cbn [app] in *. unfold MAX_LINKS. cbn.
  by destruct (nodes d !! _) as [[]|].
Qed.

Lemma fs_read_entry w d dir t :
  real_dir d dir -> plain_entry d (dir ++ [Normal t]) ->
  fs_read w d (dir ++ [Normal t]) =
  match nodes d !! (dir ++ [Normal t]) with
  | Some (NFile b) => if denied w (dir ++ [Normal t]) then Err PermissionDenied else Ok b
  | _ => Err NotFound
  end.
Proof.
  intros Hd He. unfold fs_read. rewrite canonicalize_entry by done. unfold plain_entry, node_at in *.
  destruct (nodes d !! (dir ++ [Normal t])) as [[]|] eqn:E; try done.
  rewrite bool_decide_false; [by rewrite E|]. intros Hb. destruct Hd as (ns & -> & _). by destruct ns.
Qed.

Lemma fs_write_entry w d dir t b :
  real_dir d dir -> plain_entry d (dir ++ [Normal t]) ->
  let e := dir ++ [Normal t] in
  fs_write w d e b =
  if denied w e then (d, Err PermissionDenied)
  else match stops w e with
       | None => (set_nodes <[e := NFile b]> d, Ok tt)
       | Some k => (set_nodes <[e := NFile (str_take k b)]> d, Err OtherIo)
       end.
Proof.
  intros Hd He e. unfold fs_write.
  assert (locate MAX_LINKS d e = Some e) as ->.
  { apply locate_real; [done|]. intros tgt E. unfold plain_entry in He. by rewrite E in He. }
  destruct (denied w e); [done|]. unfold plain_entry in He. fold e in He.
  by destruct (nodes d !! e) as [[]|].
Qed.

Lemma fs_rename_entry w d dir s t b :
  real_dir d dir -> nodes d !! (dir ++ [Normal s]) = Some (NFile b) -> plain_entry d (dir ++ [Normal t]) ->
  fs_rename w d (dir ++ [Normal s]) (dir ++ [Normal t]) =
  if rename_fails w (dir ++ [Normal t]) then (d, Err OtherIo)
  else (set_nodes (fun m => <[dir ++ [Normal t] := NFile b]> (delete (dir ++ [Normal s]) m)) d, Ok tt).
Proof.
  intros Hd Hs Ht. unfold fs_rename. rewrite !entry_real, Hs by done. unfold plain_entry in Ht.
  destruct (rename_fails _ _); [done|]. by destruct (nodes d !! (dir ++ [Normal t])) as [[]|].
Qed.

(** Dropping the guard removes the entry, unless the removal fails. *)
Lemma guard_drop_entry w d dir t :
  real_dir d dir -> plain_entry d (dir ++ [Normal t]) ->
  let e := dir ++ [Normal t] in
  let d' := guard_drop w (guard_new e) d in
  nodes d' = (if remove_fails w e then nodes d else delete e (nodes d)) /\ cwd d' = cwd d.
Proof.
  intros Hd He e. unfold guard_drop, guard_new, path_exists. cbn [committed guard_path negb andb].
  unfold e. rewrite canonicalize_entry by done. fold e. unfold plain_entry in He. fold e in He.
  destruct (nodes d !! e) as [[]|] eqn:E; try done.
  - unfold fs_remove, e. rewrite entry_real by done. fold e. rewrite E.
    by destruct (remove_fails w e).
  - cbn. split; [|done]. destruct (remove_fails w e); [done|]. by rewrite delete_id.
Qed.

Lemma temp_path dir n : exists t, with_extension (dir ++ [Normal n]) "tmp" = dir ++ [Normal t].
Proof.
  unfold with_extension, file_name. rewrite last_snoc, removelast_last. by eexists.
Qed.

(** ** All or nothing *)

Lemma write_through_temp_exact w d dir n content :
  let c := dir ++ [Normal n] in
  let tmp := with_extension c "tmp" in
  real_dir d dir -> tmp <> c -> plain_entry d c -> plain_entry d tmp ->
  let '(d', r) := write_through_temp w d c content in
  cwd d' = cwd d /\
  match r with
  | Ok _ => nodes d' = <[c := NFile content]> (delete tmp (nodes d))
  | Err _ => delete tmp (nodes d') = delete tmp (nodes d) /\
             (remove_fails w tmp = false -> nodes d' !! tmp = None)
  end.
Proof.
  intros c tmp Hd Hne Hc Ht. unfold write_through_temp. fold tmp.
  destruct (temp_path dir n) as [t Et]. fold c tmp in Et. clearbody tmp. subst tmp c.
  rewrite fs_write_entry by done. set (e := dir ++ [Normal t]) in *. set (c := dir ++ [Normal n]) in *.
  assert (forall d', plain_entry d' e -> real_dir d' dir ->
    cwd d' = cwd d -> delete e (nodes d') = delete e (nodes d) ->
    let d'' := guard_drop w (guard_new e) d' in
    cwd d'' = cwd d /\ delete e (nodes d'') = delete e (nodes d) /\
    (remove_fails w e = false -> nodes d'' !! e = None)) as Hdrop.
  { intros d' He' Hd' Hcw Hdel d''. destruct (guard_drop_entry w d' dir t Hd' He') as [Hn Hcw'].
    fold e in Hn, Hcw'. fold d'' in Hn, Hcw'. rewrite Hn, Hcw'. split; [done|].
    destruct (remove_fails w e); [done|]. rewrite delete_delete_eq, Hdel.
    split; [done|]. intros _. apply lookup_delete_eq. }
  assert (forall b, real_dir (set_nodes <[e := NFile b]> d) dir) as Hup.
  { intros b. eapply (real_dir_update d dir e); try done. intros q Hq. by apply lookup_insert_ne. }
  assert (forall b, plain_entry (set_nodes <[e := NFile b]> d) e) as Hpe.
  { intros b. unfold plain_entry. cbn. by rewrite lookup_insert_eq. }
  destruct (denied w e); [by apply Hdrop|]. destruct (stops w e) as [k|].
  { apply Hdrop; auto. cbn. apply delete_insert_eq. }
  rewrite (fs_rename_entry w (set_nodes <[e := NFile content]> d) dir t n content); fold c; [|done|..].
  - destruct (rename_fails w c).
    { apply Hdrop; auto. cbn. apply delete_insert_eq. }
    set (d2 := set_nodes _ _).
    assert (nodes d2 = <[c := NFile content]> (delete e (nodes d))) as Hn.
    { cbn. by rewrite delete_insert_eq. }
    assert (nodes d2 !! e = None) as He2 by (rewrite Hn, lookup_insert_ne, lookup_delete_eq by done; done).
    assert (real_dir d2 dir) as Hd2.
    { eapply real_dir_mono; [|apply Hd]. intros q Hq. rewrite Hn. unfold plain_entry in *.
      rewrite lookup_insert_ne by (intros <-; by rewrite Hq in Hc).
      by rewrite lookup_delete_ne by (intros <-; by rewrite Hq in Ht). }
    destruct (guard_drop_entry w d2 dir t Hd2) as [Hg Hcw]; [unfold plain_entry; fold e; by rewrite He2|].
    fold e in Hg, Hcw. rewrite Hcw. split; [done|]. rewrite Hg.
    destruct (remove_fails w e); [done|]. by rewrite delete_id.
  - cbn. by rewrite lookup_insert_eq.
  - unfold plain_entry. cbn. by rewrite lookup_insert_ne.
Qed.

(** With no fault it succeeds. *)
Lemma write_through_temp_ok d dir n content :
  let c := dir ++ [Normal n] in
  let tmp := with_extension c "tmp" in
  real_dir d dir -> tmp <> c -> plain_entry d c -> plain_entry d tmp ->
  exists d', write_through_temp no_faults d c content = (d', Ok tt) /\
    nodes d' = <[c := NFile content]> (delete tmp (nodes d)) /\ cwd d' = cwd d.
Proof.
  intros c tmp Hd Hne Hc Ht. pose proof (write_through_temp_exact no_faults d dir n content Hd Hne Hc Ht) as Hw.
  fold c tmp in Hw. destruct (write_through_temp no_faults d c content) as [d' r] eqn:E.
  exists d'. destruct Hw as [Hcw Hw]. destruct r as [[]|[b e]]; [done|]. exfalso.
  unfold write_through_temp in E. fold tmp in E. destruct (temp_path dir n) as [t Et]. fold c tmp in Et.
  rewrite Et in *. rewrite fs_write_entry in E by done. cbn [denied stops no_faults] in E.
  rewrite (fs_rename_entry no_faults _ dir t n content) in E; [done|..].
  - eapply real_dir_mono; [|exact Hd]. intros q Hq. cbn. rewrite lookup_insert_ne; [done|].
    intros <-. unfold plain_entry in Ht. by rewrite Hq in Ht.
  - cbn. by rewrite lookup_insert_eq.
  - unfold plain_entry. cbn. by rewrite lookup_insert_ne.
Qed.

(** ** Text replaced *)

Lemma str_app_cancel a b c : a +:+ b = a +:+ c -> b = c.
Proof.
  induction a as [|x a IH]; [by rewrite !str_app_nil_l|]. rewrite !str_app_cons. intros [= E]. auto.
Qed.

(** A single match: the text before it, the text after it, and no other match. *)
Lemma single_match old s new :
  old <> "" -> match_count old s = 1 ->
  exists a b, s = a +:+ old +:+ b /\ str_contains old b = false /\
  find_str old s = Some (String.length a) /\ replace_first old new s = a +:+ new +:+ b.
Proof.
  intros Ho. unfold match_count, pieces. rewrite bool_decide_false by done. unfold split_str.
  destruct (String.length s) as [|f] eqn:El; [by cbn|]. cbn [split_from].
  destruct (find_str old s) as [n|] eqn:E; [|by cbn]. cbn [length]. intros Hl.
  destruct (find_str_spec _ _ _ E) as (b & Hb & Hn). exists (str_take n s), b.
  assert (String.length (str_take n s) = n) as Hlen by (rewrite length_str_take; lia).
  assert (TextLines.str_drop (n + String.length old) s = b) as Hd.
  { rewrite Hb, <- str_app_assoc. rewrite <- (str_drop_app (str_take n s +:+ old) b) at 2. f_equal. by rewrite length_str_app, Hlen. }
  split; [done|]. split; [|split; [by rewrite Hlen|unfold replace_first; rewrite E; by f_equal; f_equal]].
  rewrite Hd in Hl. apply find_str_none. destruct f as [|f].
  - assert (String.length s = String.length (str_take n s) + (String.length old + String.length b)) as Hs
      by (rewrite Hb at 1; by rewrite !length_str_app).
    destruct old as [|o old]; [done|]. cbn [String.length] in Hs.
    assert (b = "") as -> by (destruct b; [done|cbn in Hs; lia]). done.
  - cbn [split_from] in Hl. destruct (find_str old b); [|done]. cbn [length] in Hl.
    assert (forall f sep x, 0 < length (split_from f sep x)) as Hp.
    { intros [] sep x; cbn; [lia|]. destruct (find_str sep x); cbn; lia. }
    specialize (Hp f old (TextLines.str_drop (n0 + String.length old) b)). lia.
Qed.

Lemma sub_slice_some l a b : is_Some (sub_slice l a b) <-> a <= b <= length l.
Proof.
  unfold sub_slice. destruct (a <=? b) eqn:E1, (b <=? length l) eqn:E2; zbool; cbn;
    (split; [intros [? ?]; try done; lia|intros ?; try lia; by eexists]).
Qed.

Lemma edit_line_pos i ls old : 1 <= find_edit_from i ls old.
Proof. revert i. induction ls as [|x ls IH]; intros i; cbn [find_edit_from]; [done|]. destruct (_ || _); [lia|apply IH]. Qed.

(** The report of an edit fails exactly when the edit point lies beyond the
    new text. *)
Lemma report_panics content new_content old_text c :
  edit_report content new_content old_text c = None <->
  length (lines new_content) < find_edit_line content old_text.
Proof.
  unfold edit_report, get_edit_context. set (k := find_edit_line content old_text).
  assert (1 <= k) as Hk.
  { unfold k, find_edit_line. apply edit_line_pos. }
  set (ls := lines new_content).
  destruct (sub_slice ls (k - 1 - 3) (k - 1)) as [bf|] eqn:E1; cbn [mbind option_bind].
  - destruct (sub_slice ls (k - 1 + 1) _) as [af|] eqn:E2; cbn [mbind option_bind].
    + assert (is_Some (sub_slice ls (k - 1 + 1) ((k - 1 + 3 + 1) `min` length ls))) as Hs by by eexists.
      apply sub_slice_some in Hs. split; [done|lia].
    + split; [|done]. intros _. destruct (decide (length ls < k)); [done|].
      destruct (proj2 (sub_slice_some ls (k - 1 + 1) ((k - 1 + 3 + 1) `min` length ls))) as [x Hx]; [lia|congruence].
  - split; [|done]. intros _. destruct (decide (length ls < k)); [done|].
    destruct (proj2 (sub_slice_some ls (k - 1 - 3) (k - 1))) as [x Hx]; [lia|congruence].
Qed.

(** ** Properties *)

Section properties.
Context `{StrEnv}.
Context (io_text : IoError -> string) (gitignore : GitignoreFilter).

(** C6.  Whatever fails on the file system, writing a file through its
    temporary file is all or nothing: on success the file has the new content,
    on an error it is exactly as before, and no other file changes except the
    one with the same name and extension [tmp], which is gone after a success
    or whenever files can be removed.  The directory is real, both names are
    free or regular files, and the file is not its own temporary file. *)
Theorem atomic_write_all_or_nothing w d dir n content :
  let c := dir ++ [Normal n] in
  let tmp := with_extension c "tmp" in
  real_dir d dir -> tmp <> c -> plain_entry d c -> plain_entry d tmp ->
  let '(d', r) := atomic_write io_text w d c content in
  nodes d' !! c = (if is_ok r then Some (NFile content) else nodes d !! c) /\
  (forall q, q <> c -> q <> tmp -> nodes d' !! q = nodes d !! q) /\
  (is_ok r = true \/ remove_fails w tmp = false -> nodes d' !! tmp = None).
Proof.
  intros c tmp Hd Hne Hc Ht. pose proof (write_through_temp_exact w d dir n content Hd Hne Hc Ht) as Hw.
  fold c tmp in Hw. unfold atomic_write. destruct (write_through_temp w d c content) as [d' r].
  destruct Hw as [_ Hw].
  assert (forall m : gmap path Node, delete tmp m = delete tmp (nodes d) ->
    forall q, q <> tmp -> m !! q = nodes d !! q) as Hsame.
  { intros m Hm q Hq. apply (f_equal (.!! q)) in Hm. by rewrite !lookup_delete_ne in Hm. }
  destruct r as [[]|[b e]]; cbn [is_ok].
  - rewrite Hw. split_and!; [by rewrite lookup_insert_eq| |].
    + intros q Hq1 Hq2. by rewrite lookup_insert_ne, lookup_delete_ne.
    + intros _. by rewrite lookup_insert_ne, lookup_delete_eq.
  - destruct Hw as [Hdel Hrem]. destruct b; cbn [is_ok];
      (split_and!; [by apply Hsame|intros q _ Hq; by apply Hsame|intros [?|?]; [done|by apply Hrem]]).
Qed.

(** C29.  The replacement of a text in a file, with no fault and without
    [replace_all], where the text is not empty and the temporary name is another
    one, free or a regular file: no match and several matches are errors that
    change nothing; a single match is replaced
    in place, in the file and nowhere else.  The call then panics exactly when
    the edit point lies beyond the last line of the new text, which is already
    on disk. *)
Theorem edit_replace_exact st dir n args old new s :
  let c := dir ++ [Normal n] in
  let tmp := with_extension c "tmp" in
  let d := disk st in
  real_dir d dir -> tmp <> c -> plain_entry d tmp -> nodes d !! c = Some (NFile s) -> utf8_valid s = true ->
  as_str_opt (vindex args "old_text") = Some old -> as_str_opt (vindex args "new_text") = Some new ->
  as_bool (vindex args "replace_all") = None -> old <> "" ->
  let '(st', out) := execute_replace io_text no_faults st args c in
  read_files st' = read_files st /\
  match match_count old s with
  | 1 => exists a b, s = a +:+ old +:+ b /\ str_contains old b = false /\
      nodes (disk st') = <[c := NFile (a +:+ new +:+ b)]> (delete tmp (nodes d)) /\
      (out = Panicked <-> length (lines (a +:+ new +:+ b)) < find_edit_line s old)
  | _ => disk st' = d /\ exists e, out = Done (Err e)
  end.
Proof.
  intros c tmp d Hd Hne Ht Hs Hu Ho Hn Ha Hold.
  assert (plain_entry d c) as Hc by (unfold plain_entry; by rewrite Hs).
  unfold execute_replace, edit_read, fs_read_text. rewrite Ho, Hn, Ha. unfold c, d in *.
  rewrite fs_read_entry by done. rewrite Hs. cbn [denied no_faults]. rewrite Hu. cbn [default].
  change (default false None) with false. unfold replacement.
  destruct (match_count old s) as [|[|k]] eqn:Ek; cbn [Nat.eqb Nat.ltb Nat.leb];
    [split; [done|]; split; [done|by eexists]| |split; [done|]; split; [done|by eexists]].
  destruct (single_match old s new Hold Ek) as (a & b & Hab & Hb & _ & ->).
  destruct (write_through_temp_ok (disk st) dir n (a +:+ new +:+ b) Hd Hne Hc Ht) as (d' & Hw & Hn' & _).
  unfold atomic_write. rewrite Hw.
  pose proof (report_panics s (a +:+ new +:+ b) old (dir ++ [Normal n])) as Hp.
  destruct (edit_report s (a +:+ new +:+ b) old _) as [text|]; cbn [read_files disk on_disk];
    (split; [done|]; exists a, b; split_and!; [done|done|done|]); split; try done.
  - intros Hlt. by apply Hp in Hlt.
  - intros _. by apply Hp.
Qed.

(** ** Sessions *)

Lemma read_marks w st args p :
  p ∈ read_files (read_execute io_text gitignore w st args).1 ->
  p ∈ read_files st \/ as_str_opt (vindex args "path") = Some p.
Proof.
  unfold read_execute. destruct (as_str_opt (vindex args "path")) as [q|]; [|by left].
  set (v := validate_path w (disk st) q (cwd (disk st))).
  destruct (negb (in_workspace v)); [by left|]. destruct (is_binary v); [by left|].
  destruct (is_sensitive v); [by left|]. destruct (should_skip gitignore (canonical v)); [by left|].
  destruct (fs_read_text w (disk st) (canonical v)) as [content|e]; [|by left].
  assert (p ∈ read_files (mark_read q st) -> p ∈ read_files st \/ Some q = Some p) as Hm.
  { cbn. rewrite elem_of_union, elem_of_singleton. intros [->|?]; auto. }
  destruct (_ && _); [done|]. by destruct (read_output _ _ _ _ _).
Qed.

Lemma replace_keeps w st args c : read_files (execute_replace io_text w st args c).1 = read_files st.
Proof. unfold execute_replace. by repeat case_match. Qed.

Lemma insert_keeps w st args c : read_files (execute_insert io_text w st args c).1 = read_files st.
Proof. unfold execute_insert. by repeat case_match. Qed.

Lemma edit_keeps w st args : read_files (edit_execute io_text w st args).1 = read_files st.
Proof. 
  unfold edit_execute. repeat case_match; simplify_eq; try done; [apply replace_keeps|apply insert_keeps|].
  unfold execute_write. by repeat case_match.
 Qed.

Lemma write_keeps w st args : read_files (write_execute io_text w st args).1 = read_files st.
Proof. unfold write_execute. by repeat case_match. Qed.

(** The paths marked are those some read call named. *)
Lemma session_reads d l p :
  p ∈ read_files (run_session io_text gitignore d l) ->
  exists f w a, (f, (w, CallRead a)) ∈ l /\ as_str_opt (vindex a "path") = Some p.
Proof.
  unfold run_session. induction l as [|[f [w c]] l IH] using rev_ind; [by intros ?%elem_of_empty|].
  rewrite foldl_app. cbn [foldl fst snd]. set (st := foldl _ _ l) in *. intros Hp.
  assert (p ∈ read_files st \/ (exists a, c = CallRead a /\ as_str_opt (vindex a "path") = Some p)) as [Hin|(a & -> & Ha)].
  { destruct c as [a|a|a]; cbn [run_call] in Hp.
    - apply read_marks in Hp as [Hp|Hp]; [by left|right; by exists a].
    - left. by rewrite write_keeps in Hp.
    - left. by rewrite edit_keeps in Hp. }
  - destruct (IH Hin) as (f' & w' & a & Hl & Ha). exists f', w', a. split; [|done]. apply elem_of_app. by left.
  - exists f, w, a. split; [|done]. apply elem_of_app. right. by apply list_elem_of_singleton.
Qed.

(** C13.  In a session of tool calls, with the files changing under them in any
    way, a write or an edit leaves the disk as it is when its target exists and
    no earlier read call was given the same text as its path.  The paths are
    compared as they are written, although the tracker is described as a set of
    normalised paths. *)
Theorem unread_file_untouched d l w call p :
  let st := run_session io_text gitignore d l in
  as_str_opt (vindex (call_args call) "path") = Some p ->
  path_exists (disk st) (canonical (validate_path w (disk st) p (cwd (disk st)))) = true ->
  (forall f w' a, (f, (w', CallRead a)) ∈ l -> as_str_opt (vindex a "path") <> Some p) ->
  disk (run_call io_text gitignore st (w, call)) = disk st.
Proof.
  intros st Hp He Hno.
  assert (require_read p st = Err ("必须先读取文件 " +:+ p +:+ " 才能写入或编辑。" +:+ str1 nl
    +:+ "请先使用 read 工具读取此文件。")) as Hr.
  { unfold require_read, has_been_read. rewrite bool_decide_false; [done|].
    intros (f & w' & a & Hin & Ha)%session_reads. by eapply Hno. }
  destruct call as [a|a|a]; cbn [run_call call_args] in *.
  - unfold read_execute. rewrite Hp. repeat case_match; done.
  - unfold write_execute. rewrite Hp. destruct (as_str_opt (vindex a "content")); [|done].
    destruct (negb _); [done|]. by rewrite He, Hr.
  - unfold edit_execute. rewrite Hp. destruct (negb _); [done|]. by rewrite Hr.
Qed.

(** Overwriting a file whose extension is [tmp] reports success and
    deletes it: the file is its own temporary file, which the guard removes. *)
Theorem overwriting_tmp_deletes st dir n args p content :
  let c := dir ++ [Normal n] in
  let v := validate_path no_faults (disk st) p (cwd (disk st)) in
  real_dir (disk st) dir -> with_extension c "tmp" = c -> plain_entry (disk st) c ->
  canonical v = c -> in_workspace v = true -> p ∈ read_files st ->
  as_str_opt (vindex args "path") = Some p -> as_str_opt (vindex args "mode") = Some "write" ->
  as_str_opt (vindex args "content") = Some content ->
  let '(st', out) := edit_execute io_text no_faults st args in
  out = Done (Ok ("已覆盖写入 " +:+ display c +:+ " (" +:+ show (String.length content) +:+ " bytes)")) /\
  nodes (disk st') = delete c (nodes (disk st)).
Proof.
  intros c v Hd Ht Hc Hv Hin Hr Hp Hm Hct. unfold edit_execute. rewrite Hp, Hm. fold v. rewrite Hin, Hv.
  unfold require_read, has_been_read. rewrite bool_decide_true by done. cbn [negb].
  change (default "replace" (Some "write")) with "write".
  rewrite (bool_decide_false ("write" = "replace")), (bool_decide_false ("write" = "insert")), (bool_decide_true ("write" = "write")) by done.
  unfold execute_write, atomic_write, write_through_temp. rewrite Hct, Ht. unfold c in *.
  rewrite fs_write_entry by done. cbn [denied stops no_faults]. set (e := dir ++ [Normal n]) in *.
  set (d1 := set_nodes <[e := NFile content]> (disk st)).
  assert (real_dir d1 dir) as Hd1.
  { eapply (real_dir_update (disk st) dir e); try done. intros q Hq. by apply lookup_insert_ne. }
  assert (nodes d1 !! e = Some (NFile content)) as He1 by (cbn; by rewrite lookup_insert_eq).
  assert (plain_entry d1 e) as Hp1 by (unfold plain_entry; by rewrite He1).
  pose proof (fs_rename_entry no_faults d1 dir n n content Hd1 He1 Hp1) as Hrn. fold e in Hrn.
  rewrite Hrn. cbn [rename_fails no_faults]. clear Hrn.
  set (d2 := set_nodes _ d1).
  assert (nodes d2 = <[e := NFile content]> (nodes (disk st))) as Hn2.
  { cbn. by rewrite insert_delete_eq, insert_insert_eq. }
  destruct (guard_drop_entry no_faults d2 dir n) as [Hg _].
  - eapply real_dir_mono; [|exact Hd1]. intros q Hq. by rewrite Hn2.
  - unfold plain_entry. fold e. by rewrite Hn2, lookup_insert_eq.
  - fold e in Hg. cbn [remove_fails no_faults] in Hg. cbn [disk on_disk]. rewrite Hg, Hn2, delete_insert_eq. done.
Qed.

(** Inserting lines drops the line feed at the end of the text. *)
Lemma insert_drops_final_newline ls new k :
  Forall clean ls -> Forall clean new -> k <= length ls -> ls ++ new <> [] ->
  insert_lines (unlines ls) (unlines new) k +:+ str1 nl = unlines (take k ls ++ new ++ drop k ls).
Proof.
  intros Hl Hn Hk Hne. unfold insert_lines. rewrite !lines_unlines by done. apply join_nl.
  intros E. apply Hne. apply (f_equal length) in E. rewrite !length_app, length_take, length_drop in E. cbn in E.
  destruct ls, new; try done; cbn in *; lia.
Qed.
End properties.

(** ** Witnesses *)

Definition ws : path := [RootDir; Normal "ws"].
Definition ws_file (n : string) : path := ws ++ [Normal n].
Definition demo_files : Disk :=
  mkDisk (list_to_map [(ws, NDir); (ws_file "a.rs", NFile ("fn a() {}" +:+ str1 nl)); (ws_file "a.tmp", NFile "notes");
                       (ws_file "log.tmp", NFile "x"); (ws_file "one", NFile "b")]) ws.
Definition demo_text (e : IoError) : string := "io".
Definition demo_filter : GitignoreFilter := mkFilter ws [] true.

Lemma demo_real : real_dir demo_files ws.
Proof. exists ["ws"]. split; [done|]. intros k Hk. cbn in Hk. by assert (k = 1) as -> by lia. Qed.

(** Writing [a.rs] loses [a.tmp]. *)
Lemma atomic_write_all_or_nothing_witness :
  nodes (atomic_write demo_text no_faults demo_files (ws_file "a.rs") "new").1 !! ws_file "a.tmp" = None.
Proof.
  assert (plain_entry demo_files (ws_file "a.rs")) as H1 by by vm_compute.
  assert (plain_entry demo_files (ws_file "a.tmp")) as H2 by by vm_compute.
  pose proof (atomic_write_all_or_nothing demo_text no_faults demo_files ws "a.rs" "new" demo_real
    ltac:(by vm_compute) H1 H2) as T.
  unfold ws_file at 1. destruct (atomic_write _ _ _ _ _) as [d' r].
  refine (proj2 (proj2 T) _). right. reflexivity.
Defined.

Definition demo_edit : Value := Object [("old_text", Str "b"); ("new_text", Str "")].

(** Emptying a file of one line panics, after the file was written. *)
Lemma edit_replace_exact_witness :
  (execute_replace demo_text no_faults (mkTools demo_files ∅) demo_edit (ws_file "one")).2 = Panicked /\
  nodes (disk (execute_replace demo_text no_faults (mkTools demo_files ∅) demo_edit (ws_file "one")).1) !! ws_file "one"
  = Some (NFile "").
Proof.
  assert (plain_entry demo_files (ws_file "one.tmp")) as H1 by by vm_compute.
  pose proof (edit_replace_exact demo_text (mkTools demo_files ∅) ws "one" demo_edit "b" "" "b" demo_real
    ltac:(by vm_compute) H1 ltac:(by vm_compute) ltac:(by vm_compute) eq_refl eq_refl eq_refl ltac:(done)) as T.
  split; [|by vm_compute]. unfold ws_file. destruct (execute_replace _ _ _ _ _) as [st' out].
  destruct T as [_ T]. assert (match_count "b" "b" = 1) as Hm by by vm_compute. rewrite Hm in T.
  destruct T as (a & b & Hab & _ & _ & Hp). apply Hp.
  apply (f_equal String.length) in Hab. rewrite !length_str_app in Hab.
  change (String.length "b") with 1 in Hab. assert (String.length a = 0 /\ String.length b = 0) as [Ha Hb] by lia.
  destruct a; [|done]. destruct b; [|done]. apply Nat.ltb_lt. by vm_compute.
Defined.

Definition path_arg (p : string) : Value := Object [("path", Str p); ("content", Str "new")].

Lemma unread_file_untouched_witness :
  disk (run_call (H := ascii_env) demo_text demo_filter
    (run_session (H := ascii_env) demo_text demo_filter demo_files
       [((fun d => d), (no_faults, CallRead (path_arg "a.rs")))]) (no_faults, CallWrite (path_arg "one")))
  = disk (run_session (H := ascii_env) demo_text demo_filter demo_files
       [((fun d => d), (no_faults, CallRead (path_arg "a.rs")))]).
Proof.
  apply (unread_file_untouched (H := ascii_env) demo_text demo_filter demo_files _ no_faults
    (CallWrite (path_arg "one")) "one"); [by vm_compute|by vm_compute|].
  intros f w' a E. apply list_elem_of_singleton in E. injection E as -> -> ->. by vm_compute.
Defined.

(** Another spelling of a file that was read counts as unread. *)
Lemma spelling_matters :
  let st := run_session (H := ascii_env) demo_text demo_filter demo_files [((fun d => d), (no_faults, CallRead (path_arg "a.rs")))] in
  has_been_read "a.rs" st = true /\ has_been_read "./a.rs" st = false /\
  disk (run_call (H := ascii_env) demo_text demo_filter st (no_faults, CallWrite (path_arg "./a.rs"))) = disk st.
Proof. split_and!; by vm_compute. Qed.

Definition overwrite_args : Value := Object [("path", Str "log.tmp"); ("mode", Str "write"); ("content", Str "y")].

Lemma overwriting_tmp_deletes_witness :
  nodes (disk (edit_execute (H := ascii_env) demo_text no_faults (mkTools demo_files {["log.tmp"]}) overwrite_args).1)
  = delete (ws_file "log.tmp") (nodes demo_files).
Proof.
  assert (plain_entry demo_files (ws_file "log.tmp")) as H1 by by vm_compute.
  pose proof (overwriting_tmp_deletes (H := ascii_env) demo_text (mkTools demo_files {["log.tmp"]}) ws "log.tmp"
    overwrite_args "log.tmp" "y" demo_real ltac:(by vm_compute) H1 ltac:(by vm_compute) ltac:(by vm_compute)
    ltac:(set_solver) eq_refl eq_refl eq_refl) as T.
  destruct (edit_execute _ _ _ _) as [st' out]. exact (proj2 T).
Defined.
