(* ===== verification/FileTxn.v ===== *)
(** * File transactions

    [tools/file_transaction.rs]: the contents of the files to be changed are
    kept, and rolling back writes them again or removes the files that did not
    exist.  The table is a hash map; the order of the restores is any order. *)

From S2P Require Import Prelude RustStr F64 Json Permission TextLines TextFind StdPath Fs PathGuard ToolFormat FileTools FileToolsInv.

Record FileTransaction := mkTxn { backups : gmap path (option string); active : bool }.

Definition txn_new : FileTransaction := mkTxn ∅ false.
Definition begin (t : FileTransaction) : FileTransaction := mkTxn ∅ true.
Definition is_active (t : FileTransaction) : bool := active t.

Section txn.
Context (io_text : IoError -> string).

Definition backup (w : Faults) (d : Disk) (p : path) (t : FileTransaction) : FileTransaction * result string unit :=
  if negb (active t) then (t, Err "事务未激活，请先调用 begin()")
  else match backups t !! p with
       | Some _ => (t, Ok tt)
       | None =>
           match fs_read w d p with
           | Ok content => (mkTxn (<[p := Some content]> (backups t)) (active t), Ok tt)
           | Err NotFound => (mkTxn (<[p := None]> (backups t)) (active t), Ok tt)
           | Err e => (t, Err ("备份文件失败：" +:+ display p +:+ ": " +:+ io_text e))
           end
       end.

Definition commit (t : FileTransaction) : FileTransaction := mkTxn ∅ false.

(** One file of the rollback; a failure is logged and left. *)
Definition restore (w : Faults) (d : Disk) (pb : path * option string) : Disk :=
  match pb.2 with
  | Some content => (fs_write w d pb.1 content).1
  | None => (fs_remove w d pb.1).1
  end.

Definition rollback {HI : HashIter path} (w : Faults) (d : Disk) (t : FileTransaction)
    : Disk * FileTransaction * result string unit :=
  if negb (active t) then (d, t, Err "事务未激活，无法回滚")
  else (foldl (restore w) d (hiter (backups t)), mkTxn ∅ false, Ok tt).

(** A transaction: changes to the files, and backups, in any order. *)
Inductive TxnStep := Change (f : Disk -> Disk) | Backup (w : Faults) (p : path).

Definition txn_step (s : Disk * FileTransaction) (x : TxnStep) : Disk * FileTransaction :=
  match x with
  | Change f => (f s.1, s.2)
  | Backup w p => (s.1, (backup w s.1 p s.2).1)
  end.
Definition run_txn (d : Disk) (t : FileTransaction) (l : list TxnStep) : Disk * FileTransaction :=
  foldl txn_step (d, begin t) l.

(** What the file held when it was first backed up with success: [None] before
    that, [Some None] when it did not exist. *)
Fixpoint first_backup (p : path) (d : Disk) (l : list TxnStep) : option (option string) :=
  match l with
  | [] => None
  | Change f :: r => first_backup p (f d) r
  | Backup w q :: r =>
      if bool_decide (q = p) then
        match fs_read w d p with
        | Ok content => Some (Some content)
        | Err NotFound => Some None
        | Err _ => first_backup p d r
        end
      else first_backup p d r
  end.

Lemma backup_active w d p t : active (backup w d p t).1 = active t.
Proof. unfold backup. by repeat case_match. Qed.

Lemma run_records d t l p : active t = true ->
  backups (foldl txn_step (d, t) l).2 !! p =
    match backups t !! p with Some b => Some b | None => first_backup p d l end.
Proof.
  revert d t. induction l as [|x l IH]; intros d t Ha; cbn [foldl first_backup]; [cbn [snd]; by destruct (backups t !! p)|].
  destruct x as [f|w q]; cbn [txn_step fst snd]; [by apply IH|].
  rewrite IH by by rewrite backup_active. unfold backup. rewrite Ha. cbn [negb].
  destruct (backups t !! q) as [b|] eqn:Eq; cbn [fst].
  - destruct (backups t !! p) as [b'|] eqn:Ep; [done|]. by rewrite bool_decide_false by (intros ->; congruence).
  - case_bool_decide as Eqp; [subst q|].
    + rewrite Eq. destruct (fs_read w d p) as [c|[]]; cbn [fst backups]; by rewrite ?lookup_insert_eq, ?Eq.
    + destruct (fs_read w d q) as [c|[]]; cbn [fst backups]; by rewrite ?lookup_insert_ne.
Qed.

(** ** Rolling back *)

(** A file, or a free name, in a real directory. *)
Definition entry_ok (d : Disk) (p : path) : Prop :=
  exists dir n, p = dir ++ [Normal n] /\ real_dir d dir /\ plain_entry d p.

Definition node_of (b : option string) : option Node := NFile <$> b.

Lemma restore_nodes d p b :
  entry_ok d p -> nodes (restore no_faults d (p, b)) = partial_alter (fun _ => node_of b) p (nodes d).
Proof.
  intros (dir & n & -> & Hd & Hp). unfold restore. cbn [fst snd]. destruct b as [c|].
  - by rewrite fs_write_entry.
  - unfold fs_remove. rewrite entry_real by done. unfold plain_entry in Hp.
    destruct (nodes d !! (dir ++ [Normal n])) as [[]|] eqn:E; try done. cbn [fst]. symmetry. exact (delete_id _ _ E).
Qed.

Lemma entry_ok_restore d p b q : entry_ok d p -> entry_ok d q -> entry_ok (restore no_faults d (p, b)) q.
Proof.
  intros Hp (dir & n & -> & Hd & Hq). pose proof (restore_nodes d p b Hp) as Hn.
  destruct Hp as (dp & np & -> & _ & Hp). exists dir, n. split; [done|].
  assert (forall r, nodes (restore no_faults d (dp ++ [Normal np], b)) !! r =
    if decide (r = dp ++ [Normal np]) then node_of b else nodes d !! r) as Hl.
  { intros r. rewrite Hn. case_decide; [subst; apply lookup_partial_alter_eq|by apply lookup_partial_alter_ne]. }
  split.
  - eapply real_dir_mono; [|exact Hd]. intros r Hr. rewrite Hl. case_decide; [|done]. subst.
    unfold plain_entry in Hp. by rewrite Hr in Hp.
  - unfold plain_entry. rewrite Hl. case_decide; [by destruct b|exact Hq].
Qed.

Lemma restores d l q :
  Forall (fun pb => entry_ok d pb.1) l -> NoDup l.*1 ->
  nodes (foldl (restore no_faults) d l) !! q =
  match (list_to_map l : gmap path (option string)) !! q with Some b => node_of b | None => nodes d !! q end.
Proof.
  revert d. induction l as [|[p b] l IH]; intros d Hl Hnd; [done|]. cbn [foldl list_to_map foldr].
  inversion Hl as [|? ? Hp Hl']; subst. inversion Hnd as [|? ? Hnin Hnd']; subst. cbn [fst] in *.
  rewrite IH; [|eapply Forall_impl; [exact Hl'|]; intros [r c] Hr; by apply entry_ok_restore|done].
  cbn [fst snd]. destruct (decide (q = p)) as [->|Hne].
  - rewrite lookup_insert_eq, restore_nodes, lookup_partial_alter_eq by done.
    by rewrite (not_elem_of_list_to_map_1 l p Hnin).
  - rewrite lookup_insert_ne by done. destruct ((list_to_map l : gmap path (option string)) !! q); [done|].
    by rewrite restore_nodes, lookup_partial_alter_ne by done.
Qed.

(** C36.  Without faults during the rollback, and while every path backed up is a
    regular file or a free name in a real directory, rolling back a
    transaction puts every file back to what it held when it was first backed
    up, removing the files that did not exist then, and leaves every other file
    alone, in whatever order the restores run. *)
Theorem rollback_restores {HI : HashIter path} d t l :
  let '(d1, t1) := run_txn d t l in
  (forall p b, first_backup p d l = Some b -> entry_ok d1 p) ->
  let '(d2, t2, r) := rollback no_faults d1 t1 in
  r = Ok tt /\ t2 = txn_new /\
  forall p, nodes d2 !! p = match first_backup p d l with
                            | Some b => node_of b
                            | None => nodes d1 !! p
                            end.
Proof.
  pose proof (fun p => run_records d (begin t) l p eq_refl) as Hr.
  assert (active (run_txn d t l).2 = true) as Ha.
  { unfold run_txn. generalize (eq_refl : active (begin t) = true). generalize (begin t) d. clear.
    induction l as [|[f|w p] l IH]; intros t d Ha; [done|by apply IH|]. cbn [foldl txn_step fst snd].
    apply IH. by rewrite backup_active. }
  unfold run_txn in *. destruct (foldl txn_step (d, begin t) l) as [d1 t1]. cbn [snd] in *. intros Hok.
  unfold rollback. rewrite Ha. cbn [negb]. split_and!; [done|done|]. intros p. rewrite restores.
  - rewrite list_to_map_hiter, Hr. done.
  - apply Forall_forall. intros [q b] Hq. apply elem_of_hiter in Hq. rewrite Hr in Hq. by eapply Hok.
  - apply NoDup_hiter_fst.
Qed.
End txn.

(** ** Witness *)

Definition demo_steps : list TxnStep :=
  [Backup no_faults (ws_file "a.rs"); Backup no_faults (ws_file "new.rs");
   Change (set_nodes <[ws_file "a.rs" := NFile "broken"]>); Backup no_faults (ws_file "a.rs");
   Change (set_nodes <[ws_file "new.rs" := NFile "junk"]>)].

Lemma demo_entry d n : nodes d !! ws = Some NDir -> plain_entry d (ws_file n) -> entry_ok d (ws_file n).
Proof.
  intros Hw Hp. exists ws, n. split_and!; [done| |done]. exists ["ws"]. split; [done|].
  intros k Hk. cbn in Hk. by assert (k = 1) as -> by lia.
Qed.

Lemma rollback_restores_witness :
  let '(d1, t1) := run_txn demo_text demo_files txn_new demo_steps in
  let d2 := (rollback (HI := gmap_iter path) no_faults d1 t1).1.1 in
  nodes d2 !! ws_file "a.rs" = Some (NFile ("fn a() {}" +:+ str1 nl)) /\ nodes d2 !! ws_file "new.rs" = None.
Proof.
  pose proof (rollback_restores demo_text (HI := gmap_iter path) demo_files txn_new demo_steps) as T.
  assert (forall p b, first_backup p demo_files demo_steps = Some b ->
    entry_ok (run_txn demo_text demo_files txn_new demo_steps).1 p) as Hok.
  { intros p b. destruct (decide (p = ws_file "a.rs")) as [->|]; [intros _; apply demo_entry; by vm_compute|].
    destruct (decide (p = ws_file "new.rs")) as [->|]; [intros _; apply demo_entry; by vm_compute|].
    unfold demo_steps. cbn [first_backup]. by rewrite !bool_decide_false by congruence. }
  destruct (run_txn demo_text demo_files txn_new demo_steps) as [d1 t1]. specialize (T Hok).
  destruct (rollback no_faults d1 t1) as [[d2 t2] r]. cbn [fst]. destruct T as (_ & _ & T).
  rewrite !T. split; by vm_compute.
Defined.
