(* ===== verification/Sandbox.v ===== *)
(** * The tool sandbox

    [tools/sandbox.rs]: the profile that allows or denies file, shell and
    network access before a tool runs, the choice of an operating system
    backend, and the checks the backends make before they start a process.  The
    processes themselves are not modelled. *)

From S2P Require Import Prelude RustStr TextLines TextFind StdPath.

Inductive SandboxProfileName := Off | WorkspaceReadOnly | Workspace | Strict | Custom (name : string).

Record SandboxProfile := mkProfile {
  profile_name : SandboxProfileName;
  allow_write_prefixes : list string;
  allow_read_prefixes : list string;
  deny_prefixes : list string;
  allow_shell : bool;
  allow_network : bool;
  shell_deny_prefixes : list string
}.

Definition default_profile : SandboxProfile :=
  mkProfile WorkspaceReadOnly [] [] ["/etc/shadow"; "/etc/passwd"; "/root/.ssh"; "/home/*/.ssh"] true true
    ["rm -rf /"; "mkfs"; "dd if="].

Inductive SandboxCheckResult := Allowed | Denied (reason : string) | RequiresConfirmation (reason : string).

Inductive FileAccessOperation := Read | Write.

(** [workspace_path] is the text of the path. *)
Record ToolSandbox := mkSandbox { profile : SandboxProfile; workspace_path : option string }.

Definition sandbox_new (p : SandboxProfile) : ToolSandbox := mkSandbox p None.
Definition set_workspace (p : string) (s : ToolSandbox) : ToolSandbox := mkSandbox (profile s) (Some p).

Fixpoint remove_stars (s : string) : string :=
  match s with
  | EmptyString => EmptyString
  | String c s' => if bool_decide (c = "*"%char) then remove_stars s' else String c (remove_stars s')
  end.

Definition glob_matches (path pattern : string) : bool :=
  has_char "*" pattern && str_contains (remove_stars pattern) path.

Definition any_prefix (l : list string) (path : string) : bool := existsb (fun p => starts_with p path) l.

Definition denies (path deny : string) : bool := starts_with deny path || glob_matches path deny.

(** The write rules of each profile. *)
Definition check_write (s : ToolSandbox) (path : string) : SandboxCheckResult :=
  match profile_name (profile s) with
  | Off => Allowed
  | WorkspaceReadOnly =>
      match workspace_path s with
      | Some ws => if starts_with ws path then Allowed
                   else Denied ("沙箱拒绝：WorkspaceReadOnly 模式下不允许写入工作区外路径 " +:+ path)
      | None => Allowed
      end
  | Workspace =>
      match workspace_path s with
      | Some ws => if starts_with ws path then Allowed
                   else RequiresConfirmation ("沙箱提示：写入路径 " +:+ path +:+ " 在工作区外，建议确认")
      | None => Allowed
      end
  | Strict => if any_prefix (allow_write_prefixes (profile s)) path then Allowed
              else Denied ("沙箱拒绝：Strict 模式下路径 " +:+ path +:+ " 不在写入白名单中")
  | Custom _ =>
      match allow_write_prefixes (profile s) with
      | [] => Allowed
      | l => if any_prefix l path then Allowed else Denied ("沙箱拒绝：路径 " +:+ path +:+ " 不在写入白名单中")
      end
  end.

Definition check_read (s : ToolSandbox) (path : string) : SandboxCheckResult :=
  match allow_read_prefixes (profile s) with
  | [] => Allowed
  | l => if any_prefix l path then Allowed else Denied ("沙箱拒绝：路径 " +:+ path +:+ " 不在读取白名单中")
  end.

Definition check_file_access (s : ToolSandbox) (path : string) (op : FileAccessOperation) : SandboxCheckResult :=
  match find (denies path) (deny_prefixes (profile s)) with
  | Some deny => Denied ("沙箱拒绝：路径 " +:+ path +:+ " 匹配拒绝规则 " +:+ deny)
  | None => match op with Read => check_read s path | Write => check_write s path end
  end.

Definition check_shell_command (s : ToolSandbox) (command : string) : SandboxCheckResult :=
  if negb (allow_shell (profile s)) then Denied "沙箱拒绝：当前档案禁止执行 shell 命令"
  else match find (fun deny => starts_with deny command || str_contains deny command)
                  (shell_deny_prefixes (profile s)) with
       | Some deny => Denied ("沙箱拒绝：命令匹配黑名单规则 '" +:+ deny +:+ "'")
       | None => Allowed
       end.

Definition check_network_access (s : ToolSandbox) : SandboxCheckResult :=
  if allow_network (profile s) then Allowed else Denied "沙箱拒绝：当前档案禁止网络访问".

(** ** Backends *)

(** [s.split_whitespace()] *)
Fixpoint words_from (fuel : nat) (s : string) : list string :=
  match fuel with
  | O => []
  | S f =>
      match trim_start s with
      | EmptyString => []
      | t => let fix word (s : string) : string * string :=
               match s with
               | EmptyString => (EmptyString, EmptyString)
               | String c s' => match ws_prefix s with
                                | O => let '(a, b) := word s' in (String c a, b)
                                | S _ => (EmptyString, s)
                                end
               end in
             let '(a, b) := word t in a :: words_from f b
      end
  end.
Definition split_whitespace (s : string) : list string := words_from (String.length s) s.

(** [LandlockSandbox::check_kernel_support] on the text of [/proc/version]. *)
Definition check_kernel_support (version : option string) : bool :=
  match version ≫= fun content => head (lines content) with
  | None => false
  | Some line =>
      match split_whitespace line !! 2 with
      | None => false
      | Some release =>
          match split_char "." release with
          | major :: minor :: _ =>
              match parse_u32 major, parse_u32 minor with
              | Some major, Some minor => (5 <=? major)%Z && (13 <=? minor)%Z
              | _, _ => false
              end
          | _ => false
          end
      end
  end.

Inductive UnifiedSandbox :=
| Landlock (allowed_paths : list path) (network_allowed : bool)
| Fallback (allowed_paths : list path).

(** On Linux. *)
Definition unified_new (version : option string) (allowed : list path) : UnifiedSandbox :=
  if check_kernel_support version then Landlock allowed false else Fallback allowed.
Definition with_network (version : option string) (allowed : list path) : UnifiedSandbox :=
  if check_kernel_support version then Landlock allowed true else Fallback allowed.

Inductive SandboxError :=
| PathDenied (p : path)
| Timeout
| ExecutionFailed (text : string)
| InitializationFailed (text : string)
| IoError (text : string)
| UnsupportedSystem
| PathNotInWhitelist (p : path).

(** What a backend checks before it starts the process; [Ok true] keeps the
    environment of the parent, [Ok false] clears it. *)
Definition backend_admits (s : UnifiedSandbox) (working_dir : path) : result SandboxError bool :=
  match s with
  | Landlock allowed _ =>
      if existsb (path_starts_with working_dir) allowed then Ok true else Err (PathNotInWhitelist working_dir)
  | Fallback allowed =>
      if existsb (path_starts_with working_dir) allowed then Ok false else Err (PathDenied working_dir)
  end.

(** ** Properties *)

(** The rule for the keys of users matches no path of the form it names. *)
Example home_rule_misses :
  check_file_access (sandbox_new default_profile) "/home/ann/.ssh/id_rsa" Read = Allowed.
Proof. by vm_compute. Qed.

(** A later minor version counts as unsupported. *)
Example kernel_six_unsupported :
  check_kernel_support (Some "Linux version 6.1.0-18-amd64 (gcc)") = false /\
  check_kernel_support (Some "Linux version 5.15.0-91-generic (gcc)") = true.
Proof. by vm_compute. Qed.

Lemma find_none {A} (f : A -> bool) l : find f l = None <-> Forall (fun x => f x = false) l.
Proof.
  induction l as [|x l IH]; cbn; [by split|]. destruct (f x) eqn:E.
  - split; [done|]. by inversion 1; congruence.
  - rewrite IH. split; [by constructor|by inversion 1].
Qed.

(** What the default write profile allows with a workspace set: exactly
    the paths whose text starts with the text of the workspace and that match
    no denied prefix or pattern; so [ws/../x] and [ws-other/x] pass. *)
Lemma write_allowed_iff p ws path :
  profile_name p = WorkspaceReadOnly ->
  (check_file_access (mkSandbox p (Some ws)) path Write = Allowed <->
   starts_with ws path = true /\ Forall (fun deny => denies path deny = false) (deny_prefixes p)).
Proof.
  intros Hn. unfold check_file_access. cbn [profile]. rewrite <- find_none.
  destruct (find (denies path) (deny_prefixes p)); [naive_solver|].
  unfold check_write. cbn [profile workspace_path]. rewrite Hn. destruct (starts_with ws path); naive_solver.
Qed.
