(* ===== verification/ToolBridge.v ===== *)
(** * The tool bridge

    [tools/bridge.rs]: the tools offered to the model, the executors that run
    them ([tools/builtin.rs], [register_builtin_executors]), the sandbox check,
    the permission check, and the retry loop around an executor.  What one run
    of an executor does is an argument ([run], by number of the attempt), as
    are the matcher of regular expressions and the time passed. *)

From S2P Require Import Prelude RustStr F64 Json Node Permission TextLines TextFind StdPath Sandbox.
From stdpp Require Import pretty.

(** ** Requests, results and registered tools *)

Record ToolCallRequest := mkRequest {
  tool_call_id : string; tool_name : string; arguments : Value; agent_id : string
}.
Record ToolCallResult := mkResult {
  result_id : string; output : string; success : bool; duration_ms : Z; is_partial : bool
}.

Inductive ToolCategory :=
| FileSystem | Shell | Search | Web | Task | UserInteraction | CodeAnalysis | MediaGeneration | Memory.

(** The description and the JSON schema of the definition are left out. *)
Record ToolEntry := mkTool { definition_name : string; category : ToolCategory; requires_confirmation : bool; read_only : bool }.

Definition default_entries : list ToolEntry :=
  [ mkTool "bash" Shell true false; mkTool "read_file" FileSystem false true; mkTool "write_file" FileSystem true false;
    mkTool "search_replace" FileSystem true false; mkTool "grep" Search false true; mkTool "list_dir" FileSystem false true;
    mkTool "web_search" Web false true; mkTool "web_fetch" Web false true; mkTool "ask_user_question" UserInteraction false true;
    mkTool "task" Task false false; mkTool "scheduler" Task true false; mkTool "monitor" Task false true;
    mkTool "lsp" CodeAnalysis false true; mkTool "memory_search" Memory false true; mkTool "memory_get" Memory false true;
    mkTool "enter_plan_mode" UserInteraction false true; mkTool "exit_plan_mode" UserInteraction false true;
    mkTool "todo" Task false false; mkTool "update_goal" Task false false; mkTool "image_gen" MediaGeneration true false;
    mkTool "video_gen" MediaGeneration true false; mkTool "mcp" Shell true false ].

Definition builtin_executors : list string :=
  ["bash"; "read"; "write"; "edit"; "grep"; "glob"; "list_dir"; "web_search"; "web_fetch"; "lsp"; "skill"].

(** ** Retry configuration *)

Record ToolRetryConfig := mkRetry {
  max_retries : Z; base_delay_ms : Z; max_delay_ms : Z; retryable_error_patterns : list string
}.
Definition default_retry : ToolRetryConfig :=
  mkRetry 3 1000 30000 ["timeout"; "connection reset"; "ECONNREFUSED"; "429"; "502"; "503"; "504"].

Definition calculate_delay (c : ToolRetryConfig) (attempt : Z) : Z :=
  Z.min (u64_mul (base_delay_ms c) (wrap 64 (2 ^ sat_sub attempt 1))) (max_delay_ms c).

(** ** The bridge *)

(** A hook: for which tools it runs, and the text it adds. *)
Record PostExecuteHook := mkHook { should_run : string -> bool; run_hook : string -> Value -> string -> string }.

Record ToolBridge := mkBridge {
  entries : gmap string ToolEntry;
  executors : gset string;
  post_hooks : list PostExecuteHook;
  execution_timeout_secs : Z;
  retry_config : ToolRetryConfig;
  sandbox : ToolSandbox
}.

Definition register (e : ToolEntry) (b : ToolBridge) : ToolBridge :=
  mkBridge (<[definition_name e := e]> (entries b)) (executors b) (post_hooks b) (execution_timeout_secs b)
    (retry_config b) (sandbox b).
Definition register_executor (n : string) (b : ToolBridge) : ToolBridge :=
  mkBridge (entries b) ({[n]} ∪ executors b) (post_hooks b) (execution_timeout_secs b) (retry_config b) (sandbox b).
Definition register_post_hook (h : PostExecuteHook) (b : ToolBridge) : ToolBridge :=
  mkBridge (entries b) (executors b) (post_hooks b ++ [h]) (execution_timeout_secs b) (retry_config b) (sandbox b).

Definition register_defaults (b : ToolBridge) : ToolBridge := foldl (fun b e => register e b) b default_entries.
Definition register_builtin_executors (hook : PostExecuteHook) (b : ToolBridge) : ToolBridge :=
  register_post_hook hook (foldl (fun b n => register_executor n b) b builtin_executors).

Definition bridge_new (hook : PostExecuteHook) : ToolBridge :=
  register_builtin_executors hook
    (register_defaults (mkBridge ∅ ∅ [] 120 default_retry (sandbox_new default_profile))).

(** [RustfmtHook::should_run] *)
Definition rustfmt_should_run (tool : string) : bool := bool_decide (tool = "write") || bool_decide (tool = "edit").

Definition set_retry_config (c : ToolRetryConfig) (b : ToolBridge) : ToolBridge :=
  mkBridge (entries b) (executors b) (post_hooks b) (execution_timeout_secs b) c (sandbox b).

Definition tool_definitions (b : ToolBridge) : gset string := dom (entries b).

Definition needs_confirmation (b : ToolBridge) (tool : string) (mode : Node.PermissionMode) : bool :=
  match mode with
  | Node.Yolo => false
  | Node.Ask => true
  | Node.Trust | Node.ReadOnly =>
      match entries b !! tool with Some e => negb (read_only e) | None => true end
  end.

(** A check that only a denial stops. *)
Definition unless_denied (prefix : string) (r : SandboxCheckResult) : result string unit :=
  match r with Denied reason => Err (prefix +:+ reason) | _ => Ok tt end.

Definition check_sandbox (b : ToolBridge) (tool : string) (args : Value) : result string unit :=
  if bool_decide (tool = "bash") then
    match vget args "command" ≫= as_str_opt with
    | Some cmd => unless_denied "沙箱拒绝执行：" (check_shell_command (sandbox b) cmd)
    | None => Ok tt
    end
  else if bool_decide (tool ∈ ["read_file"; "cat"; "head"; "tail"]) then
    match vget args "path" ≫= as_str_opt with
    | Some p => unless_denied "沙箱拒绝访问：" (check_file_access (sandbox b) p Read)
    | None => Ok tt
    end
  else if bool_decide (tool ∈ ["write_file"; "edit_file"; "search_replace"]) then
    match vget args "path" ≫= as_str_opt with
    | Some p => unless_denied "沙箱拒绝写入：" (check_file_access (sandbox b) p Write)
    | None => Ok tt
    end
  else if bool_decide (tool ∈ ["web_fetch"; "curl"]) then
    unless_denied "沙箱拒绝网络访问：" (check_network_access (sandbox b))
  else Ok tt.

Inductive Attempt := Returned (text : string) | Failed (error : string) | TimedOut.

Section execute.
Context `{StrEnv}.
(** [re_match pattern text]: the pattern is valid and matches. *)
Context (re_match : string -> string -> bool).
(** The outcome of each attempt, counted from 1, and the milliseconds passed by
    its end. *)
Context (run : nat -> Attempt) (elapsed : nat -> Z).

Definition is_retryable_error (c : ToolRetryConfig) (text : string) : bool :=
  existsb (fun p => re_match p text) (retryable_error_patterns c).

Definition run_hooks (b : ToolBridge) (req : ToolCallRequest) (text : string) : string :=
  foldl (fun acc h => if should_run h (tool_name req) then acc +:+ run_hook h (tool_name req) (arguments req) acc
                      else acc) text (post_hooks b).

Definition error_output (b : ToolBridge) (a : Attempt) : string :=
  match a with
  | Returned t => t
  | Failed e => "工具执行错误：" +:+ e
  | TimedOut => "工具执行超时（" +:+ pretty (execution_timeout_secs b) +:+ "秒）"
  end.

(** The attempts from number [attempt] on: the result and the waits between
    them; [None] when the fuel runs out. *)
Fixpoint attempts (fuel : nat) (b : ToolBridge) (req : ToolCallRequest) (attempt : nat)
    : option (ToolCallResult * list Z) :=
  match fuel with
  | O => None
  | S f =>
      match run attempt with
      | Returned text =>
          let text := run_hooks b req text in
          let text := if 1 <? attempt then text +:+ str1 nl +:+ "[重试成功：第 " +:+ show attempt +:+ " 次尝试成功]" else text in
          Some (mkResult (tool_call_id req) text true (elapsed attempt) false, [])
      | a =>
          let text := error_output b a in
          if (Z.of_nat attempt <=? max_retries (retry_config b))%Z && is_retryable_error (retry_config b) text then
            '(r, waits) ← attempts f b req (S attempt);
            Some (r, calculate_delay (retry_config b) (Z.of_nat attempt) :: waits)
          else
            let retry_info := if 1 <? attempt then "（已重试 " +:+ show (attempt - 1) +:+ " 次）" else "" in
            Some (mkResult (tool_call_id req) (text +:+ retry_info) false (elapsed attempt) false, [])
      end
  end.

(** The checks before the executor runs: the refusal, if any. *)
Definition refusal (b : ToolBridge) (c : PermissionChecker) (req : ToolCallRequest) : option ToolCallResult :=
  let refuse text ms := Some (mkResult (tool_call_id req) text false ms false) in
  match check_sandbox b (tool_name req) (arguments req) with
  | Err reason => refuse reason (elapsed 0)
  | Ok _ =>
      match check c (tool_name req) (arguments req) with
      | Deny => refuse ("权限拒绝：工具 " +:+ tool_name req +:+ " 被安全策略阻止") (elapsed 0)
      | AskUser | Allow =>
          if bool_decide (tool_name req ∈ executors b) then None
          else refuse ("未知工具：" +:+ tool_name req) 0%Z
      end
  end.

(** [execute]: the result, and the waits when the executor was run. *)
Definition execute (b : ToolBridge) (c : PermissionChecker) (req : ToolCallRequest)
    : option (ToolCallResult * option (list Z)) :=
  match refusal b c req with
  | Some r => Some (r, None)
  | None => '(r, waits) ← attempts (S (Z.to_nat (max_retries (retry_config b)))) b req 1;
            Some (r, Some waits)
  end.

(** ** Proofs *)

(** An attempt that is followed by another one. *)
Definition retried (b : ToolBridge) (k : nat) : bool :=
  match run k with
  | Returned _ => false
  | a => (Z.of_nat k <=? max_retries (retry_config b))%Z && is_retryable_error (retry_config b) (error_output b a)
  end.

(** The result of the last attempt. *)
Definition final_result (b : ToolBridge) (req : ToolCallRequest) (k : nat) : ToolCallResult :=
  match run k with
  | Returned text =>
      let text := run_hooks b req text in
      mkResult (tool_call_id req)
        (if 1 <? k then text +:+ str1 nl +:+ "[重试成功：第 " +:+ show k +:+ " 次尝试成功]" else text)
        true (elapsed k) false
  | a => mkResult (tool_call_id req)
           (error_output b a +:+ (if 1 <? k then "（已重试 " +:+ show (k - 1) +:+ " 次）" else ""))
           false (elapsed k) false
  end.

Lemma attempts_step f b req k :
  attempts (S f) b req k =
  if retried b k then
    '(r, waits) ← attempts f b req (S k); Some (r, calculate_delay (retry_config b) (Z.of_nat k) :: waits)
  else Some (final_result b req k, []).
Proof. cbn [attempts]. unfold retried, final_result. destruct (run k); try done; by destruct (_ && _). Qed.

Lemma retried_bound b k : retried b k = true -> (Z.of_nat k <= max_retries (retry_config b))%Z.
Proof. unfold retried. destruct (run k); [done|..]; intros [? _]%andb_true_iff; by zbool. Qed.

(** Enough fuel: the loop ends at the first attempt that is not retried. *)
Lemma attempts_spec f b req k :
  (max_retries (retry_config b) + 1 < Z.of_nat (k + f))%Z -> 0 < f ->
  exists n, k <= n /\ attempts f b req k =
    Some (final_result b req n, (fun i => calculate_delay (retry_config b) (Z.of_nat i)) <$> seq k (n - k)) /\
    retried b n = false /\ (forall j, k <= j < n -> retried b j = true).
Proof.
  revert k. induction f as [|f IH]; intros k Hf Hp; [lia|]. rewrite attempts_step.
  destruct (retried b k) eqn:E.
  - pose proof (retried_bound _ _ E) as Hk. destruct (IH (S k)) as (n & Hn & -> & Hl & Hr); [lia|lia|].
    exists n. split; [lia|]. split_and!; [|done|].
    + cbn [mbind option_bind]. replace (n - k) with (S (n - S k)) by lia. done.
    + intros j Hj. destruct (decide (j = k)) as [->|]; [done|]. apply Hr. lia.
  - exists k. rewrite Nat.sub_diag. split_and!; [done|done|done|]. intros j Hj. lia.
Qed.


(** The executor is run exactly when the sandbox does not deny the call,
    the permission check does not deny it and there is an executor of that
    name; a decision to ask the user does not stop it. *)
Theorem execute_gate b c req :
  refusal b c req = None <->
  check_sandbox b (tool_name req) (arguments req) = Ok tt /\
  check c (tool_name req) (arguments req) <> Deny /\ tool_name req ∈ executors b.
Proof.
  unfold refusal. destruct (check_sandbox b (tool_name req) (arguments req)) as [[]|]; [|naive_solver].
  destruct (check c (tool_name req) (arguments req)); (try case_bool_decide; naive_solver).
Qed.
End execute.

(** ** Names *)

Lemma executors_fold l b :
  executors (foldl (fun b n => register_executor n b) b l) = list_to_set l ∪ executors b.
Proof. revert b. induction l as [|n l IH]; intros b; cbn [foldl list_to_set]; [set_solver|]. rewrite IH. cbn. set_solver. Qed.

Lemma definitions_fold l b :
  tool_definitions (foldl (fun b e => register e b) b l) = list_to_set (definition_name <$> l) ∪ tool_definitions b.
Proof.
  revert b. induction l as [|e l IH]; intros b; cbn [foldl fmap list_fmap list_to_set]; [set_solver|].
  rewrite IH. unfold tool_definitions at 1. cbn. rewrite dom_insert_L. unfold tool_definitions. set_solver.
Qed.

Lemma fold_executors_entries l b : entries (foldl (fun b n => register_executor n b) b l) = entries b.
Proof. revert b. induction l as [|n l IH]; intros b; cbn [foldl]; [done|]. by rewrite IH. Qed.
Lemma fold_register_executors l b : executors (foldl (fun b e => register e b) b l) = executors b.
Proof. revert b. induction l as [|e l IH]; intros b; cbn [foldl]; [done|]. by rewrite IH. Qed.

Lemma default_bridge hook :
  executors (bridge_new hook) = list_to_set builtin_executors /\
  tool_definitions (bridge_new hook) = list_to_set (definition_name <$> default_entries).
Proof.
  unfold bridge_new, register_builtin_executors, register_defaults. split.
  - cbn [executors register_post_hook]. rewrite executors_fold, fold_register_executors. cbn [executors]. set_solver.
  - unfold tool_definitions at 1. cbn [entries register_post_hook]. rewrite fold_executors_entries.
    change (dom (entries ?b)) with (tool_definitions b). rewrite definitions_fold. unfold tool_definitions. cbn [entries].
    rewrite dom_empty_L. set_solver.
Qed.

(** For every tool that can run, the sandbox is asked only for [bash] and
    [web_fetch]: reading, writing and editing files pass it whatever the
    profile denies, because its rules are kept under the names offered to the
    model, which have no executor. *)
Theorem sandbox_skips_file_tools b tool args :
  tool ∈ builtin_executors -> tool <> "bash" -> tool <> "web_fetch" ->
  check_sandbox b tool args = Ok tt.
Proof.
  intros Ht Hb Hw. unfold check_sandbox. rewrite (bool_decide_false (tool = "bash")) by done.
  unfold builtin_executors in Ht. rewrite !elem_of_cons in Ht.
  destruct Ht as [->|[->|[->|[->|[->|[->|[->|[->|[->|[->|[->|[]%not_elem_of_nil]]]]]]]]]]]; done.
Qed.

(** The names offered that have an executor. *)
Lemma runnable_definitions :
  filter (fun n => n ∈ builtin_executors) (definition_name <$> default_entries) =
  ["bash"; "grep"; "list_dir"; "web_search"; "web_fetch"; "lsp"].
Proof. by vm_compute. Qed.

(** The delays double up to the maximum as long as nothing overflows. *)
Lemma calculate_delay_exact c attempt :
  (1 <= attempt)%Z -> (0 <= base_delay_ms c)%Z -> (base_delay_ms c * 2 ^ (attempt - 1) <= u64_max)%Z ->
  (1 <= base_delay_ms c)%Z ->
  calculate_delay c attempt = Z.min (base_delay_ms c * 2 ^ (attempt - 1)) (max_delay_ms c).
Proof.
  intros Ha Hb Hm H1. unfold calculate_delay, sat_sub, u64_mul. rewrite Z.max_r by lia.
  assert (0 <= 2 ^ (attempt - 1))%Z by (apply Z.pow_nonneg; lia).
  rewrite (wrap_small 64 (2 ^ (attempt - 1))).
  - rewrite wrap_small; [done|]. unfold u64_max in Hm. nia.
  - unfold u64_max in Hm. nia.
Qed.

(** ** Witnesses *)

Definition no_hook : PostExecuteHook := mkHook (fun _ => false) (fun _ _ _ => "").
Definition call (tool : string) : ToolCallRequest := mkRequest "1" tool (Object [("path", Str "/etc/shadow")]) "a".

(** A run that always fails with the text of the shell tool's own time-out is
    started four times. *)
Definition always_timeout (n : nat) : Attempt := Failed "bash 执行超时（5秒），建议增加 timeout 参数或使用后台执行".


Lemma sandbox_skips_file_tools_witness :
  check_sandbox (bridge_new no_hook) "read" (arguments (call "read")) = Ok tt /\
  check_sandbox (bridge_new no_hook) "read_file" (arguments (call "read_file")) <> Ok tt.
Proof.
  split; [|by vm_compute]. apply sandbox_skips_file_tools; [|done|done].
  apply (bool_decide_unpack _). by vm_compute.
Defined.
