(* ===== verification/HookRules.v ===== *)
(** * Permission rules of the hooks

    [ccode-hooks], permission_rules.rs and permission_chain.rs: the glob matcher,
    the rules with their evaluation, and the chain pre-filter, hook, rules,
    default.  The compact text of a JSON value is an argument ([json_text]);
    lower-casing is that of [Permission.StrEnv].  Rule files are given by their
    parsed content. *)

From S2P Require Import Prelude RustStr F64 Json Permission TextLines TextFind.

(** ** Characters *)

(** [s.chars().collect()], each character as its bytes. *)
Fixpoint chars (s : string) : list string :=
  match s with
  | EmptyString => []
  | String c s' =>
      match chars s' with
      | String d h :: t => if cont d then String c (String d h) :: t else str1 c :: String d h :: t
      | l => str1 c :: l
      end
  end.

(** ** Glob matching *)

Fixpoint skip_stars (p : list string) : list string :=
  match p with
  | c :: p' => if bool_decide (c = "*") then skip_stars p' else p
  | [] => []
  end.

(** The rests of a text, itself and the empty one included. *)
Fixpoint rests {A} (t : list A) : list (list A) :=
  t :: match t with [] => [] | _ :: t' => rests t' end.

(** [dp] on the rests of pattern and text at the two indices. *)
Fixpoint dp (fuel : nat) (p t : list string) : bool :=
  match fuel with
  | O => false
  | S f =>
      match p with
      | [] => bool_decide (t = [])
      | c :: p' =>
          if bool_decide (c = "*") && bool_decide (head p' = Some "*") then
            let next := skip_stars p' in
            (bool_decide (head next = Some "/") && dp f (tail next) t) || existsb (dp f next) (rests t)
          else if bool_decide (c = "*") then existsb (dp f (skip_stars p')) (rests t)
          else
            match t with
            | [] => false
            | d :: t' =>
                if bool_decide (c = "?") then bool_decide (d <> "/") && dp f p' t'
                else bool_decide (c = d) && dp f p' t'
            end
      end
  end.

(** The recursion consumes the pattern. *)
Definition glob_match_impl (pattern text : string) : bool :=
  let p := chars pattern in dp (S (length p)) p (chars text).

Definition glob_match (pattern text : string) : bool := glob_match_impl pattern text.

(** ** Rules *)

Record ToolPattern := mkPattern { pattern_tool : string; arg_pattern : option string }.

Inductive PermissionDecision := Allow | Deny (reason : string) | Ask (reason : string).

Inductive PermissionRule :=
| AllowRule (pattern : ToolPattern)
| DenyRule (pattern : ToolPattern) (reason : option string)
| AskRule (pattern : ToolPattern) (reason : option string).

Definition pattern (r : PermissionRule) : ToolPattern :=
  match r with AllowRule p | DenyRule p _ | AskRule p _ => p end.

Definition to_decision (r : PermissionRule) : PermissionDecision :=
  match r with
  | AllowRule _ => Allow
  | DenyRule _ reason => Deny (default "被规则拒绝" reason)
  | AskRule _ reason => Ask (default "需要用户确认" reason)
  end.

Definition is_deny (r : PermissionRule) : bool := match r with DenyRule _ _ => true | _ => false end.

Definition rule tool arg : ToolPattern := mkPattern tool (Some arg).

Definition default_rules : list PermissionRule :=
  [ DenyRule (rule "Bash" "rm -rf /*") (Some "禁止递归删除根目录");
    DenyRule (rule "Bash" "rm -rf /") (Some "禁止删除根目录");
    DenyRule (rule "Write" ".env") (Some "禁止写入环境变量文件");
    DenyRule (rule "Write" "**/credentials*") (Some "禁止写入凭证文件");
    AllowRule (rule "Read" "*"); AllowRule (rule "Bash" "git *"); AllowRule (rule "Bash" "cargo *");
    AllowRule (rule "Bash" "npm *"); AllowRule (rule "Grep" "*"); AllowRule (rule "Glob" "*");
    AskRule (rule "Bash" "*") (Some "其他命令需要确认") ].

(** ** The result of the chain *)

(** [HookDecision] (result.rs) *)
Inductive HookDecision := HookAllow | HookDeny (reason hook_name : string).

Inductive DecisionSource := PreFilter | Hook (hook_name : string) | RuleEngine | UserConfirmation | Default.

Record PermissionChainResult := mkChain {
  decision : PermissionDecision; source : DecisionSource; alternatives : list string; retryable : bool
}.

Definition dangerous_commands : list string :=
  [ "rm -rf /"; "rm -rf /*"; "rm -rf ~"; "rm -rf ~/*"; "mkfs"; "dd if=/dev/zero"; "dd if=/dev/urandom";
    ":(){ :|:& };:"; "chmod -R 777 /"; "chmod 777 /"; "chown -R root /"; "curl | sh"; "curl | bash";
    "wget | sh"; "wget | bash"; "shutdown"; "reboot"; "halt"; "poweroff"; "init 0"; "init 6"; "> /dev/sda";
    "mv / /dev/null"; "rm -rf /var"; "rm -rf /etc"; "rm -rf /usr"; "systemctl stop"; "systemctl disable";
    "service stop" ].
Definition sensitive_files : list string := [".env"; "credentials"; ".ssh/"; "id_rsa"; ".gnupg/"].

Definition chain_safe_tools : list string :=
  ["Read"; "Grep"; "Glob"; "LS"; "SearchCodebase"; "WebSearch"; "WebFetch"; "TodoWrite"; "TodoRead"; "TaskOutput"].

Definition command_of (input : Value) : option string := vget input "command" ≫= as_str_opt.

Section rules.
Context `{StrEnv}.
(** [serde_json::to_string] *)
Context (json_text : Value -> string).

Definition extract_arg_text (input : Value) : string :=
  match input with
  | Object _ =>
      match vget input "command" ≫= as_str_opt with
      | Some cmd => cmd
      | None =>
          match vget input "file_path" ≫= as_str_opt with
          | Some p => p
          | None => match vget input "path" ≫= as_str_opt with Some p => p | None => json_text input end
          end
      end
  | Str s => s
  | other => json_text other
  end.

Definition pattern_matches (p : ToolPattern) (tool : string) (input : Value) : bool :=
  if negb (glob_match (pattern_tool p) tool) then false
  else match arg_pattern p with
       | None => true
       | Some a => glob_match a (extract_arg_text input)
       end.

Definition matches (tool : string) (input : Value) (r : PermissionRule) : bool :=
  pattern_matches (pattern r) tool input.

Definition evaluate (rules : list PermissionRule) (tool : string) (input : Value) : PermissionDecision :=
  match find (fun r => is_deny r && matches tool input r) rules with
  | Some r => to_decision r
  | None =>
      match find (fun r => negb (is_deny r) && matches tool input r) rules with
      | Some r => to_decision r
      | None => Ask ("工具 '" +:+ tool +:+ "' 无匹配规则，需要用户确认")
      end
  end.

(** ** The chain *)

Definition pre_denied (text : string) (alternatives : list string) : option PermissionChainResult :=
  Some (mkChain (Deny text) PreFilter alternatives false).

Definition pre_filter_command (tool : string) (input : Value) : option PermissionChainResult :=
  if bool_decide (tool ∈ ["Bash"; "Shell"]) then
    cmd ← command_of input;
    dangerous ← find (fun d => str_contains d (to_lowercase cmd)) dangerous_commands;
    pre_denied ("预过滤拒绝：命令包含危险操作 '" +:+ dangerous +:+ "'")
      ["如果需要删除文件，请指定具体路径"; "使用 git clean 替代 rm -rf"]
  else None.

Definition pre_filter_file (tool : string) (input : Value) : option PermissionChainResult :=
  if bool_decide (tool ∈ ["FileWrite"; "Write"; "FileEdit"; "Edit"]) then
    p ← (match vget input "file_path" with Some v => Some v | None => vget input "path" end) ≫= as_str_opt;
    sensitive ← find (fun s => str_contains s p) sensitive_files;
    pre_denied ("预过滤拒绝：写入敏感文件 '" +:+ sensitive +:+ "'")
      ["使用环境变量替代硬编码密钥"; "使用 secrets 管理工具"]
  else None.

Definition pre_filter (tool : string) (input : Value) : option PermissionChainResult :=
  match pre_filter_command tool input with
  | Some r => Some r
  | None => pre_filter_file tool input
  end.

Definition generate_deny_alternatives (tool : string) (input : Value) : list string :=
  if bool_decide (tool ∈ ["Bash"; "Shell"]) then
    let alternatives :=
      match command_of input with
      | Some cmd =>
          let has d := str_contains d cmd in
          (if has "rm " then ["使用 Edit 删除文件内容替代 rm 命令"; "使用 git rm 替代 rm（保留版本历史）"] else []) ++
          (if has "chmod" || has "chown" then ["检查当前权限是否已满足需求"] else []) ++
          (if has "curl" || has "wget" then ["使用 WebFetch 工具获取网页内容"] else []) ++
          (if has "apt" || has "yum" || has "brew" then ["确认包安装是否必要，考虑使用 Docker 替代"] else [])
      | None => []
      end in
    match alternatives with
    | [] => ["尝试拆分命令为更小的操作步骤"; "使用 --dry-run 或 --confirm 参数预览操作"]
    | l => l
    end
  else if bool_decide (tool ∈ ["Write"; "FileWrite"]) then
    ["先使用 Read 工具确认当前文件内容"; "使用 Edit 工具进行增量修改而非全量覆写"]
  else if bool_decide (tool ∈ ["Edit"; "FileEdit"]) then
    ["确认修改范围是否正确（使用 Read 先查看）"; "缩小修改范围到最小必要变更"]
  else ["检查 " +:+ tool +:+ " 的参数是否符合权限策略"; "在 .ccode/permissions.json 中添加对应的 allow 规则"].

Definition default_policy (tool : string) (auto_mode : bool) : PermissionChainResult :=
  if auto_mode then
    if bool_decide (tool ∈ chain_safe_tools) then mkChain Allow Default [] false
    else mkChain (Ask ("auto 模式下 " +:+ tool +:+ " 操作需要确认")) Default [] true
  else mkChain (Deny ("deny-first：未找到 " +:+ tool +:+ " 的允许规则，默认拒绝")) Default
         ["在 .ccode/permissions.json 中添加 allow 规则"; "使用 /permissions 命令管理权限"] true.

Definition evaluate_permission_chain (tool : string) (input : Value) (rules : list PermissionRule)
    (hook : option HookDecision) (auto_mode : bool) : PermissionChainResult :=
  match pre_filter tool input with
  | Some r => r
  | None =>
      match hook with
      | Some (HookDeny reason name) =>
          mkChain (Deny reason) (Hook name) (generate_deny_alternatives tool input) true
      | _ =>
          match evaluate rules tool input with
          | Deny reason => mkChain (Deny reason) RuleEngine (generate_deny_alternatives tool input) true
          | Ask reason => if negb auto_mode then mkChain (Ask reason) RuleEngine [] true
                          else default_policy tool auto_mode
          | Allow => mkChain Allow RuleEngine [] false
          end
      end
  end.
End rules.

(** ** What a glob means

    A run of stars matches any text, slashes included; a run of at least two
    followed by a slash also matches nothing; [?] matches one character other
    than a slash. *)

Inductive token := Stars (n : nat) | One | Lit (c : string).

Fixpoint tokens (p : list string) : list token :=
  match p with
  | [] => []
  | c :: p' =>
      if bool_decide (c = "*") then
        match tokens p' with
        | Stars n :: l => Stars (S n) :: l
        | l => Stars 1 :: l
        end
      else if bool_decide (c = "?") then One :: tokens p'
      else Lit c :: tokens p'
  end.

Inductive gmatch : list token -> list string -> Prop :=
| G_nil : gmatch [] []
| G_stars n ts s t : gmatch ts t -> gmatch (Stars n :: ts) (s ++ t)
| G_dirs n ts t : 2 <= n -> gmatch ts t -> gmatch (Stars n :: Lit "/" :: ts) t
| G_one c ts t : c <> "/" -> gmatch ts t -> gmatch (One :: ts) (c :: t)
| G_lit c ts t : gmatch ts t -> gmatch (Lit c :: ts) (c :: t).

#[export] Hint Constructors gmatch : ccode.

Fixpoint star_count (p : list string) : nat :=
  match p with
  | c :: p' => if bool_decide (c = "*") then S (star_count p') else 0
  | [] => 0
  end.

Lemma elem_rests {A} (t x : list A) : x ∈ rests t <-> exists s, t = s ++ x.
Proof.
  induction t as [|c t IH]; cbn.
  - rewrite list_elem_of_singleton. split; [intros ->; by exists []|]. by intros [[] ?]; simplify_eq/=.
  - rewrite elem_of_cons, IH. split.
    + intros [->|[s ->]]; [by exists []|by exists (c :: s)].
    + intros [[|d s] Hs]; simplify_eq/=; [by left|]. right. by exists s.
Qed.

Lemma existsb_rests (f : list string -> bool) t :
  existsb f (rests t) = true <-> exists s u, t = s ++ u /\ f u = true.
Proof.
  rewrite existsb_exists. split.
  - intros (u & Hu & Hf). apply list_elem_of_In, elem_rests in Hu as [s ->]. by exists s, u.
  - intros (s & u & -> & Hf). exists u. split; [|done]. apply list_elem_of_In, elem_rests. by exists s.
Qed.

Lemma tokens_star p : tokens ("*" :: p) = Stars (S (star_count p)) :: tokens (skip_stars p).
Proof.
  induction p as [|c p IH]; [done|]. change (tokens ("*" :: c :: p)) with
    (match tokens (c :: p) with Stars n :: l => Stars (S n) :: l | l => Stars 1 :: l end).
  cbn [star_count skip_stars]. case_bool_decide as Hc; [subst; by rewrite IH|].
  cbn [tokens]. rewrite (bool_decide_false (c = "*")) by done. by case_bool_decide.
Qed.

Lemma star_count_pos p : head p = Some "*" <-> 1 <= star_count p.
Proof.
  destruct p as [|c p]; cbn; [split; [done|lia]|]. case_bool_decide; subst; split; intros; try done; try lia. congruence.
Qed.

Lemma length_skip_stars p : length (skip_stars p) <= length p.
Proof. induction p as [|c p IH]; cbn; [done|]. case_bool_decide; cbn; lia. Qed.

(** What follows the stars does not begin with a star. *)
Lemma tokens_skip_head p n l : tokens (skip_stars p) <> Stars n :: l.
Proof.
  induction p as [|c p IH]; cbn; [done|]. case_bool_decide as Hc; [done|].
  cbn [tokens]. rewrite (bool_decide_false (c = "*")) by done. by case_bool_decide.
Qed.

Lemma tokens_slash p l : tokens p = Lit "/" :: l <-> head p = Some "/" /\ l = tokens (tail p).
Proof.
  destruct p as [|c p]; cbn [tokens head tail]; [naive_solver|].
  case_bool_decide as Hs; [subst; split; [|naive_solver]|].
  - destruct (tokens p) as [|[] ?]; naive_solver.
  - case_bool_decide as Hq; subst; naive_solver.
Qed.

Lemma gmatch_stars_inv n ts t : gmatch (Stars n :: ts) t ->
  (exists s u, t = s ++ u /\ gmatch ts u) \/ (2 <= n /\ exists ts', ts = Lit "/" :: ts' /\ gmatch ts' t).
Proof. inversion 1; subst; [left; by eexists _, _|right; eauto]. Qed.

Lemma dp_spec f p t : length p < f -> dp f p t = true <-> gmatch (tokens p) t.
Proof.
  revert p t. induction f as [|f IH]; intros p t Hf; [lia|]. destruct p as [|c p].
  { cbn. rewrite bool_decide_eq_true. split; [intros ->; constructor|by inversion 1]. }
  cbn [length] in Hf. pose proof (length_skip_stars p) as Hsk. cbn [dp].
  destruct (decide (c = "*")) as [->|Hc].
  - rewrite (bool_decide_true ("*" = "*")) by done. cbn [andb]. rewrite tokens_star.
    assert (existsb (dp f (skip_stars p)) (rests t) = true <->
            exists s u, t = s ++ u /\ gmatch (tokens (skip_stars p)) u) as Hex.
    { rewrite existsb_rests. by setoid_rewrite IH; [|lia]. }
    case_bool_decide as Hh.
    + apply star_count_pos in Hh. rewrite orb_true_iff, andb_true_iff, bool_decide_eq_true, Hex. split.
      * intros [[Hs Hd]|(s & u & -> & Hu)]; [|by constructor].
        destruct (skip_stars p) as [|x q]; [done|]. injection Hs as ->.
        rewrite IH in Hd by (cbn in *; lia). apply (G_dirs _ (tokens q)); [lia|done].
      * intros Hg. apply gmatch_stars_inv in Hg as [?|(_ & ts' & Hts & Hm)]; [by right|]. left.
        apply tokens_slash in Hts as [Hs ->]. split; [done|]. rewrite IH; [done|].
        destruct (skip_stars p); cbn in *; lia.
    + rewrite Hex. split; [by intros (s & u & -> & Hu); constructor|].
      intros Hg. apply gmatch_stars_inv in Hg as [?|(Hn & _)]; [done|].
      rewrite star_count_pos in Hh. lia.
  - rewrite (bool_decide_false (c = "*")) by done. cbn [andb tokens]. rewrite (bool_decide_false (c = "*")) by done.
    destruct t as [|d t]; [split; [done|]; case_bool_decide; by inversion 1|].
    case_bool_decide as Hq; rewrite andb_true_iff, bool_decide_eq_true, IH by lia.
    + split; [intros [??]; by constructor|by inversion 1].
    + split; [intros [-> ?]; by constructor|by inversion 1].
Qed.

(** C26.  The recursive matcher decides the declarative meaning of a pattern,
    for every pattern and text. *)
Theorem glob_match_exact pat text :
  glob_match pat text = true <-> gmatch (tokens (chars pat)) (chars text).
Proof. apply dp_spec. lia. Qed.

(** ** Denials *)

Definition denied (d : PermissionDecision) : bool := match d with Deny _ => true | _ => false end.

Lemma pre_filter_denies `{StrEnv} tool input r : pre_filter tool input = Some r -> denied (decision r) = true.
Proof.
  unfold pre_filter, pre_filter_command, pre_filter_file, pre_denied. intros E.
  repeat case_match; simplify_option_eq; try done; by destruct (find _ _); simplify_option_eq.
Qed.

Section denials.
Context `{StrEnv} (json_text : Value -> string).

(** Whatever the order of the rules and whatever else matches. *)
Lemma evaluate_denied rules tool input :
  denied (evaluate json_text rules tool input) = true <->
  Exists (fun r => is_deny r = true /\ matches json_text tool input r = true) rules.
Proof.
  unfold evaluate. rewrite Exists_exists. split.
  - destruct (find _ rules) as [r|] eqn:E.
    + intros _. apply find_some in E as [Hin Hr]. apply andb_true_iff in Hr. apply list_elem_of_In in Hin. eauto.
    + destruct (find _ rules) as [r|] eqn:E2 in |- *; [|done]. apply find_some in E2 as [_ Hr].
      apply andb_true_iff in Hr as [Hr _]. by destruct r.
  - intros (r & Hin & Hd & Hm). destruct (find _ rules) as [r'|] eqn:E.
    + apply find_some in E as [_ Hr]. apply andb_true_iff in Hr as [Hr _]. by destruct r'.
    + apply list_elem_of_In in Hin. eapply find_none in E; [|done]. cbn in E. by rewrite Hd, Hm in E.
Qed.

Lemma chain_denied tool input rules hook auto :
  denied (decision (evaluate_permission_chain json_text tool input rules hook auto)) = true <->
  is_Some (pre_filter tool input) \/ (exists reason name, hook = Some (HookDeny reason name)) \/
  Exists (fun r => is_deny r = true /\ matches json_text tool input r = true) rules.
Proof.
  unfold evaluate_permission_chain. rewrite <- evaluate_denied.
  destruct (pre_filter tool input) as [r|] eqn:E.
  { apply pre_filter_denies in E. rewrite E. split; [intros _; left; by eexists|done]. }
  assert (is_Some (@None PermissionChainResult) <-> False) as HN by (split; [by intros [? ?]|done]). rewrite HN.
  destruct hook as [[|reason name]|]; [|split; [|done]; intros _; right; left; by eexists _, _|];
    destruct (evaluate json_text rules tool input); cbn [denied decision];
    unfold default_policy; destruct auto; cbn [negb]; repeat case_match; naive_solver.
Qed.

(** The first rule of the list that matches the call. *)
Definition first_match (tool : string) (input : Value) (rules : list PermissionRule) (r : PermissionRule) : Prop :=
  exists before after, rules = before ++ r :: after /\ matches json_text tool input r = true /\
    Forall (fun x => matches json_text tool input x = false) before.

Lemma first_match_find tool input rules r : first_match tool input rules r <-> find (matches json_text tool input) rules = Some r.
Proof.
  split.
  - intros (l & k & -> & Hr & Hl). induction Hl as [|x l Hx Hl IH]; cbn; [by rewrite Hr|by rewrite Hx].
  - induction rules as [|x rules IH]; [done|]. cbn. destruct (matches json_text tool input x) eqn:E.
    + intros [= <-]. by exists [], rules.
    + intros (l & k & -> & Hr & Hl)%IH. exists (x :: l), k. split_and!; [done|done|by constructor].
Qed.

(** Without a matching deny rule the first rule that matches decides. *)
Lemma evaluate_first tool input rules :
  denied (evaluate json_text rules tool input) = false ->
  evaluate json_text rules tool input =
    match find (matches json_text tool input) rules with
    | Some r => to_decision r
    | None => Ask ("工具 '" +:+ tool +:+ "' 无匹配规则，需要用户确认")
    end.
Proof.
  unfold evaluate. intros Hd. destruct (find (fun r => is_deny r && _) rules) as [r|] eqn:E.
  { apply find_some in E as [_ Hr]. apply andb_true_iff in Hr as [Hr _]. by destruct r. }
  assert (find (fun r => negb (is_deny r) && matches json_text tool input r) rules = find (matches json_text tool input) rules) as ->; [|done].
  clear Hd. induction rules as [|x rules IH]; [done|]. cbn in E |- *.
  destruct (is_deny x), (matches json_text tool input x); cbn in E |- *; try done; by apply IH.
Qed.

(** C14.  The chain denies a call exactly when the pre-filter knows its text, a
    hook denied it or some deny rule matches it, wherever it stands.  It allows a
    call exactly when nothing denies it and the first rule that matches it is an
    allow rule, or, whatever the other rules say, when the mode is automatic and
    the tool is one of the safe ones.  In all other cases it asks: the final
    default that denies is never reached. *)
Theorem chain_exact tool input rules hook auto :
  let d := decision (evaluate_permission_chain json_text tool input rules hook auto) in
  let deny := is_Some (pre_filter tool input) \/ (exists reason name, hook = Some (HookDeny reason name)) \/
              Exists (fun r => is_deny r = true /\ matches json_text tool input r = true) rules in
  let allow := (exists p, first_match tool input rules (AllowRule p)) \/ (auto = true /\ (tool ∈ chain_safe_tools)) in
  (denied d = true <-> deny) /\ (d = Allow <-> ~ deny /\ allow) /\ (~ deny -> ~ allow -> exists reason, d = Ask reason).
Proof.
  intros d deny allow. pose proof (chain_denied tool input rules hook auto) as Hd. fold d in Hd. change (denied d = true <-> deny) in Hd.
  assert (denied d = false -> d = Allow <-> allow) as Ha.
  { clear Hd. unfold allow. setoid_rewrite first_match_find. pose proof (evaluate_first tool input rules) as He.
    unfold d, evaluate_permission_chain. destruct (pre_filter tool input) as [r|] eqn:E; [apply pre_filter_denies in E; congruence|].
    destruct hook as [[|reason name]|]; cbn [denied decision]; try done;
      destruct (evaluate json_text rules tool input); cbn [denied decision] in *; try done; unfold default_policy;
      (destruct (find _ rules) as [[]|]; specialize (He eq_refl); try done; cbn in He);
      destruct auto; cbn [negb]; try case_bool_decide; cbn [denied decision]; naive_solver. }
  split; [done|]. rewrite <- Hd. clear Hd. clearbody allow d. destruct d; cbn [denied] in *; naive_solver.
Qed.
End denials.

(** The star of an allow rule reaches over the end of the command: anything may
    follow [git ] on the line. *)
Example git_rule_allows_more :
  let input := Object [("command", Str "git status; rm -rf $HOME")] in
  decision (evaluate_permission_chain (H := ascii_env) (fun _ => "") "Bash" input default_rules None false) = Allow.
Proof. by vm_compute. Qed.

(** A star matches a slash. *)
Example star_matches_slash : glob_match "src/*" "src/a/b" = true.
Proof. by vm_compute. Qed.
