(* ===== verification/EnvExpand.v ===== *)
(** * Environment references in hook commands

    [ccode-hooks], env_expand.rs and the environment checks of
    runner/command.rs: the scanner for [$VAR] and [${VAR...}], the masking of
    forms with a modifier around [shellexpand], and the variables a command needs
    that nobody sets.  [shellexpand] and the random sentinel are arguments. *)

From S2P Require Import Prelude RustStr TextLines TextFind.

Definition alpha (c : ascii) : bool := byte_in 65 90 c || byte_in 97 122 c || bool_decide (c = "_"%char).
Definition ident_char (c : ascii) : bool := alpha c || byte_in 48 57 c.

(** The longest front of identifier characters, and the rest. *)
Fixpoint span_ident (s : string) : string * string :=
  match s with
  | EmptyString => (EmptyString, EmptyString)
  | String c s' => if ident_char c then (String c (span_ident s').1, (span_ident s').2) else (EmptyString, s)
  end.

(** The text before the first closing brace, and the text after it. *)
Fixpoint upto_close (s : string) : option (string * string) :=
  match s with
  | EmptyString => None
  | String c s' =>
      if bool_decide (c = "}"%char) then Some (EmptyString, s')
      else match upto_close s' with Some (a, b) => Some (String c a, b) | None => None end
  end.

Record EnvVarRef := mkRef { ref_start : nat; ref_end : nat; ref_name : string; braced : bool; has_modifier : bool }.

(** [EnvVarRefIter] from byte [pos], whose rest is [s]; every round takes at
    least one byte of it. *)
Fixpoint refs_from (fuel pos : nat) (s : string) : list EnvVarRef :=
  match fuel, s with
  | S f, String c s' =>
      if negb (bool_decide (c = "$"%char)) then refs_from f (S pos) s'
      else
        match s' with
        | EmptyString => []
        | String d s'' =>
            if bool_decide (d = "{"%char) then
              let '(name, rest) := span_ident s'' in
              match upto_close rest with
              | None => refs_from f (S pos) s'
              | Some (body, rest) =>
                  let e := pos + 2 + String.length name + String.length body + 1 in
                  mkRef pos e name true (negb (bool_decide (name = "")) && negb (bool_decide (body = "")))
                    :: refs_from f e rest
              end
            else if alpha d then
              let '(name, rest) := span_ident s' in
              let e := pos + 1 + String.length name in
              mkRef pos e name false false :: refs_from f e rest
            else refs_from f (pos + 2) s''
        end
  | _, _ => []
  end.
Definition iter_env_var_references (s : string) : list EnvVarRef := refs_from (String.length s) 0 s.

(** The loop of [mask_modifier_forms], with the text already written left out. *)
Fixpoint mask_refs (input sentinel : string) (cursor : nat) (l : list EnvVarRef) : string :=
  match l with
  | [] => str_drop cursor input
  | r :: l' =>
      slice input cursor (ref_start r) +:+
      (if braced r && has_modifier r then sentinel +:+ slice input (ref_start r + 2) (ref_end r)
       else slice input (ref_start r) (ref_end r)) +:+
      mask_refs input sentinel (ref_end r) l'
  end.
Definition mask_modifier_forms (input sentinel : string) : string :=
  mask_refs input sentinel 0 (iter_env_var_references input).

Section expand.
(** [shellexpand::env_with_context_no_errors] and the process environment. *)
Context (shellexpand : (string -> option string) -> string -> string).
Context (process_env : gmap string string).

Definition env_context (extra : gmap string string) (name : string) : option string :=
  match extra !! name with Some v => Some v | None => process_env !! name end.

Definition expand_env_vars_with_extra (sentinel input : string) (extra : gmap string string) : string :=
  let expanded := shellexpand (env_context extra) (mask_modifier_forms input sentinel) in
  if str_contains sentinel expanded then str_replace sentinel "${" expanded else expanded.

(** ** Variables nobody sets *)

Definition RUNNER_ALWAYS_SET_ENV : list string :=
  ["CCODE_HOOK_EVENT"; "CCODE_HOOK_NAME"; "CCODE_SESSION_ID"; "CCODE_WORKSPACE_ROOT"; "CLAUDE_PROJECT_DIR"].

Definition blank (c : ascii) : bool := bool_decide (c = " "%char) || bool_decide (c = "009"%char).

(** [is_statement_start] on the text before, reversed. *)
Fixpoint is_statement_start (before : string) : bool :=
  match before with
  | EmptyString => true
  | String c b => if blank c then is_statement_start b
                  else bool_decide (c ∈ [";"; "&"; "|"; nl; "("; "{"]%char)
  end.

Fixpoint skip_while (f : ascii -> bool) (s : string) : string :=
  match s with EmptyString => EmptyString | String c s' => if f c then skip_while f s' else s end.

(** The names after [read], and the rest of the command. *)
Fixpoint read_names (fuel : nat) (s : string) : list string * string :=
  match fuel, s with
  | S f, String c s' =>
      if bool_decide (c ∈ [";"; "&"; "|"; nl; "<"; ">"]%char) then ([], s)
      else if blank c then read_names f s'
      else if bool_decide (c = "-"%char) then read_names f (skip_while (fun x => negb (blank x)) s)
      else if negb (alpha c) then ([], s)
      else let '(name, rest) := span_ident s in
           let '(names, r) := read_names f rest in (name :: names, r)
  | _, _ => ([], s)
  end.

(** The loop from [s], with the text before it reversed. *)
Fixpoint assignments (fuel : nat) (before s : string) : list string :=
  match fuel, s with
  | S f, String c s' =>
      if negb (alpha c) then assignments f (String c before) s'
      else
        let '(name, rest) := span_ident s in
        let before' := String.rev_app name before in
        if starts_with "=" rest && is_statement_start before then name :: assignments f before' rest
        else if bool_decide (name = "read") && is_statement_start before then
          let '(names, rest') := read_names (String.length rest) (skip_while blank rest) in
          names ++ assignments f (String.rev_app (str_take (String.length rest - String.length rest') rest) before') rest'
        else assignments f before' rest
  | _, _ => []
  end.
Definition find_local_shell_assignments (cmd : string) : list string := assignments (String.length cmd) "" cmd.

Definition is_resolved (cmd : string) (extra : gmap string string) (name : string) : bool :=
  bool_decide (name ∈ RUNNER_ALWAYS_SET_ENV) || bool_decide (is_Some (extra !! name)) ||
  bool_decide (is_Some (process_env !! name)) || bool_decide (name ∈ find_local_shell_assignments cmd).

Definition find_unresolved_env_vars (cmd : string) (extra : gmap string string) : list string :=
  sort_dedup (omap (fun r =>
    if bool_decide (ref_name r = "") || has_modifier r then None
    else if is_resolved cmd extra (ref_name r) then None else Some (ref_name r)) (iter_env_var_references cmd)).
End expand.

(** ** Rewriting the references of a text *)

(** The text of a reference. *)
Definition ref_text (name : string) (b : bool) (body : string) : string :=
  if b then "${" +:+ name +:+ body +:+ "}" else "$" +:+ name.

(** Every reference replaced by [g name braced body], the rest kept. *)
Fixpoint map_refs (g : string -> bool -> string -> string) (fuel : nat) (s : string) : string :=
  match fuel, s with
  | S f, String c s' =>
      if negb (bool_decide (c = "$"%char)) then String c (map_refs g f s')
      else
        match s' with
        | EmptyString => s
        | String d s'' =>
            if bool_decide (d = "{"%char) then
              match upto_close (span_ident s'').2 with
              | None => String c (map_refs g f s')
              | Some (body, rest) => g (span_ident s'').1 true body +:+ map_refs g f rest
              end
            else if alpha d then g (span_ident s').1 false "" +:+ map_refs g f (span_ident s').2
            else String c (String d (map_refs g f s''))
        end
  | _, _ => s
  end.

Lemma span_ident_app s : s = (span_ident s).1 +:+ (span_ident s).2.
Proof. induction s as [|c s IH]; [done|]. cbn. destruct (ident_char c); [|done]. cbn. by rewrite str_app_cons, <- IH. Qed.

Lemma upto_close_app s a b : upto_close s = Some (a, b) -> s = a +:+ String "}" b.
Proof.
  revert a. induction s as [|c s IH]; intros a; cbn; [done|]. case_bool_decide as Hc.
  - intros [= <- <-]. by subst.
  - destruct (upto_close s) as [[x y]|]; [|done]. intros [= <- <-]. by rewrite str_app_cons, <- IH.
Qed.

(** Two rewritings that satisfy the same equation agree; keeping every
    reference is the identity. *)
Lemma map_refs_id f s : map_refs ref_text f s = s.
Proof.
  revert s. induction f as [|f IH]; intros s; [by destruct s|]. destruct s as [|c s]; [done|]. cbn [map_refs].
  case_bool_decide as Hc; cbn [negb]; [|by rewrite IH]. subst c. destruct s as [|d s]; [done|].
  case_bool_decide as Hd.
  - subst d. pose proof (span_ident_app s) as Hs. destruct (upto_close _) as [[a b]|] eqn:E; [|by rewrite IH].
    apply upto_close_app in E. rewrite IH. cbn [ref_text]. rewrite Hs at 2. rewrite E.
    by rewrite !str_app_assoc, !str_app_cons, !str_app_nil_l.
  - destruct (alpha d); [|by rewrite IH]. rewrite IH. cbn [ref_text].
    rewrite str_app_assoc, <- (span_ident_app (String d s)). by rewrite str_app_cons, str_app_nil_l.
Qed.

(** ** Masking *)

Definition modified (name body : string) : bool := negb (bool_decide (name = "")) && negb (bool_decide (body = "")).

Definition mask_ref (sentinel name : string) (b : bool) (body : string) : string :=
  if b && modified name body then sentinel +:+ name +:+ body +:+ "}" else ref_text name b body.

Lemma slice_mid a b c : slice (a +:+ b +:+ c) (String.length a) (String.length a + String.length b) = b.
Proof. unfold slice. rewrite str_drop_app. rewrite Nat.add_comm, Nat.add_sub. apply str_take_app. Qed.

Lemma mask_ref_modified sentinel name body :
  modified name body = true -> mask_ref sentinel name true body = sentinel +:+ name +:+ body +:+ "}".
Proof. unfold mask_ref. by intros ->. Qed.
Lemma mask_ref_plain sentinel name b body :
  b && modified name body = false -> mask_ref sentinel name b body = ref_text name b body.
Proof. unfold mask_ref. by intros ->. Qed.

(** A braced reference after [a], as the loop slices it. *)
Lemma masked_slice sentinel a name body r :
  let x := "${" +:+ name +:+ body +:+ "}" in
  (if negb (bool_decide (name = "")) && negb (bool_decide (body = ""))
   then sentinel +:+ slice (a +:+ x +:+ r) (String.length a + 2) (String.length a + String.length x)
   else slice (a +:+ x +:+ r) (String.length a) (String.length a + String.length x)) = mask_ref sentinel name true body.
Proof.
  intros x. unfold mask_ref, modified. cbn [andb]. destruct (negb _ && negb _); [|apply slice_mid].
  f_equal. unfold x. rewrite (str_app_assoc "${"), <- (str_app_assoc a), (length_str_app "${").
  rewrite Nat.add_assoc, <- (length_str_app a "${").
  replace (String.length a + 2) with (String.length (a +:+ "${")) by by rewrite length_str_app. apply slice_mid.
Qed.

(** The loop over the references computes the rewriting: [lit] is the text
    between the cursor and the scanner. *)
Lemma mask_refs_from f pre lit s sentinel :
  mask_refs (pre +:+ lit +:+ s) sentinel (String.length pre)
    (refs_from f (String.length pre + String.length lit) s) = lit +:+ map_refs (mask_ref sentinel) f s.
Proof.
  revert pre lit s. induction f as [|f IH]; intros pre lit s; [destruct s; apply str_drop_app|].
  destruct s as [|c s]; [apply str_drop_app|]. cbn [refs_from map_refs].
  assert (forall x y n, n = String.length pre + String.length lit + String.length x ->
            mask_refs (pre +:+ lit +:+ x +:+ y) sentinel (String.length pre) (refs_from f n y) =
            lit +:+ x +:+ map_refs (mask_ref sentinel) f y) as Hlit.
  { intros x y n ->. specialize (IH pre (lit +:+ x) y).
    rewrite length_str_app, Nat.add_assoc, !str_app_assoc in IH. done. }
  assert (forall x y n, n = String.length pre + String.length lit + String.length x ->
            mask_refs (pre +:+ lit +:+ x +:+ y) sentinel n (refs_from f n y) = map_refs (mask_ref sentinel) f y) as Hrest.
  { intros x y n ->. specialize (IH (pre +:+ lit +:+ x) "" y). cbn [String.length] in IH.
    rewrite !length_str_app, Nat.add_0_r, !str_app_nil_l, !str_app_assoc in IH.
    by rewrite <- Nat.add_assoc. }
  case_bool_decide as Hc; cbn [negb].
  2: { apply (Hlit (str1 c) s). cbn. lia. }
  subst c. destruct s as [|d s].
  { apply str_drop_app. }
  case_bool_decide as Hd.
  - subst d. pose proof (span_ident_app s) as Hs. destruct (span_ident s) as [name rest]. cbn [fst snd] in *.
    destruct (upto_close rest) as [[body r]|] eqn:E.
    2: { apply (Hlit "$" (String "{" s)). cbn. lia. }
    apply upto_close_app in E. subst rest s. cbn [mask_refs ref_start ref_end braced has_modifier].
    set (x := "${" +:+ name +:+ body +:+ "}").
    assert (String "$" (String "{" (name +:+ body +:+ String "}" r)) = x +:+ r) as ->.
    { unfold x. by rewrite !str_app_assoc, !str_app_cons, !str_app_nil_l. }
    assert (String.length pre + String.length lit + 2 + String.length name + String.length body + 1 =
            String.length pre + String.length lit + String.length x) as ->.
    { unfold x. rewrite !length_str_app. cbn. lia. }
    rewrite slice_mid, Hrest by done. f_equal. f_equal. rewrite <- length_str_app, <- (str_app_assoc pre lit).
    apply masked_slice.
  - destruct (alpha d) eqn:Ea.
    + pose proof (span_ident_app (String d s)) as Hs. destruct (span_ident (String d s)) as [name rest]. cbn [fst snd] in *.
      rewrite Hs. cbn [mask_refs ref_start ref_end braced has_modifier]. set (x := "$" +:+ name).
      assert (String "$" (name +:+ rest) = x +:+ rest) as -> by (unfold x; by rewrite str_app_cons, str_app_nil_l).
      assert (String.length pre + String.length lit + 1 + String.length name =
              String.length pre + String.length lit + String.length x) as -> by (unfold x; rewrite length_str_app; cbn; lia).
      rewrite slice_mid, Hrest by done. f_equal. f_equal. cbn [andb]. rewrite <- length_str_app, <- (str_app_assoc pre lit).
      apply slice_mid.
    + apply (Hlit (String "$" (str1 d)) s). cbn. lia.
Qed.

Lemma mask_modifier_forms_spec input sentinel :
  mask_modifier_forms input sentinel = map_refs (mask_ref sentinel) (String.length input) input.
Proof. apply (mask_refs_from (String.length input) "" "" input). Qed.

(** ** Unmasking *)

(** Text without the first byte of the sentinel passes a replacement. *)
Lemma replace_skips a sen to x y :
  has_char a x = false -> str_replace (String a sen) to (x +:+ y) = x +:+ str_replace (String a sen) to y.
Proof.
  induction x as [|c x IH]; [done|]. cbn [has_char]. intros [Hc Hx]%orb_false_iff. rewrite !str_app_cons.
  rewrite str_replace_other, IH by done || (cbn; zbool; by rewrite bool_decide_false by congruence). done.
Qed.

Lemma has_char_span c s : has_char c s = false ->
  has_char c (span_ident s).1 = false /\ has_char c (span_ident s).2 = false.
Proof. intros H. rewrite (span_ident_app s), has_char_app in H. by apply orb_false_iff in H. Qed.

Lemma has_char_upto c s a b : upto_close s = Some (a, b) -> has_char c s = false ->
  has_char c a = false /\ has_char c (a +:+ "}") = false /\ has_char c b = false.
Proof.
  intros ->%upto_close_app. rewrite !has_char_app. cbn [has_char].
  by intros [-> [-> ->]%orb_false_iff]%orb_false_iff.
Qed.

Lemma unmask a sen f s :
  has_char a s = false -> a <> "$"%char ->
  str_replace (String a sen) "${" (map_refs (mask_ref (String a sen)) f s) = s.
Proof.
  intros Hs Ha. revert s Hs.
  assert (forall s, has_char a s = false -> str_replace (String a sen) "${" s = s) as Hid.
  { intros s Hs. rewrite <- (str_app_nil_r s) at 1. rewrite replace_skips by done. apply str_app_nil_r. }
  induction f as [|f IH]; intros s Hs; [destruct s; by apply Hid|]. destruct s as [|c s]; [done|].
  rewrite <- (map_refs_id (S f) (String c s)) at 2. cbn [map_refs]. rewrite !map_refs_id. cbn [has_char] in Hs.
  apply orb_false_iff in Hs as [Hc Hs].
  assert (forall y, str_replace (String a sen) "${" (String c y) = String c (str_replace (String a sen) "${" y)) as Hstep.
  { intros y. apply (replace_skips a sen "${" (str1 c) y). cbn. by rewrite Hc. }
  destruct (bool_decide (c = "$"%char)) eqn:Ec; cbn [negb]; [|by rewrite Hstep, IH]. apply bool_decide_eq_true in Ec as ->. destruct s as [|d s]; [by apply Hid; cbn; rewrite Hc|].
  assert (has_char a s = false) as Hs' by (cbn in Hs; by apply orb_false_iff in Hs as [_ ?]).
  destruct (bool_decide (d = "{"%char)) eqn:Ed.
  - destruct (has_char_span a s Hs') as [H1 H2]. destruct (upto_close _) as [[body r]|] eqn:E; [|by rewrite Hstep, IH].
    destruct (has_char_upto a _ _ _ E H2) as (Hb & Hb' & Hr). rewrite map_refs_id.
    assert (has_char a ((span_ident s).1 +:+ body +:+ "}") = false) as Ht by by rewrite has_char_app, H1, Hb'.
    apply bool_decide_eq_true in Ed as ->. cbn [has_char] in Hs. apply orb_false_iff in Hs as [Hd _].
    assert (has_char a (ref_text (span_ident s).1 true body) = false) as Hx
      by (cbn [ref_text]; rewrite has_char_app, Ht; cbn [has_char]; by rewrite Hc, Hd).
    destruct (modified (span_ident s).1 body) eqn:Em.
    + rewrite mask_ref_modified, str_app_assoc, replace_match, replace_skips, IH by done. cbn [ref_text].
      by rewrite (str_app_assoc "${").
    + by rewrite mask_ref_plain, replace_skips, IH.
  - destruct (alpha d).
    2: { assert (has_char a (str1 d) = false) as Hd by (cbn in Hs |- *; by apply orb_false_iff in Hs as [-> _]).
      rewrite Hstep. f_equal. etrans; [apply (replace_skips a sen "${" (str1 d)), Hd|]. by rewrite IH, map_refs_id. }
    destruct (has_char_span a _ Hs) as [H1 H2]. rewrite ?map_refs_id, mask_ref_plain by done.
    rewrite replace_skips, IH by (done || cbn [ref_text]; rewrite has_char_app, H1; cbn [has_char]; by rewrite Hc). done.
Qed.

(** Masking is undone exactly: whatever references the text holds, putting
    the sentinel in front of the forms with a modifier and replacing it back
    gives the text, when the sentinel's first byte does not occur in it. *)
Theorem mask_roundtrip a sen input :
  has_char a input = false -> a <> "$"%char ->
  str_replace (String a sen) "${" (mask_modifier_forms input (String a sen)) = input.
Proof. intros. rewrite mask_modifier_forms_spec. by apply unmask. Qed.

(** ** A simple [shellexpand] to evaluate with *)

(** Plain references are replaced when the context knows them. *)
Definition plain_expand (ctx : string -> option string) (s : string) : string :=
  map_refs (fun name b body => if bool_decide (body = "") then default (ref_text name b body) (ctx name)
                               else ref_text name b body) (String.length s) s.

Lemma mask_roundtrip_witness :
  str_replace (String "x" "1") "${" (mask_modifier_forms "a ${A:-b} $B ${C}" (String "x" "1")) = "a ${A:-b} $B ${C}" /\
  mask_modifier_forms "a ${A:-b} $B ${C}" "x1" = "a x1A:-b} $B ${C}".
Proof. split; [by apply (mask_roundtrip "x" "1")|by vm_compute]. Defined.

(** A form with a modifier is kept, but a reference inside it is not: the
    default of the form is expanded when the file is loaded. *)
Example nested_reference_expanded :
  expand_env_vars_with_extra plain_expand ∅ "x1" "${A:-$B}" {[ "B" := "/home" ]} = "${A:-/home}".
Proof. by vm_compute. Qed.

(** A value that itself holds a reference is expanded by the second pass. *)
Example second_pass_differs :
  let extra : gmap string string := {[ "A" := "$B"; "B" := "c" ]} in
  let once := expand_env_vars_with_extra plain_expand ∅ "x1" "$A" extra in
  once = "$B" /\ expand_env_vars_with_extra plain_expand ∅ "x1" once extra = "c".
Proof. by vm_compute. Qed.

(** The variables reported: the names referred to plainly that nothing sets, in
    order and once each. *)
Lemma unresolved_exact process_env cmd extra :
  let l := find_unresolved_env_vars process_env cmd extra in
  StronglySorted str_lt l /\
  forall x, x ∈ l <-> x <> "" /\ is_resolved process_env cmd extra x = false /\
    exists r, r ∈ iter_env_var_references cmd /\ ref_name r = x /\ has_modifier r = false.
Proof.
  intros l. split; [apply sort_dedup_sorted|]. intros x. unfold l, find_unresolved_env_vars.
  rewrite elem_of_sort_dedup, list_elem_of_omap. split.
  - intros (r & Hr & E). destruct (bool_decide (ref_name r = "")) eqn:E1; [done|]. destruct (has_modifier r) eqn:E2; [done|].
    cbn [orb] in E. destruct (is_resolved _ _ _ _) eqn:E3; [done|]. injection E as <-. zbool. naive_solver.
  - intros (Hx & Hres & r & Hr & <- & Hm). exists r. split; [done|].
    rewrite bool_decide_false, Hm by done. cbn [orb]. by rewrite Hres.
Qed.
