(* ===== verification/HookEvents.v ===== *)
(** * Hook events and matchers

    [ccode-hooks], event.rs and matcher.rs, with the table of tool names of
    [ccode-tools] (types/claude_alias.rs): the events with their spellings and
    traits, the payloads and the value a matcher is tested against, clipping and
    truncation of payload text, and the compiled matchers.  Compiling a regular
    expression ([regex_new]) and the text of a JSON value ([json_text]) are
    arguments. *)

From S2P Require Import Prelude RustStr F64 Json TextLines TextFind.

(** ** Events *)

Inductive HookEventName :=
| SessionStart | SessionEnd | Stop | StopFailure
| PreToolUse | PostToolUse | PostToolUseFailure | PermissionDenied
| UserPromptSubmit | Notification
| SubagentStart | SubagentStop | SubagentEnd
| PreCompact | PostCompact.

#[export] Instance event_eq_dec : EqDecision HookEventName.
Proof. solve_decision. Defined.

Definition event_index (e : HookEventName) : nat :=
  match e with
  | SessionStart => 0 | SessionEnd => 1 | Stop => 2 | StopFailure => 3 | PreToolUse => 4 | PostToolUse => 5
  | PostToolUseFailure => 6 | PermissionDenied => 7 | UserPromptSubmit => 8 | Notification => 9
  | SubagentStart => 10 | SubagentStop => 11 | SubagentEnd => 12 | PreCompact => 13 | PostCompact => 14
  end.
Definition all_event_names : list HookEventName :=
  [SessionStart; SessionEnd; Stop; StopFailure; PreToolUse; PostToolUse; PostToolUseFailure; PermissionDenied;
   UserPromptSubmit; Notification; SubagentStart; SubagentStop; SubagentEnd; PreCompact; PostCompact].
#[export] Program Instance event_countable : Countable HookEventName :=
  inj_countable event_index (fun n => all_event_names !! n) _.
Next Obligation. by intros []. Qed.

(** The [Deserialize] implementation, on the text. *)
Definition event_from_str (s : string) : option HookEventName :=
  let one_of l := bool_decide (s ∈ l) in
  if one_of ["SessionStart"; "session_start"; "sessionStart"] then Some SessionStart
  else if one_of ["PreToolUse"; "pre_tool_use"; "preToolUse"; "beforeShellExecution"; "beforeMCPExecution"; "beforeReadFile"]
  then Some PreToolUse
  else if one_of ["PostToolUse"; "post_tool_use"; "postToolUse"; "afterShellExecution"; "afterMCPExecution"; "afterFileEdit";
              "afterAgentResponse"; "afterAgentThought"] then Some PostToolUse
  else if one_of ["PostToolUseFailure"; "post_tool_use_failure"; "postToolUseFailure"] then Some PostToolUseFailure
  else if one_of ["SessionEnd"; "session_end"; "sessionEnd"] then Some SessionEnd
  else if one_of ["Stop"; "stop"] then Some Stop
  else if one_of ["StopFailure"; "stop_failure"; "stopFailure"] then Some StopFailure
  else if one_of ["Notification"; "notification"] then Some Notification
  else if one_of ["UserPromptSubmit"; "user_prompt_submit"; "beforeSubmitPrompt"] then Some UserPromptSubmit
  else if one_of ["PermissionDenied"; "permission_denied"; "permissionDenied"] then Some PermissionDenied
  else if one_of ["SubagentStart"; "subagent_start"; "subagentStart"] then Some SubagentStart
  else if one_of ["SubagentStop"; "subagent_stop"; "subagentStop"] then Some SubagentStop
  else if one_of ["SubagentEnd"; "subagent_end"; "subagentEnd"] then Some SubagentEnd
  else if one_of ["PreCompact"; "pre_compact"; "preCompact"] then Some PreCompact
  else if one_of ["PostCompact"; "post_compact"; "postCompact"] then Some PostCompact
  else None.

(** The [Display] implementation. *)
Definition event_display (e : HookEventName) : string :=
  match e with
  | SessionStart => "session_start" | PreToolUse => "pre_tool_use" | PostToolUse => "post_tool_use"
  | PostToolUseFailure => "post_tool_use_failure" | SessionEnd => "session_end" | Stop => "stop"
  | StopFailure => "stop_failure" | Notification => "notification" | UserPromptSubmit => "user_prompt_submit"
  | PermissionDenied => "permission_denied" | SubagentStart => "subagent_start"
  | SubagentStop | SubagentEnd => "subagent_stop" | PreCompact => "pre_compact" | PostCompact => "post_compact"
  end.

Inductive GateKind := Observe | ToolGate | StopGate.
Inductive MatcherPolicy := Ignored | Tested.
Record EventTraits := mkTraits { gate : GateKind; matcher_policy : MatcherPolicy; hub_forward : bool }.

#[export] Instance gate_eq_dec : EqDecision GateKind.
Proof. solve_decision. Defined.
#[export] Instance policy_eq_dec : EqDecision MatcherPolicy.
Proof. solve_decision. Defined.

Definition canonical (e : HookEventName) : HookEventName :=
  match e with SubagentEnd => SubagentStop | other => other end.

(** [None] is the arm that cannot be reached. *)
Definition traits_of (e : HookEventName) : option EventTraits :=
  match canonical e with
  | Stop => Some (mkTraits StopGate Ignored true)
  | PreToolUse => Some (mkTraits ToolGate Tested false)
  | UserPromptSubmit => Some (mkTraits Observe Ignored true)
  | SubagentStop => Some (mkTraits StopGate Tested true)
  | SubagentEnd => None
  | _ => Some (mkTraits Observe Tested true)
  end.
Definition traits (e : HookEventName) : EventTraits := default (mkTraits Observe Tested true) (traits_of e).

Definition hub_hook_kind (e : HookEventName) : option string :=
  if hub_forward (traits e) then Some ("hook." +:+ event_display e) else None.

(** The unreachable arm is unreachable; a printed name reads back as the
    canonical event. *)
Lemma traits_total e : is_Some (traits_of e).
Proof. destruct e; by eexists. Qed.
Lemma event_display_canonical e : event_from_str (event_display e) = Some (canonical e).
Proof. destruct e; by vm_compute. Qed.

(** ** Payloads *)

Inductive StopFailureKind := RateLimit | AuthenticationFailed | InvalidRequest | ServerError | MaxOutputTokens | Unknown.

Definition failure_str (k : StopFailureKind) : string :=
  match k with
  | RateLimit => "rate_limit" | AuthenticationFailed => "authentication_failed" | InvalidRequest => "invalid_request"
  | ServerError => "server_error" | MaxOutputTokens => "max_output_tokens" | Unknown => "unknown"
  end.

(** The fields that are only copied to the hook's input are left out. *)
Inductive HookPayload :=
| PSessionStart (session_source : string)
| PSessionEnd (reason : string)
| PStop (reason : string) (stop_hook_active : bool)
| PStopFailure (error : StopFailureKind)
| PPreToolUse (tool_name : string) (tool_input : Value)
| PPostToolUse (tool_name : string) (tool_input tool_result : Value)
| PPostToolUseFailure (tool_name : string) (tool_input : Value) (error : string)
| PPermissionDenied (tool_name : string) (tool_input : Value)
| PUserPromptSubmit (prompt : option string)
| PNotification (notification_type : string)
| PSubagentStart (subagent_type : string)
| PSubagentStop (subagent_type : string)
| PPreCompact (compact_source : string)
| PPostCompact (compact_source : string).

Definition non_empty (s : string) : option string := if bool_decide (s = "") then None else Some s.

Definition match_value (p : HookPayload) : option string :=
  match p with
  | PPreToolUse n _ | PPostToolUse n _ _ | PPostToolUseFailure n _ _ | PPermissionDenied n _ => non_empty n
  | PNotification t => non_empty t
  | PSubagentStart t | PSubagentStop t => non_empty t
  | PSessionStart s | PPreCompact s | PPostCompact s => non_empty s
  | PSessionEnd r => non_empty r
  | PStopFailure k => Some (failure_str k)
  | PStop _ _ | PUserPromptSubmit _ => None
  end.

Definition MAX_STOP_ENTRY_TEXT_CHARS : nat := 1000.

Definition clip_text (text : string) (max : nat) : string :=
  let char_count := chars_count text in
  if char_count <=? max then text
  else chars_take max text +:+ "… [+" +:+ show (char_count - max) +:+ " chars]".
Definition clip_stop_entry_text (text : string) : string := clip_text text MAX_STOP_ENTRY_TEXT_CHARS.

(** The limit is an argument; the source's is 131072. *)
Definition MAX_PAYLOAD_SIZE : N := 131072.

Definition truncate_payload_to (limit : nat) (json_text : Value -> string) (v : Value) : Value * bool :=
  let serialized := json_text v in
  if String.length serialized <=? limit then (v, false)
  else (Str (str_take (boundary_below serialized limit) serialized +:+ " [truncated]"), true).
Definition truncate_payload (json_text : Value -> string) (v : Value) : Value * bool :=
  truncate_payload_to (N.to_nat MAX_PAYLOAD_SIZE) json_text v.

(** ** Tool names *)

(** [CLAUDE_TOOLS]: the external name and the names of this program. *)
Definition claude_tools : list (string * list string) :=
  [ ("Read", ["read_file"; "hashline_read"]); ("Write", ["write"; "search_replace"; "hashline_edit"]);
    ("Edit", ["search_replace"; "hashline_edit"]); ("MultiEdit", ["search_replace"; "hashline_edit"]);
    ("NotebookEdit", ["search_replace"; "hashline_edit"]); ("Bash", ["run_terminal_command"]); ("PowerShell", []);
    ("Grep", ["grep"; "hashline_grep"]); ("Glob", ["list_dir"]); ("LS", []); ("LSP", ["lsp"]);
    ("WebSearch", ["web_search"]); ("WebFetch", ["web_fetch"]); ("DeployApp", []); ("TodoWrite", ["todo_write"]);
    ("AskUserQuestion", ["ask_user_question"]);
    ("TaskOutput", ["get_command_or_subagent_output"; "get_terminal_command_output"]);
    ("BashOutput", ["get_command_or_subagent_output"; "get_terminal_command_output"]);
    ("BashOutputTool", ["get_command_or_subagent_output"; "get_terminal_command_output"]);
    ("AgentOutputTool", ["get_command_or_subagent_output"; "get_terminal_command_output"]);
    ("TaskStop", ["kill_command_or_subagent"; "kill_terminal_command"]);
    ("KillShell", ["kill_command_or_subagent"; "kill_terminal_command"]);
    ("KillBash", ["kill_command_or_subagent"; "kill_terminal_command"]);
    ("Skill", ["skill"]); ("ToolSearch", ["search_tool"]); ("Agent", ["spawn_subagent"]); ("Task", ["spawn_subagent"]);
    ("EnterPlanMode", ["enter_plan_mode"]); ("ExitPlanMode", ["exit_plan_mode"]); ("CronCreate", ["scheduler_create"]);
    ("CronDelete", ["scheduler_delete"]); ("CronList", ["scheduler_list"]);
    ("ListMcpResourcesTool", ["ListMcpResources"]) ].

Definition ccode_names_for (claude : string) : list string := default [] (assoc claude claude_tools).
Definition claude_names_for (name : string) : list string :=
  fst <$> filter (fun t => name ∈ t.2) claude_tools.

(** ** Matchers *)

Inductive MatcherKind := MAll | MNever | MExact (names : list string) | MRegex (re : string -> bool).

Definition simple_char (c : ascii) : bool :=
  byte_in 48 57 c || byte_in 65 90 c || byte_in 97 122 c || bool_decide (c = "_"%char) || bool_decide (c = "|"%char).
Fixpoint all_simple (s : string) : bool :=
  match s with EmptyString => true | String c s' => simple_char c && all_simple s' end.
Definition is_simple_form (p : string) : bool := negb (bool_decide (p = "")) && all_simple p.

Definition push_name (names : list string) (n : string) : list string :=
  if bool_decide (n = "") || bool_decide (n ∈ names) then names else names ++ [n].
Definition exact_names (p : string) : list string :=
  foldl (fun names term => foldl push_name (push_name names term) (ccode_names_for term)) [] (split_char "|" p).

Section matcher.
Context (regex_new : string -> option (string -> bool)).

Definition matcher_new (p : string) : option MatcherKind :=
  if bool_decide (p = "") || bool_decide (p = "*") then Some MAll
  else if is_simple_form p then Some (MExact (exact_names p))
  else MRegex <$> regex_new p.

Definition matcher_never : MatcherKind := MNever.

Definition is_match (m : MatcherKind) (tool : string) : bool :=
  match m with
  | MAll => true
  | MNever => false
  | MExact names => existsb (fun n => bool_decide (n = tool)) names
  | MRegex re => re tool || existsb re (claude_names_for tool)
  end.

Definition matcher_allows (m : option MatcherKind) (value : option string) : bool :=
  match m, value with Some m, Some v => is_match m v | _, _ => true end.

(** A list of names matches exactly its terms and their aliases. *)
Lemma elem_push_name names n x : x ∈ push_name names n <-> x ∈ names \/ (x = n /\ n <> "").
Proof.
  unfold push_name. destruct (bool_decide (n = "")) eqn:E1; zbool; cbn; [naive_solver|].
  case_bool_decide; [naive_solver|]. rewrite elem_of_app, list_elem_of_singleton. naive_solver.
Qed.

Lemma elem_push_names l names x : x ∈ foldl push_name names l <-> x ∈ names \/ (x ∈ l /\ x <> "").
Proof.
  revert names. induction l as [|n l IH]; intros names; cbn [foldl]; [set_solver|].
  rewrite IH, elem_push_name, elem_of_cons. naive_solver.
Qed.

Lemma exact_names_spec p x :
  x ∈ exact_names p <->
  x <> "" /\ exists term, term ∈ split_char "|" p /\ (x = term \/ x ∈ ccode_names_for term).
Proof.
  unfold exact_names. generalize (split_char "|" p). intros l.
  assert (forall names, x ∈ foldl (fun names term => foldl push_name (push_name names term) (ccode_names_for term)) names l
    <-> x ∈ names \/ x <> "" /\ exists term, term ∈ l /\ (x = term \/ x ∈ ccode_names_for term)) as Hg.
  { induction l as [|t l IH]; intros names; cbn [foldl]; [set_solver|].
    rewrite IH, elem_push_names, elem_push_name. setoid_rewrite elem_of_cons. naive_solver. }
  rewrite Hg. set_solver.
Qed.

(** A simple pattern matches a tool exactly when one of its terms is the
    tool's name or stands for it in the table of names: it is never a regular
    expression, and no other tool matches. *)
Theorem simple_matcher_exact p tool :
  is_simple_form p = true ->
  exists m, matcher_new p = Some m /\
  (is_match m tool = true <->
   tool <> "" /\ exists term, term ∈ split_char "|" p /\ (tool = term \/ tool ∈ ccode_names_for term)).
Proof.
  intros Hs. unfold matcher_new. rewrite Hs.
  assert (bool_decide (p = "") || bool_decide (p = "*") = false) as ->.
  { unfold is_simple_form in Hs. destruct (bool_decide (p = "")); [done|]. cbn.
    apply bool_decide_eq_false. intros ->. done. }
  eexists. split; [done|]. cbn [is_match]. rewrite existsb_exists, <- exact_names_spec. split.
  - intros (n & Hn & <-%bool_decide_eq_true). by apply list_elem_of_In.
  - intros H. exists tool. split; [by apply list_elem_of_In|by apply bool_decide_eq_true].
Qed.
End matcher.

Lemma simple_matcher_exact_witness :
  exists m, matcher_new (fun _ => None) "Bash|Edit" = Some m /\ is_match m "run_terminal_command" = true /\
            is_match m "run_terminal_commands" = false.
Proof.
  destruct (simple_matcher_exact (fun _ => None) "Bash|Edit" "run_terminal_command" eq_refl) as (m & Hm & Ht).
  exists m. split; [done|]. split.
  - apply Ht. split; [done|]. exists "Bash". split; [apply (bool_decide_unpack _); by vm_compute|].
    right. apply (bool_decide_unpack _). by vm_compute.
  - injection Hm as <-. by vm_compute.
Defined.
