(* ===== verification/HookConfig.v ===== *)
(** * Hook files and the hook registry

    [ccode-hooks], config.rs, discovery.rs and trust.rs: reading hook
    definitions from JSON, the registry with its deduplication across sources,
    and the file of disabled hooks.  Parsing JSON text, compiling regular
    expressions, expanding environment references and listing a directory are
    arguments; files are those of [Fs]. *)

From S2P Require Import Prelude RustStr F64 Json TextLines TextFind StdPath Fs EnvExpand HookEvents.

Inductive HandlerType := Command | Http.

Record HookSpec := mkSpec {
  spec_name : string;
  event : HookEventName;
  handler_type : HandlerType;
  configured_matcher : option string;
  matcher : option MatcherKind;
  enabled : bool;
  command : option string;
  command_raw : option string;
  url : option string;
  url_raw : option string;
  timeout_ms : Z;
  source_dir : path;
  extra_env : gmap string string
}.

Inductive HookError :=
| ReadFile (file : path) (error : IoError)
| ParseFile (file : path) (detail : string)
| InvalidMatcher (name : string) (file : path) (error : string)
| InvalidConfig (name : string) (file : path) (detail : string)
| UnsupportedHandlerType (name : string) (file : path) (handler : string).

Record RawHandler := mkHandler {
  raw_type : string; raw_command : option string; raw_url : option string; raw_timeout : option Z;
  raw_env : gmap string string
}.
Record MatcherGroup := mkGroup { group_matcher : option string; group_hooks : list RawHandler }.

(** ** Decoding, as derived by serde: a record is an object, or an array of its
    fields in order *)

(** Between [low] and [high] elements when it is an array. *)
Definition is_struct (low high : nat) (v : Value) : bool :=
  match v with Object _ => true | Array l => (low <=? length l) && (length l <=? high) | _ => false end.
Definition field (i : nat) (name : string) (v : Value) : option Value :=
  match v with Object m => assoc name m | Array l => l !! i | _ => None end.

(** [Option<T>]: a missing or null field is [None], a wrong one an error. *)
Definition opt {A} (f : Value -> option A) (o : option Value) : option (option A) :=
  match o with None | Some Null => Some None | Some v => match f v with Some a => Some (Some a) | None => None end end.

Definition string_map (v : Value) : option (gmap string string) :=
  match v with
  | Object m => list_to_map <$> mapM (fun kv => match kv.2 with Str s => Some (kv.1, s) | _ => None end) m
  | _ => None
  end.

Definition decode_handler (v : Value) : option RawHandler :=
  if is_struct 4 5 v then
    t ← field 0 "type" v ≫= as_str_opt;
    c ← opt as_str_opt (field 1 "command" v);
    u ← opt as_str_opt (field 2 "url" v);
    timeout ← opt as_u64 (field 3 "timeout" v);
    env ← opt string_map (field 4 "env" v);
    Some (mkHandler t c u timeout (default ∅ env))
  else None.

Definition decode_list {A} (f : Value -> option A) (v : Value) : option (list A) :=
  match v with Array l => mapM f l | _ => None end.

Definition decode_group (v : Value) : option MatcherGroup :=
  if is_struct 2 2 v then
    m ← opt as_str_opt (field 0 "matcher" v);
    hs ← field 1 "hooks" v ≫= decode_list decode_handler;
    Some (mkGroup m hs)
  else None.

Definition HooksMap : Type := gmap HookEventName (list MatcherGroup) * list string.

Definition DEFAULT_TIMEOUT_MS : Z := 5000.
Definition DEFAULT_STOP_GATE_TIMEOUT_MS : Z := 600000.
Definition default_timeout_ms (e : HookEventName) : Z :=
  if bool_decide (gate (traits e) = StopGate) then DEFAULT_STOP_GATE_TIMEOUT_MS else DEFAULT_TIMEOUT_MS.

Definition strip_reserved_env_keys (env : gmap string string) : gmap string string :=
  foldl (fun m k => delete k m) env RUNNER_ALWAYS_SET_ENV.

(** Two lists are collected at once. *)
Definition both {A B} (x y : list A * list B) : list A * list B := (x.1 ++ y.1, x.2 ++ y.2).
Definition collect {X A B} (f : nat -> X -> list A * list B) (l : list X) : list A * list B :=
  foldr both ([], []) (imap f l).

Section parse.
Context `{!HashIter string} `{!HashIter HookEventName}.
Context (parse_json : string -> result string Value) (type_error : Value -> string).
Context (regex_new : string -> option (string -> bool)) (regex_error : string -> string).
Context (expand : string -> gmap string string -> string).

Definition add_groups (acc : result string HooksMap) (kv : string * Value) : result string HooksMap :=
  match acc with
  | Err e => Err e
  | Ok (events, skipped) =>
      match event_from_str kv.1 with
      | None => Ok (events, skipped ++ [kv.1])
      | Some e =>
          match decode_list decode_group kv.2 with
          | None => Err ("invalid matcher groups for event '" +:+ kv.1 +:+ "': " +:+ type_error kv.2)
          | Some groups => Ok (<[e := default [] (events !! e) ++ groups]> events, skipped)
          end
      end
  end.

Definition hooks_map_from_value (v : Value) : result string HooksMap :=
  match v with
  | Object m => foldl add_groups (Ok (∅, [])) (hiter (list_to_map m : gmap string Value))
  | _ => Err ("invalid hooks structure: " +:+ type_error v)
  end.

(** The command and the URL of a handler, with their sources. *)
Definition handler_target (t : HandlerType) (h : RawHandler) (env : gmap string string)
    : result string (option string * option string * option string * option string) :=
  match t with
  | Command => match raw_command h with
               | Some c => Ok (Some (expand c env), Some c, None, None)
               | None => Err "command handler requires a 'command' field"
               end
  | Http => match raw_url h with
            | Some u => Ok (None, None, Some (expand u env), Some u)
            | None => Err "http handler requires a 'url' field"
            end
  end.

Definition parse_handler (file : path) (name : string) (e : HookEventName) (pattern : option string)
    (m : option MatcherKind) (h : RawHandler) : list HookSpec * list HookError :=
  let timeout := match raw_timeout h with Some secs => u64_mul secs 1000 | None => default_timeout_ms e end in
  let env := strip_reserved_env_keys (raw_env h) in
  let t := if bool_decide (raw_type h = "command") then Some Command
           else if bool_decide (raw_type h = "http") then Some Http else None in
  match t with
  | None => ([], [UnsupportedHandlerType name file (raw_type h)])
  | Some t =>
      match handler_target t h env with
      | Err detail => ([], [InvalidConfig name file detail])
      | Ok (c, c_raw, u, u_raw) =>
          ([mkSpec name e t pattern m true c c_raw u u_raw timeout (default (components ".") (parent file)) env], [])
      end
  end.

Definition parse_group (file : path) (stem : string) (e : HookEventName) (i : nat) (g : MatcherGroup)
    : list HookSpec * list HookError :=
  let pattern := match group_matcher g with Some s => non_empty s | None => None end in
  let prefix := stem +:+ ":" +:+ event_display e +:+ "[" +:+ show i +:+ "]" in
  let handlers m :=
    collect (fun j h => parse_handler file (prefix +:+ ".hooks[" +:+ show j +:+ "]") e pattern m h) (group_hooks g) in
  match pattern with
  | Some p =>
      if bool_decide (matcher_policy (traits e) = Ignored) then handlers None
      else match matcher_new regex_new p with
           | Some m => handlers (Some m)
           | None => ([], [InvalidMatcher prefix file (regex_error p)])
           end
  | None => handlers None
  end.

Definition parse_hook_file (content : string) (file : path) : list HookSpec * list HookError :=
  match parse_json content with
  | Err e => ([], [ParseFile file e])
  | Ok top =>
      match vget top "hooks" with
      | None => ([], [])
      | Some v =>
          match hooks_map_from_value v with
          | Err detail => ([], [ParseFile file detail])
          | Ok (events, _) =>
              let stem := match file_name file with Some n => (stem_ext n).1 | None => "unknown" end in
              collect (fun _ eg => collect (fun i g => parse_group file stem eg.1 i g) eg.2) (hiter events)
          end
      end
  end.

(** ** Sources *)

Inductive HookSource := SettingsFile (file : path) | Directory (dir : path).

Definition is_direct_hook_json_name (name : string) : bool :=
  ends_with ".json" name && (5 <? String.length name) && negb (starts_with "." name) &&
  negb (ends_with "~" name || ends_with ".swp" name || ends_with ".swo" name).

Context (w : Faults) (d : Disk).
(** [read_dir]: each entry may fail on its own; [is_file]. *)
Context (read_dir : path -> result IoError (list (result IoError path))) (is_file : path -> bool).

Definition load_hook_file (file : path) : list HookSpec * list HookError :=
  match fs_read_text w d file with
  | Ok content => parse_hook_file content file
  | Err e => ([], [ReadFile file e])
  end.

Definition load_hooks_from_settings_file (file : path) : list HookSpec * list HookError :=
  match fs_read_text w d file with
  | Err NotFound => ([], [])
  | _ => load_hook_file file
  end.

Definition load_hooks_from_directory (dir : path) : list HookSpec * list HookError :=
  match read_dir dir with
  | Err NotFound => ([], [])
  | Err e => ([], [ReadFile dir e])
  | Ok entries =>
      let errors := omap (fun x => match x with Err e => Some (ReadFile dir e) | Ok _ => None end) entries in
      let files := omap (fun x => match x with
        | Ok p => match file_name p with
                  | Some n => if is_direct_hook_json_name n && is_file p then Some p else None
                  | None => None
                  end
        | Err _ => None end) entries in
      both ([], errors) (collect (fun _ f => load_hook_file f) (sort_by_key display files))
  end.

Definition load_from_source (s : HookSource) : list HookSpec * list HookError :=
  match s with
  | SettingsFile f => load_hooks_from_settings_file f
  | Directory dir => load_hooks_from_directory dir
  end.
End parse.

(** ** The registry *)

Abbreviation HookRegistry := (gmap HookEventName (list HookSpec)).

Definition rename_spec (prefix : string) (s : HookSpec) : HookSpec :=
  mkSpec (prefix +:+ spec_name s) (event s) (handler_type s) (configured_matcher s) (matcher s) (enabled s)
    (command s) (command_raw s) (url s) (url_raw s) (timeout_ms s) (source_dir s) (extra_env s).
Definition set_matcher (m : option MatcherKind) (s : HookSpec) : HookSpec :=
  mkSpec (spec_name s) (event s) (handler_type s) (configured_matcher s) m (enabled s)
    (command s) (command_raw s) (url s) (url_raw s) (timeout_ms s) (source_dir s) (extra_env s).

Definition hooks_for (r : HookRegistry) (e : HookEventName) : list HookSpec := default [] (r !! e).

Definition hooks_for_canonical (r : HookRegistry) (e : HookEventName) : list HookSpec :=
  hooks_for r (canonical e) ++
  (if bool_decide (canonical e = SubagentStop) then hooks_for r SubagentEnd else []).

Definition push_spec (r : HookRegistry) (s : HookSpec) : HookRegistry :=
  <[event s := hooks_for r (event s) ++ [s]]> r.
Definition append_specs (r : HookRegistry) (l : list HookSpec) : HookRegistry := foldl push_spec r l.

Definition remove_by_prefix (prefix : string) (r : HookRegistry) : HookRegistry :=
  fmap (M := gmap HookEventName) (filter (fun s => starts_with prefix (spec_name s) = false)) r.

Definition ALL_EVENTS : list HookEventName :=
  [SessionStart; UserPromptSubmit; PreToolUse; PostToolUse; PostToolUseFailure; PermissionDenied; Stop; StopFailure;
   Notification; SubagentStart; SubagentStop; SubagentEnd; PreCompact; PostCompact; SessionEnd].
Definition all_hooks (r : HookRegistry) : list HookSpec := mjoin (hooks_for r <$> ALL_EVENTS).

Definition recompile (regex_new : string -> option (string -> bool)) (s : HookSpec) : HookSpec :=
  match configured_matcher s with
  | Some p => set_matcher (Some (default matcher_never (matcher_new regex_new p))) s
  | None => s
  end.
Definition recompile_matchers (regex_new : string -> option (string -> bool)) (r : HookRegistry) : HookRegistry :=
  fmap (M := gmap HookEventName) (fmap (recompile regex_new)) r.

Definition spec_key (s : HookSpec) : HookEventName * string * string * string :=
  (canonical (event s), default "" (command_raw s), default "" (url_raw s), default "" (configured_matcher s)).

(** The loop over all specs: a key seen before is skipped. *)
Definition load_step (acc : HookRegistry * gset (HookEventName * string * string * string)) (s : HookSpec) :=
  if bool_decide (spec_key s ∈ acc.2) then acc else (push_spec acc.1 s, {[spec_key s]} ∪ acc.2).

Section sources.
Context (load : HookSource -> list HookSpec * list HookError).

Definition load_hooks_from_sources (global project : list HookSource) : HookRegistry * list HookError :=
  let named prefix l := collect (fun _ src => let r := load src in (rename_spec prefix <$> r.1, r.2)) l in
  let all := both (named "global/" global) (named "project/" project) in
  ((foldl load_step (∅, ∅) all.1).1, all.2).

Definition load_hooks (global project : option path) : HookRegistry * list HookError :=
  load_hooks_from_sources (Directory <$> option_list global) (Directory <$> option_list project).
End sources.

(** ** Disabled hooks *)

Definition names_hook (hook line : string) : bool :=
  negb (bool_decide (trim line = "")) && negb (starts_with "#" (trim line)) && bool_decide (trim line = hook).

(** On the content of the file; a file that cannot be read disables nothing. *)
Definition is_hook_disabled (file : result IoError string) (hook : string) : bool :=
  match file with Err _ => false | Ok content => existsb (names_hook hook) (lines content) end.

(** The content after [disable_hook]: the name is appended with a line feed. *)
Definition disable_hook (file : result IoError string) (hook : string) : string :=
  let content := match file with Ok c => c | Err _ => "" end in
  if is_hook_disabled file hook then content else content +:+ hook +:+ str1 nl.

(** [Ok None] when the file is left alone. *)
Definition enable_hook (file : result IoError string) (hook : string) : result IoError (option string) :=
  match file with
  | Err NotFound => Ok None
  | Err e => Err e
  | Ok content =>
      if existsb (names_hook hook) (lines content)
      then Ok (Some (unlines (filter (fun l => names_hook hook l = false) (lines content))))
      else Ok None
  end.

Definition list_trusted_projects (content : string) : list path :=
  components <$> filter (fun l => l <> "" /\ starts_with "#" l = false) (trim <$> lines content).

(** ** Reserved variables *)

Lemma strip_reserved k env : k ∈ RUNNER_ALWAYS_SET_ENV -> strip_reserved_env_keys env !! k = None.
Proof.
  unfold strip_reserved_env_keys. revert env. induction RUNNER_ALWAYS_SET_ENV as [|x l IH]; intros env Hk;
    [by apply not_elem_of_nil in Hk|]. cbn [foldl].
  assert (forall m : gmap string string, m !! k = None -> foldl (fun m k => delete k m) m l !! k = None) as Hkeep.
  { clear. induction l as [|y l IH]; intros m Hm; cbn [foldl]; [done|]. apply IH.
    rewrite lookup_delete_None. by right. }
  apply elem_of_cons in Hk as [->|Hk]; [|by apply IH]. apply Hkeep, lookup_delete_eq.
Qed.

Lemma collect_forall {X A B} (P : A -> Prop) (f : nat -> X -> list A * list B) l :
  (forall i x, x ∈ l -> Forall P (f i x).1) -> Forall P (collect f l).1.
Proof.
  unfold collect. revert f. induction l as [|x l IH]; intros f H; cbn; [constructor|]. apply Forall_app. split.
  - apply H. left.
  - apply IH. intros i y Hy. apply (H (S i)). by right.
Qed.

Section safe_env.
Context `{!HashIter string} `{!HashIter HookEventName}.
Context (parse_json : string -> result string Value) (type_error : Value -> string).
Context (regex_new : string -> option (string -> bool)) (regex_error : string -> string).
Context (expand : string -> gmap string string -> string).

Definition env_safe (s : HookSpec) : Prop := forall k, k ∈ RUNNER_ALWAYS_SET_ENV -> extra_env s !! k = None.

Lemma parse_handler_safe file name e p m h : Forall env_safe (parse_handler expand file name e p m h).1.
Proof.
  unfold parse_handler. destruct (if bool_decide _ then _ else _) as [t|]; [|constructor].
  destruct (handler_target expand t h _) as [[[[c c'] u] u']|]; [|constructor].
  constructor; [|constructor]. intros k Hk. by apply strip_reserved.
Qed.

(** Whatever a hook file says, no hook read from it sets one of the
    variables by which a hook knows its event, its name and its session. *)
Theorem parsed_env_safe content file :
  Forall env_safe (parse_hook_file parse_json type_error regex_new regex_error expand content file).1.
Proof.
  unfold parse_hook_file. destruct (parse_json content) as [top|]; [|constructor].
  destruct (vget top "hooks") as [v|]; [|constructor].
  destruct (hooks_map_from_value _ _) as [[events skipped]|]; [|constructor].
  apply collect_forall. intros _ [e gs] _. apply collect_forall. intros i g _. unfold parse_group.
  assert (forall m p q, Forall env_safe (collect (fun j h => parse_handler expand file (p j) e q m h) (group_hooks g)).1) as H.
  { intros m p q. apply collect_forall. intros j h _. apply parse_handler_safe. }
  repeat case_match; apply H || constructor.
Qed.
End safe_env.

(** ** Loading from several sources *)

(** The specs whose key did not occur before. *)
Fixpoint firsts (seen : gset (HookEventName * string * string * string)) (l : list HookSpec) : list HookSpec :=
  match l with
  | [] => []
  | s :: l' => if bool_decide (spec_key s ∈ seen) then firsts seen l' else s :: firsts ({[spec_key s]} ∪ seen) l'
  end.

Lemma hooks_for_push r s e :
  hooks_for (push_spec r s) e = hooks_for r e ++ (if bool_decide (event s = e) then [s] else []).
Proof.
  unfold push_spec, hooks_for. case_bool_decide as He.
  - subst. by rewrite lookup_insert_eq.
  - rewrite lookup_insert_ne by done. by rewrite app_nil_r.
Qed.

Lemma load_steps r seen l e :
  hooks_for (foldl load_step (r, seen) l).1 e = hooks_for r e ++ filter (fun s => event s = e) (firsts seen l).
Proof.
  revert r seen. induction l as [|s l IH]; intros r seen; cbn [foldl firsts]; [by rewrite app_nil_r|].
  unfold load_step at 2. cbn [fst snd]. destruct (bool_decide (spec_key s ∈ seen)); [apply IH|].
  rewrite IH, hooks_for_push, filter_cons. rewrite <- app_assoc. f_equal.
  destruct (decide (event s = e)); [by rewrite bool_decide_true|by rewrite bool_decide_false].
Qed.

Lemma firsts_keys seen l :
  NoDup (spec_key <$> firsts seen l) /\ Forall (fun s => spec_key s ∉ seen) (firsts seen l) /\
  firsts seen l `sublist_of` l /\ (forall s, s ∈ l -> spec_key s ∈ seen \/ spec_key s ∈ spec_key <$> firsts seen l).
Proof.
  revert seen. induction l as [|s l IH]; intros seen; cbn [firsts].
  { split_and!; [constructor|constructor|constructor|]. by intros s Hs%not_elem_of_nil. }
  case_bool_decide as Hs.
  - destruct (IH seen) as (H1 & H2 & H3 & H4). split_and!; [done|done|by constructor|].
    intros x [->|Hx]%elem_of_cons; [by left|]. auto.
  - destruct (IH ({[spec_key s]} ∪ seen)) as (H1 & H2 & H3 & H4). rewrite Forall_forall in H2. split_and!.
    + rewrite fmap_cons. constructor; [|done]. intros (x & Hk & Hx)%list_elem_of_fmap.
      apply H2, not_elem_of_union in Hx as [Hx _]. by rewrite elem_of_singleton in Hx.
    + constructor; [done|]. apply Forall_forall. intros x Hx. by apply H2, not_elem_of_union in Hx as [_ Hx].
    + by constructor.
    + intros x [->|Hx]%elem_of_cons; [right; rewrite fmap_cons; left|].
      destruct (H4 x Hx) as [Hin|Hin]; [|right; rewrite fmap_cons; by right].
      apply elem_of_union in Hin as [->%elem_of_singleton|]; [right; rewrite fmap_cons; left|by left].
Qed.

(** The registry built from the sources holds, under every event and in
    loading order with the global sources first, exactly the specs that no
    earlier one repeats: no two with the same event, command, address and
    matcher, and none lost. *)
Theorem registry_exact load global project :
  let named prefix l := collect (fun _ src => let r := load src in (rename_spec prefix <$> r.1, r.2)) l in
  let all := (named "global/" global).1 ++ (named "project/" project).1 in
  let kept := firsts ∅ all in
  (forall e, hooks_for (load_hooks_from_sources load global project).1 e = filter (fun s => event s = e) kept) /\
  NoDup (spec_key <$> kept) /\ kept `sublist_of` all /\ (forall s, s ∈ all -> spec_key s ∈ spec_key <$> kept).
Proof.
  intros named all kept. destruct (firsts_keys ∅ all) as (H1 & _ & H2 & H3). split_and!; [|done|done|].
  - intros e. change (load_hooks_from_sources load global project).1 with (foldl load_step (∅, ∅) all).1.
    rewrite load_steps. unfold hooks_for at 1. by rewrite lookup_empty.
  - intros s Hs. destruct (H3 s Hs) as [[]%not_elem_of_empty|?]; done.
Qed.

(** ** The file of disabled hooks *)

(** A name that can stand on a line of its own. *)
Definition plain_name (n : string) : Prop := n <> "" /\ trim n = n /\ starts_with "#" n = false /\ clean n.

Definition disabled_in (content hook : string) : bool := is_hook_disabled (Ok content) hook.

Lemma names_hook_plain n m : plain_name n -> names_hook m n = bool_decide (n = m).
Proof. intros (H1 & H2 & H3 & _). unfold names_hook. rewrite H2, bool_decide_false, H3 by done. done. Qed.

Lemma disabled_unlines l m : Forall clean l -> disabled_in (unlines l) m = existsb (names_hook m) l.
Proof. intros Hl. unfold disabled_in, is_hook_disabled. by rewrite lines_unlines. Qed.

Lemma clean_filter n l : Forall clean l -> Forall clean (filter (fun x => names_hook n x = false) l).
Proof. rewrite !Forall_forall. intros H x [_ Hx]%list_elem_of_filter. auto. Qed.

Lemma existsb_filter_out n m l :
  (forall x, names_hook n x = true -> names_hook m x = bool_decide (n = m)) ->
  existsb (names_hook m) (filter (fun x => names_hook n x = false) l) =
  existsb (names_hook m) l && bool_decide (n <> m).
Proof.
  intros H. induction l as [|x l IH]; [done|]. rewrite filter_cons. cbn [existsb].
  destruct (names_hook n x) eqn:E.
  - rewrite decide_False, IH, (H x E) by done. destruct (decide (n = m)).
    + rewrite (bool_decide_true (n = m)), (bool_decide_false (n <> m)) by naive_solver. by rewrite !andb_false_r.
    + by rewrite (bool_decide_false (n = m)).
  - rewrite decide_True by done. cbn [existsb]. rewrite IH. destruct (names_hook m x) eqn:Em; [|done]. cbn [orb].
    symmetry. apply bool_decide_eq_true. intros ->. congruence.
Qed.

(** Disabling a hook adds it to the disabled ones and enabling it removes
    it, and no other hook is affected, when every line of the file is ended by
    a line feed. *)
Theorem disable_enable_exact content n m :
  lf_text content = true -> plain_name n ->
  disabled_in (disable_hook (Ok content) n) m = disabled_in content m || bool_decide (n = m) /\
  match enable_hook (Ok content) n with
  | Ok (Some content') => disabled_in content' m = disabled_in content m && bool_decide (n <> m)
  | Ok None => disabled_in content n = false
  | Err _ => False
  end.
Proof.
  intros Hlf Hn. apply lf_text_unlines in Hlf as (l & Hl & ->). pose proof Hn as (_ & _ & _ & Hc). split.
  - unfold disable_hook. change (is_hook_disabled (Ok ?c) ?k) with (disabled_in c k).
    destruct (disabled_in (unlines l) n) eqn:E.
    + destruct (decide (n = m)) as [->|]; [by rewrite E|]. by rewrite (bool_decide_false (n = m)), orb_false_r.
    + assert (unlines l +:+ n +:+ str1 nl = unlines (l ++ [n])) as ->.
      { rewrite unlines_app. unfold unlines at 3. cbn. by rewrite str_app_nil_r. }
      rewrite !disabled_unlines by (try apply Forall_app; done || (split; [done|by constructor])).
      rewrite existsb_app. cbn [existsb]. by rewrite orb_false_r, names_hook_plain.
  - unfold enable_hook. rewrite lines_unlines by done. destruct (existsb (names_hook n) l) eqn:E.
    + rewrite !disabled_unlines by (done || by apply clean_filter). apply existsb_filter_out.
      intros x Hx. unfold names_hook in *. apply andb_true_iff in Hx as [Hx Ht]. rewrite Hx. cbn.
      apply bool_decide_eq_true in Ht as ->. done.
    + by rewrite disabled_unlines.
Qed.

Lemma disable_enable_exact_witness :
  disabled_in (disable_hook (Ok (unlines ["# off"; "a"])) "b") "a" = true /\
  enable_hook (Ok (unlines ["# off"; "a"; "b"])) "a" = Ok (Some (unlines ["# off"; "b"])).
Proof.
  split; [|by vm_compute].
  destruct (disable_enable_exact (unlines ["# off"; "a"]) "b" "a" ltac:(by vm_compute) ltac:(by vm_compute)) as [-> _].
  by vm_compute.
Defined.

(** Without a final line feed the appended name joins the last one: neither is
    disabled any more. *)
Example unended_file_breaks :
  disabled_in "a" "a" = true /\ disabled_in (disable_hook (Ok "a") "b") "a" = false /\
  disabled_in (disable_hook (Ok "a") "b") "b" = false.
Proof. by vm_compute. Qed.
