(* ===== verification/HookDispatch.v ===== *)
(** * Running and dispatching hooks

    [ccode-hooks], result.rs, runner/ and dispatcher.rs: what a hook's output
    means at each gate, the environment and the checks of a command hook, and
    the three dispatchers.  A process is given by its outcome; JSON text is
    decoded by [parse_json] to a value, which is then read as serde derives it;
    times and HTTP details are left out. *)

From S2P Require Import Prelude RustStr F64 Json Permission TextLines TextFind StdPath EnvExpand HookEvents HookConfig HookRules.
From stdpp Require Import pretty.

(** ** Results *)

(** [force_stop] carries the reason of the override, if any. *)
Record StopHookOutcome := mkOutcome {
  block_reason : option string; outcome_context : option string; force_stop : option (option string)
}.
Definition no_outcome : StopHookOutcome := mkOutcome None None None.

Inductive HookRunnerResult :=
| Decision (d : HookDecision)
| StopResult (o : StopHookOutcome)
| RunOk
| RunErr (error : string).

Record HookRewriteInfo := mkRewrite { updated_input : option Value; additional_context : option string }.
Definition no_rewrite : HookRewriteInfo := mkRewrite None None.

Inductive HookRunResult :=
| HookSuccess (name : string)
| HookSkipped (name : string)
| HookBlocked (name detail : string)
| HookFailed (name error : string).

(** ** The JSON of a gate hook *)

Record GateHookJson := mkGate {
  gate_decision : string; gate_reason : option string; gate_input : option Value; gate_context : option string
}.

Definition decode_gate (v : Value) : option GateHookJson :=
  if is_struct 1 4 v then
    d ← field 0 "decision" v ≫= as_str_opt;
    r ← opt as_str_opt (field 1 "reason" v);
    i ← opt Some (field 2 "updatedInput" v);
    c ← opt as_str_opt (field 3 "additionalContext" v);
    Some (mkGate d r i c)
  else None.

Definition gate_json_to_decision (j : GateHookJson) (hook : string) : result string HookDecision :=
  if bool_decide (gate_decision j = "deny") then
    Ok (HookDeny (default ("denied by hook '" +:+ hook +:+ "'") (gate_reason j)) hook)
  else if bool_decide (gate_decision j = "allow") then Ok HookAllow
  else Err ("unknown decision value '" +:+ gate_decision j +:+ "' from hook '" +:+ hook +:+ "'").

Record StopHookJson := mkStopJson {
  stop_decision : option string; stop_reason_text : option string; continue_ : option bool;
  stop_reason : option string; specific_context : option string
}.

(** [hookSpecificOutput], down to its context. *)
Definition decode_specific (v : Value) : option (option string) :=
  if is_struct 0 1 v then opt as_str_opt (field 0 "additionalContext" v) else None.

Definition decode_stop (v : Value) : option StopHookJson :=
  if is_struct 0 5 v then
    d ← opt as_str_opt (field 0 "decision" v);
    r ← opt as_str_opt (field 1 "reason" v);
    c ← opt as_bool (field 2 "continue" v);
    s ← opt as_str_opt (field 3 "stopReason" v);
    o ← opt decode_specific (field 4 "hookSpecificOutput" v);
    Some (mkStopJson d r c s (mjoin o))
  else None.

Definition not_blank (o : option string) : option string :=
  match o with Some s => if bool_decide (trim s = "") then None else Some s | None => None end.

Definition stop_json_to_outcome (j : StopHookJson) (hook : string) : result string StopHookOutcome :=
  let outcome b :=
    Ok (mkOutcome b (not_blank (specific_context j))
          (if bool_decide (continue_ j = Some false) then Some (stop_reason j) else None)) in
  match stop_decision j with
  | None => outcome None
  | Some d =>
      if bool_decide (d = "block") then
        outcome (Some (default ("Blocked by stop hook '" +:+ hook +:+ "'") (not_blank (stop_reason_text j))))
      else if bool_decide (d = "approve") then outcome None
      else Err ("unknown decision value '" +:+ d +:+ "' from hook '" +:+ hook +:+ "'")
  end.

Definition GATE_EXIT_CODE : Z := 2.
Definition MAX_OUTPUT_BYTES : N := 65536.

(** The status of an HTTP answer. *)
Definition is_success (status : Z) : bool := (200 <=? status)%Z && (status <? 300)%Z.

Section run.
Context (parse_json : string -> result string Value).

Definition decode {A} (f : Value -> option A) (text : string) : option A :=
  match parse_json text with Ok v => f v | Err _ => None end.

Definition exit_failure (hook : string) (code : Z) : HookRunnerResult :=
  RunErr ("hook '" +:+ hook +:+ "' failed with exit code " +:+ pretty code).

Definition parse_blocking_result (stdout : string) (code : Z) (hook : string) : HookRunnerResult * HookRewriteInfo :=
  let by_code :=
    (if (code =? 0)%Z then Decision HookAllow
     else if (code =? GATE_EXIT_CODE)%Z then Decision (HookDeny ("denied by hook '" +:+ hook +:+ "' (exit code 2)") hook)
     else exit_failure hook code, no_rewrite) in
  match (if bool_decide (trim stdout = "") then None else decode decode_gate (trim stdout)) with
  | None => by_code
  | Some j =>
      let rewrite := mkRewrite (gate_input j) (gate_context j) in
      match gate_json_to_decision j hook with
      | Ok (HookDeny reason name) => (Decision (HookDeny reason name), rewrite)
      | Ok HookAllow => if (code =? GATE_EXIT_CODE)%Z then by_code else (Decision HookAllow, rewrite)
      | Err e => (RunErr e, rewrite)
      end
  end.

Definition parse_stop_result (stdout stderr : string) (code : Z) (hook : string) : HookRunnerResult :=
  match (if bool_decide (trim stdout = "") then None else decode decode_stop (trim stdout)) with
  | Some j => match stop_json_to_outcome j hook with Ok o => StopResult o | Err e => RunErr e end
  | None =>
      if (code =? 0)%Z then StopResult no_outcome
      else if (code =? GATE_EXIT_CODE)%Z then
        let feedback := trim stderr in
        StopResult (mkOutcome (Some (if bool_decide (feedback = "")
                                     then "Blocked by stop hook '" +:+ hook +:+ "' (exit code 2)" else feedback)) None None)
      else exit_failure hook code
  end.

Definition parse_http_blocking_result (body : string) (status : Z) (hook : string) : HookRunnerResult :=
  if bool_decide (trim body = "") then
    if is_success status then Decision HookAllow
    else RunErr ("HTTP status " +:+ pretty status +:+ " with empty body")
  else
    match decode decode_gate body with
    | Some j => match gate_json_to_decision j hook with Ok d => Decision d | Err e => RunErr e end
    | None => if is_success status then Decision HookAllow
              else RunErr ("HTTP status " +:+ pretty status +:+ " and failed to parse response")
    end.

Definition parse_http_stop_result (body : string) (status : Z) (hook : string) : HookRunnerResult :=
  if negb (is_success status) then RunErr ("HTTP status " +:+ pretty status)
  else if bool_decide (trim body = "") then StopResult no_outcome
  else match decode decode_stop (trim body) with
       | Some j => match stop_json_to_outcome j hook with Ok o => StopResult o | Err e => RunErr e end
       | None => StopResult no_outcome
       end.

(** ** Command hooks *)

(** [String::from_utf8_lossy] *)
Context (lossy : string -> string).
Context (process_env : gmap string string).

Definition truncate_output (bytes : string) : string :=
  if (N.of_nat (String.length bytes) <=? MAX_OUTPUT_BYTES)%N then lossy bytes
  else lossy (str_take (N.to_nat MAX_OUTPUT_BYTES) bytes) +:+ " [truncated]".

Definition is_shell_command (cmd : string) : bool :=
  existsb (fun c => has_char c cmd) [" "; "|"; "&"; ";"; ">"; "<"; "$"]%char || starts_with "~" cmd.

(** The environment of the child: what is set later wins. *)
Definition child_env (spec : HookSpec) (e : HookEventName) (session workspace : string) : gmap string string :=
  let set l m := foldl (fun m kv => <[fst kv := snd kv]> m) m l in
  set [("CCODE_HOOK_EVENT", event_display e); ("CCODE_HOOK_NAME", spec_name spec); ("CCODE_SESSION_ID", session);
       ("CCODE_WORKSPACE_ROOT", workspace); ("CLAUDE_PROJECT_DIR", workspace)]
    (extra_env spec ∪ process_env).

(** What came of the process. *)
Inductive ProcessOutcome :=
| SpawnFailed (error : string) | TimedOut | WaitFailed (error : string) | Exited (code : Z) (stdout stderr : string).

(** What is started: a shell with the text, or the program at a path. *)
Inductive Program := ShellText (text : string) | Direct (program : path).

Definition hook_program (exists_ : path -> bool) (spec : HookSpec) : result string Program :=
  match command spec with
  | None => Err "command hook has no 'command' field"
  | Some cmd =>
      if is_shell_command cmd then
        match find_unresolved_env_vars process_env cmd (extra_env spec) with
        | [] => Ok (ShellText cmd)
        | l => Err ("hook not executed: required env var(s) not set: " +:+
                    join_str ", " ((fun v => "${" +:+ v +:+ "}") <$> l))
        end
      else
        let p := path_join (source_dir spec) (components cmd) in
        if exists_ p then Ok (Direct p) else Err ("command not found: " +:+ display p)
  end.

Definition run_command_hook (exists_ : path -> bool) (spec : HookSpec) (mode : GateKind)
    (spawn : Program -> ProcessOutcome) : HookRunnerResult * HookRewriteInfo :=
  let failed e := (RunErr e, no_rewrite) in
  match hook_program exists_ spec with
  | Err e => failed e
  | Ok p =>
      match spawn p with
      | SpawnFailed e => failed ("failed to spawn command: " +:+ e)
      | TimedOut => failed ("timed out after " +:+ pretty (timeout_ms spec) +:+ "ms")
      | WaitFailed e => failed ("command execution failed: " +:+ e)
      | Exited code out err =>
          let stdout := truncate_output out in
          let stderr := truncate_output err in
          match mode with
          | Observe => if (code =? 0)%Z then (RunOk, no_rewrite) else failed ("exit code " +:+ pretty code)
          | ToolGate => parse_blocking_result stdout code (spec_name spec)
          | StopGate => (parse_stop_result stdout stderr code (spec_name spec), no_rewrite)
          end
      end
  end.
End run.

(** ** Dispatching *)

Record PreToolUseResult := mkPreResult {
  pre_decision : HookDecision; pre_results : list HookRunResult; rewrite : HookRewriteInfo;
  chain_result : option PermissionChainResult
}.

Record StopBlock := mkBlock { block_hook : string; block_text : string }.
Record StopDispatchResult := mkStop {
  blocks : list StopBlock; contexts : list string; prevent_continuation : option StopBlock;
  stop_results : list HookRunResult
}.
Definition no_stop : StopDispatchResult := mkStop [] [] None [].

Definition wants_continuation (r : StopDispatchResult) : bool :=
  match prevent_continuation r with
  | Some _ => false
  | None => match blocks r, contexts r with [], [] => false | _, _ => true end
  end.

(** One hook's signals: block, stop and context. *)
Definition absorb (hook : string) (o : StopHookOutcome) (r : StopDispatchResult) : StopDispatchResult :=
  mkStop (blocks r ++ match block_reason o with Some t => [mkBlock hook t] | None => [] end)
    (contexts r ++ option_list (outcome_context o))
    (match prevent_continuation r, force_stop o with
     | None, Some reason => Some (mkBlock hook (default "stopped by hook" reason))
     | p, _ => p
     end)
    (stop_results r).

Definition stop_detail (prevented : bool) (prevent_reason block : option string) : option string :=
  if prevented then Some match prevent_reason with
                         | Some r => "prevented continuation: " +:+ r
                         | None => "prevented continuation"
                         end
  else (fun r => "blocked stop: " +:+ r) <$> block.
Definition stop_outcome_detail (o : StopHookOutcome) : option string :=
  stop_detail (match force_stop o with Some _ => true | None => false end) (mjoin (force_stop o)) (block_reason o).

Definition add_rewrite (acc new : HookRewriteInfo) : HookRewriteInfo :=
  mkRewrite (match updated_input new with Some v => Some v | None => updated_input acc end)
    (match additional_context new, additional_context acc with
     | Some c, Some old => Some (old +:+ str1 nl +:+ c)
     | Some c, None => Some c
     | None, old => old
     end).

Section dispatch.
Context `{StrEnv} (json_text : Value -> string).
(** The disabled hooks, and the result of running a hook as the [n]-th one. *)
Context (disabled : string -> bool).
Context (run : nat -> HookSpec -> GateKind -> HookRunnerResult * HookRewriteInfo).

Definition skipped (s : HookSpec) : bool := negb (enabled s) || disabled (spec_name s).
Definition eligible (v : option string) (s : HookSpec) : bool := negb (skipped s) && matcher_allows (matcher s) v.

(** The record of a hook that is not run. *)
Definition skip_record (s : HookSpec) : list HookRunResult := if skipped s then [HookSkipped (spec_name s)] else [].

(** The loop of [dispatch_pre_tool_use] after [n] runs. *)
Fixpoint pre_loop (v : option string) (n : nat) (hooks : list HookSpec)
    (acc : option HookDecision * list HookRunResult * HookRewriteInfo)
    : option HookDecision * list HookRunResult * HookRewriteInfo :=
  match hooks with
  | [] => acc
  | s :: hooks' =>
      let '(d, results, rw) := acc in
      if negb (eligible v s) then pre_loop v n hooks' (d, results ++ skip_record s, rw)
      else
        let '(r, info) := run n s ToolGate in
        let rw := add_rewrite rw info in
        match r with
        | Decision (HookDeny reason _) =>
            (Some (HookDeny reason (spec_name s)),
             results ++ [HookBlocked (spec_name s) ("denied: " +:+ reason)], rw)
        | Decision HookAllow => pre_loop v (S n) hooks' (Some HookAllow, results ++ [HookSuccess (spec_name s)], rw)
        | RunErr e => pre_loop v (S n) hooks' (d, results ++ [HookFailed (spec_name s) e], rw)
        | RunOk | StopResult _ => pre_loop v (S n) hooks' (d, results ++ [HookSuccess (spec_name s)], rw)
        end
  end.

Definition payload_tool (p : HookPayload) : string * Value :=
  match p with PPreToolUse t i => (t, i) | _ => ("", Null) end.

Definition dispatch_pre_tool_use (r : HookRegistry) (p : HookPayload) (rules : option (list PermissionRule))
    (auto_mode : bool) : PreToolUseResult :=
  let hooks := hooks_for r PreToolUse in
  match hooks, rules with
  | [], None => mkPreResult HookAllow [] no_rewrite None
  | _, _ =>
      let '(tool, input) := payload_tool p in
      let '(d, results, rw) := pre_loop (match_value p) 0 hooks (None, [], no_rewrite) in
      let chain := (fun rs => evaluate_permission_chain json_text tool input rs d auto_mode) <$> rules in
      let final :=
        match chain with
        | Some c => match decision c with Deny reason => HookDeny reason "" | _ => default HookAllow d end
        | None => default HookAllow d
        end in
      mkPreResult final results rw chain
  end.

Fixpoint stop_loop (v : option string) (n : nat) (hooks : list HookSpec) (out : StopDispatchResult) : StopDispatchResult :=
  match hooks with
  | [] => out
  | s :: hooks' =>
      let log l := mkStop (blocks out) (contexts out) (prevent_continuation out) (stop_results out ++ l) in
      if negb (eligible v s) then stop_loop v n hooks' (log (skip_record s))
      else
        match (run n s StopGate).1 with
        | StopResult o =>
            let out := log [match stop_outcome_detail o with
                            | Some detail => HookBlocked (spec_name s) detail
                            | None => HookSuccess (spec_name s)
                            end] in
            stop_loop v (S n) hooks' (absorb (spec_name s) o out)
        | RunErr e => stop_loop v (S n) hooks' (log [HookFailed (spec_name s) e])
        | RunOk | Decision _ => stop_loop v (S n) hooks' (log [HookSuccess (spec_name s)])
        end
  end.

Definition dispatch_stop (r : HookRegistry) (e : HookEventName) (p : HookPayload) : StopDispatchResult :=
  if negb (bool_decide (gate (traits e) = StopGate)) then no_stop
  else stop_loop (match_value p) 0 (hooks_for_canonical r e) no_stop.

Fixpoint observe_loop (v : option string) (n : nat) (hooks : list HookSpec) : list HookRunResult :=
  match hooks with
  | [] => []
  | s :: hooks' =>
      if negb (eligible v s) then skip_record s ++ observe_loop v n hooks'
      else match (run n s Observe).1 with
           | RunErr e => HookFailed (spec_name s) e
           | _ => HookSuccess (spec_name s)
           end :: observe_loop v (S n) hooks'
  end.

Definition dispatch_non_blocking (r : HookRegistry) (e : HookEventName) (p : HookPayload) : list HookRunResult :=
  observe_loop (match_value p) 0 (hooks_for_canonical r e).

Definition has_enabled_hooks_for_canonical (r : HookRegistry) (e : HookEventName) : bool :=
  let any l := existsb (fun s => negb (skipped s)) l in
  any (hooks_for r (canonical e)) ||
  (bool_decide (canonical e = SubagentStop) && any (hooks_for r SubagentEnd)).
End dispatch.

(** ** Properties *)

Definition hook_denied (d : option HookDecision) : bool := match d with Some (HookDeny _ _) => true | _ => false end.
Definition denies (r : HookRunnerResult) : bool := match r with Decision (HookDeny _ _) => true | _ => false end.

(** The first hook of the rest is looked up at zero. *)
Lemma ex_lookup_cons {A} (x : A) l (P : nat -> A -> Prop) :
  (exists i y, (x :: l) !! i = Some y /\ P i y) <-> P 0 x \/ (exists i y, l !! i = Some y /\ P (S i) y).
Proof.
  split.
  - intros ([|i] & y & Hy & Hp); cbn in Hy; [left; by simplify_eq|right; by exists i, y].
  - intros [Hp|(i & y & Hy & Hp)]; [by exists 0, x|by exists (S i), y].
Qed.

Section pre_tool_use.
Context `{StrEnv} (json_text : Value -> string) (disabled : string -> bool).

Definition runs (v : option string) (l : list HookSpec) : list HookSpec :=
  filter (fun s => eligible disabled v s = true) l.

Lemma runs_cons v s l : runs v (s :: l) = if eligible disabled v s then s :: runs v l else runs v l.
Proof. unfold runs. rewrite filter_cons. by destruct (eligible disabled v s). Qed.

Lemma pre_loop_denies run v hooks n d results rw :
  hook_denied d = false ->
  hook_denied (pre_loop disabled run v n hooks (d, results, rw)).1.1 = true <->
  exists i s, runs v hooks !! i = Some s /\ denies (run (n + i) s ToolGate).1 = true.
Proof.
  revert n d results rw. induction hooks as [|s hooks IH]; intros n d results rw Hd; cbn [pre_loop].
  { cbn. rewrite Hd. split; [done|]. by intros (i & s & Hs & _). }
  rewrite runs_cons. destruct (eligible disabled v s); cbn [negb]; [|by apply IH].
  rewrite ex_lookup_cons, Nat.add_0_r. setoid_rewrite <- Nat.add_succ_comm.
  destruct (run n s ToolGate) as [r info]. cbn [fst snd].
  destruct r as [[|reason name]|o| |e]; cbn [denies]; try (rewrite IH by done; naive_solver).
  split; [by left|done].
Qed.

Lemma pre_tool_use_denied run r tool input rules auto :
  let p := PPreToolUse tool input in
  hook_denied (Some (pre_decision (dispatch_pre_tool_use json_text disabled run r p rules auto))) = true <->
  (exists i s, runs (match_value p) (hooks_for r PreToolUse) !! i = Some s /\ denies (run i s ToolGate).1 = true) \/
  (exists rs, rules = Some rs /\
     (is_Some (pre_filter tool input) \/
      Exists (fun x => is_deny x = true /\ matches json_text tool input x = true) rs)).
Proof.
  intros p. unfold dispatch_pre_tool_use. change (payload_tool p) with (tool, input).
  pose proof (pre_loop_denies run (match_value p) (hooks_for r PreToolUse) 0 None [] no_rewrite eq_refl) as Hl.
  change (0 + ?i) with i in Hl.
  assert (forall d : option HookDecision, hook_denied (Some (default HookAllow d)) = hook_denied d) as Hdef by by intros [[]|].
  destruct rules as [rs|].
  - destruct (pre_loop _ _ _ _ _ _) as [[d results] rw]. cbn [fst] in Hl.
    pose proof (chain_denied json_text tool input rs d auto) as Hc.
    assert ((exists rs0, Some rs = Some rs0 /\ (is_Some (pre_filter tool input) \/
      Exists (fun x => is_deny x = true /\ matches json_text tool input x = true) rs0)) <->
      (is_Some (pre_filter tool input) \/ Exists (fun x => is_deny x = true /\ matches json_text tool input x = true) rs))
      as -> by naive_solver.
    assert (hook_denied d = true <-> exists reason name, d = Some (HookDeny reason name)) as Hd
      by (destruct d as [[]|]; naive_solver).
    rewrite <- Hl, Hd. destruct (hooks_for r PreToolUse); cbn [pre_decision fmap option_fmap option_map];
      (destruct (decision _) eqn:Ec; cbn [denied] in Hc; rewrite ?Hdef; [rewrite Hd|cbn [hook_denied]|rewrite Hd];
       clear -Hc; assert (~ (false = true)) by done; tauto).
  - destruct (hooks_for r PreToolUse) as [|s l] eqn:El.
    + cbn. split; [done|]. intros [(i & y & Hy & _)|(rs & ? & _)]; [|done]. by rewrite lookup_nil in Hy.
    + rewrite <- El in *. destruct (pre_loop _ _ _ _ _ _) as [[d results] rw]. cbn [fst] in Hl.
      cbn [pre_decision fmap option_fmap option_map]. rewrite Hdef, Hl. naive_solver.
Qed.

(** A denial by the chain is the decision. *)
Lemma chain_deny_decides run r p rules auto c :
  let pre := dispatch_pre_tool_use json_text disabled run r p rules auto in
  chain_result pre = Some c -> denied (decision c) = true -> hook_denied (Some (pre_decision pre)) = true.
Proof.
  unfold dispatch_pre_tool_use. destruct (payload_tool p) as [tool input].
  destruct (pre_loop _ _ _ _ _ _) as [[d results] rw].
  destruct (hooks_for r PreToolUse), rules; cbn; try done; intros [= <-]; by destruct (decision _).
Qed.

(** The hooks that are run, with their numbers: those up to the first denial. *)
Fixpoint ran (run : nat -> HookSpec -> GateKind -> HookRunnerResult * HookRewriteInfo) (n : nat) (l : list HookSpec)
  : list (nat * HookSpec) :=
  match l with
  | [] => []
  | s :: l' => (n, s) :: if denies (run n s ToolGate).1 then [] else ran run (S n) l'
  end.

Lemma ran_denies run l n :
  (exists i s, l !! i = Some s /\ denies (run (n + i) s ToolGate).1 = true) <->
  (exists i s, (i, s) ∈ ran run n l /\ denies (run i s ToolGate).1 = true).
Proof.
  revert n. induction l as [|s l IH]; intros n; cbn [ran].
  - split; [by intros (i & s & Hs & _)|by intros (i & s & ?%elem_of_nil & _)].
  - rewrite ex_lookup_cons, Nat.add_0_r. setoid_rewrite <- Nat.add_succ_comm. rewrite IH. clear IH. setoid_rewrite elem_of_cons.
    destruct (denies (run n s ToolGate).1) eqn:E.
    + split; [intros _; exists n, s; by split; [left|]|by left].
    + split; [intros [?|(i & t & Hin & Hd)]; [done|by exists i, t; split; [right|]]|].
      intros (i & t & [[= -> ->]|Hin] & Hd); [by rewrite E in Hd|right; by exists i, t].
Qed.

Definition run_record (s : HookSpec) (r : HookRunnerResult) : HookRunResult :=
  match r with
  | Decision (HookDeny reason _) => HookBlocked (spec_name s) ("denied: " +:+ reason)
  | RunErr e => HookFailed (spec_name s) e
  | _ => HookSuccess (spec_name s)
  end.
Definition was_run (r : HookRunResult) : bool := match r with HookSkipped _ => false | _ => true end.

Lemma pre_loop_ran run v hooks n d results rw :
  let out := pre_loop disabled run v n hooks (d, results, rw) in
  filter (fun r => was_run r = true) out.1.2 =
    filter (fun r => was_run r = true) results ++ ((fun x => run_record x.2 (run x.1 x.2 ToolGate).1) <$> ran run n (runs v hooks)) /\
  out.2 = foldl add_rewrite rw ((fun x => (run x.1 x.2 ToolGate).2) <$> ran run n (runs v hooks)).
Proof.
  revert n d results rw. induction hooks as [|s hooks IH]; intros n d results rw; cbn [pre_loop]; [by rewrite app_nil_r|].
  rewrite runs_cons. destruct (eligible disabled v s) eqn:E; cbn [negb].
  - cbn [ran fmap list_fmap fst snd foldl]. destruct (run n s ToolGate) as [r info] eqn:Er. cbn [fst snd].
    destruct r as [[|reason name]|o| |e]; cbn [denies run_record]; cbn zeta;
      try (match goal with |- context [pre_loop disabled run v (S n) hooks (?d', ?res', ?rw')] =>
             destruct (IH (S n) d' res' rw') as [-> ->] end; split; [|done]; rewrite filter_app, <- app_assoc; by f_equal).
    split; [|done]. cbn [fst snd]. by rewrite filter_app.
  - destruct (IH n d (results ++ skip_record disabled s) rw) as [-> ->]. split; [|done]. f_equal.
    rewrite filter_app. unfold skip_record. destruct (skipped disabled s); [|by rewrite app_nil_r]. cbn. by rewrite app_nil_r.
Qed.

Lemma pre_tool_use_ran run r tool input rules auto :
  let p := PPreToolUse tool input in
  let pre := dispatch_pre_tool_use json_text disabled run r p rules auto in
  let l := ran run 0 (runs (match_value p) (hooks_for r PreToolUse)) in
  filter (fun r => was_run r = true) (pre_results pre) = (fun x => run_record x.2 (run x.1 x.2 ToolGate).1) <$> l /\
  rewrite pre = foldl add_rewrite no_rewrite ((fun x => (run x.1 x.2 ToolGate).2) <$> l).
Proof.
  cbn zeta. unfold dispatch_pre_tool_use. cbn [payload_tool].
  destruct (pre_loop_ran run (match_value (PPreToolUse tool input)) (hooks_for r PreToolUse) 0 None [] no_rewrite) as [H1 H2].
  rewrite <- H2. cbn [filter list_filter app] in H1. rewrite <- H1. clear H1 H2.
  destruct (hooks_for r PreToolUse) as [|s l]; [destruct rules; by split|].
  by destruct (pre_loop _ _ _ _ _ _) as [[d results] rw].
Qed.

(** C9.  A tool call is denied before it runs exactly when a hook that applies
    to it and is run denies it, or, with rules, when the pre-filter knows it or a
    deny rule matches it.  The hooks run in order up to the first that denies
    and no further: exactly these leave a result, apart from the record of disabled ones, and only
    what they rewrite reaches the call.  A hook that fails, times out, answers
    with an unknown decision, is disabled or does not match never denies; and a
    denial by the rules is never overruled by a hook. *)
Theorem pre_tool_use_exact run r tool input rules auto :
  let p := PPreToolUse tool input in
  let pre := dispatch_pre_tool_use json_text disabled run r p rules auto in
  let l := ran run 0 (runs (match_value p) (hooks_for r PreToolUse)) in
  (hook_denied (Some (pre_decision pre)) = true <->
   (exists i s, (i, s) ∈ l /\ denies (run i s ToolGate).1 = true) \/
   (exists rs, rules = Some rs /\
      (is_Some (pre_filter tool input) \/
       Exists (fun x => is_deny x = true /\ matches json_text tool input x = true) rs))) /\
  filter (fun r => was_run r = true) (pre_results pre) = (fun x => run_record x.2 (run x.1 x.2 ToolGate).1) <$> l /\
  rewrite pre = foldl add_rewrite no_rewrite ((fun x => (run x.1 x.2 ToolGate).2) <$> l) /\
  (forall c, chain_result pre = Some c -> denied (decision c) = true -> hook_denied (Some (pre_decision pre)) = true).
Proof.
  cbn zeta. split; [|destruct (pre_tool_use_ran run r tool input rules auto) as [H1 H2]; split; [done|]; split; [done|];
    intros c; apply chain_deny_decides].
  rewrite pre_tool_use_denied. f_equiv. apply (ran_denies run _ 0).
Qed.
End pre_tool_use.

(** What the hooks write into the call is not looked at: two runs that differ
    only in the rewritten inputs and contexts give the same decision and the
    same result of the rules. *)
Lemma rewrites_unchecked `{StrEnv} json_text disabled run run' r p rules auto :
  (forall n s, (run n s ToolGate).1 = (run' n s ToolGate).1) ->
  let a := dispatch_pre_tool_use json_text disabled run r p rules auto in
  let b := dispatch_pre_tool_use json_text disabled run' r p rules auto in
  pre_decision a = pre_decision b /\ chain_result a = chain_result b /\ pre_results a = pre_results b.
Proof.
  intros Hrun. unfold dispatch_pre_tool_use. destruct (payload_tool p) as [tool input].
  assert (forall v n hooks d l rw rw',
    (pre_loop disabled run v n hooks (d, l, rw)).1 = (pre_loop disabled run' v n hooks (d, l, rw')).1) as Hl.
  { intros v n hooks. revert n. induction hooks as [|s hooks IH]; intros n d l rw rw'; cbn [pre_loop]; [done|].
    destruct (eligible disabled v s); cbn [negb]; [|apply IH]. specialize (Hrun n s).
    destruct (run n s ToolGate) as [x i], (run' n s ToolGate) as [y i']. cbn [fst snd] in *. subst y.
    destruct x as [[]|o| |e]; done || apply IH. }
  specialize (Hl (match_value p) 0 (hooks_for r PreToolUse) None [] no_rewrite no_rewrite).
  destruct (pre_loop disabled run _ _ _ _) as [[d l] rw], (pre_loop disabled run' _ _ _ _) as [[d' l'] rw'].
  cbn [fst] in Hl. simplify_eq. by destruct (hooks_for r PreToolUse), rules.
Qed.

(** ** The stop gate *)

Definition outcome_of (r : HookRunnerResult) : StopHookOutcome := match r with StopResult o => o | _ => no_outcome end.

Section stop.
Context (disabled : string -> bool) (run : nat -> HookSpec -> GateKind -> HookRunnerResult * HookRewriteInfo).

(** The outcomes of the hooks that run, with their names. *)
Definition outcomes (v : option string) (n : nat) (hooks : list HookSpec) : list (string * StopHookOutcome) :=
  imap (fun i s => (spec_name s, outcome_of (run (n + i) s StopGate).1)) (runs disabled v hooks).

Definition block_of (x : string * StopHookOutcome) : option StopBlock := mkBlock x.1 <$> block_reason x.2.
Definition stop_of (x : string * StopHookOutcome) : option StopBlock :=
  (fun reason => mkBlock x.1 (default "stopped by hook" reason)) <$> force_stop x.2.

Lemma outcomes_cons v n s hooks :
  outcomes v n (s :: hooks) =
  if eligible disabled v s then (spec_name s, outcome_of (run n s StopGate).1) :: outcomes v (S n) hooks
  else outcomes v n hooks.
Proof.
  unfold outcomes. rewrite runs_cons. destruct (eligible disabled v s); [|done]. cbn. rewrite Nat.add_0_r. f_equal.
  apply imap_ext. intros i x _. cbn. by rewrite Nat.add_succ_r.
Qed.

Lemma stop_loop_spec v n hooks out :
  let r := stop_loop disabled run v n hooks out in
  let l := outcomes v n hooks in
  blocks r = blocks out ++ omap block_of l /\
  contexts r = contexts out ++ omap (fun x => outcome_context x.2) l /\
  prevent_continuation r = match prevent_continuation out with Some b => Some b | None => head (omap stop_of l) end.
Proof.
  revert n out. induction hooks as [|s hooks IH]; intros n out; cbn [stop_loop].
  { cbn. rewrite !app_nil_r. by destruct (prevent_continuation out). }
  rewrite outcomes_cons. destruct (eligible disabled v s); cbn [negb].
  2: { apply (IH n (mkStop (blocks out) (contexts out) (prevent_continuation out) _)). }
  destruct (run n s StopGate).1 as [d|o| |e]; cbn [outcome_of].
  1, 3, 4: apply (IH (S n) (mkStop (blocks out) (contexts out) (prevent_continuation out) _)).
  match goal with |- context [stop_loop _ _ _ _ _ ?o'] => destruct (IH (S n) o') as (-> & -> & ->) end.
  cbn [absorb blocks contexts prevent_continuation omap list_omap block_of stop_of fst snd].
  destruct o as [[b|] [c|] [f|]], (prevent_continuation out); cbn; rewrite <- ?app_assoc; done.
Qed.

(** At a stop gate every hook that applies runs; the reasons to go on and
    the contexts are all collected in order, the first override wins, and the
    agent goes on exactly when there is no override and some hook blocks or
    adds context.  A hook that fails contributes nothing. *)
Theorem dispatch_stop_exact r e p :
  gate (traits e) = StopGate ->
  let out := dispatch_stop disabled run r e p in
  let l := outcomes (match_value p) 0 (hooks_for_canonical r e) in
  blocks out = omap block_of l /\ contexts out = omap (fun x => outcome_context x.2) l /\
  prevent_continuation out = head (omap stop_of l) /\
  wants_continuation out = bool_decide (omap stop_of l = [] /\
    (omap block_of l <> [] \/ omap (fun x => outcome_context x.2) l <> [])).
Proof.
  intros Hg out l. unfold out, dispatch_stop. rewrite bool_decide_true by done. cbn [negb].
  destruct (stop_loop_spec (match_value p) 0 (hooks_for_canonical r e) no_stop) as (Hb & Hc & Hp).
  fold l in Hb, Hc, Hp. cbn [no_stop blocks contexts prevent_continuation app] in Hb, Hc, Hp.
  split_and!; [done|done|done|]. unfold wants_continuation. rewrite Hb, Hc, Hp.
  destruct (omap stop_of l); [|by rewrite bool_decide_false by naive_solver]. cbn [head].
  destruct (omap block_of l), (omap (fun x => outcome_context x.2) l); symmetry;
    (apply bool_decide_eq_true || apply bool_decide_eq_false); naive_solver.
Qed.
End stop.

(** ** The environment of a command hook *)

(** The runner's variables have the runner's values, whatever the hook file or
    the process set. *)
Lemma child_env_authentic process_env spec e session workspace :
  let env := child_env process_env spec e session workspace in
  env !! "CCODE_HOOK_EVENT" = Some (event_display e) /\ env !! "CCODE_HOOK_NAME" = Some (spec_name spec) /\
  env !! "CCODE_SESSION_ID" = Some session /\ env !! "CCODE_WORKSPACE_ROOT" = Some workspace /\
  env !! "CLAUDE_PROJECT_DIR" = Some workspace.
Proof. unfold child_env. cbn [foldl fst snd]. split_and!; by repeat (rewrite lookup_insert_ne by done) || rewrite lookup_insert_eq. Qed.

(** A denial in the output counts whatever the exit code; a denial by exit code
    counts unless the output holds an unknown decision. *)
Lemma blocking_denies_iff parse_json stdout code hook :
  let j := if bool_decide (trim stdout = "") then None else decode parse_json decode_gate (trim stdout) in
  denies (parse_blocking_result parse_json stdout code hook).1 = true <->
  (gate_decision <$> j = Some "deny") \/ (code = GATE_EXIT_CODE /\ (j = None \/ gate_decision <$> j = Some "allow")).
Proof.
  intros j. unfold parse_blocking_result. fold j. destruct j as [[d reason i c]|]; cbn [fmap option_fmap option_map gate_decision].
  - unfold gate_json_to_decision. cbn [gate_decision]. destruct (bool_decide (d = "deny")) eqn:E1; zbool; [naive_solver|].
    destruct (bool_decide (d = "allow")) eqn:E2; zbool; cbn [denies fst].
    + destruct (code =? GATE_EXIT_CODE)%Z eqn:Ec; zbool; [subst; naive_solver|]. cbn. naive_solver.
    + naive_solver.
  - destruct (code =? 0)%Z eqn:E0; zbool; [cbn; split; [done|]; intros [?|[H ?]]; [done|by subst]|].
    destruct (code =? GATE_EXIT_CODE)%Z eqn:Ec; zbool; cbn; naive_solver.
Qed.

(** ** Witness *)

Definition stop_hook (name : string) : HookSpec :=
  mkSpec name Stop Command None None true (Some "check") (Some "check") None None 600000 [] ∅.
Definition stop_registry : HookRegistry := append_specs ∅ [stop_hook "a"; stop_hook "b"; stop_hook "c"].
Definition stop_run (n : nat) (s : HookSpec) (g : GateKind) : HookRunnerResult * HookRewriteInfo :=
  (if n =? 1 then RunErr "timed out" else StopResult (mkOutcome (Some ("fix " +:+ spec_name s)) None None), no_rewrite).

(** The middle hook fails; the other two hold the agent back. *)
Lemma dispatch_stop_exact_witness :
  let out := dispatch_stop (fun _ => false) stop_run stop_registry Stop (PStop "end" false) in
  blocks out = [mkBlock "a" "fix a"; mkBlock "c" "fix c"] /\ wants_continuation out = true.
Proof.
  destruct (dispatch_stop_exact (fun _ => false) stop_run stop_registry Stop (PStop "end" false) eq_refl)
    as (Hb & _ & _ & Hw).
  assert (outcomes (fun _ => false) stop_run (match_value (PStop "end" false)) 0 (hooks_for_canonical stop_registry Stop) =
    [("a", mkOutcome (Some "fix a") None None); ("b", no_outcome); ("c", mkOutcome (Some "fix c") None None)]) as E
    by by vm_compute.
  cbv zeta. rewrite Hb, Hw, E. split; [done|]. apply bool_decide_eq_true. split; [done|by left].
Defined.
