(* ===== verification/HookUrl.v ===== *)
(** * The address check of HTTP hooks

    [ccode-hooks], runner/http.rs: [is_blocked_ip] and the checks of
    [validate_hook_url].  Parsing a URL and resolving a host are arguments. *)

From S2P Require Import Prelude.

(** Octets of an IPv4 and segments of an IPv6 address. *)
Inductive IpAddr := V4 (a b c d : Z) | V6 (s0 s1 s2 s3 s4 s5 s6 s7 : Z).

Definition ip_wf (ip : IpAddr) : Prop :=
  match ip with
  | V4 a b c d => Forall (fun x => 0 <= x < 2 ^ 8)%Z [a; b; c; d]
  | V6 s0 s1 s2 s3 s4 s5 s6 s7 => Forall (fun x => 0 <= x < 2 ^ 16)%Z [s0; s1; s2; s3; s4; s5; s6; s7]
  end.

Local Open Scope Z_scope.

Definition is_blocked_v4 (a b c d : Z) : bool :=
  if a =? 127 then false
  else if a =? 10 then true
  else if (a =? 172) && ((16 <=? b) && (b <=? 31)) then true
  else if (a =? 192) && (b =? 168) then true
  else if (a =? 169) && (b =? 254) then true
  else if (a =? 100) && ((64 <=? b) && (b <=? 127)) then true
  else (a =? 0) && (b =? 0) && (c =? 0) && (d =? 0).

Definition all_zero (l : list Z) : bool := forallb (Z.eqb 0) l.

Definition is_blocked_ip (ip : IpAddr) : bool :=
  match ip with
  | V4 a b c d => is_blocked_v4 a b c d
  | V6 s0 s1 s2 s3 s4 s5 s6 s7 =>
      if all_zero [s0; s1; s2; s3; s4; s5; s6] && (s7 =? 1) then false
      else if all_zero [s0; s1; s2; s3; s4; s5; s6; s7] then true
      else if all_zero [s0; s1; s2; s3; s4] && (s5 =? 65535) then
        is_blocked_v4 (Z.shiftr s6 8) (Z.land s6 255) (Z.shiftr s7 8) (Z.land s7 255)
      else if Z.land s0 65472 =? 65152 then true
      else Z.land s0 65024 =? 64512
  end.

(** ** URLs *)

(** The parts of a parsed URL that are used; [literal] is the host read as an
    address. *)
Record Url := mkUrl { scheme : string; host : option string; literal : option IpAddr; port : option Z }.

Section url.
Context (parse_url : string -> result string Url).
Context (lookup : string -> Z -> result string (list IpAddr)) (show_ip : IpAddr -> string).

Definition validate_hook_url (u : string) : result string unit :=
  match parse_url u with
  | Err e => Err ("invalid URL: " +:+ e)
  | Ok parsed =>
      if negb (bool_decide (scheme parsed = "https")) then
        Err ("only https:// URLs are allowed for HTTP hooks, got " +:+ scheme parsed +:+ "://")
      else match host parsed with
      | None => Err "URL has no host"
      | Some h =>
          match literal parsed with
          | Some ip =>
              if is_blocked_ip ip then Err ("URL resolves to blocked private/internal IP: " +:+ show_ip ip) else Ok tt
          | None =>
              match lookup h (default 443 (port parsed)) with
              | Err e => Err ("DNS resolution failed for " +:+ h +:+ ": " +:+ e)
              | Ok [] => Err ("DNS resolved no addresses for " +:+ h)
              | Ok addrs =>
                  match find is_blocked_ip addrs with
                  | Some ip => Err ("URL host " +:+ h +:+ " resolves to blocked private/internal IP: " +:+ show_ip ip)
                  | None => Ok tt
                  end
              end
          end
      end
  end.
End url.

(** ** Ranges *)

(** Keeping the bits from [k] on, in 16 bits. *)
Lemma land_high x k : 0 <= x < 2 ^ 16 -> 0 <= k <= 16 ->
  Z.land x (Z.shiftl (Z.ones (16 - k)) k) = Z.shiftl (Z.shiftr x k) k.
Proof.
  intros Hx Hk. apply Z.bits_inj'. intros n Hn. rewrite Z.land_spec, !Z.shiftl_spec by done.
  destruct (Z.ltb_spec n k) as [Hlt|Hge].
  - rewrite !(Z.testbit_neg_r _ (n - k)) by lia. by rewrite andb_false_r.
  - rewrite Z.shiftr_spec, Z.sub_add by lia. rewrite Z.testbit_ones by lia.
    destruct (Z.ltb_spec (n - k) (16 - k)); [by rewrite (proj2 (Z.leb_le 0 (n - k))), andb_true_r by lia|].
    rewrite <- (Z.mod_small x (2 ^ 16)) by done. by rewrite Z.mod_pow2_bits_high by lia.
Qed.

Lemma mask_range x k v : 0 <= x < 2 ^ 16 -> 0 <= k <= 16 ->
  (Z.land x (Z.shiftl (Z.ones (16 - k)) k) =? v * 2 ^ k) = (v * 2 ^ k <=? x) && (x <? (v + 1) * 2 ^ k).
Proof.
  intros Hx Hk. rewrite land_high, Z.shiftl_mul_pow2, Z.shiftr_div_pow2 by lia.
  assert (0 < 2 ^ k) as Hp by (apply Z.pow_pos_nonneg; lia).
  pose proof (Z.div_mod x (2 ^ k) ltac:(lia)) as Hd. pose proof (Z.mod_pos_bound x (2 ^ k) Hp) as Hm.
  apply eq_true_iff_eq. rewrite Z.eqb_eq, andb_true_iff, Z.leb_le, Z.ltb_lt.
  generalize dependent (x mod 2 ^ k). generalize dependent (x / 2 ^ k). generalize dependent (2 ^ k).
  intros P Hp q r Hd Hm. split.
  - intros E%Z.mul_reg_r; [subst q; lia|lia].
  - intros [H1 H2]. f_equal. assert (v < q + 1) by (apply (Z.mul_lt_mono_pos_r P); lia).
    assert (q < v + 1) by (apply (Z.mul_lt_mono_pos_r P); lia). lia.
Qed.

(** The masks are the prefixes [fe80::/10] and [fc00::/7]. *)
Lemma link_local_range x : 0 <= x < 2 ^ 16 -> (Z.land x 65472 =? 65152) = (65152 <=? x) && (x <? 65216).
Proof. intros Hx. apply (mask_range x 6 1018 Hx). lia. Qed.
Lemma unique_local_range x : 0 <= x < 2 ^ 16 -> (Z.land x 65024 =? 64512) = (64512 <=? x) && (x <? 65024).
Proof. intros Hx. apply (mask_range x 9 126 Hx). lia. Qed.

(** An IPv4 address written inside an IPv6 one is judged like itself when it is
    mapped ([::ffff:a.b.c.d]), and passes when it is not. *)
Lemma mapped_like_v4 a b c d : ip_wf (V4 a b c d) ->
  is_blocked_ip (V6 0 0 0 0 0 65535 (a * 256 + b) (c * 256 + d)) = is_blocked_ip (V4 a b c d).
Proof.
  intros Hwf. unfold ip_wf in Hwf. rewrite !Forall_cons in Hwf. destruct Hwf as (Ha & Hb & Hc & Hd & _).
  cbn [is_blocked_ip all_zero forallb Z.eqb andb Pos.eqb].
  assert (forall x y, 0 <= y < 2 ^ 8 -> Z.shiftr (x * 256 + y) 8 = x) as Hs.
  { intros x y Hy. rewrite Z.shiftr_div_pow2 by done. change (2 ^ 8) with 256 in *. rewrite Z.div_add_l by done.
    rewrite Z.div_small; lia. }
  assert (forall x y, 0 <= y < 2 ^ 8 -> Z.land (x * 256 + y) 255 = y) as Hl.
  { intros x y Hy. change 255 with (Z.ones 8). rewrite Z.land_ones by done. change (2 ^ 8) with 256 in *.
    rewrite Z.add_comm, Z.mod_add by done. by apply Z.mod_small. }
  by rewrite !Hs, !Hl by done.
Qed.

Example embedded_v4_passes :
  is_blocked_ip (V4 169 254 169 254) = true /\ is_blocked_ip (V6 0 0 0 0 0 65535 43518 43518) = true /\
  is_blocked_ip (V6 0 0 0 0 0 0 43518 43518) = false /\ is_blocked_ip (V6 100 65435 0 0 0 0 43518 43518) = false /\
  is_blocked_ip (V4 0 0 0 1) = false.
Proof. by vm_compute. Qed.

(** What passes the check: HTTPS, and no address it names or resolves to at that
    moment is blocked. *)
Lemma validated_url parse_url lookup show_ip u : validate_hook_url parse_url lookup show_ip u = Ok tt ->
  exists p h, parse_url u = Ok p /\ scheme p = "https" /\ host p = Some h /\
  match literal p with
  | Some ip => is_blocked_ip ip = false
  | None => exists l, lookup h (default 443 (port p)) = Ok l /\ l <> [] /\ Forall (fun ip => is_blocked_ip ip = false) l
  end.
Proof.
  unfold validate_hook_url. intros H. destruct (parse_url u) as [p|] eqn:Ep; [|done].
  destruct (bool_decide (scheme p = "https")) eqn:Es; [|done]. zbool. cbn [negb] in H.
  destruct (host p) as [h|] eqn:Eh; [|done]. exists p, h. split_and!; [done|done|done|].
  destruct (literal p) as [ip|]; [by destruct (is_blocked_ip ip)|].
  destruct (lookup h _) as [l|]; [|done]. exists l. split; [done|].
  destruct l as [|ip l]; [done|]. split; [done|]. destruct (find _ _) eqn:Ef; [done|].
  apply Forall_forall. intros x Hx%list_elem_of_In. by eapply find_none in Ef.
Qed.
