(* ===== verification/ToolNode.v ===== *)
(** * The tool node

    [node/tool.rs]: a tool call goes through the hooks, the permission mode and
    the bridge; [node/transport.rs] ([run_node]): the loop that hands messages
    to the node one at a time and sends its heartbeats.  The loop polls its
    other branches only between two messages, since it awaits
    [handle_message]; the state of a handler that is waiting is [activity].
    The registered hooks are dispatched as in [HookDispatch], before the rules
    and the mode; what a hook prints and what a tool answers are arguments. *)

From S2P Require Import Prelude RustStr F64 Json Node Permission TextLines TextFind StdPath Sandbox.
From S2P Require Import EnvExpand HookEvents HookConfig HookRules HookDispatch ToolBridge.

(** ** Decisions before a call runs *)

(** [HookDecision] of tools/hook_bridge.rs *)
Inductive BridgeDecision := BridgeAllow | BridgeDeny (reason : string) | BridgeRewrite (updated_input : Value).

Record ToolNode := mkNode {
  bridge : ToolBridge;
  permission_mode : Node.PermissionMode;
  pending_permissions : gset string;
  hook_dispatcher : ToolCallRequest -> BridgeDecision;
  hook_registry : option HookRegistry;
  permission_rules : option (list PermissionRule);
  auto_mode : bool
}.

Definition tool_node_new (b : ToolBridge) : ToolNode := mkNode b Node.Trust ∅ (fun _ => BridgeAllow) None None false.
Definition set_permission_mode (m : Node.PermissionMode) (n : ToolNode) : ToolNode :=
  mkNode (bridge n) m (pending_permissions n) (hook_dispatcher n) (hook_registry n) (permission_rules n) (auto_mode n).
Definition set_hook_registry (r : HookRegistry) (n : ToolNode) : ToolNode :=
  mkNode (bridge n) (permission_mode n) (pending_permissions n) (hook_dispatcher n) (Some r) (permission_rules n) (auto_mode n).
Definition set_permission_rules (l : list PermissionRule) (n : ToolNode) : ToolNode :=
  mkNode (bridge n) (permission_mode n) (pending_permissions n) (hook_dispatcher n) (hook_registry n) (Some l) (auto_mode n).
Definition set_auto_mode (b : bool) (n : ToolNode) : ToolNode :=
  mkNode (bridge n) (permission_mode n) (pending_permissions n) (hook_dispatcher n) (hook_registry n) (permission_rules n) b.
Definition set_hook_dispatcher (f : ToolCallRequest -> BridgeDecision) (n : ToolNode) : ToolNode :=
  mkNode (bridge n) (permission_mode n) (pending_permissions n) f (hook_registry n) (permission_rules n) (auto_mode n).
Definition set_pending (f : gset string -> gset string) (n : ToolNode) : ToolNode :=
  mkNode (bridge n) (permission_mode n) (f (pending_permissions n)) (hook_dispatcher n) (hook_registry n)
    (permission_rules n) (auto_mode n).

(** How far the checks let a call go: refused with a text, put to the user, or
    run, with the input the hooks left. *)
Inductive Verdict := Refused (text : string) | AskFirst (input : Value) | RunWith (input : Value).

(** Phase 2: the permission mode. *)
Definition mode_verdict (n : ToolNode) (req : ToolCallRequest) (input : Value) : Verdict :=
  if needs_confirmation (bridge n) (tool_name req) (permission_mode n) then
    match permission_mode n with
    | Node.Ask => AskFirst input
    | Node.Trust | Node.Yolo => RunWith input
    | Node.ReadOnly => Refused ("工具 " +:+ tool_name req +:+ " 在只读模式下被拒绝")
    end
  else RunWith input.

Section verdict.
Context {SE : StrEnv} (json_text : Value -> string) (disabled : string -> bool).
Context (run : nat -> HookSpec -> GateKind -> HookRunnerResult * HookRewriteInfo).

(** Phase 1: the hooks of the registry and the rules, which see the input of the
    request. *)
Definition registry_verdict (n : ToolNode) (req : ToolCallRequest) (input : Value) : Verdict :=
  match hook_registry n with
  | None => mode_verdict n req input
  | Some r =>
      let pre := dispatch_pre_tool_use json_text disabled run r (PPreToolUse (tool_name req) (arguments req))
                   (permission_rules n) (auto_mode n) in
      let input := default input (updated_input (rewrite pre)) in
      match pre_decision pre with
      | HookDeny reason _ => Refused ("工具 " +:+ tool_name req +:+ " 被 Hook 拒绝：" +:+ reason)
      | HookAllow =>
          match decision <$> chain_result pre with
          | Some (HookRules.Deny reason) => Refused ("工具 " +:+ tool_name req +:+ " 被权限规则拒绝：" +:+ reason)
          | _ => mode_verdict n req input
          end
      end
  end.

Definition verdict (n : ToolNode) (req : ToolCallRequest) : Verdict :=
  match hook_dispatcher n req with
  | BridgeAllow => registry_verdict n req (arguments req)
  | BridgeDeny reason => Refused ("工具 " +:+ tool_name req +:+ " 被 Hook 拒绝：" +:+ reason)
  | BridgeRewrite input => registry_verdict n req input
  end.
End verdict.

(** ** The node in its loop *)

Inductive Incoming := ToolCall (req : ToolCallRequest) | Response (id : string) (allowed : bool).

Inductive Activity := Idle | Awaiting (req : ToolCallRequest) (input : Value) (since : Z).

(** What the node does: the request put to the user, the executor or the
    spawn request, the answer to the caller, and its heartbeats. *)
Inductive Action :=
| Asked (id : string)
| Ran (req : ToolCallRequest)
| Spawned (req : ToolCallRequest)
| Replied (id : string) (output : string) (success : bool)
| Heartbeat (at_ms : Z).

Record Loop := mkLoop {
  node : ToolNode; activity : Activity; inbox : list Incoming; clock : Z; actions : list Action
}.

Definition act (l : list Action) (s : Loop) : Loop := mkLoop (node s) (activity s) (inbox s) (clock s) (actions s ++ l).
Definition with_node (f : ToolNode -> ToolNode) (s : Loop) : Loop :=
  mkLoop (f (node s)) (activity s) (inbox s) (clock s) (actions s).
Definition with_activity (a : Activity) (s : Loop) : Loop := mkLoop (node s) a (inbox s) (clock s) (actions s).

Definition PERMISSION_TIMEOUT_MS : Z := 60000.

Section loop.
Context {SE : StrEnv} (json_text : Value -> string) (disabled : string -> bool).
Context (run : nat -> HookSpec -> GateKind -> HookRunnerResult * HookRewriteInfo).
#[local] Abbreviation verdict := (verdict json_text disabled run).
(** The answer of the bridge to a request ([ToolBridge.execute]). *)
Context (perform : ToolCallRequest -> ToolCallResult).

Definition text_arg (input : Value) (key dflt : string) : string := default dflt (as_str_opt (vindex input key)).

(** Phases 3 and 4. *)
Definition run_tool (req : ToolCallRequest) (input : Value) (s : Loop) : Loop :=
  let req := mkRequest (tool_call_id req) (tool_name req) input (agent_id req) in
  if bool_decide (tool_name req = "task") then
    act [Spawned req;
         Replied (tool_call_id req) ("子 Agent 已 spawn，类型=" +:+ text_arg input "agent_type" "general-purpose"
                                     +:+ ", 任务=" +:+ text_arg input "description" "") true] s
  else let r := perform req in act [Ran req; Replied (result_id r) (output r) (success r)] s.

Definition refuse (req : ToolCallRequest) (text : string) (s : Loop) : Loop :=
  act [Replied (tool_call_id req) text false] s.

(** The end of [wait_permission]. *)
Definition permission_answer (allowed : bool) (req : ToolCallRequest) (input : Value) (s : Loop) : Loop :=
  let s := with_activity Idle s in
  if allowed then run_tool req input s else refuse req ("工具 " +:+ tool_name req +:+ " 被用户拒绝") s.

Definition handle_tool_call (req : ToolCallRequest) (s : Loop) : Loop :=
  match verdict (node s) req with
  | Refused text => refuse req text s
  | RunWith input => run_tool req input s
  | AskFirst input =>
      act [Asked (tool_call_id req)]
        (with_activity (Awaiting req input (clock s)) (with_node (set_pending (union {[tool_call_id req]})) s))
  end.

Definition handle_permission_response (id : string) (allowed : bool) (s : Loop) : Loop :=
  if bool_decide (id ∈ pending_permissions (node s)) then
    let s := with_node (set_pending (fun p => p ∖ {[id]})) s in
    match activity s with
    | Awaiting req input _ => if bool_decide (tool_call_id req = id) then permission_answer allowed req input s else s
    | Idle => s
    end
  else s.

Definition handle_message (m : Incoming) (s : Loop) : Loop :=
  match m with
  | ToolCall req => handle_tool_call req s
  | Response id allowed => handle_permission_response id allowed s
  end.

(** What can happen next: a message arrives, the loop takes the next message,
    the heartbeat timer fires, time passes. *)
Inductive Input := Arrive (m : Incoming) | TakeNext | HeartbeatTimer | Elapse (ms : Z).

Definition step (s : Loop) (i : Input) : Loop :=
  match i with
  | Arrive m => mkLoop (node s) (activity s) (inbox s ++ [m]) (clock s) (actions s)
  | TakeNext =>
      match activity s, inbox s with
      | Idle, m :: r => handle_message m (mkLoop (node s) Idle r (clock s) (actions s))
      | _, _ => s
      end
  | HeartbeatTimer => match activity s with Idle => act [Heartbeat (clock s)] s | Awaiting _ _ _ => s end
  | Elapse ms =>
      let s := mkLoop (node s) (activity s) (inbox s) (clock s + Z.max 0 ms) (actions s) in
      match activity s with
      | Awaiting req input since =>
          if (PERMISSION_TIMEOUT_MS <=? clock s - since)%Z then
            permission_answer false req input (with_node (set_pending (fun p => p ∖ {[tool_call_id req]})) s)
          else s
      | Idle => s
      end
  end.

Definition loop_new (n : ToolNode) : Loop := mkLoop n Idle [] 0 [].
Definition run_loop (n : ToolNode) (l : list Input) : Loop := foldl step (loop_new n) l.

(** ** Properties *)

(** The tools a call may run, by mode. *)
Definition may_run (n : ToolNode) (a : Action) : Prop :=
  match a with
  | Ran req | Spawned req =>
      match permission_mode n with
      | Node.Ask => False
      | Node.Trust | Node.Yolo => True
      | Node.ReadOnly => exists e, entries (bridge n) !! tool_name req = Some e /\ read_only e = true
      end
  | Asked _ => permission_mode n = Node.Ask
  | _ => True
  end.

(** The parts of the node no step changes. *)
Definition same_node (n n' : ToolNode) : Prop :=
  bridge n' = bridge n /\ permission_mode n' = permission_mode n.

Lemma may_run_same n n' a : same_node n n' -> may_run n' a <-> may_run n a.
Proof. intros [Hb Hm]. unfold may_run. by rewrite Hb, Hm. Qed.

Lemma verdict_run n req input : verdict n req = RunWith input ->
  (permission_mode n <> Node.Ask) /\
  (permission_mode n = Node.ReadOnly -> exists e, entries (bridge n) !! tool_name req = Some e /\ read_only e = true).
Proof.
  assert (forall i, mode_verdict n req i = RunWith input ->
    (permission_mode n <> Node.Ask) /\
    (permission_mode n = Node.ReadOnly -> exists e, entries (bridge n) !! tool_name req = Some e /\ read_only e = true)) as Hm.
  { intros i. unfold mode_verdict, needs_confirmation. destruct (permission_mode n); cbn; try done.
    destruct (entries (bridge n) !! tool_name req) as [e|]; [|done]. destruct (read_only e) eqn:E; cbn; [|done].
    intros _. split; [done|]. intros _. by exists e. }
  assert (forall i, registry_verdict json_text disabled run n req i = RunWith input ->
    exists i', mode_verdict n req i' = RunWith input) as Hr.
  { intros i. unfold registry_verdict. repeat case_match; try done; by eexists. }
  unfold ToolNode.verdict. destruct (hook_dispatcher n req); intros Hv; try done;
    apply Hr in Hv as [i' Hi]; by eapply Hm.
Qed.

Lemma verdict_ask n req input : verdict n req = AskFirst input -> permission_mode n = Node.Ask.
Proof.
  unfold ToolNode.verdict, registry_verdict, mode_verdict.
  repeat case_match; try done; intros; by simplify_eq.
Qed.

Definition loop_ok (n : ToolNode) (s : Loop) : Prop :=
  same_node n (node s) /\ Forall (may_run n) (actions s) /\
  match activity s with Idle => True | Awaiting req _ since => permission_mode n = Node.Ask /\ (since <= clock s)%Z end.

Lemma ok_act n l s : loop_ok n s -> Forall (may_run n) l -> loop_ok n (act l s).
Proof. intros (Hn & Ha & Hw) Hl. split_and!; [done| |done]. cbn. by apply Forall_app_2. Qed.

Lemma ok_run n req input s :
  loop_ok n s -> verdict (node s) req = RunWith input -> loop_ok n (run_tool req input s).
Proof.
  intros Hok Hv. assert (may_run (node s) (Ran req)) as Hr.
  { destruct (verdict_run _ _ _ Hv) as [Ha Hro]. unfold may_run. destruct (permission_mode (node s)); auto. }
  rewrite (may_run_same n) in Hr by apply Hok.
  unfold run_tool. cbn [tool_name]. destruct (bool_decide _); apply ok_act; auto; constructor; try done; by constructor.
Qed.

Lemma ok_step n s i : loop_ok n s -> loop_ok n (step s i).
Proof.
  intros Hok. pose proof Hok as (Hn & Ha & Hw). destruct i as [m| | |ms]; cbn [step].
  - split_and!; done.
  - destruct (activity s) eqn:Ea; [|done]. destruct (inbox s) as [|m r]; [done|].
    set (s1 := mkLoop (node s) Idle r (clock s) (actions s)).
    assert (loop_ok n s1) as Hok1 by done. assert (activity s1 = Idle) as HI by done. clearbody s1. destruct m as [req|id allowed]; cbn [handle_message].
    + unfold handle_tool_call. destruct (verdict (node s1) req) eqn:Ev.
      * apply ok_act; [done|]. by constructor.
      * apply ok_act; [|constructor; [|constructor]].
        -- destruct Hok1 as ((Hb & Hm) & Ha1 & _). split_and!; [done|done|]. cbn. split; [|lia].
           rewrite <- Hm. by eapply verdict_ask.
        -- cbn. destruct Hok1 as ((Hb & Hm) & _). rewrite <- Hm. by eapply verdict_ask.
      * by apply ok_run.
    + unfold handle_permission_response. destruct (bool_decide _); [|done].
      cbn [activity with_node]. rewrite HI. split_and!; [apply Hok1|apply Hok1|by cbn; rewrite HI].
  - destruct (activity s); [|done]. apply ok_act; [done|]. by constructor.
  - cbn [activity clock]. destruct (activity s) as [|req input since]; [split_and!; done|].
    destruct (_ <=? _)%Z; [|split_and!; [done|done|cbn; destruct Hw; split; [done|lia]]].
    apply ok_act; [|by constructor]. split_and!; done.
Qed.

Lemma run_ok n l : loop_ok n (run_loop n l).
Proof.
  unfold run_loop. assert (loop_ok n (loop_new n)) as H by (split_and!; done). revert H. generalize (loop_new n).
  induction l as [|i l IH]; intros s Hs; [done|]. by apply IH, ok_step.
Qed.

(** C22.  Whatever messages arrive and in whatever order: in asking mode no tool
    is ever run or spawned, not even when the user allows the call, because the
    answer waits behind the call that waits for it; in read-only mode only
    tools registered as read-only run; and only the asking mode asks. *)
Theorem permission_modes n l :
  Forall (may_run n) (actions (run_loop n l)).
Proof. apply run_ok. Qed.

(** While a call waits, no message is taken and no heartbeat is sent. *)
Lemma awaiting_silent s req input since i :
  activity s = Awaiting req input since -> (clock s - since < PERMISSION_TIMEOUT_MS)%Z ->
  (activity (step s i) = Awaiting req input since /\ actions (step s i) = actions s /\
   (clock (step s i) - since < PERMISSION_TIMEOUT_MS)%Z) \/
  actions (step s i) = actions s ++ [Replied (tool_call_id req) ("工具 " +:+ tool_name req +:+ " 被用户拒绝") false].
Proof.
  intros Ha Hc. destruct i as [m| | |ms]; cbn [step]; rewrite ?Ha; [by left|by left|by left|]. cbn [activity clock].
  destruct (_ <=? _)%Z eqn:E; [by right|]. left. zbool. by cbn [activity actions clock].
Qed.

(** The actions while a call waits: nothing, until the refusal. *)
Definition waited (req : ToolCallRequest) (s0 s : Loop) : Prop :=
  (activity s = activity s0 /\ actions s = actions s0 /\ (clock s - clock s0 < PERMISSION_TIMEOUT_MS)%Z) \/
  (exists r, actions s = actions s0 ++ Replied (tool_call_id req) ("工具 " +:+ tool_name req +:+ " 被用户拒绝") false :: r).

Lemma actions_grow s i : exists l, actions (step s i) = actions s ++ l.
Proof.
  assert (exists l, actions s = actions s ++ l) as Hnil by (exists []; by rewrite app_nil_r).
  destruct i as [m| | |ms]; cbn [step]; [exact Hnil| | |].
  - destruct (activity s); [|exact Hnil].
    destruct (inbox s) as [|[req|id a] r]; [exact Hnil|..]; cbn [handle_message].
    + unfold handle_tool_call. destruct (verdict _ _); [by eexists|by eexists|]. unfold run_tool.
      destruct (bool_decide _); by eexists.
    + unfold handle_permission_response. destruct (bool_decide _); exact Hnil.
  - destruct (activity s); [by eexists|exact Hnil].
  - cbn [activity clock]. destruct (activity s); [exact Hnil|]. destruct (_ <=? _)%Z; [by eexists|exact Hnil].
Qed.

(** A call that was put to the user is refused as soon as sixty seconds
    have passed, whatever arrives meanwhile; until then the node does nothing
    at all, heartbeats included. *)
Theorem asked_call_times_out s req input l :
  activity s = Awaiting req input (clock s) ->
  let s' := foldl step s l in
  waited req s s' /\
  ((PERMISSION_TIMEOUT_MS <= clock s' - clock s)%Z ->
   exists r, actions s' = actions s ++ Replied (tool_call_id req) ("工具 " +:+ tool_name req +:+ " 被用户拒绝") false :: r).
Proof.
  intros Ha s'. assert (waited req s s') as Hw.
  { unfold s'. induction l as [|i l IH] using rev_ind; [left; cbn; unfold PERMISSION_TIMEOUT_MS; split_and!; [done|done|lia]|].
    rewrite foldl_app. cbn [foldl]. destruct IH as [(H1 & H2 & H3)|[r Hr]].
    - set (t := foldl step s l) in *. rewrite Ha in H1.
      destruct (awaiting_silent t req input (clock s) i H1 H3) as [(Ht & Hact & Hc)|Hact].
      + left. by rewrite Ht, Hact, H2, Ha.
      + right. exists []. by rewrite Hact, H2.
    - right. destruct (actions_grow (foldl step s l) i) as [k ->]. rewrite Hr, <- app_assoc, <- app_comm_cons. by eexists. }
  split; [done|]. intros Ht. destruct Hw as [(_ & _ & ?)|Hr]; [lia|done].
Qed.
End loop.

(** ** The rules and the tools that exist *)

Lemma default_rules_names tool r :
  tool ∈ builtin_executors -> r ∈ default_rules -> glob_match (pattern_tool (pattern r)) tool = false.
Proof.
  intros Ht Hr.
  assert (forallb (fun t => forallb (fun r => negb (glob_match (pattern_tool (pattern r)) t)) default_rules)
            builtin_executors = true) as E by by vm_compute.
  rewrite forallb_forall in E. specialize (E tool (proj1 (list_elem_of_In _ _) Ht)).
  rewrite forallb_forall in E. specialize (E r (proj1 (list_elem_of_In _ _) Hr)). by apply negb_true_iff in E.
Qed.

Lemma pre_filter_names {SE : StrEnv} tool input : tool ∈ builtin_executors -> pre_filter tool input = None.
Proof.
  intros Ht. unfold pre_filter, pre_filter_command, pre_filter_file.
  assert (forallb (fun t => negb (bool_decide (t ∈ ["Bash"; "Shell"])) &&
            negb (bool_decide (t ∈ ["FileWrite"; "Write"; "FileEdit"; "Edit"]))) builtin_executors = true) as E by by vm_compute.
  rewrite forallb_forall in E. specialize (E tool (proj1 (list_elem_of_In _ _) Ht)).
  apply andb_true_iff in E as [E1%negb_true_iff E2%negb_true_iff]. by rewrite E1, E2.
Qed.

(** With the default rules, no tool that can run is ever refused by the
    pre-filter or by a rule, whatever its input: both know the tools under other
    names.  When the hooks do not deny, the call goes on to the permission
    mode. *)
Theorem default_rules_never_refuse {SE : StrEnv} json_text disabled run n r req input :
  hook_registry n = Some r -> permission_rules n = Some default_rules -> tool_name req ∈ builtin_executors ->
  (forall i s, denies (run i s ToolGate).1 = false) ->
  exists input', registry_verdict json_text disabled run n req input = mode_verdict n req input'.
Proof.
  intros Hr Hp Ht Hrun. unfold registry_verdict. rewrite Hr, Hp.
  assert (Exists (fun x => is_deny x = true /\ matches json_text (tool_name req) (arguments req) x = true) default_rules
    -> False) as Hex.
  { rewrite Exists_exists. intros (x & Hx & _ & Hm). unfold matches, pattern_matches in Hm.
    by rewrite (default_rules_names _ _ Ht Hx) in Hm. }
  pose proof (pre_tool_use_denied json_text disabled run r (tool_name req) (arguments req) (Some default_rules)
    (auto_mode n)) as Hd. cbv zeta in Hd.
  pose proof (pre_filter_names (tool_name req) (arguments req) Ht) as Hf.
  pose proof (chain_deny_decides json_text disabled run r (PPreToolUse (tool_name req) (arguments req))
    (Some default_rules) (auto_mode n)) as Hc. cbv zeta in Hc.
  set (pre := dispatch_pre_tool_use _ _ _ _ _ _ _) in *.
  destruct (pre_decision pre) as [|reason name]; cbn [hook_denied] in *.
  - destruct (chain_result pre) as [c|]; cbn [fmap option_fmap option_map]; [|by eexists].
    specialize (Hc c eq_refl). destruct (decision c); [by eexists| |by eexists]. by discriminate (Hc eq_refl).
  - exfalso. destruct (proj1 Hd eq_refl) as [(i & s & _ & Hs)|(rs & [= <-] & [[? Hs]|Hs])]; [|by rewrite Hf in Hs|done].
    by rewrite Hrun in Hs.
Qed.

(** ** Witness *)

Definition answer (req : ToolCallRequest) : ToolCallResult := mkResult (tool_call_id req) "done" true 0 false.
Definition asking_node : ToolNode := set_permission_mode Node.Ask (tool_node_new (bridge_new no_hook)).
Definition no_text (v : Value) : string := "".
Definition none_disabled (n : string) : bool := false.
Definition silent_run (n : nat) (s : HookSpec) (g : GateKind) : HookRunnerResult * HookRewriteInfo := (RunOk, no_rewrite).
Definition demo_step := step (SE := ascii_env) no_text none_disabled silent_run answer.
Definition asked_loop : Loop :=
  run_loop (SE := ascii_env) no_text none_disabled silent_run answer asking_node [Arrive (ToolCall (call "grep")); TakeNext].

(** The user allows the call in time; it is refused all the same. *)
Lemma asked_call_times_out_witness :
  exists r, actions (foldl demo_step asked_loop [Arrive (Response "1" true); TakeNext; Elapse 60000]) =
    actions asked_loop ++ Replied "1" "工具 grep 被用户拒绝" false :: r.
Proof.
  refine (proj2 (asked_call_times_out (SE := ascii_env) no_text none_disabled silent_run answer asked_loop (call "grep")
    (arguments (call "grep")) [Arrive (Response "1" true); TakeNext; Elapse 60000] eq_refl) _).
  apply Z.leb_le. reflexivity.
Defined.

(** Removing the root directory passes the default rules. *)
Definition wipe : ToolCallRequest := mkRequest "2" "bash" (Object [("command", Str "rm -rf /")]) "a".
Definition ruled_node : ToolNode := set_permission_rules default_rules (set_hook_registry ∅ (tool_node_new (bridge_new no_hook))).

Lemma default_rules_never_refuse_witness :
  exists input', registry_verdict (SE := ascii_env) no_text none_disabled silent_run ruled_node wipe (arguments wipe)
    = mode_verdict ruled_node wipe input'.
Proof.
  apply (default_rules_never_refuse (SE := ascii_env) no_text none_disabled silent_run ruled_node ∅ wipe (arguments wipe));
    [done|done| |done].
  apply (bool_decide_unpack _). by vm_compute.
Defined.
