(* ===== verification/PlanExec.v ===== *)
(** * Plans

    [agent/plan_execute.rs]: a plan of tool calls that the user approves, the
    executor that runs its steps, re-planning, and the controller.  The answers
    of the tool bridge are an argument ([perform], by number of the call), as
    are the identifiers made up by the code. *)

From S2P Require Import Prelude RustStr F64 Json TextFind ToolBridge.

Inductive PlanStepStatus := Pending | Approved | Executing | Completed | Failed | Skipped.

#[export] Instance step_status_eq_dec : EqDecision PlanStepStatus.
Proof. solve_decision. Defined.

(** The derived [Debug] text of a status. *)
Definition status_debug (st : PlanStepStatus) : string :=
  match st with
  | Pending => "Pending" | Approved => "Approved" | Executing => "Executing"
  | Completed => "Completed" | Failed => "Failed" | Skipped => "Skipped"
  end.

Record PlanStep := mkStep {
  step_id : string; description : string; step_tool : string; tool_args : Value; step_status : PlanStepStatus
}.

Record StepResult := mkStepResult {
  result_step : string; step_success : bool; step_output : string; step_ms : Z; needs_replan : bool
}.

Inductive PlanStatus :=
| Drafting | AwaitingApproval | PlanExecuting | Paused | PlanCompleted | Replanning | Rejected.

#[export] Instance plan_status_eq_dec : EqDecision PlanStatus.
Proof. solve_decision. Defined.

Record Plan := mkPlan { plan_id : string; steps : list PlanStep; plan_status : PlanStatus; pause_after : option string }.

Record PlanResult := mkPlanResult {
  result_plan : string; step_results : list StepResult; final_status : PlanStatus; paused : bool
}.

Inductive ReplanReason :=
| StepFailed (step error : string) | UnexpectedResult (step output : string) | ConditionChanged (what : string).

Definition set_status (st : PlanStepStatus) (s : PlanStep) : PlanStep :=
  mkStep (step_id s) (description s) (step_tool s) (tool_args s) st.
Definition with_steps (l : list PlanStep) (p : Plan) : Plan := mkPlan (plan_id p) l (plan_status p) (pause_after p).
Definition with_status (st : PlanStatus) (p : Plan) : Plan := mkPlan (plan_id p) (steps p) st (pause_after p).

(** [iter_mut().find(|s| s.step_id == id)] followed by an update. *)
Fixpoint update_step (id : string) (f : PlanStep -> PlanStep) (l : list PlanStep) : list PlanStep :=
  match l with
  | [] => []
  | s :: l' => if bool_decide (step_id s = id) then f s :: l' else s :: update_step id f l'
  end.
Definition find_step (id : string) (l : list PlanStep) : option PlanStep :=
  find (fun s => bool_decide (step_id s = id)) l.

Definition approved (s : PlanStep) : bool := bool_decide (step_status s = Approved).
Definition next_step_id (p : Plan) : option string := step_id <$> find approved (steps p).

Definition is_all_done (p : Plan) : bool :=
  forallb (fun s => bool_decide (step_status s = Completed) || bool_decide (step_status s = Skipped)) (steps p).

Section executor.
Context (perform : nat -> ToolCallRequest -> ToolCallResult) (uuid : nat -> string) (agent : string).

Definition step_request (n : nat) (s : PlanStep) : ToolCallRequest := mkRequest (uuid n) (step_tool s) (tool_args s) agent.

(** [execute_step] as the [n]-th call of the bridge. *)
Definition execute_step (n : nat) (id : string) (p : Plan) : Plan * result string StepResult :=
  match find_step id (steps p) with
  | None => (p, Err ("步骤不存在：" +:+ id))
  | Some s =>
      if negb (approved s) then (p, Err ("步骤 " +:+ id +:+ " 状态为 " +:+ status_debug (step_status s) +:+ "，无法执行（需要 Approved）"))
      else
        let p := with_steps (update_step id (set_status Executing) (steps p)) p in
        let r := perform n (step_request n s) in
        let p := with_steps (update_step id (set_status (if success r then Completed else Failed)) (steps p)) p in
        (p, Ok (mkStepResult id (success r) (output r) (duration_ms r)
                  (negb (success r) || str_contains "REPLAN_REQUIRED" (output r))))
  end.

Definition failed_step (id e : string) : StepResult := mkStepResult id false ("步骤执行异常：" +:+ e) 0 true.

(** The loop of [execute]: [None] when the fuel runs out. *)
Fixpoint execute_loop (fuel : nat) (max_replan : Z) (n : nat) (done : list StepResult) (p : Plan)
    : option (Plan * PlanResult) :=
  match fuel with
  | O => None
  | S f =>
      let finish st l p := Some (with_status st p, mkPlanResult (plan_id p) l st (bool_decide (st = Paused))) in
      match next_step_id p with
      | None => finish PlanCompleted done p
      | Some id =>
          let '(p, r) := execute_step n id p in
          let r := match r with Ok r => r | Err e => failed_step id e end in
          let done := done ++ [r] in
          if bool_decide (pause_after p = Some id) then finish Paused done p
          else if needs_replan r && (0 <? max_replan)%Z then finish Replanning done p
          else execute_loop f max_replan (S n) done p
      end
  end.

(** One round for each approved step, and the last one. *)
Definition execute (max_replan : Z) (p : Plan) : option (Plan * PlanResult) :=
  execute_loop (S (length (filter (fun s => approved s = true) (steps p)))) max_replan 0 [] p.
End executor.

Definition rfind_step (f : PlanStep -> bool) (l : list PlanStep) : option PlanStep := find f (reverse l).

Fixpoint position (id : string) (l : list PlanStep) : option nat :=
  match l with
  | [] => None
  | s :: l' => if bool_decide (step_id s = id) then Some 0 else S <$> position id l'
  end.

Definition approve_step (s : PlanStep) : PlanStep :=
  if bool_decide (step_status s = Pending) then set_status Approved s else s.
Definition skip_failed (s : PlanStep) : PlanStep :=
  if bool_decide (step_status s = Failed) then set_status Skipped s else s.

Definition replan_target (p : Plan) (reason : ReplanReason) : result string string :=
  match reason with
  | StepFailed id _ | UnexpectedResult id _ => Ok id
  | ConditionChanged _ =>
      match rfind_step (fun s => bool_decide (step_status s = Failed) || bool_decide (step_status s = Executing)) (steps p) with
      | Some s => Ok (step_id s)
      | None => Err "没有可重新规划的步骤"
      end
  end.

Definition replan (p : Plan) (reason : ReplanReason) (new_steps : list PlanStep) : Plan * result string unit :=
  match replan_target p reason with
  | Err e => (p, Err e)
  | Ok id =>
      match position id (steps p) with
      | None => (p, Err ("重新规划目标步骤不存在：" +:+ id))
      | Some pos =>
          let l := alter skip_failed pos (steps p) in
          (mkPlan (plan_id p) (take (S pos) l ++ (approve_step <$> new_steps) ++ drop (S pos) l) PlanExecuting (pause_after p),
           Ok tt)
      end
  end.

(** ** The controller *)

Abbreviation Controller := (option Plan).
Definition controller_new : Controller := None.
Definition create_plan (uuid : string) (l : list PlanStep) (c : Controller) : Controller :=
  Some (mkPlan uuid l AwaitingApproval None).
Definition approve (c : Controller) : Controller :=
  (fun p => mkPlan (plan_id p) (approve_step <$> steps p) PlanExecuting (pause_after p)) <$> c.
Definition reject (c : Controller) : Controller := with_status Rejected <$> c.
Definition next_step (c : Controller) : option PlanStep := p ← c; find approved (steps p).
Definition step_completed (id : string) (c : Controller) : Controller :=
  (fun p => let p := with_steps (update_step id (set_status Completed) (steps p)) p in
            if is_all_done p then with_status PlanCompleted p else p) <$> c.
Definition set_pause_after (id : string) (c : Controller) : Controller :=
  (fun p => mkPlan (plan_id p) (steps p) (plan_status p) (Some id)) <$> c.

(** ** Executing a plan *)

Definition approved_ids (l : list PlanStep) : list string := step_id <$> filter (fun s => approved s = true) l.

Lemma approved_ids_cons s l :
  approved_ids (s :: l) = (if approved s then [step_id s] else []) ++ approved_ids l.
Proof. unfold approved_ids. rewrite filter_cons. by destruct (approved s). Qed.

Lemma update_step_ids id f l : (forall s, step_id (f s) = step_id s) -> step_id <$> update_step id f l = step_id <$> l.
Proof. intros Hf. induction l as [|s l IH]; [done|]. cbn. case_bool_decide; cbn; by rewrite ?Hf, ?IH. Qed.

Lemma update_step_twice id f g l : (forall s, step_id (g s) = step_id s) ->
  update_step id f (update_step id g l) = update_step id (fun s => f (g s)) l.
Proof.
  intros Hg. induction l as [|s l IH]; [done|]. cbn [update_step].
  destruct (bool_decide (step_id s = id)) eqn:E; cbn [update_step]; [by rewrite Hg, E|by rewrite E, IH].
Qed.

Lemma elem_approved_ids x l : x ∈ approved_ids l -> x ∈ step_id <$> l.
Proof. unfold approved_ids. rewrite !list_elem_of_fmap. intros (s & -> & [_ Hs]%list_elem_of_filter). eauto. Qed.

(** The next step, with distinct identifiers: it is found again, and whatever
    status it takes it is no longer among the approved ones. *)
Lemma next_step_found id rest l :
  approved_ids l = id :: rest -> NoDup (step_id <$> l) ->
  exists s, find_step id l = Some s /\ approved s = true /\
  forall st, st <> Approved -> approved_ids (update_step id (set_status st) l) = rest.
Proof.
  induction l as [|s l IH]; [done|]. rewrite approved_ids_cons, fmap_cons, NoDup_cons. intros He [Hs Hn].
  unfold find_step. cbn [find update_step]. destruct (approved s) eqn:Ea.
  - injection He as <- <-. rewrite bool_decide_true by done. exists s. split_and!; [done|done|].
    intros st Hst. rewrite approved_ids_cons. unfold approved. cbn [set_status step_status]. by rewrite bool_decide_false.
  - cbn [app] in He. assert (step_id s <> id) as Hne.
    { intros <-. apply Hs, elem_approved_ids. rewrite He. left. }
    rewrite bool_decide_false by done. destruct (IH He Hn) as (x & Hx & Hax & Hst). exists x. split_and!; [done|done|].
    intros st Hne'. rewrite approved_ids_cons, Ea. by apply Hst.
Qed.

Lemma next_step_id_head p : next_step_id p = head (approved_ids (steps p)).
Proof.
  unfold next_step_id. induction (steps p) as [|s l IH]; [done|]. rewrite approved_ids_cons. cbn [find].
  by destruct (approved s).
Qed.

Section runs.
Context (perform : nat -> ToolCallRequest -> ToolCallResult) (uuid : nat -> string) (agent : string).

Lemma execute_step_next n id rest p :
  approved_ids (steps p) = id :: rest -> NoDup (step_id <$> steps p) ->
  exists r p', execute_step perform uuid agent n id p = (p', Ok r) /\ result_step r = id /\
    approved_ids (steps p') = rest /\ step_id <$> steps p' = step_id <$> steps p /\
    plan_id p' = plan_id p /\ pause_after p' = pause_after p.
Proof.
  intros He Hn. destruct (next_step_found _ _ _ He Hn) as (s & Hf & Ha & Hst). unfold execute_step. rewrite Hf, Ha.
  cbn [negb]. eexists _, _. split; [reflexivity|]. split_and!; try done.
  - cbn [steps with_steps]. rewrite update_step_twice by done. apply (Hst (if success _ then Completed else Failed)).
    by destruct (success _).
  - cbn [steps with_steps]. by rewrite !update_step_ids.
Qed.

Lemma execute_loop_spec f max n done p :
  NoDup (step_id <$> steps p) -> length (approved_ids (steps p)) < f ->
  exists p' res k, execute_loop perform uuid agent f max n done p = Some (p', res) /\
    result_step <$> step_results res = (result_step <$> done) ++ take k (approved_ids (steps p)) /\
    approved_ids (steps p') = drop k (approved_ids (steps p)) /\ k <= length (approved_ids (steps p)) /\
    match final_status res with
    | PlanCompleted => k = length (approved_ids (steps p))
    | Paused => exists id, pause_after p = Some id /\ last (step_results res) ≫= (fun r => Some (result_step r)) = Some id
    | Replanning => (0 < max)%Z /\ needs_replan <$> last (step_results res) = Some true
    | _ => False
    end.
Proof.
  revert n done p. induction f as [|f IH]; intros n done p Hn Hf; [lia|]. cbn [execute_loop]. rewrite next_step_id_head.
  destruct (approved_ids (steps p)) as [|id rest] eqn:He; cbn [head].
  { eexists _, _, 0. split; [reflexivity|]. cbn. rewrite app_nil_r. split_and!; done || lia. }
  destruct (execute_step_next n id rest p He Hn) as (r & p1 & -> & Hr & Hrest & Hids & Hid & Hpa). cbn [length] in *.
  destruct (bool_decide (pause_after p1 = Some id)) eqn:Ep.
  { zbool. eexists _, _, 1. split; [reflexivity|]. cbn. rewrite fmap_app, take_0, drop_0. cbn [fmap list_fmap]. rewrite Hr. split_and!; [done|done|lia|].
    exists id. rewrite <- Hpa. split; [done|]. rewrite last_snoc. cbn. by rewrite Hr. }
  destruct (needs_replan r && (0 <? max)%Z) eqn:Er.
  { apply andb_true_iff in Er as [Er1 Er2]. zbool. eexists _, _, 1. split; [reflexivity|]. cbn.
    rewrite fmap_app, take_0, drop_0. cbn [fmap list_fmap]. rewrite Hr. split_and!; [done|done|lia|done|]. rewrite last_snoc. cbn. by rewrite Er1. }
  destruct (IH (S n) (done ++ [r]) p1) as (p' & res & k & -> & H1 & H2 & H3 & H4).
  { by rewrite Hids. }
  { rewrite Hrest. lia. }
  rewrite Hrest in *. exists p', res, (S k). split; [done|]. rewrite H1, fmap_app, <- app_assoc. cbn [fmap list_fmap take drop app].
  rewrite Hr. split_and!; [done|done|lia|]. destruct (final_status res); try done.
  - destruct H4 as (i & Hi & Hl). exists i. by rewrite <- Hpa.
  - by f_equal.
Qed.

(** A plan whose steps have distinct identifiers is executed to an end:
    the approved steps run in order, each at most once; the result is complete
    only when all of them ran, paused only after the step to pause at, and asks
    for a new plan only after a step that needs one, with re-planning allowed. *)
Theorem plan_execute_exact max p :
  NoDup (step_id <$> steps p) ->
  exists p' res k, execute perform uuid agent max p = Some (p', res) /\
    result_step <$> step_results res = take k (approved_ids (steps p)) /\
    approved_ids (steps p') = drop k (approved_ids (steps p)) /\
    match final_status res with
    | PlanCompleted => approved_ids (steps p') = []
    | Paused => exists id, pause_after p = Some id /\ last (step_results res) ≫= (fun r => Some (result_step r)) = Some id
    | Replanning => (0 < max)%Z /\ needs_replan <$> last (step_results res) = Some true
    | _ => False
    end.
Proof.
  intros Hn. unfold execute.
  destruct (execute_loop_spec (S (length (filter (fun s => approved s = true) (steps p)))) max 0 [] p Hn)
    as (p' & res & k & -> & H1 & H2 & H3 & H4).
  { unfold approved_ids. rewrite length_fmap. lia. }
  exists p', res, k. split_and!; [done|done|done|]. destruct (final_status res); try done. subst k.
  by rewrite H2, drop_all.
Qed.

(** With two steps of the same name the loop does not end when no re-planning
    is allowed: the second one is always next, and the first one, which is
    found under its name, cannot run. *)
Lemma duplicate_ids_diverge f n prev a b id pid st :
  step_id a = id -> step_id b = id -> approved a = false -> approved b = true ->
  execute_loop perform uuid agent f 0 n prev (mkPlan pid [a; b] st None) = None.
Proof.
  intros Ha Hb Haa Hba. revert n prev. induction f as [|f IH]; intros n prev; [done|].
  cbn [execute_loop]. rewrite next_step_id_head. cbn [steps]. rewrite !approved_ids_cons, Haa, Hba. cbn [app head].
  unfold execute_step, find_step. cbn [steps find]. rewrite Ha, Hb, bool_decide_true, Haa by done. cbn [negb].
  rewrite bool_decide_false by done. rewrite andb_false_r. apply IH.
Qed.

(** Every positive limit on the number of new plans is the same limit. *)
Lemma replan_limit_ignored max max' p : (0 < max)%Z -> (0 < max')%Z ->
  execute perform uuid agent max p = execute perform uuid agent max' p.
Proof.
  intros H H'. unfold execute. generalize (S (length (filter (fun s => approved s = true) (steps p)))) as f.
  generalize 0, (@nil StepResult). intros n prev f. revert n prev p. induction f as [|f IH]; intros n prev p; [done|].
  cbn [execute_loop]. rewrite (proj2 (Z.ltb_lt 0 max)), (proj2 (Z.ltb_lt 0 max')) by done.
  destruct (next_step_id p); [|done]. destruct (execute_step _ _ _ _ _ _). repeat case_match; done || apply IH.
Qed.
End runs.

(** ** Witnesses *)

Definition demo_step (id : string) : PlanStep := mkStep id "" "bash" Null Approved.
Definition demo_plan : Plan := mkPlan "p" [demo_step "a"; demo_step "b"; demo_step "c"] PlanExecuting None.
Definition demo_perform (n : nat) (r : ToolCallRequest) : ToolCallResult := mkResult (tool_call_id r) "" (n =? 0) 0 false.

(** The second call fails: with new plans allowed the executor stops there,
    without it goes on and reports completion. *)
Lemma plan_execute_exact_witness :
  exists p' res k, execute demo_perform show "agent" 1 demo_plan = Some (p', res) /\
    result_step <$> step_results res = take k ["a"; "b"; "c"] /\ final_status res = Replanning.
Proof.
  assert (NoDup (step_id <$> steps demo_plan)) as Hn by (apply (bool_decide_unpack _); by vm_compute).
  destruct (plan_execute_exact demo_perform show "agent" 1 demo_plan Hn) as (p' & res & k & E & H1 & _ & _).
  exists p', res, k. split; [done|]. split; [done|].
  assert (execute demo_perform show "agent" 1 demo_plan = Some (p', res)) as E' by done.
  clear -E'. injection E' as _ <-. reflexivity.
Defined.

Example failed_plan_completes :
  match execute demo_perform show "agent" 0 demo_plan with
  | Some (p', res) => final_status res = PlanCompleted /\ is_all_done p' = false
  | None => False
  end.
Proof. by vm_compute. Qed.
