(* ===== verification/ScheduleLoop.v ===== *)
(** * The schedule loop

    [agent/schedule_loop.rs]: a task run at intervals, until it ran often
    enough, failed too often in a row or is cancelled.  Times are nanoseconds
    of a monotonic clock; the counters are [u32] and wrap. *)

From S2P Require Import Prelude.

Inductive ScheduleState := Waiting | Executing | Paused | Completed | Failed.

#[export] Instance state_eq_dec : EqDecision ScheduleState.
Proof. solve_decision. Defined.

Record ScheduleSpec := mkSpec {
  description : string;
  interval : Z;
  max_executions : option Z;
  max_turns_per_execution : Z;
  max_consecutive_failures : Z
}.

Inductive ScheduleDoneReason := MaxExecutionsReached | ConsecutiveFailures (count : Z) | UserCancelled.

Inductive ScheduleAction :=
| Wait (until_next : Z)
| Execute (description : string)
| ScheduleComplete (reason : ScheduleDoneReason) (total_executions total_successes : Z).

Record ScheduleLoop := mkLoop {
  spec : ScheduleSpec;
  state : ScheduleState;
  execution_count : Z;
  success_count : Z;
  consecutive_failures : Z;
  last_execution_end : option Z;
  done_reason : option ScheduleDoneReason
}.

Definition new (sp : ScheduleSpec) : ScheduleLoop := mkLoop sp Waiting 0 0 0 None None.

Definition from_description (d : string) (interval_secs : Z) : ScheduleLoop :=
  new (mkSpec d (interval_secs * 1000000000) None 10 3).

Definition stats (l : ScheduleLoop) : Z * Z := (execution_count l, success_count l).

Definition time_until_next (now : Z) (l : ScheduleLoop) : Z :=
  match last_execution_end l with
  | Some last_end =>
      let elapsed := sat_sub now last_end in
      if (interval (spec l) <=? elapsed)%Z then 0%Z else (interval (spec l) - elapsed)%Z
  | None => 0%Z
  end.

Definition should_execute_now (now : Z) (l : ScheduleLoop) : bool :=
  bool_decide (state l = Waiting) && (time_until_next now l =? 0)%Z.

Definition complete (r : ScheduleDoneReason) (l : ScheduleLoop) : ScheduleAction :=
  ScheduleComplete r (execution_count l) (success_count l).

Definition on_timer_fired (l : ScheduleLoop) : ScheduleLoop * ScheduleAction :=
  if negb (bool_decide (state l = Waiting)) then (l, Wait (interval (spec l)))
  else
    let start :=
      (mkLoop (spec l) Executing (u32_add (execution_count l) 1) (success_count l) (consecutive_failures l)
         (last_execution_end l) (done_reason l), Execute (description (spec l))) in
    match max_executions (spec l) with
    | Some m =>
        if (m <=? execution_count l)%Z then
          (mkLoop (spec l) Completed (execution_count l) (success_count l) (consecutive_failures l)
             (last_execution_end l) (Some MaxExecutionsReached), complete MaxExecutionsReached l)
        else start
    | None => start
    end.

Definition on_execution_complete (now : Z) (success : bool) (l : ScheduleLoop) : ScheduleLoop * ScheduleAction :=
  let successes := if success then u32_add (success_count l) 1 else success_count l in
  let failures := if success then 0%Z else u32_add (consecutive_failures l) 1 in
  if (max_consecutive_failures (spec l) <=? failures)%Z then
    (mkLoop (spec l) Failed (execution_count l) successes failures (Some now) (Some (ConsecutiveFailures failures)),
     ScheduleComplete (ConsecutiveFailures failures) (execution_count l) successes)
  else
    (mkLoop (spec l) Waiting (execution_count l) successes failures (Some now) (done_reason l),
     Wait (interval (spec l))).

Definition with_state (s : ScheduleState) (l : ScheduleLoop) : ScheduleLoop :=
  mkLoop (spec l) s (execution_count l) (success_count l) (consecutive_failures l) (last_execution_end l) (done_reason l).

Definition pause (l : ScheduleLoop) : ScheduleLoop :=
  if bool_decide (state l = Waiting) then with_state Paused l else l.
Definition resume (l : ScheduleLoop) : ScheduleLoop :=
  if bool_decide (state l = Paused) then with_state Waiting l else l.
Definition cancel (l : ScheduleLoop) : ScheduleLoop * ScheduleAction :=
  (mkLoop (spec l) Completed (execution_count l) (success_count l) (consecutive_failures l) (last_execution_end l)
     (Some UserCancelled), complete UserCancelled l).

(** ** Calls in any order *)

Inductive Call := TimerFired | ExecutionComplete (now : Z) (success : bool) | Pause | Resume | Cancel.

Definition step (l : ScheduleLoop) (c : Call) : ScheduleLoop * option ScheduleAction :=
  match c with
  | TimerFired => let '(l, a) := on_timer_fired l in (l, Some a)
  | ExecutionComplete now ok => let '(l, a) := on_execution_complete now ok l in (l, Some a)
  | Pause => (pause l, None)
  | Resume => (resume l, None)
  | Cancel => let '(l, a) := cancel l in (l, Some a)
  end.

Definition is_execute (a : option ScheduleAction) : nat :=
  match a with Some (Execute _) => 1 | _ => 0 end.

(** The loop and the number of times it asked for an execution. *)
Definition run (sp : ScheduleSpec) (cs : list Call) : ScheduleLoop * nat :=
  foldl (fun s c => let '(l, a) := step s.1 c in (l, s.2 + is_execute a)) (new sp, 0) cs.

Lemma run_count sp cs m : max_executions sp = Some m -> (0 <= m <= u32_max)%Z ->
  let '(l, n) := run sp cs in
  spec l = sp /\ execution_count l = Z.of_nat n /\ (Z.of_nat n <= m)%Z.
Proof.
  intros Hm Hr. unfold run. induction cs as [|c cs IH] using rev_ind; [split_and!; [done|done|cbn; lia]|].
  rewrite foldl_app. cbn [foldl]. destruct (foldl _ (new sp, 0) cs) as [l n]. cbn [fst snd].
  destruct IH as (Hs & Hc & Hn). destruct c as [|now ok| | |]; cbn [step].
  - unfold on_timer_fired. destruct (negb _); [cbn; rewrite Nat.add_0_r; split_and!; done|].
    rewrite Hs, Hm. destruct (m <=? execution_count l)%Z eqn:E; zbool; cbn.
    + rewrite Nat.add_0_r. by split_and!.
    + split_and!; [done| |lia]. rewrite u32_add_small by lia. lia.
  - unfold on_execution_complete. destruct (_ <=? _)%Z; cbn; rewrite Nat.add_0_r; by split_and!.
  - unfold pause. destruct (bool_decide _); cbn; rewrite Nat.add_0_r; by split_and!.
  - unfold resume. destruct (bool_decide _); cbn; rewrite Nat.add_0_r; by split_and!.
  - cbn. rewrite Nat.add_0_r. by split_and!.
Qed.

(** Whatever calls are made in whatever order, a schedule with a maximum
    asks for at most that many executions, and counts them exactly. *)
Theorem executions_bounded sp cs m :
  max_executions sp = Some m -> (0 <= m <= u32_max)%Z ->
  execution_count (run sp cs).1 = Z.of_nat (run sp cs).2 /\ (Z.of_nat (run sp cs).2 <= m)%Z.
Proof. intros Hm Hr. pose proof (run_count sp cs m Hm Hr) as H. destruct (run sp cs) as [l n]. naive_solver. Qed.

(** Cancelling a schedule while its task runs does not stop it: the report
    of that run puts it back to waiting, and the next timer executes it again. *)
Theorem cancelled_run_revives l now :
  state l = Executing -> max_executions (spec l) = None -> (1 <= max_consecutive_failures (spec l))%Z ->
  let l1 := (cancel l).1 in
  let l2 := (on_execution_complete now true l1).1 in
  state l1 = Completed /\ state l2 = Waiting /\ done_reason l2 = Some UserCancelled /\
  (on_timer_fired l2).2 = Execute (description (spec l)).
Proof.
  intros Hs Hm Hf l1 l2. split; [done|]. unfold l2, l1, on_execution_complete, cancel. cbn [fst spec].
  destruct (_ <=? 0)%Z eqn:E; zbool; [lia|]. split; [done|]. split; [done|].
  unfold on_timer_fired. cbn. by rewrite Hm.
Qed.

Definition three : ScheduleSpec := mkSpec "ci" 0 (Some 2%Z) 5 3.

Lemma executions_bounded_witness :
  (Z.of_nat (run three [TimerFired; ExecutionComplete 1 true; TimerFired; ExecutionComplete 2 false; TimerFired]).2 <= 2)%Z.
Proof.
  refine (proj2 (executions_bounded three
    [TimerFired; ExecutionComplete 1 true; TimerFired; ExecutionComplete 2 false; TimerFired] 2 eq_refl _)).
  unfold u32_max. lia.
Defined.

Lemma cancelled_run_revives_witness :
  (on_timer_fired (on_execution_complete 5 true (cancel (on_timer_fired (from_description "ci" 300)).1).1).1).2 = Execute "ci".
Proof.
  refine (proj2 (proj2 (proj2 (cancelled_run_revives (on_timer_fired (from_description "ci" 300)).1 5 eq_refl eq_refl _)))).
  apply Z.leb_le. reflexivity.
Defined.
