(* ===== verification/ProactiveLoop.v ===== *)
(** * The proactive loop

    [agent/proactive_loop.rs]: a scan when the agent has been idle, then the
    repairs of the issues found, one after the other.  Times are nanoseconds of
    a monotonic clock; the index and the counters are [usize] and are [nat]. *)

From S2P Require Import Prelude.

Inductive ProactiveState := Idle | Scanning | Repairing | Paused | Stopped.

#[export] Instance state_eq_dec : EqDecision ProactiveState.
Proof. solve_decision. Defined.

Inductive ScanType := CodeSmell | TestCoverage | TypeSafety | Security | CompilerWarnings.
Inductive IssueSeverity := Low | Medium | High | Critical.

Record ProactiveIssue := mkIssue {
  scan_type : ScanType; issue_description : string; severity : IssueSeverity; suggested_fix : string;
  file_path : option string
}.

Record ProactiveSpec := mkSpec {
  idle_timeout : Z; scan_interval : Z; max_concurrent_repairs : nat; min_auto_fix_severity : IssueSeverity;
  enabled : bool
}.
Definition default_spec : ProactiveSpec := mkSpec (120 * 1000000000) (300 * 1000000000) 3 Medium false.

Inductive ProactiveAction :=
| ContinueWaiting (remaining : Z)
| StartScan (scan_types : list ScanType)
| RepairIssue (issue : ProactiveIssue)
| ScanComplete (issues_found issues_fixed : nat)
| AllRepairsComplete (total_issues fixed failed : nat).

Record ProactiveLoop := mkLoop {
  spec : ProactiveSpec;
  state : ProactiveState;
  last_scan_time : option Z;
  last_active_time : Z;
  pending_issues : list ProactiveIssue;
  current_repair_idx : nat;
  fixed_count : nat;
  failed_count : nat
}.

Definition new (now : Z) (sp : ProactiveSpec) : ProactiveLoop := mkLoop sp Idle None now [] 0 0 0.

(** The derived order of the severities. *)
Definition rank (s : IssueSeverity) : nat := match s with Low => 0 | Medium => 1 | High => 2 | Critical => 3 end.

Definition set_state (s : ProactiveState) (l : ProactiveLoop) : ProactiveLoop :=
  mkLoop (spec l) s (last_scan_time l) (last_active_time l) (pending_issues l) (current_repair_idx l)
    (fixed_count l) (failed_count l).
Definition set_active (now : Z) (l : ProactiveLoop) : ProactiveLoop :=
  mkLoop (spec l) (state l) (last_scan_time l) now (pending_issues l) (current_repair_idx l)
    (fixed_count l) (failed_count l).

Definition set_enabled (now : Z) (e : bool) (l : ProactiveLoop) : ProactiveLoop :=
  let sp := spec l in
  let l := mkLoop (mkSpec (idle_timeout sp) (scan_interval sp) (max_concurrent_repairs sp) (min_auto_fix_severity sp) e)
             (state l) (last_scan_time l) (last_active_time l) (pending_issues l) (current_repair_idx l)
             (fixed_count l) (failed_count l) in
  if negb e then set_state Stopped l
  else if bool_decide (state l = Stopped) then set_active now (set_state Idle l) else l.

Definition on_user_active (now : Z) (l : ProactiveLoop) : ProactiveLoop := set_active now l.

Definition should_scan (now : Z) (l : ProactiveLoop) : bool :=
  enabled (spec l) && bool_decide (state l = Idle)
  && (idle_timeout (spec l) <=? sat_sub now (last_active_time l))%Z
  && match last_scan_time l with
     | Some t => (scan_interval (spec l) <=? sat_sub now t)%Z
     | None => true
     end.

Definition on_start_scan (l : ProactiveLoop) : ProactiveLoop * ProactiveAction :=
  (set_state Scanning l, StartScan [CodeSmell; TypeSafety; Security; CompilerWarnings]).

Definition next_repair_action (l : ProactiveLoop) : ProactiveAction :=
  match pending_issues l !! current_repair_idx l with
  | None => AllRepairsComplete (length (pending_issues l)) (fixed_count l) (failed_count l)
  | Some issue => RepairIssue issue
  end.

Definition on_scan_complete (now : Z) (issues : list ProactiveIssue) (l : ProactiveLoop) : ProactiveLoop * ProactiveAction :=
  let auto_fix := filter (fun i => rank (min_auto_fix_severity (spec l)) <= rank (severity i)) issues in
  match auto_fix with
  | [] => (mkLoop (spec l) Idle (Some now) (last_active_time l) (pending_issues l) (current_repair_idx l)
             (fixed_count l) (failed_count l), ScanComplete 0 0)
  | _ => let l := mkLoop (spec l) Repairing (Some now) (last_active_time l) auto_fix 0 0 0 in
         (l, next_repair_action l)
  end.

Definition on_repair_complete (success : bool) (l : ProactiveLoop) : ProactiveLoop * ProactiveAction :=
  let l := mkLoop (spec l) (state l) (last_scan_time l) (last_active_time l) (pending_issues l)
             (S (current_repair_idx l))
             (if success then S (fixed_count l) else fixed_count l)
             (if success then failed_count l else S (failed_count l)) in
  (l, next_repair_action l).

Definition pause (l : ProactiveLoop) : ProactiveLoop :=
  if bool_decide (state l = Idle) || bool_decide (state l = Scanning) then set_state Paused l else l.
Definition resume (now : Z) (l : ProactiveLoop) : ProactiveLoop :=
  if bool_decide (state l = Paused) then set_active now (set_state Idle l) else l.

(** ** A round of repairs *)

Definition repairs (l : ProactiveLoop) (rs : list bool) : ProactiveLoop * list ProactiveAction :=
  foldl (fun s ok => let r := on_repair_complete ok s.1 in (r.1, s.2 ++ [r.2])) (l, []) rs.

Definition count (b : bool) (rs : list bool) : nat := length (filter (fun r => r = b) rs).

Lemma count_snoc b rs r : count b (rs ++ [r]) = count b rs + (if Bool.eqb r b then 1 else 0).
Proof. unfold count. rewrite filter_app, length_app. cbn. by destruct r, b. Qed.

Lemma repairs_state l rs :
  let l' := (repairs l rs).1 in
  state l' = state l /\ spec l' = spec l /\ pending_issues l' = pending_issues l /\
  current_repair_idx l' = current_repair_idx l + length rs /\
  fixed_count l' = fixed_count l + count true rs /\ failed_count l' = failed_count l + count false rs.
Proof.
  unfold repairs. induction rs as [|r rs IH] using rev_ind; [cbn; rewrite !Nat.add_0_r; by split_and!|].
  rewrite foldl_app, length_app, !count_snoc. cbn [foldl]. destruct (foldl _ (l, []) rs) as [l' acts]. cbn [fst] in *.
  destruct IH as (H1 & H2 & H3 & H4 & H5 & H6). cbn. rewrite H4, H5, H6. split_and!; try done; [lia|..];
    destruct r; cbn; lia.
Qed.

(** What may happen to the loop besides a scan: the user acts, it is paused or
    resumed, a repair is reported. *)
Inductive Event :=
| EActive (now : Z)
| EPause
| EResume (now : Z)
| ERepaired (success : bool).

Definition apply_event (l : ProactiveLoop) (e : Event) : ProactiveLoop :=
  match e with
  | EActive t => on_user_active t l
  | EPause => pause l
  | EResume t => resume t l
  | ERepaired b => (on_repair_complete b l).1
  end.

Lemma repairing_stays l es : state l = Repairing -> state (foldl apply_event l es) = Repairing.
Proof.
  revert l. induction es as [|e es IH]; intros l H; [done|]. cbn [foldl]. apply IH.
  destruct e; cbn [apply_event]; [done| | |done]; unfold pause, resume; by rewrite H.
Qed.

Lemma repairs_actions l rs k r :
  rs !! k = Some r -> (repairs l rs).2 !! k = Some (next_repair_action (repairs l (take (S k) rs)).1).
Proof.
  unfold repairs. revert k. induction rs as [|x rs IH] using rev_ind; intros k Hk; [done|].
  rewrite foldl_app. cbn [foldl]. destruct (foldl _ (l, []) rs) as [l' acts] eqn:E. cbn [fst snd] in *.
  assert (length acts = length rs) as Hl.
  { clear -E. revert l' acts E. induction rs as [|y rs IH] using rev_ind; intros l' acts E; [by injection E as <- <-|].
    rewrite foldl_app in E. cbn [foldl] in E. destruct (foldl _ (l, []) rs) as [l1 a1]. cbn in E. injection E as <- <-.
    rewrite !length_app. cbn. by rewrite (IH l1 a1 eq_refl). }
  destruct (decide (k < length rs)) as [Hlt|Hge].
  - rewrite lookup_app_l in Hk by lia. specialize (IH k Hk). cbn [snd].
    rewrite lookup_app_l by lia. rewrite IH. by rewrite take_app_le by lia.
  - apply lookup_lt_Some in Hk as Hlen. rewrite length_app in Hlen. cbn in Hlen.
    assert (k = length rs) as -> by lia. cbn [snd].
    rewrite (take_ge (rs ++ [x])) by (rewrite length_app; cbn; lia). rewrite foldl_app. cbv zeta in E |- *. rewrite E.
    rewrite <- Hl, lookup_app_r, Nat.sub_diag by lia. done.
Qed.

(** After a scan, the issues at or above the severity are repaired in
    order: each report but the last asks for the next issue, the last one
    reports how many were fixed and how many failed; and the loop then never
    scans again: it stays in the repairing state whatever the reports, the
    user's activity, pauses and the time, until it is disabled. *)
Theorem repair_round l now issues rs :
  let todo := filter (fun i => rank (min_auto_fix_severity (spec l)) <= rank (severity i)) issues in
  let '(l1, first) := on_scan_complete now issues l in
  let '(l2, acts) := repairs l1 rs in
  todo <> [] -> length rs = length todo ->
  Some first = RepairIssue <$> head todo /\
  (forall k, S k < length todo -> acts !! k = RepairIssue <$> todo !! S k) /\
  acts !! (length todo - 1) = Some (AllRepairsComplete (length todo) (count true rs) (count false rs)) /\
  forall es t, should_scan t (foldl apply_event l2 es) = false.
Proof.
  intros todo. unfold on_scan_complete. fold todo. destruct todo as [|i todo'] eqn:Et; [by destruct (repairs _ rs)|].
  set (l1 := mkLoop (spec l) Repairing (Some now) (last_active_time l) (i :: todo') 0 0 0).
  pose proof (repairs_state l1 rs) as Hst. pose proof (repairs_actions l1 rs) as Hact.
  destruct (repairs l1 rs) as [l2 acts]. cbn [fst snd] in *. intros _ Hl.
  destruct Hst as (Hs & _). split; [done|]. split_and!.
  - intros k Hk. destruct (lookup_lt_is_Some_2 rs k) as [r Hr]; [lia|]. rewrite (Hact k r Hr).
    destruct (repairs_state l1 (take (S k) rs)) as (_ & _ & Hp & Hi & _). unfold next_repair_action. rewrite Hp, Hi.
    rewrite length_take. replace (current_repair_idx l1 + S k `min` length rs) with (S k) by (change (current_repair_idx l1) with 0; lia).
    destruct (lookup_lt_is_Some_2 (i :: todo') (S k)) as [x Hx]; [done|]. cbn [pending_issues l1]. by rewrite Hx.
  - destruct (lookup_lt_is_Some_2 rs (length (i :: todo') - 1)) as [r Hr]; [cbn in *; lia|]. rewrite (Hact _ r Hr).
    destruct (repairs_state l1 (take (S (length (i :: todo') - 1)) rs)) as (_ & _ & Hp & Hi & Hf & Hg).
    unfold next_repair_action. rewrite Hp, Hi, Hf, Hg. rewrite take_ge by (cbn in *; lia).
    cbn [pending_issues current_repair_idx fixed_count failed_count l1 plus]. rewrite Hl, lookup_ge_None_2 by done. done.
  - intros es t. unfold should_scan. rewrite repairing_stays by done.
    rewrite bool_decide_eq_false_2 by done. by rewrite andb_false_r.
Qed.

Definition smell (d : string) (s : IssueSeverity) : ProactiveIssue := mkIssue CodeSmell d s "fix" None.

Lemma repair_round_witness :
  let '(l1, first) := on_scan_complete 9 [smell "a" Medium; smell "b" Low; smell "c" Critical]
    (on_start_scan (new 0 (mkSpec 0 0 3 Medium true))).1 in
  let '(l2, acts) := repairs l1 [true; false] in
  acts = [RepairIssue (smell "c" Critical); AllRepairsComplete 2 1 1] /\ should_scan 1000 l2 = false.
Proof.
  pose proof (repair_round (on_start_scan (new 0 (mkSpec 0 0 3 Medium true))).1 9
    [smell "a" Medium; smell "b" Low; smell "c" Critical] [true; false]) as T.
  destruct (on_scan_complete 9 _ _) as [l1 first] eqn:E1. destruct (repairs l1 [true; false]) as [l2 acts] eqn:E2.
  destruct (T ltac:(done) eq_refl) as (_ & _ & _ & _).
  injection E1 as <- <-. injection E2 as <- <-. split; reflexivity.
Defined.
