(* ===== verification/SamplerRetry.v ===== *)
(** * Retrying a sampling request

    [sampler/retry.rs]: the class of an error by its status and its text, the
    waits, and the limit on retries.  The hash behind the jitter is an
    argument: any 64-bit number. *)

From S2P Require Import Prelude RustStr Permission TextLines TextFind.
Local Open Scope Z_scope.

Definition DEFAULT_MAX_RETRIES : Z := 15.
Definition RATE_LIMIT_RETRY_THRESHOLD : Z := 2.

(** Waits are milliseconds. *)
Inductive RetryDecision :=
| Retry (backoff : Z)
| RetryWithBackoff (backoff : Z) (is_rate_limited : bool)
| RetryImmediate (backoff : Z)
| Fatal (reason : string).

(** [2000u64.checked_shl(shift).unwrap_or(u64::MAX).min(30_000)]: bits shifted
    out are lost, a shift by 64 or more is [None]. *)
Definition base_ms (retry_count : Z) : Z :=
  let shift := sat_sub retry_count 1 in
  Z.min (if shift <? 64 then wrap 64 (Z.shiftl 2000 shift) else u64_max) 30000.

Definition retry_backoff_with_jitter (hash retry_count : Z) : Z :=
  let base := base_ms retry_count in
  let jitter_range := base / 5 in
  base - jitter_range + hash mod (jitter_range * 2 + 1).

Definition doom_loop_backoff (hash : Z) : Z := hash mod 251.

(** [CCODE_MAX_RETRIES], when it is a number, goes before the model's limit. *)
Definition resolve_max_retries (env : option string) (model_max_retries : option Z) : Z :=
  match env ≫= parse_u32 with
  | Some n => n
  | None => default DEFAULT_MAX_RETRIES model_max_retries
  end.

Section classify.
Context {SE : StrEnv} (hash : Z).

Definition show_z (n : Z) : string := show (Z.to_nat n).

(** A class that is retried until the next count reaches [limit]. *)
Definition retry_until (limit retry_count : Z) (exhausted : string) : RetryDecision :=
  let next := u32_add retry_count 1 in
  if limit <=? next then Fatal exhausted else Retry (retry_backoff_with_jitter hash next).

Definition classify_status (code retry_count max_retries : Z) : option RetryDecision :=
  if (code =? 401) || (code =? 403) then Some (Fatal ("认证失败（HTTP " +:+ show_z code +:+ "）"))
  else if (code =? 400) || (code =? 404) || (code =? 422) then Some (Fatal ("客户端错误（HTTP " +:+ show_z code +:+ "）"))
  else if code =? 429 then
    let next := u32_add retry_count 1 in
    Some (if RATE_LIMIT_RETRY_THRESHOLD <=? next then Fatal "速率限制重试次数耗尽"
          else RetryWithBackoff (retry_backoff_with_jitter hash next) true)
  else if (code =? 500) || (code =? 502) || (code =? 503) || (code =? 504) then
    Some (retry_until max_retries retry_count ("服务端错误重试耗尽（HTTP " +:+ show_z code +:+ "）"))
  else None.

Definition classify_text (error_message : string) (retry_count max_retries : Z) : RetryDecision :=
  let m := to_lowercase error_message in
  if str_contains "context" m && (str_contains "too long" m || str_contains "overflow" m) then Fatal "上下文窗口溢出"
  else if str_contains "timeout" m || str_contains "connection" m then
    retry_until max_retries retry_count "连接错误重试耗尽"
  else if str_contains "empty response" m || str_contains "no content" m then
    retry_until max_retries retry_count "空响应重试耗尽"
  else if str_contains "doom loop" m || str_contains "loop detected" m then RetryImmediate (doom_loop_backoff hash)
  else Fatal ("不可重试的错误：" +:+ error_message).

Definition classify_sampler_error (error_message : string) (status_code : option Z) (retry_count max_retries : Z)
    : RetryDecision :=
  match status_code ≫= (fun code => classify_status code retry_count max_retries) with
  | Some d => d
  | None => classify_text error_message retry_count max_retries
  end.
End classify.

(** ** Waits *)

(** The doubling loses its bits before the shift is refused: the counts from
    61 to 64 have no wait at all. *)
Lemma base_ms_spec n : 0 <= n ->
  base_ms n =
    if n <=? 1 then 2000 else if n =? 2 then 4000 else if n =? 3 then 8000 else if n =? 4 then 16000
    else if n <=? 60 then 30000 else if n <=? 64 then 0 else 30000.
Proof.
  intros Hn. destruct (decide (n <= 64)) as [Hle|Hgt].
  - assert (forallb (fun k => let n := Z.of_nat k in base_ms n =?
      if n <=? 1 then 2000 else if n =? 2 then 4000 else if n =? 3 then 8000 else if n =? 4 then 16000
      else if n <=? 60 then 30000 else if n <=? 64 then 0 else 30000) (seq 0 65) = true) as H by by vm_compute.
    rewrite forallb_forall in H. specialize (H (Z.to_nat n)). rewrite Z2Nat.id in H by done.
    apply Z.eqb_eq, H, in_seq. lia.
  - unfold base_ms, sat_sub. rewrite Z.max_r, (proj2 (Z.ltb_ge (n - 1) 64)) by lia.
    repeat (case_match; zbool; try lia). by vm_compute.
Qed.

(** The wait before a retry is the doubled base within twenty per cent,
    at most 36 seconds, and at least 1.6 seconds except after 61 to 64
    retries, where the shift drops every bit and there is no wait. *)
Theorem backoff_exact hash n : 0 <= hash -> 0 <= n ->
  let base := base_ms n in
  base - base / 5 <= retry_backoff_with_jitter hash n <= base + base / 5 /\
  retry_backoff_with_jitter hash n <= 36000 /\
  (61 <= n <= 64 <-> retry_backoff_with_jitter hash n < 1600) /\
  (61 <= n <= 64 -> retry_backoff_with_jitter hash n = 0).
Proof.
  intros Hh Hn base. assert (base - base / 5 <= retry_backoff_with_jitter hash n <= base + base / 5) as Hb.
  { unfold retry_backoff_with_jitter. fold base. assert (0 <= base) as Hp.
    { unfold base. rewrite base_ms_spec by done. repeat case_match; lia. }
    pose proof (Z.div_pos base 5 Hp). pose proof (Z.mod_pos_bound hash (base / 5 * 2 + 1)). lia. }
  split; [done|]. revert Hb. unfold base. rewrite base_ms_spec by done.
  repeat (case_match; zbool); cbn; intros Hb; change (2000 / 5) with 400 in *; change (4000 / 5) with 800 in *;
    change (8000 / 5) with 1600 in *; change (16000 / 5) with 3200 in *; change (30000 / 5) with 6000 in *;
    change (0 / 5) with 0 in *; lia.
Qed.

(** ** Which errors are retried *)

(** No class but that of doom loops is retried past the limits: a run of
    retries within them ends. *)
Lemma retry_within_limit {SE : StrEnv} hash text status n max d :
  0 <= n < u32_max -> classify_sampler_error hash text status n max = d ->
  match d with
  | Retry _ => n + 1 < max
  | RetryWithBackoff _ _ => n = 0 /\ status = Some 429
  | RetryImmediate _ => True
  | Fatal _ => True
  end.
Proof.
  intros Hn <-. unfold classify_sampler_error, classify_status, classify_text, retry_until, RATE_LIMIT_RETRY_THRESHOLD.
  rewrite u32_add_small by (unfold u32_max in *; lia). destruct status as [code|]; cbn;
    repeat (case_match; zbool; simplify_eq; try done); try lia.
  split; [lia|]. by f_equal.
Qed.

Lemma backoff_exact_witness :
  retry_backoff_with_jitter 12345 61 = 0 /\ retry_backoff_with_jitter 12345 5 <= 36000.
Proof.
  destruct (backoff_exact 12345 61 ltac:(lia) ltac:(lia)) as (_ & _ & _ & H61).
  destruct (backoff_exact 12345 5 ltac:(lia) ltac:(lia)) as (_ & H5 & _). split; [apply H61; lia|exact H5].
Defined.
