(* ===== verification/Router.v ===== *)
(** * Choosing a provider

    [sampler/router.rs]: the providers with their models, fallbacks and rate
    limits, and the search for one that may take a request.  The clock is a
    function of the number of reads so far, and the iteration over the
    providers has any order ([HashIter]). *)

From S2P Require Import Prelude RustStr.
Local Open Scope Z_scope.

(** ** Rate limits *)

(** Nanoseconds. *)
Definition MINUTE : Z := 60000000000.

Record RateLimitState := mkLimit { max_requests_per_min : Z; request_count : Z; window_start : Z }.
Definition limit_new (max now : Z) : RateLimitState := mkLimit max 0 now.

Definition try_acquire (now : Z) (s : RateLimitState) : RateLimitState * bool :=
  let s := if MINUTE <? sat_sub now (window_start s) then mkLimit (max_requests_per_min s) 0 now else s in
  if request_count s <? max_requests_per_min s
  then (mkLimit (max_requests_per_min s) (u32_add (request_count s) 1) (window_start s), true)
  else (s, false).

(** ** Providers *)

Inductive ProviderKind := OpenAICompat | ClaudeCompat | Gemini.
Definition provider_kind (t : string) : ProviderKind :=
  if bool_decide (t ∈ ["claude"; "anthropic"]) then ClaudeCompat
  else if bool_decide (t ∈ ["gemini"; "google"]) then Gemini
  else OpenAICompat.

Record ProviderConfig := mkProvider {
  config_name : string; provider_type : string; config_models : list string; fallback : list string; config_limit : option Z
}.

Record ProviderEntry := mkEntry {
  kind : ProviderKind; models : list string; fallback_chain : list string; rate_limit : RateLimitState
}.
Definition with_limit (l : RateLimitState) (e : ProviderEntry) : ProviderEntry := mkEntry (kind e) (models e) (fallback_chain e) l.

Record ProviderRouter := mkRouter { providers : gmap string ProviderEntry; model_to_provider : gmap string string }.

Definition add_config (now : Z) (r : ProviderRouter) (c : ProviderConfig) : ProviderRouter :=
  mkRouter
    (<[config_name c := mkEntry (provider_kind (provider_type c)) (config_models c) (fallback c)
                          (limit_new (default 60 (config_limit c)) now)]> (providers r))
    (foldl (fun m model => <[model := config_name c]> m) (model_to_provider r) (config_models c)).
Definition from_configs (now : Z) (l : list ProviderConfig) : ProviderRouter := foldl (add_config now) (mkRouter ∅ ∅) l.

Definition provider_count (r : ProviderRouter) : nat := size (providers r).

(** ** The search *)

Section search.
Context {HI : HashIter string} (clock : nat -> Z).

Definition set_limit (n : string) (l : RateLimitState) (r : ProviderRouter) : ProviderRouter :=
  mkRouter (alter (with_limit l) n (providers r)) (model_to_provider r).

(** The first of the names that is registered and may take a request; [k]
    counts the reads of the clock. *)
Fixpoint first_free (l : list string) (k : nat) (r : ProviderRouter) : ProviderRouter * nat * option string :=
  match l with
  | [] => (r, k, None)
  | n :: l' =>
      match providers r !! n with
      | None => first_free l' k r
      | Some e =>
          let '(lim, ok) := try_acquire (clock k) (rate_limit e) in
          let r := set_limit n lim r in
          if ok then (r, S k, Some n) else first_free l' (S k) r
      end
  end.

Definition names_where (f : string -> ProviderEntry -> bool) (r : ProviderRouter) : list string :=
  (filter (fun p => f p.1 p.2 = true) (hiter (providers r))).*1.

(** [model.starts_with(m.split(':').next().unwrap_or(m))] *)
Definition prefix_match (model m : string) : bool := starts_with (hd m (split_char ":" m)) model.

Definition find_fallback_name (failed model : string) (k : nat) (r : ProviderRouter) : ProviderRouter * nat * option string :=
  let chain := default [] (fallback_chain <$> providers r !! failed) in
  match first_free chain k r with
  | (r, k, None) =>
      first_free (names_where (fun n e => negb (bool_decide (n = failed)) && bool_decide (model ∈ models e)) r) k r
  | found => found
  end.

Definition find_provider_name (model : string) (k : nat) (r : ProviderRouter) : ProviderRouter * nat * option string :=
  match n ← model_to_provider r !! model; e ← providers r !! n; Some (n, e) with
  | Some (n, e) =>
      let '(lim, ok) := try_acquire (clock k) (rate_limit e) in
      let r := set_limit n lim r in
      if ok then (r, S k, Some n) else find_fallback_name n model (S k) r
  | None => first_free (names_where (fun _ e => existsb (prefix_match model) (models e)) r) k r
  end.

Definition available_models (r : ProviderRouter) : list string :=
  sort_dedup (mjoin ((fun p => models p.2) <$> hiter (providers r))).
End search.

(** ** The limit over time *)

Definition run_limit (l : list Z) (s : RateLimitState) : RateLimitState * Z :=
  foldl (fun '(s, c) t => let '(s, ok) := try_acquire t s in (s, if ok then c + 1 else c)) (s, 0) l.

Lemma run_limit_inv t0 tend max l : 0 <= max <= u32_max -> t0 <= tend -> Forall (fun t => t <= tend) l ->
  let '(s, c) := run_limit l (limit_new max t0) in
  max_requests_per_min s = max /\ window_start s <= tend /\ 0 <= request_count s <= max /\
  exists n, 0 <= n /\ n * MINUTE <= window_start s - t0 /\ c <= max * n + request_count s.
Proof.
  intros Hm Ht. unfold run_limit. induction l as [|t l IH] using rev_ind; intros Hl.
  { cbn. split_and!; try lia. exists 0. lia. }
  apply Forall_app in Hl as [Hl [Hx _]%Forall_cons]. rewrite foldl_app. specialize (IH Hl).
  destruct (foldl _ _ l) as [s c]. destruct IH as (H1 & H2 & H3 & n & Hn1 & Hn2 & Hn3).
  cbn [foldl]. unfold try_acquire. rewrite H1. assert (MINUTE = 60000000000) as HM by done.
  destruct (MINUTE <? sat_sub t (window_start s)) eqn:E; zbool; cbn [request_count max_requests_per_min window_start].
  - unfold sat_sub in E. destruct (0 <? max) eqn:Em; zbool; cbn -[u32_add].
    + rewrite u32_add_small by lia. split_and!; try lia. exists (n + 1). lia.
    + split_and!; try lia. exists (n + 1). lia.
  - rewrite H1. destruct (request_count s <? max) eqn:Em; zbool; cbn -[u32_add].
    + rewrite u32_add_small by (unfold u32_max in *; lia). split_and!; try lia. exists n. lia.
    + split_and!; try lia. exists n. lia.
Qed.

(** A provider's limit holds per window: whatever the times of the
    requests up to [tend], it lets through at most its number once at the start
    and once for each minute since. *)
Theorem rate_limit_bound t0 tend max l :
  0 <= max <= u32_max -> t0 <= tend -> Forall (fun t => t <= tend) l ->
  (run_limit l (limit_new max t0)).2 <= max * (1 + (tend - t0) / MINUTE).
Proof.
  intros Hm Ht Hl. pose proof (run_limit_inv t0 tend max l Hm Ht Hl) as H. destruct (run_limit l _) as [s c].
  destruct H as (H1 & H2 & H3 & n & Hn1 & Hn2 & Hn3). cbn.
  assert (n <= (tend - t0) / MINUTE) by (apply Z.div_le_lower_bound; unfold MINUTE in *; lia). nia.
Qed.

(** ** What the search finds *)

Definition limits_positive (r : ProviderRouter) : Prop :=
  forall n e, providers r !! n = Some e -> 0 < max_requests_per_min (rate_limit e).

(** A refused request changes nothing. *)
Lemma refused_unchanged now s s' : 0 < max_requests_per_min s -> try_acquire now s = (s', false) -> s' = s.
Proof.
  intros Hm. unfold try_acquire. destruct (MINUTE <? _); cbn.
  - by rewrite (proj2 (Z.ltb_lt _ _) Hm).
  - destruct (request_count s <? _); congruence.
Qed.

Lemma set_limit_same n e r : providers r !! n = Some e -> set_limit n (rate_limit e) r = r.
Proof.
  intros H. unfold set_limit. destruct r as [ps ms]. cbn in *. f_equal. apply map_eq. intros m.
  destruct (decide (n = m)) as [<-|Hne]; [|by rewrite lookup_alter_ne]. rewrite lookup_alter_eq, H. cbn. f_equal. by destruct e.
Qed.

Section searched.
Context {HI : HashIter string} (clock : nat -> Z).

Definition refuses (k k' : nat) (e : ProviderEntry) : Prop :=
  exists i, (k <= i < k')%nat /\ (try_acquire (clock i) (rate_limit e)).2 = false.

(** [found r l k x]: the answer [x] to a search through the names [l] from
    read [k] of the clock. *)
Definition found (r : ProviderRouter) (l : list string) (k : nat) (x : ProviderRouter * nat * option string) : Prop :=
  let '(r', k', o) := x in
  (k <= k')%nat /\
  match o with
  | Some n => exists e i lim, n ∈ l /\ providers r !! n = Some e /\
      try_acquire (clock i) (rate_limit e) = (lim, true) /\ r' = set_limit n lim r
  | None => r' = r /\ forall n e, n ∈ l -> providers r !! n = Some e -> refuses k k' e
  end.

Lemma found_nil r k : found r [] k (r, k, None).
Proof. split; [done|]. split; [done|]. by intros n e ?%not_elem_of_nil. Qed.

(** Trying one name before the others. *)
Lemma found_cons r n e l k (next : nat -> ProviderRouter -> ProviderRouter * nat * option string) :
  limits_positive r -> providers r !! n = Some e -> found r l (S k) (next (S k) r) ->
  found r (n :: l) k (let '(lim, ok) := try_acquire (clock k) (rate_limit e) in
                      if ok then (set_limit n lim r, S k, Some n) else next (S k) (set_limit n lim r)).
Proof.
  intros Hp He Hn. destruct (try_acquire (clock k) (rate_limit e)) as [lim [|]] eqn:E.
  { split; [lia|]. exists e, k, lim. split_and!; [left|done..]. }
  rewrite (refused_unchanged _ _ _ (Hp n e He) E), (set_limit_same n e r He). revert Hn. unfold found.
  destruct (next (S k) r) as [[r' k'] [m|]]; intros [Hk H]; (split; [lia|]).
  - destruct H as (e' & i & lim' & Hm & H). exists e', i, lim'. split; [by right|done].
  - destruct H as [-> H]. split; [done|]. intros m e' [->|Hm]%elem_of_cons He'.
    + exists k. simplify_eq. rewrite E. split; [lia|done].
    + destruct (H m e' Hm He') as (i & Hi & Hf). exists i. split; [lia|done].
Qed.

Lemma found_skip r n l k x : providers r !! n = None -> found r l k x -> found r (n :: l) k x.
Proof.
  intros Hn. destruct x as [[r' k'] [m|]]; intros [Hk H]; (split; [done|]).
  - destruct H as (e & i & lim & Hm & H). exists e, i, lim. split; [by right|done].
  - destruct H as [-> H]. split; [done|]. intros m e [->|Hm]%elem_of_cons He; [congruence|]. eauto.
Qed.

Lemma first_free_found l k r : limits_positive r -> found r l k (first_free clock l k r).
Proof.
  intros Hp. revert k. induction l as [|n l IH]; intros k; cbn [first_free]; [apply found_nil|].
  destruct (providers r !! n) as [e|] eqn:En; [|by apply found_skip].
  apply (found_cons r n e l k (fun k r => first_free clock l k r)); auto.
Qed.

Lemma elem_names_where f r n : n ∈ names_where f r <-> exists e, providers r !! n = Some e /\ f n e = true.
Proof.
  unfold names_where. rewrite list_elem_of_fmap. split.
  - intros ([m e] & -> & [Hf Hm]%list_elem_of_filter). apply elem_of_hiter in Hm. eauto.
  - intros (e & He & Hf). exists (n, e). split; [done|]. apply list_elem_of_filter. split; [done|]. by apply elem_of_hiter.
Qed.

Lemma found_app r l l' k x (next : nat -> ProviderRouter -> ProviderRouter * nat * option string) :
  found r l k x -> (forall k', found r l' k' (next k' r)) ->
  found r (l ++ l') k (let '(r', k', o) := x in match o with None => next k' r' | Some n => (r', k', Some n) end).
Proof.
  intros H Hn. destruct x as [[r1 k1] [n|]]; destruct H as [Hk H].
  - split; [done|]. destruct H as (e & i & lim & Hm & H). exists e, i, lim. split; [by apply elem_of_app; left|done].
  - destruct H as [-> H]. specialize (Hn k1). unfold found in *. destruct (next k1 r) as [[r' k'] [m|]];
      destruct Hn as [Hk' Hn]; (split; [lia|]).
    + destruct Hn as (e & i & lim & Hm & Hn). exists e, i, lim. split; [by apply elem_of_app; right|done].
    + destruct Hn as [-> Hn]. split; [done|]. intros m e [Hm|Hm]%elem_of_app He.
      * destruct (H m e Hm He) as (i & Hi & Hf). exists i. split; [lia|done].
      * destruct (Hn m e Hm He) as (i & Hi & Hf). exists i. split; [lia|done].
Qed.

(** The providers a request for a model may go to: the one the model belongs
    to, its fallbacks and the others that list the model; or, for a model that
    belongs to none, those with a listed prefix. *)
Definition tried (r : ProviderRouter) (model : string) : list string :=
  match n ← model_to_provider r !! model; e ← providers r !! n; Some (n, e) with
  | Some (n, e) =>
      n :: fallback_chain e ++ names_where (fun m e => negb (bool_decide (m = n)) && bool_decide (model ∈ models e)) r
  | None => names_where (fun _ e => existsb (prefix_match model) (models e)) r
  end.

(** With positive limits, the search gives a provider that may take the
    request, uses up exactly one request of its limit and changes nothing else;
    it gives none only when every provider for the model refuses, and then
    changes nothing. *)
Theorem find_provider_exact model k r :
  limits_positive r -> found r (tried r model) k (find_provider_name clock model k r).
Proof.
  intros Hp. unfold find_provider_name, tried. destruct (n ← model_to_provider r !! model; _) as [[n e]|] eqn:E.
  2:{ by apply first_free_found. }
  assert (providers r !! n = Some e) as He.
  { destruct (model_to_provider r !! model) as [m|]; [|done]. cbn in E. destruct (providers r !! m) eqn:Em; [|done]. cbn in E.
    injection E as -> ->. done. }
  apply (found_cons r n e _ k (fun k r => find_fallback_name clock n model k r)); [done|done|].
  unfold find_fallback_name. rewrite He. cbn [fmap option_fmap option_map default from_option id].
  set (f := fun m e => negb (bool_decide (m = n)) && bool_decide (model ∈ models e)).
  pose proof (found_app r _ (names_where f r) _ _ (fun k r => first_free clock (names_where f r) k r)
    (first_free_found (fallback_chain e) (S k) r Hp) (fun k' => first_free_found _ k' r Hp)) as H.
  revert H. by destruct (first_free clock (fallback_chain e) (S k) r) as [[r1 k1] [m|]].
Qed.
End searched.

Lemma foldl_limits now l r : Forall (fun c => 0 < default 60 (config_limit c)) l -> limits_positive r ->
  limits_positive (foldl (add_config now) r l).
Proof.
  revert r. induction l as [|c l IH]; intros r Hl Hr; [done|]. apply Forall_cons in Hl as [Hc Hl]. cbn [foldl].
  apply IH; [done|]. intros n e. cbn [add_config providers]. destruct (decide (config_name c = n)) as [<-|Hne].
  - rewrite lookup_insert_eq. by intros [= <-].
  - rewrite lookup_insert_ne by done. apply Hr.
Qed.

(** The limits of a configuration without a limit of zero are positive. *)
Lemma from_configs_positive now l : Forall (fun c => 0 < default 60 (config_limit c)) l -> limits_positive (from_configs now l).
Proof. intros H. apply foldl_limits; [done|]. intros n e. cbn [providers]. by rewrite lookup_empty. Qed.

(** ** Witnesses *)

Definition demo_configs : list ProviderConfig :=
  [mkProvider "main" "openai" ["gpt-4"] ["spare"] (Some 1); mkProvider "spare" "claude" ["claude-3"] [] None].

(** The second request of the minute goes to the fallback, which does not list
    the model. *)
Lemma find_provider_exact_witness :
  let clock := fun _ => 0 in
  let r := from_configs 0 demo_configs in
  let r1 := (find_provider_name (HI := gmap_iter string) clock "gpt-4" 0 r).1.1 in
  (find_provider_name (HI := gmap_iter string) clock "gpt-4" 0 r).2 = Some "main" /\
  (find_provider_name (HI := gmap_iter string) clock "gpt-4" 1 r1).2 = Some "spare" /\
  found clock r (tried (HI := gmap_iter string) r "gpt-4") 0 (find_provider_name (HI := gmap_iter string) clock "gpt-4" 0 r).
Proof.
  split; [by vm_compute|]. split; [by vm_compute|]. apply (find_provider_exact (HI := gmap_iter string)).
  apply from_configs_positive. repeat constructor.
Defined.

(** Requests at the end of one window and at the start of the next: twice the
    limit within a second. *)
Lemma rate_limit_bound_witness :
  let l := [MINUTE; MINUTE; MINUTE + 1; MINUTE + 1] in
  (run_limit l (limit_new 2 0)).2 = 4 /\ (run_limit l (limit_new 2 0)).2 <= 2 * (1 + (MINUTE + 1 - 0) / MINUTE).
Proof.
  cbn zeta. split; [by vm_compute|]. apply (rate_limit_bound 0 (MINUTE + 1) 2).
  - unfold u32_max. lia.
  - unfold MINUTE. lia.
  - repeat constructor; unfold MINUTE; lia.
Defined.
