(* ===== verification/SamplerNode.v ===== *)
(** * The sampler node

    [node/sampler.rs]: a sampling request is sent to a provider and, when that
    fails, to one fallback; the stream of the answer is passed on to the bus;
    errors are classified and retried.  What the providers answer, which sends
    of the transport succeed and the JSON parser are arguments; a send is one
    delivery, on the data plane or, when that fails, on the control plane.

    - A provider that fails is never retried: the error that is classified is
      not the provider's.
    - A stream that breaks off is reported as an error and then as completed.
    - A request to cancel never finds anything to cancel, since the node takes
      it up only after the request has ended. *)

From S2P Require Import Prelude RustStr Permission TextLines TextFind CompactSummary F64 Json SamplerRetry Router.
Local Open Scope Z_scope.

Record TokenUsage := mkUsage { prompt_tokens : Z; completion_tokens : Z; total_tokens : Z }.
Inductive StreamChannel := TextChannel | Reasoning | ToolCallChannel.
Record ToolCallChunk := mkToolCall { call_id : string; call_tool : string; arguments : string }.
Record StreamChunk := mkChunk {
  chunk_request : string; channel : StreamChannel; content : string; tool_call : option ToolCallChunk; usage : option TokenUsage
}.

Record SampleRequest := mkSample { request_id : string; model : string; goal_verify : bool }.

Inductive SamplerEvent :=
| Started (id model : string)
| TextDelta (id delta : string)
| ThinkingDelta (id delta : string)
| ToolCallStart (id call tool : string)
| ToolCallDelta (id call delta : string)
| ToolCallEnd (id call : string)
| Completed (id : string) (u : TokenUsage)
| Error (id error : string)
| Cancelled (id : string).

(** What the node sends. *)
Inductive Out :=
| Event (e : SamplerEvent)
| Chunk (c : StreamChunk)
| StreamFailure (id error : string)
| DoneMsg (id : string) (u : TokenUsage)
| CancelledMsg (id : string)
| FatalMsg (id error : string) (retry_count : Z)
| GoalVerifyResult (passed : bool) (reasoning : string).

(** [clocks], [calls] and [sends] count the reads of the clock, the calls of
    providers and the deliveries so far. *)
Record SamplerNode := mkSampler {
  router : ProviderRouter; max_retries : Z; cancel_handles : gmap string bool;
  clocks : nat; calls : nat; sends : nat; outbox : list Out
}.
Definition sampler_new (r : ProviderRouter) (max : Z) : SamplerNode := mkSampler r max ∅ 0 0 0 [].

Definition with_router (r : ProviderRouter) (k : nat) (n : SamplerNode) : SamplerNode :=
  mkSampler r (max_retries n) (cancel_handles n) k (calls n) (sends n) (outbox n).
Definition with_handles (f : gmap string bool -> gmap string bool) (n : SamplerNode) : SamplerNode :=
  mkSampler (router n) (max_retries n) (f (cancel_handles n)) (clocks n) (calls n) (sends n) (outbox n).
Definition count_call (n : SamplerNode) : SamplerNode :=
  mkSampler (router n) (max_retries n) (cancel_handles n) (clocks n) (S (calls n)) (sends n) (outbox n).

(** The code in the message of an error, if it is one of HTTP. *)
Definition extract_status_code {SE : StrEnv} (error_message : string) : option Z :=
  let msg := to_lowercase error_message in
  let code prefix :=
    pos ← find_str prefix msg;
    c ← parse_u16 (leading_digits (str_drop (pos + String.length prefix) msg));
    if (400 <=? c) && (c <? 600) then Some c else None in
  match code "http " with Some c => Some c | None => code "status " end.

Section node.
Context {SE : StrEnv} {HI : HashIter string}.
Context (clock : nat -> Z) (hash : Z) (json : string -> option Value).
Context (provider_stream : nat -> string -> SampleRequest -> result string (list (result string StreamChunk))).
Context (sent : nat -> bool).

Definition deliver (o : Out) (n : SamplerNode) : SamplerNode * bool :=
  (mkSampler (router n) (max_retries n) (cancel_handles n) (clocks n) (calls n) (S (sends n))
     (if sent (sends n) then outbox n ++ [o] else outbox n), sent (sends n)).
Definition emit_event (e : SamplerEvent) (n : SamplerNode) : SamplerNode := (deliver (Event e) n).1.

Definition no_provider (m : string) : string := "未找到模型 " +:+ m +:+ " 的可用 Provider".

Definition call_provider (name : string) (req : SampleRequest) (n : SamplerNode)
    : SamplerNode * result string (list (result string StreamChunk)) :=
  (count_call n, provider_stream (calls n) name req).

Definition try_stream_with_fallback (req : SampleRequest) (n : SamplerNode)
    : SamplerNode * result string (list (result string StreamChunk) * string) :=
  let '(r, k, o) := find_provider_name clock (model req) (clocks n) (router n) in
  let n := with_router r k n in
  match o with
  | None => (n, Err (no_provider (model req)))
  | Some name =>
      let '(n, answer) := call_provider name req n in
      match answer with
      | Ok stream => (n, Ok (stream, name))
      | Err _ =>
          let '(r, k, o) := find_fallback_name clock name (model req) (clocks n) (router n) in
          let n := with_router r k n in
          match o with
          | None => (n, Err (no_provider (model req)))
          | Some fb =>
              let '(n, answer) := call_provider fb req n in
              match answer with
              | Ok stream => (n, Ok (stream, fb))
              | Err _ => (n, Err (no_provider (model req)))
              end
          end
      end
  end.

Definition add_usage (acc : TokenUsage) (u : option TokenUsage) : TokenUsage :=
  match u with
  | None => acc
  | Some u =>
      let p := Z.max (prompt_tokens acc) (prompt_tokens u) in
      let c := if 0 <? completion_tokens u then Z.max (completion_tokens acc) (completion_tokens u) else completion_tokens acc in
      mkUsage p c (u32_add p c)
  end.

Definition transport_error : string := "transport".

(** The loop of [stream_to_bus]: the usage and the text so far. *)
Fixpoint stream_loop (id : string) (collect : bool) (stream : list (result string StreamChunk)) (u : TokenUsage)
    (text : string) (n : SamplerNode) : SamplerNode * result string (TokenUsage * string) :=
  match stream with
  | [] => (n, Ok (u, text))
  | item :: rest =>
      if default false (cancel_handles n !! id) then (emit_event (Cancelled id) n, Ok (u, text))
      else
        match item with
        | Ok c =>
            let u := add_usage u (usage c) in
            let text := if collect then match channel c with TextChannel => text +:+ content c | _ => text end else text in
            let '(n, ok) := deliver (Chunk c) n in
            if ok then stream_loop id collect rest u text n else (n, Err transport_error)
        | Err e =>
            let n := emit_event (Error id e) n in
            let '(n, ok) := deliver (StreamFailure id e) n in
            if ok then (n, Ok (u, text)) else (n, Err transport_error)
        end
  end.

Definition stream_to_bus (id : string) (stream : list (result string StreamChunk)) (collect : bool) (n : SamplerNode)
    : SamplerNode * result string (TokenUsage * string) :=
  match stream_loop id collect stream (mkUsage 0 0 0) "" n with
  | (n, Err e) => (n, Err e)
  | (n, Ok (u, text)) =>
      let '(n, ok) := deliver (DoneMsg id u) n in
      if ok then (with_handles (delete id) (emit_event (Completed id u) n), Ok (u, text)) else (n, Err transport_error)
  end.

Definition dq : string := str1 "034"%char.

Definition passed_field (text : string) : option bool := v ← json text; p ← vget v "passed"; as_bool p.

(** The last two answers of the source, for texts that say no and for texts
    that say nothing, are the same. *)
Definition parse_goal_verify_json (text : string) : bool :=
  match passed_field text with
  | Some p => p
  | None =>
      match start ← find_str "{" text; stop ← rfind_str "}" text;
            if (start <? stop)%nat then passed_field (slice text start (S stop)) else None with
      | Some p => p
      | None =>
          let lower := to_lowercase text in
          str_contains (dq +:+ "passed" +:+ dq +:+ ": true") lower || str_contains "已通过" lower
          || str_contains "验证通过" lower
      end
  end.

Definition send_goal_verify_result (text : string) (n : SamplerNode) : SamplerNode :=
  (deliver (GoalVerifyResult (parse_goal_verify_json text) (chars_take 200 text)) n).1.

(** The loop of [handle_sample_request]: [None] when the fuel runs out. *)
Fixpoint sample_loop (fuel : nat) (req : SampleRequest) (retry_count : Z) (n : SamplerNode)
    : option (SamplerNode * result string unit) :=
  match fuel with
  | O => None
  | S f =>
      let '(n, answer) := try_stream_with_fallback req n in
      match answer with
      | Ok (stream, _) =>
          let '(n, res) := stream_to_bus (request_id req) stream (goal_verify req) n in
          Some match res with
               | Ok (_, text) => (if goal_verify req then send_goal_verify_result text n else n, Ok tt)
               | Err e => (n, Err e)
               end
      | Err e =>
          match classify_sampler_error hash e (extract_status_code e) retry_count (max_retries n) with
          | Fatal reason =>
              let n := emit_event (Error (request_id req) reason) n in
              let '(n, ok) := deliver (FatalMsg (request_id req) e retry_count) n in
              Some (if ok then (with_handles (delete (request_id req)) n, Err e) else (n, Err transport_error))
          | _ => sample_loop f req (u32_add retry_count 1) n
          end
      end
  end.

Definition handle_sample_request (fuel : nat) (req : SampleRequest) (n : SamplerNode)
    : option (SamplerNode * result string unit) :=
  let n := with_handles <[request_id req := false]> n in
  sample_loop fuel req 0 (emit_event (Started (request_id req) (model req)) n).

Definition cancel_request (id : string) (n : SamplerNode) : SamplerNode * result string unit :=
  match cancel_handles n !! id with
  | None => (n, Ok tt)
  | Some _ =>
      let n := with_handles <[id := true]> n in
      let '(n, ok) := deliver (CancelledMsg id) n in
      if ok then (with_handles (delete id) (emit_event (Cancelled id) n), Ok tt) else (n, Err transport_error)
  end.

(** [sampler/{id}/cancel] *)
Definition cancel_topic (topic : string) : option string :=
  if starts_with "sampler/" topic && ends_with "/cancel" topic then
    let trimmed := str_drop 8 topic in
    let id := if ends_with "/cancel" trimmed then str_take (String.length trimmed - 7) trimmed else "" in
    if bool_decide (id = "") then None else Some id
  else None.

(** A message: its topic and, for a request, the payload ([None] when it does
    not decode). *)
Definition handle_message (fuel : nat) (msg : string * option SampleRequest) (n : SamplerNode)
    : option (SamplerNode * result string unit) :=
  if bool_decide (msg.1 = "sampler/request") then
    match msg.2 with
    | None => Some (n, Err "decode")
    | Some req => handle_sample_request fuel req n
    end
  else
    Some match cancel_topic msg.1 with
         | Some id => cancel_request id n
         | None => (n, Ok tt)
         end.

(** The node's loop takes one message at a time; a handler's error is logged. *)
Fixpoint run_node (fuel : nat) (l : list (string * option SampleRequest)) (n : SamplerNode) : option SamplerNode :=
  match l with
  | [] => Some n
  | msg :: l' => '(n, _) ← handle_message fuel msg n; run_node fuel l' n
  end.
End node.

(** ** What a request leaves behind *)

Section facts.
Context {SE : StrEnv} {HI : HashIter string}.
Context (clock : nat -> Z) (hash : Z) (json : string -> option Value).
Context (provider_stream : nat -> string -> SampleRequest -> result string (list (result string StreamChunk))).
Context (sent : nat -> bool).

(** The error of a request whose providers fail names the model only: it has
    no status, and no word of it makes the classification retry. *)
Definition quiet (m : string) : bool :=
  let low := to_lowercase (no_provider m) in
  bool_decide (extract_status_code (no_provider m) = None) &&
  negb (str_contains "timeout" low || str_contains "connection" low || str_contains "empty response" low
        || str_contains "no content" low || str_contains "doom loop" low || str_contains "loop detected" low).

Lemma quiet_fatal m rc max : quiet m = true ->
  exists reason, classify_sampler_error hash (no_provider m) (extract_status_code (no_provider m)) rc max = Fatal reason.
Proof.
  unfold quiet, classify_sampler_error, classify_text. intros [He Hw]%andb_true_iff. zbool. rewrite He. cbn [mbind option_bind].
  apply negb_true_iff in Hw. rewrite !orb_false_iff in Hw. destruct Hw as (((((-> & ->) & ->) & ->) & ->) & ->).
  cbn [orb]. destruct (_ && _); eauto.
Qed.

Lemma stream_loop_calls id collect stream u text n :
  calls (stream_loop sent id collect stream u text n).1 = calls n.
Proof.
  revert u text n. induction stream as [|[c|e] rest IH]; intros u text n; cbn [stream_loop]; [done|..].
  - destruct (default false _); [done|]. unfold deliver. destruct (sent (sends n)); [|done]. by rewrite IH.
  - destruct (default false _); [done|]. unfold deliver. by destruct (sent (sends (emit_event _ _ _))).
Qed.

Lemma stream_to_bus_calls id stream collect n : calls (stream_to_bus sent id stream collect n).1 = calls n.
Proof.
  unfold stream_to_bus. pose proof (stream_loop_calls id collect stream (mkUsage 0 0 0) "" n) as H.
  destruct (stream_loop _ _ _ _ _ _ _) as [n' [[u text]|e]]; cbn in *; [|done]. by destruct (sent _).
Qed.

Lemma try_stream_spec req n :
  let '(n', res) := try_stream_with_fallback clock provider_stream req n in
  (calls n <= calls n' <= calls n + 2)%nat /\ cancel_handles n' = cancel_handles n /\ outbox n' = outbox n /\
  max_retries n' = max_retries n /\ sends n' = sends n /\
  match res with
  | Ok (stream, name) => exists k, provider_stream k name req = Ok stream
  | Err e => e = no_provider (model req)
  end.
Proof.
  unfold try_stream_with_fallback, call_provider.
  destruct (find_provider_name _ _ _ _) as [[r k] [name|]]; cbn; [|split_and!; done || lia].
  destruct (provider_stream (calls n) name req) eqn:E1; cbn; [split_and!; eauto; lia|].
  destruct (find_fallback_name _ _ _ _ _) as [[r' k'] [fb|]]; cbn; [|split_and!; done || lia].
  destruct (provider_stream (S (calls n)) fb req) eqn:E2; cbn; split_and!; eauto; lia.
Qed.

(** C27.  A sampling request ends after one round: at most two providers are
    called, and whatever their errors say, none is called again; the retries
    and their waits are not used.  The name of the model must not contain one of
    the words, or a status code, that the classification looks for. *)
Theorem provider_errors_not_retried fuel req n :
  quiet (model req) = true ->
  exists n' res, handle_sample_request clock hash json provider_stream sent (S fuel) req n = Some (n', res) /\
    (calls n <= calls n' <= calls n + 2)%nat /\
    ((forall k p, is_ok (provider_stream k p req) = false) -> res <> Ok tt).
Proof.
  intros Hq. unfold handle_sample_request. set (n1 := emit_event _ _ _). assert (calls n = calls n1) as -> by done. clearbody n1.
  cbn [sample_loop]. pose proof (try_stream_spec req n1) as H.
  destruct (try_stream_with_fallback _ _ _ _) as [n2 [[stream name]|e]]; destruct H as (Hc & _ & _ & _ & _ & Hr).
  - destruct Hr as [k Hk]. pose proof (stream_to_bus_calls (request_id req) stream (goal_verify req) n2) as Hs.
    destruct (stream_to_bus _ _ _ _ _) as [n3 res]. cbn in Hs.
    assert ((forall k p, is_ok (provider_stream k p req) = false) -> forall r : result string unit, r <> Ok tt) as Hno.
    { intros Hf. specialize (Hf k name). by rewrite Hk in Hf. }
    destruct res as [[u text]|e]; (eexists _, _; split; [reflexivity|]; split; [|auto]).
    + destruct (goal_verify req); cbn; lia.
    + lia.
  - subst e. destruct (quiet_fatal (model req) 0 (max_retries n2) Hq) as [reason ->]. unfold deliver.
    destruct (sent _); (eexists _, _; split; [reflexivity|]; split; [cbn; lia|done]).
Qed.
End facts.

(** ** When every send succeeds *)

Section reliable.
Context {SE : StrEnv} {HI : HashIter string}.
Context (clock : nat -> Z) (hash : Z) (json : string -> option Value).
Context (provider_stream : nat -> string -> SampleRequest -> result string (list (result string StreamChunk))).

Definition always (k : nat) : bool := true.

Definition usage_of (cs : list StreamChunk) : TokenUsage := foldl (fun u c => add_usage u (usage c)) (mkUsage 0 0 0) cs.

Definition failure (id : string) (err : option string) : list Out :=
  match err with Some e => [Event (Error id e); StreamFailure id e] | None => [] end.

Lemma stream_loop_exact id collect cs err rest u text n :
  default false (cancel_handles n !! id) = false ->
  let '(n', res) := stream_loop always id collect ((Ok <$> cs) ++ match err with Some e => Err e :: rest | None => [] end) u text n in
  cancel_handles n' = cancel_handles n /\ outbox n' = outbox n ++ (Chunk <$> cs) ++ failure id err /\
  exists text', res = Ok (foldl (fun u c => add_usage u (usage c)) u cs, text').
Proof.
  revert u text n. induction cs as [|c cs IH]; intros u text n Hc.
  - destruct err as [e|]; cbn [fmap list_fmap app stream_loop]; [rewrite Hc|]; cbn; split_and!; eauto.
    + by rewrite <- app_assoc.
    + by rewrite app_nil_r.
  - cbn [fmap list_fmap app stream_loop]. rewrite Hc. cbn [deliver always].
    match goal with |- context [stream_loop _ _ _ _ ?u ?t ?n] => specialize (IH u t n Hc) end.
    destruct (stream_loop _ _ _ _ _ _ _) as [n' res]. destruct IH as (H1 & H2 & H3). cbn in H1, H2.
    rewrite <- app_assoc in H2. split_and!; done.
Qed.

(** A stream of an answer is passed on chunk by chunk up to its first
    error, with the counts of tokens taken over from the chunks; it always ends
    with the message that it is done and the event that it is completed, also
    when it broke off with an error. *)
Theorem stream_exact id cs err rest collect n :
  default false (cancel_handles n !! id) = false ->
  let '(n', res) := stream_to_bus always id ((Ok <$> cs) ++ match err with Some e => Err e :: rest | None => [] end) collect n in
  outbox n' = outbox n ++ (Chunk <$> cs) ++ failure id err ++ [DoneMsg id (usage_of cs); Event (Completed id (usage_of cs))] /\
  cancel_handles n' = delete id (cancel_handles n) /\ exists text, res = Ok (usage_of cs, text).
Proof.
  intros Hc. unfold stream_to_bus. pose proof (stream_loop_exact id collect cs err rest (mkUsage 0 0 0) "" n Hc) as H.
  destruct (stream_loop _ _ _ _ _ _ _) as [n' res]. destruct H as (H1 & H2 & text & ->). cbn. rewrite H1, H2.
  split_and!; [|done|eauto]. unfold usage_of. by rewrite <- !app_assoc.
Qed.

(** Every stream has that form. *)
Lemma stream_form (stream : list (result string StreamChunk)) :
  exists cs err rest, stream = (Ok <$> cs) ++ match err with Some e => Err e :: rest | None => [] end.
Proof.
  induction stream as [|[c|e] stream (cs & err & rest & ->)].
  - by exists [], None, [].
  - by exists (c :: cs), err, rest.
  - by exists [], (Some e), ((Ok <$> cs) ++ match err with Some e => Err e :: rest | None => [] end).
Qed.

Definition cancels (o : Out) : bool := match o with CancelledMsg _ | Event (Cancelled _) => true | _ => false end.
Definition cancelled (n : SamplerNode) : list Out := filter (fun o => cancels o = true) (outbox n).

Lemma filter_none (l : list Out) : Forall (fun o => cancels o = false) l -> filter (fun o => cancels o = true) l = [].
Proof.
  induction 1 as [|o l Ho _ IH]; [done|]. rewrite filter_cons_False by (by rewrite Ho). done.
Qed.

Lemma cancelled_app n n' l : outbox n' = outbox n ++ l -> Forall (fun o => cancels o = false) l -> cancelled n' = cancelled n.
Proof. intros H Hl. unfold cancelled. by rewrite H, filter_app, (filter_none l Hl), app_nil_r. Qed.

Lemma answer_handles id stream collect n :
  cancel_handles n = {[id := false]} ->
  exists n' u text, stream_to_bus always id stream collect n = (n', Ok (u, text)) /\
    cancel_handles n' = ∅ /\ cancelled n' = cancelled n.
Proof.
  intros Hc. destruct (stream_form stream) as (cs & err & rest & ->).
  pose proof (stream_exact id cs err rest collect n) as H. rewrite Hc, lookup_singleton_eq in H. specialize (H eq_refl).
  destruct (stream_to_bus _ _ _ _ _) as [n' res]. destruct H as (H1 & H2 & text & ->). exists n', (usage_of cs), text.
  split; [done|]. split; [by rewrite H2, delete_singleton_eq|]. eapply cancelled_app; [done|].
  rewrite !Forall_app, Forall_fmap. split_and!; [by apply Forall_true|by destruct err; repeat constructor|repeat constructor].
Qed.

Lemma request_handles fuel req n : quiet (model req) = true -> cancel_handles n = ∅ ->
  exists n' res, handle_sample_request clock hash json provider_stream always (S fuel) req n = Some (n', res) /\
    cancel_handles n' = ∅ /\ cancelled n' = cancelled n.
Proof.
  intros Hq Hn. unfold handle_sample_request. set (n1 := emit_event _ _ _).
  assert (cancel_handles n1 = {[request_id req := false]}) as H1 by (cbn; by rewrite Hn).
  assert (cancelled n1 = cancelled n) as H2 by (by eapply cancelled_app; [done|repeat constructor]). clearbody n1.
  cbn [sample_loop]. pose proof (try_stream_spec clock provider_stream req n1) as H.
  destruct (try_stream_with_fallback _ _ _ _) as [n2 [[stream name]|e]]; destruct H as (_ & Hh & Ho & _ & _ & Hr).
  - destruct (answer_handles (request_id req) stream (goal_verify req) n2) as (n3 & u & text & -> & H3 & H4).
    { by rewrite Hh. }
    assert (cancelled n3 = cancelled n) as H5 by (rewrite H4, <- H2; unfold cancelled; by rewrite Ho).
    destruct (goal_verify req); (eexists _, _; split; [reflexivity|]; split; [done|]); [|done].
    rewrite <- H5. by eapply cancelled_app; [done|repeat constructor].
  - subst e. destruct (quiet_fatal hash (model req) 0 (max_retries n2) Hq) as [reason ->].
    eexists _, _. split; [reflexivity|]. split; [cbn; by rewrite Hh, H1, delete_singleton_eq|].
    rewrite <- H2. eapply cancelled_app; [cbn; by rewrite Ho, <- app_assoc|repeat constructor].
Qed.

(** Whatever requests and cancellations arrive, in whatever order, the node
    handles them all and no cancellation has an effect: when one is taken up,
    the request it names has ended. *)
Theorem cancel_finds_nothing fuel l n :
  Forall (fun msg => from_option (fun req => quiet (model req)) true (snd msg) = true) l -> cancel_handles n = ∅ ->
  exists n', run_node clock hash json provider_stream always (S fuel) l n = Some n' /\
    cancel_handles n' = ∅ /\ cancelled n' = cancelled n.
Proof.
  revert n. induction l as [|msg l IH]; intros n Hl Hn; [by exists n|]. apply Forall_cons in Hl as [Hm Hl].
  assert (exists n1 res, handle_message clock hash json provider_stream always (S fuel) msg n = Some (n1, res) /\
    cancel_handles n1 = ∅ /\ cancelled n1 = cancelled n) as (n1 & res & H & H1 & H2).
  { unfold handle_message. destruct (bool_decide (msg.1 = "sampler/request")).
    - destruct (msg.2) as [req|]; [by apply request_handles|by eexists _, _].
    - unfold cancel_request. rewrite Hn. destruct (cancel_topic msg.1); [rewrite lookup_empty|]; by eexists _, _. }
  cbn [run_node]. rewrite H. cbn [mbind option_bind]. destruct (IH n1 Hl H1) as (n' & -> & H3 & H4).
  exists n'. split_and!; congruence.
Qed.
End reliable.

(** ** Witnesses *)

Definition demo_router : ProviderRouter := from_configs 0 demo_configs.
Definition demo_node : SamplerNode := sampler_new demo_router 15.
Definition demo_request : SampleRequest := mkSample "r1" "gpt-4" false.
Definition no_json (s : string) : option Value := None.
(** Providers that answer with an error worth a retry. *)
Definition overloaded (k : nat) (p : string) (r : SampleRequest) : result string (list (result string StreamChunk)) :=
  Err "HTTP 503: connection timeout".

Lemma provider_errors_not_retried_witness :
  exists n' res, handle_sample_request (SE := ascii_env) (HI := gmap_iter string) (fun _ => 0) 0 no_json overloaded always 1
      demo_request demo_node = Some (n', res) /\ (0 <= calls n' <= 0 + 2)%nat /\ res <> Ok tt.
Proof.
  destruct (provider_errors_not_retried (SE := ascii_env) (HI := gmap_iter string) (fun _ => 0) 0 no_json overloaded always 0
    demo_request demo_node) as (n' & res & H & Hc & Hr); [by vm_compute|].
  exists n', res. split; [exact H|]. split; [exact Hc|]. by apply Hr.
Defined.

Lemma stream_exact_witness :
  let c := mkChunk "r1" TextChannel "hi" None (Some (mkUsage 10 2 12)) in
  outbox (stream_to_bus always "r1" [Ok c; Err "reset"; Ok c] false demo_node).1 =
    [Chunk c; Event (Error "r1" "reset"); StreamFailure "r1" "reset";
     DoneMsg "r1" (mkUsage 10 2 12); Event (Completed "r1" (mkUsage 10 2 12))].
Proof.
  intros c. pose proof (stream_exact "r1" [c] (Some "reset") [Ok c] false demo_node) as H.
  specialize (H eq_refl). cbn [fmap list_fmap app] in H.
  destruct (stream_to_bus always "r1" [Ok c; Err "reset"; Ok c] false demo_node) as [n' res]. destruct H as [H _]. cbn [fst]. rewrite H.
  reflexivity.
Defined.

Lemma cancel_finds_nothing_witness :
  exists n', run_node (SE := ascii_env) (HI := gmap_iter string) (fun _ => 0) 0 no_json overloaded always 1
      [("sampler/request", Some demo_request); ("sampler/r1/cancel", None)] demo_node = Some n' /\
    cancel_handles n' = ∅ /\ cancelled n' = [].
Proof.
  apply (cancel_finds_nothing (SE := ascii_env) (HI := gmap_iter string) (fun _ => 0) 0 no_json overloaded 0); [|reflexivity].
  repeat constructor.
Defined.

(** A model named after a doom loop is asked for without end. *)
Example doom_named_model :
  handle_sample_request (SE := ascii_env) (HI := gmap_iter string) (fun _ => 0) 0 no_json overloaded always 50
    (mkSample "r2" "doom loop" false) demo_node = None.
Proof. by vm_compute. Qed.
