(* ===== verification/LockOrder.v ===== *)
(** * The order of locks

    [kernel/lock_order.rs] and its use in [tools/read_tracker.rs]: the order in
    which locks may be taken, the check of debug builds, and threads that take
    and release locks.

    - Threads that ask only for locks of the order that the check accepts, and
      that they do not hold already, do not deadlock.  (The threads are
      the specification: the code only has the order and its check.)
    - The check runs after the lock was taken, so a deadlock itself is never
      reported. *)

From S2P Require Import Prelude.

Definition ORDER : list string := ["READ_TRACKER"; "GITIGNORE"; "BASH_CACHE"; "PERMISSION_CHECKER"].

Fixpoint position (l : list string) (x : string) : option nat :=
  match l with
  | [] => None
  | y :: l' => if bool_decide (y = x) then Some 0 else S <$> position l' x
  end.

(** The held locks that are reported when [lock] is checked. *)
Definition check_order (held : list string) (lock : string) : list string :=
  match position ORDER lock with
  | None => []
  | Some new_idx =>
      filter (fun h => match position ORDER h with Some held_idx => (new_idx <? held_idx) | None => false end = true) held
  end.

Definition push_held (lock : string) (held : list string) : list string := held ++ [lock].

(** [rposition] and [remove]: the last occurrence. *)
Fixpoint remove_first (x : string) (l : list string) : list string :=
  match l with
  | [] => []
  | y :: l' => if bool_decide (y = x) then l' else y :: remove_first x l'
  end.
Definition pop_held (lock : string) (held : list string) : list string := reverse (remove_first lock (reverse held)).

(** A sequence number for each acquisition, wrapping. *)
Definition record_acquire (sequence : Z) : Z * Z := (u64_add sequence 1, sequence).

(** ** Threads *)

Record Thread := mkThread { held : list string; wants : option string }.
Record Locks := mkLocks { threads : list Thread; reports : list string }.

Definition free (s : Locks) (l : string) : Prop := forall t, t ∈ threads s -> l ∉ held t.

Inductive lstep : Locks -> Locks -> Prop :=
| step_want i t l s :
    threads s !! i = Some t -> wants t = None ->
    lstep s (mkLocks (<[i := mkThread (held t) (Some l)]> (threads s)) (reports s))
| step_take i t l s :
    threads s !! i = Some t -> wants t = Some l -> free s l ->
    lstep s (mkLocks (<[i := mkThread (push_held l (held t)) None]> (threads s))
                     (reports s ++ check_order (push_held l (held t)) l))
| step_release i t l s :
    threads s !! i = Some t -> wants t = None -> l ∈ held t ->
    lstep s (mkLocks (<[i := mkThread (pop_held l (held t)) None]> (threads s)) (reports s)).

(** ** The order *)

Lemma position_lt l x n : position l x = Some n -> n < length l.
Proof.
  revert n. induction l as [|y l IH]; [done|]. cbn. intros n. case_bool_decide; [intros [= <-]; lia|].
  destruct (position l x) as [m|]; [|done]. cbn. intros [= <-]. specialize (IH m eq_refl). lia.
Qed.

Lemma position_lookup l x n : position l x = Some n -> l !! n = Some x.
Proof.
  revert n. induction l as [|y l IH]; [done|]. cbn. intros n. case_bool_decide; [intros [= <-]; by subst|].
  destruct (position l x) as [m|]; [|done]. cbn. intros [= <-]. by apply IH.
Qed.

Lemma position_elem l x : x ∈ l -> exists n, position l x = Some n.
Proof.
  induction 1 as [x l|x y l _ [n Hn]]; cbn; [rewrite bool_decide_true; eauto|].
  case_bool_decide; [eauto|]. rewrite Hn. cbn. eauto.
Qed.

Definition rank (x : string) : nat := default 0 (position ORDER x).

Lemma rank_inj x y : x ∈ ORDER -> y ∈ ORDER -> rank x = rank y -> x = y.
Proof.
  unfold rank. intros (n & Hn)%position_elem (m & Hm)%position_elem. rewrite Hn, Hm. cbn. intros ->.
  apply position_lookup in Hn, Hm. congruence.
Qed.

Lemma check_order_nil held l : l ∈ ORDER -> Forall (fun h => h ∈ ORDER) held ->
  check_order held l = [] <-> Forall (fun h => rank h <= rank l) held.
Proof.
  intros (n & Hn)%position_elem Hh. unfold check_order, rank. rewrite Hn. cbn [default from_option id].
  induction Hh as [|h held Hin Hh IH]; [done|]. apply position_elem in Hin as [m Hm].
  rewrite filter_cons, Forall_cons, Hm. cbn [default from_option id]. destruct (n <? m) eqn:E; zbool.
  - rewrite decide_True by done. split; [done|]. intros [H _]. lia.
  - rewrite decide_False by done. rewrite IH. split; [intros H; split; [lia|done]|by intros [_ H]].
Qed.

(** A waiting thread asks for a lock of the order that the check accepts and
    that it does not hold yet. *)
Definition asks_in_order (t : Thread) : Prop :=
  match wants t with
  | None => True
  | Some l => l ∈ ORDER /\ (l ∉ held t) /\ check_order (held t) l = []
  end.

(** The locks it holds are of the order as well. *)
Definition respects (t : Thread) : Prop :=
  Forall (fun h => h ∈ ORDER) (held t) /\ asks_in_order t.

(** The thread can go on: it runs, or the lock it waits for is free. *)
Definition can_go (s : Locks) (t : Thread) : Prop :=
  match wants t with None => True | Some l => free s l end.

Lemma waits_higher s t l : Forall respects (threads s) -> t ∈ threads s -> wants t = Some l -> (can_go s t -> False) ->
  exists t', t' ∈ threads s /\ (can_go s t' \/ exists l', wants t' = Some l' /\ rank l < rank l').
Proof.
  intros Hr Ht Hw Hg. rewrite Forall_forall in Hr.
  destruct (decide (Exists (fun t' => l ∈ held t') (threads s))) as [He|He].
  2:{ destruct Hg. unfold can_go. rewrite Hw. intros t' Ht' Hl. apply He. apply Exists_exists. eauto. }
  apply Exists_exists in He as (t' & Ht' & Hl). exists t'. split; [done|].
  destruct (wants t') as [l'|] eqn:Hw'; [|left; unfold can_go; by rewrite Hw'].
  right. exists l'. split; [done|]. destruct (Hr t' Ht') as [Hin Hwant]. unfold asks_in_order in Hwant. rewrite Hw' in Hwant.
  destruct Hwant as (Hl' & Hnot & Hchk). apply (check_order_nil _ _ Hl' Hin) in Hchk.
  rewrite Forall_forall in Hchk, Hin. specialize (Hchk l Hl). assert (rank l <> rank l'); [|lia].
  intros Heq. apply Hnot. by rewrite <- (rank_inj l l' (Hin l Hl) Hl' Heq).
Qed.

(** Such threads are never all blocked. *)
Lemma respecting_progress s :
  Forall respects (threads s) -> threads s <> [] -> exists t, t ∈ threads s /\ can_go s t.
Proof.
  intros Hr Hne. assert (forall k t l, length ORDER - rank l = k -> t ∈ threads s -> wants t = Some l ->
    exists t, t ∈ threads s /\ can_go s t) as H.
  { induction k as [k IH] using lt_wf_ind. intros t l Hk Ht Hw.
    destruct (decide (Exists (fun t' => l ∈ held t') (threads s))) as [He|He].
    2:{ exists t. split; [done|]. unfold can_go. rewrite Hw. intros t' Ht' Hl. apply He, Exists_exists. eauto. }
    destruct (waits_higher s t l Hr Ht Hw) as (t' & Ht' & [Hg|(l' & Hw' & Hlt)]).
    - unfold can_go. rewrite Hw. intros Hf. apply Exists_exists in He as (t' & Ht' & Hl). by apply (Hf t').
    - eauto.
    - apply (IH (length ORDER - rank l')) with t' l'; try done.
      assert (rank l' < length ORDER); [|lia]. rewrite Forall_forall in Hr. destruct (Hr t' Ht') as [_ Hl']. unfold asks_in_order in Hl'. rewrite Hw' in Hl'.
      destruct Hl' as ((n & Hn)%position_elem & _). unfold rank. rewrite Hn. by apply (position_lt ORDER l'). }
  destruct (threads s) as [|t ts] eqn:E; [done|]. rewrite <- E in *.
  assert (t ∈ threads s) as Ht by (rewrite E; left). destruct (wants t) as [l|] eqn:Hw; [by eapply H|].
  exists t. split; [done|]. unfold can_go. by rewrite Hw.
Qed.

Lemma remove_first_sub x l : remove_first x l ⊆ l.
Proof. induction l as [|y l IH]; cbn; [done|]. case_bool_decide; set_solver. Qed.

(** Taking a lock and releasing one keep to the order. *)
Lemma take_release_respect t l : respects t ->
  (wants t = Some l -> respects (mkThread (push_held l (held t)) None) /\ check_order (push_held l (held t)) l = []) /\
  respects (mkThread (pop_held l (held t)) None).
Proof.
  intros [Hh Hw]. split.
  - intros E. unfold asks_in_order in Hw. rewrite E in Hw. destruct Hw as (Hin & _ & Hc).
    assert (Forall (fun h => h ∈ ORDER) (push_held l (held t))) as Hp.
    { unfold push_held. apply Forall_app. split; [done|]. apply Forall_cons. by split. }
    split; [by split|]. apply check_order_nil; [done..|]. apply check_order_nil in Hc; [|done..].
    unfold push_held. apply Forall_app. split; [done|]. apply Forall_cons. by split.
  - split; [|done]. cbn. rewrite Forall_forall in *. intros h Hin. apply Hh. unfold pop_held in Hin.
    rewrite elem_of_reverse in Hin. apply remove_first_sub in Hin. by rewrite elem_of_reverse in Hin.
Qed.

(** Steps of threads whose requests keep to the order. *)
Definition ordered (s s' : Locks) : Prop := lstep s s' /\ Forall asks_in_order (threads s').

Lemma ordered_respects s s' :
  ordered s s' -> Forall respects (threads s) -> reports s = [] ->
  Forall respects (threads s') /\ reports s' = [] /\ length (threads s') = length (threads s).
Proof.
  intros [Hs Ha] Hr Hn. destruct Hs as [i t l s Hi Hw|i t l s Hi Hw Hf|i t l s Hi Hw Hl]; cbn [threads reports] in *;
    rewrite length_insert; (split_and!; [|try done|done]); pose proof (Forall_lookup_1 _ _ _ _ Hr Hi) as Ht.
  - apply Forall_insert; [done|]. split; [apply Ht|]. apply (Forall_lookup_1 _ _ i _ Ha). apply list_lookup_insert_eq.
    by eapply lookup_lt_Some.
  - apply Forall_insert; [done|]. by apply (take_release_respect t l Ht).
  - rewrite Hn. by apply (take_release_respect t l Ht).
  - apply Forall_insert; [done|]. by apply (take_release_respect t l Ht).
Qed.

(** C37.  Threads that start without locks and only ask for locks of the order
    that the check accepts and that they do not hold already are, after any
    steps, never all blocked: some thread runs, or waits for a lock that is
    free; and the check has reported nothing. *)
Theorem ordered_locks_progress s s' :
  Forall (fun t => t = mkThread [] None) (threads s) -> threads s <> [] -> reports s = [] -> rtc ordered s s' ->
  reports s' = [] /\ exists t, t ∈ threads s' /\ can_go s' t.
Proof.
  intros Hi Hne Hn Hs. assert (Forall respects (threads s)) as Hr.
  { eapply Forall_impl; [exact Hi|]. intros t ->. by split; [constructor|]. }
  clear Hi. revert Hne Hn Hr. induction Hs as [s|s1 s2 s3 H12 _ IH]; intros Hne Hn Hr; [split; [done|by apply respecting_progress]|].
  destruct (ordered_respects _ _ H12 Hr Hn) as (? & ? & Hlen). apply IH; [|done..].
  intros E. rewrite E in Hlen. by destruct (threads s1).
Qed.

(** ** Witnesses *)

Definition two_idle : Locks := mkLocks [mkThread [] None; mkThread [] None] [].
Definition two_waiting : Locks :=
  mkLocks [mkThread [] (Some "READ_TRACKER"); mkThread [] (Some "BASH_CACHE")] [].

Lemma two_waiting_reached : rtc ordered two_idle two_waiting.
Proof.
  eapply rtc_l; [split; [apply (step_want 0 (mkThread [] None) "READ_TRACKER"); done|]|].
  { repeat constructor; cbn; apply (bool_decide_unpack _); by vm_compute. }
  eapply rtc_l; [split; [apply (step_want 1 (mkThread [] None) "BASH_CACHE"); done|]|done].
  repeat constructor; cbn; apply (bool_decide_unpack _); by vm_compute.
Defined.

Lemma ordered_locks_progress_witness : reports two_waiting = [] /\ exists t, t ∈ threads two_waiting /\ can_go two_waiting t.
Proof. apply (ordered_locks_progress two_idle two_waiting); [by repeat constructor|done|done|apply two_waiting_reached]. Defined.

(** Opposite orders: both threads are blocked, and nothing was reported, since
    each checks only after it got its lock. *)
Definition crossed : Locks :=
  mkLocks [mkThread ["READ_TRACKER"] (Some "BASH_CACHE"); mkThread ["BASH_CACHE"] (Some "READ_TRACKER")] [].

Lemma deadlock_unreported :
  rtc lstep (mkLocks [mkThread [] None; mkThread [] None] []) crossed /\ forall s, ~ lstep crossed s.
Proof.
  split.
  - eapply rtc_l; [apply (step_want 0 (mkThread [] None) "READ_TRACKER"); done|].
    eapply rtc_l; [apply (step_take 0 (mkThread [] (Some "READ_TRACKER")) "READ_TRACKER"); [done|done|]|].
    { intros t Ht. cbn in Ht. apply elem_of_cons in Ht as [->|[->|[]%elem_of_nil]%elem_of_cons]; cbn; set_solver. }
    eapply rtc_l; [apply (step_want 1 (mkThread [] None) "BASH_CACHE"); done|].
    eapply rtc_l; [apply (step_take 1 (mkThread [] (Some "BASH_CACHE")) "BASH_CACHE"); [done|done|]|].
    { intros t Ht. cbn in Ht. apply elem_of_cons in Ht as [->|[->|[]%elem_of_nil]%elem_of_cons]; cbn; [|set_solver].
      by intros [?|[]%elem_of_nil]%elem_of_cons. }
    eapply rtc_l; [apply (step_want 0 (mkThread ["READ_TRACKER"] None) "BASH_CACHE"); done|].
    eapply rtc_l; [apply (step_want 1 (mkThread ["BASH_CACHE"] None) "READ_TRACKER"); done|]. done.
  - intros s Hs. inversion Hs as [i t l s0 Hi Hw|i t l s0 Hi Hw Hf|i t l s0 Hi Hw]; subst;
      destruct i as [|[|i]]; cbn in Hi; simplify_eq/=.
    + apply (Hf (mkThread ["BASH_CACHE"] (Some "READ_TRACKER"))); cbn; set_solver.
    + apply (Hf (mkThread ["READ_TRACKER"] (Some "BASH_CACHE"))); cbn; set_solver.
Qed.
