(* ===== verification/Checkpoint.v ===== *)
(** * Checkpoints

    [tools/checkpoint.rs]: checkpoints of the working tree by [git stash] or by
    commits.  [git] is an argument: a state and, for a list of arguments, the
    new state and the output, or the error of starting it.

    The reference of a stash is its place in the stack of stashes, which the
    next checkpoint changes: every checkpoint of a changed tree remembers the
    same reference, and rolling any of them back pops the newest. *)

From S2P Require Import Prelude RustStr TextLines TextFind.

Record GitOutput := mkOutput { git_success : bool; stdout : string; stderr : string }.

Record Checkpoint := mkCheckpoint {
  checkpoint_id : string; agent_id : string; timestamp : string; description : string; commit_hash : option string
}.
Inductive CheckpointMode := Stash | Commit.
Record CheckpointManager := mkManager { checkpoints : list Checkpoint; mode : CheckpointMode }.

Definition manager_new : CheckpointManager := mkManager [] Stash.
Definition with_mode (m : CheckpointMode) : CheckpointManager := mkManager [] m.
Definition latest (m : CheckpointManager) : option Checkpoint := last (checkpoints m).

Section git.
Context {G : Type} (git : list string -> G -> G * result string GitOutput).

(** Computations that run [git] and may fail. *)
Definition M (A : Type) : Type := G -> G * result string A.
Definition mret {A} (a : A) : M A := fun g => (g, Ok a).
Definition mfail {A} (e : string) : M A := fun g => (g, Err e).
Definition mthen {A B} (m : M A) (f : A -> M B) : M B :=
  fun g => match m g with (g, Ok a) => f a g | (g, Err e) => (g, Err e) end.
Local Notation "'let*' x ':=' m 'in' k" := (mthen m (fun x => k)) (at level 10, x pattern, m at level 100, k at level 200).

(** A command whose failure is an error with the given text. *)
Definition run_checked (args : list string) (what : string) : M GitOutput :=
  let* o := git args in
  if git_success o then mret o else mfail (what +:+ " 失败：" +:+ stderr o).

Definition head_hash : M string := let* o := git ["rev-parse"; "HEAD"] in mret (trim (stdout o)).

Definition checkpoint_message (id desc : string) : string := "ccode:checkpoint:" +:+ id +:+ ":" +:+ desc.

(** The reference in the first line of [git stash list], before its colon. *)
Definition stash_ref (list_output : string) : option string :=
  first_line ← head (lines list_output);
  colon_pos ← find_str ":" first_line;
  Some (trim (str_take colon_pos first_line)).

Definition git_stash_save (id desc : string) : M string :=
  let* status := git ["status"; "--porcelain"] in
  if bool_decide (stdout status = "") then head_hash
  else
    let* _ := run_checked ["stash"; "save"; "--include-untracked"; checkpoint_message id desc] "git stash save" in
    let* refs := git ["stash"; "list"] in
    match stash_ref (stdout refs) with Some r => mret r | None => head_hash end.

Definition git_checkpoint_commit (id desc : string) : M string :=
  let* status := git ["status"; "--porcelain"] in
  if bool_decide (stdout status = "") then head_hash
  else
    let* _ := run_checked ["add"; "--all"] "git add --all" in
    let* c := git ["commit"; "-m"; checkpoint_message id desc; "--no-verify"] in
    if git_success c || str_contains "nothing to commit" (stderr c) then head_hash
    else mfail ("git commit 失败：" +:+ stderr c).

Definition create (id time agent desc : string) (m : CheckpointManager) : M (CheckpointManager * string) :=
  let* h := match mode m with Stash => git_stash_save id desc | Commit => git_checkpoint_commit id desc end in
  mret (mkManager (checkpoints m ++ [mkCheckpoint id agent time desc (Some h)]) (mode m), id).

Definition find_checkpoint (id : string) (m : CheckpointManager) : option Checkpoint :=
  find (fun c => bool_decide (checkpoint_id c = id)) (checkpoints m).

Definition rollback (id : string) (m : CheckpointManager) : M unit :=
  match find_checkpoint id m with
  | None => mfail ("检查点不存在：" +:+ id)
  | Some c =>
      match commit_hash c with
      | None => mfail ("检查点 " +:+ id +:+ " 没有 commit hash")
      | Some h =>
          match mode m with
          | Stash => let* _ := run_checked ["stash"; "pop"; h] "git stash pop" in mret tt
          | Commit =>
              fun g =>
                let g := (git ["stash"; "save"; "--include-untracked"; "ccode:rollback-auto-stash"] g).1 in
                (let* _ := run_checked ["checkout"; h] ("git checkout " +:+ h) in mret tt) g
          end
      end
  end.

(** Checkpoints made one after the other; a failed one leaves the manager as it is. *)
Definition make_checkpoint (x : G * CheckpointManager) (c : string * string * string * string) : G * CheckpointManager :=
  let '(id, time, agent, desc) := c in
  match create id time agent desc x.2 x.1 with (g, Ok (m, _)) => (g, m) | (g, Err _) => (g, x.2) end.
Definition make_checkpoints (l : list (string * string * string * string)) (g : G) : G * CheckpointManager :=
  foldl make_checkpoint (g, manager_new) l.

(** ** References of stashes *)

(** What the commands print: the first entry of a list of stashes is
    [stash@{0}], and a commit is not named like a stash. *)
Context (list_first : forall g g' o, git ["stash"; "list"] g = (g', Ok o) ->
           stdout o = "" \/ exists rest, stdout o = "stash@{0}:" +:+ rest).
Context (head_not_stash : forall g g' o, git ["rev-parse"; "HEAD"] g = (g', Ok o) ->
           starts_with "stash@" (trim (stdout o)) = false).

Lemma lines_prefix p s : clean p -> p <> "" -> exists x, head (lines (p +:+ s)) = Some (p +:+ x).
Proof.
  unfold lines. induction p as [|a p IH]; [done|]. intros [Hn Hc] _. rewrite !str_app_cons. cbn [split_inclusive].
  cbn in Hn, Hc. apply orb_false_iff in Hn as [Hn1 Hn2], Hc as [Hc1 Hc2]. zbool.
  rewrite bool_decide_false by done. assert (forall x, strip_line (String a x) = String a (strip_line x)) as Hs.
  { intros x. cbn [strip_line]. rewrite !(bool_decide_false (a = _)) by done. by rewrite !andb_false_r. }
  destruct (split_inclusive (p +:+ s)) as [|y l] eqn:E; cbn [fmap list_fmap head]; try unfold str1; rewrite Hs.
  - destruct p; [|by destruct IH as [? H]]. by exists "".
  - destruct p as [|b p]; [by exists (strip_line y)|].
    destruct IH as [x Hx]; [done|done|]. cbn in Hx. exists x. injection Hx as ->. done.
Qed.

Lemma list_ref rest : stash_ref ("stash@{0}:" +:+ rest) = Some "stash@{0}".
Proof.
  unfold stash_ref. destruct (lines_prefix "stash@{0}:" rest) as [x ->]; [done|done|]. by vm_compute.
Qed.

Definition stash_named (c : Checkpoint) : bool := from_option (starts_with "stash@") false (commit_hash c).

Lemma save_ref id desc g g' h : git_stash_save id desc g = (g', Ok h) ->
  starts_with "stash@" h = true -> h = "stash@{0}".
Proof.
  assert (forall g g' h, head_hash g = (g', Ok h) -> starts_with "stash@" h = true -> h = "stash@{0}") as Hh.
  { intros g0 g1 h0. unfold head_hash, mthen. destruct (git ["rev-parse"; "HEAD"] g0) as [g2 [o|]] eqn:E; [|done].
    intros [= _ <-] H. by rewrite (head_not_stash _ _ _ E) in H. }
  unfold git_stash_save, mthen at 1. destruct (git ["status"; "--porcelain"] g) as [g1 [st|]]; [|done].
  destruct (bool_decide (stdout st = "")); [apply Hh|]. unfold mthen at 1.
  destruct (run_checked _ _ g1) as [g2 [o|]]; [|done]. unfold mthen at 1.
  destruct (git ["stash"; "list"] g2) as [g3 [refs|]] eqn:El; [|done].
  destruct (list_first _ _ _ El) as [->|[rest ->]]; [apply Hh|]. rewrite list_ref. by intros [= _ <-] _.
Qed.

Lemma make_refs l g : mode (make_checkpoints l g).2 = Stash /\
  Forall (fun c => stash_named c = true -> commit_hash c = Some "stash@{0}") (checkpoints (make_checkpoints l g).2).
Proof.
  unfold make_checkpoints. induction l as [|c l IH] using rev_ind; [done|]. rewrite foldl_app. cbn [foldl].
  destruct (foldl make_checkpoint _ l) as [g1 m]. cbn in IH. destruct IH as [Hm Hf], c as [[[id time] agent] desc].
  unfold make_checkpoint, create, mthen. cbn [fst snd]. rewrite Hm.
  destruct (git_stash_save id desc g1) as [g2 [h|]] eqn:E; [|by split]. cbn. split; [done|]. apply Forall_app. split; [done|].
  apply Forall_cons. split; [|done]. intros H. cbn. f_equal. by eapply save_ref.
Qed.

(** However many checkpoints are made by stashing, rolling back any that
    stands for a stash runs the same command, which pops the newest stash: the
    checkpoint asked for makes no difference. *)
Theorem stash_rollback_pops_newest l g c g' :
  c ∈ checkpoints (make_checkpoints l g).2 -> stash_named c = true ->
  find_checkpoint (checkpoint_id c) (make_checkpoints l g).2 = Some c ->
  rollback (checkpoint_id c) (make_checkpoints l g).2 g' =
    (let* _ := run_checked ["stash"; "pop"; "stash@{0}"] "git stash pop" in mret tt) g'.
Proof.
  intros Hc Hs Hf. destruct (make_refs l g) as [Hm Hr]. rewrite Forall_forall in Hr. unfold rollback.
  by rewrite Hf, (Hr c Hc Hs), Hm.
Qed.
End git.

(** ** Witnesses *)

(** A tree that is always changed, with a stack of stashes. *)
Definition toy_git (args : list string) (stack : list string) : list string * result string GitOutput :=
  match args with
  | ["status"; "--porcelain"] => (stack, Ok (mkOutput true " M a.rs" ""))
  | ["stash"; "save"; "--include-untracked"; msg] => (msg :: stack, Ok (mkOutput true "" ""))
  | ["stash"; "list"] =>
      (stack, Ok (mkOutput true (match stack with [] => "" | s :: _ => "stash@{0}:" +:+ (" On main: " +:+ s) end) ""))
  | ["stash"; "pop"; "stash@{0}"] =>
      match stack with [] => (stack, Ok (mkOutput false "" "no stash")) | _ :: rest => (rest, Ok (mkOutput true "" "")) end
  | ["rev-parse"; "HEAD"] => (stack, Ok (mkOutput true "1f2e3d" ""))
  | _ => (stack, Err "git")
  end.
Definition demo_checkpoints : list (string * string * string * string) :=
  [("1", "t1", "a", "first"); ("2", "t2", "a", "second")].

(** Going back to the first checkpoint takes the second one off the stack. *)
Lemma stash_rollback_pops_newest_witness :
  let m := (make_checkpoints toy_git demo_checkpoints []).2 in
  let stack := (make_checkpoints toy_git demo_checkpoints []).1 in
  length stack = 2 /\
  rollback toy_git "1" m stack =
    mthen (run_checked toy_git ["stash"; "pop"; "stash@{0}"] "git stash pop") (fun _ => mret tt) stack /\
  (rollback toy_git "1" m stack).1 = [checkpoint_message "1" "first"].
Proof.
  cbn zeta. split; [by vm_compute|]. split; [|by vm_compute].
  apply (stash_rollback_pops_newest toy_git) with (c := mkCheckpoint "1" "a" "t1" "first" (Some "stash@{0}")).
  - intros g g' o H. cbn in H. injection H as _ <-. cbn [stdout]. destruct g as [|s g]; [by left|right]. by eexists.
  - intros g g' o H. cbn in H. injection H as _ <-. by vm_compute.
  - apply (list_elem_of_lookup_2 _ 0). by vm_compute.
  - by vm_compute.
  - by vm_compute.
Defined.
