(* ===== verification/Embedding.v ===== *)
(** * Embedding vectors and diversified retrieval (ccore/src/memory/embedding.rs, mmr.rs)

    The index of embedding vectors, the cosine similarity and the search for
    the [k] best vectors in single precision, and the greedy selections that
    weigh relevance against similarity to what is already selected.  [f32] is
    the specification float at precision 24 and maximal exponent 128; the
    comparisons of [F64] do not depend on the precision and serve both. *)

From S2P Require Import Prelude RustStr F64 TextFind Permission.

(** ** Single precision *)

Abbreviation f32 := spec_float (only parsing).
Definition f32_add : f32 -> f32 -> f32 := SFadd 24 128.
Definition f32_sub : f32 -> f32 -> f32 := SFsub 24 128.
Definition f32_mul : f32 -> f32 -> f32 := SFmul 24 128.
Definition f32_div : f32 -> f32 -> f32 := SFdiv 24 128.
Definition f32_sqrt : f32 -> f32 := SFsqrt 24 128.
Definition f32_of_Z (n : Z) : f32 := binary_normalize 24 128 n 0 false.
Definition f32_lit (n d : Z) : f32 := f32_div (f32_of_Z n) (f32_of_Z d).
Definition fzero : spec_float := S754_zero false.
Definition fneg_inf : spec_float := S754_infinity true.

(** [iter.sum::<f32>()] starts at [-0.0]. *)
Definition f32_sum (l : list f32) : f32 := foldl f32_add (S754_zero true) l.

Definition is_finite (x : spec_float) : bool :=
  match x with S754_zero _ | S754_finite _ _ _ => true | _ => false end.

(** [x.partial_cmp(&y).unwrap_or(Equal)] *)
Definition cmp_or_equal (x y : spec_float) : comparison := default Eq (SFcompare x y).

(** ** The index (embedding.rs) *)

Record EmbeddingVector := mkVector {
  data : list f32;
  ev_entry_id : string;
  text_preview : string;
  ev_created_at : Z
}.

Record EmbeddingIndex := mkIndex { vectors : list EmbeddingVector; dimension : nat }.

Definition index_new : EmbeddingIndex := mkIndex [] (Z.to_nat 1536).
Definition with_dimension (d : nat) : EmbeddingIndex := mkIndex [] d.

Definition index_add (v : EmbeddingVector) (ix : EmbeddingIndex) : EmbeddingIndex :=
  if length (data v) =? dimension ix then mkIndex (vectors ix ++ [v]) (dimension ix) else ix.

Definition index_extend (vs : list EmbeddingVector) (ix : EmbeddingIndex) : EmbeddingIndex :=
  foldl (fun ix v => index_add v ix) ix vs.

Definition find_by_entry_id (id : string) (ix : EmbeddingIndex) : option EmbeddingVector :=
  find (fun v => bool_decide (ev_entry_id v = id)) (vectors ix).

Definition index_clear (ix : EmbeddingIndex) : EmbeddingIndex := mkIndex [] (dimension ix).

Definition remove_by_entry_id (id : string) (ix : EmbeddingIndex) : bool * EmbeddingIndex :=
  let kept := filter (fun v => ev_entry_id v <> id) (vectors ix) in
  (negb (length kept =? length (vectors ix)), mkIndex kept (dimension ix)).

Definition cosine_similarity (a b : list f32) : f32 :=
  if negb (length a =? length b) then fzero
  else
    let dot := f32_sum (zip_with f32_mul a b) in
    let norm_a := f32_sqrt (f32_sum ((fun x => f32_mul x x) <$> a)) in
    let norm_b := f32_sqrt (f32_sum ((fun x => f32_mul x x) <$> b)) in
    if SFeqb norm_a fzero || SFeqb norm_b fzero then fzero
    else f32_div dot (f32_mul norm_a norm_b).

(** [min_by] over the enumerated scores: the position of the first least one. *)
Fixpoint min_from (best : f32) (at_ pos : nat) (l : list (f32 * nat)) : nat :=
  match l with
  | [] => at_
  | (s, _) :: l' =>
      match cmp_or_equal best s with
      | Gt => min_from s pos (S pos) l'
      | _ => min_from best at_ (S pos) l'
      end
  end.
Definition min_position (l : list (f32 * nat)) : option nat :=
  match l with [] => None | (s, _) :: l' => Some (min_from s 0 1 l') end.

(** [v.swap_remove(i)]: the last element takes the place of the removed one. *)
Definition swap_remove {A} (i : nat) (l : list A) : list A :=
  match last l with None => l | Some x => take (length l - 1) (<[i := x]> l) end.

(** One vector of the scan. *)
Definition search_step (k : nat) (top_k : list (f32 * nat)) (x : f32 * nat) : list (f32 * nat) :=
  if negb (is_finite x.1) || fle x.1 fzero then top_k
  else
    let top_k := top_k ++ [x] in
    if k <? length top_k
    then match min_position top_k with Some i => swap_remove i top_k | None => top_k end
    else top_k.

(** [sort_by(|a, b| b.0.partial_cmp(&a.0).unwrap_or(Equal))], a stable sort. *)
Definition score_ge {A} (a b : f32 * A) : Prop := cmp_or_equal b.1 a.1 <> Gt.
#[global] Instance score_ge_dec {A} : RelDecision (@score_ge A).
Proof. intros a b. unfold score_ge. apply _. Defined.

Definition scores (ix : EmbeddingIndex) (query : list f32) : list (f32 * nat) :=
  imap (fun i v => (cosine_similarity query (data v), i)) (vectors ix).

Definition search (ix : EmbeddingIndex) (query : list f32) (k : nat) : list (nat * f32) :=
  if negb (length query =? dimension ix) || (length (vectors ix) =? 0) || (k =? 0) then []
  else prod_swap <$> merge_sort score_ge (foldl (search_step k) [] (scores ix query)).

Definition search_with_metadata (ix : EmbeddingIndex) (query : list f32) (k : nat)
    : option (list (string * f32 * string)) :=
  mapM (fun '(i, score) => v ← vectors ix !! i; Some (ev_entry_id v, score, text_preview v))
       (search ix query k).

(** ** Maximal marginal relevance (mmr.rs)

    The loop both selections share: [score selected d] is the score of
    candidate [d], the best one so far is kept with its position among the
    remaining ones, and only a strictly greater score replaces it. *)
Definition Best : Type := spec_float * nat * nat.

Definition consider (score : nat -> spec_float) (best : Best) (pos d : nat) : Best :=
  if fgt (score d) best.1.1 then (score d, d, pos) else best.

Fixpoint best_of (score : nat -> spec_float) (best : Best) (pos : nat) (remaining : list nat) : Best :=
  match remaining with
  | [] => best
  | d :: l => best_of score (consider score best pos d) (S pos) l
  end.

(** [fuel] is [actual_k]: every round selects one more. *)
Fixpoint mmr_loop (score : list nat -> nat -> spec_float) (fuel actual_k : nat)
    (selected remaining : list nat) : list nat :=
  match fuel with
  | O => selected
  | S f =>
      if (length selected <? actual_k) && negb (length remaining =? 0)
      then
        let '(_, best_idx, best_pos) := best_of (score selected) (fneg_inf, 0, 0) 0 remaining in
        mmr_loop score f actual_k (selected ++ [best_idx]) (list_delete best_pos remaining)
      else selected
  end.

(** [fold(0.0, |max, sim| sim.max(max))] *)
Definition penalty (sims : list spec_float) : spec_float :=
  foldl (fun acc sim => fmax sim acc) fzero sims.

(** An index beyond the vectors would panic; the candidates never are. *)
Definition vector_at (ix : EmbeddingIndex) (i : nat) : list f32 :=
  match vectors ix !! i with Some v => data v | None => [] end.

Definition mmr_score (ix : EmbeddingIndex) (query : list f32) (lambda : f32)
    (selected : list nat) (d : nat) : f32 :=
  let relevance := cosine_similarity query (vector_at ix d) in
  let diversity_penalty :=
    penalty ((fun s => cosine_similarity (vector_at ix d) (vector_at ix s)) <$> selected) in
  f32_sub (f32_mul lambda relevance) (f32_mul (f32_sub (f32_of_Z 1) lambda) diversity_penalty).

Definition mmr_select (ix : EmbeddingIndex) (query : list f32) (k : nat) (lambda : f32) : list nat :=
  let n := length (vectors ix) in
  if (n =? 0) || (k =? 0) then []
  else mmr_loop (mmr_score ix query lambda) (k `min` n) (k `min` n) [] (seq 0 n).

Record MmrConfig := mkMmr { mmr_enabled : bool; lambda : f32 }.
Definition mmr_default : MmrConfig := mkMmr true (f32_lit 7 10).

(** [x.clamp(0.0, 1.0)]: NaN stays. *)
Definition f32_clamp (x lo hi : f32) : f32 := if flt x lo then lo else if fgt x hi then hi else x.
Definition mmr_new (enabled : bool) (l : f32) : MmrConfig :=
  mkMmr enabled (f32_clamp l fzero (f32_of_Z 1)).

Definition mmr_config_select (c : MmrConfig) (ix : EmbeddingIndex) (query : list f32) (k : nat) : list nat :=
  if negb (mmr_enabled c) || (length (vectors ix) <=? 1) || fge (lambda c) (f32_of_Z 1)
  then fst <$> search ix query k
  else mmr_select ix query k (lambda c).

(** ** Reordering of texts *)

Definition is_ascii_punctuation (c : ascii) : bool :=
  let n := code c in
  ((33 <=? n) && (n <=? 47) || (58 <=? n) && (n <=? 64) || (91 <=? n) && (n <=? 96)
   || (123 <=? n) && (n <=? 126))%Z.

(** The bytes of the separator a text starts with. *)
Definition separator (s : string) : nat :=
  match ws_len s, s with
  | O, String c _ => if is_ascii_punctuation c then 1 else 0
  | n, _ => n
  end.

(** [s.split(separator).filter(|w| !w.is_empty())]: [word] is the word begun
    and [skip] the bytes left of a separator. *)
Fixpoint words_of (word : string) (skip : nat) (s : string) : list string :=
  let emit l := match word with EmptyString => l | _ => word :: l end in
  match s with
  | EmptyString => emit []
  | String c r =>
      match skip with
      | S k => words_of word k r
      | O => match separator s with
             | O => words_of (word +:+ String c EmptyString) 0 r
             | S k => emit (words_of EmptyString k r)
             end
      end
  end.

Section rerank.
Context `{StrEnv}.

Definition word_set (s : string) : gset string := list_to_set (words_of EmptyString 0 (to_lowercase s)).

Definition jaccard_text_similarity (a b : string) : f64 :=
  let set_a := word_set a in
  let set_b := word_set b in
  if (size set_a =? 0) && (size set_b =? 0) then fzero
  else
    let intersection := f64_of_Z (Z.of_nat (size (set_a ∩ set_b))) in
    let union := f64_of_Z (Z.of_nat (size (set_a ∪ set_b))) in
    if SFeqb union fzero then fzero else fdiv intersection union.

Definition candidate (candidates : list (string * f64)) (i : nat) : string * f64 :=
  default (EmptyString, fzero) (candidates !! i).

Definition rerank_score (candidates : list (string * f64)) (lambda : f64)
    (selected : list nat) (d : nat) : f64 :=
  let diversity_penalty :=
    penalty ((fun s => jaccard_text_similarity (candidate candidates d).1 (candidate candidates s).1) <$> selected) in
  fsub (fmul lambda (candidate candidates d).2) (fmul (fsub (f64_of_Z 1) lambda) diversity_penalty).

Definition mmr_rerank (candidates : list (string * f64)) (query : string) (k : nat) (lambda : f64)
    : list (string * f64) :=
  let n := length candidates in
  if (n =? 0) || (k =? 0) then []
  else candidate candidates <$>
       mmr_loop (rerank_score candidates lambda) (k `min` n) (k `min` n) [] (seq 0 n).
End rerank.

(** ** The order of floats *)

Lemma flt_trans x y z : flt x y = true -> flt y z = true -> flt x z = true.
Proof.
  unfold flt, SFltb. destruct x as [sx|sx| |sx mx ex], y as [sy|sy| |sy my ey], z as [sz|sz| |sz mz ez];
    cbn [SFcompare]; try (by repeat case_match); try (destruct sx; by repeat case_match);
    try (destruct sy; by repeat case_match).
  destruct sx, sy, sz; try done;
    destruct (Z.compare_spec ex ey), (Z.compare_spec ey ez), (Z.compare_spec ex ez); try done; try lia;
    fold (Pos.compare mx my) (Pos.compare my mz) (Pos.compare mx mz);
    destruct (Pos.compare_spec mx my), (Pos.compare_spec my mz), (Pos.compare_spec mx mz); cbn; try done; lia.
Qed.

(** A score a search keeps: finite and positive. *)
Definition positive (x : spec_float) : bool :=
  match x with S754_finite false _ _ => true | _ => false end.

Lemma kept_score x : negb (is_finite x) || fle x fzero = negb (positive x).
Proof. by destruct x as [[]|[]| |[] ??]. Qed.

Definition ple (x y : spec_float) : Prop := cmp_or_equal x y <> Gt.

Lemma positive_cmp m1 e1 m2 e2 :
  cmp_or_equal (S754_finite false m1 e1) (S754_finite false m2 e2) =
  match (e1 ?= e2)%Z with Lt => Lt | Gt => Gt | Eq => (m1 ?= m2)%positive end.
Proof. unfold cmp_or_equal. cbn. by destruct (e1 ?= e2)%Z. Qed.

Lemma ple_trans x y z :
  positive x = true -> positive y = true -> positive z = true -> ple x y -> ple y z -> ple x z.
Proof.
  destruct x as [|?| |[] m1 e1], y as [|?| |[] m2 e2], z as [|?| |[] m3 e3]; try done. intros _ _ _.
  unfold ple. rewrite !positive_cmp.
  destruct (Z.compare_spec e1 e2), (Z.compare_spec e2 e3), (Z.compare_spec e1 e3); try done; try lia.
  destruct (Pos.compare_spec m1 m2), (Pos.compare_spec m2 m3), (Pos.compare_spec m1 m3); try done; lia.
Qed.

Lemma ple_total x y : ple x y \/ ple y x.
Proof.
  unfold ple, cmp_or_equal.
  destruct x as [|[]| |[] m1 e1], y as [|[]| |[] m2 e2]; cbn; try (by left); try (by right);
    rewrite (Z.compare_antisym e1 e2); destruct (e1 ?= e2)%Z; cbn; try (by left); try (by right);
    fold (Pos.compare m1 m2) (Pos.compare m2 m1); rewrite (Pos.compare_antisym m1 m2);
    destruct (m1 ?= m2)%positive; cbn; try (by left); by right.
Qed.

#[global] Instance score_ge_total {A} : Total (@score_ge A).
Proof. intros a b. unfold score_ge. apply (ple_total b.1 a.1). Qed.

(** ** The best [k] scores *)

Lemma min_from_spec p l best at_ n :
  Forall (fun x => positive x.1 = true) (p ++ l) ->
  (p ++ l) !! at_ = Some (best, n) -> Forall (fun x => ple best x.1) p ->
  exists m, (p ++ l) !! min_from best at_ (length p) l = Some m /\ Forall (fun x => ple m.1 x.1) (p ++ l).
Proof.
  revert p best at_ n. induction l as [|[s j] l IH]; intros p best at_ n Hp Ha Hb; cbn [min_from].
  - exists (best, n). by rewrite app_nil_r in *.
  - assert (positive best = true) as Hpb
      by (apply list_elem_of_lookup_2 in Ha; rewrite Forall_forall in Hp; by apply (Hp (best, n))).
    assert (positive s = true) as Hps by (rewrite Forall_app, Forall_cons in Hp; by destruct Hp as (_ & ? & _)).
    rewrite cons_middle, app_assoc in Hp, Ha |- *.
    replace (S (length p)) with (length (p ++ [(s, j)])) by (rewrite length_app; cbn; lia).
    destruct (cmp_or_equal best s) eqn:E.
    1,2: apply (IH _ _ _ n); try done; rewrite Forall_app, Forall_singleton; split; [done|]; unfold ple; cbn; congruence.
    apply (IH _ _ _ j); [done| |].
    + rewrite lookup_app_l by (rewrite length_app; cbn; lia). by rewrite list_lookup_middle.
    + assert (ple s best) as Hsb.
      { destruct (ple_total s best) as [|H]; [done|]. by destruct (H E). }
      rewrite Forall_app, Forall_singleton. split.
      * rewrite Forall_app in Hp. destruct Hp as [Hp _]. rewrite Forall_app in Hp. destruct Hp as [Hp _].
        rewrite !Forall_forall in *. intros x Hx. apply (ple_trans _ best); auto.
      * cbn. destruct (ple_total s s); done.
Qed.

Lemma min_position_spec l :
  l <> [] -> Forall (fun x => positive x.1 = true) l ->
  exists i m, min_position l = Some i /\ l !! i = Some m /\ Forall (fun x => ple m.1 x.1) l.
Proof.
  destruct l as [|[s j] l]; [done|]. intros _ Hl. cbn [min_position].
  destruct (min_from_spec [(s, j)] l s 0 j Hl eq_refl) as (m & H1 & H2).
  - apply Forall_singleton. cbn. destruct (ple_total s s); done.
  - by exists (min_from s 0 1 l), m.
Qed.

Lemma swap_remove_perm {A} i (l : list A) m : l !! i = Some m -> m :: swap_remove i l ≡ₚ l.
Proof.
  intros Hi. unfold swap_remove. destruct l as [|z l _] using rev_ind; [done|].
  rewrite last_snoc, length_app, insert_app. cbn [length].
  replace (length l + 1 - 1) with (length l) by lia.
  destruct (decide (i < length l)) as [Hlt|Hge].
  - rewrite take_app_length', lookup_app_l in * by (rewrite ?length_insert; lia).
    destruct (list_elem_of_split_length _ _ _ Hi) as (a & b & -> & ->).
    rewrite insert_app_r_alt, Nat.sub_diag by lia. cbn. solve_Permutation.
  - rewrite lookup_app_r in Hi by lia. rewrite take_app_length. destruct (i - length l); [|done]. cbn in Hi. simplify_eq. solve_Permutation.
Qed.

(** What the scan has kept of the scores seen: the greatest ones. *)
Definition top_of (k : nat) (seen top : list (f32 * nat)) : Prop :=
  exists rest, top ++ rest ≡ₚ filter (fun x => positive x.1 = true) seen /\
    (length top = k \/ (length top < k /\ rest = [])) /\
    forall x y, x ∈ top -> y ∈ rest -> ple y.1 x.1.

Lemma search_step_top k seen top x :
  top_of k seen top -> top_of k (seen ++ [x]) (search_step k top x).
Proof.
  intros (rest & Hp & Hl & Hle). unfold search_step, top_of.
  rewrite kept_score, filter_app. destruct (positive x.1) eqn:Ex; cbn [negb].
  2: { exists rest. rewrite (filter_cons_False _ x), filter_nil, app_nil_r by (cbn; by rewrite Ex). by split_and!. }
  rewrite (filter_cons_True _ x) by done. rewrite filter_nil, length_app. cbn [length].
  assert (Forall (fun y => positive y.1 = true) (top ++ [x])) as Hpos.
  { rewrite Forall_app, Forall_singleton. split; [|done]. apply Forall_forall. intros y Hy.
    assert (y ∈ top ++ rest) as H by (rewrite elem_of_app; by left). rewrite Hp in H.
    by apply list_elem_of_filter in H as [??]. }
  destruct Hl as [Hl|[Hl ->]].
  2: { rewrite (proj2 (Nat.ltb_ge _ _)) by lia. exists []. rewrite app_nil_r in *. split_and!; [by rewrite Hp| |by intros ?? _ []%not_elem_of_nil].
       destruct (decide (length top + 1 = k)); [left|right]; rewrite length_app; cbn; [done|]. split; [lia|done]. }
  rewrite (proj2 (Nat.ltb_lt _ _)) by lia.
  destruct (min_position_spec (top ++ [x])) as (i & m & -> & Hm & Hmin); [by destruct top|done|].
  pose proof (swap_remove_perm _ _ _ Hm) as Hs. set (top' := swap_remove i (top ++ [x])) in *.
  exists (m :: rest). rewrite Forall_forall in Hmin, Hpos. split_and!.
  - rewrite <- Hp, <- Permutation_middle, app_comm_cons, Hs. solve_Permutation.
  - left. apply Permutation_length in Hs. rewrite length_app in Hs. cbn in Hs. lia.
  - assert (forall y, y ∈ top' -> y ∈ top ++ [x]) as Hsub by (intros y Hy; rewrite <- Hs; by right).
    intros y z Hy' [->|Hz]%elem_of_cons; [by apply Hmin, Hsub|]. pose proof (Hsub y Hy') as Hy.
    assert (forall w, w ∈ top -> ple z.1 w.1) as Hz' by auto.
    assert (positive z.1 = true) as Hpz.
    { assert (z ∈ top ++ rest) as H by (rewrite elem_of_app; by right). rewrite Hp in H.
      by apply list_elem_of_filter in H as [??]. }
    pose proof (Hpos y Hy) as Hpy. rewrite elem_of_app, list_elem_of_singleton in Hy. destruct Hy as [Hy| ->]; [auto|].
    assert (m ∈ top ++ [x]) as Hm' by (by apply list_elem_of_lookup_2 in Hm).
    rewrite elem_of_app, list_elem_of_singleton in Hm'. destruct Hm' as [Hm'| ->].
    + apply (ple_trans _ m.1); auto; apply Hpos; set_solver.
    + rewrite (Permutation_app_comm top) in Hs. cbn in Hs. apply Permutation_cons_inv in Hs. rewrite Hs in Hy'. auto.
Qed.

Lemma search_scan_top k l : top_of k l (foldl (search_step k) [] l).
Proof.
  induction l as [|x l IH] using rev_ind.
  - exists []. split_and!; [done| |by intros ?? []%not_elem_of_nil].
    destruct k; [by left|right]. split; [cbn; lia|done].
  - rewrite foldl_app. by apply search_step_top.
Qed.

Lemma scores_index ix query s i : (s, i) ∈ scores ix query -> i < length (vectors ix).
Proof.
  unfold scores. intros [j Hj]%list_elem_of_lookup. rewrite list_lookup_imap in Hj.
  destruct (vectors ix !! j) as [v|] eqn:E; [|done]. cbn in Hj. simplify_eq. by apply lookup_lt_Some in E.
Qed.

Lemma swap_swap {A B} (l : list (A * B)) : prod_swap <$> (prod_swap <$> l) = l.
Proof. rewrite <- list_fmap_compose. induction l as [|[a b] l IH]; [done|]. cbn. by f_equal. Qed.

Lemma search_found ix query k :
  length query = dimension ix ->
  exists top, prod_swap <$> search ix query k = merge_sort score_ge top /\ top_of k (scores ix query) top.
Proof.
  intros Hq. unfold search. rewrite Hq, Nat.eqb_refl. cbn [negb orb].
  destruct (length (vectors ix) =? 0) eqn:En; zbool.
  - exists []. split; [done|]. apply nil_length_inv in En. unfold scores. rewrite En. cbn [imap].
    apply (search_scan_top k []).
  - destruct (k =? 0) eqn:Ek; zbool.
    + subst k. exists []. split; [done|]. eexists. split_and!; [apply Permutation_refl|by left|by intros ?? []%not_elem_of_nil].
    + eexists. split; [apply swap_swap|]. apply search_scan_top.
Qed.

(** A search returns the [k] vectors of greatest positive cosine
    similarity, or all of them when there are fewer, in decreasing order of
    similarity: what it leaves out scores no higher than anything it returns.
    A query of another dimension finds nothing, and the lookup of the entries
    found never fails. *)
Theorem search_top_k ix query k :
  (length query <> dimension ix -> search ix query k = []) /\
  is_Some (search_with_metadata ix query k) /\
  (length query = dimension ix ->
   let found := prod_swap <$> search ix query k in
   let good := filter (fun x => positive x.1 = true) (scores ix query) in
   Sorted score_ge found /\ length found = k `min` length good /\
   exists rest, found ++ rest ≡ₚ good /\ forall x y, x ∈ found -> y ∈ rest -> ple y.1 x.1).
Proof.
  split_and!.
  - intros Hn. unfold search. by rewrite (proj2 (Nat.eqb_neq _ _) Hn).
  - unfold search_with_metadata. apply mapM_is_Some, Forall_forall. intros [i s] Hi.
    assert (i < length (vectors ix)) as [v Hv]%lookup_lt_is_Some_2; [|cbn; by rewrite Hv].
    destruct (decide (length query = dimension ix)) as [Hq|Hq].
    + destruct (search_found ix query k Hq) as (top & Et & rest & Hp & _).
      apply (scores_index ix query s). apply (list_elem_of_fmap_2 prod_swap) in Hi. cbn in Hi.
      rewrite Et, merge_sort_Permutation in Hi.
      assert ((s, i) ∈ top ++ rest) as H by set_solver. rewrite Hp in H. by apply list_elem_of_filter in H as [_ ?].
    + unfold search in Hi. rewrite (proj2 (Nat.eqb_neq _ _) Hq) in Hi. by apply not_elem_of_nil in Hi.
  - intros Hq. cbv zeta. destruct (search_found ix query k Hq) as (top & -> & rest & Hp & Hl & Hle).
    split_and!; [apply Sorted_merge_sort, _| |].
    + rewrite merge_sort_Permutation, <- Hp, length_app.
      destruct Hl as [Hl|[Hl ->]]; cbn [length]; lia.
    + exists rest. split; [by rewrite merge_sort_Permutation|].
      intros x y. rewrite merge_sort_Permutation. apply Hle.
Qed.

(** ** Greedy selection *)

(** [best] is the first best candidate of [p], or nothing was considered. *)
Definition best_in (f : nat -> spec_float) (p all : list nat) (best : Best) : Prop :=
  (p = [] /\ best.1.1 = fneg_inf) \/
  (all !! best.2 = Some best.1.2 /\ best.1.1 = f best.1.2 /\ Forall (fun d => flt best.1.1 (f d) = false) p).

Lemma best_of_spec f p l best :
  Forall (fun d => flt fneg_inf (f d) = true) l -> best_in f p (p ++ l) best ->
  best_in f (p ++ l) (p ++ l) (best_of f best (length p) l).
Proof.
  revert p best. induction l as [|d l IH]; intros p best Hf Hb; cbn [best_of]; [by rewrite app_nil_r in *|].
  apply Forall_cons in Hf as [Hd Hf]. rewrite cons_middle, app_assoc in Hb |- *.
  replace (S (length p)) with (length (p ++ [d])) by (rewrite length_app; cbn; lia).
  apply IH; [done|]. unfold consider, fgt. fold (flt best.1.1 (f d)). right.
  assert (((p ++ [d]) ++ l) !! length p = Some d) as Hlook
    by (rewrite lookup_app_l by (rewrite length_app; cbn; lia); by rewrite list_lookup_middle).
  assert (forall x, flt x x = false) as Hirr.
  { intros x. destruct (flt x x) eqn:E; [|done]. exfalso. revert E. unfold flt, SFltb.
    destruct x as [|[]| |[] m e]; cbn; try done; rewrite Z.compare_refl; fold (Pos.compare m m);
      by rewrite Pos.compare_refl. }
  destruct Hb as [[-> Hb]|(Ha & Hs & Hmax)].
  - rewrite Hb, Hd. cbn. split_and!; [done|done|]. rewrite Forall_singleton. apply Hirr.
  - destruct (flt best.1.1 (f d)) eqn:E; cbn.
    + split_and!; [done|done|]. rewrite Forall_app, Forall_singleton. split; [|apply Hirr].
      eapply Forall_impl; [exact Hmax|]. intros x Hx. cbn in Hx |- *.
      destruct (flt (f d) (f x)) eqn:E'; [|done]. by rewrite (flt_trans _ _ _ E E') in Hx.
    + split_and!; [done|done|]. by rewrite Forall_app, Forall_singleton.
Qed.

Lemma mmr_loop_prefix score fuel k sel rem : sel `prefix_of` mmr_loop score fuel k sel rem.
Proof.
  revert sel rem. induction fuel as [|fuel IH]; intros sel rem; cbn [mmr_loop]; [done|].
  destruct (_ && _); [|done]. destruct (best_of _ _ _ _) as [[s d] pos].
  etrans; [|apply IH]. by apply prefix_app_r.
Qed.

(** Each candidate selected scores at least as high as every candidate not
    selected before it. *)
Definition greedy (score : list nat -> nat -> spec_float) (n : nat) (sel : list nat) : Prop :=
  forall j d d', sel !! j = Some d -> d' < n -> d' ∉ take j sel ->
    flt (score (take j sel) d) (score (take j sel) d') = false.

(** The scores the selection [sel] looked at are above [-inf]; a NaN is not. *)
Definition scores_defined (score : list nat -> nat -> spec_float) (n : nat) (sel : list nat) : Prop :=
  forall j d, j < length sel -> d < n -> flt fneg_inf (score (take j sel) d) = true.

Lemma mmr_loop_greedy score n k fuel sel rem :
  let r := mmr_loop score fuel k sel rem in
  sel ++ rem ≡ₚ seq 0 n -> k <= n -> length sel + fuel = k -> greedy score n sel -> scores_defined score n r ->
  (exists rem', r ++ rem' ≡ₚ seq 0 n) /\ length r = k /\ greedy score n r.
Proof.
  cbv zeta. revert sel rem. induction fuel as [|fuel IH]; intros sel rem Hp Hk Hl Hg Hd.
  - cbn [mmr_loop] in *. split_and!; [by exists rem|lia|done].
  - cbn [mmr_loop] in *. assert (length rem = n - length sel) as Hr
      by (apply Permutation_length in Hp; rewrite length_app, length_seq in Hp; lia).
    rewrite (proj2 (Nat.ltb_lt _ _)), (proj2 (Nat.eqb_neq _ _)) in * by lia. cbn [andb negb] in *.
    assert (forall d, (d < n /\ d ∉ sel) <-> d ∈ rem) as Hrem.
    { intros d. pose proof (NoDup_seq 0 n) as Hnd. rewrite <- Hp, NoDup_app in Hnd.
      assert (d ∈ sel ++ rem <-> d < n) as H by (rewrite Hp, elem_of_seq; lia).
      rewrite elem_of_app in H. naive_solver. }
    destruct (best_of (score sel) (fneg_inf, 0, 0) 0 rem) as [[s d] pos] eqn:Eb.
    set (r := mmr_loop score fuel k (sel ++ [d]) (list_delete pos rem)) in *.
    assert (take (length sel) r = sel) as Ht.
    { destruct (mmr_loop_prefix score fuel k (sel ++ [d]) (list_delete pos rem)) as [t Et]. fold r in Et.
      by rewrite Et, <- app_assoc, take_app_length. }
    assert (length sel < length r) as Hlt.
    { destruct (mmr_loop_prefix score fuel k (sel ++ [d]) (list_delete pos rem)) as [t Et]. fold r in Et.
      rewrite Et, !length_app. cbn. lia. }
    pose proof (best_of_spec (score sel) [] rem (fneg_inf, 0, 0)) as Hb. cbn [app length] in Hb. rewrite Eb in Hb.
    destruct Hb as [[-> _]|(Hpos & Hs & Hmax)]; [|by left|cbn in Hr; lia|].
    { apply Forall_forall. intros x [Hx _]%Hrem. specialize (Hd (length sel) x Hlt Hx). by rewrite Ht in Hd. }
    cbn in Hpos, Hs, Hmax. subst s. apply IH; [|done|rewrite length_app; cbn; lia| |done].
    + rewrite <- Hp, <- app_assoc. cbn. by rewrite <- (delete_Permutation rem pos d Hpos).
    + intros j x x' Hj Hx' Hnx. rewrite lookup_app in Hj. destruct (sel !! j) as [y|] eqn:Ey.
      * simplify_eq. assert (j < length sel) by (by apply lookup_lt_Some in Ey).
        rewrite take_app_le in * by lia. by apply (Hg j).
      * apply lookup_ge_None in Ey. rewrite list_lookup_singleton_Some in Hj. destruct Hj as [Hj <-].
        assert (j = length sel) as -> by lia. rewrite take_app_length in *.
        rewrite Forall_forall in Hmax. apply Hmax. by apply Hrem.
Qed.

(** The loop over all candidates. *)
Lemma mmr_all_greedy score n k :
  let r := mmr_loop score (k `min` n) (k `min` n) [] (seq 0 n) in
  scores_defined score n r ->
  length r = k `min` n /\ NoDup r /\ Forall (fun d => d < n) r /\ greedy score n r.
Proof.
  cbv zeta. intros Hd.
  destruct (mmr_loop_greedy score n (k `min` n) (k `min` n) [] (seq 0 n)) as ([rem' Hp] & Hl & Hg);
    [done|lia|done|by intros j ??; rewrite lookup_nil|done|].
  split_and!; [done| | |done].
  - pose proof (NoDup_seq 0 n) as Hn. rewrite <- Hp in Hn. by apply NoDup_app in Hn as (? & _ & _).
  - apply Forall_forall. intros d Hin. assert (d ∈ seq 0 n) as H by (rewrite <- Hp; set_solver).
    apply elem_of_seq in H. lia.
Qed.

(** The diversified selection returns [k] distinct vectors (all of them
    when there are fewer), and each one it selects has the greatest marginal
    relevance among the vectors not selected before it: the relevance to the
    query weighed against the similarity to those already selected.  The
    scores must not be NaN. *)
Theorem mmr_select_greedy ix query k lam :
  let n := length (vectors ix) in
  let r := mmr_select ix query k lam in
  scores_defined (mmr_score ix query lam) n r ->
  length r = k `min` n /\ NoDup r /\ Forall (fun d => d < n) r /\ greedy (mmr_score ix query lam) n r.
Proof.
  cbv zeta. unfold mmr_select. set (n := length (vectors ix)).
  destruct ((n =? 0) || (k =? 0)) eqn:E; [|apply mmr_all_greedy]. intros _.
  apply orb_true_iff in E as [E|E]; zbool; (split_and!; [cbn; lia|constructor|constructor|by intros j ??; rewrite lookup_nil]).
Qed.

Definition demo_index : EmbeddingIndex :=
  index_extend ((fun d => mkVector (f32_of_Z <$> d) "id" "text" 0) <$> [[1; 0]; [1; 0]; [1; 2]])%Z (with_dimension 2).

Lemma mmr_select_greedy_witness :
  let query := f32_of_Z <$> [1; 0]%Z in
  let r := mmr_select demo_index query 2 (f32_lit 3 10) in
  r = [0; 2] /\ greedy (mmr_score demo_index query (f32_lit 3 10)) (length (vectors demo_index)) r.
Proof.
  cbv zeta. split; [by vm_compute|].
  destruct (mmr_select_greedy demo_index (f32_of_Z <$> [1; 0]%Z) 2 (f32_lit 3 10)) as (_ & _ & _ & H); [|exact H].
  intros j d Hj Hd.
  assert (length (vectors demo_index) = 3) as En by (by vm_compute). rewrite En in Hd.
  assert (length (mmr_select demo_index (f32_of_Z <$> [1; 0]%Z) 2 (f32_lit 3 10)) = 2) as El by (by vm_compute).
  rewrite El in Hj.
  destruct j as [|[|j]]; [| |lia]; destruct d as [|[|[|d]]]; try lia; by vm_compute.
Defined.

(** With vectors whose squared norm overflows, every score is NaN, and the
    selection names the first vector again instead of the one it removes from
    the candidates. *)
Lemma mmr_select_duplicate :
  exists ix query, NoDup (vectors ix) /\ mmr_select ix query 2 (f32_lit 7 10) = [0; 0].
Proof.
  set (big := f32_of_Z (2 ^ 100)).
  exists (mkIndex [mkVector [big] "a" "" 0; mkVector [big] "b" "" 0] 1), [big].
  split; [|by vm_compute].
  apply NoDup_cons. split; [|apply NoDup_singleton]. intros H%list_elem_of_singleton. by injection H.
Qed.

Section rerank_props.
Context `{StrEnv}.

(** The reordering returns [k] of the candidates, each at most as often as it
    was given, and each of greatest marginal relevance when it was chosen. *)
Lemma mmr_rerank_greedy candidates query k lam :
  exists r, mmr_rerank candidates query k lam = candidate candidates <$> r /\
    let n := length candidates in
    (scores_defined (rerank_score candidates lam) n r ->
     length r = k `min` n /\ NoDup r /\ Forall (fun d => d < n) r /\ greedy (rerank_score candidates lam) n r).
Proof.
  unfold mmr_rerank. set (n := length candidates).
  destruct ((n =? 0) || (k =? 0)) eqn:E; [|eexists; split; [done|]; apply mmr_all_greedy].
  exists []. split; [done|]. intros _.
  apply orb_true_iff in E as [E|E]; zbool; (split_and!; [cbn; lia|constructor|constructor|by intros j ??; rewrite lookup_nil]).
Qed.

(** The similarity of two texts does not depend on their order. *)
Lemma jaccard_sym a b : jaccard_text_similarity a b = jaccard_text_similarity b a.
Proof.
  unfold jaccard_text_similarity. generalize (word_set a) (word_set b). intros x y.
  assert (x ∩ y = y ∩ x) as -> by set_solver. assert (x ∪ y = y ∪ x) as -> by set_solver. by rewrite andb_comm.
Qed.
End rerank_props.
