(* ===== verification/Conversation.v ===== *)
(** * Conversations (ccode-sampling-types/src/conversation.rs, ccode-chat/src/compaction_utils.rs)

    The items of a conversation, the passes that restore the pairing of tool
    calls and tool results, and the cut of a rewind.  Texts are UTF-8 bytes.
    Of the types of the Responses API client only the fields the code reads
    are kept. *)

From S2P Require Import Prelude RustStr TextLines TextFind.

(** ** Items *)

Inductive ContentPart :=
| Text (text : string)
| Image (url : string).

Inductive SyntheticReason :=
| CompactionMeta | SystemReminder | ProjectInstructions | AutoContinue | AutoRecovery | Interjection
| TaskCompleted | SubagentCompleted | NotificationDrain | GoalSummary | GoalClassifierNudge | SchedulerFired
| StopHookFeedback | WorkingDirectorySwitch | UnknownReason.
#[global] Instance SyntheticReason_eq_dec : EqDecision SyntheticReason.
Proof. solve_decision. Defined.

Definition starts_prompt_turn (r : SyntheticReason) : bool :=
  match r with
  | TaskCompleted | SubagentCompleted | NotificationDrain | GoalClassifierNudge | SchedulerFired => true
  | CompactionMeta | SystemReminder | ProjectInstructions | AutoContinue | AutoRecovery | Interjection
  | GoalSummary | StopHookFeedback | WorkingDirectorySwitch | UnknownReason => false
  end.

Inductive PriorTurnInterrupt := MidTurnAbort | PermissionRejected | PermissionCancelled | UnknownInterrupt.

Record UserItem := mkUser {
  u_content : list ContentPart;
  synthetic_reason : option SyntheticReason;
  cwd_generation : option Z;
  prior_turn_interrupt : option PriorTurnInterrupt;
  u_prompt_index : option nat
}.

Record ToolCall := mkCall { call_id : string; call_name : string; arguments : string }.

Inductive ReasoningEffort := EffortNone | Minimal | Low | Medium | High | Xhigh | Max.

Record AssistantItem := mkAssistant {
  a_content : string;
  tool_calls : list ToolCall;
  model_id : option string;
  model_fingerprint : option string;
  a_reasoning_effort : option ReasoningEffort
}.

Record ToolResultItem := mkResult { tool_call_id : string; tr_content : string; tr_images : list ContentPart }.

Inductive WebSearchAction :=
| Search (query : string)
| OpenPage (url : option string)
| Find (pattern url : string)
| FindInPage (pattern url : string).

Inductive BackendToolKind :=
| WebSearch (id : string) (action : WebSearchAction)
| XSearch (id name input : string)
| CodeInterpreter (id : string) (code : option string).

Record ReasoningItem := mkReasoning {
  r_summary : list string;
  r_text : option (list string);
  encrypted_content : option string
}.

Inductive ConversationItem :=
| System (content : string)
| User (u : UserItem)
| Assistant (a : AssistantItem)
| ToolResult (t : ToolResultItem)
| BackendToolCall (k : BackendToolKind)
| Reasoning (r : ReasoningItem).

(** ** Constructors *)

Definition user_of (parts : list ContentPart) (r : option SyntheticReason) (g : option Z) : ConversationItem :=
  User (mkUser parts r g None None).
Definition user (s : string) : ConversationItem := user_of [Text s] None None.
Definition user_with_parts (parts : list ContentPart) : ConversationItem := user_of parts None None.
Definition user_meta (s : string) : ConversationItem := user_of [Text s] (Some CompactionMeta) None.
Definition system_reminder (s : string) : ConversationItem := user_of [Text s] (Some SystemReminder) None.
Definition project_instructions (s : string) : ConversationItem := user_of [Text s] (Some ProjectInstructions) None.
Definition working_directory_switch (s : string) (g : Z) : ConversationItem :=
  user_of [Text s] (Some WorkingDirectorySwitch) (Some g).
Definition auto_continue (s : string) : ConversationItem := user_of [Text s] (Some AutoContinue) None.
Definition auto_recovery (s : string) : ConversationItem := user_of [Text s] (Some AutoRecovery) None.
Definition interjection (s : string) : ConversationItem := user_of [Text s] (Some Interjection) None.
Definition assistant (s : string) : ConversationItem := Assistant (mkAssistant s [] None None None).
Definition assistant_with_model (s m : string) : ConversationItem := Assistant (mkAssistant s [] (Some m) None None).
Definition assistant_tool_calls (l : list ToolCall) : ConversationItem :=
  Assistant (mkAssistant EmptyString l None None None).
Definition tool_result (id s : string) : ConversationItem := ToolResult (mkResult id s []).
Definition tool_result_with_images (id s : string) (images : list ContentPart) : ConversationItem :=
  ToolResult (mkResult id s images).

Definition working_directory_switch_generation (i : ConversationItem) : option Z :=
  match i with
  | User u => if bool_decide (synthetic_reason u = Some WorkingDirectorySwitch) then cwd_generation u else None
  | _ => None
  end.

Definition set_prompt_index (n : nat) (i : ConversationItem) : ConversationItem :=
  match i with
  | User u => User (mkUser (u_content u) (synthetic_reason u) (cwd_generation u) (prior_turn_interrupt u) (Some n))
  | _ => i
  end.

Definition set_prior_turn_interrupt (p : PriorTurnInterrupt) (i : ConversationItem) : ConversationItem :=
  match i with
  | User u => User (mkUser (u_content u) (synthetic_reason u) (cwd_generation u) (Some p) (u_prompt_index u))
  | _ => i
  end.

Definition add_image (url : string) (i : ConversationItem) : ConversationItem :=
  match i with
  | User u => User (mkUser (u_content u ++ [Image url]) (synthetic_reason u) (cwd_generation u)
                           (prior_turn_interrupt u) (u_prompt_index u))
  | _ => i
  end.

(** ** Texts *)

(** [BackendToolCallItem::text_summary]; the cut at byte 100 panics inside a
    character. *)
Definition text_summary (k : BackendToolKind) : option string :=
  match k with
  | WebSearch _ a =>
      Some ("[backend web_search] " +:+
            match a with
            | Search q => "search: " +:+ q
            | OpenPage u => "open: " +:+ default "?" u
            | Find p u | FindInPage p u => "find " +:+ str1 "034" +:+ p +:+ str1 "034" +:+ " in " +:+ u
            end)
  | XSearch _ n i => Some ("[backend x_search] " +:+ n +:+ "(" +:+ i +:+ ")")
  | CodeInterpreter _ code =>
      preview ← match code with
                | None => Some EmptyString
                | Some c => if 100 <? String.length c then h ← slice_to c 100; Some (h +:+ "...") else Some c
                end;
      Some ("[backend code_interpreter] " +:+ preview)
  end.

Definition reasoning_item_text (r : ReasoningItem) : string :=
  join_char nl (r_summary r ++ default [] (r_text r)).

Definition parts_text (l : list ContentPart) : list string :=
  omap (fun p => match p with Text t => Some t | Image _ => None end) l.

Definition text_content (i : ConversationItem) : option string :=
  match i with
  | System s => Some s
  | User u => Some (join_char nl (parts_text (u_content u)))
  | Assistant a => Some (a_content a)
  | ToolResult t => Some (tr_content t)
  | BackendToolCall k => text_summary k
  | Reasoning r => Some (reasoning_item_text r)
  end.

(** ** Tool calls without results *)

Inductive DanglingToolCallReason :=
| UserCancelled
| HarnessHalted (class : string).

Definition synthetic_dangling_result_text (name : string) (reason : DanglingToolCallReason) : string :=
  match reason with
  | UserCancelled => "Tool execution was cancelled by the user (tool `" +:+ name +:+ "` was not executed)."
  | HarnessHalted c => "Tool execution was halted by the harness (" +:+ c +:+ "); the tool `" +:+ name +:+ "` was not executed."
  end.

Definition has_calls (i : ConversationItem) : bool :=
  match i with Assistant a => negb (bool_decide (length (tool_calls a) = 0)) | _ => false end.
Definition calls_of (i : ConversationItem) : list ToolCall :=
  match i with Assistant a => tool_calls a | _ => [] end.

(** The identifiers of the run of results a list starts with. *)
Fixpoint run_ids (l : list ConversationItem) : list string :=
  match l with
  | ToolResult t :: l' => tool_call_id t :: run_ids l'
  | _ => []
  end.

Definition synthetic (reason : DanglingToolCallReason) (answered : list string) (calls : list ToolCall)
    : list ConversationItem :=
  (fun c => tool_result (call_id c) (synthetic_dangling_result_text (call_name c) reason)) <$>
  filter (fun c => call_id c ∉ answered) calls.

(** Phase 1: the positions to insert at and what to insert; [fuel] bounds the
    steps of the index. *)
Fixpoint find_repairs (reason : DanglingToolCallReason) (conversation : list ConversationItem) (fuel i : nat)
    : list (nat * list ConversationItem) :=
  match fuel with
  | O => []
  | S f =>
      match conversation !! i with
      | None => []
      | Some x =>
          if has_calls x then
            let answered := run_ids (drop (i + 1) conversation) in
            let j := i + 1 + length answered in
            let items := synthetic reason answered (calls_of x) in
            (if bool_decide (length items = 0) then [] else [(j, items)]) ++ find_repairs reason conversation f j
          else find_repairs reason conversation f (i + 1)
      end
  end.

(** [conversation.splice(at..at, items)] *)
Definition splice (pos : nat) (items conversation : list ConversationItem) : list ConversationItem :=
  take pos conversation ++ items ++ drop pos conversation.

(** Phase 2: from the last position to the first. *)
Definition apply_repairs (repairs : list (nat * list ConversationItem)) (conversation : list ConversationItem)
    : list ConversationItem :=
  foldr (fun r c => splice r.1 r.2 c) conversation repairs.

Definition repair_dangling_tool_calls (reason : DanglingToolCallReason) (conversation : list ConversationItem)
    : nat * list ConversationItem :=
  let repairs := find_repairs reason conversation (length conversation) 0 in
  (sum_list_with (fun r => length r.2) repairs, apply_repairs repairs conversation).

Fixpoint dangling_from (conversation : list ConversationItem) (fuel i : nat) : bool :=
  match fuel with
  | O => false
  | S f =>
      match conversation !! i with
      | None => false
      | Some x =>
          if has_calls x then
            let answered := run_ids (drop (i + 1) conversation) in
            existsb (fun c => negb (bool_decide (call_id c ∈ answered))) (calls_of x)
            || dangling_from conversation f (i + 1 + length answered)
          else dangling_from conversation f (i + 1)
      end
  end.
Definition has_dangling_tool_calls (conversation : list ConversationItem) : bool :=
  dangling_from conversation (length conversation) 0.

(** ** Duplicate results *)

(** The scan of a run: the last position of each identifier and the earlier
    positions to remove. *)
Fixpoint scan_run (ids : list string) (idx : nat) (seen : gmap string nat) : list nat :=
  match ids with
  | [] => []
  | id :: ids' =>
      match seen !! id with
      | Some prev => prev :: scan_run ids' (S idx) (<[id := idx]> seen)
      | None => scan_run ids' (S idx) (<[id := idx]> seen)
      end
  end.

(** [to_remove.sort_unstable(); to_remove.reverse(); conversation.remove(i)]
    for each: the positions are distinct. *)
Definition remove_all (to_remove : list nat) (conversation : list ConversationItem) : list ConversationItem :=
  foldl (fun c i => list_delete i c) conversation (reverse (merge_sort le to_remove)).

Fixpoint dedup_loop (fuel i removed : nat) (conversation : list ConversationItem)
    : option (nat * list ConversationItem) :=
  match fuel with
  | O => None
  | S f =>
      match conversation !! i with
      | None => Some (removed, conversation)
      | Some x =>
          if has_calls x then
            let ids := run_ids (drop (i + 1) conversation) in
            let to_remove := scan_run ids (i + 1) ∅ in
            match to_remove with
            | [] => dedup_loop f (i + 1 + length ids) removed conversation
            | _ => dedup_loop f i (removed + length to_remove) (remove_all to_remove conversation)
            end
          else dedup_loop f (i + 1) removed conversation
      end
  end.

(** The loop goes round once for each item and once for each removal. *)
Definition dedup_fuel (conversation : list ConversationItem) : nat := 2 * length conversation + 1.
Definition dedup_duplicate_tool_results (conversation : list ConversationItem) : option (nat * list ConversationItem) :=
  dedup_loop (dedup_fuel conversation) 0 0 conversation.

(** ** Results away from their call (compaction_utils.rs) *)

(** [items.retain] with the identifiers of the open run. *)
Fixpoint strip_displaced (run : list string) (items : list ConversationItem) : list ConversationItem * list string :=
  match items with
  | [] => ([], [])
  | x :: l =>
      match x with
      | Assistant a => let '(k, s) := strip_displaced (call_id <$> tool_calls a) l in (x :: k, s)
      | ToolResult t =>
          let '(k, s) := strip_displaced run l in
          if bool_decide (tool_call_id t ∈ run) then (x :: k, s) else (k, tool_call_id t :: s)
      | _ => let '(k, s) := strip_displaced [] l in (x :: k, s)
      end
  end.
Definition strip_displaced_tool_results (items : list ConversationItem) : list ConversationItem * list string :=
  strip_displaced [] items.

Record HistoryRepairReport := mkReport {
  duplicates_removed : nat;
  stripped_tool_result_ids : list string;
  synthetic_results_inserted : nat
}.

Definition changed (r : HistoryRepairReport) : bool :=
  (0 <? duplicates_removed r) || negb (bool_decide (length (stripped_tool_result_ids r) = 0))
  || (0 <? synthetic_results_inserted r).

Definition repair_history (items : list ConversationItem) : option (HistoryRepairReport * list ConversationItem) :=
  '(d, items) ← dedup_duplicate_tool_results items;
  let '(items, s) := strip_displaced_tool_results items in
  let '(n, items) := repair_dangling_tool_calls (HarnessHalted "history_repair") items in
  Some (mkReport d s n, items).

(** [validate_compacted_history] and [sanitize_compacted_history]: a result
    must follow some call with its identifier, anywhere before it. *)
Fixpoint invalid_from (seen : gset string) (items : list ConversationItem) : list string :=
  match items with
  | [] => []
  | Assistant a :: l => invalid_from (list_to_set (call_id <$> tool_calls a) ∪ seen) l
  | ToolResult t :: l =>
      if bool_decide (tool_call_id t ∈ seen) then invalid_from seen l else tool_call_id t :: invalid_from seen l
  | _ :: l => invalid_from seen l
  end.
Definition validate_compacted_history (items : list ConversationItem) : list string := invalid_from ∅ items.

Fixpoint sanitize_from (seen : gset string) (items : list ConversationItem) : list ConversationItem * list string :=
  match items with
  | [] => ([], [])
  | x :: l =>
      match x with
      | Assistant a =>
          let '(k, s) := sanitize_from (list_to_set (call_id <$> tool_calls a) ∪ seen) l in (x :: k, s)
      | ToolResult t =>
          let '(k, s) := sanitize_from seen l in
          if bool_decide (tool_call_id t ∈ seen) then (x :: k, s) else (k, tool_call_id t :: s)
      | _ => let '(k, s) := sanitize_from seen l in (x :: k, s)
      end
  end.
Definition sanitize_compacted_history (items : list ConversationItem) : list ConversationItem * list string :=
  sanitize_from ∅ items.

(** ** The cut of a rewind (conversation.rs) *)

Definition marker (i : ConversationItem) : option nat :=
  match i with User u => u_prompt_index u | _ => None end.

Definition first_marker (l : list ConversationItem) : option nat :=
  head (omap marker l).

Fixpoint cut_markers (target i : nat) (l : list ConversationItem) : nat :=
  match l with
  | [] => i
  | x :: l' =>
      match marker x with
      | Some idx => if target <=? idx then i else cut_markers target (S i) l'
      | None => cut_markers target (S i) l'
      end
  end.
Definition conversation_truncate_markers_only (l : list ConversationItem) (target : nat) : nat := cut_markers target 0 l.

(** The index an item without marker takes, and whether the preamble was seen. *)
Definition legacy_index (u : UserItem) (next : nat) (seen_preamble : bool) : option nat * bool :=
  match synthetic_reason u with
  | None => if seen_preamble then (Some next, true) else (None, true)
  | Some r => (if starts_prompt_turn r then Some next else None, seen_preamble)
  end.

Fixpoint cut_legacy (target i next : nat) (pre : bool) (l : list ConversationItem) : nat :=
  match l with
  | [] => i
  | User u :: l' =>
      match legacy_index u next pre with
      | (Some idx, pre) => if target <=? idx then i else cut_legacy target (S i) (idx + 1) pre l'
      | (None, pre) => cut_legacy target (S i) next pre l'
      end
  | _ :: l' => cut_legacy target (S i) next pre l'
  end.
Definition conversation_truncate_legacy (l : list ConversationItem) (target : nat) : nat := cut_legacy target 0 0 false l.

Fixpoint count_turns (turns : nat) (pre : bool) (l : list ConversationItem) : nat :=
  match l with
  | [] => turns
  | User u :: l' =>
      match u_prompt_index u with
      | Some _ => turns
      | None =>
          match legacy_index u turns pre with
          | (Some _, pre) => count_turns (turns + 1) pre l'
          | (None, pre) => count_turns turns pre l'
          end
      end
  | _ :: l' => count_turns turns pre l'
  end.
Definition count_legacy_turns_until_marker (l : list ConversationItem) : nat := count_turns 0 false l.

Fixpoint cut_progressive (target i next : nat) (pre seen_marker : bool) (l : list ConversationItem) : nat :=
  match l with
  | [] => i
  | User u :: l' =>
      match u_prompt_index u with
      | Some idx => if target <=? idx then i else cut_progressive target (S i) next pre true l'
      | None =>
          if seen_marker then cut_progressive target (S i) next pre seen_marker l'
          else match legacy_index u next pre with
               | (Some idx, pre) => if target <=? idx then i else cut_progressive target (S i) (idx + 1) pre false l'
               | (None, pre) => cut_progressive target (S i) next pre false l'
               end
      end
  | _ :: l' => cut_progressive target (S i) next pre seen_marker l'
  end.
Definition conversation_truncate_progressive (l : list ConversationItem) (target : nat) : nat :=
  cut_progressive target 0 0 false false l.

Definition conversation_truncate_for_prompt (l : list ConversationItem) (target : nat) : nat :=
  match first_marker l with
  | None => conversation_truncate_legacy l target
  | Some idx =>
      if count_legacy_turns_until_marker l =? idx then conversation_truncate_progressive l target
      else conversation_truncate_markers_only l target
  end.

(** ** Changing the working directory of a fork (conversation.rs) *)

(** [if s.contains(from) { s.replace(from, to) }] *)
Definition recwd (from to s : string) : string := if str_contains from s then str_replace from to s else s.

Definition transform_item (from to : string) (i : ConversationItem) : ConversationItem :=
  match i with
  | System s => System (recwd from to s)
  | User u =>
      User (mkUser ((fun p => match p with Text t => Text (recwd from to t) | Image _ => p end) <$> u_content u)
              (synthetic_reason u) (cwd_generation u) (prior_turn_interrupt u) (u_prompt_index u))
  | Assistant a =>
      Assistant (mkAssistant (recwd from to (a_content a))
        ((fun c => mkCall (call_id c) (call_name c) (recwd from to (arguments c))) <$> tool_calls a)
        (model_id a) (model_fingerprint a) (a_reasoning_effort a))
  | ToolResult t => ToolResult (mkResult (tool_call_id t) (recwd from to (tr_content t)) (tr_images t))
  | BackendToolCall _ => i
  | Reasoning r =>
      Reasoning (mkReasoning (recwd from to <$> r_summary r) ((fun l : list string => recwd from to <$> l) <$> r_text r) (encrypted_content r))
  end.
Definition transform_conversation_cwd (from to : string) (l : list ConversationItem) : list ConversationItem :=
  transform_item from to <$> l.

(** ** Preparing a conversation for the summary (compaction_utils.rs) *)

Definition set_a_content (s : string) (calls : list ToolCall) (a : AssistantItem) : AssistantItem :=
  mkAssistant s calls (model_id a) (model_fingerprint a) (a_reasoning_effort a).

Definition strip_tool_messages_for_conversation_item (l : list ConversationItem) : list ConversationItem :=
  omap (fun i =>
    match i with
    | ToolResult _ => None
    | Assistant a =>
        Some (Assistant
          match tool_calls a with
          | [] => a
          | calls => set_a_content (a_content a +:+ str1 nl +:+ "[Called tools: " +:+
                                    join_str ", " (call_name <$> calls) +:+ "]") [] a
          end)
    | _ => Some i
    end) l.

Definition strip_reasoning_blocks (l : list ConversationItem) : list ConversationItem :=
  omap (fun i => match i with Reasoning _ => None | _ => Some i end) l.

Definition strip_images (l : list ConversationItem) : list ConversationItem :=
  (fun i => match i with
            | User u => User (mkUser ((fun p => match p with Image _ => Text "[image]" | _ => p end) <$> u_content u)
                                (synthetic_reason u) (cwd_generation u) (prior_turn_interrupt u) (u_prompt_index u))
            | _ => i
            end) <$> l.

Definition prepare_conversation_for_summarization (l : list ConversationItem) : list ConversationItem :=
  strip_images (strip_reasoning_blocks (strip_tool_messages_for_conversation_item l)).
Definition prepare_conversation_for_segment (l : list ConversationItem) : list ConversationItem :=
  strip_images (strip_reasoning_blocks l).

(** [while last is an assistant with calls { pop }] on the reversed list. *)
Fixpoint drop_calls (rev_l : list ConversationItem) : list ConversationItem :=
  match rev_l with
  | x :: l => if has_calls x then drop_calls l else rev_l
  | [] => []
  end.
Definition truncate_trailing_incomplete_tool_call (l : list ConversationItem) : list ConversationItem :=
  reverse (drop_calls (reverse l)).

Definition prepare_conversation_for_verbatim_summarization (l : list ConversationItem) (strip_reasoning : bool)
    : list ConversationItem :=
  truncate_trailing_incomplete_tool_call (if strip_reasoning then strip_reasoning_blocks l else l).

(** ** Reference definitions: one pass over the items *)

(** Inserting results for the calls still [pending] at the end of a run. *)
Fixpoint repaired (reason : DanglingToolCallReason) (pending : list ToolCall) (l : list ConversationItem)
    : list ConversationItem :=
  match l with
  | ToolResult t :: l' =>
      ToolResult t :: repaired reason (filter (fun c => call_id c <> tool_call_id t) pending) l'
  | x :: l' => synthetic reason [] pending ++ x :: repaired reason (calls_of x) l'
  | [] => synthetic reason [] pending
  end.

(** Dropping a result of a run when its identifier occurs again in the run. *)
Fixpoint deduped (in_run : bool) (l : list ConversationItem) : list ConversationItem :=
  match l with
  | ToolResult t :: l' =>
      if in_run && bool_decide (tool_call_id t ∈ run_ids l') then deduped in_run l'
      else ToolResult t :: deduped in_run l'
  | x :: l' => x :: deduped (has_calls x) l'
  | [] => []
  end.

(** What a provider accepts: every result answers, once, a call of the
    assistant item its run follows, and no call is left over. *)
Fixpoint paired (pending : list string) (l : list ConversationItem) : bool :=
  match l with
  | ToolResult t :: l' =>
      bool_decide (tool_call_id t ∈ pending) && paired (filter (fun i => i <> tool_call_id t) pending) l'
  | x :: l' => bool_decide (pending = []) && paired (call_id <$> calls_of x) l'
  | [] => bool_decide (pending = [])
  end.

Definition distinct_calls (l : list ConversationItem) : Prop :=
  Forall (fun x => NoDup (call_id <$> calls_of x)) l.

Definition is_result (x : ConversationItem) : bool := match x with ToolResult _ => true | _ => false end.

(** ** The insertion of missing results *)

Lemma filter_app_notin (answered : list string) id (cs : list ToolCall) :
  filter (fun c => call_id c ∉ answered) (filter (fun c => call_id c <> id) cs) =
  filter (fun c => call_id c ∉ id :: answered) cs.
Proof.
  rewrite list_filter_filter. apply list_filter_iff. intros c. rewrite not_elem_of_cons. tauto.
Qed.

Lemma repaired_run reason pending l :
  let n := length (run_ids l) in
  repaired reason pending l =
  take n l ++ synthetic reason (run_ids l) pending ++ repaired reason [] (drop n l).
Proof.
  cbv zeta. revert pending. induction l as [|x l IH]; intros pending; cbn; [by rewrite app_nil_r|].
  destruct x; cbn; rewrite ?app_nil_r; try done.
  rewrite IH. do 2 f_equal. unfold synthetic. by rewrite filter_app_notin.
Qed.

Lemma repaired_skip reason x l : has_calls x = false -> repaired reason [] (x :: l) = x :: repaired reason [] l.
Proof. destruct x; cbn; try done. intros H%negb_false_iff. zbool. by destruct (tool_calls a). Qed.

Lemma run_ids_length l : length (run_ids l) <= length l.
Proof. induction l as [|[] l IH]; cbn; lia. Qed.

Lemma find_repairs_ref reason l fuel i :
  length l <= i + fuel ->
  apply_repairs (find_repairs reason l fuel i) l = take i l ++ repaired reason [] (drop i l).
Proof.
  revert i. induction fuel as [|fuel IH]; intros i Hf; cbn [find_repairs].
  - rewrite drop_ge, take_ge by lia. cbn. by rewrite app_nil_r.
  - destruct (l !! i) as [x|] eqn:Ex.
    2: { apply lookup_ge_None in Ex. rewrite drop_ge, take_ge by lia. cbn. by rewrite app_nil_r. }
    rewrite (drop_S l x i Ex). pose proof (lookup_lt_Some _ _ _ Ex) as Hlt.
    destruct (has_calls x) eqn:Hc.
    + replace (i + 1) with (S i) by lia. set (ids := run_ids (drop (S i) l)). set (j := S i + length ids).
      assert (take i l ++ repaired reason [] (x :: drop (S i) l) =
              take j l ++ synthetic reason ids (calls_of x) ++ repaired reason [] (drop j l)) as ->.
      { assert (repaired reason [] (x :: drop (S i) l) = x :: repaired reason (calls_of x) (drop (S i) l)) as ->
          by (by destruct x).
        rewrite repaired_run. fold ids. rewrite drop_drop. fold j. unfold j.
        rewrite <- (take_take_drop l (S i) (length ids)), (take_S_r l i x) by done. by rewrite <- !app_assoc. }
      unfold apply_repairs. rewrite foldr_app. fold (apply_repairs (find_repairs reason l fuel j) l).
      rewrite IH by lia. case_bool_decide as Hn.
      * apply nil_length_inv in Hn. cbn. by rewrite Hn.
      * cbn. unfold splice. assert (j <= length l) as Hj.
        { unfold j, ids. pose proof (run_ids_length (drop (S i) l)) as H. rewrite length_drop in H. lia. }
        rewrite take_app_length', drop_app_length' by (rewrite length_take; lia). done.
    + replace (i + 1) with (S i) by lia. rewrite IH by lia. rewrite repaired_skip by done.
      rewrite (take_S_r l i x) by done. by rewrite <- app_assoc.
Qed.

Lemma repair_dangling_ref reason l :
  repair_dangling_tool_calls reason l =
  (length (repaired reason [] l) - length l, repaired reason [] l).
Proof.
  unfold repair_dangling_tool_calls. rewrite find_repairs_ref by lia. cbn [take app]. rewrite drop_0. f_equal.
  transitivity (length (apply_repairs (find_repairs reason l (length l) 0) l) - length l).
  - generalize (find_repairs reason l (length l) 0). intros rs.
    assert (length (apply_repairs rs l) = length l + sum_list_with (fun r => length r.2) rs) as ->; [|lia].
    induction rs as [|[p ins] rs IH]; [cbn; lia|].
    change (apply_repairs ((p, ins) :: rs) l) with (splice p ins (apply_repairs rs l)). cbn [sum_list_with snd].
    unfold splice. rewrite !length_app.
    pose proof (take_drop p (apply_repairs rs l)) as H. apply (f_equal length) in H. rewrite length_app in H. lia.
  - by rewrite find_repairs_ref by lia.
Qed.

(** ** The removal of duplicates *)

(** A list without the positions [ps], counted from [b]. *)
Fixpoint without {A} (ps : list nat) (b : nat) (l : list A) : list A :=
  match l with
  | [] => []
  | x :: l' => if bool_decide (b ∈ ps) then without ps (S b) l' else x :: without ps (S b) l'
  end.

Lemma without_ext {A} ps ps' b (l : list A) :
  (forall p, b <= p -> p ∈ ps <-> p ∈ ps') -> without ps b l = without ps' b l.
Proof.
  revert b. induction l as [|x l IH]; intros b H; cbn; [done|].
  rewrite (IH (S b)) by (intros p Hp; apply H; lia).
  by rewrite (bool_decide_ext (b ∈ ps) (b ∈ ps') (H b ltac:(lia))).
Qed.

Lemma without_nil {A} b (l : list A) : without [] b l = l.
Proof. revert b. induction l as [|x l IH]; intros b; cbn; [done|]. by rewrite IH. Qed.

Lemma delete_without {A} p ps b (l : list A) :
  Forall (fun q => b + p < q) ps -> list_delete p (without ps b l) = without (b + p :: ps) b l.
Proof.
  revert p b. induction l as [|x l IH]; intros p b Hp; [by destruct p|]. cbn [without].
  assert (b ∉ ps) as Hb by (rewrite Forall_forall in Hp; intros H%Hp; lia).
  rewrite (bool_decide_false (b ∈ ps)) by done. destruct p as [|p].
  - rewrite bool_decide_true by (rewrite Nat.add_0_r; by left). cbn. apply without_ext.
    intros q Hq. rewrite elem_of_cons. split; [by right|]. intros [->|?]; [lia|done].
  - rewrite bool_decide_false by (intros [?|?]%elem_of_cons; [lia|done]). cbn. f_equal.
    replace (b + S p) with (S b + p) by lia. apply IH. eapply Forall_impl; [exact Hp|]. cbn. lia.
Qed.

Lemma remove_all_without ps (l : list ConversationItem) : NoDup ps -> remove_all ps l = without ps 0 l.
Proof.
  intros Hnd. unfold remove_all.
  pose proof (merge_sort_Permutation le ps) as Hp.
  rewrite (without_ext ps (merge_sort le ps)) by (intros p _; by rewrite Hp).
  assert (StronglySorted le (merge_sort le ps)) as Hs by (apply StronglySorted_merge_sort; apply _).
  rewrite <- Hp in Hnd. clear Hp. revert Hnd Hs. generalize (merge_sort le ps). intros qs Hnd Hs.
  assert (forall (c : list ConversationItem), foldl (fun c i => list_delete i c) c (reverse qs) = without qs 0 c) as H; [|apply H].
  induction Hs as [|q qs Hs IH Hq]; intros c; [cbn; by rewrite without_nil|].
  apply NoDup_cons in Hnd as [Hn Hnd]. rewrite reverse_cons, foldl_app. cbn. rewrite IH by done.
  apply (delete_without q qs 0). rewrite Forall_forall in Hq |- *. intros r Hr. specialize (Hq r Hr).
  assert (q <> r) by (intros ->; done). lia.
Qed.

Lemma elem_of_scan_run ids idx (seen : gmap string nat) p :
  p ∈ scan_run ids idx seen <->
  (exists id, seen !! id = Some p /\ id ∈ ids) \/
  (exists k id, ids !! k = Some id /\ id ∈ drop (S k) ids /\ p = idx + k).
Proof.
  revert idx seen. induction ids as [|id ids IH]; intros idx seen; cbn [scan_run].
  - split; [by intros ?%not_elem_of_nil|]. intros [(? & _ & ?%not_elem_of_nil)|(? & ? & ? & _)]; done.
  - assert (p ∈ scan_run ids (S idx) (<[id := idx]> seen) <->
      (exists id', id' <> id /\ seen !! id' = Some p /\ id' ∈ ids) \/
      (exists k id', (id :: ids) !! k = Some id' /\ id' ∈ drop (S k) (id :: ids) /\ p = idx + k)) as Hrec.
    { rewrite IH. split.
      - intros [(id' & Hs & Hin)|(k & id' & Hk & Hin & ->)].
        + apply lookup_insert_Some in Hs as [[<- <-]|[Hne Hs]]; [right; exists 0, id; cbn; split_and!; [done..|lia]|].
          left. by exists id'.
        + right. exists (S k), id'. cbn. split_and!; [done..|lia].
      - intros [(id' & Hne & Hs & Hin)|([|k] & id' & Hk & Hin & ->)].
        + left. exists id'. by rewrite lookup_insert_ne.
        + cbn in Hk. simplify_eq. left. exists id'. rewrite lookup_insert_eq. split; [f_equal; lia|done].
        + right. exists k, id'. cbn in *. split_and!; [done..|lia]. }
    destruct (seen !! id) as [prev|] eqn:Es; rewrite ?elem_of_cons, Hrec; [split|split].
    + intros [->|[(id' & Hne & Hs & Hin)|H]]; [left; exists id; split; [done|by left]| |by right].
      left. exists id'. split; [done|by right].
    + intros [(id' & Hs & [->|Hin]%elem_of_cons)|H]; [left; congruence| |by right; right].
      destruct (decide (id' = id)) as [->|]; [left; congruence|]. right. left. by exists id'.
    + intros [(id' & Hne & Hs & Hin)|H]; [left; exists id'; split; [done|by right]|by right].
    + intros [(id' & Hs & [->|Hin]%elem_of_cons)|H]; [congruence| |by right].
      left. exists id'. split_and!; [|done..]. congruence.
Qed.

Lemma scan_run_NoDup ids idx (seen : gmap string nat) :
  (forall id p, seen !! id = Some p -> p < idx) ->
  (forall id id' p, seen !! id = Some p -> seen !! id' = Some p -> id = id') ->
  NoDup (scan_run ids idx seen).
Proof.
  revert idx seen. induction ids as [|id ids IH]; intros idx seen Hlt Hinj; cbn [scan_run]; [constructor|].
  assert (NoDup (scan_run ids (S idx) (<[id := idx]> seen))) as Hnd.
  { apply IH.
    - intros id' p [[_ <-]|[_ H]]%lookup_insert_Some; [lia|]. specialize (Hlt _ _ H). lia.
    - intros i1 i2 p [[<- <-]|[_ H1]]%lookup_insert_Some [[<- E]|[_ H2]]%lookup_insert_Some; [done| | |by eapply Hinj].
      + specialize (Hlt _ _ H2). lia.
      + subst. specialize (Hlt _ _ H1). lia. }
  destruct (seen !! id) as [prev|] eqn:Es; [|done]. apply NoDup_cons. split; [|done].
  rewrite elem_of_scan_run. intros [(id' & Hs & _)|(k & id' & _ & _ & ->)].
  - apply lookup_insert_Some in Hs as [[<- E]|[Hne Hs]]; [specialize (Hlt _ _ Es); lia|].
    by destruct (Hne (Hinj _ _ _ Es Hs)).
  - specialize (Hlt _ _ Es). lia.
Qed.

(** The run a list starts with, with only the last result of each call. *)
Fixpoint keep_last (l : list ConversationItem) : list ConversationItem :=
  match l with
  | ToolResult t :: l' =>
      if bool_decide (tool_call_id t ∈ run_ids l') then keep_last l' else ToolResult t :: keep_last l'
  | _ => l
  end.

Lemma keep_last_length l : length (keep_last l) <= length l.
Proof. induction l as [|[] l IH]; cbn; try case_bool_decide; cbn; lia. Qed.

Lemma keep_last_ids l id : id ∈ run_ids (keep_last l) <-> id ∈ run_ids l.
Proof.
  induction l as [|[] l IH]; cbn; try done. case_bool_decide; cbn; rewrite ?elem_of_cons, IH; [|done].
  split; [by right|]. intros [->|?]; done.
Qed.

Lemma deduped_keep_last l : deduped true (keep_last l) = deduped true l.
Proof.
  induction l as [|[] l IH]; cbn; try done. case_bool_decide; [done|]. cbn.
  by rewrite bool_decide_false, IH by (by rewrite keep_last_ids).
Qed.

Lemma deduped_kept l :
  keep_last l = l ->
  let n := length (run_ids l) in deduped true l = take n l ++ deduped false (drop n l).
Proof.
  cbv zeta. induction l as [|x l IH]; [done|]. destruct x; cbn; try done.
  case_bool_decide as H; cbn [andb].
  - intros E. pose proof (keep_last_length l). apply (f_equal length) in E. cbn in E. lia.
  - intros [= E]. by rewrite IH.
Qed.

Lemma without_keep_last ps b l :
  (forall p, b <= p -> p ∈ ps <-> exists k id, run_ids l !! k = Some id /\ id ∈ drop (S k) (run_ids l) /\ p = b + k) ->
  without ps b l = keep_last l.
Proof.
  revert b. induction l as [|x l IH]; intros b H; [done|].
  assert (run_ids (x :: l) = [] -> without ps b (x :: l) = x :: l) as Hnil.
  { intros E. rewrite (without_ext ps []), without_nil; [done|]. intros p Hp. rewrite (H p Hp), E.
    split; [intros (? & ? & ? & _); done|by intros ?%not_elem_of_nil]. }
  destruct x; try (by apply Hnil). clear Hnil. cbn [without keep_last].
  assert (b ∈ ps <-> tool_call_id t ∈ run_ids l) as Hb.
  { rewrite (H b) by lia. cbn [run_ids]. split.
    - intros (k & id & Hk & Hin & E). assert (k = 0) as -> by lia. cbn in *. by simplify_eq.
    - intros Hin. exists 0, (tool_call_id t). cbn. split_and!; [done..|lia]. }
  rewrite (bool_decide_ext _ _ Hb), IH; [done|].
  intros p Hp. rewrite (H p) by lia. cbn [run_ids]. split.
  - intros ([|k] & id & Hk & Hin & ->); [lia|]. exists k, id. cbn in *. split_and!; [done..|lia].
  - intros (k & id & Hk & Hin & ->). exists (S k), id. cbn. split_and!; [done..|lia].
Qed.

Lemma without_app {A} ps b (l1 l2 : list A) :
  without ps b (l1 ++ l2) = without ps b l1 ++ without ps (b + length l1) l2.
Proof.
  revert b. induction l1 as [|x l1 IH]; intros b; cbn; [by rewrite Nat.add_0_r|].
  rewrite IH, Nat.add_succ_r. by case_bool_decide.
Qed.

Lemma without_above {A} ps b (l : list A) : Forall (fun p => b + length l <= p) ps -> without ps b l = l.
Proof.
  revert b. induction l as [|x l IH]; intros b H; cbn in *; [done|].
  rewrite bool_decide_false, IH; [done| |].
  - eapply Forall_impl; [exact H|]. cbn. lia.
  - rewrite Forall_forall in H. intros Hb%H. lia.
Qed.

Lemma length_without {A} ps b (l : list A) :
  NoDup ps -> Forall (fun p => b <= p < b + length l) ps -> length (without ps b l) + length ps = length l.
Proof.
  revert ps b. induction l as [|x l IH]; intros ps b Hnd Hp.
  - destruct ps as [|p ps]; [done|]. apply Forall_cons in Hp as [Hp _]. cbn in Hp. lia.
  - cbn [without length] in *. case_bool_decide as Hb.
    + apply elem_of_Permutation in Hb as [ps' E]. rewrite E in Hnd, Hp.
      apply NoDup_cons in Hnd as [Hn Hnd]. apply Forall_cons in Hp as [_ Hp].
      rewrite (Permutation_length E), (without_ext ps ps').
      * cbn. rewrite Nat.add_succ_r. f_equal. apply IH; [done|]. rewrite Forall_forall in *. intros p H.
        specialize (Hp p H). assert (p <> b) by (intros ->; done). lia.
      * intros p Hlt. rewrite E, elem_of_cons. split; [|by right]. intros [->|?]; [lia|done].
    + cbn. f_equal. apply IH; [done|]. rewrite Forall_forall in *. intros p H.
      specialize (Hp p H). assert (p <> b) by (intros ->; done). lia.
Qed.

(** One round of the loop on an assistant item with calls. *)
Lemma remove_run i l :
  i < length l ->
  let ps := scan_run (run_ids (drop (S i) l)) (S i) ∅ in
  remove_all ps l = take (S i) l ++ keep_last (drop (S i) l) /\ length (remove_all ps l) + length ps = length l.
Proof.
  intros Hi. cbv zeta. set (ids := run_ids (drop (S i) l)). set (ps := scan_run ids (S i) ∅).
  assert (forall p, p ∈ ps <-> exists k id, ids !! k = Some id /\ id ∈ drop (S k) ids /\ p = S i + k) as Hps.
  { intros p. unfold ps. rewrite elem_of_scan_run. split; [|by right].
    intros [(id & Hs & _)|?]; [by rewrite lookup_empty in Hs|done]. }
  assert (NoDup ps) as Hnd by (apply scan_run_NoDup; by setoid_rewrite lookup_empty).
  rewrite remove_all_without by done. split.
  2: { apply length_without; [done|]. apply Forall_forall. intros p (k & id & Hk & _ & ->)%Hps.
       apply lookup_lt_Some in Hk. pose proof (run_ids_length (drop (S i) l)) as H. fold ids in H.
       rewrite length_drop in H. lia. }
  rewrite <- (take_drop (S i) l) at 1. rewrite without_app. f_equal.
  - apply without_above, Forall_forall. intros p (k & id & _ & _ & ->)%Hps. rewrite length_take. lia.
  - apply without_keep_last. intros p _. rewrite Hps, length_take. cbn [Nat.add]. by rewrite Nat.min_l by lia.
Qed.

Lemma deduped_length b l : length (deduped b l) <= length l.
Proof.
  revert b. induction l as [|x l IH]; intros b; cbn; [lia|].
  destruct x; cbn; try (apply le_n_S, IH). destruct (b && _); cbn; specialize (IH b); lia.
Qed.

Lemma dedup_loop_ref fuel i r l :
  2 * (length l - i) < fuel ->
  let out := take i l ++ deduped false (drop i l) in
  dedup_loop fuel i r l = Some (r + (length l - length out), out).
Proof.
  cbv zeta. revert i r l. induction fuel as [|fuel IH]; intros i r l Hf; [lia|]. cbn [dedup_loop].
  destruct (l !! i) as [x|] eqn:Ex.
  2: { apply lookup_ge_None in Ex. rewrite drop_ge, take_ge by lia. cbn [deduped]. rewrite app_nil_r.
       do 2 f_equal. lia. }
  rewrite (drop_S l x i Ex). pose proof (lookup_lt_Some _ _ _ Ex) as Hlt. replace (i + 1) with (S i) by lia.
  assert (take (S i) l = take i l ++ [x]) as Ht by (by apply take_S_r).
  destruct (has_calls x) eqn:Hc.
  - assert (deduped false (x :: drop (S i) l) = x :: deduped true (drop (S i) l)) as ->
      by (destruct x; try done; cbn [deduped]; by rewrite Hc).
    destruct (remove_run i l Hlt) as [Hr Hlen].
    set (ids := run_ids (drop (S i) l)) in *. destruct (scan_run ids (S i) ∅) as [|p ps] eqn:Es.
    + assert (keep_last (drop (S i) l) = drop (S i) l) as Hk.
      { unfold remove_all in Hr. cbn in Hr. rewrite <- (take_drop (S i) l) in Hr at 1. by apply app_inv_head in Hr. }
      rewrite IH by lia. rewrite (deduped_kept _ Hk). fold ids. rewrite drop_drop.
      assert (take (S i + length ids) l = take i l ++ x :: take (length ids) (drop (S i) l)) as ->
        by (rewrite <- take_take_drop, Ht, <- app_assoc; done).
      by rewrite <- !app_assoc.
    + rewrite IH by (cbn [length] in Hlen; lia).
      assert (take i (remove_all (p :: ps) l) = take i l) as ->
        by (rewrite Hr, take_app_le, take_take, Nat.min_l by (rewrite ?length_take; lia); done).
      assert (drop i (remove_all (p :: ps) l) = x :: keep_last (drop (S i) l)) as ->.
      { rewrite Hr, Ht, <- app_assoc, drop_app_length' by (rewrite length_take; lia). done. }
      assert (deduped false (x :: keep_last (drop (S i) l)) = x :: deduped true (drop (S i) l)) as ->
        by (destruct x; try done; cbn [deduped]; by rewrite Hc, deduped_keep_last).
      do 2 f_equal. pose proof (deduped_length true (keep_last (drop (S i) l))) as Hd. rewrite deduped_keep_last in Hd.
      rewrite Hr in Hlen |- *. rewrite !length_app in *. rewrite !length_take in *. cbn [length] in *. lia.
  - rewrite IH by lia. rewrite Ht.
    assert (deduped false (x :: drop (S i) l) = x :: deduped false (drop (S i) l)) as ->
      by (destruct x; try done; cbn [deduped]; by rewrite Hc).
    by rewrite <- !app_assoc.
Qed.

(** Both passes against their reference definitions. *)
Lemma dedup_ref l :
  dedup_duplicate_tool_results l = Some (length l - length (deduped false l), deduped false l).
Proof. unfold dedup_duplicate_tool_results, dedup_fuel. rewrite dedup_loop_ref by lia. done. Qed.

(** ** The repair of a history *)

Lemma strip_cons_other open x l :
  is_result x = false ->
  strip_displaced open (x :: l) =
  (x :: (strip_displaced (call_id <$> calls_of x) l).1, (strip_displaced (call_id <$> calls_of x) l).2).
Proof. destruct x; try done; intros _; cbn; by destruct (strip_displaced _ l). Qed.

Lemma strip_cons_result open t l :
  strip_displaced open (ToolResult t :: l) =
  let r := strip_displaced open l in
  if bool_decide (tool_call_id t ∈ open) then (ToolResult t :: r.1, r.2) else (r.1, tool_call_id t :: r.2).
Proof. cbn. by destruct (strip_displaced open l). Qed.

Lemma strip_run_ids open l id : id ∈ run_ids (strip_displaced open l).1 -> id ∈ run_ids l /\ id ∈ open.
Proof.
  induction l as [|x l IH]; [by intros ?%not_elem_of_nil|]. destruct (is_result x) eqn:Ex.
  - destruct x; try done. rewrite strip_cons_result. cbv zeta. case_bool_decide; cbn [fst run_ids]; rewrite ?elem_of_cons.
    + intros [->|[??]%IH]; tauto.
    + intros [??]%IH. tauto.
  - rewrite strip_cons_other by done. cbn [fst]. destruct x; try done; by intros ?%not_elem_of_nil.
Qed.

(** After the first two passes: results of open calls, each once. *)
Fixpoint clean (open : list string) (l : list ConversationItem) : Prop :=
  match l with
  | ToolResult t :: l' => (tool_call_id t ∈ open) /\ (tool_call_id t ∉ run_ids l') /\ clean open l'
  | x :: l' => clean (call_id <$> calls_of x) l'
  | [] => True
  end.

Lemma deduped_run_ids b l id : id ∈ run_ids (deduped b l) -> id ∈ run_ids l.
Proof.
  induction l as [|x l IH]; [done|]. destruct x; cbn; try done.
  destruct (b && _); cbn; rewrite ?elem_of_cons; [by right; apply IH|]. intros [->|?]; [by left|right; by apply IH].
Qed.

Lemma no_calls x : has_calls x = false -> calls_of x = [].
Proof. destruct x; cbn; try done. intros H%negb_false_iff. zbool. by destruct (tool_calls a). Qed.

Lemma strip_deduped_clean b open l :
  (b = false -> open = []) -> clean open (strip_displaced open (deduped b l)).1.
Proof.
  revert b open. induction l as [|x l IH]; intros b open Ho; [done|]. destruct (is_result x) eqn:Ex.
  - destruct x; try done. cbn [deduped]. destruct b; cbn [andb].
    + case_bool_decide as Hin; [by apply IH|]. rewrite strip_cons_result. cbv zeta.
      case_bool_decide; [|by apply IH]. cbn. split_and!; [done| |by apply IH].
      intros [H' _]%strip_run_ids. by apply deduped_run_ids in H'.
    + rewrite (Ho eq_refl), strip_cons_result. cbv zeta. rewrite bool_decide_false by apply not_elem_of_nil.
      cbn. by apply (IH false []).
  - assert (deduped b (x :: l) = x :: deduped (has_calls x) l) as -> by (by destruct x).
    rewrite strip_cons_other by done. cbn [fst].
    assert (clean (call_id <$> calls_of x) (strip_displaced (call_id <$> calls_of x) (deduped (has_calls x) l)).1)
      by (apply IH; intros H; by rewrite (no_calls _ H)).
    by destruct x.
Qed.

Lemma clean_run_ids open l id : clean open l -> id ∈ run_ids l -> id ∈ open.
Proof.
  induction l as [|x l IH]; [by intros _ ?%not_elem_of_nil|].
  destruct x; cbn; try (by intros _ ?%not_elem_of_nil). intros (? & ? & ?) [->|?]%elem_of_cons; auto.
Qed.

Lemma filter_keep {A} (P : A -> Prop) `{!forall x, Decision (P x)} (l : list A) : Forall P l -> filter P l = l.
Proof. induction 1; [done|]. rewrite filter_cons_True by done. by f_equal. Qed.

Lemma filter_ids id (cs : list ToolCall) :
  filter (fun i => i <> id) (call_id <$> cs) = call_id <$> filter (fun c => call_id c <> id) cs.
Proof.
  induction cs as [|c cs IH]; [done|]. cbn [fmap list_fmap]. rewrite !filter_cons.
  destruct (decide (call_id c <> id)); [|done]. cbn. by f_equal.
Qed.

Lemma synthetic_all reason cs :
  synthetic reason [] cs = (fun c => tool_result (call_id c) (synthetic_dangling_result_text (call_name c) reason)) <$> cs.
Proof.
  unfold synthetic. f_equal. induction cs as [|c cs IH]; [done|]. rewrite filter_cons_True, IH; [done|]. apply not_elem_of_nil.
Qed.

Lemma paired_synthetic reason cs l :
  NoDup (call_id <$> cs) -> paired (call_id <$> cs) (synthetic reason [] cs ++ l) = paired [] l.
Proof.
  rewrite synthetic_all. induction cs as [|c cs IH]; [done|]. cbn [fmap list_fmap app tool_result paired tool_call_id].
  intros [Hn Hnd]%NoDup_cons. rewrite bool_decide_true by (by left). cbn [andb].
  rewrite filter_cons_False by auto. rewrite filter_keep; [by apply IH|].
  apply Forall_forall. by intros i Hi ->.
Qed.

Lemma clean_paired reason open cs l :
  clean open l -> distinct_calls l -> NoDup (call_id <$> cs) ->
  (forall id, id ∈ run_ids l -> id ∈ call_id <$> cs) ->
  paired (call_id <$> cs) (repaired reason cs l) = true.
Proof.
  revert open cs. induction l as [|x l IH]; intros open cs Hc Hd Hnd Hids.
  - cbn [repaired]. rewrite <- (app_nil_r (synthetic _ _ _)), paired_synthetic by done. done.
  - apply Forall_cons in Hd as [Hx Hd]. destruct (is_result x) eqn:Ex.
    + destruct x; try done. cbn in Hc. destruct Hc as (Hin & Hout & Hc). cbn [repaired paired].
      rewrite bool_decide_true by (apply Hids; by left). cbn [andb]. rewrite filter_ids. eapply IH; [done..| |].
      * rewrite <- filter_ids. by apply NoDup_filter.
      * intros id Hid. rewrite <- filter_ids. apply list_elem_of_filter. split; [by intros ->|].
        apply Hids. by right.
    + assert (repaired reason cs (x :: l) = synthetic reason [] cs ++ x :: repaired reason (calls_of x) l) as ->
        by (by destruct x).
      rewrite paired_synthetic by done.
      assert (clean (call_id <$> calls_of x) l) as Hc' by (by destruct x).
      assert (paired (call_id <$> calls_of x) (repaired reason (calls_of x) l) = true)
        by (eapply IH; [done..|]; intros id; by apply clean_run_ids).
      by destruct x.
Qed.

Lemma paired_run_ids pending l id : paired pending l = true -> id ∈ run_ids l -> id ∈ pending.
Proof.
  revert pending. induction l as [|x l IH]; intros pending; [by intros _ ?%not_elem_of_nil|].
  destruct x; cbn; try (by intros _ ?%not_elem_of_nil).
  intros [Hin%bool_decide_eq_true Hp]%andb_true_iff [->|H]%elem_of_cons; [done|].
  specialize (IH _ Hp H). by apply list_elem_of_filter in IH as [_ ?].
Qed.

(** A paired conversation is left as it is by each of the three passes. *)
Lemma paired_deduped pending b l : paired pending l = true -> deduped b l = l.
Proof.
  revert pending b. induction l as [|x l IH]; intros pending b Hp; [done|]. destruct (is_result x) eqn:Ex.
  - destruct x; try done. cbn in Hp |- *. apply andb_true_iff in Hp as [_ Hp].
    rewrite (bool_decide_false (tool_call_id t ∈ run_ids l)), andb_false_r; [by rewrite (IH _ _ Hp)|].
    intros H. apply (paired_run_ids _ _ _ Hp) in H. by apply list_elem_of_filter in H as [? _].
  - assert (paired (call_id <$> calls_of x) l = true) as Hp' by (destruct x; try done; cbn in Hp; by apply andb_true_iff in Hp as [_ ?]).
    assert (deduped b (x :: l) = x :: deduped (has_calls x) l) as -> by (by destruct x). by rewrite (IH _ _ Hp').
Qed.

Lemma paired_stripped open pending l :
  paired pending l = true -> pending ⊆ open -> strip_displaced open l = (l, []).
Proof.
  revert open pending. induction l as [|x l IH]; intros open pending Hp Hs; [done|]. destruct (is_result x) eqn:Ex.
  - destruct x; try done. rewrite strip_cons_result. cbn in Hp. apply andb_true_iff in Hp as [Hin%bool_decide_eq_true Hp].
    rewrite bool_decide_true by auto. rewrite (IH open _ Hp); [done|]. intros i Hi. apply list_elem_of_filter in Hi as [_ ?]. auto.
  - assert (paired (call_id <$> calls_of x) l = true) as Hp' by (destruct x; try done; cbn in Hp; by apply andb_true_iff in Hp as [_ ?]).
    rewrite strip_cons_other by done. by rewrite (IH _ _ Hp').
Qed.

Lemma paired_repaired reason cs l : paired (call_id <$> cs) l = true -> repaired reason cs l = l.
Proof.
  revert cs. induction l as [|x l IH]; intros cs Hp; [by destruct cs|]. destruct (is_result x) eqn:Ex.
  - destruct x; try done. cbn in Hp |- *. apply andb_true_iff in Hp as [_ Hp]. rewrite filter_ids in Hp. by rewrite IH.
  - assert (cs = [] /\ paired (call_id <$> calls_of x) l = true) as [-> Hp']
      by (destruct x; try done; cbn in Hp; apply andb_true_iff in Hp as [?%bool_decide_eq_true ?]; by destruct cs).
    assert (repaired reason [] (x :: l) = x :: repaired reason (calls_of x) l) as -> by (by destruct x). by rewrite IH.
Qed.

Lemma repair_history_ref l :
  exists r, repair_history l = Some (r, repaired (HarnessHalted "history_repair") []
                                          (strip_displaced [] (deduped false l)).1) /\
    (paired [] l = true -> r = mkReport 0 [] 0).
Proof.
  unfold repair_history. rewrite dedup_ref. cbn [mbind option_bind]. unfold strip_displaced_tool_results.
  destruct (strip_displaced [] (deduped false l)) as [k s] eqn:Es. rewrite repair_dangling_ref. cbn [fst].
  eexists. split; [done|]. intros Hp. rewrite (paired_deduped [] false l Hp) in *.
  rewrite (paired_stripped [] [] l Hp) in Es by done. injection Es as <- <-.
  rewrite (paired_repaired _ [] l) by done. by rewrite Nat.sub_diag.
Qed.

(** What the passes do with the items that are not results. *)
Lemma repaired_others reason cs l :
  filter (fun x => is_result x = false) (repaired reason cs l) = filter (fun x => is_result x = false) l.
Proof.
  assert (forall cs k, filter (fun x => is_result x = false) (synthetic reason [] cs ++ k) = filter (fun x => is_result x = false) k) as Hs.
  { intros cs' k. rewrite synthetic_all, filter_app. induction cs' as [|c cs' IH]; [done|].
    cbn [fmap list_fmap]. by rewrite filter_cons_False. }
  revert cs. induction l as [|x l IH]; intros cs.
  - cbn [repaired]. rewrite <- (app_nil_r (synthetic _ _ _)). apply Hs.
  - destruct (is_result x) eqn:Ex.
    + destruct x; try done. cbn [repaired]. rewrite !filter_cons_False by done. apply IH.
    + assert (repaired reason cs (x :: l) = synthetic reason [] cs ++ x :: repaired reason (calls_of x) l) as -> by (by destruct x).
      rewrite Hs, !filter_cons_True by done. f_equal. apply IH.
Qed.

Lemma strip_others open l :
  filter (fun x => is_result x = false) (strip_displaced open l).1 = filter (fun x => is_result x = false) l.
Proof.
  revert open. induction l as [|x l IH]; intros open; [done|]. destruct (is_result x) eqn:Ex.
  - destruct x; try done. rewrite strip_cons_result. cbv zeta. rewrite (filter_cons_False _ (ToolResult t)) by done.
    case_bool_decide; cbn [fst]; rewrite ?filter_cons_False by done; apply IH.
  - rewrite strip_cons_other by done. cbn [fst]. rewrite !filter_cons_True by done. f_equal. apply IH.
Qed.

Lemma deduped_others b l :
  filter (fun x => is_result x = false) (deduped b l) = filter (fun x => is_result x = false) l.
Proof.
  revert b. induction l as [|x l IH]; intros b; [done|]. destruct (is_result x) eqn:Ex.
  - destruct x; try done. cbn [deduped]. rewrite (filter_cons_False _ (ToolResult t)) by done.
    destruct (b && _); rewrite ?filter_cons_False by done; apply IH.
  - assert (deduped b (x :: l) = x :: deduped (has_calls x) l) as -> by (by destruct x).
    rewrite !filter_cons_True by done. f_equal. apply IH.
Qed.

Lemma distinct_others l l' :
  filter (fun x => is_result x = false) l = filter (fun x => is_result x = false) l' ->
  distinct_calls l -> distinct_calls l'.
Proof.
  unfold distinct_calls. rewrite !Forall_forall. intros E H x Hx. destruct (is_result x) eqn:Ex; [destruct x; try done; constructor|].
  apply H. assert (x ∈ filter (fun x => is_result x = false) l') as Hf by (by apply list_elem_of_filter).
  rewrite <- E in Hf. by apply list_elem_of_filter in Hf as [_ ?].
Qed.

(** C7.  The repair of a history ends, and what it leaves is what a provider
    accepts: every tool result stands in the run after the assistant item
    that made its call, every call has exactly one result, and nothing but
    tool results was added or removed.  It changes nothing, and reports
    nothing, exactly when the history is already so; a second repair does
    nothing.  No assistant item may make two calls with one identifier. *)
Theorem repair_history_exact l :
  distinct_calls l ->
  exists r out, repair_history l = Some (r, out) /\ paired [] out = true /\
    filter (fun x => is_result x = false) out = filter (fun x => is_result x = false) l /\
    (paired [] l = true <-> out = l) /\ (paired [] l = true -> changed r = false) /\
    repair_history out = Some (mkReport 0 [] 0, out).
Proof.
  intros Hd. destruct (repair_history_ref l) as (r & E & Hr). set (out := repaired _ _ _) in *.
  assert (filter (fun x => is_result x = false) out = filter (fun x => is_result x = false) l) as Hf
    by (unfold out; by rewrite repaired_others, strip_others, deduped_others).
  assert (paired [] out = true) as Hp.
  { pose proof (strip_deduped_clean false [] l (fun _ => eq_refl)) as Hc.
    apply (clean_paired _ [] []); [done| |constructor|intros id; by apply clean_run_ids].
    eapply distinct_others, Hd. by rewrite strip_others, deduped_others. }
  exists r, out. split_and!; [done..| |by intros H; rewrite (Hr H)|].
  - split; [|intros H; by rewrite <- H]. intros H. unfold out.
    rewrite (paired_deduped [] false l H), (paired_stripped [] [] l H) by done. by apply paired_repaired.
  - destruct (repair_history_ref out) as (r' & E' & Hr'). rewrite E', (Hr' Hp).
    by rewrite (paired_deduped [] false out Hp), (paired_stripped [] [] out Hp), (paired_repaired _ [] out Hp) by done.
Qed.

Definition demo_history : list ConversationItem :=
  [System "sys"; user "hi"; assistant_tool_calls [mkCall "a" "read" "{}"; mkCall "b" "ls" "{}"];
   tool_result "a" "old"; tool_result "a" "new"; user "stop"; tool_result "b" "late"].

Lemma repair_history_exact_witness :
  exists r out, repair_history demo_history = Some (r, out) /\ paired [] out = true.
Proof.
  destruct (repair_history_exact demo_history) as (r & out & E & Hp & _); [|by exists r, out].
  repeat constructor; set_solver.
Defined.

Example demo_repaired :
  snd <$> repair_history demo_history =
  Some [System "sys"; user "hi"; assistant_tool_calls [mkCall "a" "read" "{}"; mkCall "b" "ls" "{}"];
        tool_result "a" "new";
        tool_result "b" "Tool execution was halted by the harness (history_repair); the tool `ls` was not executed.";
        user "stop"].
Proof. reflexivity. Qed.

(** With two calls of one identifier the repair inserts two results and a
    second repair changes the history again. *)
Lemma repair_history_twice :
  exists l r out r' out', repair_history l = Some (r, out) /\ repair_history out = Some (r', out') /\
    changed r' = true /\ paired [] out = false.
Proof.
  exists [assistant_tool_calls [mkCall "a" "read" "{}"; mkCall "a" "ls" "{}"]].
  do 4 eexists. split; [reflexivity|]. split; [reflexivity|]. by vm_compute.
Qed.

(** ** Before a turn *)

Lemma synthetic_nil reason answered cs :
  existsb (fun c => negb (bool_decide (call_id c ∈ answered))) cs = negb (bool_decide (length (synthetic reason answered cs) = 0)).
Proof.
  unfold synthetic. rewrite length_fmap. induction cs as [|c cs IH]; [done|]. cbn [existsb]. rewrite IH.
  destruct (decide (call_id c ∈ answered)) as [H|H].
  - by rewrite bool_decide_true, filter_cons_False by (done || (intros ?; done)).
  - by rewrite (bool_decide_false (call_id c ∈ answered)), filter_cons_True by done.
Qed.

(** The read-only check tells whether the repair would insert anything. *)
Theorem has_dangling_exact reason l :
  has_dangling_tool_calls l = (0 <? (repair_dangling_tool_calls reason l).1).
Proof.
  unfold has_dangling_tool_calls, repair_dangling_tool_calls. cbn [fst].
  generalize (length l) at 1 2. intros fuel. generalize 0 at 1 3. induction fuel as [|fuel IH]; intros i; [done|].
  cbn [dangling_from find_repairs]. destruct (l !! i) as [x|]; [|done]. destruct (has_calls x); [|done].
  rewrite IH, (synthetic_nil reason). case_bool_decide as H; cbn [negb orb app sum_list_with snd]; [done|].
  symmetry. apply Nat.ltb_lt. lia.
Qed.

(** The two passes run before a user message and before each request: no call
    is left without a result in the run after it, a second application
    changes nothing, and only results were added or removed. *)
Definition integrity (reason : DanglingToolCallReason) (l : list ConversationItem) : list ConversationItem :=
  repaired reason [] (deduped false l).

(** Every call is answered in the run after it. *)
Fixpoint answered (pending : list string) (l : list ConversationItem) : bool :=
  match l with
  | ToolResult t :: l' => answered (filter (fun i => i <> tool_call_id t) pending) l'
  | x :: l' => bool_decide (pending = []) && answered (call_id <$> calls_of x) l'
  | [] => bool_decide (pending = [])
  end.

(** No run after an assistant item with calls has two results of one call. *)
Fixpoint single (in_run : bool) (l : list ConversationItem) : Prop :=
  match l with
  | ToolResult t :: l' => (in_run = true -> tool_call_id t ∉ run_ids l') /\ single in_run l'
  | x :: l' => single (has_calls x) l'
  | [] => True
  end.

Lemma answered_repaired reason cs l : answered (call_id <$> cs) (repaired reason cs l) = true.
Proof.
  assert (forall cs k, answered [] k = true -> answered (call_id <$> cs) (synthetic reason [] cs ++ k) = true) as Hs.
  { clear. intros cs k Hk. rewrite synthetic_all.
    assert (forall ids, (forall i, i ∈ ids -> i ∈ call_id <$> cs) ->
      answered ids (((fun c => tool_result (call_id c) (synthetic_dangling_result_text (call_name c) reason)) <$> cs) ++ k) = true) as H;
      [|by apply H].
    induction cs as [|c cs IH]; intros ids Hi; cbn.
    - destruct ids as [|i ids]; [done|]. by specialize (Hi i ltac:(by left)); apply not_elem_of_nil in Hi.
    - apply IH. intros i [Hne Hin]%list_elem_of_filter. specialize (Hi i Hin). by apply elem_of_cons in Hi as [->|?]. }
  revert cs. induction l as [|x l IH]; intros cs.
  - cbn [repaired]. rewrite <- (app_nil_r (synthetic _ _ _)). by apply Hs.
  - destruct (is_result x) eqn:Ex.
    + destruct x; try done. cbn. rewrite filter_ids. apply IH.
    + assert (repaired reason cs (x :: l) = synthetic reason [] cs ++ x :: repaired reason (calls_of x) l) as -> by (by destruct x).
      apply Hs. specialize (IH (calls_of x)). by destruct x.
Qed.

Lemma answered_fix reason cs l : answered (call_id <$> cs) l = true -> repaired reason cs l = l.
Proof.
  revert cs. induction l as [|x l IH]; intros cs Hp; [by destruct cs|]. destruct (is_result x) eqn:Ex.
  - destruct x; try done. cbn in Hp |- *. rewrite filter_ids in Hp. by rewrite IH.
  - assert (cs = [] /\ answered (call_id <$> calls_of x) l = true) as [-> Hp']
      by (destruct x; try done; cbn in Hp; apply andb_true_iff in Hp as [?%bool_decide_eq_true ?]; by destruct cs).
    assert (repaired reason [] (x :: l) = x :: repaired reason (calls_of x) l) as -> by (by destruct x). by rewrite IH.
Qed.

Lemma single_deduped b l : single b (deduped b l).
Proof.
  revert b. induction l as [|x l IH]; intros b; [done|]. destruct x; cbn; try apply IH.
  destruct b; cbn [andb]; [case_bool_decide; [apply IH|]|].
  - cbn. split; [|apply IH]. by intros _ ?%deduped_run_ids.
  - cbn. split; [done|apply IH].
Qed.

Lemma single_fix b l : single b l -> deduped b l = l.
Proof.
  revert b. induction l as [|x l IH]; intros b; [done|]. destruct x; cbn; try (by intros H; rewrite IH).
  intros [Hn Hs]. destruct b; cbn [andb]; [rewrite bool_decide_false by auto|]; by rewrite IH.
Qed.

Lemma repaired_run_ids reason cs l id :
  id ∈ run_ids (repaired reason cs l) -> id ∈ run_ids l \/ id ∈ call_id <$> cs.
Proof.
  assert (forall cs k, run_ids k = [] -> run_ids (synthetic reason [] cs ++ k) = call_id <$> cs) as Hs.
  { intros cs' k Hk. rewrite synthetic_all. induction cs' as [|c cs' IH]; cbn; [done|by rewrite IH]. }
  revert cs. induction l as [|x l IH]; intros cs.
  - cbn [repaired]. rewrite <- (app_nil_r (synthetic _ _ _)), Hs by done. by right.
  - destruct (is_result x) eqn:Ex.
    + destruct x; try done. cbn [repaired run_ids]. rewrite !elem_of_cons. intros [->|[?|H]%IH]; [tauto|tauto|].
      right. rewrite <- filter_ids in H. by apply list_elem_of_filter in H as [_ ?].
    + assert (repaired reason cs (x :: l) = synthetic reason [] cs ++ x :: repaired reason (calls_of x) l) as -> by (by destruct x).
      rewrite Hs by (by destruct x). by right.
Qed.

Lemma single_repaired reason b cs l :
  single b l -> distinct_calls l -> NoDup (call_id <$> cs) -> single b (repaired reason cs l).
Proof.
  assert (forall b cs k, run_ids k = [] -> NoDup (call_id <$> cs) -> single b k -> single b (synthetic reason [] cs ++ k)) as Hs.
  { clear. intros b cs k Hk Hnd Hb. rewrite synthetic_all. induction cs as [|c cs IH]; [done|].
    apply NoDup_cons in Hnd as [Hn Hnd]. cbn. split; [|by apply IH]. intros _ H. apply Hn. clear -H Hk.
    induction cs as [|d cs IH]; cbn in H |- *; [by rewrite Hk in H|]. rewrite elem_of_cons in *. destruct H; auto. }
  revert b cs. induction l as [|x l IH]; intros b cs Hb Hd Hnd.
  - cbn [repaired]. rewrite <- (app_nil_r (synthetic _ _ _)). by apply Hs.
  - apply Forall_cons in Hd as [Hx Hd]. destruct (is_result x) eqn:Ex.
    + destruct x; try done. cbn [repaired single] in *. destruct Hb as [Hn Hb]. split.
      * intros E [H|H]%repaired_run_ids; [by apply Hn|]. rewrite <- filter_ids in H. by apply list_elem_of_filter in H as [? _].
      * apply IH; [done..|]. rewrite <- filter_ids. by apply NoDup_filter.
    + assert (repaired reason cs (x :: l) = synthetic reason [] cs ++ x :: repaired reason (calls_of x) l) as -> by (by destruct x).
      assert (single (has_calls x) l) as Hl by (by destruct x). specialize (IH _ _ Hl Hd Hx).
      apply Hs; [by destruct x|done|]. by destruct x.
Qed.

Lemma integrity_run reason l :
  dedup_duplicate_tool_results l = Some (length l - length (deduped false l), deduped false l) /\
  repair_dangling_tool_calls reason (deduped false l) =
    (length (integrity reason l) - length (deduped false l), integrity reason l).
Proof. split; [apply dedup_ref|apply repair_dangling_ref]. Qed.

(** The passes before a turn settle every call: none is dangling, no run has
    two results of one call, repeating them (for whatever reason) changes
    nothing, and only results were added or removed. *)
Theorem integrity_exact reason l :
  distinct_calls l ->
  let out := integrity reason l in
  has_dangling_tool_calls out = false /\ answered [] out = true /\ single false out /\
  (forall reason', integrity reason' out = out) /\
  filter (fun x => is_result x = false) out = filter (fun x => is_result x = false) l.
Proof.
  intros Hd. cbv zeta. set (out := integrity reason l).
  assert (answered [] out = true) as Ha by apply (answered_repaired reason [] (deduped false l)).
  assert (single false out) as Hs.
  { apply single_repaired; [apply single_deduped| |constructor]. eapply distinct_others, Hd. by rewrite deduped_others. }
  assert (forall reason', repaired reason' [] out = out) as Hr by (intros reason'; by apply answered_fix).
  split_and!; [|done|done| |].
  - rewrite (has_dangling_exact reason), repair_dangling_ref, Hr. cbn. by rewrite Nat.sub_diag.
  - intros reason'. unfold integrity. by rewrite (single_fix _ _ Hs), Hr.
  - unfold out, integrity. by rewrite repaired_others, deduped_others.
Qed.
