(* ===== verification/ChatRequest.v ===== *)
(** * Requests to the model (ccode-chat/src/actor/request_builder.rs, types.rs)

    What a request changes in its copy of the conversation: old tool results
    are trimmed or cleared, old images are replaced once the body comes near
    the limit of the proxy, and the memory reminder is put into the system
    message.  The length of a JSON encoding is an argument. *)

From S2P Require Import Prelude RustStr TextLines TextFind Conversation.

(** ** Pruning of tool results *)

Record PruningConfig := mkPruning {
  enabled : bool;
  keep_last_n_turns : nat;
  soft_trim_threshold : nat;
  soft_trim_head : nat;
  soft_trim_tail : nat;
  hard_clear_age_turns : nat
}.
Definition default_pruning : PruningConfig := mkPruning true 3 (Z.to_nat 4000) (Z.to_nat 1500) (Z.to_nat 1500) 10.

Definition HARD_CLEAR_PLACEHOLDER : string := "[Tool result omitted — too old]".
Definition SOFT_TRIM_SEPARATOR : string := str1 nl +:+ str1 nl +:+ "[…trimmed…]" +:+ str1 nl +:+ str1 nl.

Definition should_prune (total_tokens context_window : Z) : bool := (context_window / 2 <? total_tokens)%Z.

Definition safe_char_slice (s : string) (start count : nat) : string := chars_take count (chars_skip start s).
Definition safe_char_slice_tail (s : string) (count : nat) : string :=
  let total := chars_count s in
  if total <=? count then s else chars_skip (total - count) s.

Definition set_result (s : string) (t : ToolResultItem) : ToolResultItem :=
  mkResult (tool_call_id t) s (tr_images t).

(** [if content != PLACEHOLDER { content = PLACEHOLDER }] *)
Definition hard_clear (t : ToolResultItem) : ToolResultItem :=
  if bool_decide (tr_content t = HARD_CLEAR_PLACEHOLDER) then t else set_result HARD_CLEAR_PLACEHOLDER t.

Definition soft_trim (c : PruningConfig) (t : ToolResultItem) : ToolResultItem :=
  if soft_trim_threshold c <? chars_count (tr_content t)
  then set_result (safe_char_slice (tr_content t) 0 (soft_trim_head c) +:+ SOFT_TRIM_SEPARATOR +:+
                   safe_char_slice_tail (tr_content t) (soft_trim_tail c)) t
  else t.

Definition prune_result (c : PruningConfig) (turn_from_end : nat) (t : ToolResultItem) : ToolResultItem :=
  if turn_from_end <? keep_last_n_turns c then t
  else if hard_clear_age_turns c <=? turn_from_end then hard_clear t
  else soft_trim c t.

Definition is_user (i : ConversationItem) : bool := match i with User _ => true | _ => false end.

(** The loop runs from the last item to the first: [f] is what happens to a
    result of the given age, [turn] and [seen] are [turn_from_end] and
    [seen_first_user]. *)
Fixpoint from_end (f : nat -> ToolResultItem -> ToolResultItem) (turn : nat) (seen : bool)
    (rev_l : list ConversationItem) : list ConversationItem :=
  match rev_l with
  | [] => []
  | User u :: l => User u :: from_end f (if seen then S turn else turn) true l
  | ToolResult t :: l => ToolResult (f turn t) :: from_end f turn seen l
  | x :: l => x :: from_end f turn seen l
  end.

Definition prune_conversation (c : PruningConfig) (l : list ConversationItem) : list ConversationItem :=
  if enabled c then reverse (from_end (prune_result c) 0 false (reverse l)) else l.

(** ** Images *)

Definition IMAGE_COMPACT_PLACEHOLDER : string :=
  "[An earlier image was removed to keep the request within its size limit and is no longer visible. Do not describe or reason about its contents from memory; ask the user to re-share it if you need to see it again.]".
Definition MAX_REQUEST_BYTES : Z := 50 * 1024 * 1024.
Definition IMAGE_COMPACT_TRIGGER_BYTES : Z := MAX_REQUEST_BYTES - 3 * 1024 * 1024.
Definition IMAGE_COMPACT_RECLAIM_TARGET_BYTES : Z := MAX_REQUEST_BYTES / 2.

(** The length of [{"type":"image","url":""}]. *)
Definition IMAGE_PART_FRAME_BYTES : Z := 25.
Definition slen (s : string) : Z := Z.of_nat (String.length s).
Definition image_part_bytes (url : string) : Z := IMAGE_PART_FRAME_BYTES + slen url.

Fixpoint image_urls (l : list ContentPart) : list string :=
  match l with
  | [] => []
  | Image u :: l' => u :: image_urls l'
  | Text _ :: l' => image_urls l'
  end.
Definition item_images (i : ConversationItem) : list string :=
  match i with User u => image_urls (u_content u) | _ => [] end.
Definition inline_image_count (l : list ConversationItem) : nat := length (l ≫= item_images).

(** [serde_json]: the number of bytes of the encoding of items and of a part. *)
Class Serde := { items_bytes : list ConversationItem -> Z; part_bytes : ContentPart -> Z }.

Record ImageEvictionOutcome := mkOutcome { evicted : nat; body_bytes_after : Z }.

Section images.
Context `{Serde}.

Definition blank_images (i : ConversationItem) : ConversationItem :=
  match i with
  | User u => User (mkUser ((fun p => match p with Image _ => Image EmptyString | _ => p end) <$> u_content u)
                      (synthetic_reason u) (cwd_generation u) (prior_turn_interrupt u) (u_prompt_index u))
  | _ => i
  end.

Definition conversation_body_bytes (l : list ConversationItem) : Z :=
  items_bytes (blank_images <$> l) + foldr (fun u n => slen u + n)%Z 0%Z (l ≫= item_images).

(** The loop over the images from the oldest on, with the running size. *)
Definition placeholder_part : ContentPart := Text IMAGE_COMPACT_PLACEHOLDER.
Definition evict_url (target : Z) (st : Z * nat) (url : string) : (Z * nat) * option string :=
  if (st.1 <=? target)%Z then (st, Some url)
  else ((sat_sub st.1 (sat_sub (image_part_bytes url) (part_bytes placeholder_part)), S st.2), None).

Fixpoint evict_parts (target : Z) (st : Z * nat) (l : list ContentPart) : (Z * nat) * list ContentPart :=
  match l with
  | [] => (st, [])
  | Image url :: l' =>
      let '(st, kept) := evict_url target st url in
      let '(st, l') := evict_parts target st l' in
      (st, match kept with Some u => Image u | None => placeholder_part end :: l')
  | p :: l' => let '(st, l') := evict_parts target st l' in (st, p :: l')
  end.

Fixpoint evict_items (target : Z) (st : Z * nat) (l : list ConversationItem) : (Z * nat) * list ConversationItem :=
  match l with
  | [] => (st, [])
  | User u :: l' =>
      let '(st, parts) := evict_parts target st (u_content u) in
      let '(st, l') := evict_items target st l' in
      (st, User (mkUser parts (synthetic_reason u) (cwd_generation u) (prior_turn_interrupt u) (u_prompt_index u)) :: l')
  | x :: l' => let '(st, l') := evict_items target st l' in (st, x :: l')
  end.

Definition compact_images_to_byte_budget (l : list ConversationItem) (current target : Z)
    : ImageEvictionOutcome * list ConversationItem :=
  if (current <=? target)%Z then (mkOutcome 0 current, l)
  else let '((running, n), l) := evict_items target (current, 0) l in (mkOutcome n running, l).
End images.

(** ** The memory reminder *)

Definition MEMORY_CONTEXT_OPEN_TAG : string := "<memory-context>".

(** [s.trim_end_matches('\n')] *)
Fixpoint trim_end_nl (s : string) : string :=
  match s with
  | EmptyString => EmptyString
  | String c r => match trim_end_nl r with
                  | EmptyString => if bool_decide (c = nl) then EmptyString else str1 c
                  | t => String c t
                  end
  end.

Definition append_reminder (prefix reminder : string) : string := prefix +:+ str1 nl +:+ str1 nl +:+ reminder.

Definition upsert_memory_reminder_text (system_prompt reminder : string) : string :=
  match find_str MEMORY_CONTEXT_OPEN_TAG system_prompt with
  | Some idx =>
      let prefix := trim_end_nl (str_take idx system_prompt) in
      if bool_decide (prefix = EmptyString) then reminder else append_reminder prefix reminder
  | None =>
      if bool_decide (trim_end system_prompt = reminder) then system_prompt
      else if bool_decide (system_prompt = EmptyString) then reminder
      else append_reminder (trim_end_nl system_prompt) reminder
  end.

(** The result tells whether the conversation was changed. *)
Definition inject_memory_reminder (reminder : string) (items : list ConversationItem) : bool * list ConversationItem :=
  let reminder := trim reminder in
  if bool_decide (reminder = EmptyString) then (false, items)
  else match items with
       | System s :: l =>
           let updated := upsert_memory_reminder_text s reminder in
           if bool_decide (s = updated) then (false, items) else (true, System updated :: l)
       | _ => (true, System reminder :: items)
       end.

(** ** Properties of pruning *)

Definition users (l : list ConversationItem) : nat := length (filter (fun x => is_user x = true) l).

Lemma users_cons x l : users (x :: l) = (if is_user x then 1 else 0) + users l.
Proof. unfold users. rewrite filter_cons. destruct (is_user x) eqn:E; case_decide; done. Qed.

(** The age of a result: the user items after it, less the newest one. *)
Fixpoint by_age (f : nat -> ToolResultItem -> ToolResultItem) (l : list ConversationItem) : list ConversationItem :=
  match l with
  | [] => []
  | ToolResult t :: l' => ToolResult (f (pred (users l')) t) :: by_age f l'
  | x :: l' => x :: by_age f l'
  end.

Lemma from_end_app f turn seen l k :
  from_end f turn seen (l ++ k) =
  from_end f turn seen l ++
  from_end f (turn + (if seen then users l else pred (users l))) (seen || (0 <? users l)) k.
Proof.
  revert turn seen. induction l as [|x l IH]; intros turn seen.
  - cbn. destruct seen; by rewrite Nat.add_0_r.
  - rewrite users_cons. destruct x; cbn [is_user Nat.add app from_end]; rewrite ?IH; try done.
    rewrite orb_true_r. cbn [orb]. do 3 f_equal. destruct seen; cbn; lia.
Qed.

Lemma users_reverse l : users (reverse l) = users l.
Proof. unfold users. by rewrite reverse_Permutation. Qed.

Lemma from_end_ref f l : reverse (from_end f 0 false (reverse l)) = by_age f l.
Proof.
  induction l as [|x l IH]; [done|]. rewrite reverse_cons, from_end_app, users_reverse, reverse_app, IH. cbn [Nat.add orb].
  by destruct x.
Qed.

Lemma by_age_paired f pending l :
  (forall n t, tool_call_id (f n t) = tool_call_id t) -> paired pending (by_age f l) = paired pending l.
Proof.
  intros Hf. revert pending. induction l as [|x l IH]; intros pending; [done|].
  destruct x; cbn; rewrite ?IH; try done. by rewrite !Hf.
Qed.

Lemma by_age_lookup f l i :
  by_age f l !! i =
  (fun x => match x with ToolResult t => ToolResult (f (pred (users (drop (S i) l))) t) | _ => x end) <$> l !! i.
Proof.
  revert i. induction l as [|x l IH]; intros [|i]; try done; cbn [by_age drop]; destruct x; cbn; try done; by rewrite IH.
Qed.

Lemma prune_result_id c n t : tool_call_id (prune_result c n t) = tool_call_id t.
Proof. unfold prune_result, hard_clear, soft_trim. by repeat case_match. Qed.

(** Pruning a request changes nothing but the texts of old tool results:
    it is decided by the number of user messages after a result, results of
    the last turns are kept, results past the age limit are replaced by the
    placeholder, and the pairing of calls and results is untouched. *)
Theorem prune_exact c l :
  let out := prune_conversation c l in
  length out = length l /\ paired [] out = paired [] l /\
  forall i x, l !! i = Some x ->
    let age := pred (users (drop (S i) l)) in
    out !! i = Some x \/
    exists t s, x = ToolResult t /\ out !! i = Some (ToolResult (set_result s t)) /\
      enabled c = true /\ keep_last_n_turns c <= age /\
      (hard_clear_age_turns c <= age -> s = HARD_CLEAR_PLACEHOLDER).
Proof.
  cbv zeta. unfold prune_conversation. destruct (enabled c); [|split_and!; [done|done|by left]].
  rewrite from_end_ref. split_and!.
  - induction l as [|[] l IH]; cbn; auto.
  - apply by_age_paired, prune_result_id.
  - intros i x Hx. rewrite by_age_lookup, Hx. cbn [fmap option_fmap option_map].
    destruct x; try (by left). set (age := pred (users (drop (S i) l))). unfold prune_result.
    destruct (age <? keep_last_n_turns c) eqn:Ek; [by left|].
    destruct (hard_clear_age_turns c <=? age) eqn:Eh; zbool.
    + unfold hard_clear. case_bool_decide; [by left|]. right. by exists t, HARD_CLEAR_PLACEHOLDER.
    + unfold soft_trim. case_match; [|by left]. right. eexists t, _. split_and!; [done..|]. lia.
Qed.

(** ** Properties of the image budget *)

Section image_props.
Context `{Serde}.

Definition saving (url : string) : Z := sat_sub (image_part_bytes url) (part_bytes placeholder_part).

(** The images that go: as few of the oldest as bring the size to the target. *)
Fixpoint evictions (target running : Z) (urls : list string) : nat :=
  match urls with
  | [] => 0
  | u :: l => if (running <=? target)%Z then 0 else S (evictions target (sat_sub running (saving u)) l)
  end.

Definition size_after (running : Z) (urls : list string) : Z := foldl (fun r u => sat_sub r (saving u)) running urls.

Lemma evictions_le target running urls : evictions target running urls <= length urls.
Proof. revert running. induction urls as [|u l IH]; intros r; cbn; [lia|]. case_match; [lia|]. specialize (IH (sat_sub r (saving u))). lia. Qed.

Lemma evictions_spec target running urls :
  let n := evictions target running urls in
  (n = length urls \/ (size_after running (take n urls) <= target)%Z) /\
  forall k, k < n -> (target < size_after running (take k urls))%Z.
Proof.
  cbv zeta. revert running. induction urls as [|u l IH]; intros r; cbn [evictions]; [split; [by left|lia]|].
  destruct (Z.leb_spec r target) as [Hr|Hr].
  - split; [right; done|lia].
  - destruct (IH (sat_sub r (saving u))) as [H1 H2]. split.
    + destruct H1 as [->|H1]; [by left|right; done].
    + intros [|k] Hk; [done|]. apply (H2 k). lia.
Qed.

Lemma evict_parts_spec target r n l :
  let urls := image_urls l in
  let e := evictions target r urls in
  evict_parts target (r, n) l = ((size_after r (take e urls), n + e), (evict_parts target (r, n) l).2) /\
  image_urls (evict_parts target (r, n) l).2 = drop e urls /\
  length (evict_parts target (r, n) l).2 = length l.
Proof.
  cbv zeta. revert r n. induction l as [|p l IH]; intros r n; [cbn; by rewrite Nat.add_0_r|].
  destruct p as [t|u].
  - cbn [evict_parts image_urls]. destruct (IH r n) as (E & E' & El).
    destruct (evict_parts target (r, n) l) as [st k]. cbn [fst snd] in *. injection E as ->.
    split_and!; [done|done|cbn; lia].
  - cbn [evict_parts image_urls]. unfold evict_url. cbn [fst snd]. cbn [evictions].
    destruct (r <=? target)%Z eqn:Er.
    + destruct (IH r n) as (E & E' & El). destruct (evict_parts target (r, n) l) as [st k]. cbn [fst snd] in *.
      assert (evictions target r (image_urls l) = 0) as E0 by (destruct (image_urls l); cbn; by rewrite ?Er).
      rewrite E0 in E, E'. injection E as ->. cbn. rewrite Nat.add_0_r. cbn in E'. rewrite E'. split_and!; [done..|lia].
    + fold (saving u). destruct (IH (sat_sub r (saving u)) (S n)) as (E & E' & El).
      destruct (evict_parts target (sat_sub r (saving u), S n) l) as [st k]. cbn [fst snd] in *. injection E as ->.
      cbn. rewrite E', Nat.add_succ_r. split_and!; [done..|lia].
Qed.
(** Splitting the images of a list. *)
Lemma evictions_app target r l k :
  let e := evictions target r l in
  evictions target r (l ++ k) = e + evictions target (size_after r (take e l)) k.
Proof.
  cbv zeta. revert r. induction l as [|u l IH]; intros r; [done|]. cbn [app evictions].
  destruct (r <=? target)%Z eqn:E; [|cbn; by rewrite IH].
  cbn. destruct k as [|v k]; cbn; [done|]. by rewrite E.
Qed.

Lemma size_after_app r l k : size_after r (l ++ k) = size_after (size_after r l) k.
Proof. apply foldl_app. Qed.

Lemma evictions_short target r l k :
  evictions target r l < length l -> evictions target (size_after r (take (evictions target r l) l)) k = 0.
Proof.
  intros Hlt. destruct (evictions_spec target r l) as [[Ha|Ha] _]; [lia|].
  destruct k as [|u k]; [done|]. cbn. by rewrite (proj2 (Z.leb_le _ _) Ha).
Qed.

Lemma evict_items_spec target r n l :
  let urls := l ≫= item_images in
  let e := evictions target r urls in
  evict_items target (r, n) l = ((size_after r (take e urls), n + e), (evict_items target (r, n) l).2) /\
  (evict_items target (r, n) l).2 ≫= item_images = drop e urls.
Proof.
  cbv zeta. revert r n. induction l as [|x l IH]; intros r n; [cbn; by rewrite Nat.add_0_r|].
  assert (forall x, item_images x = [] -> evict_items target (r, n) (x :: l) =
    ((evict_items target (r, n) l).1, x :: (evict_items target (r, n) l).2) ->
    let urls := (x :: l) ≫= item_images in let e := evictions target r urls in
    evict_items target (r, n) (x :: l) = ((size_after r (take e urls), n + e), (evict_items target (r, n) (x :: l)).2) /\
    (evict_items target (r, n) (x :: l)).2 ≫= item_images = drop e urls) as Hother.
  { intros y Hy E. cbv zeta. rewrite E. cbn [mbind list_bind]. rewrite Hy. cbn [app snd].
    destruct (IH r n) as [E1 E2]. cbn [mbind list_bind]. rewrite Hy. cbn [app]. rewrite E1. by split. }
  destruct x as [s|u|a|t|k|rr]; try (apply Hother; [done|]; cbn; by destruct (evict_items target (r, n) l)).
  clear Hother. cbn [evict_items mbind list_bind item_images].
  destruct (evict_parts_spec target r n (u_content u)) as (E & Eu & _).
  destruct (evict_parts target (r, n) (u_content u)) as [st parts]. cbn [fst snd] in *. injection E as ->.
  set (us := image_urls (u_content u)) in *. set (e := evictions target r us) in *.
  set (r' := size_after r (take e us)) in *. destruct (IH r' (n + e)) as [E1 E2].
  destruct (evict_items target (r', n + e) l) as [st k]. cbn [fst snd] in *. injection E1 as ->.
  set (vs := l ≫= item_images) in *. rewrite evictions_app. fold e r'. set (e' := evictions target r' vs) in *.
  cbn [mbind list_bind item_images u_content]. rewrite Eu, E2.
  pose proof (evictions_le target r us) as Hle. fold e in Hle.
  destruct (decide (e = length us)) as [He|He].
  - rewrite take_app_ge, drop_app_ge, size_after_app by lia. unfold r'. rewrite !(take_ge us) by lia.
    replace (e + e' - length us) with e' by lia. rewrite (drop_ge us) by lia. rewrite Nat.add_assoc. by split.
  - assert (e' = 0) as -> by (apply evictions_short; fold e; lia). rewrite !Nat.add_0_r, take_app_le, drop_app_le by lia.
    cbn. by split.
Qed.

(** C35.  Once the body is above the target, the oldest images are replaced, one
    after the other, until the size is at most the target or no image is
    left, and no image more than that; all newer images are kept in their
    order.  At or below the target nothing is replaced. *)
Theorem image_budget_exact l current target :
  let urls := l ≫= item_images in
  let '(o, out) := compact_images_to_byte_budget l current target in
  out ≫= item_images = drop (evicted o) urls /\ evicted o <= length urls /\
  body_bytes_after o = size_after current (take (evicted o) urls) /\
  ((body_bytes_after o <= target)%Z \/ out ≫= item_images = []) /\
  (forall k, k < evicted o -> (target < size_after current (take k urls))%Z) /\
  ((current <= target)%Z -> out = l).
Proof.
  cbv zeta. unfold compact_images_to_byte_budget. destruct (Z.leb_spec current target) as [Hc|Hc].
  - cbn. split_and!; [done|lia|done|by left|lia|done].
  - destruct (evict_items_spec target current 0 l) as [E Ei].
    destruct (evict_items target (current, 0) l) as [st out]. cbn [fst snd] in *. injection E as ->. cbn [evicted body_bytes_after Nat.add].
    destruct (evictions_spec target current (l ≫= item_images)) as [H1 H2].
    pose proof (evictions_le target current (l ≫= item_images)).
    split_and!; [done|done|done| |done|lia].
    destruct H1 as [H1|H1]; [right|by left]. by rewrite Ei, drop_ge by lia.
Qed.
End image_props.

(** ** Properties of the reminder *)

Lemma starts_with_line t p rest :
  has_char nl t = false -> starts_with t (p +:+ String nl rest) = true -> starts_with t p = true.
Proof.
  revert p. induction t as [|a t IH]; intros p Ht Hs; [done|]. cbn in Ht. apply orb_false_iff in Ht as [Ha Ht].
  destruct p as [|c p].
  - rewrite str_app_nil_l in Hs. cbn in Hs. apply andb_true_iff in Hs as [E _]. zbool. by subst.
  - rewrite str_app_cons in Hs. cbn in Hs |- *. apply andb_true_iff in Hs as [-> Hs]. cbn. by apply IH.
Qed.

Lemma find_after_lines t p r :
  has_char nl t = false -> t <> "" -> str_contains t p = false -> starts_with t r = true ->
  find_str t (append_reminder p r) = Some (String.length p + 2).
Proof.
  intros Ht Hne. unfold append_reminder, str1. rewrite !str_app_cons, !str_app_nil_l.
  assert (forall k, starts_with t (String nl k) = false) as Hnl.
  { intros k. destruct (starts_with t (String nl k)) eqn:E; [|done]. destruct t as [|a t]; [done|].
    by apply (starts_with_line _ "" k) in E. }
  induction p as [|c p IH]; intros Hp Hr.
  - rewrite str_app_nil_l. cbn [find_str]. rewrite !Hnl. cbn [find_str].
    destruct r as [|d r]; [by destruct t|]. cbn [find_str]. by rewrite Hr.
  - cbn [str_contains] in Hp. apply orb_false_iff in Hp as [Hs Hp]. rewrite str_app_cons. cbn [find_str].
    destruct (starts_with t (String c (p +:+ _))) eqn:E.
    + assert (starts_with t (String c p +:+ String nl (String nl r)) = true) as E' by (by rewrite str_app_cons).
      apply starts_with_line in E'; [|done]. by rewrite Hs in E'.
    + rewrite IH by done. done.
Qed.

Lemma trim_end_nl_idem s : trim_end_nl (trim_end_nl s) = trim_end_nl s.
Proof.
  induction s as [|c s IH]; [done|]. cbn. destruct (trim_end_nl s) as [|d r] eqn:E.
  - case_bool_decide as Hc; [done|]. cbn. by rewrite bool_decide_false.
  - cbn [trim_end_nl]. cbn [trim_end_nl] in IH. by rewrite IH.
Qed.

Lemma trim_end_nl_lines s : trim_end_nl (s +:+ String nl (String nl "")) = trim_end_nl s.
Proof. induction s as [|c s IH]; [done|]. rewrite str_app_cons. cbn. by rewrite IH. Qed.

Lemma trim_end_nl_prefix s : exists r, s = trim_end_nl s +:+ r.
Proof.
  induction s as [|c s [r IH]]; [by exists ""|]. cbn. destruct (trim_end_nl s) as [|d q] eqn:E.
  - case_bool_decide; [by exists (String c s)|]. exists s. unfold str1; by rewrite str_app_cons, str_app_nil_l.
  - exists r. change (String c s = String c (String d q) +:+ r). rewrite str_app_cons. by f_equal.
Qed.

Lemma contains_prefix t p r : str_contains t (p +:+ r) = false -> str_contains t p = false.
Proof.
  intros E. destruct (str_contains t p) eqn:Ep; [|done]. rewrite <- E. symmetry.
  apply str_contains_spec in Ep as (a & b & ->). apply str_contains_spec. exists a, (b +:+ r). by rewrite !str_app_assoc.
Qed.

Lemma find_str_before t s n : t <> "" -> find_str t s = Some n -> str_contains t (str_take n s) = false.
Proof.
  intros Ht. revert n. induction s as [|c s IH]; intros n; cbn [find_str]; destruct (starts_with t _) eqn:E; try done.
  - intros [= <-]. by destruct t.
  - intros [= <-]. by destruct t.
  - destruct (find_str t s) as [m|] eqn:F; [|done]. intros [= <-]. cbn [str_take str_contains].
    rewrite (IH m eq_refl), orb_false_r. destruct (starts_with t (String c (str_take m s))) eqn:Es; [|done].
    apply starts_with_spec in Es as [r Es]. rewrite <- E. symmetry. apply starts_with_spec.
    exists (r +:+ str_drop m s). rewrite <- str_app_assoc, <- Es, str_app_cons, str_take_drop. done.
Qed.

Lemma open_tag_props : has_char nl MEMORY_CONTEXT_OPEN_TAG = false /\ MEMORY_CONTEXT_OPEN_TAG <> "".
Proof. by vm_compute. Qed.

(** A prompt with a reminder already in it: the part before it is kept. *)
Lemma upsert_again p r1 r2 :
  str_contains MEMORY_CONTEXT_OPEN_TAG p = false -> trim_end_nl p = p -> p <> "" ->
  starts_with MEMORY_CONTEXT_OPEN_TAG r1 = true ->
  upsert_memory_reminder_text (append_reminder p r1) r2 = append_reminder p r2.
Proof.
  intros Hc Ht Hp Hr. destruct open_tag_props as [Hnl Hne]. unfold upsert_memory_reminder_text.
  rewrite (find_after_lines _ p r1 Hnl Hne Hc Hr).
  assert (str_take (String.length p + 2) (append_reminder p r1) = p +:+ String nl (String nl "")) as ->.
  { unfold append_reminder, str1. rewrite !str_app_cons, !str_app_nil_l. clear.
    induction p as [|c p IH]; [by rewrite !str_app_nil_l|]. rewrite !str_app_cons. cbn. by rewrite IH. }
  by rewrite trim_end_nl_lines, Ht, bool_decide_false.
Qed.

Lemma trim_end_kept s : exists r, s = trim_end s +:+ r.
Proof.
  induction s as [|c s [r IH]]; [by exists ""|]. cbn [trim_end]. case_bool_decide; [by exists (String c s)|].
  exists r. rewrite str_app_cons. by f_equal.
Qed.

Lemma starts_with_contains t r s : starts_with t r = true -> str_contains t (r +:+ s) = true.
Proof.
  intros [q ->]%starts_with_spec. apply str_contains_spec. exists "", (q +:+ s). by rewrite str_app_nil_l, str_app_assoc.
Qed.

Lemma upsert_own r1 r : starts_with MEMORY_CONTEXT_OPEN_TAG r1 = true -> upsert_memory_reminder_text r1 r = r.
Proof.
  intros H1. unfold upsert_memory_reminder_text.
  assert (find_str MEMORY_CONTEXT_OPEN_TAG r1 = Some 0) as -> by (by destruct r1; cbn [find_str]; rewrite H1).
  by rewrite bool_decide_true.
Qed.

(** Reminders that start with the tag replace each other in a prompt that is
    empty or has other text. *)
Lemma upsert_twice s r1 r2 :
  starts_with MEMORY_CONTEXT_OPEN_TAG r1 = true -> starts_with MEMORY_CONTEXT_OPEN_TAG r2 = true ->
  (s = "" \/ trim_end_nl s <> "") ->
  upsert_memory_reminder_text (upsert_memory_reminder_text s r1) r2 = upsert_memory_reminder_text s r2.
Proof.
  intros H1 H2 Hs. destruct open_tag_props as [Hnl Hne].
  unfold upsert_memory_reminder_text at 2 3. destruct (find_str MEMORY_CONTEXT_OPEN_TAG s) as [idx|] eqn:Ef.
  - set (p := trim_end_nl (str_take idx s)). case_bool_decide as Hp; [by apply upsert_own|].
    apply upsert_again; [|apply trim_end_nl_idem|done|done].
    destruct (trim_end_nl_prefix (str_take idx s)) as [r Er]. apply (contains_prefix _ p r). unfold p. rewrite <- Er.
    by apply find_str_before.
  - apply find_str_none in Ef. destruct (trim_end_kept s) as [q Eq].
    assert (forall r, starts_with MEMORY_CONTEXT_OPEN_TAG r = true -> trim_end s <> r) as Hr.
    { intros r Hr <-. rewrite Eq, starts_with_contains in Ef; done. }
    rewrite !(bool_decide_false (trim_end s = _)) by auto. case_bool_decide as He; [by apply upsert_own|].
    apply upsert_again; [|apply trim_end_nl_idem|naive_solver|done].
    destruct (trim_end_nl_prefix s) as [r Er]. apply (contains_prefix _ _ r). by rewrite <- Er.
Qed.

(** Reminders do not pile up: putting a memory reminder into a
    conversation and then another one gives what putting only the second one
    gives, when both start with the tag of the memory block and the system
    message is empty or has a line of text. *)
Theorem reminder_replaced r1 r2 items :
  starts_with MEMORY_CONTEXT_OPEN_TAG (trim r1) = true -> starts_with MEMORY_CONTEXT_OPEN_TAG (trim r2) = true ->
  match items with System s :: _ => s = "" \/ trim_end_nl s <> "" | _ => True end ->
  (inject_memory_reminder r2 (inject_memory_reminder r1 items).2).2 = (inject_memory_reminder r2 items).2.
Proof.
  intros H1 H2 Hs. destruct open_tag_props as [_ Hne]. unfold inject_memory_reminder.
  rewrite !(bool_decide_false (trim _ = "")) by (intros E; by rewrite E in *).
  assert (forall s l, (if bool_decide (s = upsert_memory_reminder_text s (trim r2)) then (false, System s :: l)
    else (true, System (upsert_memory_reminder_text s (trim r2)) :: l)).2 = System (upsert_memory_reminder_text s (trim r2)) :: l) as Hu.
  { intros s l. case_bool_decide as E; [by rewrite <- E|done]. }
  destruct items as [|[s|u|a|t|k|r] l]; cbn [snd]; rewrite ?Hu; try (by rewrite upsert_own).
  case_bool_decide as E; cbn [snd]; rewrite !Hu; [done|]. by rewrite upsert_twice.
Qed.

Lemma reminder_replaced_witness :
  let r n := "<memory-context>note " +:+ n +:+ "</memory-context>" in
  (inject_memory_reminder (r "2") (inject_memory_reminder (r "1") [System "You are helpful."]).2).2 =
  [System ("You are helpful." +:+ str1 nl +:+ str1 nl +:+ r "2")].
Proof.
  cbv zeta. rewrite (reminder_replaced _ _ [System "You are helpful."]); [by vm_compute..|by right].
Defined.

(** Without a line of text the blank lines are kept the first time only. *)
Lemma reminder_blank_prompt :
  let r := "<memory-context>note</memory-context>" in
  let s := str1 nl in
  upsert_memory_reminder_text s r = str1 nl +:+ str1 nl +:+ r /\
  upsert_memory_reminder_text (upsert_memory_reminder_text s r) r = r.
Proof. by vm_compute. Qed.
