(* ===== verification/ChatState.v ===== *)
(** * The chat state actor (ccode-chat/src/actor, usage.rs, types.rs; ccode-tokens)

    The state of a chat session, the commands that change it and the queries.
    The actor handles one command at a time.  What it persists and what it
    sends to the session are logs; a panic is [None].  Of the sampling
    configuration only the fields the actor reads are kept. *)

From S2P Require Import Prelude RustStr TextLines TextFind F64 Conversation ChatRequest.

(** ** Token estimates (ccode-tokens/src/lib.rs, actor/state.rs) *)

Definition sat_add64 (x y : Z) : Z := Z.min u64_max (x + y).
Definition sat_mul64 (x y : Z) : Z := Z.min u64_max (x * y).

Definition BYTES_PER_TOKEN : Z := 4.
Definition IMAGE_TOKEN_ESTIMATE : Z := 765.
Definition estimate_tokens (s : string) : Z := (slen s / BYTES_PER_TOKEN)%Z.
Definition estimate_chars (tokens : Z) : Z := sat_mul64 tokens BYTES_PER_TOKEN.
Definition estimate_image_tokens (n : Z) : Z := sat_mul64 n IMAGE_TOKEN_ESTIMATE.

Definition usage_percentage_truncated_u8 (used total : Z) : Z :=
  if (total =? 0)%Z then 0%Z else Z.min (sat_mul64 used 100 / total) 100.
Definition free_tokens (total used : Z) : Z := sat_sub total used.
Definition exceeds_threshold (used context_window threshold_percent : Z) : bool :=
  if (context_window =? 0)%Z then false
  else (sat_mul64 context_window threshold_percent <=? sat_mul64 used 100)%Z.
Definition exceeds_threshold_with_headroom (used context_window threshold_percent headroom : Z) : bool :=
  if (context_window =? 0)%Z then false
  else (sat_sub (sat_mul64 context_window threshold_percent) (sat_mul64 headroom 100) <=? sat_mul64 used 100)%Z.

Definition total_len (l : list string) : Z := foldr (fun s n => slen s + n)%Z 0%Z l.

(** [None]: the summary of a code interpreter call panics. *)
Definition estimate_item_tokens (i : ConversationItem) : option Z :=
  match i with
  | System s => Some (estimate_tokens s)
  | User u =>
      Some (total_len (parts_text (u_content u)) / BYTES_PER_TOKEN
            + estimate_image_tokens (Z.of_nat (length (image_urls (u_content u)))))%Z
  | Assistant a => Some ((slen (a_content a) + total_len (arguments <$> tool_calls a)) / BYTES_PER_TOKEN)%Z
  | ToolResult t => Some (estimate_tokens (tr_content t))
  | BackendToolCall k => estimate_tokens <$> text_summary k
  | Reasoning r => Some ((slen (reasoning_item_text r) + total_len (option_list (encrypted_content r))) / BYTES_PER_TOKEN)%Z
  end.

(** [iter.sum::<u64>()] *)
Definition sum_u64 (l : list Z) : Z := foldl u64_add 0%Z l.
Definition estimate_conversation_tokens (l : list ConversationItem) : option Z :=
  sum_u64 <$> mapM estimate_item_tokens l.
Definition is_system (i : ConversationItem) : bool := match i with System _ => true | _ => false end.
Definition estimate_messages_tokens (l : list ConversationItem) : option Z :=
  estimate_conversation_tokens (filter (fun i => is_system i = false) l).
Definition estimate_system_message_tokens (i : ConversationItem) : Z :=
  match i with System s => estimate_tokens s | _ => 0%Z end.

(** ** Billing (usage.rs) *)

Record TokenUsage := mkUsage {
  prompt_tokens : Z; completion_tokens : Z; tu_total_tokens : Z; tu_reasoning_tokens : Z; cached_prompt_tokens : Z
}.

Record UsageTotals := mkTotals {
  input_tokens : Z; output_tokens : Z; cached_read_tokens : Z; reasoning_tokens : Z;
  model_calls : Z; api_duration_ms : Z; cost_usd_ticks : option Z; cost_missing_calls : Z
}.
Definition totals_default : UsageTotals := mkTotals 0 0 0 0 0 0 None 0.

Definition reported_cost_ticks (raw : option Z) : option Z :=
  t ← raw; if (0 <? t)%Z then Some t else None.

Definition from_call (usage : TokenUsage) (duration cost : option Z) : UsageTotals :=
  let cost := reported_cost_ticks cost in
  mkTotals (prompt_tokens usage) (completion_tokens usage) (cached_prompt_tokens usage) (tu_reasoning_tokens usage)
    1 (default 0%Z duration) cost (match cost with None => 1 | Some _ => 0 end).

Definition ut_total_tokens (t : UsageTotals) : Z := sat_add64 (input_tokens t) (output_tokens t).
Definition cost_is_partial (t : UsageTotals) : bool :=
  match cost_usd_ticks t with Some _ => (0 <? cost_missing_calls t)%Z | None => false end.

Definition i64_max : Z := (2 ^ 63 - 1)%Z.
Definition i64_min : Z := (- 2 ^ 63)%Z.
Definition sat_add_i64 (x y : Z) : Z := Z.max i64_min (Z.min i64_max (x + y)).
Definition merge_cost_ticks (a b : option Z) : option Z :=
  match a, b with
  | None, None => None
  | _, _ => Some (sat_add_i64 (default 0%Z a) (default 0%Z b))
  end.

Definition fold_totals (t other : UsageTotals) : UsageTotals :=
  mkTotals (sat_add64 (input_tokens t) (input_tokens other)) (sat_add64 (output_tokens t) (output_tokens other))
    (sat_add64 (cached_read_tokens t) (cached_read_tokens other)) (sat_add64 (reasoning_tokens t) (reasoning_tokens other))
    (sat_add64 (model_calls t) (model_calls other)) (sat_add64 (api_duration_ms t) (api_duration_ms other))
    (merge_cost_ticks (cost_usd_ticks t) (cost_usd_ticks other))
    (sat_add64 (cost_missing_calls t) (cost_missing_calls other)).

(** The map of the models keeps their order of insertion. *)
Record UsageLedger := mkLedger {
  totals : UsageTotals;
  by_model : list (string * UsageTotals);
  main_loop_model_calls : Z;
  incomplete : bool
}.
Definition ledger_default : UsageLedger := mkLedger totals_default [] 0 false.

(** [by_model.entry(id).or_default().fold_totals(totals)] *)
Fixpoint fold_model (id : string) (t : UsageTotals) (l : list (string * UsageTotals)) : list (string * UsageTotals) :=
  match l with
  | [] => [(id, fold_totals totals_default t)]
  | (k, v) :: l' => if bool_decide (k = id) then (k, fold_totals v t) :: l' else (k, v) :: fold_model id t l'
  end.

Definition fold_entry (id : string) (t : UsageTotals) (l : UsageLedger) : UsageLedger :=
  mkLedger (fold_totals (totals l) t) (fold_model id t (by_model l)) (main_loop_model_calls l) (incomplete l).

Definition record_main_loop_call (id : string) (usage : TokenUsage) (duration cost : option Z) (l : UsageLedger) : UsageLedger :=
  fold_entry id (from_call usage duration cost)
    (mkLedger (totals l) (by_model l) (sat_add64 (main_loop_model_calls l) 1) (incomplete l)).

Definition mark_incomplete (l : UsageLedger) : UsageLedger :=
  mkLedger (totals l) (by_model l) (main_loop_model_calls l) true.

Definition record_subagent (models : list (string * UsageTotals)) (inc : bool) (l : UsageLedger) : UsageLedger :=
  let l := foldl (fun l '(id, t) => fold_entry id t l) l models in
  if inc then mark_incomplete l else l.

(** ** State (actor/state.rs, types.rs) *)

Record SamplingConfig := mkSampling {
  sc_model : string;
  max_completion_tokens : option Z;
  temperature : option spec_float;
  top_p : option spec_float;
  context_window : Z;
  sc_reasoning_effort : option ReasoningEffort
}.

Inductive AuthType := SessionToken | ApiKey.
Record Credentials := mkCredentials {
  api_key : option string; auth_type : AuthType; alpha_test_key : option string; client_version : option string
}.
Definition credentials_default : Credentials := mkCredentials None SessionToken None None.

Record TurnCaptureState := mkCapture {
  turn_start_offset : nat;
  pre_replacement_messages : list ConversationItem;
  compaction_occurred : bool
}.

Record ChatState := mkState {
  conversation : list ConversationItem;
  sampling_config : SamplingConfig;
  prompt_index : nat;
  prompt_texts : list string;
  total_tokens : Z;
  stream_start_ms : option Z;
  turn_start_ms : option Z;
  agent_edited_paths : gset string;
  last_compaction_prompt_index : option nat;
  credentials : Credentials;
  estimated_tokens_since_model : Z;
  estimate_at_last_response : Z;
  last_turn_usage : option TokenUsage;
  prompt_usage : option UsageLedger;
  session_usage : UsageLedger;
  turn_capture : option TurnCaptureState;
  harness_trace_buffer : list ConversationItem;
  harness_trace_turns : list (list ConversationItem)
}.

(** Updates of one field. *)
Definition set_conversation (v : list ConversationItem) (s : ChatState) : ChatState :=
  mkState v (sampling_config s) (prompt_index s) (prompt_texts s) (total_tokens s) (stream_start_ms
    s) (turn_start_ms s) (agent_edited_paths s) (last_compaction_prompt_index s) (credentials s)
    (estimated_tokens_since_model s) (estimate_at_last_response s) (last_turn_usage s) (prompt_usage
    s) (session_usage s) (turn_capture s) (harness_trace_buffer s) (harness_trace_turns s).
Definition set_sampling_config (v : SamplingConfig) (s : ChatState) : ChatState :=
  mkState (conversation s) v (prompt_index s) (prompt_texts s) (total_tokens s) (stream_start_ms s)
    (turn_start_ms s) (agent_edited_paths s) (last_compaction_prompt_index s) (credentials s)
    (estimated_tokens_since_model s) (estimate_at_last_response s) (last_turn_usage s) (prompt_usage
    s) (session_usage s) (turn_capture s) (harness_trace_buffer s) (harness_trace_turns s).
Definition set_prompt_index (v : nat) (s : ChatState) : ChatState :=
  mkState (conversation s) (sampling_config s) v (prompt_texts s) (total_tokens s) (stream_start_ms
    s) (turn_start_ms s) (agent_edited_paths s) (last_compaction_prompt_index s) (credentials s)
    (estimated_tokens_since_model s) (estimate_at_last_response s) (last_turn_usage s) (prompt_usage
    s) (session_usage s) (turn_capture s) (harness_trace_buffer s) (harness_trace_turns s).
Definition set_prompt_texts (v : list string) (s : ChatState) : ChatState :=
  mkState (conversation s) (sampling_config s) (prompt_index s) v (total_tokens s) (stream_start_ms
    s) (turn_start_ms s) (agent_edited_paths s) (last_compaction_prompt_index s) (credentials s)
    (estimated_tokens_since_model s) (estimate_at_last_response s) (last_turn_usage s) (prompt_usage
    s) (session_usage s) (turn_capture s) (harness_trace_buffer s) (harness_trace_turns s).
Definition set_total_tokens (v : Z) (s : ChatState) : ChatState :=
  mkState (conversation s) (sampling_config s) (prompt_index s) (prompt_texts s) v (stream_start_ms
    s) (turn_start_ms s) (agent_edited_paths s) (last_compaction_prompt_index s) (credentials s)
    (estimated_tokens_since_model s) (estimate_at_last_response s) (last_turn_usage s) (prompt_usage
    s) (session_usage s) (turn_capture s) (harness_trace_buffer s) (harness_trace_turns s).
Definition set_stream_start_ms (v : option Z) (s : ChatState) : ChatState :=
  mkState (conversation s) (sampling_config s) (prompt_index s) (prompt_texts s) (total_tokens s) v
    (turn_start_ms s) (agent_edited_paths s) (last_compaction_prompt_index s) (credentials s)
    (estimated_tokens_since_model s) (estimate_at_last_response s) (last_turn_usage s) (prompt_usage
    s) (session_usage s) (turn_capture s) (harness_trace_buffer s) (harness_trace_turns s).
Definition set_turn_start_ms (v : option Z) (s : ChatState) : ChatState :=
  mkState (conversation s) (sampling_config s) (prompt_index s) (prompt_texts s) (total_tokens s)
    (stream_start_ms s) v (agent_edited_paths s) (last_compaction_prompt_index s) (credentials s)
    (estimated_tokens_since_model s) (estimate_at_last_response s) (last_turn_usage s) (prompt_usage
    s) (session_usage s) (turn_capture s) (harness_trace_buffer s) (harness_trace_turns s).
Definition set_agent_edited_paths (v : gset string) (s : ChatState) : ChatState :=
  mkState (conversation s) (sampling_config s) (prompt_index s) (prompt_texts s) (total_tokens s)
    (stream_start_ms s) (turn_start_ms s) v (last_compaction_prompt_index s) (credentials s)
    (estimated_tokens_since_model s) (estimate_at_last_response s) (last_turn_usage s) (prompt_usage
    s) (session_usage s) (turn_capture s) (harness_trace_buffer s) (harness_trace_turns s).
Definition set_last_compaction_prompt_index (v : option nat) (s : ChatState) : ChatState :=
  mkState (conversation s) (sampling_config s) (prompt_index s) (prompt_texts s) (total_tokens s)
    (stream_start_ms s) (turn_start_ms s) (agent_edited_paths s) v (credentials s)
    (estimated_tokens_since_model s) (estimate_at_last_response s) (last_turn_usage s) (prompt_usage
    s) (session_usage s) (turn_capture s) (harness_trace_buffer s) (harness_trace_turns s).
Definition set_credentials (v : Credentials) (s : ChatState) : ChatState :=
  mkState (conversation s) (sampling_config s) (prompt_index s) (prompt_texts s) (total_tokens s)
    (stream_start_ms s) (turn_start_ms s) (agent_edited_paths s) (last_compaction_prompt_index s) v
    (estimated_tokens_since_model s) (estimate_at_last_response s) (last_turn_usage s) (prompt_usage
    s) (session_usage s) (turn_capture s) (harness_trace_buffer s) (harness_trace_turns s).
Definition set_estimated_tokens_since_model (v : Z) (s : ChatState) : ChatState :=
  mkState (conversation s) (sampling_config s) (prompt_index s) (prompt_texts s) (total_tokens s)
    (stream_start_ms s) (turn_start_ms s) (agent_edited_paths s) (last_compaction_prompt_index s)
    (credentials s) v (estimate_at_last_response s) (last_turn_usage s) (prompt_usage s)
    (session_usage s) (turn_capture s) (harness_trace_buffer s) (harness_trace_turns s).
Definition set_estimate_at_last_response (v : Z) (s : ChatState) : ChatState :=
  mkState (conversation s) (sampling_config s) (prompt_index s) (prompt_texts s) (total_tokens s)
    (stream_start_ms s) (turn_start_ms s) (agent_edited_paths s) (last_compaction_prompt_index s)
    (credentials s) (estimated_tokens_since_model s) v (last_turn_usage s) (prompt_usage s)
    (session_usage s) (turn_capture s) (harness_trace_buffer s) (harness_trace_turns s).
Definition set_last_turn_usage (v : option TokenUsage) (s : ChatState) : ChatState :=
  mkState (conversation s) (sampling_config s) (prompt_index s) (prompt_texts s) (total_tokens s)
    (stream_start_ms s) (turn_start_ms s) (agent_edited_paths s) (last_compaction_prompt_index s)
    (credentials s) (estimated_tokens_since_model s) (estimate_at_last_response s) v (prompt_usage
    s) (session_usage s) (turn_capture s) (harness_trace_buffer s) (harness_trace_turns s).
Definition set_prompt_usage (v : option UsageLedger) (s : ChatState) : ChatState :=
  mkState (conversation s) (sampling_config s) (prompt_index s) (prompt_texts s) (total_tokens s)
    (stream_start_ms s) (turn_start_ms s) (agent_edited_paths s) (last_compaction_prompt_index s)
    (credentials s) (estimated_tokens_since_model s) (estimate_at_last_response s) (last_turn_usage
    s) v (session_usage s) (turn_capture s) (harness_trace_buffer s) (harness_trace_turns s).
Definition set_session_usage (v : UsageLedger) (s : ChatState) : ChatState :=
  mkState (conversation s) (sampling_config s) (prompt_index s) (prompt_texts s) (total_tokens s)
    (stream_start_ms s) (turn_start_ms s) (agent_edited_paths s) (last_compaction_prompt_index s)
    (credentials s) (estimated_tokens_since_model s) (estimate_at_last_response s) (last_turn_usage
    s) (prompt_usage s) v (turn_capture s) (harness_trace_buffer s) (harness_trace_turns s).
Definition set_turn_capture (v : option TurnCaptureState) (s : ChatState) : ChatState :=
  mkState (conversation s) (sampling_config s) (prompt_index s) (prompt_texts s) (total_tokens s)
    (stream_start_ms s) (turn_start_ms s) (agent_edited_paths s) (last_compaction_prompt_index s)
    (credentials s) (estimated_tokens_since_model s) (estimate_at_last_response s) (last_turn_usage
    s) (prompt_usage s) (session_usage s) v (harness_trace_buffer s) (harness_trace_turns s).
Definition set_harness_trace_buffer (v : list ConversationItem) (s : ChatState) : ChatState :=
  mkState (conversation s) (sampling_config s) (prompt_index s) (prompt_texts s) (total_tokens s)
    (stream_start_ms s) (turn_start_ms s) (agent_edited_paths s) (last_compaction_prompt_index s)
    (credentials s) (estimated_tokens_since_model s) (estimate_at_last_response s) (last_turn_usage
    s) (prompt_usage s) (session_usage s) (turn_capture s) v (harness_trace_turns s).
Definition set_harness_trace_turns (v : list (list ConversationItem)) (s : ChatState) : ChatState :=
  mkState (conversation s) (sampling_config s) (prompt_index s) (prompt_texts s) (total_tokens s)
    (stream_start_ms s) (turn_start_ms s) (agent_edited_paths s) (last_compaction_prompt_index s)
    (credentials s) (estimated_tokens_since_model s) (estimate_at_last_response s) (last_turn_usage
    s) (prompt_usage s) (session_usage s) (turn_capture s) (harness_trace_buffer s) v.

(** [ChatState::new]: the initial conversation is repaired. *)
Definition state_new (l : list ConversationItem) (config : SamplingConfig) : option ChatState :=
  '(_, l) ← dedup_duplicate_tool_results l;
  let '(_, l) := repair_dangling_tool_calls UserCancelled l in
  n ← estimate_conversation_tokens l;
  Some (mkState l config 0 [] n None None ∅ None credentials_default 0 n None None ledger_default None [] []).

Definition seal_harness_trace_turn (s : ChatState) : ChatState :=
  match harness_trace_buffer s with
  | [] => s
  | turn => set_harness_trace_turns (harness_trace_turns s ++ [turn]) (set_harness_trace_buffer [] s)
  end.

Record ChatStateSnapshot := mkSnapshot {
  sn_conversation : list ConversationItem; sn_sampling_config : SamplingConfig; sn_prompt_index : nat;
  sn_total_tokens : Z; sn_estimate_at_last_response : Z; sn_agent_edited_paths : gset string;
  sn_prompt_texts : list string; sn_stream_start_ms : option Z; sn_turn_start_ms : option Z;
  sn_last_compaction_prompt_index : option nat; sn_credentials : Credentials
}.

(** ** The actor (actor/mod.rs) *)

Inductive ChatStateEvent :=
| PromptIndexChanged (new_index : nat)
| TokensUpdated (tokens : Z)
| ConversationReset (new_len : nat)
| ImageBudget (body_bytes trigger_bytes reclaim_target_bytes : Z) (inline_images : nat) (needs_image_compaction : bool)
    (evicted : nat) (body_bytes_after : Z).

(** The calls of the persistence. *)
Inductive PersistenceRecord :=
| Message (i : ConversationItem)
| AcknowledgedMessage (i : ConversationItem)
| ReplaceHistory (l : list ConversationItem)
| Flushed.

Record Actor := mkActor {
  state : ChatState;
  pruning_config : PruningConfig;
  persistence : list PersistenceRecord;
  events : list ChatStateEvent
}.

Definition on_state (f : ChatState -> ChatState) (a : Actor) : Actor :=
  mkActor (f (state a)) (pruning_config a) (persistence a) (events a).
Definition persist (r : PersistenceRecord) (a : Actor) : Actor :=
  mkActor (state a) (pruning_config a) (persistence a ++ [r]) (events a).
Definition send_event (e : ChatStateEvent) (a : Actor) : Actor :=
  mkActor (state a) (pruning_config a) (persistence a) (events a ++ [e]).

(** ** Mutations (actor/mutations.rs) *)

(** [conversation.get(offset..)], nothing past the end. *)
Definition turn_tail (l : list ConversationItem) (offset : nat) : list ConversationItem :=
  if offset <=? length l then drop offset l else [].

Definition snapshot_turn_slice (s : ChatState) : ChatState :=
  match turn_capture s with
  | Some c => set_turn_capture (Some (mkCapture (turn_start_offset c)
      (pre_replacement_messages c ++ turn_tail (conversation s) (turn_start_offset c)) (compaction_occurred c))) s
  | None => s
  end.

Definition rebase_turn_capture_offset (s : ChatState) : ChatState :=
  match turn_capture s with
  | Some c => set_turn_capture (Some (mkCapture (length (conversation s)) (pre_replacement_messages c)
                                                (compaction_occurred c))) s
  | None => s
  end.

Definition ensure_conversation_integrity_with_reason (reason : DanglingToolCallReason) (a : Actor) : option Actor :=
  let a := on_state snapshot_turn_slice a in
  '(deduped, l) ← dedup_duplicate_tool_results (conversation (state a));
  let '(repaired, l) := repair_dangling_tool_calls reason l in
  let a := on_state (set_conversation l) a in
  let a := if (0 <? repaired) || (0 <? deduped) then persist (ReplaceHistory l) a else a in
  Some (on_state rebase_turn_capture_offset a).
Definition ensure_conversation_integrity : Actor -> option Actor :=
  ensure_conversation_integrity_with_reason UserCancelled.
Definition repair_dangling_after_harness_halt (class : string) : Actor -> option Actor :=
  ensure_conversation_integrity_with_reason (HarnessHalted class).

(** [x.round() as u64]: halves away from zero. *)
Definition f64_round_u64 (x : f64) : Z :=
  match x with
  | S754_finite false m e =>
      Z.min u64_max (if (e <? 0)%Z then (2 * Zpos m + 2 ^ (- e)) / 2 ^ (1 - e) else Zpos m * 2 ^ e)%Z
  | S754_infinity false => u64_max
  | _ => 0%Z
  end.

Definition replace_conversation (items : list ConversationItem) (is_compaction : bool) (a : Actor) : option Actor :=
  let a := on_state snapshot_turn_slice a in
  let a := match turn_capture (state a) with
           | Some c => if is_compaction
                       then on_state (set_turn_capture (Some (mkCapture (turn_start_offset c) (pre_replacement_messages c) true))) a
                       else a
           | None => a
           end in
  let s := state a in
  let pre_replace_total := total_tokens s in
  let a := persist (ReplaceHistory items) a in
  base_estimate ← estimate_conversation_tokens items;
  let estimated :=
    if is_compaction && (0 <? pre_replace_total)%Z && (0 <? estimate_at_last_response s)%Z
    then f64_round_u64 (fmul (f64_of_Z base_estimate)
           (fdiv (f64_of_Z pre_replace_total) (f64_of_Z (estimate_at_last_response s))))
    else base_estimate in
  let estimated := if is_compaction && (0 <? pre_replace_total)%Z then Z.min estimated pre_replace_total else estimated in
  let a := on_state (fun s => rebase_turn_capture_offset
             (set_estimate_at_last_response base_estimate
               (set_total_tokens estimated (set_estimated_tokens_since_model 0 (set_conversation items s))))) a in
  Some (send_event (TokensUpdated estimated) (send_event (ConversationReset (length items)) a)).

(** The conversation is taken out of the state before it is replaced. *)
Definition actor_repair_history (dry_run : bool) (a : Actor) : option (HistoryRepairReport * Actor) :=
  '(report, items) ← repair_history (conversation (state a));
  if dry_run then Some (report, a)
  else if changed report then
    a ← replace_conversation items false (on_state (set_conversation []) a);
    Some (report, a)
  else Some (report, on_state (set_conversation items) a).

(** The first switch of the generation is replaced. *)
Fixpoint replace_switch (generation : Z) (item : ConversationItem) (l : list ConversationItem)
    : option (ConversationItem * list ConversationItem) :=
  match l with
  | [] => None
  | x :: l' =>
      if bool_decide (working_directory_switch_generation x = Some generation) then Some (x, item :: l')
      else '(old, l') ← replace_switch generation item l'; Some (old, x :: l')
  end.

Definition converge_working_directory_switch (generation : Z) (item : ConversationItem) (a : Actor) : option Actor :=
  let s := state a in
  new_tokens ← estimate_item_tokens item;
  match replace_switch generation item (conversation s) with
  | Some (existing, l) =>
      old_tokens ← estimate_item_tokens existing;
      let n := if (old_tokens <=? new_tokens)%Z
               then sat_add64 (estimated_tokens_since_model s) (new_tokens - old_tokens)
               else sat_sub (estimated_tokens_since_model s) (old_tokens - new_tokens) in
      Some (on_state (fun s => set_conversation l (set_estimated_tokens_since_model n s)) a)
  | None =>
      Some (on_state (fun s => set_conversation (conversation s ++ [item])
              (set_estimated_tokens_since_model (u64_add (estimated_tokens_since_model s) new_tokens) s)) a)
  end.

Definition is_assistant (i : ConversationItem) : bool := match i with Assistant _ => true | _ => false end.

Definition append_item (item : ConversationItem) (a : Actor) : Actor :=
  on_state (fun s => set_conversation (conversation s ++ [item]) s) (persist (Message item) a).

Definition count_tokens (item : ConversationItem) (a : Actor) : option Actor :=
  n ← estimate_item_tokens item;
  Some (on_state (fun s => set_estimated_tokens_since_model (u64_add (estimated_tokens_since_model s) n) s) a).

Definition push_message (item : ConversationItem) (a : Actor) : option Actor :=
  a ← (if is_assistant item then Some a else count_tokens item a);
  Some (append_item item a).

(** From the last item to the first; the result counts the results cleared. *)
Fixpoint clear_old (threshold turn : nat) (seen : bool) (rev_l : list ConversationItem) : nat * list ConversationItem :=
  match rev_l with
  | [] => (0, [])
  | x :: l =>
      match x with
      | User _ => let '(n, l) := clear_old threshold (if seen then S turn else turn) true l in (n, x :: l)
      | ToolResult t =>
          let '(n, l) := clear_old threshold turn seen l in
          if turn <? threshold then (n, x :: l)
          else if bool_decide (tr_content t = HARD_CLEAR_PLACEHOLDER) then (n, x :: l)
          else (S n, ToolResult (set_result HARD_CLEAR_PLACEHOLDER t) :: l)
      | _ => let '(n, l) := clear_old threshold turn seen l in (n, x :: l)
      end
  end.

Definition item_content_bytes (i : ConversationItem) : option Z :=
  match i with
  | System s => Some (slen s)
  | User u => Some (total_len ((fun p => match p with Text t => t | Image u => u end) <$> u_content u))
  | Assistant a => Some (slen (a_content a))
  | ToolResult t => Some (slen (tr_content t))
  | BackendToolCall k => slen <$> text_summary k
  | Reasoning r => Some (slen (reasoning_item_text r) + total_len (option_list (encrypted_content r)))%Z
  end.
(** Measured before the pass for the log; it can panic. *)
Definition conversation_content_bytes (l : list ConversationItem) : option (list Z) := mapM item_content_bytes l.

Definition effective_threshold (c : PruningConfig) (s : ChatState) : nat :=
  hard_clear_age_turns c + (users (conversation s) - prompt_index s).

Definition prune_retained_conversation (a : Actor) : option (nat * Actor) :=
  let c := pruning_config a in
  let s := state a in
  if negb (enabled c) || (prompt_index s <? hard_clear_age_turns c) then Some (0, a)
  else
    _ ← conversation_content_bytes (conversation s);
    let '(cleared, l) := clear_old (effective_threshold c s) 0 false (reverse (conversation s)) in
    let a := on_state (set_conversation (reverse l)) a in
    Some (cleared, if 0 <? cleared then persist (ReplaceHistory (reverse l)) a else a).

Definition push_user_message_with_repair_reason (reason : DanglingToolCallReason) (item : ConversationItem) (a : Actor)
    : option Actor :=
  a ← ensure_conversation_integrity_with_reason reason a;
  a ← count_tokens item a;
  '(_, a) ← prune_retained_conversation (append_item item a);
  Some a.
Definition push_user_message : ConversationItem -> Actor -> option Actor :=
  push_user_message_with_repair_reason UserCancelled.

Definition record_token_usage (tokens : Z) (a : Actor) : option Actor :=
  n ← estimate_conversation_tokens (conversation (state a));
  Some (send_event (TokensUpdated tokens)
    (on_state (fun s => set_total_tokens tokens (set_estimate_at_last_response n (set_estimated_tokens_since_model 0 s))) a)).

Definition record_last_turn_usage (u : TokenUsage) (a : Actor) : Actor := on_state (set_last_turn_usage (Some u)) a.

(** [prompt_usage.get_or_insert_default()] *)
Definition on_prompt_usage (f : UsageLedger -> UsageLedger) (s : ChatState) : ChatState :=
  set_prompt_usage (Some (f (default ledger_default (prompt_usage s)))) s.
Definition on_session_usage (f : UsageLedger -> UsageLedger) (s : ChatState) : ChatState :=
  set_session_usage (f (session_usage s)) s.

Definition record_model_call_usage (model : option string) (u : TokenUsage) (duration cost : option Z) (a : Actor) : Actor :=
  let key := match model with
             | Some id => if bool_decide (id = EmptyString) then sc_model (sampling_config (state a)) else id
             | None => sc_model (sampling_config (state a))
             end in
  on_state (fun s => on_session_usage (record_main_loop_call key u duration cost)
                       (on_prompt_usage (record_main_loop_call key u duration cost) s)) a.

Definition record_subagent_usage (models : list (string * UsageTotals)) (attribute_to_prompt inc : bool) (a : Actor) : Actor :=
  if bool_decide (length models = 0) && negb inc then a
  else on_state (fun s => on_session_usage (record_subagent models inc)
                   (if attribute_to_prompt then on_prompt_usage (record_subagent models inc) s else s)) a.

Definition mark_usage_incomplete (prompt session : bool) (a : Actor) : Actor :=
  on_state (fun s =>
    let s := if prompt then on_prompt_usage mark_incomplete s else s in
    if session then on_session_usage mark_incomplete s else s) a.

Definition increment_prompt_index (a : Actor) : Actor :=
  let a := on_state (fun s => set_prompt_index (S (prompt_index s)) (set_prompt_usage None s)) a in
  send_event (PromptIndexChanged (prompt_index (state a))) a.

(** ** The head of the conversation (conversation_util.rs) *)

(** [s.trim_end_matches(['\n', '\r'])] *)
Fixpoint trim_end_eol (s : string) : string :=
  match s with
  | EmptyString => EmptyString
  | String c r => match trim_end_eol r with
                  | EmptyString => if bool_decide (c = nl) || bool_decide (c = "013"%char) then EmptyString else str1 c
                  | t => String c t
                  end
  end.
Definition canonical_system_prompt_eq (s t : string) : bool := bool_decide (trim_end_eol s = trim_end_eol t).

Definition replace_or_insert_system_head (prompt : string) (l : list ConversationItem) : bool * list ConversationItem :=
  match l with
  | System s :: l' => if canonical_system_prompt_eq s prompt then (false, l) else (true, System prompt :: l')
  | _ => (true, System prompt :: l)
  end.

Definition head_matches (prompt : string) (l : list ConversationItem) : bool :=
  match l with System s :: _ => canonical_system_prompt_eq s prompt | _ => false end.

Definition replace_system_head (prompt : string) (a : Actor) : option (bool * Actor) :=
  if head_matches prompt (conversation (state a)) then Some (false, a)
  else
    let '(changed, l) := replace_or_insert_system_head prompt (conversation (state a)) in
    a ← replace_conversation l false a;
    Some (changed, a).

(** ** Snapshots and rewinds (actor/mutations.rs, actor/queries.rs) *)

Definition snapshot (a : Actor) : ChatStateSnapshot :=
  let s := state a in
  mkSnapshot (conversation s) (sampling_config s) (prompt_index s) (total_tokens s) (estimate_at_last_response s)
    (agent_edited_paths s) (prompt_texts s) (stream_start_ms s) (turn_start_ms s) (last_compaction_prompt_index s)
    (credentials s).

Definition restore_snapshot (n : ChatStateSnapshot) (a : Actor) : option Actor :=
  let a := on_state (fun s => rebase_turn_capture_offset (set_conversation (sn_conversation n) (snapshot_turn_slice s))) a in
  e ← (if (0 <? sn_estimate_at_last_response n)%Z then Some (sn_estimate_at_last_response n)
       else estimate_conversation_tokens (sn_conversation n));
  Some (on_state (fun s =>
    mkState (conversation s) (sn_sampling_config n) (sn_prompt_index n) (sn_prompt_texts n) (sn_total_tokens n)
      (sn_stream_start_ms n) (sn_turn_start_ms n) (sn_agent_edited_paths n) (sn_last_compaction_prompt_index n)
      (sn_credentials n) 0 e (last_turn_usage s) None (session_usage s) (turn_capture s) (harness_trace_buffer s)
      (harness_trace_turns s)) a).

(** The position of the user item that [target] user items precede. *)
Fixpoint nth_user (target i : nat) (l : list ConversationItem) : nat :=
  match l with
  | [] => i
  | x :: l' => if is_user x then match target with 0 => i | S t => nth_user t (S i) l' end
               else nth_user target (S i) l'
  end.

Definition truncate_to_prompt_index (target : nat) (a : Actor) : option Actor :=
  let s := state a in
  if prompt_index s <=? target then Some a
  else
    let l := take (nth_user target 0 (conversation s)) (conversation s) in
    n ← estimate_conversation_tokens l;
    let a := on_state (fun s => set_estimate_at_last_response n (set_estimated_tokens_since_model 0 (set_total_tokens n
               (set_prompt_index target (set_prompt_texts (take target (prompt_texts s)) (set_conversation l s)))))) a in
    Some (send_event (ConversationReset (length l)) (persist (ReplaceHistory l) a)).

(** ** Queries (actor/queries.rs) *)

Record AutoCompactTrigger := mkTrigger { ac_total_tokens : Z; ac_context_window : Z; utilization_percent : Z }.
Definition check_auto_compact_needed (threshold_percent : Z) (s : ChatState) : option AutoCompactTrigger :=
  let cw := context_window (sampling_config s) in
  if exceeds_threshold (total_tokens s) cw threshold_percent
  then Some (mkTrigger (total_tokens s) cw (usage_percentage_truncated_u8 (total_tokens s) cw))
  else None.

Record ModelMetadata := mkMetadata { resolved_model_id : option string; md_model_fingerprint : option string }.
Fixpoint find_metadata (rev_l : list ConversationItem) : ModelMetadata :=
  match rev_l with
  | [] => mkMetadata None None
  | Assistant a :: _ => mkMetadata (model_id a) (model_fingerprint a)
  | _ :: l => find_metadata l
  end.
Definition get_last_model_metadata (s : ChatState) : ModelMetadata := find_metadata (reverse (conversation s)).

Definition has_text (a : AssistantItem) : bool := negb (bool_decide (trim (a_content a) = EmptyString)).
Fixpoint find_text (rev_l : list ConversationItem) : option string :=
  match rev_l with
  | [] => None
  | Assistant a :: l => if has_text a then Some (a_content a) else find_text l
  | _ :: l => find_text l
  end.
Definition get_last_assistant_text (s : ChatState) : option string := find_text (reverse (conversation s)).

Definition opens_turn (u : UserItem) : bool :=
  bool_decide (is_Some (u_prompt_index u)) ||
  match synthetic_reason u with None => true | Some r => starts_prompt_turn r end.
Fixpoint find_turn_text (rev_l : list ConversationItem) : option string :=
  match rev_l with
  | [] => None
  | Assistant a :: l => if has_text a then Some (a_content a) else find_turn_text l
  | User u :: l => if opens_turn u then None else find_turn_text l
  | _ :: l => find_turn_text l
  end.
Definition get_last_assistant_text_in_turn (s : ChatState) : option string := find_turn_text (reverse (conversation s)).

(** [find_map]: a user item whose first part is no text is passed over. *)
Fixpoint find_user_text (l : list ConversationItem) : option string :=
  match l with
  | [] => None
  | User u :: l => match u_content u with Text t :: _ => Some t | _ => find_user_text l end
  | _ :: l => find_user_text l
  end.
Definition get_first_user_text (s : ChatState) : option string := find_user_text (conversation s).

Record ConversationCounts := mkCounts { c_total : nat; c_user : nat; c_assistant : nat; c_tool_result : nat }.
Definition count_item (c : ConversationCounts) (i : ConversationItem) : ConversationCounts :=
  match i with
  | User _ => mkCounts (c_total c) (S (c_user c)) (c_assistant c) (c_tool_result c)
  | Assistant _ => mkCounts (c_total c) (c_user c) (S (c_assistant c)) (c_tool_result c)
  | ToolResult _ => mkCounts (c_total c) (c_user c) (c_assistant c) (S (c_tool_result c))
  | _ => c
  end.
Definition get_conversation_counts (s : ChatState) : ConversationCounts :=
  foldl count_item (mkCounts (length (conversation s)) 0 0 0) (conversation s).

Definition get_system_message (s : ChatState) : option ConversationItem :=
  snd <$> list_find (fun i => is_system i = true) (conversation s).

(** ** The text of a user query (compaction_utils.rs) *)

Definition SYSTEM_TAGS : list string :=
  ["user_info"; "project_layout"; "git_status"; "fork-context"; "system-reminder"; "agent-memory"; "system_reminder";
   "background_context"; "command-name"; "command-message"; "command-args"].
Definition open_tag (tag : string) : string := "<" +:+ tag +:+ ">".
Definition close_tag (tag : string) : string := "</" +:+ tag +:+ ">".

(** Each block removed is shorter than the text: its length is enough fuel. *)
Fixpoint strip_blocks (fuel : nat) (tag s : string) : string :=
  match fuel with
  | 0 => s
  | S f =>
      match find_str (open_tag tag) s with
      | Some start =>
          match find_str (close_tag tag) (str_drop start s) with
          | Some rel => strip_blocks f tag (str_take start s +:+ str_drop (start + rel + String.length (close_tag tag)) s)
          | None => s
          end
      | None => s
      end
  end.
Definition strip_system_tags (s : string) : string :=
  trim (foldl (fun s tag => strip_blocks (String.length s) tag s) s SYSTEM_TAGS).

Definition extract_user_query (s : string) : string :=
  match find_str (open_tag "user_query") s with
  | Some start =>
      let content := str_drop (start + String.length (open_tag "user_query")) s in
      match find_str (close_tag "user_query") content with
      | Some n => strip_system_tags (trim (str_take n content))
      | None => strip_system_tags s
      end
  | None => strip_system_tags s
  end.

Definition nonempty_text (s : string) : option string := if bool_decide (s = EmptyString) then None else Some s.
(** [None] is a panic; the text of a user item never panics. *)
Definition extract_last_user_query (l : list ConversationItem) : option (option string) :=
  match list_find (fun i => is_user i = true) (reverse l) with
  | Some (_, i) => t ← text_content i; Some (nonempty_text (extract_user_query t))
  | None => Some None
  end.

(** ** Building a request (actor/request_builder.rs) *)

Record ToolSpec := mkToolSpec { ts_name : string; ts_description : option string; ts_parameters : string }.

(** The fields the actor leaves empty are not listed. *)
Record ConversationRequest := mkRequest {
  r_items : list ConversationItem;
  r_tools : list ToolSpec;
  r_model : option string;
  r_temperature : option spec_float;
  max_output_tokens : option Z;
  r_top_p : option spec_float;
  x_ccode_conv_id : option string;
  x_ccode_req_id : option string;
  r_reasoning_effort : option ReasoningEffort
}.

Section Build.
Context `{Serde}.

(** The reminder is written into the conversation of the session when asked,
    and then no longer into the request. *)
Definition persist_reminder (reminder : option string) (persisted : bool) (a : Actor) : option string * Actor :=
  match reminder with
  | Some r =>
      if persisted then
        let a := on_state snapshot_turn_slice a in
        let '(injected, l) := inject_memory_reminder r (conversation (state a)) in
        let a := on_state (set_conversation l) a in
        let a := if injected then persist (ReplaceHistory l) a else a in
        (if injected then None else reminder, on_state rebase_turn_capture_offset a)
      else (reminder, a)
  | None => (None, a)
  end.

(** The working copy: images, then tool results, then the reminder. *)
Definition request_items (c : PruningConfig) (needs_prune needs_image_compaction : bool) (body_bytes : Z)
    (reminder : option string) (l : list ConversationItem) : option ImageEvictionOutcome * list ConversationItem :=
  let '(outcome, l) := if needs_image_compaction
    then (let '(o, l) := compact_images_to_byte_budget l body_bytes IMAGE_COMPACT_RECLAIM_TARGET_BYTES in (Some o, l))
    else (None, l) in
  let l := if needs_prune then prune_conversation c l else l in
  (outcome, match reminder with Some r => (inject_memory_reminder r l).2 | None => l end).

Definition build_conversation_request (tools : list ToolSpec) (reminder : option string) (persisted : bool)
    (conv_id req_id : string) (a : Actor) : ConversationRequest * Actor :=
  let needs_prune := should_prune (total_tokens (state a)) (context_window (sampling_config (state a))) in
  let '(reminder, a) := persist_reminder reminder persisted a in
  let l := conversation (state a) in
  let body_bytes := conversation_body_bytes l in
  let inline_images := inline_image_count l in
  let needs_image_compaction := (IMAGE_COMPACT_TRIGGER_BYTES <=? body_bytes)%Z in
  let '(outcome, items) :=
    if needs_prune || bool_decide (is_Some reminder) || needs_image_compaction
    then request_items (pruning_config a) needs_prune needs_image_compaction body_bytes reminder l
    else (None, l) in
  let a := if 0 <? inline_images
           then send_event (ImageBudget body_bytes IMAGE_COMPACT_TRIGGER_BYTES IMAGE_COMPACT_RECLAIM_TARGET_BYTES
                  inline_images needs_image_compaction (from_option evicted 0 outcome) (from_option body_bytes_after body_bytes outcome)) a
           else a in
  let c := sampling_config (state a) in
  (mkRequest items tools (Some (sc_model c)) (temperature c) (max_completion_tokens c) (top_p c) (Some conv_id)
     (Some req_id) (sc_reasoning_effort c), a).

End Build.

(** ** Commands (commands.rs, actor/mod.rs) *)

Inductive StrictAppendAck := Appended | AlreadyPresent (i : ConversationItem).
Inductive StrictAppendError :=
| NotCommitted (error : string)
| Committed (acknowledgement : StrictAppendAck) (error : string)
| Indeterminate (error : string).

Record TurnCapture := mkTurn { messages : list ConversationItem; tc_compaction_occurred : bool }.

(** [AppendWorkingDirectorySwitchAndAck] carries what the persistence will
    answer, [None] when it drops the acknowledgement; [RepairHistory] carries
    the flag of the session as it is when the command is handled. *)
Inductive ChatStateCommand :=
| PushUserMessage (item : ConversationItem)
| PushUserMessageAndAck (item : ConversationItem)
| AppendWorkingDirectorySwitchAndAck (content : string) (generation : Z) (answer : option (StrictAppendAck + StrictAppendError))
| PushUserMessageWithRepairReason (item : ConversationItem) (reason : DanglingToolCallReason)
| PushAssistantResponse (item : ConversationItem)
| PushToolResult (item : ConversationItem)
| RecordTokenUsage (tokens : Z)
| RecordLastTurnUsage (usage : TokenUsage)
| RecordModelCallUsage (model : option string) (usage : TokenUsage) (duration cost : option Z)
| RecordSubagentUsage (models : list (string * UsageTotals)) (attribute_to_prompt inc : bool)
| MarkUsageIncomplete (prompt session : bool)
| IncrementPromptIndex
| UpdateSamplingConfig (config : SamplingConfig)
| RecordAgentEditedPath (path : string)
| RecordStreamStart (timestamp_ms : Z)
| RecordTurnStart (timestamp_ms : Z)
| ReplaceConversation (items : list ConversationItem) (is_compaction : bool)
| RepairHistory (dry_run : bool) (turn_active : option bool)
| ReplaceSystemHead (prompt : string)
| CachePromptText (text : string)
| RecordCompactionAt (n : nat)
| Flush
| UpdateCredentials (c : Credentials)
| RestoreSnapshot (n : ChatStateSnapshot)
| BeginTurnCapture
| AppendHarnessTraceItems (items : list ConversationItem)
| FlushHarnessTraceTurn
| RepairDanglingAfterHarnessHalt (class : string)
| BuildConversationRequest (tools : list ToolSpec) (memory_reminder : option string) (persist_memory_reminder : bool)
    (conv_id req_id : string)
| GetConversation | GetPromptIndex | GetLastCompactionPromptIndex | GetTotalTokens | GetLastTurnUsage | GetPromptUsage
| GetSessionUsage | GetEstimatedTotalTokens | GetEstimatedMessagesTokens | GetSamplingConfig | GetAgentEditedPaths
| GetNotificationMeta | Snapshot
| TruncateToPromptIndex (target_prompt_index : nat)
| CheckAutoCompactNeeded (threshold_percent : Z)
| GetCredentials | GetLastModelMetadata
| TakeTurnMessages | TakeHarnessTraceTurns
| GetConversationLen | HasDanglingToolCalls | GetLastAssistantText | GetLastAssistantTextInTurn | GetFirstUserText
| GetConversationItemAt (index : nat)
| GetLastUserQueryText | GetConversationCounts | GetSystemMessage.

Inductive Reply :=
| NoReply
| RUnit
| RAppend (r : StrictAppendAck + StrictAppendError)
| RRepair (r : option HistoryRepairReport)
| RBool (b : bool)
| RRequest (r : ConversationRequest)
| RItems (l : list ConversationItem)
| RNat (n : nat)
| RIndex (n : option nat)
| RTokens (n : Z)
| RTurnUsage (u : option TokenUsage)
| RPromptUsage (u : option UsageLedger)
| RSessionUsage (u : UsageLedger)
| RConfig (c : SamplingConfig)
| RPaths (p : gset string)
| RMeta (stream_start turn_start : option Z)
| RSnapshot (n : ChatStateSnapshot)
| RTrigger (t : option AutoCompactTrigger)
| RCredentials (c : Credentials)
| RMetadata (m : ModelMetadata)
| RTurn (t : option TurnCapture)
| RTurns (l : list (list ConversationItem))
| RText (t : option string)
| RItem (i : option ConversationItem)
| RCounts (c : ConversationCounts).

Definition DROPPED_ACK : string := "working-directory switch acknowledgement dropped; retry by generation".

(** The item the persistence holds for the generation, when it holds one. *)
Definition authoritative (candidate : ConversationItem) (r : StrictAppendAck + StrictAppendError) : option ConversationItem :=
  match r with
  | inl Appended | inr (Committed Appended _) => Some candidate
  | inl (AlreadyPresent i) | inr (Committed (AlreadyPresent i) _) => Some i
  | inr _ => None
  end.

Definition append_switch (content : string) (generation : Z) (answer : option (StrictAppendAck + StrictAppendError))
    (a : Actor) : option (Reply * Actor) :=
  let candidate := working_directory_switch content generation in
  let a := persist (AcknowledgedMessage candidate) a in
  let result := default (inr (Indeterminate DROPPED_ACK)) answer in
  a ← match authoritative candidate result with
      | Some i => converge_working_directory_switch generation i a
      | None => Some a
      end;
  Some (RAppend result, a).

Definition begin_turn_capture (s : ChatState) : ChatState :=
  set_turn_capture (Some (mkCapture (length (conversation s)) [] false)) s.

Definition take_turn_messages (s : ChatState) : option TurnCapture * ChatState :=
  ((fun c => mkTurn (pre_replacement_messages c ++ turn_tail (conversation s) (turn_start_offset c)) (compaction_occurred c))
     <$> turn_capture s,
   set_turn_capture None s).

Definition take_harness_trace_turns (s : ChatState) : list (list ConversationItem) * ChatState :=
  let s := seal_harness_trace_turn s in (harness_trace_turns s, set_harness_trace_turns [] s).

Definition replied (r : Reply) (a : option Actor) : option (Reply * Actor) := (fun a => (r, a)) <$> a.

Section Commands.
Context `{Serde}.

Definition handle_query (c : ChatStateCommand) (s : ChatState) : option Reply :=
  match c with
  | GetConversation => Some (RItems (conversation s))
  | GetPromptIndex => Some (RNat (prompt_index s))
  | GetLastCompactionPromptIndex => Some (RIndex (last_compaction_prompt_index s))
  | GetTotalTokens => Some (RTokens (total_tokens s))
  | GetLastTurnUsage => Some (RTurnUsage (last_turn_usage s))
  | GetPromptUsage => Some (RPromptUsage (prompt_usage s))
  | GetSessionUsage => Some (RSessionUsage (session_usage s))
  | GetEstimatedTotalTokens => Some (RTokens (u64_add (total_tokens s) (estimated_tokens_since_model s)))
  | GetEstimatedMessagesTokens => RTokens <$> estimate_messages_tokens (conversation s)
  | GetSamplingConfig => Some (RConfig (sampling_config s))
  | GetAgentEditedPaths => Some (RPaths (agent_edited_paths s))
  | GetNotificationMeta => Some (RMeta (stream_start_ms s) (turn_start_ms s))
  | CheckAutoCompactNeeded t => Some (RTrigger (check_auto_compact_needed t s))
  | GetCredentials => Some (RCredentials (credentials s))
  | GetLastModelMetadata => Some (RMetadata (get_last_model_metadata s))
  | GetConversationLen => Some (RNat (length (conversation s)))
  | HasDanglingToolCalls => Some (RBool (has_dangling_tool_calls (conversation s)))
  | GetLastAssistantText => Some (RText (get_last_assistant_text s))
  | GetLastAssistantTextInTurn => Some (RText (get_last_assistant_text_in_turn s))
  | GetFirstUserText => Some (RText (get_first_user_text s))
  | GetConversationItemAt i => Some (RItem (conversation s !! i))
  | GetLastUserQueryText => RText <$> extract_last_user_query (conversation s)
  | GetConversationCounts => Some (RCounts (get_conversation_counts s))
  | GetSystemMessage => Some (RItem (get_system_message s))
  | _ => Some NoReply
  end.

Definition handle_command (c : ChatStateCommand) (a : Actor) : option (Reply * Actor) :=
  match c with
  | PushUserMessage i => replied NoReply (push_user_message i a)
  | PushUserMessageAndAck i => replied RUnit (push_user_message i a)
  | AppendWorkingDirectorySwitchAndAck content g answer => append_switch content g answer a
  | PushUserMessageWithRepairReason i reason => replied NoReply (push_user_message_with_repair_reason reason i a)
  | PushAssistantResponse i | PushToolResult i => replied NoReply (push_message i a)
  | RecordTokenUsage n => replied NoReply (record_token_usage n a)
  | RecordLastTurnUsage u => Some (NoReply, record_last_turn_usage u a)
  | RecordModelCallUsage m u d c => Some (NoReply, record_model_call_usage m u d c a)
  | RecordSubagentUsage l p i => Some (RUnit, record_subagent_usage l p i a)
  | MarkUsageIncomplete p s => Some (RUnit, mark_usage_incomplete p s a)
  | IncrementPromptIndex => Some (NoReply, increment_prompt_index a)
  | UpdateSamplingConfig c => Some (NoReply, on_state (set_sampling_config c) a)
  | RecordAgentEditedPath p => Some (NoReply, on_state (fun s => set_agent_edited_paths ({[ p ]} ∪ agent_edited_paths s) s) a)
  | RecordStreamStart t => Some (NoReply, on_state (set_stream_start_ms (Some t)) a)
  | RecordTurnStart t => Some (NoReply, on_state (set_turn_start_ms (Some t)) a)
  | ReplaceConversation l b => replied NoReply (replace_conversation l b a)
  | RepairHistory dry_run turn_active =>
      if default false turn_active then Some (RRepair None, a)
      else '(report, a) ← actor_repair_history dry_run a; Some (RRepair (Some report), a)
  | ReplaceSystemHead p => '(changed, a) ← replace_system_head p a; Some (RBool changed, a)
  | CachePromptText t => Some (NoReply, on_state (fun s => set_prompt_texts (prompt_texts s ++ [t]) s) a)
  | RecordCompactionAt n => Some (NoReply, on_state (set_last_compaction_prompt_index (Some n)) a)
  | Flush => Some (NoReply, persist Flushed a)
  | UpdateCredentials c => Some (NoReply, on_state (set_credentials c) a)
  | RestoreSnapshot n => replied NoReply (restore_snapshot n a)
  | BeginTurnCapture => Some (NoReply, on_state begin_turn_capture a)
  | AppendHarnessTraceItems l => Some (NoReply, on_state (fun s => set_harness_trace_buffer (harness_trace_buffer s ++ l) s) a)
  | FlushHarnessTraceTurn => Some (NoReply, on_state seal_harness_trace_turn a)
  | RepairDanglingAfterHarnessHalt class => replied NoReply (repair_dangling_after_harness_halt class a)
  | BuildConversationRequest tools reminder persisted conv_id req_id =>
      a ← ensure_conversation_integrity a;
      let '(r, a) := build_conversation_request tools reminder persisted conv_id req_id a in Some (RRequest r, a)
  | Snapshot => Some (RSnapshot (snapshot a), a)
  | TruncateToPromptIndex n =>
      a ← truncate_to_prompt_index n a;
      Some (RUnit, on_state (fun s => set_prompt_usage None (set_turn_capture None s)) a)
  | TakeTurnMessages => let '(t, s) := take_turn_messages (state a) in Some (RTurn t, on_state (fun _ => s) a)
  | TakeHarnessTraceTurns => let '(t, s) := take_harness_trace_turns (state a) in Some (RTurns t, on_state (fun _ => s) a)
  | _ => r ← handle_query c (state a); Some (r, a)
  end.

(** The commands in the order the channel delivers them. *)
Fixpoint run (l : list ChatStateCommand) (a : Actor) : option (list Reply * Actor) :=
  match l with
  | [] => Some ([], a)
  | c :: l => '(r, a) ← handle_command c a; '(rs, a) ← run l a; Some (r :: rs, a)
  end.

(** [spawn_with_pruning] *)
Definition spawn_with_pruning (l : list ConversationItem) (config : SamplingConfig) (c : PruningConfig) : option Actor :=
  s ← state_new l config; Some (mkActor s c [] []).

End Commands.
