(* ===== verification/ChatInv.v ===== *)
(** * Properties of the chat state actor

    What holds of every sequence of commands: no command panics as long as
    the items can be summarised, the capture of a turn holds what was pushed
    in it, the log of the persistence replays to the conversation, the
    ledgers balance, and every request has its calls answered. *)

From S2P Require Import Prelude RustStr TextLines TextFind F64 Conversation ChatRequest ChatState.

(** ** The capture of a turn *)

Definition captured (s : ChatState) : option TurnCapture := (take_turn_messages s).1.
Definition in_range (s : ChatState) : Prop :=
  match turn_capture s with Some c => turn_start_offset c <= length (conversation s) | None => True end.

(** A change of the conversation under the protection of the capture. *)
Definition under_capture (l : list ConversationItem) (s : ChatState) : ChatState :=
  rebase_turn_capture_offset (set_conversation l (snapshot_turn_slice s)).

Lemma turn_tail_all l : turn_tail l (length l) = [].
Proof. unfold turn_tail. by rewrite Nat.leb_refl, drop_all. Qed.

Lemma turn_tail_app l k o : o <= length l -> turn_tail (l ++ k) o = turn_tail l o ++ k.
Proof.
  intros Ho. unfold turn_tail. rewrite length_app. rewrite !(proj2 (Nat.leb_le _ _)) by lia. by rewrite drop_app_le.
Qed.

Lemma under_capture_view l s :
  captured (under_capture l s) = captured s /\ in_range (under_capture l s) /\
  conversation (under_capture l s) = l /\ prompt_index (under_capture l s) = prompt_index s /\
  prompt_usage (under_capture l s) = prompt_usage s /\ session_usage (under_capture l s) = session_usage s /\
  total_tokens (under_capture l s) = total_tokens s /\ sampling_config (under_capture l s) = sampling_config s.
Proof.
  unfold under_capture, snapshot_turn_slice, rebase_turn_capture_offset, captured, take_turn_messages, in_range.
  destruct (turn_capture s) as [c|] eqn:E; cbn; rewrite ?E; cbn; rewrite ?E; cbn; [|by split_and!].
  rewrite turn_tail_all, app_nil_r. by split_and!.
Qed.

(** ** What the repair before a turn does to the actor *)

Lemma deduped_sublist b l : deduped b l `sublist_of` l.
Proof.
  revert b. induction l as [|x l IH]; intros b; [done|]. destruct x; cbn; try (by apply sublist_skip).
  case_match; [by apply sublist_cons|by apply sublist_skip].
Qed.

Lemma repaired_sublist reason cs l : l `sublist_of` repaired reason cs l.
Proof.
  revert cs. induction l as [|x l IH]; intros cs; [apply sublist_nil_l|].
  destruct x; cbn; try (by apply sublist_inserts_l, sublist_skip). by apply sublist_skip.
Qed.

Lemma sublist_same {A} (l k : list A) : l `sublist_of` k -> length k <= length l -> l = k.
Proof.
  induction 1 as [|x l k H IH|x l k H IH]; cbn; intros Hl; [done| |].
  - f_equal. apply IH. lia.
  - apply sublist_length in H. lia.
Qed.

Lemma integrity_effect reason a :
  let l := conversation (state a) in
  exists log,
    ensure_conversation_integrity_with_reason reason a =
      Some (mkActor (under_capture (integrity reason l) (state a)) (pruning_config a) (persistence a ++ log) (events a)) /\
    (log = [ReplaceHistory (integrity reason l)] \/ log = [] /\ integrity reason l = l).
Proof.
  cbv zeta. unfold ensure_conversation_integrity_with_reason. cbn [state on_state].
  assert (conversation (snapshot_turn_slice (state a)) = conversation (state a)) as ->
    by (unfold snapshot_turn_slice; by destruct (turn_capture (state a))).
  set (l := conversation (state a)). destruct (integrity_run reason l) as [Hd Hr]. rewrite Hd. cbn [mbind option_bind].
  rewrite Hr. unfold under_capture.
  destruct ((0 <? length (integrity reason l) - length (deduped false l)) || (0 <? length l - length (deduped false l))) eqn:E.
  - exists [ReplaceHistory (integrity reason l)]. split; [done|by left].
  - exists []. split; [by rewrite app_nil_r|]. right. split; [done|]. apply orb_false_iff in E as [E1 E2]; zbool.
    assert (deduped false l = l) as E by (apply sublist_same; [apply deduped_sublist|lia]).
    unfold integrity in *. rewrite E in E1 |- *. symmetry. apply sublist_same; [apply repaired_sublist|lia].
Qed.

(** ** The clearing of old results *)

Definition clear_result (threshold turn : nat) (t : ToolResultItem) : ToolResultItem :=
  if turn <? threshold then t else hard_clear t.

Lemma clear_old_ref threshold turn seen l :
  (clear_old threshold turn seen l).2 = from_end (clear_result threshold) turn seen l /\
  ((clear_old threshold turn seen l).1 = 0 -> (clear_old threshold turn seen l).2 = l).
Proof.
  revert turn seen. induction l as [|x l IH]; intros turn seen; [done|]. cbn [clear_old from_end].
  destruct x; cbn [is_user];
    lazymatch goal with
    | |- context [clear_old threshold ?t ?s l] =>
        specialize (IH t s); destruct (clear_old threshold t s l) as [n0 k0]; cbn [fst snd] in *; destruct IH as [-> IH]
    end; try (split; [done|intros H; by rewrite IH]).
  change (clear_result threshold turn t) with (if turn <? threshold then t else hard_clear t). unfold hard_clear.
  destruct (turn <? threshold); cbn; [split; [done|intros H; by rewrite IH]|].
  case_bool_decide; cbn; (split; [done|]); [intros H'; by rewrite IH|done].
Qed.

Lemma by_age_drop f n l : drop n (by_age f l) = by_age f (drop n l).
Proof. revert n. induction l as [|x l IH]; intros [|n]; try done. destruct x; cbn [by_age drop]; apply IH. Qed.

Lemma by_age_length f l : length (by_age f l) = length l.
Proof. induction l as [|[] l IH]; cbn; auto. Qed.

Lemma set_conversation_same s : set_conversation (conversation s) s = s.
Proof. by destruct s. Qed.

Lemma prune_effect a n a' :
  prune_retained_conversation a = Some (n, a') ->
  exists l log,
    a' = mkActor (set_conversation l (state a)) (pruning_config a) (persistence a ++ log) (events a) /\
    (log = [ReplaceHistory l] \/ log = [] /\ l = conversation (state a)) /\
    (l = conversation (state a) \/
     l = by_age (clear_result (effective_threshold (pruning_config a) (state a))) (conversation (state a)) /\
     enabled (pruning_config a) = true).
Proof.
  unfold prune_retained_conversation. destruct (enabled (pruning_config a)) eqn:Ee; cbn [negb orb].
  2:{ intros [= <- <-]. exists (conversation (state a)), []. rewrite set_conversation_same, app_nil_r. by destruct a; auto. }
  destruct (prompt_index (state a) <? hard_clear_age_turns (pruning_config a)).
  { intros [= <- <-]. exists (conversation (state a)), []. rewrite set_conversation_same, app_nil_r. by destruct a; auto. }
  destruct (conversation_content_bytes _); [|done]. cbn [mbind option_bind].
  set (th := effective_threshold _ _). destruct (clear_old_ref th 0 false (reverse (conversation (state a)))) as [Hr H0].
  destruct (clear_old th 0 false (reverse (conversation (state a)))) as [k0 l0]. cbn [fst snd] in *. subst l0.
  rewrite from_end_ref in *. intros [= <- <-]. exists (by_age (clear_result th) (conversation (state a))).
  destruct k0 as [|k]; cbn.
  - exists []. rewrite app_nil_r. split; [done|]. split; [|auto]. right. split; [done|].
    rewrite <- from_end_ref, H0 by done. by rewrite reverse_involutive.
  - exists [ReplaceHistory (by_age (clear_result th) (conversation (state a)))]. auto.
Qed.

(** What a command pushes, and whether it compacts the conversation. *)
Definition pushed (c : ChatStateCommand) : list ConversationItem :=
  match c with
  | PushUserMessage i | PushUserMessageAndAck i | PushUserMessageWithRepairReason i _
  | PushAssistantResponse i | PushToolResult i => [i]
  | _ => []
  end.
Definition compacts (c : ChatStateCommand) : bool :=
  match c with ReplaceConversation _ b => b | _ => false end.

(** The commands of a turn: those that neither begin nor end a capture, that
    push user items as user messages, and that neither repair the stored
    history nor change the working directory. *)
Definition within_turn (c : ChatStateCommand) : bool :=
  match c with
  | BeginTurnCapture | TakeTurnMessages | TruncateToPromptIndex _ => false
  | RepairHistory dry_run turn_active => dry_run || default false turn_active
  | AppendWorkingDirectorySwitchAndAck content g answer =>
      match authoritative (working_directory_switch content g) (default (inr (Indeterminate DROPPED_ACK)) answer) with
      | Some _ => false
      | None => true
      end
  | PushUserMessage i | PushUserMessageAndAck i | PushUserMessageWithRepairReason i _ => is_user i
  | _ => true
  end.

Definition extend (items : list ConversationItem) (compacted : bool) (t : TurnCapture) : TurnCapture :=
  mkTurn (messages t ++ items) (tc_compaction_occurred t || compacted).

Lemma extend_nothing (o : option TurnCapture) : extend [] false <$> o = o.
Proof. destruct o as [[m b]|]; [|done]. unfold extend. cbn. by rewrite app_nil_r, orb_false_r. Qed.

(** Fields the capture does not depend on. *)
Lemma capture_frame s s' :
  conversation s' = conversation s -> turn_capture s' = turn_capture s ->
  captured s' = captured s /\ (in_range s' <-> in_range s).
Proof. intros E1 E2. unfold captured, take_turn_messages, in_range. by rewrite E1, E2. Qed.

Lemma append_captured i s :
  in_range s ->
  let s' := set_conversation (conversation s ++ [i]) s in
  captured s' = extend [i] false <$> captured s /\ in_range s'.
Proof.
  unfold in_range, captured, take_turn_messages. cbn. destruct (turn_capture s) as [c|]; [|done]. intros Hr. cbn.
  rewrite turn_tail_app by done. unfold extend. cbn. rewrite app_assoc, orb_false_r, length_app. split; [done|lia].
Qed.

Lemma push_message_captured i a a' :
  push_message i a = Some a' -> in_range (state a) ->
  captured (state a') = extend [i] false <$> captured (state a) /\ in_range (state a').
Proof.
  unfold push_message, append_item, count_tokens, persist, on_state.
  destruct (is_assistant i); [|destruct (estimate_item_tokens i); [|done]]; cbn; intros [= <-] Hr; cbn.
  - by apply append_captured.
  - by apply (append_captured i (set_estimated_tokens_since_model _ (state a))).
Qed.

Lemma push_user_captured reason i a a' :
  is_user i = true -> push_user_message_with_repair_reason reason i a = Some a' -> in_range (state a) ->
  captured (state a') = extend [i] false <$> captured (state a) /\ in_range (state a').
Proof.
  intros Hi. unfold push_user_message_with_repair_reason.
  destruct (integrity_effect reason a) as (log & -> & _). cbn [mbind option_bind].
  unfold count_tokens. destruct (estimate_item_tokens i) as [n|]; [|done]. cbn [mbind option_bind].
  match goal with |- context [prune_retained_conversation ?b] => set (b0 := b) end.
  destruct (prune_retained_conversation b0) as [[k b]|] eqn:Ep; [|done]. cbn. intros [= <-] Hr.
  destruct (prune_effect _ _ _ Ep) as (l & log' & -> & _ & Hl). cbn [state].
  set (l0 := integrity reason (conversation (state a))) in *.
  destruct (under_capture_view l0 (state a)) as (Hc & Hrange & Hconv & _).
  destruct (append_captured i (set_estimated_tokens_since_model n (under_capture l0 (state a)))) as [H1 H2]; [done|].
  assert (conversation (state b0) = l0 ++ [i]) as Eb by (unfold b0; cbn; by rewrite Hconv).
  assert (turn_tail l (length l0) = [i] /\ length l = length l0 + 1) as [Ht Hlen].
  { assert (turn_tail (l0 ++ [i]) (length l0) = [i]) as Hl0 by (by rewrite turn_tail_app, turn_tail_all).
    rewrite Eb in Hl. destruct Hl as [->|[-> _]]; [by rewrite length_app|]. unfold turn_tail.
    rewrite by_age_length, length_app, (proj2 (Nat.leb_le _ _)) by lia. split; [|done].
    rewrite by_age_drop, drop_app_length. by destruct i. }
  unfold b0. cbn [state append_item on_state persist].
  revert Hc. unfold under_capture, captured, take_turn_messages, in_range, snapshot_turn_slice, rebase_turn_capture_offset. cbn.
  destruct (turn_capture (state a)) as [c|] eqn:Ec; cbn; rewrite ?Ec; cbn; [|by rewrite ?Ec].
  intros _. rewrite Ht, Hlen. unfold extend. cbn. rewrite orb_false_r. split; [done|lia].
Qed.

Lemma replace_effect items b a a' :
  replace_conversation items b a = Some a' ->
  exists n e s, estimate_conversation_tokens items = Some e /\
    a' = mkActor s (pruning_config a) (persistence a ++ [ReplaceHistory items])
           (events a ++ [ConversationReset (length items); TokensUpdated n]) /\
    conversation s = items /\ total_tokens s = n /\ estimate_at_last_response s = e /\ in_range s /\
    captured s = extend [] b <$> captured (state a) /\
    prompt_usage s = prompt_usage (state a) /\ session_usage s = session_usage (state a) /\
    prompt_index s = prompt_index (state a) /\
    (b = true -> (0 < total_tokens (state a))%Z -> (n <= total_tokens (state a))%Z).
Proof.
  unfold replace_conversation, send_event, persist, on_state.
  destruct (estimate_conversation_tokens items) as [e|] eqn:Ee; [|by destruct (turn_capture _), b].
  unfold captured, take_turn_messages, in_range, snapshot_turn_slice, rebase_turn_capture_offset.
  destruct (turn_capture (state a)) as [c|] eqn:Ec; cbn; rewrite ?Ec; cbn; rewrite ?Ec.
  - destruct b; cbn [andb]; cbn; intros [= <-]; cbn; eexists _, e, _;
      (split; [done|]); (split; [by rewrite <- app_assoc|]); cbn; unfold extend; cbn;
      rewrite turn_tail_all, ?app_nil_r, ?orb_false_r, ?orb_true_r; split_and!; try done.
    intros _ Hp. rewrite (proj2 (Z.ltb_lt _ _)) by done. apply Z.le_min_r.
  - destruct b; cbn [andb]; cbn; intros [= <-]; cbn; rewrite ?Ec; eexists _, e, _;
      (split; [done|]); (split; [by rewrite <- app_assoc|]); cbn; rewrite ?Ec; cbn; rewrite ?Ec; split_and!; try done.
    intros _ Hp. rewrite (proj2 (Z.ltb_lt _ _)) by done. apply Z.le_min_r.
Qed.

Lemma restore_effect n a a' :
  restore_snapshot n a = Some a' ->
  exists s, a' = mkActor s (pruning_config a) (persistence a) (events a) /\
    conversation s = sn_conversation n /\ turn_capture s = turn_capture (under_capture (sn_conversation n) (state a)) /\
    prompt_usage s = None /\ session_usage s = session_usage (state a) /\ prompt_index s = sn_prompt_index n.
Proof.
  unfold restore_snapshot. destruct (if (0 <? sn_estimate_at_last_response n)%Z then _ else _); [|done]. cbn.
  intros [= <-]. eexists. split; [done|]. cbn. fold (under_capture (sn_conversation n) (state a)).
  destruct (under_capture_view (sn_conversation n) (state a)) as (_ & _ & -> & _ & _ & -> & _). by split_and!.
Qed.

Lemma system_head_effect p a b a' :
  replace_system_head p a = Some (b, a') ->
  a' = a /\ b = false \/
  b = true /\ exists l, replace_conversation l false a = Some a' /\
    replace_or_insert_system_head p (conversation (state a)) = (true, l).
Proof.
  unfold replace_system_head, head_matches, replace_or_insert_system_head.
  destruct (conversation (state a)) as [|[]] eqn:E; try (case_match; [intros [= <- <-]; by left|]);
    (destruct (replace_conversation _ false a) eqn:Er; [|done]); intros [= <- <-]; right; eauto.
Qed.

(** A computation that returns, taken apart. *)
Ltac returned H :=
  repeat match type of H with
  | replied _ ?x = Some _ => destruct x as [?|] eqn:?; [unfold replied in H; cbn [fmap option_fmap option_map] in H|discriminate H]
  | mbind _ ?x = Some _ => destruct x as [?|] eqn:?; [cbn [mbind option_bind] in H|discriminate H]
  | (let '(_, _) := ?p in _) = Some _ => destruct p as [? ?] eqn:?
  | Some _ = Some _ => injection H as <- <-
  end.

Section Serialised.
Context `{Serde}.

Lemma reminder_effect r b a :
  let '(r', a') := persist_reminder r b a in
  a' = a /\ r' = r \/
  b = true /\ exists l log, a' = mkActor (under_capture l (state a)) (pruning_config a) (persistence a ++ log) (events a) /\
    (log = [ReplaceHistory l] /\ r' = None \/ log = [] /\ l = conversation (state a) /\ r' = r) /\
    exists r0, r = Some r0 /\ l = (inject_memory_reminder r0 (conversation (state a))).2.
Proof.
  unfold persist_reminder. destruct r as [r|]; [|by left]. destruct b; [|by left].
  cbn [state on_state].
  assert (conversation (snapshot_turn_slice (state a)) = conversation (state a)) as ->
    by (unfold snapshot_turn_slice; by destruct (turn_capture (state a))).
  destruct (inject_memory_reminder r (conversation (state a))) as [injected l] eqn:Ei. right.
  split; [done|]. exists l. destruct injected.
  - exists [ReplaceHistory l]. split; [done|]. split; [by left|]. exists r; by rewrite Ei.
  - exists []. rewrite app_nil_r. split; [done|]. split; [|exists r; by rewrite Ei]. right. split_and!; [done| |done].
    revert Ei. unfold inject_memory_reminder. repeat case_match; by intros [= <-].
Qed.

(** The state after a request is built. *)
Lemma build_effect tools r b cid rid a :
  exists l log es,
    ((build_conversation_request tools r b cid rid a).2 =
       mkActor (under_capture l (state a)) (pruning_config a) (persistence a ++ log) (events a ++ es) \/
     (build_conversation_request tools r b cid rid a).2 = mkActor (state a) (pruning_config a) (persistence a ++ log) (events a ++ es) /\
     l = conversation (state a)) /\
    (log = [ReplaceHistory l] \/ log = [] /\ l = conversation (state a)) /\
    (l = conversation (state a) \/ exists r0, l = (inject_memory_reminder r0 (conversation (state a))).2).
Proof.
  unfold build_conversation_request. pose proof (reminder_effect r b a) as Hr.
  destruct (persist_reminder r b a) as [r' a1].
  match goal with |- context [let '(_, _) := ?x in _] => destruct x as [o items] end.
  assert (exists es, (if 0 <? inline_image_count (conversation (state a1)) then
      send_event (ImageBudget (conversation_body_bytes (conversation (state a1))) IMAGE_COMPACT_TRIGGER_BYTES
        IMAGE_COMPACT_RECLAIM_TARGET_BYTES (inline_image_count (conversation (state a1)))
        (IMAGE_COMPACT_TRIGGER_BYTES <=? conversation_body_bytes (conversation (state a1)))%Z
        (from_option evicted 0 o) (from_option body_bytes_after (conversation_body_bytes (conversation (state a1))) o)) a1
      else a1) = mkActor (state a1) (pruning_config a1) (persistence a1) (events a1 ++ es)) as [es Ees].
  { destruct (0 <? _); [by eexists [_]|exists []]. rewrite app_nil_r. by destruct a1. }
  rewrite Ees. cbn [snd]. destruct Hr as [[-> _]|(_ & l & log & -> & Hl & r0 & _ & Hi)].
  - exists (conversation (state a)), [], es. rewrite app_nil_r. auto.
  - exists l, log, es. split; [by left|]. split; [|by eauto]. destruct Hl as [[-> _]|(-> & -> & _)]; auto.
Qed.

Lemma dry_repair a report a' : actor_repair_history true a = Some (report, a') -> a' = a.
Proof. unfold actor_repair_history. destruct (repair_history _) as [[]|]; [|done]. by intros [= _ <-]. Qed.

Lemma capture_step c a r a' :
  within_turn c = true -> handle_command c a = Some (r, a') -> in_range (state a) ->
  captured (state a') = extend (pushed c) (compacts c) <$> captured (state a) /\ in_range (state a').
Proof.
  intros Hw Hc Hr.
  assert (forall s', conversation s' = conversation (state a) -> turn_capture s' = turn_capture (state a) ->
    captured s' = extend [] false <$> captured (state a) /\ in_range s') as Hframe.
  { intros s' E1 E2. destruct (capture_frame (state a) s' E1 E2) as [-> Hi]. rewrite extend_nothing. tauto. }
  assert (forall l, captured (under_capture l (state a)) = extend [] false <$> captured (state a) /\
                    in_range (under_capture l (state a))) as Hunder.
  { intros l. rewrite extend_nothing. destruct (under_capture_view l (state a)) as (? & ? & _). auto. }
  assert (forall reason b, ensure_conversation_integrity_with_reason reason a = Some b ->
    captured (state b) = extend [] false <$> captured (state a) /\ in_range (state b)) as Hint.
  { intros reason b Hb. destruct (integrity_effect reason a) as (log & E & _). rewrite E in Hb. injection Hb as <-. apply Hunder. }
  destruct c; cbn [handle_command within_turn pushed compacts] in *; try discriminate Hw; returned Hc;
    try (apply Hframe; reflexivity);
    lazymatch goal with
    | E : push_user_message _ a = Some _ |- _ => by apply (push_user_captured UserCancelled _ _ _ Hw E Hr)
    | E : push_user_message_with_repair_reason _ _ a = Some _ |- _ => by apply (push_user_captured _ _ _ _ Hw E Hr)
    | E : push_message _ a = Some _ |- _ => by apply (push_message_captured _ _ _ E Hr)
    | _ => idtac
    end.
  - unfold append_switch in Hc. destruct (authoritative _ _); [done|]. injection Hc as <- <-. by apply Hframe.
  - unfold record_token_usage in *. destruct (estimate_conversation_tokens _); [|done]. simplify_eq/=. by apply Hframe.
  - unfold record_subagent_usage. case_match; [by apply Hframe|]. by destruct attribute_to_prompt; apply Hframe.
  - by destruct prompt, session; apply Hframe.
  - destruct (replace_effect _ _ _ _ Heqo) as (n & e & s & _ & -> & _ & _ & _ & ? & ? & _). by split.
  - destruct turn_active as [[]|]; cbn in Hc; rewrite ?orb_false_r in Hw; subst;
      [injection Hc as <- <-; by apply Hframe| |]; returned Hc;
      by rewrite (dry_repair _ _ _ Heqo); apply Hframe.
  - destruct (system_head_effect _ _ _ _ Heqo) as [[-> _]|(_ & l & E & _)]; [by apply Hframe|].
    destruct (replace_effect _ _ _ _ E) as (n & e & s & _ & -> & _ & _ & _ & ? & ? & _). by split.
  - destruct (restore_effect _ _ _ Heqo) as (s & -> & E1 & E2 & _). destruct (Hunder (sn_conversation n)) as [<- Hi].
    destruct (under_capture_view (sn_conversation n) (state a)) as (_ & _ & E3 & _). cbn [state].
    destruct (capture_frame (under_capture (sn_conversation n) (state a)) s) as [-> Hi']; [by rewrite E3|done|]. tauto.
  - apply Hframe; cbn; unfold seal_harness_trace_turn; by destruct (harness_trace_buffer _).
  - by apply (Hint _ _ Heqo).
  - destruct (Hint _ _ Heqo) as [<- Hi]. destruct (build_effect tools memory_reminder persist_memory_reminder conv_id req_id a0)
      as (l & log & es & Hb & _). rewrite Heqp in Hb. cbn [snd] in Hb. destruct Hb as [->|[-> _]]; [|done].
    destruct (under_capture_view l (state a0)) as (? & ? & _). by split.
  - unfold take_harness_trace_turns in *. simplify_eq.
    apply (Hframe (set_harness_trace_turns [] (seal_harness_trace_turn (state a)))); cbn; unfold seal_harness_trace_turn; by destruct (harness_trace_buffer _).
Qed.
End Serialised.

(** ** No command panics *)

(** The summary of a code interpreter call is the one computation on items
    that can panic. *)
Definition plain (i : ConversationItem) : Prop :=
  match i with BackendToolCall k => is_Some (text_summary k) | _ => True end.

Lemma plain_tokens i : plain i -> is_Some (estimate_item_tokens i).
Proof. destruct i; cbn; try (by eexists). intros [t ->]. by eexists. Qed.

Lemma plain_bytes i : plain i -> is_Some (item_content_bytes i).
Proof. destruct i; cbn; try (by eexists). intros [t ->]. by eexists. Qed.

Lemma plain_estimate l : Forall plain l -> is_Some (estimate_conversation_tokens l).
Proof.
  intros Hl. unfold estimate_conversation_tokens. apply fmap_is_Some, mapM_is_Some_2.
  eapply Forall_impl; [done|]. apply plain_tokens.
Qed.

Lemma Forall_sublist {A} (P : A -> Prop) (l k : list A) : l `sublist_of` k -> Forall P k -> Forall P l.
Proof. induction 1; [done| |]; intros [? ?]%Forall_cons; auto. Qed.

Lemma plain_repaired reason cs l : Forall plain l -> Forall plain (repaired reason cs l).
Proof.
  assert (forall cs, Forall plain (synthetic reason [] cs)) as Hs.
  { intros cs'. rewrite synthetic_all. apply Forall_fmap, Forall_true. done. }
  revert cs. induction l as [|x l IH]; intros cs Hl; [apply Hs|]. apply Forall_cons in Hl as [Hx Hl].
  destruct x; cbn [repaired]; try (apply Forall_app; split; [apply Hs|]); by constructor; auto.
Qed.

Lemma plain_deduped l : Forall plain l -> Forall plain (deduped false l).
Proof. apply Forall_sublist, deduped_sublist. Qed.

Lemma plain_integrity reason l : Forall plain l -> Forall plain (integrity reason l).
Proof. intros Hl. by apply plain_repaired, plain_deduped. Qed.

Lemma strip_sublist run l : (strip_displaced run l).1 `sublist_of` l.
Proof.
  revert run. induction l as [|x l IH]; intros run; [done|]. destruct (is_result x) eqn:Ex.
  - destruct x; try done. cbn. destruct (strip_displaced _ l) as [k s] eqn:E. specialize (IH run). rewrite E in IH.
    case_match; cbn; by constructor.
  - rewrite strip_cons_other by done. cbn. by constructor.
Qed.

Lemma plain_by_age f l : Forall plain l -> Forall plain (by_age f l).
Proof. induction 1 as [|x l Hx Hl IH]; [done|]. by destruct x; constructor. Qed.

Lemma plain_inject r l : Forall plain l -> Forall plain (inject_memory_reminder r l).2.
Proof.
  intros Hl. unfold inject_memory_reminder. case_bool_decide; [done|].
  destruct l as [|x l]; [by repeat constructor|]. pose proof Hl as [Hx Hl']%Forall_cons.
  destruct x; try (by constructor). case_bool_decide; [done|by constructor].
Qed.

(** The items a command brings into the conversation. *)
Definition brought (c : ChatStateCommand) : list ConversationItem :=
  pushed c ++
  match c with
  | ReplaceConversation l _ => l
  | RestoreSnapshot n => sn_conversation n
  | AppendWorkingDirectorySwitchAndAck content g answer =>
      option_list (authoritative (working_directory_switch content g) (default (inr (Indeterminate DROPPED_ACK)) answer))
  | _ => []
  end.

Definition runs (o : option Actor) : Prop :=
  exists a', o = Some a' /\ Forall plain (conversation (state a')).

Lemma replied_runs (r : Reply) o : runs o -> exists r' a', replied r o = Some (r', a') /\ Forall plain (conversation (state a')).
Proof. intros (a' & -> & Ha). by exists r, a'. Qed.

Lemma integrity_runs reason a :
  Forall plain (conversation (state a)) -> runs (ensure_conversation_integrity_with_reason reason a).
Proof.
  intros Ha. destruct (integrity_effect reason a) as (log & -> & _). eexists. split; [done|]. cbn [state].
  destruct (under_capture_view (integrity reason (conversation (state a))) (state a)) as (_ & _ & -> & _).
  by apply plain_integrity.
Qed.

Lemma count_tokens_runs i a :
  plain i -> Forall plain (conversation (state a)) -> exists a', count_tokens i a = Some a' /\ conversation (state a') = conversation (state a).
Proof. intros [n Hn]%plain_tokens Ha. unfold count_tokens. rewrite Hn. by eexists. Qed.

Lemma push_message_runs i a : plain i -> Forall plain (conversation (state a)) -> runs (push_message i a).
Proof.
  intros Hi Ha. unfold push_message. destruct (count_tokens_runs i a Hi Ha) as (b & Hb & Eb).
  destruct (is_assistant i); [|rewrite Hb]; (eexists; split; [done|]); cbn; rewrite ?Eb; apply Forall_app; by repeat constructor.
Qed.

Lemma prune_runs a :
  Forall plain (conversation (state a)) ->
  exists n a', prune_retained_conversation a = Some (n, a') /\ Forall plain (conversation (state a')).
Proof.
  intros Ha. assert (exists n a', prune_retained_conversation a = Some (n, a')) as (n & a' & E).
  { unfold prune_retained_conversation. case_match; [by eexists _, _|].
    assert (is_Some (conversation_content_bytes (conversation (state a)))) as [bs ->]
      by (apply mapM_is_Some_2; eapply Forall_impl; [done|]; apply plain_bytes).
    cbn [mbind option_bind]. destruct (clear_old _ _ _ _) as [k l]. by eexists _, _. }
  exists n, a'. split; [done|]. destruct (prune_effect _ _ _ E) as (l & log & -> & _ & [->|[-> _]]); [done|].
  by apply plain_by_age.
Qed.

Lemma push_user_runs reason i a :
  plain i -> Forall plain (conversation (state a)) -> runs (push_user_message_with_repair_reason reason i a).
Proof.
  intros Hi Ha. unfold push_user_message_with_repair_reason.
  destruct (integrity_runs reason a Ha) as (b & -> & Hb). cbn [mbind option_bind].
  destruct (count_tokens_runs i b Hi Hb) as (c & -> & Hc). cbn [mbind option_bind].
  destruct (prune_runs (append_item i c)) as (n & d & -> & Hd); [|by exists d].
  cbn. rewrite Hc. apply Forall_app. by repeat constructor.
Qed.

Lemma replace_runs l b a : Forall plain l -> runs (replace_conversation l b a).
Proof.
  intros Hl. destruct (replace_conversation l b a) as [a'|] eqn:E.
  - destruct (replace_effect _ _ _ _ E) as (n & e & s & _ & -> & Hs & _). exists (mkActor s (pruning_config a)
      (persistence a ++ [ReplaceHistory l]) (events a ++ [ConversationReset (length l); TokensUpdated n])). cbn [state]. by rewrite Hs.
  - revert E. unfold replace_conversation. destruct (plain_estimate l Hl) as [e ->]. by destruct (turn_capture _), b.
Qed.

Lemma repair_runs dry_run a :
  Forall plain (conversation (state a)) ->
  exists report a', actor_repair_history dry_run a = Some (report, a') /\ Forall plain (conversation (state a')).
Proof.
  intros Ha. unfold actor_repair_history. destruct (repair_history_ref (conversation (state a))) as (r & -> & _).
  cbn [mbind option_bind]. set (l := repaired _ _ _).
  assert (Forall plain l) as Hl.
  { apply plain_repaired. eapply Forall_sublist; [apply strip_sublist|]. by apply plain_deduped. }
  destruct dry_run; [by exists r, a|]. destruct (changed r); [|by eexists r, _].
  destruct (replace_runs l false (on_state (set_conversation []) a) Hl) as (b & -> & Hb). by exists r, b.
Qed.

Lemma converge_runs g i a :
  plain i -> Forall plain (conversation (state a)) -> runs (converge_working_directory_switch g i a).
Proof.
  intros Hi Ha. unfold converge_working_directory_switch. destruct (plain_tokens i Hi) as [n ->]. cbn [mbind option_bind].
  assert (forall l, Forall plain l ->
    match replace_switch g i l with Some (old, l') => plain old /\ Forall plain l' | None => True end) as Hs.
  { induction 1 as [|x l Hx Hl IH]; cbn; [done|]. case_bool_decide; [by repeat constructor|].
    destruct (replace_switch g i l) as [[old l']|]; [|done]. cbn. destruct IH. by repeat constructor. }
  specialize (Hs _ Ha). destruct (replace_switch g i (conversation (state a))) as [[old l]|].
  - destruct Hs as [[m ->]%plain_tokens Hl]. by eexists.
  - eexists. split; [done|]. cbn. apply Forall_app. by repeat constructor.
Qed.

Lemma system_head_runs prompt a :
  Forall plain (conversation (state a)) ->
  exists b a', replace_system_head prompt a = Some (b, a') /\ Forall plain (conversation (state a')).
Proof.
  intros Ha. unfold replace_system_head. case_match; [by eexists _, _|].
  assert (Forall plain (replace_or_insert_system_head prompt (conversation (state a))).2) as Hl.
  { unfold replace_or_insert_system_head. destruct (conversation (state a)) as [|[] l]; try (by constructor).
    case_match; [done|]. apply Forall_cons in Ha as [_ Ha]. by repeat constructor. }
  destruct (replace_or_insert_system_head _ _) as [b l]. destruct (replace_runs l false a Hl) as (a' & -> & Ha'). by eexists _, _.
Qed.

Section Total.
Context `{Serde}.

Lemma handle_command_runs c a :
  Forall plain (conversation (state a)) -> Forall plain (brought c) ->
  exists r a', handle_command c a = Some (r, a') /\ Forall plain (conversation (state a')).
Proof.
  intros Ha Hc.
  assert (forall (r : Reply) s, conversation s = conversation (state a) ->
    exists r' a', Some (r, on_state (fun _ => s) a) = Some (r', a') /\ Forall plain (conversation (state a'))) as Hsame.
  { intros r s Hs. eexists _, _. split; [done|]. cbn. by rewrite Hs. }
  destruct c; cbn [brought pushed app] in Hc; cbn [handle_command];
    try (by eexists _, _);
    try (apply Forall_cons in Hc as [Hi _]; by apply replied_runs, push_user_runs);
    try (apply Forall_cons in Hc as [Hi _]; by apply replied_runs, push_message_runs).
  - unfold append_switch. destruct (authoritative _ _) as [i|]; [|by eexists _, _].
    apply Forall_cons in Hc as [Hi _]. cbn [option_list] in *.
    destruct (converge_runs generation i (persist (AcknowledgedMessage (working_directory_switch content generation)) a)) as (b & -> & Hb);
      [done..|]. by eexists _, _.
  - unfold record_token_usage. destruct (plain_estimate _ Ha) as [n ->]. by eexists _, _.
  - unfold record_subagent_usage. case_match; [by eexists _, _|]. by destruct attribute_to_prompt; eexists _, _.
  - by destruct prompt, session; eexists _, _.
  - by apply replied_runs, replace_runs.
  - case_match; [by eexists _, _|]. destruct (repair_runs dry_run a Ha) as (r & b & -> & Hb). by eexists _, _.
  - destruct (system_head_runs prompt a Ha) as (b & a' & -> & Ha'). by eexists _, _.
  - destruct (restore_snapshot n a) as [b|] eqn:E.
    + destruct (restore_effect _ _ _ E) as (s & -> & Hs & _). eexists _, _. split; [done|]. cbn. by rewrite Hs.
    + revert E. unfold restore_snapshot. destruct (plain_estimate _ Hc) as [e ->]. by destruct (0 <? _)%Z.
  - apply (Hsame _ (seal_harness_trace_turn (state a))). unfold seal_harness_trace_turn. by destruct (harness_trace_buffer _).
  - by apply replied_runs, integrity_runs.
  - destruct (integrity_runs UserCancelled a Ha) as (b & Eb & Hb). unfold ensure_conversation_integrity. rewrite Eb. cbn [mbind option_bind].
    destruct (build_effect tools memory_reminder persist_memory_reminder conv_id req_id b) as (l & log & es & Hs & _ & Hl).
    destruct (build_conversation_request _ _ _ _ _ _) as [r b']. eexists _, _. split; [done|]. cbn [snd] in Hs.
    destruct Hs as [->|[-> _]]; [|done]. cbn [state]. destruct (under_capture_view l (state b)) as (_ & _ & -> & _).
    destruct Hl as [->|[r0 ->]]; [done|by apply plain_inject].
  - cbn [handle_query]. unfold estimate_messages_tokens. destruct (plain_estimate (filter (fun i => is_system i = false) (conversation (state a)))) as [e ->];
      [apply (Forall_sublist _ _ _ (sublist_filter _ _) Ha)|]. by eexists _, _.
  - unfold truncate_to_prompt_index. case_match; [by eexists _, _|].
    set (l := take _ _). assert (Forall plain l) as Hl by (by apply Forall_take).
    destruct (plain_estimate l Hl) as [e ->]. by eexists _, _.
  - apply Hsame. cbn. unfold seal_harness_trace_turn. by destruct (harness_trace_buffer _).
  - cbn [handle_query]. unfold extract_last_user_query.
    destruct (list_find _ _) as [[k i]|] eqn:E; [|by eexists _, _]. apply list_find_Some in E as (_ & Hi & _).
    destruct i; try done. by eexists _, _.
Qed.

Lemma run_app cs1 cs2 a :
  run (cs1 ++ cs2) a = ('(r1, a) ← run cs1 a; '(r2, a) ← run cs2 a; Some (r1 ++ r2, a)).
Proof.
  revert a. induction cs1 as [|c cs1 IH]; intros a; cbn [app run].
  - cbn. by destruct (run cs2 a) as [[]|].
  - destruct (handle_command c a) as [[r b]|]; [|done]. cbn. rewrite IH.
    destruct (run cs1 b) as [[]|]; [|done]. cbn. by destruct (run cs2 _) as [[]|].
Qed.

Lemma run_plain cs a :
  Forall plain (conversation (state a)) -> Forall (fun c => Forall plain (brought c)) cs ->
  exists rs a', run cs a = Some (rs, a') /\ length rs = length cs /\ Forall plain (conversation (state a')).
Proof.
  intros Ha Hcs. revert a Ha. induction Hcs as [|c cs Hc Hcs IH]; intros a Ha; [by exists [], a|].
  destruct (handle_command_runs c a Ha Hc) as (r & b & Eb & Hb). destruct (IH b Hb) as (rs & a' & E & Hl & Ha').
  exists (r :: rs), a'. cbn. rewrite Eb. cbn. rewrite E. cbn. by rewrite Hl.
Qed.

Lemma chat_spawn l config c :
  Forall plain l ->
  exists a, spawn_with_pruning l config c = Some a /\ Forall plain (conversation (state a)) /\
    session_usage (state a) = ledger_default.
Proof.
  intros Hl. unfold spawn_with_pruning, state_new.
  destruct (integrity_run UserCancelled l) as [-> Hr]. cbn [mbind option_bind]. rewrite Hr.
  destruct (plain_estimate (integrity UserCancelled l)) as [n Hn]; [by apply plain_integrity|]. rewrite Hn.
  eexists. split; [done|]. split; [by apply plain_integrity|done].
Qed.

(** C30.  The actor never stops answering: started on any conversation whose
    code interpreter calls can be summarised, and fed any commands that
    bring only such items, it answers every one of them. *)
Theorem chat_never_panics l config c cs :
  Forall plain l -> Forall (fun c => Forall plain (brought c)) cs ->
  exists a rs a', spawn_with_pruning l config c = Some a /\ run cs a = Some (rs, a') /\ length rs = length cs.
Proof.
  intros Hl Hcs. destruct (chat_spawn l config c Hl) as (a & Ea & Ha & _).
  destruct (run_plain cs a Ha Hcs) as (rs & a' & E & Hlen & _). by exists a, rs, a'.
Qed.

Lemma run_captured cs a rs a' :
  Forall (fun c => within_turn c = true) cs -> run cs a = Some (rs, a') -> in_range (state a) ->
  captured (state a') = extend (cs ≫= pushed) (existsb compacts cs) <$> captured (state a).
Proof.
  intros Hcs. revert a rs. induction Hcs as [|c cs Hc Hcs IH]; intros a rs; cbn [run].
  - intros [= _ <-] _. symmetry. apply extend_nothing.
  - destruct (handle_command c a) as [[r b]|] eqn:E; [|done]. cbn [mbind option_bind].
    destruct (run cs b) as [[rs' b']|] eqn:Er; [|done]. cbn [mbind option_bind]. intros [= _ <-] Hr.
    destruct (capture_step _ _ _ _ Hc E Hr) as [H1 H2]. rewrite (IH _ _ Er H2), H1.
    destruct (captured (state a)) as [t|]; [|done]. cbn. unfold extend. cbn. by rewrite <- app_assoc, orb_assoc.
Qed.

(** C3.  The capture of a turn is exact over the commands of a turn: all but an
    effective repair of the history, which loses it, a rewind to a prompt and a
    confirmed switch of the working directory, where the items pushed as user
    messages are such.  Whatever of them happens between its
    beginning and its end (compactions, restored snapshots, written
    reminders, clearings, repairs of dangling calls, changed system prompts),
    it returns the items pushed in between, all of them, unchanged and in
    order, and tells whether the conversation was compacted. *)
Theorem turn_capture_exact cs a :
  Forall plain (conversation (state a)) ->
  Forall (fun c => within_turn c = true /\ Forall plain (brought c)) cs ->
  exists rs a', run (BeginTurnCapture :: cs ++ [TakeTurnMessages]) a = Some (rs, a') /\
    last rs = Some (RTurn (Some (mkTurn (cs ≫= pushed) (existsb compacts cs)))) /\ turn_capture (state a') = None.
Proof.
  intros Ha Hcs. apply Forall_and in Hcs as [Hw Hp].
  set (a0 := on_state begin_turn_capture a).
  destruct (run_plain cs a0 Ha Hp) as (rs & b & Er & _).
  assert (in_range (state a0)) as Hr by (unfold in_range; cbn; lia).
  pose proof (run_captured _ _ _ _ Hw Er Hr) as Hc.
  exists (NoReply :: rs ++ [RTurn (captured (state b))]), (on_state (set_turn_capture None) b).
  cbn [run handle_command mbind option_bind]. fold a0. rewrite run_app, Er. cbn [mbind option_bind].
  split_and!; [done| |done]. rewrite last_cons, last_snoc. do 2 f_equal. rewrite Hc. cbn. unfold extend. cbn.
  by rewrite turn_tail_all.
Qed.
End Total.

#[local] Instance demo_serde : Serde := { items_bytes l := Z.of_nat (length l); part_bytes _ := 10%Z }.
Definition demo_config : SamplingConfig := mkSampling "m" None None None 1000 None.
Definition demo_actor : Actor :=
  default (mkActor (mkState [] demo_config 0 [] 0 None None ∅ None credentials_default 0 0 None None ledger_default None [] [])
             default_pruning [] [])
    (spawn_with_pruning [System "be helpful"] demo_config default_pruning).
Definition demo_call : ConversationItem := assistant_tool_calls [mkCall "1" "read" "{}"].

Lemma chat_never_panics_witness :
  exists a rs a', spawn_with_pruning [System "s"; demo_call] demo_config default_pruning = Some a /\
    run [PushUserMessage (user "hi"); GetConversationLen] a = Some (rs, a') /\ length rs = 2.
Proof. apply (chat_never_panics [System "s"; demo_call] demo_config default_pruning); by repeat constructor. Defined.

Definition demo_turn : list ChatStateCommand :=
  [PushUserMessage (user "go"); PushAssistantResponse demo_call;
   ReplaceConversation [System "s"; user "summary"] true; PushToolResult (tool_result "1" "text")].

Lemma turn_capture_exact_witness :
  exists rs a', run (BeginTurnCapture :: demo_turn ++ [TakeTurnMessages]) demo_actor = Some (rs, a') /\
    last rs = Some (RTurn (Some (mkTurn [user "go"; demo_call; tool_result "1" "text"] true))) /\
    turn_capture (state a') = None.
Proof. apply (turn_capture_exact demo_turn demo_actor); by repeat constructor. Defined.

(** The repair of the stored history takes the conversation out of the state
    before the capture saves its tail: the turn is lost. *)
Lemma repair_loses_turn :
  exists rs a', run [BeginTurnCapture; PushUserMessage (user "go"); PushToolResult (tool_result "9" "text");
      RepairHistory false None; TakeTurnMessages] demo_actor = Some (rs, a') /\
    last rs = Some (RTurn (Some (mkTurn [] false))).
Proof. do 2 eexists. split; [by vm_compute|done]. Qed.

(** ** The stored history *)

Definition apply_record (disk : list ConversationItem) (r : PersistenceRecord) : list ConversationItem :=
  match r with
  | Message i => disk ++ [i]
  | ReplaceHistory l => l
  | AcknowledgedMessage _ | Flushed => disk
  end.
(** The stored history after the calls of the persistence. *)
Definition replay (disk : list ConversationItem) (log : list PersistenceRecord) : list ConversationItem :=
  foldl apply_record disk log.

Definition mirrored (disk : list ConversationItem) (a : Actor) : Prop :=
  replay disk (persistence a) = conversation (state a).

(** All commands but the restoring of a snapshot, which is not stored, and
    the switch of the working directory, which the persistence decides. *)
Definition stored (c : ChatStateCommand) : bool :=
  match c with RestoreSnapshot _ | AppendWorkingDirectorySwitchAndAck _ _ _ => false | _ => true end.

Lemma replay_snoc disk log r : replay disk (log ++ [r]) = apply_record (replay disk log) r.
Proof. unfold replay. by rewrite foldl_app. Qed.

Lemma mirrored_log disk a l log :
  mirrored disk a -> (log = [ReplaceHistory l] \/ log = [] /\ l = conversation (state a)) ->
  replay disk (persistence a ++ log) = l.
Proof. intros Hm [->|[-> ->]]; [by rewrite replay_snoc|by rewrite app_nil_r]. Qed.

Lemma integrity_mirrored disk reason a b :
  mirrored disk a -> ensure_conversation_integrity_with_reason reason a = Some b -> mirrored disk b.
Proof.
  intros Hm Hb. destruct (integrity_effect reason a) as (log & E & Hlog). rewrite E in Hb. injection Hb as <-.
  unfold mirrored. cbn [persistence state].
  destruct (under_capture_view (integrity reason (conversation (state a))) (state a)) as (_ & _ & -> & _).
  by apply mirrored_log.
Qed.

Lemma append_mirrored disk i a : mirrored disk a -> mirrored disk (append_item i a).
Proof. unfold mirrored, append_item. cbn. rewrite replay_snoc. by intros ->. Qed.

Lemma count_tokens_mirrored disk i a b : mirrored disk a -> count_tokens i a = Some b -> mirrored disk b.
Proof. unfold count_tokens. destruct (estimate_item_tokens i); [|done]. by intros Hm [= <-]. Qed.

Lemma replace_mirrored disk l b a a' : replace_conversation l b a = Some a' -> mirrored disk a'.
Proof.
  intros (n & e & s & _ & -> & Hs & _)%replace_effect. unfold mirrored. cbn [persistence state]. by rewrite replay_snoc, Hs.
Qed.

Lemma push_user_mirrored disk reason i a a' :
  mirrored disk a -> push_user_message_with_repair_reason reason i a = Some a' -> mirrored disk a'.
Proof.
  intros Hm. unfold push_user_message_with_repair_reason.
  destruct (ensure_conversation_integrity_with_reason reason a) as [b|] eqn:Eb; [|done]. cbn [mbind option_bind].
  destruct (count_tokens i b) as [c|] eqn:Ec; [|done]. cbn [mbind option_bind].
  destruct (prune_retained_conversation (append_item i c)) as [[k d]|] eqn:Ed; [|done]. intros [= <-].
  assert (mirrored disk (append_item i c)) as Hc by (eapply append_mirrored, count_tokens_mirrored; [|done]; by eapply integrity_mirrored).
  destruct (prune_effect _ _ _ Ed) as (l & log & -> & Hlog & _). by apply mirrored_log.
Qed.

Lemma push_message_mirrored disk i a a' : mirrored disk a -> push_message i a = Some a' -> mirrored disk a'.
Proof.
  intros Hm. unfold push_message. destruct (is_assistant i); cbn [mbind option_bind].
  - intros [= <-]. by apply append_mirrored.
  - destruct (count_tokens i a) as [b|] eqn:E; [|done]. intros [= <-]. by eapply append_mirrored, count_tokens_mirrored.
Qed.

Lemma strip_unchanged run l : (strip_displaced run l).2 = [] -> (strip_displaced run l).1 = l.
Proof.
  revert run. induction l as [|x l IH]; intros run; [done|]. destruct (is_result x) eqn:Ex.
  - destruct x; try done. rewrite strip_cons_result. cbn. case_bool_decide; [|done]. cbn. intros Hs. by rewrite IH.
  - rewrite strip_cons_other by done. cbn. intros Hs. by rewrite IH.
Qed.

Lemma repair_history_unchanged l r l' : repair_history l = Some (r, l') -> changed r = false -> l' = l.
Proof.
  unfold repair_history. rewrite dedup_ref. cbn [mbind option_bind]. unfold strip_displaced_tool_results.
  destruct (strip_displaced [] (deduped false l)) as [k s] eqn:Es. rewrite repair_dangling_ref. intros [= <- <-].
  unfold changed. cbn [duplicates_removed stripped_tool_result_ids synthetic_results_inserted]. intros Hc.
  assert (length l <= length (deduped false l) /\ s = [] /\ length (repaired (HarnessHalted "history_repair") [] k) <= length k)
    as (H1 & -> & H3).
  { apply orb_false_iff in Hc as [[H1 H2]%orb_false_iff H3]. zbool. split_and!; [lia| |lia].
    by apply negb_false_iff, bool_decide_eq_true, nil_length_inv in H2. }
  pose proof (sublist_same _ _ (deduped_sublist false l) H1) as E1.
  pose proof (strip_unchanged [] (deduped false l)) as E2. rewrite Es in E2. cbn in E2. rewrite E1 in E2.
  rewrite E2 in * by done. symmetry. apply sublist_same; [apply repaired_sublist|done].
Qed.

Lemma repair_mirrored disk dry_run a report a' :
  mirrored disk a -> actor_repair_history dry_run a = Some (report, a') -> mirrored disk a'.
Proof.
  intros Hm. destruct dry_run; [by intros ->%dry_repair|]. unfold actor_repair_history.
  destruct (repair_history (conversation (state a))) as [[r l]|] eqn:E; [|done]. cbn [mbind option_bind].
  destruct (changed r) eqn:Er.
  - destruct (replace_conversation _ _ _) as [b|] eqn:Eb; [|done]. intros [= _ <-]. by eapply replace_mirrored.
  - intros [= _ <-]. rewrite (repair_history_unchanged _ _ _ E Er). unfold mirrored, on_state. by rewrite set_conversation_same.
Qed.

Lemma truncate_mirrored disk n a a' : mirrored disk a -> truncate_to_prompt_index n a = Some a' -> mirrored disk a'.
Proof.
  intros Hm. unfold truncate_to_prompt_index. case_match; [by intros [= <-]|].
  destruct (estimate_conversation_tokens _); [|done]. intros [= <-]. unfold mirrored. cbn. by rewrite replay_snoc.
Qed.

Section Mirror.
Context `{Serde}.

Lemma mirror_step disk c a r a' :
  stored c = true -> handle_command c a = Some (r, a') -> mirrored disk a -> mirrored disk a'.
Proof.
  intros Hs Hc Hm.
  assert (forall s, conversation s = conversation (state a) ->
    mirrored disk (mkActor s (pruning_config a) (persistence a) (events a))) as Hframe
    by (intros s E; unfold mirrored; cbn; by rewrite E).
  destruct c; cbn [handle_command stored] in *; try discriminate Hs; returned Hc; try exact Hm;
    lazymatch goal with
    | E : push_user_message _ a = Some _ |- _ => by apply (push_user_mirrored _ UserCancelled _ _ _ Hm E)
    | E : push_user_message_with_repair_reason _ _ a = Some _ |- _ => by apply (push_user_mirrored _ _ _ _ _ Hm E)
    | E : repair_dangling_after_harness_halt _ a = Some _ |- _ => by apply (integrity_mirrored _ _ _ _ Hm E)
    | E : replace_conversation _ _ a = Some _ |- _ => by apply (replace_mirrored _ _ _ _ _ E)
    | E : push_message _ a = Some _ |- _ => by apply (push_message_mirrored _ _ _ _ Hm E)
    | _ => idtac
    end.
  - unfold record_token_usage in *. destruct (estimate_conversation_tokens _); [|done]. simplify_eq/=. by apply Hframe.
  - unfold record_subagent_usage. case_match; [done|]. by destruct attribute_to_prompt; apply Hframe.
  - by destruct prompt, session; apply Hframe.
  - case_match; [by simplify_eq|]. returned Hc. by eapply repair_mirrored.
  - destruct (system_head_effect _ _ _ _ Heqo) as [[-> _]|(_ & l & E & _)]; [done|]. by eapply replace_mirrored.
  - unfold mirrored. cbn. by rewrite replay_snoc.
  - apply Hframe. unfold seal_harness_trace_turn. by destruct (harness_trace_buffer _).
  - assert (mirrored disk a0) as Hm0 by (by eapply integrity_mirrored).
    destruct (build_effect tools memory_reminder persist_memory_reminder conv_id req_id a0) as (l & log & es & Hb & Hlog & _).
    rewrite Heqp in Hb. cbn [snd] in Hb. pose proof (mirrored_log _ _ _ _ Hm0 Hlog) as Hl.
    unfold mirrored. destruct Hb as [->|[-> El]]; cbn [persistence state]; rewrite Hl; [|done].
    by destruct (under_capture_view l (state a0)) as (_ & _ & -> & _).
  - by apply (truncate_mirrored _ _ _ _ Hm Heqo).
  - unfold take_turn_messages in *. simplify_eq. by apply (Hframe (set_turn_capture None (state a))).
  - unfold take_harness_trace_turns in *. simplify_eq.
    apply (Hframe (set_harness_trace_turns [] (seal_harness_trace_turn (state a)))). cbn.
    unfold seal_harness_trace_turn. by destruct (harness_trace_buffer _).
Qed.

(** C17.  The stored history never falls behind: if it is the conversation of
    the session, it still is after any commands but the restoring of a
    snapshot and the switch of the working directory, every push, repair,
    clearing, compaction, rewind and reminder included. *)
Theorem disk_mirrors_memory disk cs a :
  mirrored disk a -> Forall plain (conversation (state a)) ->
  Forall (fun c => stored c = true /\ Forall plain (brought c)) cs ->
  exists rs a', run cs a = Some (rs, a') /\ mirrored disk a'.
Proof.
  intros Hm Ha [Hs Hp]%Forall_and. destruct (run_plain cs a Ha Hp) as (rs & a' & E & _). exists rs, a'. split; [done|].
  clear Ha Hp. revert a rs Hm E. induction Hs as [|c cs Hc Hs IH]; intros a rs Hm; cbn [run].
  - by intros [= _ <-].
  - destruct (handle_command c a) as [[r b]|] eqn:Eb; [|done]. cbn [mbind option_bind].
    destruct (run cs b) as [[rs' b']|] eqn:Er; [|done]. intros [= _ <-].
    eapply IH; [|done]. by eapply mirror_step.
Qed.
End Mirror.

Lemma disk_mirrors_memory_witness :
  exists rs a', run [PushUserMessage (user "go"); PushAssistantResponse demo_call; PushUserMessage (user "stop");
      TruncateToPromptIndex 0] demo_actor = Some (rs, a') /\ mirrored [System "be helpful"] a'.
Proof. apply (disk_mirrors_memory [System "be helpful"] _ demo_actor); by repeat constructor. Defined.

(** A restored snapshot is not stored. *)
Lemma restore_not_stored :
  exists n rs a', run [RestoreSnapshot n] demo_actor = Some (rs, a') /\ ~ mirrored [System "be helpful"] a'.
Proof.
  exists (mkSnapshot [] demo_config 0 0 0 ∅ [] None None None credentials_default). do 2 eexists.
  split; [by vm_compute|]. by unfold mirrored.
Qed.

(** ** Requests *)

(** What the passes over the copy for a request may change of an item. *)
Inductive alike : ConversationItem -> ConversationItem -> Prop :=
| alike_same i : alike i i
| alike_user u u' : alike (User u) (User u')
| alike_result t s : alike (ToolResult t) (ToolResult (set_result s t)).
#[local] Hint Constructors alike : core.

Lemma alike_refl l : Forall2 alike l l.
Proof. induction l; auto. Qed.

Lemma alike_answered ids l k : Forall2 alike l k -> answered ids k = answered ids l.
Proof. intros Hl. revert ids. induction Hl as [|x y l k [i|u u'|t s] Hl IH]; intros ids; [done|destruct i| |]; cbn; by rewrite ?IH. Qed.

Lemma alike_assistants l k :
  Forall2 alike l k -> filter (fun i => is_assistant i = true) k = filter (fun i => is_assistant i = true) l.
Proof. induction 1 as [|x y l k [i|u u'|t s] Hl IH]; [done|..]; rewrite !filter_cons; [by rewrite IH|done..]. Qed.

Lemma alike_by_age f l :
  (forall n t, exists s, f n t = set_result s t) -> Forall2 alike l (by_age f l).
Proof.
  intros Hf. induction l as [|x l IH]; [done|]. destruct x; cbn; constructor; try done.
  destruct (Hf (pred (users l)) t) as [s ->]. constructor.
Qed.

Lemma set_result_same t : set_result (tr_content t) t = t.
Proof. by destruct t. Qed.

Lemma alike_prune c l : Forall2 alike l (prune_conversation c l).
Proof.
  unfold prune_conversation. destruct (enabled c); [|apply alike_refl].
  rewrite from_end_ref. apply alike_by_age. intros n t. unfold prune_result, hard_clear, soft_trim.
  repeat case_match; eauto using set_result_same; eexists; symmetry; apply set_result_same.
Qed.

Section Requests.
Context `{Serde}.

Lemma alike_evict target st l : Forall2 alike l (evict_items target st l).2.
Proof.
  revert st. induction l as [|x l IH]; intros st; [done|].
  destruct x; cbn;
    repeat match goal with |- context [let '(_, _) := ?x in _] => let E := fresh in destruct x eqn:E end; cbn;
    constructor; try done;
    match goal with E : evict_items target ?s l = (_, ?k) |- _ => specialize (IH s); by rewrite E in IH end.
Qed.

Lemma alike_images l current target : Forall2 alike l (compact_images_to_byte_budget l current target).2.
Proof.
  unfold compact_images_to_byte_budget. case_match.
  - apply alike_refl.
  - pose proof (alike_evict target (current, 0) l) as Hl. by destruct (evict_items _ _ _) as [[] ?].
Qed.

Lemma inject_answered r l :
  answered [] (inject_memory_reminder r l).2 = answered [] l /\
  filter (fun i => is_assistant i = true) (inject_memory_reminder r l).2 = filter (fun i => is_assistant i = true) l.
Proof.
  unfold inject_memory_reminder. case_bool_decide; [done|].
  destruct l as [|x l]; [done|]. destruct x; try done. by case_bool_decide.
Qed.

Lemma request_items_answered c p n body r l :
  answered [] (request_items c p n body r l).2 = answered [] l /\
  filter (fun i => is_assistant i = true) (request_items c p n body r l).2 = filter (fun i => is_assistant i = true) l.
Proof.
  unfold request_items.
  assert (exists o k, (if n then let '(o, k) := compact_images_to_byte_budget l body IMAGE_COMPACT_RECLAIM_TARGET_BYTES in (Some o, k)
    else (None, l)) = (o, k) /\ answered [] k = answered [] l /\
    filter (fun i => is_assistant i = true) k = filter (fun i => is_assistant i = true) l) as (o & k & -> & <- & <-).
  { destruct n; [|by exists None, l]. pose proof (alike_images l body IMAGE_COMPACT_RECLAIM_TARGET_BYTES) as Hi.
    destruct (compact_images_to_byte_budget _ _ _) as [o k]. exists (Some o), k. split; [done|].
    by split; [apply alike_answered|apply alike_assistants]. }
  assert (answered [] (if p then prune_conversation c k else k) = answered [] k /\
    filter (fun i => is_assistant i = true) (if p then prune_conversation c k else k) = filter (fun i => is_assistant i = true) k) as [<- <-].
  { destruct p; [|done]. by split; [apply alike_answered|apply alike_assistants]; apply alike_prune. }
  destruct r as [r|]; [|done]. apply inject_answered.
Qed.

Lemma filter_assistants (l k : list ConversationItem) :
  filter (fun x => is_result x = false) l = filter (fun x => is_result x = false) k ->
  filter (fun i => is_assistant i = true) l = filter (fun i => is_assistant i = true) k.
Proof.
  intros E. assert (forall m : list ConversationItem, filter (fun i => is_assistant i = true) m =
    filter (fun i => is_assistant i = true) (filter (fun x => is_result x = false) m)) as Hm.
  { intros m. rewrite list_filter_filter_l; [done|]. by intros []. }
  by rewrite (Hm l), (Hm k), E.
Qed.

(** C8.  Every request can be sent: whatever state the session is in, the
    request built from it has a result for each tool call in the run after
    it, and holds all that the model ever said, in order and unchanged. *)
Theorem request_answered tools r b cid rid a :
  exists req a', handle_command (BuildConversationRequest tools r b cid rid) a = Some (RRequest req, a') /\
    answered [] (r_items req) = true /\
    filter (fun i => is_assistant i = true) (r_items req) = filter (fun i => is_assistant i = true) (conversation (state a)).
Proof.
  cbn [handle_command]. unfold ensure_conversation_integrity.
  destruct (integrity_effect UserCancelled a) as (log & -> & _). cbn [mbind option_bind].
  set (l := integrity UserCancelled (conversation (state a))). set (a0 := mkActor _ _ _ _).
  assert (answered [] l = true) as Ha by apply (answered_repaired UserCancelled []).
  assert (filter (fun i => is_assistant i = true) l = filter (fun i => is_assistant i = true) (conversation (state a))) as Hf.
  { unfold l, integrity. apply filter_assistants. by rewrite repaired_others, deduped_others. }
  assert (conversation (state a0) = l) as E0 by (by destruct (under_capture_view l (state a)) as (_ & _ & ? & _)).
  unfold build_conversation_request. pose proof (reminder_effect r b a0) as Hr.
  destruct (persist_reminder r b a0) as [r' a1].
  assert (answered [] (conversation (state a1)) = true /\
    filter (fun i => is_assistant i = true) (conversation (state a1)) = filter (fun i => is_assistant i = true) (conversation (state a)))
    as [Ha1 Hf1].
  { rewrite <- E0 in Ha, Hf. destruct Hr as [[-> _]|(_ & l' & log' & -> & _ & r0 & _ & ->)]; [done|]. cbn [state].
    destruct (under_capture_view (inject_memory_reminder r0 (conversation (state a0))).2 (state a0)) as (_ & _ & -> & _).
    destruct (inject_answered r0 (conversation (state a0))) as [-> ->]. by split. }
  set (p := should_prune _ _). set (n := (_ <=? _)%Z). set (body := conversation_body_bytes _).
  destruct (request_items_answered (pruning_config a1) p n body r' (conversation (state a1))) as [Hq Hfq].
  destruct (p || bool_decide (is_Some r') || n).
  - destruct (request_items _ _ _ _ _ _) as [o items]. cbn [snd] in *. eexists _, _. split; [done|]. cbn. by rewrite Hq, Hfq.
  - eexists _, _. split; [done|]. done.
Qed.
End Requests.

(** ** Clearing by age *)

Definition real_turns (real : ConversationItem -> bool) (l : list ConversationItem) : nat :=
  length (filter (fun i => real i = true) l).

Lemma real_turns_users real l :
  (forall i, real i = true -> is_user i = true) -> forall n,
  users (drop n l) + real_turns real l <= real_turns real (drop n l) + users l.
Proof.
  intros Hreal. induction l as [|x l IH]; intros [|n]; try (cbn; lia).
  cbn [drop]. rewrite users_cons. unfold real_turns in *. rewrite filter_cons. specialize (IH n).
  case_decide as E; [rewrite (Hreal x E)|]; cbn; lia.
Qed.

(** C34.  Clearing in memory keeps its promise: while the prompt counter does
    not run ahead of the real user messages of the conversation, a result is
    cleared only when [hard_clear_age_turns] real messages follow it, the
    newest one not counted, however many synthetic ones there are; and
    nothing else changes. *)
Theorem clearing_keeps_recent real a :
  (forall i, real i = true -> is_user i = true) ->
  prompt_index (state a) <= real_turns real (conversation (state a)) ->
  Forall plain (conversation (state a)) ->
  exists n a', prune_retained_conversation a = Some (n, a') /\
    length (conversation (state a')) = length (conversation (state a)) /\
    forall i x, conversation (state a) !! i = Some x ->
      conversation (state a') !! i = Some x \/
      exists t, x = ToolResult t /\ conversation (state a') !! i = Some (ToolResult (set_result HARD_CLEAR_PLACEHOLDER t)) /\
        hard_clear_age_turns (pruning_config a) <= pred (real_turns real (drop (S i) (conversation (state a)))).
Proof.
  intros Hreal Hp Ha. destruct (prune_runs a Ha) as (n & a' & E & _). exists n, a'. split; [done|].
  destruct (prune_effect _ _ _ E) as (l & log & -> & _ & Hl). cbn [state conversation set_conversation].
  destruct Hl as [->|[-> _]]; [by auto|]. rewrite by_age_length. split; [done|]. intros i x Hx. rewrite by_age_lookup, Hx. cbn.
  destruct x; try (by left). unfold clear_result. destruct (Nat.ltb_spec (pred (users (drop (S i) (conversation (state a)))))
    (effective_threshold (pruning_config a) (state a))) as [Hlt|Hge]; [by left|].
  unfold hard_clear. case_bool_decide; [by left|]. right. exists t. split_and!; [done..|].
  pose proof (real_turns_users real (conversation (state a)) Hreal (S i)) as Hu.
  unfold effective_threshold in Hge. lia.
Qed.

Definition typed (i : ConversationItem) : bool :=
  match i with User u => bool_decide (synthetic_reason u = None) | _ => false end.
Definition demo_old : list ConversationItem :=
  [demo_call; tool_result "1" "text"; user "a"; system_reminder "r"; user "b"; user "c"].
Definition demo_at (n : nat) (l : list ConversationItem) : Actor :=
  mkActor (set_prompt_index n (set_conversation l (state demo_actor))) (mkPruning true 0 0 0 0 2) [] [].

Lemma clearing_keeps_recent_witness :
  exists n a', prune_retained_conversation (demo_at 3 demo_old) = Some (n, a') /\
    length (conversation (state a')) = 6 /\
    forall i x, demo_old !! i = Some x ->
      conversation (state a') !! i = Some x \/
      exists t, x = ToolResult t /\ conversation (state a') !! i = Some (ToolResult (set_result HARD_CLEAR_PLACEHOLDER t)) /\
        2 <= pred (real_turns typed (drop (S i) demo_old)).
Proof.
  apply (clearing_keeps_recent typed (demo_at 3 demo_old)); [by intros []|by vm_compute; lia|by repeat constructor].
Defined.

(** After a compaction the counter is ahead of the messages that are left,
    synthetic messages are taken for real ones, and a result of the running
    turn is cleared. *)
Lemma clearing_after_compaction :
  let l := [user_meta "summary"; user "go"; demo_call; tool_result "1" "text";
            system_reminder "1"; system_reminder "2"; system_reminder "3"] in
  exists n a', prune_retained_conversation (demo_at 7 l) = Some (n, a') /\
    conversation (state a') !! 3 = Some (tool_result "1" HARD_CLEAR_PLACEHOLDER) /\ real_turns typed (drop 4 l) = 0.
Proof. do 2 eexists. split; [by vm_compute|]. by vm_compute. Qed.

(** A rewind to the start of the third prompt counts the injected message as
    a prompt; the cut of the stored history does not. *)
Lemma rewind_counts_synthetic :
  let mark := Conversation.set_prompt_index in
  let l := [mark 0 (user "a"); assistant "1"; system_reminder "r"; mark 1 (user "b"); assistant "2"; mark 2 (user "c"); assistant "3"] in
  exists a', truncate_to_prompt_index 2 (demo_at 3 l) = Some a' /\
    length (conversation (state a')) = 3 /\ conversation_truncate_for_prompt l 2 = 5.
Proof. eexists. split; [by vm_compute|]. by vm_compute. Qed.

(** The text of a later message is returned when the first one starts with an image. *)
Lemma first_text_of_second :
  get_first_user_text (state (demo_at 2 [user_with_parts [Image "data:"]; user "b"])) = Some "b".
Proof. by vm_compute. Qed.

(** ** Billing *)

Definition ticks (t : UsageTotals) : Z := default 0%Z (cost_usd_ticks t).
Definition metered (t : UsageTotals) : Prop :=
  Forall (fun n => 0 <= n)%Z [input_tokens t; output_tokens t; cached_read_tokens t; reasoning_tokens t; model_calls t;
    api_duration_ms t; cost_missing_calls t; ticks t].

Fixpoint sum_of (f : UsageTotals -> Z) (l : list UsageTotals) : Z :=
  match l with [] => 0 | t :: l' => f t + sum_of f l' end.

(** The sum of some records, each number up to the largest of its type; the
    cost is absent when no record has one. *)
Definition tally (ts : list UsageTotals) : UsageTotals :=
  let sum f := Z.min u64_max (sum_of f ts) in
  mkTotals (sum input_tokens) (sum output_tokens) (sum cached_read_tokens) (sum reasoning_tokens) (sum model_calls)
    (sum api_duration_ms)
    (if forallb (fun t => bool_decide (cost_usd_ticks t = None)) ts then None else Some (Z.min i64_max (sum_of ticks ts)))
    (sum cost_missing_calls).

(** The model a call is billed to: that of the session when none is named. *)
Definition billed_model (m : option string) (a : Actor) : string :=
  match m with Some id => if bool_decide (id = "") then sc_model (sampling_config (state a)) else id
  | None => sc_model (sampling_config (state a)) end.

(** What a command books on which model. *)
Definition booked (c : ChatStateCommand) (a : Actor) : list (string * UsageTotals) :=
  match c with
  | RecordModelCallUsage m u d cost => [(billed_model m a, from_call u d cost)]
  | RecordSubagentUsage models _ _ => models
  | _ => []
  end.
Definition main_call (c : ChatStateCommand) : bool := match c with RecordModelCallUsage _ _ _ _ => true | _ => false end.
Definition leaves_open (c : ChatStateCommand) : bool :=
  match c with RecordSubagentUsage _ _ inc => inc | MarkUsageIncomplete _ session => session | _ => false end.

Definition share (id : string) (recs : list (string * UsageTotals)) : list UsageTotals := (filter (fun r => r.1 = id) recs).*2.

(** The ledger of these bookings, [n] of them main calls: the totals, the share
    of each model that was booked on, the number of main calls, and whether
    something may be missing. *)
Definition accounts (l : UsageLedger) (recs : list (string * UsageTotals)) (n : nat) (open : bool) : Prop :=
  totals l = tally recs.*2 /\ NoDup (by_model l).*1 /\
  (forall id t, (id, t) ∈ by_model l <-> id ∈ recs.*1 /\ t = tally (share id recs)) /\
  main_loop_model_calls l = Z.min u64_max (Z.of_nat n) /\ incomplete l = open.

Lemma sum_of_app f l k : sum_of f (l ++ k) = (sum_of f l + sum_of f k)%Z.
Proof. induction l as [|t l IH]; cbn; [done|]. rewrite IH. lia. Qed.

Lemma no_cost_sum ts : forallb (fun t => bool_decide (cost_usd_ticks t = None)) ts = true -> sum_of ticks ts = 0%Z.
Proof.
  induction ts as [|t ts IH]; [done|]. cbn. intros [Ht%bool_decide_eq_true Hts%IH]%andb_true_iff.
  unfold ticks at 1. rewrite Ht, Hts. done.
Qed.

Lemma metered_ticks ts : Forall metered ts -> (0 <= sum_of ticks ts)%Z.
Proof. induction 1 as [|t ts Ht Hts IH]; cbn; [done|]. unfold metered in Ht. rewrite !Forall_cons in Ht. lia. Qed.

(** Folding a record in is counting it. *)
Lemma tally_snoc ts t : Forall metered ts -> metered t -> fold_totals (tally ts) t = tally (ts ++ [t]).
Proof.
  intros Hts Ht. unfold metered in Ht. rewrite !Forall_cons in Ht. unfold fold_totals, tally. rewrite !sum_of_app. cbn.
  f_equal; try (unfold sat_add64; lia). rewrite forallb_app. cbn [forallb]. rewrite andb_true_r.
  assert (ticks t = default 0 (cost_usd_ticks t))%Z as Ek by done. pose proof (metered_ticks ts Hts).
  destruct (forallb _ ts) eqn:E; [apply no_cost_sum in E|];
    (destruct (cost_usd_ticks t) as [x|]; [rewrite bool_decide_false by done|rewrite bool_decide_true by done]);
    cbn in Ek |- *; try done; f_equal; unfold sat_add_i64, i64_min, i64_max; lia.
Qed.

Lemma tally_first t : metered t -> fold_totals totals_default t = tally [t].
Proof. apply (tally_snoc [] t). constructor. Qed.

Lemma fold_model_keys id t l k : k ∈ (fold_model id t l).*1 <-> k = id \/ k ∈ l.*1.
Proof. induction l as [|[j v] l IH]; cbn; [set_solver|]. case_bool_decide; cbn; set_solver. Qed.

Lemma fold_model_nodup id t l : NoDup l.*1 -> NoDup (fold_model id t l).*1.
Proof.
  induction l as [|[j v] l IH]; cbn; [intros _; apply NoDup_singleton|]. intros [Hj Hl]%NoDup_cons.
  case_bool_decide; cbn; apply NoDup_cons; [done|]. split; [rewrite fold_model_keys; naive_solver|auto].
Qed.

Lemma fold_model_elem id t l k v :
  NoDup l.*1 ->
  ((k, v) ∈ fold_model id t l) <->
  (k <> id /\ ((k, v) ∈ l)) \/
  (k = id /\ (((id ∉ l.*1) /\ v = fold_totals totals_default t) \/ exists w, (id, w) ∈ l /\ v = fold_totals w t)).
Proof.
  induction l as [|[j w] l IH]; cbn [fold_model fmap list_fmap fst].
  { intros _. rewrite list_elem_of_singleton. split; [intros [= -> ->]; right; split; [done|left; split; [set_solver|done]]|].
    intros [[_ ?%elem_of_nil]|[-> [[_ ->]|(w & ?%elem_of_nil & _)]]]; done. }
  intros [Hj Hl]%NoDup_cons. case_bool_decide as E; setoid_rewrite elem_of_cons.
  - subst j. assert (forall w', (id, w') ∉ l) as Hno by (intros w' Hw; apply Hj; by apply (list_elem_of_fmap_2 fst _ _ Hw)).
    split.
    + intros [[= -> ->]|Hin]; [right; split; [done|right; exists w; split; [by left|done]]|].
      left. split; [intros ->; by apply (Hno v)|by right].
    + intros [[Hk [[= -> _]|Hin]]|[-> [[H _]|(w' & [[= ->]|Hin] & ->)]]];
        [done|by right|by destruct H; left|by left|by apply Hno in Hin].
  - rewrite (IH Hl). split.
    + intros [[= -> ->]|[[Hk Hin]|[-> [[Hno ->]|(w' & Hw & ->)]]]]; [left; by eauto|left; by eauto|right; split; [done|]..];
        [left; split; [intros [?|?]; by auto|done]|right; by eauto].
    + intros [[Hk [[= -> ->]|Hin]]|[-> [[Hno ->]|(w' & [[= <- _]|Hw] & ->)]]]; [by left|right; left; by eauto| |done|];
        right; right; (split; [done|]); [left; split; [intros ?; apply Hno; by right|done]|right; by eauto].
Qed.

Lemma share_snoc id recs k t : share id (recs ++ [(k, t)]) = share id recs ++ (if bool_decide (k = id) then [t] else []).
Proof.
  unfold share. rewrite filter_app, fmap_app. f_equal. rewrite filter_cons. cbn.
  case_decide; [by rewrite bool_decide_true|by rewrite bool_decide_false].
Qed.

Lemma share_metered id recs : Forall metered recs.*2 -> Forall metered (share id recs).
Proof.
  rewrite !Forall_forall. intros H t Ht. apply H. unfold share in Ht. apply list_elem_of_fmap in Ht as (r & -> & Hr).
  apply list_elem_of_filter in Hr as [_ Hr]. by apply list_elem_of_fmap_2.
Qed.

Lemma share_absent id recs : id ∉ recs.*1 -> share id recs = [].
Proof.
  intros Hn. unfold share. destruct (filter _ recs) as [|r l] eqn:E; [done|].
  assert (r ∈ filter (fun r => r.1 = id) recs) as [<- Hr]%list_elem_of_filter by (rewrite E; left).
  by apply (list_elem_of_fmap_2 fst) in Hr.
Qed.

Lemma accounts_entry id t l recs n open :
  accounts l recs n open -> Forall metered recs.*2 -> metered t -> accounts (fold_entry id t l) (recs ++ [(id, t)]) n open.
Proof.
  intros (Ht & Hn & Hm & Hc & Hi) Hr Hmt. unfold accounts. cbn [totals by_model main_loop_model_calls incomplete fold_entry].
  rewrite Ht, !fmap_app. split_and!; [by apply tally_snoc|by apply fold_model_nodup| |done|done].
  assert (forall k, k ∈ (by_model l).*1 <-> k ∈ recs.*1) as Hk.
  { intros k. rewrite list_elem_of_fmap. split; [intros ([? v] & -> & [? _]%Hm); done|].
    intros Hin. exists (k, tally (share k recs)). split; [done|]. by apply Hm. }
  intros k v. rewrite fold_model_elem, share_snoc by done. setoid_rewrite Hm. rewrite Hk, elem_of_app. cbn.
  rewrite list_elem_of_singleton. case_bool_decide as E.
  - subst k. rewrite <- tally_snoc by (done || by apply share_metered). split.
    + intros [[? _]|[_ [[Hno ->]|(w & [_ ->] & ->)]]]; [done|split; [by right|]..]; [|done].
      by rewrite (share_absent id recs Hno).
    + intros [_ ->]. right. split; [done|]. destruct (decide (id ∈ recs.*1)) as [Hin|Hno]; [right; eauto|left].
      by rewrite (share_absent id recs Hno).
  - rewrite app_nil_r. naive_solver.
Qed.

Lemma accounts_subagent models inc l recs n open :
  accounts l recs n open -> Forall metered recs.*2 -> Forall metered models.*2 ->
  accounts (record_subagent models inc l) (recs ++ models) n (open || inc).
Proof.
  intros Ha Hr Hm. unfold record_subagent.
  assert (accounts (foldl (fun l '(id, t) => fold_entry id t l) l models) (recs ++ models) n open) as H.
  { revert l recs Ha Hr Hm. induction models as [|[id t] models IH]; intros l recs Ha Hr Hm; cbn [foldl]; [by rewrite app_nil_r|].
    apply Forall_cons in Hm as [Ht Hm]. replace (recs ++ (id, t) :: models) with ((recs ++ [(id, t)]) ++ models) by (by rewrite <- app_assoc).
    apply IH; [by apply accounts_entry| |done]. rewrite fmap_app. apply Forall_app. split; [done|]. by apply Forall_singleton. }
  destruct inc; [|by rewrite orb_false_r]. rewrite orb_true_r. by destruct H as (? & ? & ? & ? & _).
Qed.

(** The numbers of a command are not negative, as their types say, and
    neither is the cost of a subagent. *)
Definition metering (c : ChatStateCommand) : Prop :=
  match c with
  | RecordModelCallUsage _ u d _ =>
      Forall (fun n => 0 <= n)%Z [prompt_tokens u; completion_tokens u; cached_prompt_tokens u; tu_reasoning_tokens u; default 0%Z d]
  | RecordSubagentUsage models _ _ => Forall metered models.*2
  | _ => True
  end.

Lemma integrity_session reason a b :
  ensure_conversation_integrity_with_reason reason a = Some b -> session_usage (state b) = session_usage (state a).
Proof.
  destruct (integrity_effect reason a) as (log & -> & _). intros [= <-]. cbn [state].
  by destruct (under_capture_view (integrity reason (conversation (state a))) (state a)) as (_ & _ & _ & _ & _ & ? & _).
Qed.

Lemma push_user_session reason i a a' :
  push_user_message_with_repair_reason reason i a = Some a' -> session_usage (state a') = session_usage (state a).
Proof.
  unfold push_user_message_with_repair_reason, count_tokens.
  destruct (ensure_conversation_integrity_with_reason reason a) as [b|] eqn:Eb; [|done]. cbn [mbind option_bind].
  destruct (estimate_item_tokens i); [|done]. cbn [mbind option_bind].
  destruct (prune_retained_conversation _) as [[k d]|] eqn:Ed; [|done]. intros [= <-].
  destruct (prune_effect _ _ _ Ed) as (l & log & -> & _). cbn. by eapply integrity_session.
Qed.

Lemma repair_session dry_run a report a' :
  actor_repair_history dry_run a = Some (report, a') -> session_usage (state a') = session_usage (state a).
Proof.
  destruct dry_run; [by intros ->%dry_repair|]. unfold actor_repair_history.
  destruct (repair_history (conversation (state a))) as [[r l]|]; [|done]. cbn [mbind option_bind].
  destruct (changed r); [|by intros [= _ <-]].
  destruct (replace_conversation _ _ _) as [b|] eqn:Eb; [|done]. intros [= _ <-].
  by destruct (replace_effect _ _ _ _ Eb) as (? & ? & ? & _ & -> & _ & _ & _ & _ & _ & _ & ? & _).
Qed.

Lemma switch_session content g answer a r a' :
  append_switch content g answer a = Some (r, a') -> session_usage (state a') = session_usage (state a).
Proof.
  unfold append_switch, converge_working_directory_switch. destruct (authoritative _ _) as [i|]; [|by intros [= _ <-]].
  destruct (estimate_item_tokens i); [|done]. cbn [mbind option_bind].
  destruct (replace_switch _ _ _) as [[old l]|]; [destruct (estimate_item_tokens old); [|done]|]; by intros [= _ <-].
Qed.

Section Bill.
Context `{Serde}.

Lemma booked_metered c a : metering c -> Forall metered (booked c a).*2.
Proof.
  destruct c; cbn; try done. intros Hm. rewrite !Forall_cons in Hm. apply Forall_singleton. unfold metered. rewrite !Forall_cons.
  destruct Hm as (? & ? & ? & ? & ? & _). split_and!; cbn; try lia; try done; unfold ticks; cbn;
    unfold reported_cost_ticks; destruct cost as [x|]; cbn; try done; destruct (Z.ltb_spec 0 x); cbn; lia.
Qed.

Lemma session_step c a r a' recs n open :
  handle_command c a = Some (r, a') -> metering c -> Forall metered recs.*2 -> accounts (session_usage (state a)) recs n open ->
  accounts (session_usage (state a')) (recs ++ booked c a) (n + (if main_call c then 1 else 0)) (open || leaves_open c).
Proof.
  intros Hc Hm Hr Ha. pose proof (booked_metered c a Hm) as Hbk.
  assert (session_usage (state a') = session_usage (state a) ->
    accounts (session_usage (state a')) (recs ++ []) (n + 0) (open || false)) as Hframe
    by (intros ->; by rewrite app_nil_r, Nat.add_0_r, orb_false_r).
  destruct c; cbn [handle_command booked metering main_call leaves_open] in *; returned Hc; try (apply Hframe; reflexivity);
    lazymatch goal with
    | E : push_user_message _ a = Some _ |- _ => by apply Hframe, (push_user_session UserCancelled _ _ _ E)
    | E : push_user_message_with_repair_reason _ _ a = Some _ |- _ => by apply Hframe, (push_user_session _ _ _ _ E)
    | E : repair_dangling_after_harness_halt _ a = Some _ |- _ => by apply Hframe, (integrity_session _ _ _ E)
    | E : replace_conversation _ _ a = Some _ |- _ =>
        apply Hframe; by destruct (replace_effect _ _ _ _ E) as (? & ? & ? & _ & -> & _ & _ & _ & _ & _ & _ & ? & _)
    | E : push_message _ a = Some _ |- _ =>
        apply Hframe; revert E; unfold push_message, count_tokens;
        destruct (is_assistant _); [|destruct (estimate_item_tokens _); [|done]]; by intros [= <-]
    | E : restore_snapshot _ a = Some _ |- _ =>
        apply Hframe; by destruct (restore_effect _ _ _ E) as (? & -> & _ & _ & _ & ? & _)
    | _ => idtac
    end.
  - by apply Hframe, (switch_session _ _ _ _ _ _ Hc).
  - apply Hframe. unfold record_token_usage in *. destruct (estimate_conversation_tokens _); [|done]. by simplify_eq/=.
  - cbn. unfold record_main_loop_call. rewrite orb_false_r. apply accounts_entry; [|done|exact (Forall_inv Hbk)].
    destruct Ha as (? & ? & ? & Hn & ?). split_and!; try done. cbn. rewrite Hn. unfold sat_add64. lia.
  - rewrite Nat.add_0_r. unfold record_subagent_usage.
    destruct models as [|m models], inc; cbn [length negb andb]; try (by rewrite app_nil_r, orb_false_r);
      cbn [bool_decide]; destruct attribute_to_prompt; by apply (accounts_subagent _ _ _ _ _ _ Ha Hr Hm).
  - rewrite app_nil_r, Nat.add_0_r. destruct Ha as (? & ? & ? & ? & ?).
    destruct prompt, session; cbn; rewrite ?orb_true_r, ?orb_false_r; by split_and!.
  - apply Hframe. destruct turn_active as [[]|]; cbn in Hc; [by simplify_eq| |]; returned Hc;
      by eapply repair_session.
  - apply Hframe. destruct (system_head_effect _ _ _ _ Heqo) as [[-> _]|(_ & l & E & _)]; [done|].
    by destruct (replace_effect _ _ _ _ E) as (? & ? & ? & _ & -> & _ & _ & _ & _ & _ & _ & ? & _).
  - apply Hframe. cbn. unfold seal_harness_trace_turn. by destruct (harness_trace_buffer _).
  - apply Hframe. rewrite <- (integrity_session _ _ _ Heqo).
    destruct (build_effect tools memory_reminder persist_memory_reminder conv_id req_id a0) as (l & log & es & Hb & _).
    rewrite Heqp in Hb. cbn [snd] in Hb. destruct Hb as [->|[-> _]]; [|done]. cbn [state].
    by destruct (under_capture_view l (state a0)) as (_ & _ & _ & _ & _ & ? & _).
  - apply Hframe. unfold truncate_to_prompt_index in *. case_match; [by simplify_eq|].
    destruct (estimate_conversation_tokens _); [|done]. by simplify_eq/=.
  - apply Hframe. unfold take_turn_messages in *. by simplify_eq.
  - apply Hframe. unfold take_harness_trace_turns in *. simplify_eq. cbn. unfold seal_harness_trace_turn. by destruct (harness_trace_buffer _).
Qed.

(** The bookings of a run of commands. *)
Fixpoint bookings (cs : list ChatStateCommand) (a : Actor) : list (string * UsageTotals) :=
  match cs with
  | [] => []
  | c :: cs' => booked c a ++ match handle_command c a with Some (_, b) => bookings cs' b | None => [] end
  end.

Lemma run_accounts cs a rs a' recs n open :
  Forall metering cs -> run cs a = Some (rs, a') -> Forall metered recs.*2 -> accounts (session_usage (state a)) recs n open ->
  accounts (session_usage (state a')) (recs ++ bookings cs a) (n + length (filter (fun c => main_call c) cs))
    (open || existsb leaves_open cs).
Proof.
  intros Hm. revert a rs recs n open. induction Hm as [|c cs Hc Hm IH]; intros a rs recs n open; cbn [run bookings existsb].
  - intros [= _ <-] _. by rewrite app_nil_r, Nat.add_0_r, orb_false_r.
  - destruct (handle_command c a) as [[r b]|] eqn:Eb; [|done]. cbn [mbind option_bind].
    destruct (run cs b) as [[rs' b']|] eqn:Er; [|done]. intros [= _ <-] Hr Ha. rewrite app_assoc, orb_assoc.
    replace (n + length (filter (fun c => main_call c) (c :: cs)))
      with (n + (if main_call c then 1 else 0) + length (filter (fun c => main_call c) cs)).
    2: { rewrite filter_cons. destruct (main_call c); case_decide; try done; cbn; lia. }
    eapply IH; [done| |by eapply session_step]. rewrite fmap_app. apply Forall_app. split; [done|]. by apply booked_metered.
Qed.

(** C31.  The bill of a session is exact.  Started on items that can be
    summarised and fed commands that bring only such and whose numbers are not
    negative, the actor answers all of them, and then the ledger of the session is
    the sum of what was booked: every counter of the totals and the cost, and
    the same for each model that was booked on and for no other, each up to
    the largest number of its type; the number of calls of the main loop is
    counted, and the ledger is marked incomplete exactly when a command marked
    it.  Nothing is counted twice or lost by a rewind, a restored snapshot, a
    compaction or a new prompt. *)
Theorem session_bill_exact l config c cs :
  Forall plain l -> Forall (fun c => Forall plain (brought c) /\ metering c) cs ->
  exists a rs a', spawn_with_pruning l config c = Some a /\ run cs a = Some (rs, a') /\
    accounts (session_usage (state a')) (bookings cs a) (length (filter (fun c => main_call c) cs)) (existsb leaves_open cs).
Proof.
  intros Hl [Hp Hm]%Forall_and. destruct (chat_spawn l config c Hl) as (a & Ea & Ha & Hs).
  destruct (run_plain cs a Ha Hp) as (rs & a' & E & _). exists a, rs, a'. split_and!; [done..|].
  apply (run_accounts cs a rs a' [] 0 false Hm E); [constructor|]. rewrite Hs.
  split_and!; [done|constructor| |done|done]. intros id t. cbn. rewrite !elem_of_nil. tauto.
Qed.
End Bill.

Lemma session_bill_exact_witness :
  exists a rs a', spawn_with_pruning [System "s"] demo_config default_pruning = Some a /\
    run [RecordModelCallUsage None (mkUsage 10 5 15 0 2) (Some 7%Z) (Some 3%Z); IncrementPromptIndex;
         RecordSubagentUsage [("n", from_call (mkUsage 1 1 2 0 0) None None)] true true] a = Some (rs, a') /\
    accounts (session_usage (state a'))
      [("m", from_call (mkUsage 10 5 15 0 2) (Some 7%Z) (Some 3%Z)); ("n", from_call (mkUsage 1 1 2 0 0) None None)] 1 true.
Proof.
  destruct (session_bill_exact [System "s"] demo_config default_pruning
    [RecordModelCallUsage None (mkUsage 10 5 15 0 2) (Some 7%Z) (Some 3%Z); IncrementPromptIndex;
     RecordSubagentUsage [("n", from_call (mkUsage 1 1 2 0 0) None None)] true true]) as (a & rs & a' & Es & Er & Ha);
    [by repeat constructor..|].
  exists a, rs, a'. split; [exact Es|]. split; [exact Er|]. vm_compute in Es. injection Es as <-. exact Ha.
Defined.
