(* ===== verification/ChatCompaction.v ===== *)
(** * Compacting a chat (ccode-chat/src/compaction_utils.rs)

    Fitting a conversation into the window of the summarising model, telling
    real user messages from injected ones, and the conversation that takes
    the place of the compacted one. *)

From S2P Require Import Prelude RustStr TextLines TextFind F64 CompactSummary Conversation ChatRequest ChatState ChatInv.
From stdpp Require Import pretty.

(** ** Fitting a budget *)

Definition MARKER_RESERVE : Z := 64.
Definition truncation_marker (dropped : nat) : string :=
  str1 nl +:+ "[... truncated " +:+ show dropped +:+ " bytes to fit the compaction window ...]".

(** [None] when the text fits. *)
Definition truncate_text_to_bytes (s : string) (max_bytes : Z) : option string :=
  if (slen s <=? max_bytes)%Z then None
  else
    let keep := sat_sub max_bytes MARKER_RESERVE in
    let last := boundary_below s (Z.to_nat (Z.min keep (slen s))) in
    Some (str_take last s +:+ truncation_marker (String.length s - last)).

Definition truncated (s : string) (max_bytes : Z) : string := default s (truncate_text_to_bytes s max_bytes).

Definition truncate_item_to_tokens (i : ConversationItem) (max_tokens : Z) : ConversationItem :=
  let max_bytes := sat_mul64 max_tokens 4 in
  match i with
  | ToolResult t => ToolResult (set_result (truncated (tr_content t) max_bytes) t)
  | Assistant a => Assistant (set_a_content (truncated (a_content a) max_bytes) (tool_calls a) a)
  | User u =>
      User (mkUser ((fun p => match p with Text t => Text (truncated t max_bytes) | Image _ => p end) <$> u_content u)
              (synthetic_reason u) (cwd_generation u) (prior_turn_interrupt u) (u_prompt_index u))
  | _ => i
  end.

(** The results at the end, and what is before them; on the reversed list. *)
Fixpoint pop_results (rev_l : list ConversationItem) : list ConversationItem * list ConversationItem :=
  match rev_l with
  | ToolResult t :: l => let '(results, rest) := pop_results l in (ToolResult t :: results, rest)
  | _ => ([], rev_l)
  end.

Definition recover_truncated_tail_unit (body : list ConversationItem) (budget : Z) : option (list ConversationItem) :=
  let '(results, rest) := pop_results (reverse body) in
  let results := reverse results in
  match results with
  | [] => Some (match rest with i :: _ => [truncate_item_to_tokens i budget] | [] => [] end)
  | _ =>
      let owner := match rest with i :: _ => if has_calls i then Some i else None | [] => None end in
      owner_cost ← match owner with Some i => estimate_item_tokens i | None => Some 0%Z end;
      let result_budget := sat_sub budget owner_cost in
      let per := Z.max (result_budget / Z.of_nat (length results)) 1 in
      Some (option_list owner ++ ((fun r => truncate_item_to_tokens r per) <$> results))
  end.

(** The number of items, from the last one on, that fit. *)
Fixpoint kept_items (remaining : Z) (rev_l : list ConversationItem) : option nat :=
  match rev_l with
  | [] => Some 0
  | i :: l =>
      cost ← estimate_item_tokens i;
      if (remaining <? cost)%Z then Some 0 else S <$> kept_items (remaining - cost) l
  end.

Fixpoint skip_results (l : list ConversationItem) : list ConversationItem :=
  match l with ToolResult _ :: l' => skip_results l' | _ => l end.

Definition split_system (l : list ConversationItem) : list ConversationItem * list ConversationItem :=
  match l with System s :: l' => ([System s], l') | _ => ([], l) end.

Definition fit_conversation_to_budget (l : list ConversationItem) (max_tokens : Z) : option (list ConversationItem) :=
  total ← estimate_conversation_tokens l;
  if (total <=? max_tokens)%Z then Some l
  else
    let '(head, body) := split_system l in
    head_cost ← estimate_conversation_tokens head;
    let budget := sat_sub max_tokens head_cost in
    n ← kept_items budget (reverse body);
    match skip_results (drop (length body - n) body) with
    | [] => unit ← recover_truncated_tail_unit body budget; Some (head ++ unit)
    | suffix => Some (head ++ suffix)
    end.

(** ** Real user messages *)

Definition AUTO_CONTINUE_PROMPT : string :=
  "Continue the conversation from where it left off without asking the user any further questions. Resume directly - do not acknowledge the summary, do not recap what was happening, do not preface with "
  +:+ str1 "034" +:+ "I'll continue" +:+ str1 "034" +:+ " or similar." +:+ str1 nl
  +:+ "Pick up the last task as if the break never happened.".

Definition is_synthetic_extracted_query (s : string) : bool :=
  bool_decide (s = "") || bool_decide (s = "__auto_continue__") || bool_decide (s = AUTO_CONTINUE_PROMPT).

(** [extract_user_query(&item.text_content())] of a user item. *)
Definition query_of (u : UserItem) : string := extract_user_query (join_char nl (parts_text (u_content u))).

Definition is_real_user_turn (i : ConversationItem) : bool :=
  match i with
  | User u =>
      match synthetic_reason u with
      | Some _ => false
      | None => match image_urls (u_content u) with
                | _ :: _ => true
                | [] => negb (is_synthetic_extracted_query (query_of u))
                end
      end
  | _ => false
  end.

Definition user_query (i : ConversationItem) : option string := match i with User u => Some (query_of u) | _ => None end.

Definition extract_real_user_queries (l : list ConversationItem) : list string :=
  omap (fun i => if is_real_user_turn i then user_query i else None) l.

Fixpoint find_real_query (rev_l : list ConversationItem) : option string :=
  match rev_l with
  | [] => None
  | i :: l => if is_real_user_turn i then user_query i else find_real_query l
  end.
Definition extract_last_real_user_query (l : list ConversationItem) : option string := find_real_query (reverse l).

Definition OMITTED : string := "Tool call omitted...".
Definition recent_item (i : ConversationItem) : option ConversationItem :=
  match i with
  | Assistant a => Some (Assistant a)
  | ToolResult t => Some (ToolResult (mkResult (tool_call_id t) OMITTED []))
  | _ => None
  end.

(** What follows the last item with the property; all when there is none. *)
Fixpoint after_last (p : ConversationItem -> bool) (l : list ConversationItem) : option (list ConversationItem) :=
  match l with
  | [] => None
  | i :: l' => match after_last p l' with
               | Some r => Some r
               | None => if p i then Some l' else None
               end
  end.

Definition extract_messages_since_last_user (l : list ConversationItem) : list ConversationItem :=
  omap recent_item (default l (after_last is_user l)).
Definition extract_messages_since_last_real_user (l : list ConversationItem) : list ConversationItem :=
  omap recent_item (default l (after_last is_real_user_turn l)).

(** ** The state kept over a compaction *)

Record RunningSubagentSummary := mkSubagent {
  subagent_id : string; subagent_type : string; sub_description : string; elapsed_ms : Z
}.
Record BackgroundTaskSummary := mkTask {
  task_id : string; command : string; task_status : string; task_tool_name : option string
}.
Record CompactionServerSummary := mkServer {
  server_name : string; tool_count : nat; server_description : option string
}.
Inductive TodoSummaryStatus := TodoPending | TodoInProgress | TodoCompleted | TodoCancelled.
Definition is_actionable (s : TodoSummaryStatus) : bool :=
  match s with TodoPending | TodoInProgress => true | _ => false end.
Definition todo_tag (s : TodoSummaryStatus) : string :=
  match s with
  | TodoPending => "[pending]" | TodoInProgress => "[in_progress]"
  | TodoCompleted => "[completed]" | TodoCancelled => "[cancelled]"
  end.
Record TodoSummary := mkTodo { todo_id : string; todo_content : string; todo_status : TodoSummaryStatus }.

Record CompactionStateContext := mkContext {
  ctx_cwd_generation : Z;
  destination_project_instructions : option string;
  recent_messages : list ConversationItem;
  last_user_query : option string;
  edited_paths : list string;
  running_tasks : list BackgroundTaskSummary;
  running_subagents : list RunningSubagentSummary;
  connected_mcp_servers : list CompactionServerSummary;
  todos : list TodoSummary
}.

(** The paths come from a sorted set. *)
Record CompactionInputs := mkInputs {
  in_cwd_generation : Z;
  in_project_instructions : option string;
  in_tasks : list BackgroundTaskSummary;
  in_subagents : list RunningSubagentSummary;
  in_edited_paths : list string;
  in_servers : list CompactionServerSummary;
  in_todos : list TodoSummary
}.

Definition build_context (l : list ConversationItem) (i : CompactionInputs) : CompactionStateContext :=
  mkContext (in_cwd_generation i) (in_project_instructions i) (extract_messages_since_last_real_user l)
    (extract_last_real_user_query l) (in_edited_paths i) (in_tasks i) (in_subagents i) (in_servers i) (in_todos i).

Definition task_summary (id cmd status : string) (tool : option string) : BackgroundTaskSummary := mkTask id cmd status tool.

Definition for_compaction (c : CompactionStateContext) : CompactionStateContext :=
  mkContext (ctx_cwd_generation c) (destination_project_instructions c) [] (last_user_query c) (edited_paths c)
    (running_tasks c) (running_subagents c) (connected_mcp_servers c) (todos c).

(** ** Texts *)

(** The cleaning of the summary, its floor and the wrapping of a query are
    the same code in both crates. *)
Definition chat_format_compact_summary_content : string -> string := CompactSummary.format_compact_summary_content.
Definition chat_is_degenerate_summary : string -> bool := CompactSummary.is_degenerate_summary.
Definition chat_wrap_user_query : string -> string := CompactSummary.wrap_user_query.

Definition MAX_CAPTURED_SUMMARY_CHARS : Z := 8192.
Definition bound_captured_output (s : string) (max_chars : nat) : string :=
  let total := chars_count s in
  if total <=? max_chars then s
  else
    let head := max_chars / 2 in
    let tail := max_chars - head in
    chars_take head s +:+ str1 nl +:+ str1 nl +:+ "…[" +:+ show (total - head - tail) +:+ " chars elided]…"
      +:+ str1 nl +:+ str1 nl +:+ chars_skip (total - tail) s.

Definition format_transcript_location (path : string) : string :=
  str1 nl +:+ str1 nl +:+ "<transcript_location>" +:+ str1 nl
  +:+ "The full, unsummarized transcript of this conversation is saved at:" +:+ str1 nl +:+ path +:+ str1 nl
  +:+ "If you need details that were dropped from the summary above (exact code, error text, file contents, or earlier tool output), read this file to recover them."
  +:+ str1 nl +:+ "</transcript_location>".

(** ** The compacted history *)

(** [summary_before_recent] and [summary_count] are read only by a carrier
    format that is not compiled in. *)
Record CompactedHistoryInput := mkHistoryInput {
  system_message : ConversationItem;
  user_message_prefix : string;
  agents_md_reminder : option string;
  state_context : CompactionStateContext;
  compaction_summary : string;
  h_system_reminder : option string;
  summary_before_recent : bool;
  transcript_hint : option string;
  summary_count : Z
}.

Definition build_compacted_history (i : CompactedHistoryInput) : list ConversationItem :=
  let c := state_context i in
  let summary_item := user_meta (chat_format_compact_summary_content (compaction_summary i) +:+ default "" (transcript_hint i)) in
  let instructions := if (ctx_cwd_generation c =? 0)%Z then agents_md_reminder i else destination_project_instructions c in
  [system_message i; user_meta (user_message_prefix i)]
  ++ option_list (project_instructions <$> instructions)
  ++ option_list ((fun q => user (chat_wrap_user_query q)) <$> last_user_query c)
  ++ recent_messages c ++ [summary_item]
  ++ option_list (system_reminder <$> h_system_reminder i).

(** ** Properties of the fitting *)

(** What pairing depends on. *)
Definition pair_key (i : ConversationItem) : string + list string :=
  match i with ToolResult t => inl (tool_call_id t) | _ => inr (call_id <$> calls_of i) end.

Lemma paired_keys ids l k : pair_key <$> l = pair_key <$> k -> paired ids l = paired ids k.
Proof.
  revert ids k. induction l as [|x l IH]; intros ids [|y k] Hk; try done. cbn in Hk. injection Hk as Hx Hk.
  destruct (is_result x) eqn:Ex.
  - destruct x; try done. destruct y; try done. cbn in Hx |- *. injection Hx as ->. by rewrite (IH _ k).
  - assert (is_result y = false) as Ey by (by destruct x; try done; destruct y).
    assert (call_id <$> calls_of x = call_id <$> calls_of y) as Hc by (destruct x; try done; destruct y; try done; by injection Hx).
    assert (forall z l, is_result z = false -> paired ids (z :: l) = bool_decide (ids = []) && paired (call_id <$> calls_of z) l) as E
      by (intros z l'; by destruct z).
    by rewrite !E, Hc, (IH _ k).
Qed.

Lemma truncate_key i n : pair_key (truncate_item_to_tokens i n) = pair_key i.
Proof. by destruct i. Qed.

Lemma paired_from ids l x k : is_result x = false -> paired ids (l ++ x :: k) = true -> paired [] (x :: k) = true.
Proof.
  intros Hx. revert ids. induction l as [|y l IH]; intros ids Hp.
  - cbn [app] in Hp. destruct x; try done; cbn in Hp |- *; by apply andb_true_iff in Hp as [_ ?].
  - destruct (is_result y) eqn:Ey; destruct y; try done; cbn in Hp; apply andb_true_iff in Hp as [_ Hp]; by eapply IH.
Qed.

(** A run of results has an owner. *)
Lemma paired_owner l x results :
  is_result x = false -> Forall (fun i => is_result i = true) results -> results <> [] ->
  paired [] (l ++ x :: results) = true -> has_calls x = true.
Proof.
  intros Hx Hr Hne Hp. apply paired_from in Hp; [|done]. destruct results as [|r results]; [done|].
  apply Forall_cons in Hr as [Hr _]. destruct r; try done. destruct x as [| |[? []]| | |]; try done.
Qed.

Lemma pop_results_spec l :
  let '(results, rest) := pop_results l in
  l = results ++ rest /\ Forall (fun i => is_result i = true) results /\
  match rest with x :: _ => is_result x = false | [] => True end.
Proof.
  induction l as [|x l IH]; [done|]. cbn [pop_results]. destruct x; try (by repeat split).
  destruct (pop_results l) as [results rest]. destruct IH as (-> & Hr & Hrest). by repeat split; [constructor|].
Qed.

Lemma skip_results_spec l :
  exists pre, l = pre ++ skip_results l /\ Forall (fun i => is_result i = true) pre /\
    match skip_results l with x :: _ => is_result x = false | [] => True end.
Proof.
  induction l as [|x l IH]; [by exists []|]. destruct x; cbn [skip_results]; try (by exists []).
  destruct IH as (pre & E & Hp & Hx). exists (ToolResult t :: pre). split_and!; [cbn; by f_equal|by constructor|done].
Qed.

Definition cost (i : ConversationItem) : Z := default 0%Z (estimate_item_tokens i).
Fixpoint weight (l : list ConversationItem) : Z := match l with [] => 0 | i :: l' => cost i + weight l' end.

Lemma total_len_nonneg l : (0 <= total_len l)%Z.
Proof. unfold total_len. induction l as [|s l IH]; cbn; [done|]. unfold slen at 1. lia. Qed.

Lemma cost_nonneg i : (0 <= cost i)%Z.
Proof.
  unfold cost. destruct i; cbn -[Z.div Z.mul]; unfold estimate_tokens, estimate_image_tokens, BYTES_PER_TOKEN, sat_mul64, slen, u64_max;
    try (apply Z.div_pos; [|done]); pose proof (total_len_nonneg) as Ht; try lia.
  - assert (0 <= total_len (parts_text (u_content u)) / 4)%Z by (apply Z.div_pos; [apply Ht|done]). unfold IMAGE_TOKEN_ESTIMATE. lia.
  - specialize (Ht (arguments <$> tool_calls a)). lia.
  - destruct (text_summary k); cbn -[Z.div]; [apply Z.div_pos; lia|done].
  - specialize (Ht (option_list (encrypted_content r))). lia.
Qed.

Lemma weight_app l k : weight (l ++ k) = (weight l + weight k)%Z.
Proof. induction l as [|i l IH]; cbn; [done|]. rewrite IH. lia. Qed.

Lemma weight_reverse l : weight (reverse l) = weight l.
Proof. induction l as [|i l IH]; [done|]. rewrite reverse_cons, weight_app, IH. cbn. lia. Qed.

Lemma weight_nonneg l : (0 <= weight l)%Z.
Proof. induction l as [|i l IH]; cbn; [done|]. pose proof (cost_nonneg i). lia. Qed.

Lemma plain_cost i : plain i -> estimate_item_tokens i = Some (cost i).
Proof. intros [n Hn]%plain_tokens. unfold cost. by rewrite Hn. Qed.

(** The newest item, or the newest call with its results, with their texts
    cut: each result gets an equal share of what the call leaves. *)
Definition cut_exchange (budget : Z) (x : ConversationItem) (results : list ConversationItem) : list ConversationItem :=
  match results with
  | [] => [truncate_item_to_tokens x budget]
  | _ => x :: ((fun r => truncate_item_to_tokens r (Z.max (sat_sub budget (cost x) / Z.of_nat (length results)) 1)) <$> results)
  end.

Definition newest_exchange (l dropped : list ConversationItem) (x : ConversationItem) (results : list ConversationItem) : Prop :=
  l = dropped ++ x :: results /\ is_result x = false /\ Forall (fun i => is_result i = true) results.

Lemma cut_exchange_keys budget x rs : pair_key <$> cut_exchange budget x rs = pair_key <$> x :: rs.
Proof.
  destruct rs as [|r rs]; cbn [cut_exchange]; [cbn; by rewrite truncate_key|].
  set (per := Z.max _ _). clearbody per. generalize (r :: rs). clear r rs. intros l. cbn. f_equal.
  rewrite <- list_fmap_compose. apply list_fmap_ext. intros i y _. apply truncate_key.
Qed.

Lemma cut_exchange_paired budget l dropped x rs :
  newest_exchange l dropped x rs -> paired [] l = true -> paired [] (cut_exchange budget x rs) = true.
Proof.
  intros (-> & Hx & _) Hp. rewrite (paired_keys [] _ _ (cut_exchange_keys budget x rs)). by apply (paired_from [] dropped).
Qed.

(** What is recovered when nothing fits. *)
Lemma recover_exact body budget :
  Forall plain body -> paired [] body = true ->
  (body = [] /\ recover_truncated_tail_unit body budget = Some []) \/
  exists dropped x rs, newest_exchange body dropped x rs /\ recover_truncated_tail_unit body budget = Some (cut_exchange budget x rs).
Proof.
  intros Ha Hp. unfold recover_truncated_tail_unit. pose proof (pop_results_spec (reverse body)) as Hs.
  destruct (pop_results (reverse body)) as [rs rest]. destruct Hs as (E & Hr & Hx).
  assert (body = reverse rest ++ reverse rs) as Eb by (rewrite <- reverse_app, <- E; by rewrite reverse_involutive).
  apply Forall_reverse in Hr. destruct rest as [|x rest].
  - destruct (reverse rs) as [|r results] eqn:Ers; [by left; subst body|].
    subst body. apply Forall_cons in Hr as [Hr0 _]. by destruct r.
  - rewrite reverse_cons, <- app_assoc in Eb. cbn [app] in Eb. right. exists (reverse rest), x, (reverse rs).
    split; [done|]. destruct (reverse rs) as [|r results]; [done|].
    assert (has_calls x = true) as -> by (apply (paired_owner (reverse rest) x (r :: results)); [done|done|done|by rewrite <- Eb]).
    assert (plain x) as Hpl by (subst body; apply Forall_app in Ha as [_ Ha]; by apply Forall_cons in Ha as [? _]).
    by rewrite (plain_cost x Hpl).
Qed.

(** Without overflow the estimate is the sum. *)
Lemma estimate_weight l : Forall plain l -> (weight l <= u64_max)%Z -> estimate_conversation_tokens l = Some (weight l).
Proof.
  intros Hl Hw. unfold estimate_conversation_tokens.
  assert (mapM estimate_item_tokens l = Some (cost <$> l)) as ->.
  { apply mapM_Some. induction Hl as [|i l Hi Hl IH]; cbn in *; constructor; [by apply plain_cost|].
    apply IH. pose proof (cost_nonneg i). lia. }
  cbn. f_equal. unfold sum_u64.
  assert (forall acc, (0 <= acc)%Z -> (acc + weight l <= u64_max)%Z -> foldl u64_add acc (cost <$> l) = (acc + weight l)%Z) as Hf.
  { clear. induction l as [|i l IH]; intros acc H0 Hm; cbn in *; [lia|]. pose proof (cost_nonneg i). pose proof (weight_nonneg l).
    rewrite u64_add_small by lia. rewrite IH by lia. lia. }
  by rewrite Hf.
Qed.

Lemma kept_items_spec remaining l :
  Forall plain l -> (0 <= remaining)%Z ->
  exists n, kept_items remaining l = Some n /\ n <= length l /\ (weight (take n l) <= remaining)%Z /\
    forall x, l !! n = Some x -> (remaining < cost x + weight (take n l))%Z.
Proof.
  intros Hl. revert remaining. induction Hl as [|i l Hi Hl IH]; intros remaining Hr; [by exists 0|].
  cbn [kept_items]. rewrite (plain_cost i Hi). cbn [mbind option_bind].
  destruct (Z.ltb_spec remaining (cost i)); [exists 0; cbn; split_and!; [done|lia|lia|intros x [= <-]; lia]|].
  destruct (IH (remaining - cost i)%Z ltac:(lia)) as (n & -> & Hn & Hw & Hm). exists (S n). cbn. split_and!; [done|lia|lia|].
  intros x Hx%Hm. lia.
Qed.

Definition system_prompt (l : list ConversationItem) : list ConversationItem :=
  match l with System s :: _ => [System s] | _ => [] end.

Lemma split_system_spec l :
  let '(head, body) := split_system l in
  l = head ++ body /\ head = system_prompt l /\ (forall k, paired [] (head ++ k) = paired [] k).
Proof. destruct l as [|[] l]; cbn; by repeat constructor. Qed.

(** The longest end of a conversation that fits. *)
Definition newest_fitting (budget : Z) (old recent : list ConversationItem) : Prop :=
  (weight recent <= budget)%Z /\ forall x, last old = Some x -> (budget < cost x + weight recent)%Z.

Lemma kept_items_newest budget body :
  Forall plain body -> (0 <= budget)%Z ->
  exists n, kept_items budget (reverse body) = Some n /\
    newest_fitting budget (take (length body - n) body) (drop (length body - n) body).
Proof.
  intros Hb H0. destruct (kept_items_spec budget (reverse body)) as (n & Hk & Hn & Hw & Hm); [by apply Forall_reverse|done|].
  rewrite length_reverse in Hn. rewrite take_reverse, weight_reverse in Hw, Hm. exists n. split; [done|]. split; [done|].
  intros x Hx. apply Hm. rewrite last_lookup, length_take in Hx.
  apply lookup_take_Some in Hx as [Hx Hlt]. rewrite reverse_lookup by (apply lookup_lt_Some in Hx; lia).
  rewrite <- Hx. f_equal. lia.
Qed.

(** What is left of a conversation that does not fit: the system prompt, and of
    the rest the longest end that fits without the results at its front, whose
    call is gone; when only such results fit, or nothing, the newest exchange
    with its texts cut. *)
Definition fitted (budget : Z) (body kept : list ConversationItem) : Prop :=
  exists old orphans recent, body = old ++ orphans ++ recent /\ newest_fitting budget old (orphans ++ recent) /\
    Forall (fun i => is_result i = true) orphans /\
    match recent with
    | i :: _ => is_result i = false /\ kept = recent
    | [] => (body = [] /\ kept = []) \/ exists dropped x rs, newest_exchange body dropped x rs /\ kept = cut_exchange budget x rs
    end.

Lemma fitted_paired budget body kept : paired [] body = true -> fitted budget body kept -> paired [] kept = true.
Proof.
  intros Hp (old & orphans & [|x recent] & E & _ & _ & H).
  - destruct H as [[-> ->]|(d & x & rs & Hn & ->)]; [done|]. by apply (cut_exchange_paired _ body d).
  - destruct H as [Hx ->]. apply (paired_from [] (old ++ orphans)); [done|]. by rewrite <- app_assoc, <- E.
Qed.

(** C18.  A conversation fitted into a budget stays acceptable.  Of a paired
    conversation whose items can be summarised and whose estimate does not
    overflow it is the whole when that fits; else the system prompt, if the
    conversation starts with one, and the newest items that fit into what the
    prompt leaves, but for results whose call does not fit; and when there are
    none, the newest item or call with its results, with their texts cut.
    The pairing of calls and results survives. *)
Theorem fit_keeps_pairs l max_tokens :
  Forall plain l -> paired [] l = true -> (weight l <= u64_max)%Z ->
  exists out, fit_conversation_to_budget l max_tokens = Some out /\ paired [] out = true /\
    ((weight l <= max_tokens)%Z -> out = l) /\
    ((max_tokens < weight l)%Z ->
       exists body kept, l = system_prompt l ++ body /\ out = system_prompt l ++ kept /\
         fitted (sat_sub max_tokens (weight (system_prompt l))) body kept).
Proof.
  intros Ha Hp Hw. unfold fit_conversation_to_budget. rewrite (estimate_weight l) by done. cbn [mbind option_bind].
  destruct (Z.leb_spec (weight l) max_tokens) as [Hfit|Hbig]; [exists l; split_and!; [done|done|done|lia]|].
  pose proof (split_system_spec l) as Hs. destruct (split_system l) as [head body]. destruct Hs as (El & Eh & Hpair).
  rewrite El in Ha, Hp. rewrite El, weight_app in Hw. apply Forall_app in Ha as [Hah Hab]. rewrite Hpair in Hp.
  pose proof (weight_nonneg head). pose proof (weight_nonneg body).
  rewrite (estimate_weight head) by (done || lia). cbn [mbind option_bind]. rewrite <- Eh.
  set (budget := sat_sub max_tokens (weight head)).
  destruct (kept_items_newest budget body Hab) as (n & -> & Hn); [unfold budget, sat_sub; lia|].
  cbn [mbind option_bind]. enough (exists kept, fitted budget body kept /\
    match skip_results (drop (length body - n) body) with
    | [] => unit ← recover_truncated_tail_unit body budget; Some (head ++ unit)
    | suffix => Some (head ++ suffix) end = Some (head ++ kept)) as (kept & Hk & ->).
  { exists (head ++ kept). split_and!; [done| |lia|by exists body, kept]. rewrite Hpair. by eapply fitted_paired. }
  destruct (skip_results_spec (drop (length body - n) body)) as (orphans & E & Ho & Hx).
  assert (body = take (length body - n) body ++ orphans ++ skip_results (drop (length body - n) body)) as Eb
    by (rewrite <- E; by rewrite take_drop).
  rewrite E in Hn. destruct (skip_results (drop (length body - n) body)) as [|y suf] eqn:Esuf.
  - destruct (recover_exact body budget Hab Hp) as [[Ebody ->]|(d & x & rs & Hd & ->)]; eexists; (split; [|done]);
      eexists _, orphans, []; (split_and!; [done..|]); [by left|right; by exists d, x, rs].
  - exists (y :: suf). split; [|done]. by eexists _, orphans, (y :: suf).
Qed.

Lemma fit_keeps_pairs_witness :
  let l := [System "s"; user "hello there"; demo_call; tool_result "1" "a long text"] in
  exists out, fit_conversation_to_budget l 2 = Some out /\ paired [] out = true /\ ((weight l <= 2)%Z -> out = l) /\
    ((2 < weight l)%Z ->
       exists body kept, l = system_prompt l ++ body /\ out = system_prompt l ++ kept /\
         fitted (sat_sub 2 (weight (system_prompt l))) body kept).
Proof.
  apply (fit_keeps_pairs [System "s"; user "hello there"; demo_call; tool_result "1" "a long text"] 2);
    [by repeat constructor|by vm_compute|by vm_compute].
Defined.

(** The arguments of a call are never cut: the fitted conversation can be
    larger than the budget. *)
Lemma fit_exceeds_budget :
  let l := [user "go"; assistant_tool_calls [mkCall "1" "write" "0123456789012345678901234567890123456789"]; tool_result "1" "ok"] in
  exists out, fit_conversation_to_budget l 5 = Some out /\ (5 < weight out)%Z.
Proof. eexists. split; by vm_compute. Qed.

Lemma pretty_go_length k x s : (x < 10 ^ N.of_nat k)%N -> String.length (pretty_N_go x s) <= k + String.length s.
Proof.
  revert x s. induction k as [|k IH]; intros x s Hx.
  - assert (x = 0%N) as -> by (cbn in Hx; lia). done.
  - destruct (decide (x = 0%N)) as [->|Hn]; [rewrite pretty_N_go_0; lia|].
    rewrite pretty_N_go_step by lia. etransitivity; [apply IH|cbn; lia].
    apply N.Div0.div_lt_upper_bound. rewrite Nat2N.inj_succ, N.pow_succ_r' in Hx. lia.
Qed.

Lemma show_length k n : 0 < k -> (N.of_nat n < 10 ^ N.of_nat k)%N -> String.length (show n) <= k.
Proof.
  intros Hk Hn. unfold show, pretty, pretty_N. case_decide; [cbn; lia|].
  etransitivity; [by apply pretty_go_length|cbn; lia].
Qed.

(** A cut text fits: with a limit of at least the reserve and less than a
    hundred million bytes, it is at most the limit long, it is the longest
    prefix of whole characters the reserve leaves room for, followed by the
    number of bytes left out; shorter texts are not touched. *)
Theorem truncation_fits s max_bytes :
  (MARKER_RESERVE <= max_bytes)%Z -> (slen s < 100000000)%Z ->
  match truncate_text_to_bytes s max_bytes with
  | None => (slen s <= max_bytes)%Z
  | Some out =>
      (max_bytes < slen s)%Z /\ (slen out <= max_bytes)%Z /\
      exists n, out = str_take n s +:+ truncation_marker (String.length s - n) /\ is_char_boundary s n = true /\
        (Z.of_nat n <= max_bytes - MARKER_RESERVE)%Z /\
        forall k, (Z.of_nat n < Z.of_nat k <= max_bytes - MARKER_RESERVE)%Z -> is_char_boundary s k = false
  end.
Proof.
  intros Hm Hs. unfold truncate_text_to_bytes. destruct (Z.leb_spec (slen s) max_bytes) as [Hle|Hgt]; [done|].
  split; [done|]. unfold MARKER_RESERVE, slen in *.
  assert (Z.to_nat (Z.min (sat_sub max_bytes 64) (Z.of_nat (String.length s))) = Z.to_nat (max_bytes - 64)) as ->
    by (unfold sat_sub; lia).
  destruct (boundary_below_spec s (Z.to_nat (max_bytes - 64))) as (H1 & H2 & H3). set (n := boundary_below _ _) in *.
  split.
  - assert (String.length (show (String.length s - n)) <= 8) as Hd by (apply show_length; [lia|cbn; lia]).
    unfold truncation_marker. rewrite !length_str_app, length_str_take. cbn. lia.
  - exists n. split_and!; [done|done|lia|]. intros k Hk. apply H3. lia.
Qed.

Lemma truncation_fits_witness :
  match truncate_text_to_bytes "0123456789012345678901234567890123456789012345678901234567890123456789" 66 with
  | None => False
  | Some out => (slen out <= 66)%Z
  end.
Proof.
  pose proof (truncation_fits "0123456789012345678901234567890123456789012345678901234567890123456789" 66 ltac:(by vm_compute) ltac:(by vm_compute)) as H.
  destruct (truncate_text_to_bytes _ 66) as [out|]; [apply H|]. by vm_compute in H.
Defined.

(** Below the reserve the cut text is longer than the limit, and than the text. *)
Lemma truncation_grows :
  exists out, truncate_text_to_bytes "hello" 4 = Some out /\ (slen "hello" < slen out)%Z.
Proof. eexists. split; by vm_compute. Qed.

(** ** The last query over a compaction *)

Lemma ws_prefix_nl s : s <> "" -> ws_prefix s = 0 -> ws_prefix (s +:+ str1 nl) = 0.
Proof.
  destruct s as [|a [|b [|c s]]]; [done|..]; intros _; rewrite ?str_app_cons, ?str_app_nil_l; unfold str1; cbn -[byte_in].
  - destruct (byte_in 9 13 a || byte_in 32 32 a); [done|]. intros _. rewrite !(andb_comm _ (byte_in _ _ nl || _)).
    by destruct (byte_in 194 194 a).
  - destruct (byte_in 9 13 a || byte_in 32 32 a); [done|].
    destruct (byte_in 194 194 a && (byte_in 133 133 b || byte_in 160 160 b)); [done|]. intros _.
    destruct (byte_in 225 225 a), (byte_in 226 226 a), (byte_in 227 227 a), (byte_in 154 154 b), (byte_in 128 128 b), (byte_in 129 129 b); reflexivity.
  - done.
Qed.

Lemma ws_prefix_more s t k : ws_prefix s = S k -> ws_prefix (s +:+ t) = S k.
Proof.
  destruct s as [|a [|b [|c s]]]; [done|..]; rewrite ?str_app_cons, ?str_app_nil_l; cbn -[byte_in].
  - by destruct (byte_in 9 13 a || byte_in 32 32 a).
  - destruct (byte_in 9 13 a || byte_in 32 32 a); [done|].
    by destruct (byte_in 194 194 a && (byte_in 133 133 b || byte_in 160 160 b)).
  - done.
Qed.

Lemma trim_start_nl k s :
  trim_start_from k (s +:+ str1 nl) =
  if bool_decide (trim_start_from k s = "") then "" else trim_start_from k s +:+ str1 nl.
Proof.
  revert k. induction s as [|c s IH]; intros k; [by destruct k|]. rewrite str_app_cons. destruct k as [|k]; [|apply IH].
  cbn [trim_start_from]. destruct (ws_prefix (String c s)) as [|k] eqn:E.
  - pose proof (ws_prefix_nl (String c s) ltac:(done) E) as E'. rewrite str_app_cons in E'. rewrite E'.
    by rewrite bool_decide_false, str_app_cons.
  - pose proof (ws_prefix_more (String c s) (str1 nl) k E) as E'. rewrite str_app_cons in E'. rewrite E'. apply IH.
Qed.

Lemma trim_end_nl_suffix s : trim_end (s +:+ str1 nl) = trim_end s.
Proof.
  induction s as [|c s IH]; [done|]. rewrite str_app_cons. cbn [trim_end]. rewrite IH. unfold trim_start.
  pose proof (trim_start_nl 0 (String c s)) as E. rewrite str_app_cons in E. rewrite E.
  generalize (trim_start_from 0 (String c s)). intros t. destruct (decide (t = "")) as [->|H]; [done|].
  rewrite !(bool_decide_false (t = "")) by done. rewrite bool_decide_false; [done|]. by destruct t.
Qed.

Lemma trim_lines q : trim q = q -> trim (String nl (q +:+ str1 nl)) = q.
Proof.
  intros Hq. unfold trim in *. change (trim_start (String nl (q +:+ str1 nl))) with (trim_start_from 0 (q +:+ str1 nl)).
  rewrite trim_start_nl. change (trim_start_from 0 q) with (trim_start q). case_bool_decide as H.
  - rewrite H in Hq. by rewrite <- Hq.
  - by rewrite trim_end_nl_suffix.
Qed.

Lemma find_after_line t p r :
  has_char nl t = false -> t <> "" -> str_contains t p = false -> starts_with t r = true ->
  find_str t (p +:+ String nl r) = Some (String.length p + 1).
Proof.
  intros Ht Hne. assert (forall k, starts_with t (String nl k) = false) as Hnl.
  { intros k. destruct (starts_with t (String nl k)) eqn:E; [|done]. destruct t as [|a t]; [done|].
    by apply (starts_with_line _ "" k) in E. }
  induction p as [|c p IH]; intros Hp Hr.
  - rewrite str_app_nil_l. cbn [find_str]. rewrite Hnl. destruct r as [|d r]; [by destruct t|]. cbn [find_str]. by rewrite Hr.
  - cbn [str_contains] in Hp. apply orb_false_iff in Hp as [Hs Hp]. rewrite str_app_cons. cbn [find_str].
    destruct (starts_with t (String c (p +:+ _))) eqn:E.
    + assert (starts_with t (String c p +:+ String nl r) = true) as E' by (by rewrite str_app_cons).
      apply starts_with_line in E'; [|done]. by rewrite Hs in E'.
    + rewrite IH by done. done.
Qed.

(** A query without markup of its own. *)
Definition clean_query (q : string) : Prop :=
  trim q = q /\ str_contains (close_tag "user_query") q = false /\
  Forall (fun tag => str_contains (open_tag tag) q = false) SYSTEM_TAGS /\ is_synthetic_extracted_query q = false.

Lemma strip_clean q tags :
  Forall (fun tag => str_contains (open_tag tag) q = false) tags ->
  foldl (fun s tag => strip_blocks (String.length s) tag s) q tags = q.
Proof.
  induction 1 as [|tag tags Ht Htags IH]; [done|]. cbn [foldl].
  assert (strip_blocks (String.length q) tag q = q) as ->; [|done].
  destruct (String.length q); [done|]. cbn [strip_blocks]. by rewrite (proj2 (find_str_none _ _) Ht).
Qed.

Lemma extract_wrapped q : clean_query q -> extract_user_query (chat_wrap_user_query q) = q.
Proof.
  intros (Ht & Hc & Htags & _). unfold extract_user_query, chat_wrap_user_query, wrap_user_query.
  set (body := String nl (q +:+ String nl (close_tag "user_query"))).
  assert ("<user_query>" +:+ str1 nl +:+ q +:+ str1 nl +:+ "</user_query>" = open_tag "user_query" +:+ body) as -> by reflexivity.
  assert (find_str (open_tag "user_query") (open_tag "user_query" +:+ body) = Some 0) as -> by reflexivity.
  assert (str_drop (0 + String.length (open_tag "user_query")) (open_tag "user_query" +:+ body) = body) as -> by reflexivity.
  assert (body = String nl q +:+ String nl (close_tag "user_query")) as Eb by (unfold body; by rewrite str_app_cons).
  rewrite Eb, find_after_line by (done || (cbn [str_contains]; by rewrite Hc)). cbv zeta.
  assert (str_take (String.length (String nl q) + 1) (String nl q +:+ String nl (close_tag "user_query")) = String nl (q +:+ str1 nl)) as ->.
  { change (String nl (close_tag "user_query")) with (str1 nl +:+ close_tag "user_query").
    rewrite <- str_app_assoc, str_app_cons.
    replace (String.length (String nl q) + 1) with (String.length (String nl (q +:+ str1 nl))) by (cbn; rewrite length_str_app; cbn; lia).
    rewrite <- str_app_cons. apply str_take_app. }
  rewrite trim_lines by done. unfold strip_system_tags. by rewrite strip_clean.
Qed.

Lemma after_last_spec p l r :
  after_last p l = Some r -> exists pre x, l = pre ++ x :: r /\ p x = true.
Proof.
  induction l as [|i l IH]; cbn; [done|]. destruct (after_last p l) as [r'|].
  - intros [= ->]. destruct IH as (pre & x & -> & Hx); [done|]. by exists (i :: pre), x.
  - destruct (p i) eqn:E; [|done]. intros [= <-]. by exists [], i.
Qed.

Lemma paired_recent ids seen l :
  paired ids l = true -> (forall i, i ∈ ids -> i ∈ seen) -> invalid_from seen (omap recent_item l) = [].
Proof.
  revert ids seen. induction l as [|x l IH]; intros ids seen Hp Hs; [done|].
  destruct x; cbn in Hp |- *; apply andb_true_iff in Hp as [H1 Hp]; try (eapply IH; [exact Hp|]; set_solver).
  apply bool_decide_eq_true in H1. rewrite bool_decide_true by auto.
  eapply IH; [exact Hp|]. intros i [_ Hi]%list_elem_of_filter. auto.
Qed.

Lemma invalid_app seen l k :
  invalid_from seen (l ++ k) = invalid_from seen l ++ invalid_from (seen ∪ list_to_set (call_id <$> (l ≫= calls_of))) k.
Proof.
  revert seen. induction l as [|x l IH]; intros seen.
  - cbn. by rewrite union_empty_r_L.
  - destruct x; cbn; rewrite ?IH; try done.
    + rewrite fmap_app, list_to_set_app_L. f_equal. f_equal. set_solver.
    + case_bool_decide; [done|]. by rewrite <- app_comm_cons.
Qed.

Lemma recent_not_user l : Forall (fun i => is_real_user_turn i = false) (omap recent_item l).
Proof. induction l as [|x l IH]; cbn; [done|]. destruct x; cbn; by repeat constructor. Qed.

Lemma find_real_app l k :
  Forall (fun i => is_real_user_turn i = false) l -> find_real_query (l ++ k) = find_real_query k.
Proof. induction 1 as [|i l Hi Hl IH]; cbn; [done|]. by rewrite Hi. Qed.

Lemma real_queries_none l :
  Forall (fun i => is_real_user_turn i = false) l -> extract_real_user_queries l = [].
Proof. induction 1 as [|i l Hi Hl IH]; cbn; [done|]. by rewrite Hi. Qed.

Definition no_exchange (i : ConversationItem) : Prop := calls_of i = [] /\ is_result i = false.

Lemma invalid_skip seen l k : Forall no_exchange l -> invalid_from seen (l ++ k) = invalid_from seen k.
Proof.
  induction 1 as [|i l [Hc Hr] Hl IH]; [done|]. destruct i; cbn in *; try done.
  rewrite Hc. cbn. by rewrite union_empty_l_L.
Qed.

(** C24.  A compaction keeps the turn it interrupts: from a paired conversation
    it makes one in which every result follows its call, and the only user
    query in it is the last real one, word for word, so that the next
    compaction finds it again; if that query is not empty or synthetic and
    contains neither the closing tag it is wrapped in nor an opening tag of the
    system. *)
Theorem compaction_keeps_turn l inputs i s q :
  paired [] l = true -> system_message i = System s -> state_context i = build_context l inputs ->
  extract_last_real_user_query l = Some q -> clean_query q ->
  validate_compacted_history (build_compacted_history i) = [] /\
  extract_real_user_queries (build_compacted_history i) = [q] /\
  extract_last_real_user_query (build_compacted_history i) = Some q.
Proof.
  intros Hp Hs Hc Hq Hclean. unfold build_compacted_history. rewrite Hs, Hc. cbn [last_user_query build_context recent_messages].
  rewrite Hq. cbn [fmap option_fmap option_map option_list].
  set (pi := if (_ =? 0)%Z then _ else _). set (sum := user_meta (_ +:+ _)).
  set (tail := sum :: option_list (system_reminder <$> h_system_reminder i)).
  set (recent := extract_messages_since_last_real_user l). set (query := user (chat_wrap_user_query q)).
  set (pre := [System s; user_meta (user_message_prefix i)] ++ option_list (project_instructions <$> pi)).
  match goal with |- validate_compacted_history ?o = [] /\ _ => assert (o = pre ++ query :: recent ++ tail) as -> end.
  { unfold pre, tail. by rewrite <- app_assoc. }
  assert (Forall no_exchange pre /\ Forall (fun i => is_real_user_turn i = false) pre) as [Hpre Hpre'].
  { unfold pre. destruct pi; cbn; split; by repeat constructor. }
  assert (Forall no_exchange tail /\ Forall (fun i => is_real_user_turn i = false) tail) as [Htail Htail'].
  { unfold tail, sum. destruct (h_system_reminder i); cbn; split; by repeat constructor. }
  assert (Forall (fun i => is_real_user_turn i = false) recent) as Hrec by apply recent_not_user.
  assert (query_of (mkUser [Text (chat_wrap_user_query q)] None None None None) = q) as Eq
    by (unfold query_of; cbn [u_content parts_text join_char]; by apply extract_wrapped).
  assert (is_real_user_turn query = true) as Hreal.
  { destruct Hclean as (_ & _ & _ & Hn). cbn. rewrite Eq. by rewrite Hn. }
  split_and!.
  - unfold validate_compacted_history. rewrite invalid_skip by done. cbn [invalid_from query user user_of].
    rewrite invalid_app. rewrite <- (app_nil_r tail), invalid_skip by done. rewrite app_nil_r.
    unfold recent, extract_messages_since_last_real_user. destruct (after_last is_real_user_turn l) as [r|] eqn:E; cbn [default].
    + apply after_last_spec in E as (p & x & -> & Hx). apply (paired_recent []); [|set_solver].
      destruct x; try done. apply paired_from in Hp; [|done]. by cbn in Hp.
    + apply (paired_recent [] ∅ l); [done|set_solver].
  - unfold extract_real_user_queries. rewrite omap_app. fold (extract_real_user_queries pre). rewrite real_queries_none by done.
    cbn [omap list_omap app]. rewrite Hreal. cbn [user_query query user user_of]. rewrite Eq. f_equal.
    apply real_queries_none. by apply Forall_app.
  - unfold extract_last_real_user_query. rewrite reverse_app, reverse_cons, <- app_assoc, find_real_app
      by (apply Forall_reverse; by apply Forall_app).
    cbn [app find_real_query]. rewrite Hreal. cbn [user_query query user user_of]. by rewrite Eq.
Qed.

Definition demo_input : CompactedHistoryInput :=
  mkHistoryInput (System "s") "prefix" None
    (build_context [System "s"; user "go"; demo_call; tool_result "1" "text"] (mkInputs 0 None [] [] [] [] []))
    "<summary>done</summary>" (Some "reminder") false None 1.
Lemma compaction_keeps_turn_witness :
  validate_compacted_history (build_compacted_history demo_input) = [] /\
  extract_real_user_queries (build_compacted_history demo_input) = ["go"] /\
  extract_last_real_user_query (build_compacted_history demo_input) = Some "go".
Proof.
  apply (compaction_keeps_turn [System "s"; user "go"; demo_call; tool_result "1" "text"] (mkInputs 0 None [] [] [] [] []) demo_input "s" "go");
    [by vm_compute|done|done|by vm_compute|]. split_and!; [by vm_compute|by vm_compute|by repeat constructor|by vm_compute].
Defined.

(** The query of a prompt that is only an image is the empty text, and one that
    contains a closing tag is cut there: the next compaction does not find
    them again. *)
Definition compact_once (q : ConversationItem) : list ConversationItem :=
  build_compacted_history (mkHistoryInput (System "s") "prefix" None
    (build_context [System "s"; q] (mkInputs 0 None [] [] [] [] [])) "<summary>done</summary>" None false None 1).
Lemma unclean_query_lost :
  extract_last_real_user_query [System "s"; user_with_parts [Image "data:"]] = Some "" /\
  extract_last_real_user_query (compact_once (user_with_parts [Image "data:"])) = None /\
  extract_last_real_user_query [System "s"; user "why </user_query> here"] = Some "why </user_query> here" /\
  extract_last_real_user_query (compact_once (user "why </user_query> here")) = Some "why".
Proof. by vm_compute. Qed.
