(* ===== verification/ShellWords.v ===== *)
(** * Words of shell commands (ccode-workspace/src/permission/bash_command_splitting.rs)

    The permission gates look at the words of a command after wrappers such as
    [timeout] and [env] and prefixes such as [exec] are peeled.  This file holds
    the scan of the options of [env], the peeling and its bounded fixed point,
    and the quoting helpers.  A slice [&[String]] is a list: every slice the code
    makes is a suffix of the words it started from. *)

From S2P Require Import Prelude RustStr TextLines TextFind.

Definition dquote : ascii := "034"%char.
Definition squote : ascii := "039"%char.
Definition bslash : ascii := "\"%char.
Definition nul_word : string := str1 "000"%char.

(** [s.strip_prefix(p)] *)
Fixpoint str_strip_prefix (p s : string) : option string :=
  match p, s with
  | EmptyString, _ => Some s
  | String a p', String b s' => if Ascii.eqb a b then str_strip_prefix p' s' else None
  | String _ _, EmptyString => None
  end.

(** [s.strip_suffix(p)] *)
Definition str_strip_suffix (p s : string) : option string :=
  let n := String.length s - String.length p in
  if bool_decide (String.length p <= String.length s /\ str_drop n s = p) then Some (str_take n s) else None.

Definition is_one_of (l : list string) (s : string) : bool := bool_decide (s ∈ l).

Fixpoint all_chars (f : ascii -> bool) (s : string) : bool :=
  match s with EmptyString => true | String a r => f a && all_chars f r end.
Definition any_char (f : ascii -> bool) (s : string) : bool := negb (all_chars (fun a => negb (f a)) s).

Definition is_sep (a : ascii) : bool := Ascii.eqb a "/"%char || Ascii.eqb a bslash.

(** [word.rsplit(['/', '\\']).next()]: what follows the last separator. *)
Fixpoint program_name (s : string) : string :=
  match s with
  | EmptyString => EmptyString
  | String a r => if any_char is_sep r then program_name r else if is_sep a then r else s
  end.

(** ** Setup commands and assignments *)

Definition is_setup_command (cmd : list string) : bool :=
  match cmd with
  | [] => true
  | h :: _ => is_one_of ["cd"; "pushd"; "popd"; "export"; "unset"; "set"; "sleep"; "timeout"] h
  end.

Definition is_alpha (a : ascii) : bool := byte_in 65 90 a || byte_in 97 122 a.
Definition is_digit (a : ascii) : bool := byte_in 48 57 a.
Definition is_name_byte (a : ascii) : bool := is_alpha a || is_digit a || Ascii.eqb a "_"%char.

Definition is_env_assignment (tok : string) : bool :=
  match find_str "=" tok with
  | None => false
  | Some eq =>
      let name := str_take eq tok in
      match name with
      | EmptyString => false
      | String a _ => (is_alpha a || Ascii.eqb a "_"%char) && all_chars is_name_byte name
      end
  end.

(** ** Quoting *)

Definition dq_escapable (a : ascii) : bool :=
  Ascii.eqb a "$"%char || Ascii.eqb a "`"%char || Ascii.eqb a dquote || Ascii.eqb a bslash || Ascii.eqb a nl.

(** The loop of [decode_shell_literal_spelling] in the state [quote]; the
    characters that matter are all one byte long, so the loop runs on bytes. *)
Fixpoint decode_from (quote : option ascii) (raw : string) : option string :=
  match raw with
  | EmptyString => match quote with None => Some EmptyString | Some _ => None end
  | String ch r =>
      match quote with
      | None =>
          if Ascii.eqb ch squote || Ascii.eqb ch dquote then decode_from (Some ch) r
          else if Ascii.eqb ch bslash then
            match r with
            | EmptyString => None
            | String n r' => String n <$> decode_from None r'
            end
          else String ch <$> decode_from None r
      | Some open =>
          if Ascii.eqb open ch then decode_from None r
          else if Ascii.eqb open dquote && Ascii.eqb ch bslash then
            match r with
            | EmptyString => None
            | String n r' =>
                if dq_escapable n then String n <$> decode_from quote r'
                else (fun s => String bslash (String n s)) <$> decode_from quote r'
            end
          else String ch <$> decode_from quote r
      end
  end.
Definition decode_shell_literal_spelling (raw : string) : option string := decode_from None raw.

Definition decode_env_option_token (raw : string) : string :=
  if has_char squote raw || has_char dquote raw then
    match decode_shell_literal_spelling raw with Some decoded => decoded | None => raw end
  else raw.

Definition payload_unsafe (a : ascii) : bool :=
  Ascii.eqb a squote || Ascii.eqb a dquote || Ascii.eqb a bslash || Ascii.eqb a "#"%char ||
  Ascii.eqb a "`"%char || Ascii.eqb a "$"%char || Ascii.eqb a nl || Ascii.eqb a cr.
Definition is_high_confidence_env_s_payload (s : string) : bool :=
  negb (bool_decide (s = "")) && negb (has_char "000"%char s) && negb (any_char payload_unsafe s).
Definition take_high_confidence_payload (raw : string) : option string :=
  if is_high_confidence_env_s_payload raw then Some raw else None.

(** ** The options of [env] *)

Inductive EnvShort :=
| SplitStringNext
| SplitStringGlued (rest : string)
| SplitStringDetect
| NoArg
| ArgNeedNext (kind : ascii)
| ArgGlued (kind : ascii)
| Uncertain.

(** The walk over the characters of a cluster of short options. *)
Fixpoint classify_cluster (body : string) : EnvShort :=
  match body with
  | EmptyString => NoArg
  | String c r =>
      if Ascii.eqb c "i"%char || Ascii.eqb c "v"%char || Ascii.eqb c "0"%char then classify_cluster r
      else if Ascii.eqb c "S"%char then SplitStringDetect
      else if Ascii.eqb c "u"%char || Ascii.eqb c "C"%char || Ascii.eqb c "P"%char || Ascii.eqb c "a"%char then
        if bool_decide (r = "") then ArgNeedNext c else ArgGlued c
      else Uncertain
  end.

Definition classify_env_short (tok : string) : EnvShort :=
  match tok with
  | String d body =>
      if negb (Ascii.eqb d "-"%char) || starts_with "-" body || bool_decide (body = "") then Uncertain
      else match body with
           | String c rest =>
               if Ascii.eqb c "S"%char then
                 if bool_decide (rest = "") then SplitStringNext else SplitStringGlued rest
               else classify_cluster body
           | EmptyString => Uncertain
           end
  | EmptyString => Uncertain
  end.

Record EnvScan := mkScan {
  scan_chdir : option string;
  scan_has_split_string : bool;
  scan_options_uncertain : bool;
  scan_split_string_script : option string;
  scan_command_start : nat
}.

(** The loop of [env_scan] at index [i], where [rest] is what is left. *)
Fixpoint env_scan_from (rest : list string) (i : nat) (chdir : option string) : EnvScan :=
  match rest with
  | [] => mkScan chdir false false None i
  | tok :: r1 =>
      let uncertain := mkScan chdir false true None i in
      let next := env_scan_from r1 (S i) chdir in
      (* an option with a separate operand *)
      let operand (set : string -> option string) :=
        match r1 with v :: r2 => env_scan_from r2 (S (S i)) (set v) | [] => uncertain end in
      let split (script : option string) := mkScan chdir true false script i in
      let split_next := split (match r1 with v :: _ => take_high_confidence_payload v | [] => None end) in
      if bool_decide (tok = "--") then mkScan chdir false false None (S i)
      else if bool_decide (tok = "-") then next
      else if negb (starts_with "-" tok) then
        if is_env_assignment tok then next else mkScan chdir false false None i
      else if starts_with "--" tok then
        if bool_decide (tok = "--chdir") then operand Some
        else match str_strip_prefix "--chdir=" tok with
        | Some dir => env_scan_from r1 (S i) (Some dir)
        | None =>
        if is_one_of ["--unset"; "--path"; "--argv0"] tok then operand (fun _ => chdir)
        else if starts_with "--unset=" tok || starts_with "--path=" tok || starts_with "--argv0=" tok then next
        else if is_one_of ["--ignore-environment"; "--null"; "--debug"; "--version"; "--help"] tok then next
        else if bool_decide (tok = "--split-string") then split_next
        else match str_strip_prefix "--split-string=" tok with
        | Some payload =>
            let payload := default payload (str_strip_prefix "--split-string=" (decode_env_option_token tok)) in
            split (take_high_confidence_payload payload)
        | None => uncertain
        end end
      else
        match classify_env_short (decode_env_option_token tok) with
        | SplitStringNext => split_next
        | SplitStringGlued payload => split (take_high_confidence_payload payload)
        | SplitStringDetect => split None
        | NoArg => next
        | ArgNeedNext kind => operand (fun v => if Ascii.eqb kind "C"%char then Some v else chdir)
        | ArgGlued kind =>
            env_scan_from r1 (S i)
              (if Ascii.eqb kind "C"%char then Some (default "" (str_strip_prefix "-C" tok)) else chdir)
        | Uncertain => uncertain
        end
  end.
Definition env_scan (cmd : list string) : EnvScan := env_scan_from (drop 1 cmd) 1 None.

Definition env_split_string_script (words : list string) : option string :=
  match words with
  | [] => None
  | w :: _ =>
      if bool_decide (program_name w = "env") then
        let scan := env_scan words in
        if scan_has_split_string scan then scan_split_string_script scan else None
      else None
  end.

(** ** Wrappers *)

(** Skip options from the front; those in [takes] have a separate operand. *)
Fixpoint skip_options (takes : list string) (rest : list string) : list string :=
  match rest with
  | [] => []
  | tok :: r1 =>
      if starts_with "-" tok then
        if is_one_of takes tok then match r1 with _ :: r2 => skip_options takes r2 | [] => [] end
        else skip_options takes r1
      else rest
  end.

Definition non_empty (l : list string) : option (list string) :=
  match l with [] => None | _ => Some l end.

Definition strip_wrapper_command (cmd : list string) : option (list string) :=
  match cmd with
  | [] => None
  | w :: args =>
      let head := program_name w in
      (* a mandatory operand before the command: a duration or a priority *)
      let mandatory l := match l with [] => None | _ :: inner => non_empty inner end in
      if bool_decide (head = "timeout") then
        mandatory (skip_options ["-k"; "-s"; "--kill-after"; "--signal"] args)
      else if bool_decide (head = "nice") then non_empty (skip_options ["-n"; "--adjustment"] args)
      else if bool_decide (head = "ionice") then
        non_empty (skip_options ["-c"; "-n"; "-p"; "-P"; "-u"; "--class"; "--classdata"; "--pid"; "--pgid"; "--uid"] args)
      else if bool_decide (head = "chrt") then mandatory (skip_options [] args)
      else if bool_decide (head = "stdbuf") then non_empty (skip_options ["-i"; "-o"; "-e"] args)
      else if bool_decide (head = "env") then
        let scan := env_scan cmd in
        if scan_has_split_string scan || scan_options_uncertain scan then None
        else non_empty (drop (scan_command_start scan) cmd)
      else None
  end.

Definition wrapper_names : list string := ["timeout"; "nice"; "ionice"; "chrt"; "stdbuf"; "env"].
Definition is_wrapper_command (words : list string) : bool :=
  match words with w :: _ => is_one_of wrapper_names (program_name w) | [] => false end.

Definition MAX_WRAPPER_DEPTH : nat := 8.
Definition MAX_INLINE_SHELL_DEPTH : nat := 8.

Record CheckedWrapperPeel := mkWrapperPeel {
  wp_words : list string;
  wp_has_chdir : bool;
  wp_has_split_string : bool;
  wp_env_options_uncertain : bool;
  wp_exhausted : bool
}.

Definition is_env (words : list string) : bool :=
  match words with w :: _ => bool_decide (program_name w = "env") | [] => false end.

(** The facts that the scan of a leading [env] adds. *)
Definition note_env (words : list string) (f : EnvScan -> bool) : bool :=
  if is_env words then f (env_scan words) else false.

Fixpoint unwrap_loop (n : nat) (current : list string) (has_chdir has_split uncertain : bool)
  : CheckedWrapperPeel :=
  match n with
  | O => mkWrapperPeel current has_chdir has_split uncertain
           (is_wrapper_command current && bool_decide (is_Some (strip_wrapper_command current)))
  | S n' =>
      let has_chdir := has_chdir || note_env current (fun s => bool_decide (is_Some (scan_chdir s))) in
      let has_split := has_split || note_env current scan_has_split_string in
      let uncertain := uncertain || note_env current scan_options_uncertain in
      match strip_wrapper_command current with
      | Some inner => unwrap_loop n' inner has_chdir has_split uncertain
      | None => mkWrapperPeel current has_chdir has_split uncertain false
      end
  end.
Definition unwrap_wrappers_checked (words : list string) : CheckedWrapperPeel :=
  unwrap_loop MAX_WRAPPER_DEPTH words false false false.
Definition unwrap_wrappers (words : list string) : list string := wp_words (unwrap_wrappers_checked words).

(** ** Transparent prefixes *)

Inductive TransparentStrip :=
| NotPrefix
| Peeled (inner : list string)
| Ambiguous.

Definition peeled (inner : list string) : TransparentStrip :=
  match inner with [] => NotPrefix | _ => Peeled inner end.

(** The loop over the options of [exec]; [rest] is what is left. *)
Fixpoint exec_options (rest : list string) : TransparentStrip :=
  match rest with
  | [] => NotPrefix
  | tok :: r1 =>
      if bool_decide (tok = "--") then peeled r1
      else if bool_decide (tok = "-") || negb (starts_with "-" tok) then peeled rest
      else if is_one_of ["-c"; "-l"; "-cl"; "-lc"] tok then exec_options r1
      else if bool_decide (tok = "-a") then
        match r1 with
        | v :: r2 => if bool_decide (v <> nul_word /\ v <> "") then exec_options r2 else Ambiguous
        | [] => Ambiguous
        end
      else match str_strip_prefix "-a" tok with
      | Some rest' => if bool_decide (rest' = nul_word) then Ambiguous else exec_options r1
      | None =>
          if negb (starts_with "--" tok)
             && all_chars (fun c => Ascii.eqb c "c"%char || Ascii.eqb c "l"%char) (str_drop 1 tok)
          then exec_options r1 else Ambiguous
      end
  end.

Definition is_short (tok : string) : bool := starts_with "-" tok && negb (starts_with "--" tok).

Fixpoint command_options (rest : list string) : TransparentStrip :=
  match rest with
  | [] => NotPrefix
  | tok :: r1 =>
      if bool_decide (tok = "--") then peeled r1
      else if bool_decide (tok = "-") || negb (starts_with "-" tok) then peeled rest
      else if is_one_of ["-v"; "-V"; "--help"; "--version"] tok
              || (is_short tok && any_char (fun c => Ascii.eqb c "v"%char || Ascii.eqb c "V"%char) (str_drop 1 tok))
      then NotPrefix
      else if bool_decide (tok = "-p") || (is_short tok && all_chars (Ascii.eqb "p"%char) (str_drop 1 tok))
      then command_options r1
      else Ambiguous
  end.

Definition builtin_options (rest : list string) : TransparentStrip :=
  match rest with
  | [] => NotPrefix
  | tok :: _ => if starts_with "-" tok && bool_decide (tok <> "-") then Ambiguous else peeled rest
  end.

Definition strip_transparent_prefix (cmd : list string) : TransparentStrip :=
  match cmd with
  | [] => NotPrefix
  | h :: args =>
      if bool_decide (h <> "" /\ h <> nul_word) then
        let head := program_name h in
        if bool_decide (head = "exec") then exec_options args
        else if bool_decide (head = "command") then command_options args
        else if bool_decide (head = "builtin") then builtin_options args
        else NotPrefix
      else NotPrefix
  end.

Inductive TransparentPrefixPeel :=
| Ready (words : list string)
| PeelAmbiguous.

Definition MAX_TRANSPARENT_PREFIX_DEPTH : nat := 8.
Definition MAX_NORMALIZE_ROUNDS : nat := MAX_WRAPPER_DEPTH + MAX_TRANSPARENT_PREFIX_DEPTH.

Fixpoint peel_loop (n : nat) (current : list string) : TransparentPrefixPeel :=
  match n, strip_transparent_prefix current with
  | _, NotPrefix => Ready current
  | S n', Peeled inner => peel_loop n' inner
  | _, _ => PeelAmbiguous
  end.
Definition peel_transparent_prefixes (words : list string) : TransparentPrefixPeel :=
  peel_loop MAX_TRANSPARENT_PREFIX_DEPTH words.

(** ** Normalisation *)

Record NormalizedCommandPeel := mkNorm {
  words : list string;
  has_chdir : bool;
  has_split_string : bool;
  env_options_uncertain : bool;
  exhausted : bool;
  ambiguous : bool
}.

(** One round, given what the two peels of it return.  Two slices of the same
    words are the same when they have the same length, as both are suffixes. *)
Definition normalize_round (rec : NormalizedCommandPeel -> NormalizedCommandPeel) (s : NormalizedCommandPeel)
    (w : CheckedWrapperPeel) (p : TransparentPrefixPeel) : NormalizedCommandPeel :=
  let split := has_split_string s || wp_has_split_string w in
  let uncertain := env_options_uncertain s || wp_env_options_uncertain w in
  let mk ws amb := mkNorm ws (has_chdir s || wp_has_chdir w) split uncertain (exhausted s || wp_exhausted w) amb in
  if split || uncertain then mk (wp_words w) (ambiguous s)
  else match p with
  | PeelAmbiguous => mk (wp_words w) true
  | Ready inner => if Nat.eqb (length inner) (length (words s)) then mk inner (ambiguous s)
                   else rec (mk inner (ambiguous s))
  end.
Fixpoint normalize_loop (n : nat) (s : NormalizedCommandPeel) : NormalizedCommandPeel :=
  match n with
  | O => s
  | S n' =>
      let w := unwrap_wrappers_checked (words s) in
      normalize_round (normalize_loop n') s w (peel_transparent_prefixes (wp_words w))
  end.

Definition still_peelable (ws : list string) : bool :=
  (is_wrapper_command ws && bool_decide (is_Some (strip_wrapper_command ws)))
  || match strip_transparent_prefix ws with NotPrefix => false | _ => true end.

Definition normalize_command_words (ws : list string) : NormalizedCommandPeel :=
  let s := normalize_loop MAX_NORMALIZE_ROUNDS (mkNorm ws false false false false false) in
  if negb (ambiguous s) && negb (has_split_string s) && negb (env_options_uncertain s) && still_peelable (words s)
  then mkNorm (words s) (has_chdir s) (has_split_string s) (env_options_uncertain s) true (ambiguous s)
  else s.

(** ** One peel, and the normal form *)

(** [w'] is [w] without one wrapper or one transparent prefix. *)
Inductive peel_step : list string -> list string -> Prop :=
| peel_wrapper w w' : strip_wrapper_command w = Some w' -> peel_step w w'
| peel_prefix w w' : strip_transparent_prefix w = Peeled w' -> peel_step w w'.

(** Nothing is left to peel, and nothing is unclear about it. *)
Definition plain_head (w : list string) : Prop :=
  strip_wrapper_command w = None /\ strip_transparent_prefix w = NotPrefix.

(** No reservation was made. *)
Definition clean_norm (n : NormalizedCommandPeel) : bool :=
  negb (exhausted n || ambiguous n || env_options_uncertain n || has_split_string n).

Lemma list_len_ind {A} (P : list A -> Prop) :
  (forall l, (forall l', length l' < length l -> P l') -> P l) -> forall l, P l.
Proof. intros H l. induction l using (well_founded_induction (Wf_nat.well_founded_ltof _ length)). auto. Qed.

Lemma skip_options_suffix takes rest : skip_options takes rest `suffix_of` rest.
Proof.
  induction rest as [rest IH] using list_len_ind.
  destruct rest as [|tok r1]; [done|]. cbn [skip_options].
  destruct (starts_with "-" tok); [|done]. destruct (is_one_of takes tok).
  - destruct r1 as [|v r2]; [apply suffix_nil|].
    apply suffix_cons_r, suffix_cons_r, IH; cbn; lia.
  - apply suffix_cons_r, IH; cbn; lia.
Qed.

Lemma non_empty_some l l' : non_empty l = Some l' -> l' = l.
Proof. destruct l; cbn; congruence. Qed.

Lemma scan_start_from rest i c : i <= scan_command_start (env_scan_from rest i c).
Proof.
  revert i c. induction rest as [rest IH] using list_len_ind; intros i c.
  destruct rest as [|tok r1]; [done|]. cbn [env_scan_from].
  assert (Hn : forall c', i <= scan_command_start (env_scan_from r1 (S i) c')).
  { intros c'. etrans; [|apply IH; cbn; lia]. lia. }
  assert (Ho : forall f, i <= scan_command_start (match r1 with
      | [] => mkScan c false true None i | v :: r2 => env_scan_from r2 (S (S i)) (f v) end)).
  { intros f. destruct r1 as [|v r2]; [done|]. etrans; [|apply IH; cbn; lia]. lia. }
  repeat match goal with
  | |- i <= scan_command_start (env_scan_from r1 (S i) _) => apply Hn
  | |- i <= scan_command_start (mkScan _ _ _ _ _) => cbn; lia
  | |- _ => apply Ho
  | |- context [if ?b then _ else _] => destruct b
  | |- context [match ?x with _ => _ end] => destruct x
  end.
Qed.

Lemma suffix_cons_lt {A} (x : A) l l' : l' `suffix_of` l -> l' `suffix_of` x :: l /\ length l' < length (x :: l).
Proof. intros H. split; [by apply suffix_cons_r|]. apply suffix_length in H. cbn. lia. Qed.

Lemma strip_wrapper_suffix w w' :
  strip_wrapper_command w = Some w' -> w' `suffix_of` w /\ length w' < length w.
Proof.
  destruct w as [|x args]; [done|]. unfold strip_wrapper_command.
  intros H. repeat (case_match; try discriminate); apply non_empty_some in H; subst w';
    try (by apply suffix_cons_lt, skip_options_suffix).
  - apply suffix_cons_lt. match goal with E : skip_options _ _ = _ |- _ => rename E into Es end.
    eapply suffix_cons_l; rewrite <- Es; apply skip_options_suffix.
  - apply suffix_cons_lt. match goal with E : skip_options _ _ = _ |- _ => rename E into Es end.
    eapply suffix_cons_l; rewrite <- Es; apply skip_options_suffix.
  - pose proof (scan_start_from args 1 None) as Hs. unfold env_scan. cbn [drop]. rewrite drop_0.
    destruct (scan_command_start (env_scan_from args 1 None)) as [|k] eqn:Ek; [lia|].
    cbn [drop]. apply suffix_cons_lt. apply suffix_drop.
Qed.

Lemma peeled_inv l l' : peeled l = Peeled l' -> l' = l.
Proof. destruct l; cbn; congruence. Qed.

Ltac split_ifs :=
  repeat match goal with
  | H : context [if ?b then _ else _] |- _ => destruct b
  | H : context [match str_strip_prefix ?p ?t with _ => _ end] |- _ => destruct (str_strip_prefix p t)
  | H : peeled _ = Peeled _ |- _ => apply peeled_inv in H; subst
  | H : _ = Peeled _ |- _ => discriminate H
  end.

Lemma exec_options_suffix r r' : exec_options r = Peeled r' -> r' `suffix_of` r.
Proof.
  induction r as [r IH] using list_len_ind. destruct r as [|tok r1]; [done|]. cbn [exec_options]. intros H.
  assert (Hn : exec_options r1 = Peeled r' -> r' `suffix_of` tok :: r1)
    by (intros; apply suffix_cons_r, IH; [cbn; lia|done]).
  split_ifs; auto; try (by apply suffix_cons_r).
  destruct r1 as [|v r2]; [done|]. split_ifs. apply suffix_cons_r, suffix_cons_r, IH; [cbn; lia|done].
Qed.

Lemma command_options_suffix r r' : command_options r = Peeled r' -> r' `suffix_of` r.
Proof.
  induction r as [|tok r1 IH]; [done|]. cbn [command_options]. intros H.
  split_ifs; auto using suffix_cons_r.
Qed.

Lemma builtin_options_suffix r r' : builtin_options r = Peeled r' -> r' `suffix_of` r.
Proof. destruct r; [done|]. cbn [builtin_options]. intros H. by split_ifs. Qed.

Lemma strip_transparent_suffix w w' :
  strip_transparent_prefix w = Peeled w' -> w' `suffix_of` w /\ length w' < length w.
Proof.
  destruct w as [|x args]; [done|]. cbn [strip_transparent_prefix]. intros H.
  split_ifs; apply suffix_cons_lt; eauto using exec_options_suffix, command_options_suffix, builtin_options_suffix.
Qed.

Lemma strip_wrapper_head w w' : strip_wrapper_command w = Some w' -> is_wrapper_command w = true.
Proof.
  destruct w as [|x args]; [done|]. unfold strip_wrapper_command, is_wrapper_command, is_one_of, wrapper_names.
  intros H. apply bool_decide_eq_true. repeat case_bool_decide; try discriminate;
    match goal with E : program_name x = _ |- _ => rewrite E end; set_solver.
Qed.

Lemma wrapper_not_prefix w : is_wrapper_command w = true -> strip_transparent_prefix w = NotPrefix.
Proof.
  destruct w as [|x args]; [done|]. unfold is_wrapper_command, is_one_of. intros H%bool_decide_eq_true.
  unfold strip_transparent_prefix. repeat case_bool_decide; try done;
    match goal with E : program_name x = _ |- _ => rewrite E in H end; set_solver.
Qed.

(** A command that peels holds no packed string and no unknown option. *)
Lemma strip_wrapper_scan w w' :
  strip_wrapper_command w = Some w' ->
  note_env w scan_has_split_string = false /\ note_env w scan_options_uncertain = false.
Proof.
  destruct w as [|x args]; [done|]. unfold note_env, is_env. case_bool_decide as He; [|done].
  unfold strip_wrapper_command. rewrite He. cbn -[env_scan].
  destruct (scan_has_split_string _), (scan_options_uncertain _); cbn; done.
Qed.

Lemma peel_step_suffix w w' : peel_step w w' -> w' `suffix_of` w /\ length w' < length w.
Proof. intros [? ? H|? ? H]; [by apply strip_wrapper_suffix|by apply strip_transparent_suffix]. Qed.

Lemma peel_step_det w w1 w2 : peel_step w w1 -> peel_step w w2 -> w1 = w2.
Proof.
  intros H1 H2. inversion H1 as [? ? E1|? ? E1]; inversion H2 as [? ? E2|? ? E2]; subst; try congruence;
    [pose proof (wrapper_not_prefix _ (strip_wrapper_head _ _ E1))
    |pose proof (wrapper_not_prefix _ (strip_wrapper_head _ _ E2))]; congruence.
Qed.

Lemma plain_head_stuck w w' : plain_head w -> ~ peel_step w w'.
Proof. intros [H1 H2] H. inversion H; congruence. Qed.

Lemma peels_suffix w w' : rtc peel_step w w' -> w' `suffix_of` w.
Proof. induction 1 as [|? ? ? H _ IH]; [done|]. etrans; [exact IH|]. by apply peel_step_suffix. Qed.

(** From one command at most one plain one is reached. *)
Lemma plain_head_unique w w1 w2 :
  rtc peel_step w w1 -> plain_head w1 -> rtc peel_step w w2 -> plain_head w2 -> w1 = w2.
Proof.
  intros H1 P1. induction H1 as [|? y ? Hs _ IH]; intros H2 P2.
  - inversion H2 as [|? ? ? Hs]; [done|]. by apply plain_head_stuck in Hs.
  - inversion H2 as [|? ? ? Hs2]; subst.
    + by apply plain_head_stuck in Hs.
    + rewrite (peel_step_det _ _ _ Hs2 Hs) in *. auto.
Qed.

(** *** The loops only take peels *)

Lemma unwrap_loop_peels n w a b c : rtc peel_step w (wp_words (unwrap_loop n w a b c)).
Proof.
  induction n as [|n IH] in w, a, b, c |- *; cbn [unwrap_loop]; [done|].
  destruct (strip_wrapper_command w) eqn:E; [|done]. eapply rtc_l; [by apply peel_wrapper|apply IH].
Qed.

Lemma peel_loop_peels n w w' :
  peel_loop n w = Ready w' -> rtc peel_step w w' /\ strip_transparent_prefix w' = NotPrefix.
Proof.
  induction n as [|n IH] in w |- *; cbn [peel_loop]; destruct (strip_transparent_prefix w) eqn:E; intros H; simplify_eq;
    try done. destruct (IH _ H). split; [|done]. eapply rtc_l; [by apply peel_prefix|done].
Qed.

Lemma unwrap_peels w : rtc peel_step w (wp_words (unwrap_wrappers_checked w)).
Proof. apply unwrap_loop_peels. Qed.
Lemma peel_prefixes_peels w w' :
  peel_transparent_prefixes w = Ready w' -> rtc peel_step w w' /\ strip_transparent_prefix w' = NotPrefix.
Proof. apply peel_loop_peels. Qed.

Lemma normalize_loop_S n s :
  normalize_loop (S n) s =
  normalize_round (normalize_loop n) s (unwrap_wrappers_checked (words s))
    (peel_transparent_prefixes (wp_words (unwrap_wrappers_checked (words s)))).
Proof. reflexivity. Qed.

Lemma normalize_loop_peels n s : rtc peel_step (words s) (words (normalize_loop n s)).
Proof.
  induction n as [|n IH] in s |- *; [done|]. rewrite normalize_loop_S.
  pose proof (unwrap_peels (words s)) as Hw. revert Hw. generalize (unwrap_wrappers_checked (words s)).
  intros w Hw. unfold normalize_round. destruct (_ || _); [done|].
  destruct (peel_transparent_prefixes _) as [inner|] eqn:Ep; [|done].
  apply peel_prefixes_peels in Ep as [Hp _].
  destruct (Nat.eqb _ _); [|etrans; [|apply IH]]; cbn [words]; by etrans.
Qed.

Lemma normalize_peels ws : rtc peel_step ws (words (normalize_command_words ws)).
Proof.
  unfold normalize_command_words.
  pose proof (normalize_loop_peels MAX_NORMALIZE_ROUNDS (mkNorm ws false false false false false)) as H.
  revert H. generalize (normalize_loop MAX_NORMALIZE_ROUNDS (mkNorm ws false false false false false)).
  intros s H. by destruct (_ && _).
Qed.

(** Without a reservation the result is plain. *)
Lemma normalize_unwrapped ws :
  clean_norm (normalize_command_words ws) = true -> plain_head (words (normalize_command_words ws)).
Proof.
  unfold normalize_command_words, clean_norm. destruct (normalize_loop _ _) as [w d p u e a]. cbn.
  destruct a, p, u, (still_peelable w) eqn:Es, e; cbn; try done. intros _.
  apply orb_false_iff in Es as [Hw Ht]. split.
  - destruct (strip_wrapper_command w) eqn:E; [|done].
    rewrite (strip_wrapper_head _ _ E) in Hw. by rewrite bool_decide_eq_true_2 in Hw by eauto.
  - by destruct (strip_transparent_prefix w).
Qed.

(** *** Few peels are enough *)

Lemma nsteps_plain k w w' : nsteps peel_step k w w' -> plain_head w -> k = 0 /\ w' = w.
Proof. intros [|? ? ? ? Hs _] Hp; [done|]. by apply plain_head_stuck in Hs. Qed.

Lemma wrapper_step k w w' e :
  nsteps peel_step k w e -> strip_wrapper_command w = Some w' -> plain_head e ->
  exists k', k = S k' /\ nsteps peel_step k' w' e.
Proof.
  intros H Hw Hp. inversion H as [|? ? y ? Hs Hn]; subst; [destruct Hp; congruence|].
  eexists. split; [done|]. by rewrite (peel_step_det _ _ _ (peel_wrapper _ _ Hw) Hs).
Qed.

Lemma prefix_step k w w' e :
  nsteps peel_step k w e -> strip_transparent_prefix w = Peeled w' -> plain_head e ->
  exists k', k = S k' /\ nsteps peel_step k' w' e.
Proof.
  intros H Hw Hp. inversion H as [|? ? y ? Hs Hn]; subst; [destruct Hp; congruence|].
  eexists. split; [done|]. by rewrite (peel_step_det _ _ _ (peel_prefix _ _ Hw) Hs).
Qed.

(** The wrappers are all peeled within their budget; the options of what is
    left are known, unless the budget was used up to the last. *)
Lemma unwrap_loop_done n k w e a :
  nsteps peel_step k w e -> plain_head e -> k <= n ->
  let r := unwrap_loop n w a false false in
  exists k', k' <= k /\ nsteps peel_step k' (wp_words r) e /\ strip_wrapper_command (wp_words r) = None /\
    wp_exhausted r = false /\
    (wp_has_split_string r = note_env (wp_words r) scan_has_split_string /\
     wp_env_options_uncertain r = note_env (wp_words r) scan_options_uncertain \/
     (n = 0 \/ k' < k) /\ wp_has_split_string r = false /\ wp_env_options_uncertain r = false).
Proof.
  intros Hn Hp. induction n as [|n IH] in k, w, a, Hn |- *; intros Hk; cbn [unwrap_loop].
  - assert (k = 0) as -> by lia. inversion Hn; subst. exists 0. destruct Hp as [Hp1 Hp2].
    cbn. rewrite Hp1, andb_false_r. split_and!; try done. right. split; [by left|done].
  - destruct (strip_wrapper_command w) as [w'|] eqn:E.
    + destruct (wrapper_step _ _ _ _ Hn E Hp) as (k1 & -> & Hn1).
      destruct (strip_wrapper_scan _ _ E) as [-> ->]. cbn [orb].
      destruct (IH k1 w' (a || note_env w (fun s => bool_decide (is_Some (scan_chdir s)))) Hn1 ltac:(lia))
        as (k' & ? & ? & ? & ? & Hf).
      exists k'. split_and!; [lia|done|done|done|]. destruct Hf as [?|[? ?]]; [by left|]. right. split; [|done]. lia.
    + exists k. split_and!; try done. by left.
Qed.

Lemma peel_loop_done n k w e :
  nsteps peel_step k w e -> plain_head e -> k <= n ->
  exists w' k', peel_loop n w = Ready w' /\ k' <= k /\ nsteps peel_step k' w' e /\ strip_transparent_prefix w' = NotPrefix.
Proof.
  intros Hn Hp. induction n as [|n IH] in k, w, Hn |- *; intros Hk; cbn [peel_loop].
  - assert (k = 0) as -> by lia. inversion Hn; subst. destruct Hp as [? Ht]. rewrite Ht. exists e, 0. split_and!; try done; constructor.
  - destruct (strip_transparent_prefix w) as [|w'|] eqn:E.
    + by exists w, k.
    + destruct (prefix_step _ _ _ _ Hn E Hp) as (k1 & -> & Hn1).
      destruct (IH _ _ Hn1 ltac:(lia)) as (w2 & k2 & ? & ? & ? & ?). exists w2, k2. split_and!; try done. lia.
    + inversion Hn as [|? ? ? ? Hs]; subst; [destruct Hp; congruence|].
      inversion Hs as [? ? Hw|? ? Ht]; subst; [|congruence].
      pose proof (wrapper_not_prefix _ (strip_wrapper_head _ _ Hw)). congruence.
Qed.

Lemma nsteps_unique k k' w e :
  nsteps peel_step k w e -> nsteps peel_step k' w e -> plain_head e -> k = k'.
Proof.
  intros H H' Hp. revert k' H'. induction H as [|k w y e Hs _ IH]; intros k' H'.
  - by destruct (nsteps_plain _ _ _ H' Hp).
  - inversion H' as [|k1 ? y' ? Hs' H1]; subst; [by apply plain_head_stuck in Hs|].
    rewrite (peel_step_det _ _ _ Hs' Hs) in H1. f_equal. auto.
Qed.

(** What is still to be peeled gets less when something was peeled. *)
Lemma nsteps_progress k k' w w' e :
  nsteps peel_step k w e -> rtc peel_step w w' -> nsteps peel_step k' w' e -> plain_head e -> w' <> w -> k' < k.
Proof.
  intros H Hr H' Hp Hne. apply rtc_nsteps in Hr as [j Hj].
  assert (k = j + k') as -> by (eapply nsteps_unique; [exact H|by eapply nsteps_trans|done]).
  destruct j; [inversion Hj; congruence|lia].
Qed.

Lemma suffix_same_length {A} (l l' : list A) : l' `suffix_of` l -> length l' = length l -> l' = l.
Proof. intros [p ->]. rewrite length_app. destruct p; cbn; [done|lia]. Qed.

Lemma note_env_plain w f : note_env w f = true -> strip_transparent_prefix w = NotPrefix.
Proof.
  unfold note_env. destruct (is_env w) eqn:E; [|done]. intros _. apply wrapper_not_prefix.
  destruct w; [done|]. apply bool_decide_eq_true in E. unfold is_wrapper_command, is_one_of, wrapper_names.
  rewrite E. apply bool_decide_eq_true. set_solver.
Qed.

Lemma normalize_loop_done n k s e :
  nsteps peel_step k (words s) e -> plain_head e -> k <= 8 -> k < n ->
  has_split_string s = false -> env_options_uncertain s = false -> exhausted s = false -> ambiguous s = false ->
  let r := normalize_loop n s in
  words r = e /\ has_split_string r = note_env e scan_has_split_string /\
  env_options_uncertain r = note_env e scan_options_uncertain /\ exhausted r = false /\ ambiguous r = false.
Proof.
  intros Hn Hp H8. induction n as [|n IH] in k, s, Hn, H8 |- *; intros Hk Hs Hu He Ha; [lia|].
  rewrite normalize_loop_S.
  pose proof (unwrap_loop_done MAX_WRAPPER_DEPTH k (words s) e false Hn Hp H8) as Hw.
  fold (unwrap_wrappers_checked (words s)) in Hw. pose proof (unwrap_peels (words s)) as Hr1.
  revert Hw Hr1. generalize (unwrap_wrappers_checked (words s)).
  intros w (k1 & Hk1 & Hn1 & Hstrip & Hex & Hflags) Hr1. unfold normalize_round. rewrite Hs, Hu, He, Ha, Hex. cbn [orb].
  destruct (wp_has_split_string w || wp_env_options_uncertain w) eqn:Ef.
  - destruct Hflags as [[Fs Fu]|(_ & Fs & Fu)]; [|by rewrite Fs, Fu in Ef].
    assert (Hpw : plain_head (wp_words w)).
    { split; [done|]. rewrite Fs, Fu in Ef. apply orb_true_iff in Ef as [?|?]; by eapply note_env_plain. }
    destruct (nsteps_plain _ _ _ Hn1 Hpw) as [_ ->]. done.
  - apply orb_false_iff in Ef as [Fs Fu]. rewrite Fs, Fu.
    destruct (peel_loop_done MAX_TRANSPARENT_PREFIX_DEPTH k1 (wp_words w) e Hn1 Hp ltac:(unfold MAX_TRANSPARENT_PREFIX_DEPTH; lia))
      as (w2 & k2 & Hr & Hk2 & Hn2 & Ht).
    destruct (peel_loop_peels _ _ _ Hr) as [Hr2 _]. unfold peel_transparent_prefixes. rewrite Hr.
    assert (Hsuf : wp_words w `suffix_of` words s /\ w2 `suffix_of` wp_words w) by (split; by apply peels_suffix).
    destruct (Nat.eqb_spec (length w2) (length (words s))) as [El|El].
    + assert (Ew : wp_words w = words s).
      { apply suffix_same_length; [apply Hsuf|]. destruct Hsuf as [S1%suffix_length S2%suffix_length]. lia. }
      assert (E2 : w2 = words s) by (apply suffix_same_length; [by etrans; apply Hsuf|done]).
      rewrite E2, Ew in *. destruct (nsteps_plain _ _ _ Hn (conj Hstrip Ht)) as [-> ->].
      destruct Hflags as [[F1 F2]|([?|?] & _)]; [|done|lia]. rewrite Fs in F1. rewrite Fu in F2. done.
    + apply (IH k2); cbn [words has_split_string env_options_uncertain exhausted ambiguous]; try done; [lia|].
      enough (k2 < k) by lia. eapply nsteps_progress; [exact Hn| |exact Hn2|done|congruence]. by etrans.
Qed.

(** A command with at most eight wrappers and prefixes, in any order, is peeled
    to what it runs, and the reservations are those of its last [env]. *)
Lemma normalize_complete k ws e :
  nsteps peel_step k ws e -> plain_head e -> k <= 8 ->
  let n := normalize_command_words ws in
  words n = e /\ has_split_string n = note_env e scan_has_split_string /\
  env_options_uncertain n = note_env e scan_options_uncertain /\ exhausted n = false /\ ambiguous n = false.
Proof.
  intros Hn Hp Hk. unfold normalize_command_words.
  pose proof (normalize_loop_done MAX_NORMALIZE_ROUNDS k (mkNorm ws false false false false false) e Hn Hp Hk
    ltac:(unfold MAX_NORMALIZE_ROUNDS, MAX_WRAPPER_DEPTH, MAX_TRANSPARENT_PREFIX_DEPTH; lia) eq_refl eq_refl eq_refl eq_refl) as H.
  revert H. generalize (normalize_loop MAX_NORMALIZE_ROUNDS (mkNorm ws false false false false false)).
  intros s H. cbn zeta in H. destruct H as (Hw & Hs & Hu & He & Ha).
  rewrite Ha, Hw. unfold still_peelable. destruct Hp as [-> ->]. by rewrite andb_false_r, orb_false_r, !andb_false_r.
Qed.

(** Normalisation peels wrappers and transparent prefixes only, so that what
    is left is a suffix of the command; without a reservation nothing is left to
    peel and no other result is possible; and a command with at most eight
    wrappers and prefixes, in any order, is always peeled to what it runs, with the
    reservations that its last [env] calls for and no others. *)
Theorem normalize_exact ws :
  let n := normalize_command_words ws in
  rtc peel_step ws (words n) /\ words n `suffix_of` ws /\
  (clean_norm n = true ->
     plain_head (words n) /\ forall e, rtc peel_step ws e -> plain_head e -> e = words n) /\
  (forall k e, nsteps peel_step k ws e -> plain_head e -> k <= 8 ->
     words n = e /\ has_split_string n = note_env e scan_has_split_string /\
     env_options_uncertain n = note_env e scan_options_uncertain /\ exhausted n = false /\ ambiguous n = false).
Proof.
  cbn zeta. split_and!.
  - apply normalize_peels.
  - apply peels_suffix, normalize_peels.
  - intros Hc%normalize_unwrapped. split; [done|]. intros e He Hp.
    exact (plain_head_unique ws e _ He Hp (normalize_peels ws) Hc).
  - intros k e Hn Hp Hk. by apply (normalize_complete k ws e).
Qed.

(** *** What the peeling misses *)

(** [env] takes assignments after [--], and with any name; the scan stops
    at them, so what is run stays hidden behind the assignment. *)
Lemma env_assignment_hides :
  words (normalize_command_words ["env"; "--"; "A=1"; "rm"; "-rf"; "/"]) = ["A=1"; "rm"; "-rf"; "/"] /\
  words (normalize_command_words ["env"; "1A=1"; "rm"; "-rf"; "/"]) = ["1A=1"; "rm"; "-rf"; "/"] /\
  clean_norm (normalize_command_words ["env"; "--"; "A=1"; "rm"; "-rf"; "/"]) = true /\
  clean_norm (normalize_command_words ["env"; "1A=1"; "rm"; "-rf"; "/"]) = true.
Proof. by vm_compute. Qed.

(** A packed string reached with the last round and the last wrapper of it
    is left without a reservation. *)
Definition deep_pack : list string :=
  concat (replicate 15 ["timeout"; "1"; "command"]) ++ concat (replicate 8 ["timeout"; "1"]) ++ ["env"; "-S"; "rm 'x'"].
Lemma deep_pack_unnoticed :
  words (normalize_command_words deep_pack) = ["env"; "-S"; "rm 'x'"] /\
  clean_norm (normalize_command_words deep_pack) = true /\
  scan_has_split_string (env_scan (words (normalize_command_words deep_pack))) = true.
Proof. by vm_compute. Qed.
