(* ===== verification/ShellTree.v ===== *)
(** * Commands of a parsed script (ccode-workspace/src/permission/bash_command_splitting.rs)

    The script is parsed by tree-sitter; its tree is data here and the parser an
    argument.  A script is taken apart into plain commands only when every node
    of the tree is of a known kind; the same trees give the places where the
    permission dialog may break a line.  The loops of the source visit the nodes
    with an explicit stack; the fuel is the number of nodes of the tree. *)

From S2P Require Import Prelude RustStr TextLines TextFind ShellWords.

(** ** Trees *)

(** A node with the name of its field in the parent, if it has one. *)
Inductive Node :=
  mkNode (node_kind : string) (node_named : bool) (node_start node_end : nat) (node_field : option string)
         (node_children : list Node).
Definition kind (n : Node) : string := let 'mkNode k _ _ _ _ _ := n in k.
Definition is_named (n : Node) : bool := let 'mkNode _ b _ _ _ _ := n in b.
Definition start_byte (n : Node) : nat := let 'mkNode _ _ s _ _ _ := n in s.
Definition end_byte (n : Node) : nat := let 'mkNode _ _ _ e _ _ := n in e.
Definition field_name (n : Node) : option string := let 'mkNode _ _ _ _ f _ := n in f.
Definition children (n : Node) : list Node := let 'mkNode _ _ _ _ _ c := n in c.
Definition named_children (n : Node) : list Node := filter (fun c => is_named c) (children n).

Record Tree := mkTree { root_node : Node; has_error : bool }.

Fixpoint node_size (n : Node) : nat :=
  match n with mkNode _ _ _ _ _ cs => S (sum_list (node_size <$> cs)) end.

(** [node.utf8_text(src)]: the bytes of the node, if they are UTF-8; the bytes of
    a node lie inside the text that was parsed. *)
Definition utf8_text (src : string) (n : Node) : option string :=
  let t := slice src (start_byte n) (end_byte n) in if utf8_valid t then Some t else None.

(** A stable sort by a number. *)
Fixpoint insert_by {A} (key : A -> nat) (x : A) (l : list A) : list A :=
  match l with
  | [] => [x]
  | y :: l' => if key x <=? key y then x :: l else y :: insert_by key x l'
  end.
Definition sort_by {A} (key : A -> nat) (l : list A) : list A := foldr (insert_by key) [] l.

(** The stack loop [while let Some(node) = stack.pop()]: [visit] is the body up
    to the pushes, which stops the walk or says what the node yields and whether
    its children are pushed; [order] is the order in which they are popped. *)
Fixpoint walk {A} (visit : Node -> option (list A * bool)) (order : list Node -> list Node)
    (fuel : nat) (stack : list Node) : option (list A) :=
  match fuel, stack with
  | _, [] => Some []
  | O, _ :: _ => None
  | S fuel', node :: rest =>
      '(out, down) ← visit node;
      let stack' := if (down : bool) then order (children node) ++ rest else rest in
      app out <$> walk visit order fuel' stack'
  end.
Definition walk_tree {A} visit order (root : Node) : option (list A) :=
  walk visit order (node_size root) [root].

(** ** Plain commands *)

Record PlainCommand := mkPlain { plain_words : list string; span_start : nat; span_end : nat }.

Definition ALLOWED_KINDS : list string :=
  ["program"; "list"; "pipeline"; "command"; "command_name"; "word"; "string"; "string_content"; "raw_string";
   "number"; "concatenation"; "variable_assignment"; "variable_name"; "redirected_statement"; "file_redirect";
   "file_descriptor"; "comment"; "heredoc_redirect"; "heredoc_start"; "heredoc_body"; "heredoc_content"; "heredoc_end"].
Definition ALLOWED_PUNCT_TOKENS : list string :=
  ["&&"; "||"; ";"; "|"; str1 dquote; str1 squote; "="; ">"; ">>"; "<"; "<<"; ">&"; "&>"; "&>>"].

Definition is_operator_char (a : ascii) : bool :=
  Ascii.eqb a "&"%char || Ascii.eqb a ";"%char || Ascii.eqb a "|"%char.

Definition node_allowed (n : Node) : bool :=
  if is_named n then is_one_of ALLOWED_KINDS (kind n)
  else if any_char is_operator_char (kind n) && negb (is_one_of ALLOWED_PUNCT_TOKENS (kind n)) then false
  else is_one_of ALLOWED_PUNCT_TOKENS (kind n) || bool_decide (trim (kind n) = "").

Definition visit_word_only (n : Node) : option (list Node * bool) :=
  if node_allowed n then Some (if is_named n && bool_decide (kind n = "command") then [n] else [], true) else None.

(** What a named child of a command contributes: a word with its span, nothing,
    or the rejection of the command. *)
Definition plain_word (src : string) (child : Node) : option (option (string * nat * nat)) :=
  let k := kind child in
  let spanned (n : Node) (text : string) := Some (Some (text, start_byte n, end_byte n)) in
  if bool_decide (k = "variable_assignment") then Some None
  else if bool_decide (k = "command_name") then
    word_node ← named_children child !! 0;
    if bool_decide (kind word_node = "word") then utf8_text src word_node ≫= spanned word_node else None
  else if is_one_of ["word"; "number"] k then utf8_text src child ≫= spanned child
  else if bool_decide (k = "string") then
    match children child with
    | [q1; content; q2] =>
        if bool_decide (kind q1 = str1 dquote /\ kind content = "string_content" /\ kind q2 = str1 dquote)
        then utf8_text src content ≫= spanned child else None
    | _ => None
    end
  else if bool_decide (k = "raw_string") then
    raw ← utf8_text src child;
    (str_strip_prefix (str1 squote) raw ≫= str_strip_suffix (str1 squote)) ≫= spanned child
  else if bool_decide (k = "concatenation") then utf8_text src child ≫= spanned child
  else None.

Definition parse_plain_command_from_node (src : string) (cmd : Node) : option PlainCommand :=
  if bool_decide (kind cmd = "command") then
    ws ← mapM (plain_word src) (named_children cmd);
    let ws := omap id ws in
    Some (mkPlain ((fun w => w.1.1) <$> ws)
            (default (start_byte cmd) ((fun w => w.1.2) <$> head ws))
            (default (end_byte cmd) ((fun w => w.2) <$> last ws)))
  else None.

Definition try_parse_word_only_commands_sequence (tree : Tree) (src : string) : option (list PlainCommand) :=
  if has_error tree then None
  else
    command_nodes ← walk_tree visit_word_only (@rev Node) (root_node tree);
    mapM (parse_plain_command_from_node src) (sort_by start_byte command_nodes).

Section Scripts.
Variable try_parse_shell : string -> option Tree.

Definition all_commands_from_script (script : string) : option (list PlainCommand) :=
  tree ← try_parse_shell script; try_parse_word_only_commands_sequence tree script.

(** ** The first important command *)

(** [skip] counts the bytes left of a white space character. *)
Fixpoint sh_split_from (skip : nat) (in_single in_double : bool) (current : string) (s : string) : list string :=
  match s with
  | EmptyString => if bool_decide (current = "") then [] else [current]
  | String c r =>
      match skip with
      | S k => sh_split_from k in_single in_double current r
      | O =>
          if Ascii.eqb c squote && negb in_double then sh_split_from 0 (negb in_single) in_double current r
          else if Ascii.eqb c dquote && negb in_single then sh_split_from 0 in_single (negb in_double) current r
          else if Ascii.eqb c bslash then
            match r with
            | EmptyString => if bool_decide (current = "") then [] else [current]
            | String n r' => sh_split_from 0 in_single in_double (current +:+ str1 n) r'
            end
          else match ws_prefix s with
          | S k =>
              if negb in_single && negb in_double then
                if bool_decide (current = "") then sh_split_from k in_single in_double "" r
                else current :: sh_split_from k in_single in_double "" r
              else sh_split_from 0 in_single in_double (current +:+ str1 c) r
          | O => sh_split_from 0 in_single in_double (current +:+ str1 c) r
          end
      end
  end.
Definition sh_split_simple (s : string) : list string := sh_split_from 0 false false "" s.

Record BashCommandHighlights := mkHighlights {
  hl_prefix : list string;
  highlighted_words : list string;
  hl_suffix : list string
}.

(** [None] is the panic of a slice, [Some None] the source's [None]. *)
Definition primary_command_from_script (script : string) : option (option BashCommandHighlights) :=
  match all_commands_from_script script ≫= fun l => head (filter (fun c => negb (is_setup_command (plain_words c))) l) with
  | None => Some None
  | Some primary =>
      prefix ← slice_to script (span_start primary);
      suffix ← slice_from script (span_end primary);
      Some (Some (mkHighlights (sh_split_simple prefix) (plain_words primary) (sh_split_simple suffix)))
  end.

(** ** Soft breaks of the permission dialog *)

Definition PAYLOAD_NODE_KINDS : list string :=
  ["heredoc_body"; "simple_heredoc_body"; "heredoc_content"; "heredoc_end"; "string"; "raw_string";
   "string_content"; "ansi_c_string"; "translated_string"; "comment"].
Definition is_soft_break_operator_kind (k : string) : bool := is_one_of ["&&"; "||"; "|"; ";"] k.
Definition is_payload_node_kind (k : string) : bool := is_one_of PAYLOAD_NODE_KINDS k.

Definition visit_soft_break (script : string) (n : Node) : option (list nat * bool) :=
  if is_payload_node_kind (kind n) then Some ([], false)
  else
    let e := end_byte n in
    Some (if is_soft_break_operator_kind (kind n) && (0 <? e) && (e <=? String.length script) && is_char_boundary script e
          then [e] else [], true).

Definition soft_break_offsets_after_operators (script : string) : list nat :=
  match try_parse_shell script with
  | None => []
  | Some tree =>
      if has_error tree then []
      else dedup (sort_by id (default [] (walk_tree (visit_soft_break script) id (root_node tree))))
  end.

Definition HEREDOC_PAYLOAD : list string := ["heredoc_body"; "simple_heredoc_body"; "heredoc_content"].
Definition visit_heredoc (script : string) (n : Node) : option (list (nat * nat) * bool) :=
  if is_one_of HEREDOC_PAYLOAD (kind n) then
    Some (if (start_byte n <? end_byte n) && (end_byte n <=? String.length script)
          then [(start_byte n, end_byte n)] else [], false)
  else Some ([], true).

(** [sort_unstable] on pairs: by the first number, then by the second. *)
Definition heredoc_payload_byte_ranges (script : string) : list (nat * nat) :=
  match try_parse_shell script with
  | None => []
  | Some tree =>
      if has_error tree then []
      else dedup (sort_by fst (sort_by snd (default [] (walk_tree (visit_heredoc script) id (root_node tree)))))
  end.

Definition range_fully_inside (start fin : nat) (ranges : list (nat * nat)) : bool :=
  if fin <? start then false
  else existsb (fun '(rs, re) => (rs <=? start) && (fin <=? re)) ranges.

(** The loop over the breaks: slices from one break to the next; [None] is the
    panic of a slice that is not at a character boundary. *)
Fixpoint chunks_at (line : string) (start : nat) (breaks : list nat) : option (list string * nat) :=
  match breaks with
  | [] => Some ([], start)
  | b :: bs =>
      if start <? b then
        if is_char_boundary line start && is_char_boundary line b then
          '(cs, fin) ← chunks_at line b bs; Some (slice line start b :: cs, fin)
        else None
      else chunks_at line start bs
  end.
Definition chunks_to_end (line : string) (breaks : list nat) : option (list string) :=
  '(cs, start) ← chunks_at line 0 breaks;
  if start <? String.length line then last ← slice_from line start; Some (cs ++ [last]) else Some cs.

Definition split_physical_line_at_soft_breaks (line : string) (line_start : nat) (breaks : list nat)
  : option (list string) :=
  let line_end := line_start + String.length line in
  let rel := (fun b => b - line_start) <$> filter (fun b => line_start < b /\ b < line_end) breaks in
  let rel := dedup (filter (fun b => is_char_boundary line b) rel) in
  match rel with
  | [] => Some [line]
  | _ => chunks ← chunks_to_end line rel; Some (match chunks with [] => [line] | _ => chunks end)
  end.

Definition soft_break_chunks (script : string) : option (list string) :=
  let breaks := soft_break_offsets_after_operators script in
  match breaks with
  | [] => Some [script]
  | _ => chunks_to_end script (filter (fun b => b <= String.length script) breaks)
  end.

End Scripts.

(** ** The walk visits every node *)

Fixpoint all_nodes (n : Node) : list Node :=
  match n with mkNode _ _ _ _ _ cs => n :: concat (all_nodes <$> cs) end.

Lemma all_nodes_eq n : all_nodes n = n :: concat (all_nodes <$> children n).
Proof. by destruct n. Qed.
Lemma node_size_eq n : node_size n = S (sum_list (node_size <$> children n)).
Proof. by destruct n. Qed.

Lemma sum_list_perm (l k : list nat) : l ≡ₚ k -> sum_list l = sum_list k.
Proof. induction 1; cbn; lia. Qed.

Lemma sum_list_app (l k : list nat) : sum_list (l ++ k) = sum_list l + sum_list k.
Proof. induction l; cbn; lia. Qed.

Section Walk.
Context {A : Type} (visit : Node -> option (list A * bool)) (order : list Node -> list Node).
Hypothesis order_perm : forall l, order l ≡ₚ l.

Definition yields (n : Node) : list A := match visit n with Some (out, _) => out | None => [] end.
Definition descends (n : Node) : bool := match visit n with Some (_, d) => d | None => true end.

(** The node and what lies below it, unless the walk does not go there. *)
Fixpoint reached (n : Node) : list Node :=
  match n with mkNode _ _ _ _ _ cs => n :: if descends n then concat (reached <$> cs) else [] end.
Lemma reached_eq n : reached n = n :: if descends n then concat (reached <$> children n) else [].
Proof. by destruct n. Qed.

(** With the size of what is on the stack as fuel the walk stops exactly at a
    node that is refused, and otherwise yields what every node it reaches does. *)
Lemma walk_spec fuel stack :
  sum_list (node_size <$> stack) <= fuel ->
  match walk visit order fuel stack with
  | Some out => Forall (fun n => is_Some (visit n)) (concat (reached <$> stack)) /\
                out ≡ₚ concat (yields <$> concat (reached <$> stack))
  | None => Exists (fun n => visit n = None) (concat (reached <$> stack))
  end.
Proof.
  induction fuel as [|fuel IH] in stack |- *; destruct stack as [|n rest]; intros Hf; try by split.
  { rewrite fmap_cons in Hf. cbn in Hf. rewrite (node_size_eq n) in Hf. lia. }
  change (node_size n + sum_list (node_size <$> rest) <= S fuel) in Hf.
  rewrite fmap_cons. cbn [concat]. rewrite (reached_eq n). rewrite (node_size_eq n) in Hf.
  cbn [walk mbind option_bind]. destruct (visit n) as [[out d]|] eqn:Ev; cbn [mbind option_bind].
  2: { by apply Exists_cons_hd. }
  assert (descends n = d) as -> by (unfold descends; by rewrite Ev).
  set (stack' := if d then _ else _).
  assert (Hp : concat (reached <$> stack') ≡ₚ
               (if d then concat (reached <$> children n) else []) ++ concat (reached <$> rest)).
  { subst stack'. destruct d; [|done]. by rewrite fmap_app, concat_app, (order_perm (children n)). }
  assert (Hs : sum_list (node_size <$> stack') <= fuel).
  { subst stack'. destruct d; [|lia]. rewrite fmap_app, sum_list_app, (sum_list_perm _ (node_size <$> children n)); [lia|].
    by rewrite (order_perm (children n)). }
  specialize (IH stack' Hs). destruct (walk visit order fuel stack') as [out'|]; cbn [fmap option_fmap option_map].
  - destruct IH as [Hv Ho]. rewrite Hp in Hv, Ho. cbn [app fmap list_fmap concat]. split; [by constructor|].
    unfold yields at 1. by rewrite Ev, Ho.
  - rewrite Hp in IH. by apply Exists_cons_tl.
Qed.

Lemma walk_tree_spec root :
  match walk_tree visit order root with
  | Some out => Forall (fun n => is_Some (visit n)) (reached root) /\ out ≡ₚ concat (yields <$> reached root)
  | None => Exists (fun n => visit n = None) (reached root)
  end.
Proof.
  pose proof (walk_spec (node_size root) [root]) as H. cbn [fmap list_fmap concat] in H.
  rewrite app_nil_r in H. apply H. cbn. lia.
Qed.

(** A walk that refuses no node yields what is reached. *)
Lemma walk_tree_all root :
  (forall n, is_Some (visit n)) ->
  exists out, walk_tree visit order root = Some out /\ out ≡ₚ concat (yields <$> reached root).
Proof.
  intros Hv. pose proof (walk_tree_spec root) as H. destruct (walk_tree visit order root) as [out|].
  - exists out. by destruct H.
  - apply Exists_exists in H as (n & _ & Hn). destruct (Hv n). congruence.
Qed.
End Walk.

Lemma node_ind' (P : Node -> Prop) :
  (forall k b s e f cs, Forall P cs -> P (mkNode k b s e f cs)) -> forall n, P n.
Proof.
  intros H. fix IH 1. intros [k b s e f cs]. apply H. induction cs as [|c cs IHc]; constructor; [apply IH|exact IHc].
Qed.

Lemma reached_all {A} (visit : Node -> option (list A * bool)) :
  (forall n out d, visit n = Some (out, d) -> d = true) -> forall n, reached visit n = all_nodes n.
Proof.
  intros Hd n. assert (Hn : forall m, descends visit m = true).
  { intros m. unfold descends. destruct (visit m) as [[]|] eqn:E; eauto. }
  induction n as [k b s e f cs IH] using node_ind'. cbn [reached all_nodes]. rewrite Hn. f_equal.
  f_equal. apply list_fmap_ext. intros i c Hc. exact (Forall_lookup_1 _ _ _ _ IH Hc).
Qed.

Lemma insert_by_perm {A} (key : A -> nat) x l : insert_by key x l ≡ₚ x :: l.
Proof. induction l as [|y l IH]; [done|]. cbn. destruct (_ <=? _); [done|]. by rewrite IH, Permutation_swap. Qed.
Lemma sort_by_perm {A} (key : A -> nat) l : sort_by key l ≡ₚ l.
Proof. induction l as [|x l IH]; [done|]. cbn. by rewrite insert_by_perm, IH. Qed.

Definition by_key {A} (key : A -> nat) (x y : A) : Prop := key x <= key y.

Lemma sort_by_sorted {A} (key : A -> nat) l : StronglySorted (by_key key) (sort_by key l).
Proof.
  induction l as [|x l IH]; [constructor|].
  change (sort_by key (x :: l)) with (insert_by key x (sort_by key l)). revert IH. generalize (sort_by key l). intros l0 IH. clear l. rename l0 into l.
  induction IH as [|y l Hs IH Hy]; cbn; [repeat constructor|].
  destruct (Nat.leb_spec (key x) (key y)).
  - repeat constructor; auto. eapply Forall_impl; [exact Hy|]. unfold by_key. lia.
  - constructor; [done|]. rewrite insert_by_perm. constructor; [unfold by_key; lia|done].
Qed.

(** ** Nothing of a script is lost *)

Definition is_command_node (n : Node) : bool := is_named n && bool_decide (kind n = "command").

Lemma yields_word_only ns :
  Forall (fun n => is_Some (visit_word_only n)) ns ->
  concat (yields visit_word_only <$> ns) = filter (fun n => is_command_node n) ns.
Proof.
  induction 1 as [|n ns [r Hn] _ IH]; [done|]. rewrite fmap_cons, filter_cons. cbn [concat].
  rewrite IH. unfold yields, visit_word_only in *. destruct (node_allowed n); [|done].
  unfold is_command_node. by destruct (is_named n && _).
Qed.

Lemma visit_word_only_some n : is_Some (visit_word_only n) <-> node_allowed n = true.
Proof. unfold visit_word_only. destruct (node_allowed n); by split. Qed.

(** C19.  A script is taken apart only when its tree has no error and every node
    of it is of a known kind, and then each command of the script, at whatever
    depth of pipelines and lists, is among the commands returned, in the order of
    the source and with its words; it is refused for no other reason than these
    or a command with a word that is not plain. *)
Theorem commands_complete tree src :
  match try_parse_word_only_commands_sequence tree src with
  | Some cmds =>
      has_error tree = false /\ Forall (fun n => node_allowed n = true) (all_nodes (root_node tree)) /\
      exists ns, ns ≡ₚ filter (fun n => is_command_node n) (all_nodes (root_node tree)) /\
        StronglySorted (by_key start_byte) ns /\
        Forall2 (fun n c => parse_plain_command_from_node src n = Some c) ns cmds
  | None =>
      has_error tree = true \/ Exists (fun n => node_allowed n = false) (all_nodes (root_node tree)) \/
      Exists (fun n => is_command_node n = true /\ parse_plain_command_from_node src n = None)
        (all_nodes (root_node tree))
  end.
Proof.
  unfold try_parse_word_only_commands_sequence. destruct (has_error tree); [by left|].
  pose proof (walk_tree_spec visit_word_only (@rev Node) (fun l => symmetry (Permutation_rev l)) (root_node tree)) as Hw.
  rewrite (reached_all visit_word_only) in Hw by (intros n out d; unfold visit_word_only; destruct (node_allowed n); congruence).
  destruct (walk_tree _ _ _) as [out|]; cbn [mbind option_bind].
  - destruct Hw as [Hv Ho]. rewrite (yields_word_only _ Hv) in Ho.
    assert (Hs : sort_by start_byte out ≡ₚ filter (fun n => is_command_node n) (all_nodes (root_node tree)))
      by (by rewrite sort_by_perm, Ho).
    destruct (mapM _ _) as [cmds|] eqn:Em.
    + split_and!; [done| |].
      * eapply Forall_impl; [exact Hv|]. intros n. apply visit_word_only_some.
      * exists (sort_by start_byte out). split_and!; [done|apply sort_by_sorted|by apply mapM_Some].
    + do 2 right. apply mapM_None in Em. apply Exists_exists in Em as (n & Hn & En).
      rewrite Hs, list_elem_of_filter in Hn. apply Exists_exists. exists n. split; [apply Hn|]. split; [|done].
      destruct Hn as [Hc _]. by destruct (is_command_node n).
  - right. left. eapply Exists_impl; [exact Hw|]. intros n Hn. cbn in Hn.
    unfold visit_word_only in Hn. by destruct (node_allowed n).
Qed.

(** ** The chunks of the dialog are the text *)

Lemma str_take_add n m s : str_take n s +:+ str_take m (str_drop n s) = str_take (n + m) s.
Proof.
  revert s. induction n as [|n IH]; intros [|a s]; cbn [str_take str_drop Nat.add]; try done.
  - by destruct m.
  - by rewrite str_app_cons, IH.
Qed.
Lemma str_drop_add n m s : str_drop m (str_drop n s) = str_drop (n + m) s.
Proof.
  revert s. induction n as [|n IH]; intros [|a s]; cbn [str_drop Nat.add]; try done. by destruct m.
Qed.

Lemma slice_join s a b c : a <= b -> b <= c -> slice s a b +:+ slice s b c = slice s a c.
Proof.
  intros H1 H2. unfold slice.
  assert (Hd : str_drop b s = str_drop (b - a) (str_drop a s)) by (rewrite str_drop_add; f_equal; lia).
  rewrite Hd, str_take_add. f_equal. lia.
Qed.

Lemma str_take_all n s : String.length s <= n -> str_take n s = s.
Proof. revert s. induction n as [|n IH]; intros [|a s]; cbn; auto with lia. intros. f_equal. apply IH. lia. Qed.

Lemma slice_from_join s a b : a <= b -> slice s a b +:+ str_drop b s = str_drop a s.
Proof.
  intros H. unfold slice.
  assert (Hd : str_drop b s = str_drop (b - a) (str_drop a s)) by (rewrite str_drop_add; f_equal; lia).
  by rewrite Hd, str_take_drop.
Qed.

Lemma chunks_at_spec line start breaks :
  is_char_boundary line start = true -> Forall (fun b => is_char_boundary line b = true) breaks ->
  exists cs fin, chunks_at line start breaks = Some (cs, fin) /\ start <= fin /\ is_char_boundary line fin = true /\
    str_concat cs = slice line start fin.
Proof.
  intros Hs Hb. induction Hb as [|b bs Hb _ IH] in start, Hs |- *; cbn [chunks_at].
  - exists [], start. split_and!; try done. unfold slice. by rewrite Nat.sub_diag.
  - destruct (Nat.ltb_spec start b); [|auto].
    rewrite Hs, Hb. cbn [andb]. destruct (IH b Hb) as (cs & fin & -> & Hle & Hf & Hc).
    cbn [mbind option_bind]. exists (slice line start b :: cs), fin. split_and!; try done; [lia|].
    cbn [str_concat]. rewrite Hc. apply slice_join; lia.
Qed.

Lemma chunks_to_end_spec line breaks :
  Forall (fun b => is_char_boundary line b = true) breaks ->
  exists cs, chunks_to_end line breaks = Some cs /\ str_concat cs = line.
Proof.
  intros Hb. destruct (chunks_at_spec line 0 breaks eq_refl Hb) as (cs & fin & Hc & _ & Hf & Hs).
  unfold chunks_to_end. rewrite Hc. cbn [mbind option_bind].
  assert (Hj : str_concat cs +:+ str_drop fin line = line) by (rewrite Hs; by rewrite slice_from_join by lia).
  destruct (Nat.ltb_spec fin (String.length line)).
  - unfold slice_from. rewrite Hf. cbn [mbind option_bind]. eexists. split; [done|].
    rewrite str_concat_app. cbn [str_concat]. by rewrite str_app_nil_r.
  - exists cs. split; [done|]. rewrite Hs. unfold slice. rewrite Nat.sub_0_r. cbn [str_drop]. by apply str_take_all.
Qed.

Lemma elem_of_concat {A} (x : A) ls : x ∈ concat ls <-> exists l, x ∈ l /\ l ∈ ls.
Proof.
  induction ls as [|l ls IH]; cbn [concat]; [set_solver|]. rewrite elem_of_app, IH. set_solver.
Qed.

Lemma elem_of_dedup {A} `{EqDecision A} (l : list A) y : y ∈ dedup l <-> y ∈ l.
Proof.
  unfold dedup, dedup_by. destruct l as [|x l]; [done|]. revert x. induction l as [|z l IH]; intros x; cbn; [done|].
  case_bool_decide as E; [subst z; rewrite IH; set_solver|]. rewrite elem_of_cons, IH. set_solver.
Qed.

Lemma dedup_increasing (l : list nat) : StronglySorted le l -> StronglySorted lt (dedup l).
Proof.
  unfold dedup, dedup_by. destruct l as [|x l]; [constructor|].
  induction l as [|z l IH] in x |- *; intros Hs; cbn; [repeat constructor|].
  apply StronglySorted_inv in Hs as [Hs Hx]. apply Forall_cons in Hx as [Hxz Hx].
  case_bool_decide as E; [subst z; by apply IH|]. constructor; [by apply IH|].
  apply Forall_forall. intros y Hy. apply (elem_of_dedup (z :: l) y) in Hy. apply elem_of_cons in Hy as [->|Hy]; [lia|].
  apply StronglySorted_inv in Hs as [_ Hz]. rewrite Forall_forall in Hz. specialize (Hz _ Hy). lia.
Qed.

(** A node that is not inside a payload. *)
Definition operator_at (script : string) (b : nat) (n : Node) : Prop :=
  is_payload_node_kind (kind n) = false /\ is_soft_break_operator_kind (kind n) = true /\ end_byte n = b /\
  0 < b <= String.length script /\ is_char_boundary script b = true.

Section Breaks.
Variable try_parse_shell : string -> option Tree.

Lemma soft_break_offsets_spec script b :
  b ∈ soft_break_offsets_after_operators try_parse_shell script <->
  exists tree n, try_parse_shell script = Some tree /\ has_error tree = false /\
    n ∈ reached (visit_soft_break script) (root_node tree) /\ operator_at script b n.
Proof.
  unfold soft_break_offsets_after_operators. destruct (try_parse_shell script) as [tree|]; [|set_solver].
  destruct (has_error tree) eqn:Eh; [split; [set_solver|]; intros (? & ? & ? & ? & ?); congruence|].
  destruct (walk_tree_all (visit_soft_break script) id (fun l => reflexivity _) (root_node tree)) as (out & -> & Ho).
  { intros n. unfold visit_soft_break. case_match; eauto. }
  cbn [from_option]. rewrite elem_of_dedup, sort_by_perm. unfold id. rewrite Ho, elem_of_concat. split.
  - intros (l & Hb & (n & -> & Hn)%list_elem_of_fmap). exists tree, n. split_and!; try done.
    unfold yields, visit_soft_break in Hb. destruct (is_payload_node_kind _) eqn:Ep; [set_solver|].
    destruct (_ && _) eqn:Ec; [|set_solver]. apply list_elem_of_singleton in Hb as ->.
    apply andb_true_iff in Ec as [[[? ?]%andb_true_iff ?]%andb_true_iff ?]. zbool. by split_and!.
  - intros (tree' & n & [= <-] & _ & Hn & Hp & Hk & He & [H0 Hl] & Hc). exists (yields (visit_soft_break script) n).
    split; [|by apply list_elem_of_fmap_2]. unfold yields, visit_soft_break. rewrite Hp, Hk, He, Hc.
    apply Nat.ltb_lt in H0. apply Nat.leb_le in Hl. rewrite H0, Hl. set_solver.
Qed.

(** The dialog never loses or changes a character: the offsets at which a
    script may be broken are increasing and are exactly the ends of the operators
    outside of strings, comments and here-documents; cutting the script or any
    line at them never panics and the pieces put together are the text. *)
Theorem soft_breaks_lossless script line line_start breaks :
  StronglySorted lt (soft_break_offsets_after_operators try_parse_shell script) /\
  (forall b, b ∈ soft_break_offsets_after_operators try_parse_shell script <->
     exists tree n, try_parse_shell script = Some tree /\ has_error tree = false /\
       n ∈ reached (visit_soft_break script) (root_node tree) /\ operator_at script b n) /\
  (exists cs, soft_break_chunks try_parse_shell script = Some cs /\ str_concat cs = script) /\
  (exists cs, split_physical_line_at_soft_breaks line line_start breaks = Some cs /\ str_concat cs = line).
Proof.
  split_and!.
  - unfold soft_break_offsets_after_operators. destruct (try_parse_shell script) as [tree|]; [|constructor].
    destruct (has_error tree); [constructor|]. apply dedup_increasing. apply (sort_by_sorted id).
  - intros b. apply soft_break_offsets_spec.
  - unfold soft_break_chunks. destruct (soft_break_offsets_after_operators try_parse_shell script) as [|b0 bs] eqn:Eb.
    { exists [script]. split; [done|]. cbn [str_concat]. apply str_app_nil_r. }
    apply chunks_to_end_spec. apply Forall_forall. intros b [_ Hb]%list_elem_of_filter. rewrite <- Eb in Hb.
    apply soft_break_offsets_spec in Hb as (? & ? & _ & _ & _ & _ & _ & _ & _ & Hc). done.
  - unfold split_physical_line_at_soft_breaks. set (rel := dedup _).
    destruct rel as [|r rs] eqn:Er; [exists [line]; split; [done|]; cbn [str_concat]; apply str_app_nil_r|].
    destruct (chunks_to_end_spec line rel) as (cs & Hc & Hj).
    { subst rel. apply Forall_forall. intros b Hb%elem_of_dedup%list_elem_of_filter. destruct Hb as [Hb _].
      by destruct (is_char_boundary line b). }
    rewrite <- Er, Hc. cbn [mbind option_bind]. eexists. split; [done|].
    destruct cs; [cbn [str_concat] in *; by rewrite str_app_nil_r|done].
Qed.
End Breaks.
