(* ===== verification/PermissionRules.v ===== *)
(** * The permission rule language (ccode-workspace/src/permission/rules.rs, types.rs)

    The vocabulary of the permission policy (accesses, rules, decisions) and the
    parser of rule strings such as [Bash(npm run build)], [Read(src)] and
    [WebFetch(domain:example.com)]. *)

From S2P Require Import Prelude RustStr TextLines TextFind Json ShellWords.

(** ** Vocabulary *)

Inductive PatternMode := Glob | Domain.
Inductive RuleAction := RuleAllow | RuleDeny | RuleAsk.
Inductive ToolFilter := AnyTool | BashTool | EditTool | ReadTool | GrepTool | McpTool | WebFetchTool | WebSearchTool.
Inductive PromptPolicy := PromptAsk | PromptDeny | PromptAuto.

#[export] Instance RuleAction_eq : EqDecision RuleAction.
Proof. solve_decision. Defined.
#[export] Instance ToolFilter_eq : EqDecision ToolFilter.
Proof. solve_decision. Defined.
#[export] Instance PatternMode_eq : EqDecision PatternMode.
Proof. solve_decision. Defined.

Record PermissionRule := mkRule {
  action : RuleAction;
  tool : ToolFilter;
  pattern : option string;
  pattern_mode : PatternMode
}.

Record PermissionConfig := mkConfig { rules : list PermissionRule; prompt_policy : PromptPolicy }.
Definition config_new (rs : list PermissionRule) : PermissionConfig := mkConfig rs PromptAsk.

Inductive AccessKind :=
| Read (path : option string)
| Grep (path glob : option string)
| Edit (path : string)
| Bash (cmd : string)
| MCPTool (name : string) (input : Value)
| WebFetch (url : string)
| WebSearch (query : string).

Inductive Decision :=
| Allow
| Ask
| FollowupMessage (text : string)
| Reject (reason : string)
| PolicyDeny (reason : string)
| Cancelled.

(** ** The default mode of the settings *)

Inductive DefaultPermissionMode := ModeDefault | AcceptEdits | Plan | Auto | DontAsk | BypassPermissions.

Definition mode_from_str (s : string) : result string DefaultPermissionMode :=
  if bool_decide (s = "default") then Ok ModeDefault
  else if bool_decide (s = "acceptEdits") then Ok AcceptEdits
  else if bool_decide (s = "plan") then Ok Plan
  else if bool_decide (s = "auto") then Ok Auto
  else if bool_decide (s = "dontAsk") then Ok DontAsk
  else if bool_decide (s = "bypassPermissions") then Ok BypassPermissions
  else Err s.

Record DefaultModeEffects := mkEffects {
  eff_prompt_policy : PromptPolicy;
  accept_edits : bool;
  bypass_permissions : bool
}.

Definition effects (m : DefaultPermissionMode) : DefaultModeEffects :=
  match m with
  | AcceptEdits => mkEffects PromptAsk true false
  | BypassPermissions => mkEffects PromptAsk false true
  | ModeDefault | Plan => mkEffects PromptAsk false false
  | DontAsk => mkEffects PromptDeny false false
  | Auto => mkEffects PromptAuto false false
  end.

(** ** Parsing a rule *)

Inductive RuleParseError :=
| UnsupportedToolPrefix (prefix : string)
| UnknownToolPrefix (prefix : string)
| MalformedRule (detail : string).

Definition show_parse_error (e : RuleParseError) : string :=
  match e with
  | UnsupportedToolPrefix p => "unsupported tool prefix: " +:+ p
  | UnknownToolPrefix p => "unknown tool prefix: " +:+ p
  | MalformedRule d => "malformed rule: " +:+ d
  end.

Definition tool_name_to_filter (name : string) : option ToolFilter :=
  if bool_decide (name = "Bash") then Some BashTool
  else if is_one_of ["Read"; "NotebookRead"] name then Some ReadTool
  else if is_one_of ["Edit"; "Write"; "NotebookEdit"] name then Some EditTool
  else if bool_decide (name = "MCPTool") then Some McpTool
  else if is_one_of ["Grep"; "Glob"] name then Some GrepTool
  else if bool_decide (name = "WebFetch") then Some WebFetchTool
  else if bool_decide (name = "WebSearch") then Some WebSearchTool
  else None.

(** The backslashes in front of a position, read backwards from it. *)
Fixpoint leading_backslashes (s : string) : nat :=
  match s with
  | String c r => if Ascii.eqb c bslash then S (leading_backslashes r) else 0
  | EmptyString => 0
  end.
Definition is_unescaped (s : string) (pos : nat) : bool :=
  Nat.even (leading_backslashes (String.rev (str_take pos s))).

Definition unescaped_at (s : string) (target : ascii) (i : nat) : bool :=
  bool_decide (String.get i s = Some target) && is_unescaped s i.
Definition find_first_unescaped (s : string) (target : ascii) : option nat :=
  find (unescaped_at s target) (seq 0 (String.length s)).
Definition find_last_unescaped (s : string) (target : ascii) : option nat :=
  find (unescaped_at s target) (rev (seq 0 (String.length s))).

Definition lparen : ascii := "("%char.
Definition rparen : ascii := ")"%char.
Definition escaped (c : ascii) : string := String bslash (str1 c).

Definition unescape_rule_content (s : string) : string :=
  if has_char bslash s then
    str_replace (escaped bslash) (str1 bslash)
      (str_replace (escaped rparen) (str1 rparen) (str_replace (escaped lparen) (str1 lparen) s))
  else s.

Definition strip_domain_prefix (p : string) : string * PatternMode :=
  match str_strip_prefix "domain:" p with
  | Some domain => (domain, Domain)
  | None => (p, Glob)
  end.

Definition strip_bash_colon_wildcard (p : string) : string :=
  match str_strip_suffix ":*" p with Some prefix => prefix | None => p end.

Definition none_if_empty (p : string) : option string := if bool_decide (p = "") then None else Some p.

(** The rule for a tool and the pattern between the parentheses. *)
Definition tool_rule (a : RuleAction) (t : ToolFilter) (p : string) : PermissionRule :=
  let p := if bool_decide (t = BashTool) then strip_bash_colon_wildcard p else p in
  let (p, m) := strip_domain_prefix p in
  mkRule a t (none_if_empty p) m.

Definition parse_permission_rule (rule : string) (a : RuleAction) : result RuleParseError PermissionRule :=
  let rule := trim rule in
  match find_first_unescaped rule lparen with
  | Some open_paren =>
      let prefix_trimmed := trim (str_take open_paren rule) in
      let content_and_close := str_drop (S open_paren) rule in
      match find_last_unescaped content_and_close rparen with
      | None => Err (MalformedRule "missing closing parenthesis")
      | Some close_paren =>
          let raw_content := trim (str_take close_paren content_and_close) in
          let p := if bool_decide (raw_content = "" \/ raw_content = "*") then "" else unescape_rule_content raw_content in
          match tool_name_to_filter prefix_trimmed with
          | Some t => Ok (tool_rule a t p)
          | None =>
              if bool_decide (prefix_trimmed = "EnterWorktree") then Err (UnsupportedToolPrefix prefix_trimmed)
              else Err (UnknownToolPrefix prefix_trimmed)
          end
      end
  | None =>
      match tool_name_to_filter rule with
      | Some t => Ok (mkRule a t None Glob)
      | None => Ok (mkRule a AnyTool (none_if_empty rule) Glob)
      end
  end.

(** ** Unescaping in one pass *)

(** The characters that a backslash escapes. *)
Definition special (c : ascii) : bool := Ascii.eqb c lparen || Ascii.eqb c rparen || Ascii.eqb c bslash.

Fixpoint unescape_spec (s : string) : string :=
  match s with
  | EmptyString => EmptyString
  | String c r =>
      if Ascii.eqb c bslash then
        match r with
        | EmptyString => s
        | String d r' => if special d then String d (unescape_spec r') else String c (unescape_spec r)
        end
      else String c (unescape_spec r)
  end.

(** The text that is written between the parentheses to mean [s]. *)
Fixpoint escape (s : string) : string :=
  match s with
  | EmptyString => EmptyString
  | String c r => if special c then String bslash (String c (escape r)) else String c (escape r)
  end.

Lemma replace_pair c s : str_replace (escaped c) (str1 c) (String bslash (String c s)) = String c (str_replace (escaped c) (str1 c) s).
Proof.
  change (String bslash (String c s)) with (escaped c +:+ s). rewrite replace_match by (unfold escaped; discriminate).
  unfold str1. by rewrite str_app_cons, str_app_nil_l.
Qed.

Lemma replace_keep c a s :
  (a = bslash -> String.get 0 s <> Some c) ->
  str_replace (escaped c) (str1 c) (String a s) = String a (str_replace (escaped c) (str1 c) s).
Proof.
  intros H. apply str_replace_other. unfold escaped, str1. cbn [starts_with].
  case_bool_decide as E; [subst a|done]. destruct s as [|d s]; [done|]. cbn [starts_with].
  case_bool_decide as E; [subst d|done]. by specialize (H eq_refl).
Qed.

(** The first two passes, which take the backslashes in front of parentheses. *)
Definition parens (s : string) : string :=
  str_replace (escaped rparen) (str1 rparen) (str_replace (escaped lparen) (str1 lparen) s).

Lemma lpass_get s : String.get 0 (str_replace (escaped lparen) (str1 lparen) s) = Some rparen -> String.get 0 s = Some rparen.
Proof.
  destruct s as [|a s]; [done|]. intros H.
  destruct (decide (a = bslash /\ String.get 0 s = Some lparen)) as [[-> Hg]|Hn].
  - destruct s as [|d s]; [done|]. cbn in Hg. injection Hg as ->. by rewrite replace_pair in H.
  - rewrite replace_keep in H by (intros ->; naive_solver). by cbn in *.
Qed.

Lemma parens_keep a s :
  (a = bslash -> String.get 0 s <> Some lparen /\ String.get 0 s <> Some rparen) ->
  parens (String a s) = String a (parens s).
Proof.
  intros H. unfold parens. rewrite (replace_keep lparen) by (intros; by apply H).
  apply replace_keep. intros -> Hg%lpass_get. by apply (H eq_refl).
Qed.

Lemma parens_pair c s : c = lparen \/ c = rparen -> parens (String bslash (String c s)) = String c (parens s).
Proof.
  unfold parens. intros [->| ->].
  - rewrite replace_pair. apply replace_keep. done.
  - rewrite (replace_keep lparen) by done. rewrite (replace_keep lparen) by done. by rewrite replace_pair.
Qed.

Lemma special_spec d : special d = true <-> d = lparen \/ d = rparen \/ d = bslash.
Proof. unfold special. rewrite !orb_true_iff, !Ascii.eqb_eq. tauto. Qed.

(** The last pass, which halves the backslashes that are left. *)
Definition halve (s : string) : string := str_replace (escaped bslash) (str1 bslash) s.
Lemma halve_pair s : halve (String bslash (String bslash s)) = String bslash (halve s).
Proof. apply replace_pair. Qed.
Lemma halve_keep a s : a <> bslash -> halve (String a s) = String a (halve s).
Proof. intros H. apply replace_keep. done. Qed.
Lemma halve_bslash a s : a <> bslash -> halve (String bslash (String a s)) = String bslash (String a (halve s)).
Proof. intros H. unfold halve. rewrite replace_keep by (intros _ [= ->]; done). by rewrite replace_keep. Qed.

Lemma string_len_ind (P : string -> Prop) :
  (forall s, (forall t, String.length t < String.length s -> P t) -> P s) -> forall s, P s.
Proof. intros H s. induction s using (well_founded_induction (Wf_nat.well_founded_ltof _ String.length)). auto. Qed.

(** The three passes do what one pass does. *)
Lemma unescape_passes s : halve (parens s) = unescape_spec s.
Proof.
  induction s as [s IH] using string_len_ind. destruct s as [|a s]; [done|]. cbn [unescape_spec].
  assert (IHs : halve (parens s) = unescape_spec s) by (apply IH; cbn; lia).
  destruct (Ascii.eqb_spec a bslash) as [->|Ha].
  2: { rewrite parens_keep, halve_keep, IHs by done. done. }
  destruct s as [|d r]; [done|]. assert (IHr : halve (parens r) = unescape_spec r) by (apply IH; cbn; lia).
  destruct (special d) eqn:Ed.
  - apply special_spec in Ed as [Hp|[Hp|Hp]].
    + rewrite parens_pair by auto. subst d. rewrite halve_keep, IHr; done.
    + rewrite parens_pair by auto. subst d. rewrite halve_keep, IHr; done.
    + subst d. rewrite parens_keep by done. destruct r as [|c r']; [done|].
      destruct (decide (c = lparen \/ c = rparen)) as [Hc|Hc].
      * rewrite parens_pair by done.
        assert (Hcb : c <> bslash) by (by destruct Hc as [->| ->]).
        rewrite halve_bslash by done. rewrite parens_keep, halve_keep in IHr by done. by rewrite IHr.
      * rewrite parens_keep by (intros _; split; intros [= ->]; tauto). by rewrite halve_pair, IHr.
  - assert (Hd : d <> lparen /\ d <> rparen /\ d <> bslash).
    { split_and!; intros ->; by vm_compute in Ed. }
    rewrite parens_keep by (intros _; split; intros [= ->]; naive_solver).
    rewrite parens_keep by naive_solver. rewrite halve_bslash by naive_solver.
    rewrite parens_keep, halve_keep in IHs by naive_solver. by rewrite IHs.
Qed.

Lemma unescape_spec_none s : has_char bslash s = false -> unescape_spec s = s.
Proof.
  induction s as [|a s IH]; [done|]. cbn. intros H. apply orb_false_iff in H as [Ha Hs].
  destruct (Ascii.eqb_spec a bslash) as [->|]; [by cbn in Ha|]. by rewrite IH.
Qed.

(** The three replacements of the source, one after the other over the whole
    text, are the decoding of the escapes from left to right: no result of one
    replacement is taken for an escape by the next. *)
Theorem unescape_one_pass s : unescape_rule_content s = unescape_spec s.
Proof.
  unfold unescape_rule_content. destruct (has_char bslash s) eqn:E.
  - apply unescape_passes.
  - by rewrite unescape_spec_none.
Qed.

(** ** A rule that is written is read *)

Lemma unescape_escape s : unescape_spec (escape s) = s.
Proof.
  induction s as [|c s IH]; [done|]. cbn [escape]. destruct (special c) eqn:Ec; cbn [unescape_spec].
  - rewrite Ec. cbn. by rewrite IH.
  - destruct (Ascii.eqb_spec c bslash) as [->|]; [by vm_compute in Ec|]. by rewrite IH.
Qed.

Lemma escape_inj s t : escape s = escape t -> s = t.
Proof. intros H. by rewrite <- (unescape_escape s), <- (unescape_escape t), H. Qed.

Lemma leading_app s y : Nat.even (leading_backslashes y) = true ->
  Nat.even (leading_backslashes (String.rev (escape s) +:+ y)) = true.
Proof.
  revert y. induction s as [|c s IH]; intros y Hy; [done|]. cbn [escape]. destruct (special c) eqn:Ec.
  - change (String bslash (String c (escape s))) with (escaped c +:+ escape s).
    rewrite str_rev_app, str_app_assoc. apply IH. unfold escaped, str1, String.rev. cbn [String.rev_app].
    rewrite !str_app_cons, str_app_nil_l. cbn [leading_backslashes].
    destruct (Ascii.eqb_spec c bslash); [|done]. cbn. exact Hy.
  - change (String c (escape s)) with (str1 c +:+ escape s). rewrite str_rev_app, str_app_assoc. apply IH.
    unfold str1, String.rev. cbn [String.rev_app]. rewrite !str_app_cons, str_app_nil_l. cbn [leading_backslashes].
    destruct (Ascii.eqb_spec c bslash) as [->|]; [by vm_compute in Ec|done].
Qed.

Lemma leading_none s : has_char bslash s = false -> leading_backslashes s = 0.
Proof.
  destruct s as [|c s]; [done|]. cbn. intros [H _]%orb_false_iff. by destruct (Ascii.eqb_spec c bslash) as [->|].
Qed.

Lemma get_app_l i s t : i < String.length s -> String.get i (s +:+ t) = String.get i s.
Proof. intros H. symmetry. by apply String.append_correct1. Qed.
Lemma get_app_r s t : String.get (String.length s) (s +:+ t) = String.get 0 t.
Proof. induction s as [|a s IH]; [by rewrite str_app_nil_l|]. rewrite str_app_cons. exact IH. Qed.
Lemma get_has i s c : String.get i s = Some c -> has_char c s = true.
Proof.
  revert i. induction s as [|a s IH]; intros [|i] H; try done; cbn in *.
  - injection H as ->. by rewrite bool_decide_eq_true_2.
  - rewrite (IH _ H). apply orb_true_r.
Qed.

Lemma find_first_seq f n m : (forall i, i < n -> f i = false) -> f n = true -> n < m -> find f (seq 0 m) = Some n.
Proof.
  intros Hl Hn Hm. replace m with (n + (m - n)) by lia. rewrite seq_app.
  destruct (m - n) as [|k] eqn:Ek; [lia|]. clear Hm Ek. cbn [seq]. rewrite Nat.add_0_l.
  enough (forall j, j <= n -> find f (seq j (n - j) ++ n :: seq (S n) k) = Some n) as H
    by (specialize (H 0 ltac:(lia)); by rewrite Nat.sub_0_r in H).
  intros j Hj. remember (n - j) as d eqn:Ed. revert j Hj Ed. induction d as [|d IH]; intros j Hj Ed; cbn.
  - by rewrite Hn.
  - rewrite Hl by lia. apply IH; lia.
Qed.

Lemma find_first_paren name rest :
  has_char lparen name = false -> has_char bslash name = false ->
  find_first_unescaped (name +:+ String lparen rest) lparen = Some (String.length name).
Proof.
  intros Hp Hb. apply find_first_seq.
  - intros i Hi. unfold unescaped_at. rewrite get_app_l by done.
    rewrite bool_decide_eq_false_2; [done|]. intros H%get_has. congruence.
  - unfold unescaped_at, is_unescaped. rewrite get_app_r, str_take_app. cbn [String.get].
    rewrite bool_decide_eq_true_2 by done. rewrite leading_none; [done|].
    clear -Hb. rewrite <- Hb. clear Hb. induction name as [|a s IH]; [done|].
    change (String a s) with (str1 a +:+ s). rewrite str_rev_app, !has_char_app, IH, orb_comm. done.
  - rewrite length_str_app. cbn [String.length]. lia.
Qed.

Lemma find_last_paren c : find_last_unescaped (escape c +:+ str1 rparen) rparen = Some (String.length (escape c)).
Proof.
  unfold find_last_unescaped. rewrite length_str_app. cbn [String.length str1]. rewrite Nat.add_1_r, seq_S, rev_app_distr.
  cbn [rev app find]. unfold unescaped_at at 1, is_unescaped. rewrite Nat.add_0_l, get_app_r, str_take_app. cbn [String.get].
  rewrite bool_decide_eq_true_2 by done. rewrite <- (str_app_nil_r (String.rev (escape c))). by rewrite leading_app.
Qed.

(** *** White space at the ends *)

Definition visible (c : ascii) : bool := byte_in 33 126 c.

Lemma visible_not c lo hi : visible c = true -> (hi < 33)%Z \/ (126 < lo)%Z -> byte_in lo hi c = false.
Proof.
  unfold visible, byte_in. intros H Hr. apply andb_true_iff in H as [H1 H2]. zbool.
  apply andb_false_iff. destruct Hr; [right|left]; apply Z.leb_gt; lia.
Qed.

Lemma ws_prefix_visible c r : visible c = true -> ws_prefix (String c r) = 0.
Proof.
  intros H. cbn [ws_prefix]. rewrite !(visible_not c) by (done || lia).
  destruct r as [|b [|d r]]; try done.
Qed.

(** A white space character does not run into a visible one. *)
Lemma ws_prefix_before a s c k :
  visible c = true -> ws_prefix (String a (s +:+ str1 c)) = S k -> k <= String.length s.
Proof.
  intros H. unfold str1. destruct s as [|b [|d s]];
    rewrite ?str_app_cons, ?str_app_nil_l; cbn [ws_prefix String.length];
    rewrite ?(visible_not c) by (done || lia); rewrite ?andb_false_r; cbn [orb]; repeat case_match; intros; simplify_eq; lia.
Qed.

Lemma trim_start_kept k s c : visible c = true -> k <= String.length s -> trim_start_from k (s +:+ str1 c) <> "".
Proof.
  intros Hc. revert k. induction s as [|a s IH]; intros k Hk.
  - rewrite str_app_nil_l. assert (k = 0) as -> by (cbn in Hk; lia). unfold str1. cbn [trim_start_from].
    by rewrite ws_prefix_visible.
  - rewrite str_app_cons. cbn [trim_start_from]. destruct k as [|k]; [|apply IH; cbn in Hk; lia].
    destruct (ws_prefix _) as [|k] eqn:E; [done|]. apply IH. by eapply ws_prefix_before.
Qed.

Lemma trim_visible b s c : visible b = true -> visible c = true ->
  trim (String b (s +:+ str1 c)) = String b (s +:+ str1 c).
Proof.
  intros Hb Hc. unfold trim, trim_start. cbn [trim_start_from]. rewrite ws_prefix_visible by done.
  rewrite <- str_app_cons. generalize (String b s). clear b s Hb. intros s.
  induction s as [|a s IH].
  - rewrite str_app_nil_l. unfold str1. cbn [trim_end]. unfold trim_start. cbn [trim_start_from].
    by rewrite ws_prefix_visible.
  - rewrite str_app_cons. cbn [trim_end]. rewrite bool_decide_eq_false_2; [by rewrite IH|].
    rewrite <- str_app_cons. apply trim_start_kept; [done|lia].
Qed.

(** Names of tools start and end with a letter and hold no parenthesis. *)
Definition tool_names : list string :=
  ["Bash"; "Read"; "NotebookRead"; "Edit"; "Write"; "NotebookEdit"; "MCPTool"; "Grep"; "Glob"; "WebFetch"; "WebSearch"].
Lemma tool_name_known name t : tool_name_to_filter name = Some t -> name ∈ tool_names.
Proof.
  unfold tool_name_to_filter, is_one_of, tool_names. repeat case_bool_decide; intros; simplify_eq; set_solver.
Qed.

Lemma tool_name_shape name : name ∈ tool_names ->
  has_char lparen name = false /\ has_char bslash name = false /\ trim name = name /\
  exists b s, name = String b s /\ visible b = true.
Proof.
  unfold tool_names. intros H.
  repeat (apply elem_of_cons in H as [->|H]; [split_and!; [done|done|by vm_compute|by eexists _, _]|]).
  by apply elem_of_nil in H.
Qed.

(** A pattern between the parentheses is read without its escapes. *)
Lemma parse_written name t a c :
  tool_name_to_filter name = Some t -> trim (escape c) = escape c -> c <> "" -> c <> "*" ->
  parse_permission_rule (name +:+ str1 lparen +:+ escape c +:+ str1 rparen) a = Ok (tool_rule a t c).
Proof.
  intros Ht Htr Hne Hns.
  destruct (tool_name_shape name (tool_name_known _ _ Ht)) as (Hl & Hb & Htrim & b & s & Es & Hv).
  assert (E1 : trim (name +:+ str1 lparen +:+ escape c +:+ str1 rparen) = name +:+ String lparen (escape c +:+ str1 rparen)).
  { change (str1 lparen +:+ escape c +:+ str1 rparen) with (String lparen (escape c +:+ str1 rparen)).
    rewrite <- str_app_cons, <- str_app_assoc. rewrite Es, str_app_cons. by apply trim_visible. }
  unfold parse_permission_rule. rewrite E1, find_first_paren by done. rewrite str_take_app, Htrim.
  assert (str_drop (S (String.length name)) (name +:+ String lparen (escape c +:+ str1 rparen)) = escape c +:+ str1 rparen) as ->.
  { clear. induction name as [|x name IH]; [by rewrite str_app_nil_l|]. rewrite str_app_cons. exact IH. }
  rewrite find_last_paren, str_take_app, Htr, Ht.
  rewrite bool_decide_eq_false_2, unescape_one_pass, unescape_escape; [done|].
  intros [H|H]; [by apply (escape_inj c "") in H|by apply (escape_inj c "*") in H].
Qed.

(** A rule as text: its tool and, between parentheses and escaped, its pattern,
    that of a domain with its prefix. *)
Definition written (r : PermissionRule) : option string :=
  (fun c => match pattern_mode r with Domain => "domain:" +:+ c | Glob => c end) <$> pattern r.
Definition rule_text (name : string) (r : PermissionRule) : string :=
  name +:+ match written r with Some w => str1 lparen +:+ escape w +:+ str1 rparen | None => "" end.

(** What such a text can say: a pattern is not empty, not the wildcard alone,
    has no white space at its ends and, as a glob, no prefix [domain:]; that of a shell
    rule does not end in [:] [*]; a rule for the whole tool is a glob. *)
Definition writable (r : PermissionRule) : Prop :=
  match pattern r, written r with
  | Some c, Some w =>
      c <> "" /\ w <> "*" /\ trim (escape w) = escape w /\
      (pattern_mode r = Glob -> str_strip_prefix "domain:" c = None) /\
      (tool r = BashTool -> str_strip_suffix ":*" w = None)
  | _, _ => pattern_mode r = Glob
  end.

Lemma parse_bare name t a : tool_name_to_filter name = Some t -> parse_permission_rule name a = Ok (mkRule a t None Glob).
Proof.
  intros Ht. pose proof (tool_name_known _ _ Ht) as Hin. unfold tool_names in Hin.
  repeat (apply elem_of_cons in Hin as [->|Hin]; [vm_compute in Ht; injection Ht as <-; by vm_compute|]). by apply elem_of_nil in Hin.
Qed.

Lemma strip_prefix_app p c : str_strip_prefix p (p +:+ c) = Some c.
Proof. induction p as [|x p IH]; [done|]. rewrite str_app_cons. cbn. by rewrite Ascii.eqb_refl. Qed.

(** The text of a rule is parsed back to the rule. *)
Lemma tool_rule_written a t p m w :
  let r := mkRule a t (Some p) m in written r = Some w -> writable r -> tool_rule a t w = r.
Proof.
  cbn zeta. unfold writable. intros Ew. rewrite Ew. cbn [pattern pattern_mode tool]. intros (Hp & Hw & _ & Hg & Hb).
  unfold tool_rule. assert ((if bool_decide (t = BashTool) then strip_bash_colon_wildcard w else w) = w) as ->.
  { case_bool_decide as Et; [|done]. unfold strip_bash_colon_wildcard. by rewrite (Hb Et). }
  unfold strip_domain_prefix, none_if_empty. destruct m; cbn in Ew; injection Ew as <-.
  - rewrite (Hg eq_refl). by rewrite bool_decide_eq_false_2.
  - rewrite strip_prefix_app. by rewrite bool_decide_eq_false_2.
Qed.

(** C21.  Writing a rule and reading it gives the rule: for every tool that has
    a name in the language, with a pattern or for the whole tool, where the
    parentheses and backslashes of the pattern are escaped and a domain has its
    prefix, if the language can express the pattern. *)
Theorem rule_round_trip name r :
  tool_name_to_filter name = Some (tool r) -> writable r -> parse_permission_rule (rule_text name r) (action r) = Ok r.
Proof.
  intros Ht Hw. destruct r as [a t [p|] m]; cbn [tool action] in *.
  - destruct (written (mkRule a t (Some p) m)) as [w|] eqn:Ew; [|by destruct m]. unfold rule_text. rewrite Ew.
    rewrite (parse_written name t a w Ht); [by rewrite (tool_rule_written a t p m w Ew Hw)|..];
      unfold writable in Hw; rewrite Ew in Hw; cbn [pattern] in Hw; [by apply Hw| |by apply Hw].
    intros ->. destruct m; cbn in Ew; [|done]. injection Ew as ->. by destruct Hw.
  - unfold rule_text, writable in *. cbn in Hw |- *. subst m. rewrite str_app_nil_r. by apply parse_bare.
Qed.

Lemma rule_round_trip_witness :
  parse_permission_rule (rule_text "Bash" (mkRule RuleDeny BashTool (Some "f(\) *") Glob)) RuleDeny
  = Ok (mkRule RuleDeny BashTool (Some "f(\) *") Glob) /\
  parse_permission_rule (rule_text "WebFetch" (mkRule RuleAsk WebFetchTool (Some "a.org") Domain)) RuleAsk
  = Ok (mkRule RuleAsk WebFetchTool (Some "a.org") Domain).
Proof.
  split.
  - apply (rule_round_trip "Bash" (mkRule RuleDeny BashTool (Some "f(\) *") Glob)); [reflexivity|].
    split; [done|]. split; [done|]. split; [reflexivity|]. split; intros _; reflexivity.
  - apply (rule_round_trip "WebFetch" (mkRule RuleAsk WebFetchTool (Some "a.org") Domain)); [reflexivity|].
    split; [done|]. split; [done|]. split; [reflexivity|]. split; [done|]. intros _; reflexivity.
Defined.

(** *** What the rule language does beyond its description *)

(** The prefix [domain:] is taken off for every tool, not only for [WebFetch]. *)
Lemma domain_prefix_any_tool :
  parse_permission_rule "Bash(domain:join x)" RuleDeny = Ok (mkRule RuleDeny BashTool (Some "join x") Domain).
Proof. by vm_compute. Qed.

(** What follows the last parenthesis is dropped without an error. *)
Lemma trailing_text_dropped :
  parse_permission_rule "Bash(ls) -- only in src" RuleAllow = Ok (mkRule RuleAllow BashTool (Some "ls") Glob).
Proof. by vm_compute. Qed.
