(* ===== verification/ShellAccess.v ===== *)
(** * File accesses of shell commands (ccode-workspace/src/permission/shell_access.rs, gate_preflight.rs)

    A managed rule on reading or editing files must not be bypassed with a
    shell: this gate looks for the files that the redirections and the known
    readers and writers of a script touch, in the spelling of the script, made
    absolute, and with symbolic links resolved, and asks whenever it cannot
    tell.  The preflight puts the verdicts of the rules and of both gates
    together.  The disk is that of [Fs]. *)

From S2P Require Import Prelude RustStr TextLines TextFind StdPath Fs Json Permission ShellWords ShellTree PermissionRules PermissionPolicy.

(** ** Words of the tree *)

Inductive ShellFileMode := ReadMode | WriteMode.

Definition node_in (ks : list string) (n : Node) : bool := is_one_of ks (kind n).

(** The stack loop looks at all nodes below the first. *)
Definition expansion_kinds : list string :=
  ["expansion"; "simple_expansion"; "command_substitution"; "arithmetic_expansion"; "process_substitution"].
Definition node_has_expansion (n : Node) : bool := existsb (node_in expansion_kinds) (drop 1 (all_nodes n)).

Definition is_windows_path_like (raw : string) : bool :=
  starts_with (String bslash (str1 bslash)) raw ||
  match raw with String a (String b _) => is_alpha a && Ascii.eqb b ":"%char | _ => false end.

Fixpoint fold_backslashes (raw : string) : option string :=
  match raw with
  | EmptyString => Some EmptyString
  | String ch r =>
      if Ascii.eqb ch bslash then
        match r with EmptyString => None | String n r' => String n <$> fold_backslashes r' end
      else String ch <$> fold_backslashes r
  end.
Definition decode_unquoted_word (raw : string) : option string :=
  if negb (has_char bslash raw) || is_windows_path_like raw then Some raw else fold_backslashes raw.

Fixpoint fold_double_quoted (content : string) : option string :=
  match content with
  | EmptyString => Some EmptyString
  | String ch r =>
      if Ascii.eqb ch bslash then
        match r with
        | EmptyString => None
        | String n r' =>
            if dq_escapable n then String n <$> fold_double_quoted r'
            else (fun s => String bslash (String n s)) <$> fold_double_quoted r'
        end
      else String ch <$> fold_double_quoted r
  end.
Definition decode_double_quoted_content (content : string) : option string :=
  if has_char bslash content then fold_double_quoted content else Some content.

(** [Some (LiteralWord _)] is a literal, [Some UntrustedWord] an expansion. *)
Definition or_untrusted (o : option string) : option ShellWord :=
  Some (match o with Some literal => LiteralWord literal | None => UntrustedWord end).
Definition unquote (q : ascii) (raw : string) : string :=
  default raw (str_strip_prefix (str1 q) raw ≫= str_strip_suffix (str1 q)).

Definition shell_node_arg (src : string) (n : Node) : option ShellWord :=
  let k := kind n in
  if bool_decide (k = "variable_assignment") then None
  else if is_one_of ["word"; "number"] k then or_untrusted (utf8_text src n ≫= decode_unquoted_word)
  else if bool_decide (k = "raw_string") then
    raw ← utf8_text src n; Some (LiteralWord (unquote squote raw))
  else if bool_decide (k = "string") then
    if node_has_expansion n then Some UntrustedWord
    else raw ← utf8_text src n; or_untrusted (decode_double_quoted_content (unquote dquote raw))
  else if bool_decide (k = "concatenation") then
    if node_has_expansion n then Some UntrustedWord
    else or_untrusted (utf8_text src n ≫= decode_shell_literal_spelling)
  else Some UntrustedWord.

(** ** Scopes *)

(** [None] is [usize::MAX]. *)
Record ExecutionScope := mkScope { scope_start : nat; scope_end : option nat }.
#[export] Instance ExecutionScope_eq : EqDecision ExecutionScope.
Proof. solve_decision. Defined.

Definition scope_contains (a b : ExecutionScope) : bool :=
  (scope_start a <=? scope_start b) &&
  match scope_end a, scope_end b with
  | None, _ => true
  | Some _, None => false
  | Some x, Some y => y <=? x
  end.

(** A node with its next sibling and its parent, those of the parent, and so on. *)
Abbreviation location := (Node * list (option Node * Node))%type.

(** The nodes of the tree in the order in which a stack loop that pushes the
    children in order pops them. *)
Fixpoint located (up : list (option Node * Node)) (n : Node) : list location :=
  match n with
  | mkNode _ _ _ _ _ cs =>
      (n, up) :: (fix go cs := match cs with
                               | [] => []
                               | c :: r => go r ++ located ((head r, n) :: up) c
                               end) cs
  end.

Definition scope_of (n : Node) : ExecutionScope := mkScope (start_byte n) (Some (end_byte n)).
Fixpoint scope_from (current : Node) (up : list (option Node * Node)) : ExecutionScope :=
  match up with
  | [] => mkScope 0 None
  | (next, parent) :: up' =>
      if match next with Some sibling => bool_decide (kind sibling = "&") | None => false end then
        scope_of (if bool_decide (kind current = "list") then current else parent)
      else if node_in ["subshell"; "command_substitution"; "process_substitution"] parent then scope_of parent
      else if bool_decide (kind parent = "pipeline") then scope_of current
      else scope_from parent up'
  end.
Definition execution_scope (l : location) : ExecutionScope := scope_from l.1 l.2.

Record CwdPoison := mkPoison { poison_at : nat; poison_scope : ExecutionScope }.

Definition child_by_field_name (field : string) (n : Node) : option Node :=
  head (filter (fun c => field_name c = Some field) (children n)).

Definition changes_cwd (src : string) (n : Node) : bool :=
  bool_decide (kind n = "command") &&
  match child_by_field_name "name" n ≫= utf8_text src with
  | Some program => is_one_of ["cd"; "pushd"; "popd"] (program_name program)
  | None => false
  end.
Definition cwd_poison_positions (root : Node) (src : string) : list CwdPoison :=
  (fun l => mkPoison (start_byte l.1) (execution_scope l)) <$> filter (fun l => changes_cwd src l.1) (located [] root).

Definition cwd_unpinned_before (positions : list CwdPoison) (at_ : nat) (scope : ExecutionScope) : bool :=
  existsb (fun p => (poison_at p <? at_) && (bool_decide (poison_scope p = scope) || scope_contains (poison_scope p) scope))
    positions.

(** ** Invocations and redirections *)

Record ShellInvocation := mkInvocation {
  inv_start_byte : nat;
  inv_scope : ExecutionScope;
  inv_words : list ShellWord;
  wrapper_words : list string
}.

Definition literal_words (ws : list ShellWord) : list string :=
  omap (fun w => match w with LiteralWord s => Some s | UntrustedWord => None end) ws.

Definition operand_of (src : string) (child : Node) : option ShellWord :=
  if bool_decide (kind child = "command_name") then named_children child !! 0 ≫= shell_node_arg src
  else shell_node_arg src child.

Definition invocation_of (src : string) (l : location) : ShellInvocation :=
  let ws := omap (operand_of src) (named_children l.1) in
  mkInvocation (start_byte l.1) (execution_scope l) ws
    ((fun w => match w with LiteralWord s => s | UntrustedWord => nul_word end) <$> ws).

Definition shell_command_invocations (root : Node) (src : string) : list ShellInvocation :=
  sort_by inv_start_byte
    (invocation_of src <$> filter (fun l => kind l.1 = "command") (located [] root)).

Record CheckedInvocationPeel := mkInvocationPeel {
  peel_words : list ShellWord;
  peel_norm : NormalizedCommandPeel
}.
Definition unwrap_invocation_checked (i : ShellInvocation) : CheckedInvocationPeel :=
  let norm := normalize_command_words (wrapper_words i) in
  mkInvocationPeel (drop (length (wrapper_words i) - length (words norm)) (inv_words i)) norm.

Definition shell_arg_is_ambiguous (token : string) : bool :=
  has_char "*"%char token || has_char "?"%char token || has_char "["%char token.

(** The first child that is a redirection operator; [None] as well for text
    that is given inline. *)
Fixpoint redirect_operator (ks : list string) : option string :=
  match ks with
  | [] => None
  | k :: r =>
      if str_contains "<<" k then None
      else if has_char ">"%char k || has_char "<"%char k then Some k
      else redirect_operator r
  end.

Definition shell_redirect_one (src : string) (n : Node) : option (option string * ShellFileMode * bool) :=
  redirect ← redirect_operator (kind <$> children n);
  let mode := if has_char ">"%char redirect then WriteMode else ReadMode in
  let duplicates_fd := is_one_of [">&"; "<&"] redirect in
  dest ← child_by_field_name "destination" n;
  arg ← shell_node_arg src dest;
  match arg with
  | LiteralWord s =>
      if bool_decide (s = "") || starts_with "&" s || (duplicates_fd && (bool_decide (s = "-") || all_chars is_digit s))
      then None else Some (Some s, mode, shell_arg_is_ambiguous s)
  | UntrustedWord => Some (None, mode, true)
  end.

Record ShellRedirectTarget := mkRedirect {
  redirect_path : option string;
  redirect_mode : ShellFileMode;
  redirect_ambiguous : bool;
  redirect_start_byte : nat;
  redirect_scope : ExecutionScope
}.
Definition redirect_at (src : string) (l : location) : option ShellRedirectTarget :=
  if bool_decide (kind l.1 = "file_redirect") then
    '(path, mode, ambiguous) ← shell_redirect_one src l.1;
    Some (mkRedirect path mode ambiguous (start_byte l.1) (execution_scope l))
  else None.
Definition shell_redirect_targets (root : Node) (src : string) : list ShellRedirectTarget :=
  omap (redirect_at src) (located [] root).

(** ** Opaque shells *)

Definition words_are_opaque_shell (ws : list ShellWord) : bool :=
  is_potential_inline (shell_dash_c_script ws) ||
  match ws with LiteralWord program :: _ => bool_decide (program_name program = "eval") | _ => false end.
Definition tree_has_opaque_shell (root : Node) (src : string) : bool :=
  existsb (fun i => words_are_opaque_shell (peel_words (unwrap_invocation_checked i))) (shell_command_invocations root src).

(** ** Operands that name files *)

Definition read_programs : list string :=
  ["cat"; "tac"; "nl"; "head"; "tail"; "grep"; "egrep"; "fgrep"; "rg"; "sed"; "awk"; "less"; "more"; "bat"; "strings";
   "xxd"; "od"; "hexdump"; "base64"; "base32"; "cut"; "sort"; "uniq"; "wc"; "type"; "get-content"; "gc"; "diff"; "comm";
   "rev"; "jq"; "yq"; "select-string"; "sls"; "ag"; "ack"; "zcat"; "zless"; "zmore"; "zgrep"; "zegrep"; "zfgrep"; "bzcat";
   "bzgrep"; "xzcat"; "xzgrep"; "zstdcat"; "lz4cat"].
Definition write_programs : list string := ["tee"; "set-content"; "out-file"; "add-content"; "tee-object"; "truncate"].
Definition shell_file_mode (program : string) : option ShellFileMode :=
  if is_one_of read_programs program then Some ReadMode
  else if is_one_of write_programs program then Some WriteMode else None.

Definition shell_sed_in_place (ws : list string) : bool :=
  existsb (fun w => bool_decide (w = "--in-place") || starts_with "--in-place=" w || (is_short w && has_char "i"%char w))
    (drop 1 ws).

(** A value glued to a flag, if it is not empty. *)
Definition glued (flag token : string) : option string :=
  match str_strip_prefix flag token with Some "" => None | o => o end.

(** Each token with the one after it. *)
Fixpoint with_next {A} (ws : list A) : list (A * option A) :=
  match ws with [] => [] | w :: r => (w, head r) :: with_next r end.

Definition shell_output_flag_values (ws : list string) : list string :=
  omap (fun '(token, next) =>
    match str_strip_prefix "--output=" token with
    | Some v => Some v
    | None => match glued "-o" token with
              | Some v => Some v
              | None => if is_one_of ["--output"; "-o"] token then next else None
              end
    end) (with_next ws).

Definition value_flag_values (ws : list string) (flag : string) : list string :=
  omap (fun '(token, next) =>
    match str_strip_prefix (flag +:+ "=") token with
    | Some v => Some v
    | None => if bool_decide (token = flag) then next
              else if negb (starts_with "--" flag) then glued flag token else None
    end) (with_next ws).

Fixpoint candidates_from (end_of_options : bool) (ws : list string) : list string :=
  match ws with
  | [] => []
  | token :: r =>
      if negb end_of_options && bool_decide (token = "--") then candidates_from true r
      else if end_of_options || (bool_decide (token <> "-") && negb (starts_with "-" token))
      then token :: candidates_from end_of_options r
      else candidates_from end_of_options r
  end.
Definition shell_file_candidates (ws : list string) : list string := candidates_from false (drop 1 ws).

Definition dd_operand (token : string) : option (string * ShellFileMode) :=
  match str_strip_prefix "if=" token with
  | Some p => Some (p, ReadMode)
  | None => (fun p => (p, WriteMode)) <$> str_strip_prefix "of=" token
  end.
Definition special_file_operands (program : string) (ws : list string) : list (string * ShellFileMode) :=
  let writes (l : list string) := (fun p => (p, WriteMode)) <$> l in
  if bool_decide (program = "dd") then omap dd_operand (drop 1 ws)
  else if is_one_of ["sort"; "go"; "git"] program then writes (shell_output_flag_values ws)
  else if bool_decide (program = "rustc") then writes (shell_output_flag_values ws ++ value_flag_values ws "--out-dir")
  else if bool_decide (program = "rustfmt") then writes (shell_file_candidates ws)
  else [].

Definition shell_path_command_operands (program : string) (ws : list string) : option (list (string * ShellFileMode)) :=
  let operands := shell_file_candidates ws in
  if is_one_of ["cp"; "mv"; "ln"; "install"] program then
    dest ← last operands;
    Some (((fun s => (s, ReadMode)) <$> removelast operands) ++ [(dest, WriteMode)])
  else if is_one_of ["rm"; "rmdir"; "mkdir"; "touch"] program then Some ((fun c => (c, WriteMode)) <$> operands)
  else if bool_decide (program = "uniq") then
    match operands with
    | input :: output :: _ => Some [(input, ReadMode); (output, WriteMode)]
    | _ => None
    end
  else None.

Definition is_directory_operand (token : string) : bool :=
  bool_decide (token = ".") || bool_decide (token = "..") || ends_with "/" token.
Definition shell_reader_can_recurse (program : string) (ws candidates : list string) : bool :=
  (is_one_of ["grep"; "egrep"; "fgrep"] program
   && existsb (fun w => is_one_of ["--recursive"; "--dereference-recursive"] w
                        || (is_short w && (has_char "r"%char w || has_char "R"%char w))) ws)
  || (is_one_of ["rg"; "ag"; "ack"] program
      && ((length candidates <=? 1) || existsb is_directory_operand (drop 1 candidates))).

(** ** Paths *)

Definition second_is_colon (p : string) : bool := bool_decide (String.get 1 p = Some ":"%char).
Definition is_absolute_shell_path (p : string) : bool := starts_with "/" p || starts_with "~/" p || second_is_colon p.

Definition is_quote (a : ascii) : bool := Ascii.eqb a dquote || Ascii.eqb a squote.
Fixpoint trim_start_quotes (s : string) : string :=
  match s with String a r => if is_quote a then trim_start_quotes r else s | EmptyString => s end.
Fixpoint trim_end_quotes (s : string) : string :=
  match s with
  | EmptyString => EmptyString
  | String a r => if all_chars is_quote s then EmptyString else String a (trim_end_quotes r)
  end.
Fixpoint slashes (s : string) : string :=
  match s with
  | EmptyString => EmptyString
  | String a r => String (if Ascii.eqb a bslash then "/"%char else a) (slashes r)
  end.
Definition normalize_shell_path_raw (p : string) : string :=
  let q := slashes (trim_end_quotes (trim_start_quotes p)) in
  match str_strip_prefix "/c/" q with
  | Some rest => "C:/" +:+ rest
  | None => q
  end.

(** The loop over the segments; the segments kept so far, last first. *)
Fixpoint collapse (absolute : bool) (out segments : list string) : list string :=
  match segments with
  | [] => rev out
  | seg :: r =>
      if bool_decide (seg = "" \/ seg = ".") then collapse absolute out r
      else if bool_decide (seg = "..") then
        match out with
        | top :: out' => if bool_decide (top <> "..") then collapse absolute out' r
                         else if absolute then collapse absolute out r else collapse absolute (".." :: out) r
        | [] => if absolute then collapse absolute out r else collapse absolute [".."] r
        end
      else collapse absolute (seg :: out) r
  end.
Definition lexical_normalize (p : string) : string :=
  let prefix_len := if second_is_colon p then 2 else 0 in
  let prefix := str_take prefix_len p in
  let rest := str_drop prefix_len p in
  let absolute := starts_with "/" rest in
  let body := join_char "/" (collapse absolute [] (split_char "/" rest)) in
  prefix +:+ (if absolute then "/" else "") +:+ body.
Definition normalize_shell_path (p : string) : string := lexical_normalize (normalize_shell_path_raw p).

(** [Path::join] on the text of Unix paths. *)
Definition join_text (base p : string) : string :=
  if starts_with "/" p then p
  else if bool_decide (base = "") || ends_with "/" base then base +:+ p else base +:+ "/" +:+ p.

(** ** Symbolic links *)

(** [Fs.walk] with the error of the kernel: a missing component, or another one. *)
Fixpoint walk_err (links : nat) (d : Disk) : path -> path -> result IoError path :=
  fix go cur rest :=
    match rest with
    | [] => Ok cur
    | RootDir :: r => go [RootDir] r
    | CurDir :: r => go cur r
    | ParentDir :: r => go (default cur (parent cur)) r
    | Normal n :: r =>
        let p := cur ++ [Normal n] in
        match nodes d !! p with
        | None => Err NotFound
        | Some NDir => go p r
        | Some (NFile _) => match r with [] => Ok p | _ => Err OtherIo end
        | Some (NLink t) => match links with O => Err OtherIo | S k => walk_err k d cur (t ++ r) end
        end
    end.

(** The disk, and the paths whose metadata or link cannot be read. *)
Record DiskView := mkView { disk : Disk; unreadable : path -> bool }.

Definition entry_of (v : DiskView) (p : path) : result IoError (option Fs.Node) :=
  if unreadable v p then Err PermissionDenied
  else match last p with
  | Some (Normal n) =>
      match walk_err MAX_LINKS (disk v) (cwd (disk v)) (removelast p) with
      | Err e => Err e
      | Ok dir =>
          match node_at (disk v) dir with
          | Some NDir => match nodes (disk v) !! (dir ++ [Normal n]) with Some x => Ok (Some x) | None => Err NotFound end
          | _ => Err OtherIo
          end
      end
  | _ => match walk_err MAX_LINKS (disk v) (cwd (disk v)) p with Ok _ => Ok (Some NDir) | Err e => Err e end
  end.
Definition is_symlink (r : result IoError (option Fs.Node)) : bool :=
  match r with Ok (Some (NLink _)) => true | _ => false end.

(** The prefixes of a path, shortest first. *)
Definition prefixes (p : path) : list path := (fun i => take (S i) p) <$> seq 0 (length p).

Definition path_has_symlink (v : DiskView) (absolute : string) : bool :=
  let p := components absolute in
  is_absolute p && existsb (fun q => is_symlink (entry_of v q)) (prefixes p).

Definition MAX_SYMLINK_DEPTH : nat := 40.

(** [fuel] is one more than the depth that is left. *)
Fixpoint resolve_from (fuel : nat) (v : DiskView) (p : path) : option path :=
  match fuel with
  | O => None
  | S fuel' =>
      match canonicalize (disk v) p with
      | Some canonical => Some canonical
      | None =>
          dir ← parent p;
          name ← file_name p;
          resolved_parent ← resolve_from fuel' v dir;
          let candidate := path_join resolved_parent [Normal name] in
          match entry_of v candidate with
          | Ok (Some (NLink target)) => resolve_from fuel' v (path_join resolved_parent target)
          | Ok _ | Err NotFound => Some candidate
          | Err _ => None
          end
      end
  end.
Definition resolve_following_symlinks (v : DiskView) (p : path) : option path := resolve_from (S MAX_SYMLINK_DEPTH) v p.

Definition resolve_symlink_target (v : DiskView) (absolute : string) : option string :=
  let p := components absolute in
  if is_absolute p then (fun r => normalize_shell_path (display r)) <$> resolve_following_symlinks v p else None.

(** ** Edits that need a confirmation *)

(** [ccode_paths::normalize_lexically]; the components kept so far, last first. *)
Fixpoint lexical_from (out : path) (p : path) : path :=
  match p with
  | [] => rev out
  | CurDir :: r => lexical_from out r
  | ParentDir :: r =>
      match out with
      | Normal _ :: out' => lexical_from out' r
      | RootDir :: _ => lexical_from out r
      | _ => lexical_from (ParentDir :: out) r
      end
  | c :: r => lexical_from (c :: out) r
  end.
Definition normalize_lexically (p : path) : path :=
  match lexical_from [] p with [] => [CurDir] | q => q end.

Definition STARTUP_FILES : list string :=
  [".bashrc"; ".bash_profile"; ".bash_login"; ".bash_logout"; ".profile"; ".zshrc"; ".zshenv"; ".zprofile"; ".zlogin";
   ".zlogout"; ".kshrc"; ".cshrc"; ".tcshrc"; ".login"; ".logout"; ".inputrc"; ".xprofile"].

Fixpoint has_pair (a b : string) (l : list string) : bool :=
  match l with
  | x :: ((y :: _) as r) => (bool_decide (x = a) && bool_decide (y = b)) || has_pair a b r
  | _ => false
  end.
(** Some [.git] followed by [modules], and [hooks] after one more component. *)
Fixpoint has_module_hooks (l : list string) : bool :=
  match l with
  | [] => false
  | x :: r =>
      (bool_decide (x = ".git") && bool_decide (head r = Some "modules") && bool_decide ("hooks" ∈ drop 2 r))
      || has_module_hooks r
  end.
Definition protected_git_hooks_path (cs : list string) : bool := has_pair ".git" "hooks" cs || has_module_hooks cs.

Definition etc_path : path := [RootDir; Normal "etc"].
Definition protected_edit_path (p : path) : bool :=
  let cs := omap (fun c => match c with Normal part => Some (to_ascii_lowercase part) | _ => None end) p in
  is_one_of STARTUP_FILES (default "" (last cs))
  || protected_git_hooks_path cs
  || bool_decide (".ssh" ∈ cs)
  || bool_decide (drop (length cs - 2) cs = [".ccode"; "config.toml"])
  || path_starts_with p etc_path.

Definition resolved_path_is_within_root (v : DiskView) (resolved root : path) : bool :=
  match resolve_following_symlinks v root with
  | Some resolved_root => path_starts_with resolved resolved_root
  | None => true
  end.

Definition edit_target_requires_prompt (v : DiskView) (p : path) : bool :=
  if negb (is_absolute p) then true
  else if protected_edit_path (normalize_lexically p) then true
  else match resolve_following_symlinks v p with
  | None => true
  | Some resolved => protected_edit_path resolved || resolved_path_is_within_root v resolved etc_path
  end.

(** ** Paths that a command writes *)

Definition command_words_write_paths (ws : list string) : list string :=
  let inner := unwrap_wrappers ws in
  match inner with
  | [] => []
  | w :: _ =>
      let program := to_ascii_lowercase (program_name w) in
      let written (l : list (string * ShellFileMode)) := omap (fun '(p, m) => match m with WriteMode => Some p | ReadMode => None end) l in
      written (special_file_operands program inner) ++
      match shell_path_command_operands program inner with
      | Some operands => written operands
      | None =>
          if (match shell_file_mode program with Some WriteMode => true | _ => false end)
             || (bool_decide (program = "sed") && shell_sed_in_place inner)
          then shell_file_candidates inner else []
      end
  end.
Definition command_write_paths_in_tree (root : Node) (src : string) : list string :=
  omap (fun r => match redirect_mode r with WriteMode => redirect_path r | ReadMode => None end) (shell_redirect_targets root src)
  ++ concat ((fun i => command_words_write_paths (literal_words (inv_words i))) <$> shell_command_invocations root src).
Definition is_safe_write_sink (p : string) : bool := is_one_of ["/dev/null"; "/dev/stdout"; "/dev/stderr"] p.

(** ** The gate *)

Section Gate.
Context {PE : PolicyEnv} {SE : StrEnv}.
Variables (po : CompiledPolicy) (v : DiskView) (cwd_text : string).

Definition shell_access (mode : ShellFileMode) (p : string) : AccessKind :=
  match mode with ReadMode => Read (Some p) | WriteMode => Edit p end.

Definition evaluate_shell_path (token : string) (mode : ShellFileMode) (cwd_unpinned : bool) : option GateDecision :=
  let p := normalize_shell_path token in
  let absolute_p := is_absolute_shell_path p in
  let absolute := if absolute_p then p else normalize_shell_path (join_text cwd_text p) in
  let raw := normalize_shell_path_raw token in
  let raw_absolute :=
    if is_absolute_shell_path raw then Some raw
    else if cwd_unpinned then None else Some (normalize_shell_path_raw (join_text cwd_text raw)) in
  let resolved_decision :=
    ra ← raw_absolute;
    match resolve_symlink_target v ra with
    | Some resolved => if bool_decide (resolved <> absolute) then escalate po (shell_access mode resolved) else None
    | None => fail_closed_if (path_has_symlink v ra)
    end in
  let path_decision := escalate po (shell_access mode p) in
  let anchored_decision :=
    if cwd_unpinned && negb absolute_p then None
    else combine_gate_decisions (escalate po (shell_access mode absolute)) resolved_decision in
  combine_gate_decisions (combine_gate_decisions path_decision anchored_decision)
    (fail_closed_if (cwd_unpinned && negb absolute_p)).

(** The decision so far and whether to ask in the end. *)
Abbreviation gate_state := (option GateDecision * bool)%type.

(** One path; an ambiguous spelling forces the question. *)
Definition check_path (unpinned : bool) (st : gate_state) (pm : string * ShellFileMode) : gate_state :=
  (combine_gate_decisions st.1 (evaluate_shell_path pm.1 pm.2 unpinned), st.2 || shell_arg_is_ambiguous pm.1).

Definition check_redirect (positions : list CwdPoison) (cwd_unpinned : bool) (st : gate_state) (r : ShellRedirectTarget)
  : gate_state :=
  let forced := st.2 || redirect_ambiguous r in
  match redirect_path r with
  | Some p =>
      let unpinned := cwd_unpinned || cwd_unpinned_before positions (redirect_start_byte r) (redirect_scope r) in
      (combine_gate_decisions st.1 (evaluate_shell_path p (redirect_mode r) unpinned), forced)
  | None => (st.1, forced)
  end.

(** The modes in which a reader or writer uses its operands. *)
Definition program_modes (program : string) (ws : list string) : list ShellFileMode :=
  match shell_file_mode program with
  | Some m => if bool_decide (program = "sed") && shell_sed_in_place ws then [ReadMode; WriteMode] else [m]
  | None => []
  end.

(** The files that a command names: flag operands first, then the operands of
    commands that move paths, or of readers and writers. *)
Definition named_files (program : string) (ws : list string) : list (string * ShellFileMode) :=
  special_file_operands program ws ++
  if bool_decide (program = "dd") then []
  else match shell_path_command_operands program ws with
  | Some operands => operands
  | None => concat ((fun token => (fun m => (token, m)) <$> program_modes program ws) <$> shell_file_candidates ws)
  end.

Definition is_known_program (program : string) (ws : list string) : bool :=
  bool_decide (program = "dd") || bool_decide (is_Some (shell_file_mode program))
  || bool_decide (is_Some (shell_path_command_operands program ws)).

(** A reader that is not a mover of paths and descends into directories. *)
Definition recursing_reader (program : string) (ws : list string) : bool :=
  bool_decide (program <> "dd") && negb (bool_decide (is_Some (shell_path_command_operands program ws)))
  && bool_decide (is_Some (shell_file_mode program))
  && shell_reader_can_recurse program ws (shell_file_candidates ws).

(** The part of an invocation after the inner shell. *)
Definition check_program (parse_failed unpinned : bool) (st : gate_state) (ws : list ShellWord) : gate_state :=
  match ws with
  | LiteralWord w :: _ =>
      let program := to_ascii_lowercase (program_name w) in
      if is_one_of ["cd"; "pushd"; "popd"] program then st
      else
        let lits := literal_words ws in
        let has_ambiguous_word := existsb (fun x => match x with UntrustedWord => true | _ => false end) ws in
        let st := (st.1, st.2 || (is_known_program program lits && (unpinned || has_ambiguous_word || parse_failed))) in
        let st := foldl (check_path unpinned) st (named_files program lits) in
        (st.1, st.2 || recursing_reader program lits)
  | _ => st
  end.

(** [inner] decides on the script of an inner shell while the depth allows it. *)
Definition check_invocation (inner : option (bool -> string -> option GateDecision)) (positions : list CwdPoison)
    (parse_failed cwd_unpinned : bool) (st : gate_state) (i : ShellInvocation) : gate_state :=
  let peeled := unwrap_invocation_checked i in
  let ws := peel_words peeled in
  let norm := peel_norm peeled in
  let unpinned := cwd_unpinned || cwd_unpinned_before positions (inv_start_byte i) (inv_scope i) || has_chdir norm in
  let forced := st.2 || exhausted norm || has_split_string norm || env_options_uncertain norm || ambiguous norm in
  let inline_script := shell_dash_c_script ws in
  let forced := forced || (parse_failed && match inline_script with NotInline => false | _ => true end) in
  let st :=
    match inline_script with
    | Literal index =>
        match inner, ws !! index with
        | None, _ => (st.1, true)
        | Some f, Some (LiteralWord script) => (combine_gate_decisions st.1 (f unpinned script), forced)
        | Some _, _ => (st.1, forced)
        end
    | Untrusted | Unrecognized => (st.1, true)
    | NotInline => (st.1, forced)
    end in
  check_program parse_failed unpinned st ws.

Definition check_tree (inner : option (bool -> string -> option GateDecision)) (cwd_unpinned entered_inline : bool)
    (cmd : string) (tree : Tree) : option GateDecision :=
  let root := root_node tree in
  let parse_failed := has_error tree in
  let positions := cwd_poison_positions root cmd in
  let st := (None, entered_inline && parse_failed) in
  let st := foldl (check_redirect positions cwd_unpinned) st (shell_redirect_targets root cmd) in
  let st := foldl (check_invocation inner positions parse_failed cwd_unpinned) st (shell_command_invocations root cmd) in
  combine_gate_decisions st.1 (fail_closed_if st.2).

Fixpoint evaluate_shell_file_access_inner (inline_depth_remaining : nat) (entered_inline cwd_unpinned : bool) (cmd : string)
  : option GateDecision :=
  match try_parse_shell cmd with
  | None => fail_closed_if entered_inline
  | Some tree =>
      let inner := match inline_depth_remaining with
                   | O => None
                   | S d => Some (evaluate_shell_file_access_inner d true)
                   end in
      check_tree inner cwd_unpinned entered_inline cmd tree
  end.

Definition evaluate_shell_file_access_gate (cmd : string) : option GateDecision :=
  if has_file_restrictions po then evaluate_shell_file_access_inner MAX_INLINE_SHELL_DEPTH false false cmd else None.
Definition evaluate_shell_file_access (cmd : string) : option Decision :=
  into_decision <$> evaluate_shell_file_access_gate cmd.

End Gate.

(** ** The preflight *)

Definition decision_rank (d : Decision) : nat :=
  match d with
  | Reject _ | PolicyDeny _ => 3
  | Ask => 2
  | Allow => 1
  | _ => 0
  end.
Definition combine_decisions (a b : option Decision) : option Decision :=
  match a, b with
  | None, other | other, None => other
  | Some a, Some b => Some (if decision_rank b <=? decision_rank a then a else b)
  end.

Record GatePreflight := mkPreflight {
  direct : option Decision;
  bash_command : option GateDecision;
  shell_file : option GateDecision;
  defers_gate_ask : bool
}.

Definition is_rule_ask (g : option GateDecision) : bool := match g with Some AskRuleMatch => true | _ => false end.
Definition is_closed_ask (g : option GateDecision) : bool := match g with Some AskFailClosed => true | _ => false end.
Definition gate_asks (g : option GateDecision) : bool := match g with Some g => is_ask g | None => false end.
Definition asks (d : option Decision) : bool := match d with Some Ask => true | _ => false end.

Section Preflight.
Context {PE : PolicyEnv} {SE : StrEnv}.

Definition preflight (policy : option CompiledPolicy) (v : DiskView) (cwd_text : string) (access : AccessKind) (auto_mode : bool)
  : GatePreflight :=
  let direct := policy ≫= fun po => evaluate po access in
  let (bash_command, shell_file) :=
    match policy, access with
    | Some po, Bash cmd => (evaluate_bash_command_gate po cmd, evaluate_shell_file_access_gate po v cwd_text cmd)
    | _, _ => (None, None)
    end in
  let rule_match_ask := asks direct || is_rule_ask bash_command || is_rule_ask shell_file in
  let fail_closed_ask := is_closed_ask bash_command || is_closed_ask shell_file in
  mkPreflight direct bash_command shell_file (auto_mode && fail_closed_ask && negb rule_match_ask).
End Preflight.

Definition policy_decision (p : GatePreflight) : option Decision :=
  combine_decisions (combine_decisions (direct p) (into_decision <$> bash_command p)) (into_decision <$> shell_file p).
Definition policy_forced_prompt (p : GatePreflight) : bool := asks (policy_decision p).
Definition shell_file_forced_prompt (p : GatePreflight) : bool := gate_asks (shell_file p).
Definition shell_forced_prompt (p : GatePreflight) : bool := gate_asks (bash_command p) || shell_file_forced_prompt p.
Definition admits_auto_classifier (p : GatePreflight) : bool := negb (policy_forced_prompt p) || defers_gate_ask p.

Definition POLICY_ASK : string := "policy_ask".
Definition BASH_COMMAND_GATE_ASK : string := "bash_command_gate_ask".
Definition SHELL_FILE_GATE_ASK : string := "shell_file_gate_ask".
Definition prompt_trigger (p : GatePreflight) (auto_prompt_reason : option string) : option string :=
  if asks (direct p) then Some POLICY_ASK
  else if defers_gate_ask p then auto_prompt_reason
  else if gate_asks (bash_command p) then Some BASH_COMMAND_GATE_ASK
  else if shell_file_forced_prompt p then Some SHELL_FILE_GATE_ASK
  else auto_prompt_reason.

(** ** Specification: the files that a script touches *)

Section Touches.
Context {PE : PolicyEnv} {SE : StrEnv}.
Variables (v : DiskView) (cwd_text : string).

(** The spellings of an operand that are matched with the rules: as it is
    written, absolute, and where its symbolic links lead; only the first when
    the directory it is relative to is not known. *)
Definition spellings (unpinned : bool) (token : string) : list string :=
  let p := normalize_shell_path token in
  let raw := normalize_shell_path_raw token in
  let absolute := if is_absolute_shell_path p then p else normalize_shell_path (join_text cwd_text p) in
  let raw_absolute :=
    if is_absolute_shell_path raw then Some raw
    else if unpinned then None else Some (normalize_shell_path_raw (join_text cwd_text raw)) in
  p :: if unpinned && negb (is_absolute_shell_path p) then []
       else absolute :: option_list (raw_absolute ≫= resolve_symlink_target v).

(** The files named by an invocation, after its wrappers. *)
Definition invocation_files (ws : list ShellWord) : list (string * ShellFileMode) :=
  match ws with
  | LiteralWord w :: _ =>
      let program := to_ascii_lowercase (program_name w) in
      if is_one_of ["cd"; "pushd"; "popd"] program then [] else named_files program (literal_words ws)
  | _ => []
  end.

Definition invocation_unpinned (positions : list CwdPoison) (u : bool) (i : ShellInvocation) : bool :=
  u || cwd_unpinned_before positions (inv_start_byte i) (inv_scope i) || has_chdir (peel_norm (unwrap_invocation_checked i)).

(** A script that redirects to, reads or writes the file, itself or in a script
    that it passes to an inner shell, at most [d] scripts deep. *)
Inductive touches : nat -> bool -> string -> AccessKind -> Prop :=
| touch_redirect d u cmd tree r p q :
    try_parse_shell cmd = Some tree -> r ∈ shell_redirect_targets (root_node tree) cmd -> redirect_path r = Some p ->
    q ∈ spellings (u || cwd_unpinned_before (cwd_poison_positions (root_node tree) cmd) (redirect_start_byte r) (redirect_scope r)) p ->
    touches d u cmd (shell_access (redirect_mode r) q)
| touch_operand d u cmd tree i p m q :
    try_parse_shell cmd = Some tree -> i ∈ shell_command_invocations (root_node tree) cmd ->
    (p, m) ∈ invocation_files (peel_words (unwrap_invocation_checked i)) ->
    q ∈ spellings (invocation_unpinned (cwd_poison_positions (root_node tree) cmd) u i) p ->
    touches d u cmd (shell_access m q)
| touch_inner d u cmd tree i k script a :
    try_parse_shell cmd = Some tree -> i ∈ shell_command_invocations (root_node tree) cmd ->
    shell_dash_c_script (peel_words (unwrap_invocation_checked i)) = Literal k ->
    peel_words (unwrap_invocation_checked i) !! k = Some (LiteralWord script) ->
    touches d (invocation_unpinned (cwd_poison_positions (root_node tree) cmd) u i) script a ->
    touches (S d) u cmd a.

(** *** The gate, exactly *)

Variable po : CompiledPolicy.
Variable n : nat.
Hypothesis n_two : 2 <= n.

Definition bites (a : AccessKind) : Prop := n <= grank (escalate po a).

Lemma fail_closed_low b : grank (fail_closed_if b) < n.
Proof. destruct b; cbn; lia. Qed.

Lemma combine_bites a b : n <= grank (combine_gate_decisions a b) <-> n <= grank a \/ n <= grank b.
Proof. by rewrite combine_rank, Nat.max_le_iff. Qed.

Lemma shell_path_rank token mode u :
  n <= grank (evaluate_shell_path po v cwd_text token mode u) <->
  exists q, q ∈ spellings u token /\ bites (shell_access mode q).
Proof.
  unfold evaluate_shell_path, spellings, bites. set (p := normalize_shell_path token).
  set (absolute := if is_absolute_shell_path p then p else _). set (ra := if is_absolute_shell_path _ then Some _ else _).
  assert (Hlow := fail_closed_low). rewrite !combine_bites. setoid_rewrite elem_of_cons.
  destruct (u && negb (is_absolute_shell_path p)).
  - split; [intros [[?|?]|Hf]; [eauto|cbn in *; lia|specialize (Hlow true); lia]|].
    intros (q & [->|?%elem_of_nil] & ?); [tauto|done].
  - rewrite combine_bites. setoid_rewrite elem_of_cons.
    assert (Hr : n <= grank (ra ≫= fun ra => match resolve_symlink_target v ra with
        | Some resolved => if bool_decide (resolved <> absolute) then escalate po (shell_access mode resolved) else None
        | None => fail_closed_if (path_has_symlink v ra) end) <->
      exists q, q ∈ option_list (ra ≫= resolve_symlink_target v) /\ q <> absolute /\ n <= grank (escalate po (shell_access mode q))).
    { destruct ra as [r|]; cbn [mbind option_bind]; [|split; [cbn; lia|set_solver]].
      destruct (resolve_symlink_target v r) as [q|]; cbn [option_list].
      - case_bool_decide as Hq; split; [|set_solver|cbn; lia|set_solver]. intros. exists q. set_solver.
      - split; [|set_solver]. specialize (Hlow (path_has_symlink v r)). lia. }
    rewrite Hr. cbn [fail_closed_if grank from_option]. split.
    + intros [[?|[?|(q & ? & _ & ?)]]|?]; [eauto|eauto|eauto|lia].
    + intros (q & [->|[->|Hq]] & Hb); [tauto|tauto|]. left. right.
      destruct (decide (q = absolute)) as [->|]; [tauto|right; eauto].
Qed.

(** A loop over items that each add to the decision. *)
Lemma fold_bites {A} (f : option GateDecision * bool -> A -> option GateDecision * bool) (P : A -> Prop) st l :
  (forall st x, n <= grank (f st x).1 <-> n <= grank st.1 \/ P x) ->
  n <= grank (foldl f st l).1 <-> n <= grank st.1 \/ exists x, x ∈ l /\ P x.
Proof.
  intros Hf. revert st. induction l as [|x l IH]; intros st; cbn [foldl]; [set_solver|].
  rewrite IH, Hf. set_solver.
Qed.

Lemma check_path_bites u st pm :
  n <= grank (check_path po v cwd_text u st pm).1 <->
  n <= grank st.1 \/ exists q, q ∈ spellings u pm.1 /\ bites (shell_access pm.2 q).
Proof. unfold check_path. cbn [fst]. by rewrite combine_bites, shell_path_rank. Qed.

Lemma check_redirect_bites positions u st r :
  n <= grank (check_redirect po v cwd_text positions u st r).1 <->
  n <= grank st.1 \/ exists p q, redirect_path r = Some p /\
    q ∈ spellings (u || cwd_unpinned_before positions (redirect_start_byte r) (redirect_scope r)) p /\
    bites (shell_access (redirect_mode r) q).
Proof.
  unfold check_redirect. destruct (redirect_path r) as [p|]; cbn [fst]; [|naive_solver].
  rewrite combine_bites, shell_path_rank. naive_solver.
Qed.

Lemma check_program_bites parse_failed u st ws :
  n <= grank (check_program po v cwd_text parse_failed u st ws).1 <->
  n <= grank st.1 \/ exists p m q, (p, m) ∈ invocation_files ws /\ q ∈ spellings u p /\ bites (shell_access m q).
Proof.
  unfold check_program, invocation_files. destruct ws as [|[w|] ws]; [set_solver| |set_solver].
  destruct (is_one_of _ _); [set_solver|]. cbn [fst]. rewrite (fold_bites _ _ _ _ (check_path_bites u)). cbn [fst].
  split; (intros [?|H]; [by left|right]).
  - destruct H as ([p m] & ? & q & ? & ?). eauto 6.
  - destruct H as (p & m & q & ? & ? & ?). exists (p, m). eauto.
Qed.

(** What an invocation adds: the script of its inner shell and its files. *)
Definition invocation_bites (inner : option (bool -> string -> option GateDecision)) (positions : list CwdPoison) (u : bool)
    (i : ShellInvocation) : Prop :=
  (exists f k script, inner = Some f /\ shell_dash_c_script (peel_words (unwrap_invocation_checked i)) = Literal k /\
     peel_words (unwrap_invocation_checked i) !! k = Some (LiteralWord script) /\
     n <= grank (f (invocation_unpinned positions u i) script)) \/
  (exists p m q, (p, m) ∈ invocation_files (peel_words (unwrap_invocation_checked i)) /\
     q ∈ spellings (invocation_unpinned positions u i) p /\ bites (shell_access m q)).

Lemma check_invocation_bites inner positions parse_failed u st i :
  n <= grank (check_invocation po v cwd_text inner positions parse_failed u st i).1 <->
  n <= grank st.1 \/ invocation_bites inner positions u i.
Proof.
  unfold check_invocation, invocation_bites. rewrite check_program_bites.
  fold (invocation_unpinned positions u i). set (ws := peel_words (unwrap_invocation_checked i)).
  destruct (shell_dash_c_script ws) as [|k| |]; cbn [fst]; try naive_solver.
  destruct inner as [f|]; cbn [fst]; [|naive_solver].
  destruct (ws !! k) as [[script|]|] eqn:Ek; cbn [fst]; rewrite ?combine_bites; [|naive_solver..].
  split.
  - intros [[?|?]|?]; [by left|right; left|by right; right]. exists f, k, script. by split_and!.
  - intros [?|[(f' & k' & s' & [= <-] & [= <-] & Hs & ?)|?]]; [by left; left|left; right|by right]. congruence.
Qed.

Lemma check_tree_bites inner u e cmd tree :
  n <= grank (check_tree po v cwd_text inner u e cmd tree) <->
  (exists r p q, r ∈ shell_redirect_targets (root_node tree) cmd /\ redirect_path r = Some p /\
     q ∈ spellings (u || cwd_unpinned_before (cwd_poison_positions (root_node tree) cmd) (redirect_start_byte r) (redirect_scope r)) p /\
     bites (shell_access (redirect_mode r) q)) \/
  (exists i, i ∈ shell_command_invocations (root_node tree) cmd /\
     invocation_bites inner (cwd_poison_positions (root_node tree) cmd) u i).
Proof.
  unfold check_tree. rewrite combine_bites.
  rewrite (fold_bites _ _ _ _ (check_invocation_bites inner (cwd_poison_positions (root_node tree) cmd) (has_error tree) u)).
  rewrite (fold_bites _ _ _ _ (check_redirect_bites (cwd_poison_positions (root_node tree) cmd) u)). cbn [fst].
  split.
  - intros [[[?|(r & ? & p & q & ? & ? & ?)]|?]|Hf]; [cbn in *; lia|left; exists r, p, q; by split_and!|by right|].
    match type of Hf with n <= grank (fail_closed_if ?b) => pose proof (fail_closed_low b) end. lia.
  - intros [(r & p & q & ? & ? & ? & ?)|?]; left; [left; right; exists r; split; [done|]; exists p, q; by split_and!|by right].
Qed.

Lemma file_gate_step d e u cmd :
  n <= grank (evaluate_shell_file_access_inner po v cwd_text d e u cmd) <->
  exists tree, try_parse_shell cmd = Some tree /\
    n <= grank (check_tree po v cwd_text
      (match d with O => None | S d' => Some (evaluate_shell_file_access_inner po v cwd_text d' true) end) u e cmd tree).
Proof.
  destruct d; cbn [evaluate_shell_file_access_inner]; destruct (try_parse_shell cmd) as [tree|]; try naive_solver;
    (split; [|naive_solver]); pose proof (fail_closed_low e); lia.
Qed.

Lemma file_gate_rank d e u cmd :
  n <= grank (evaluate_shell_file_access_inner po v cwd_text d e u cmd) <-> exists a, touches d u cmd a /\ bites a.
Proof.
  revert e u cmd. induction d as [|d IH]; intros e u cmd; rewrite file_gate_step; setoid_rewrite check_tree_bites;
    unfold invocation_bites; split.
  - intros (tree & Ht & [(r & p & q & ? & ? & ? & ?)|(i & ? & [(? & ? & ? & [=] & _)|(p & m & q & ? & ? & ?)])]);
      eexists; (split; [|done]); [by eapply touch_redirect|by eapply touch_operand].
  - intros (a & Ha & Hb). inversion Ha; subst; exists tree; (split; [done|]); [left|right]; naive_solver.
  - intros (tree & Ht & [(r & p & q & ? & ? & ? & ?)|(i & ? & [(f & k & script & [= <-] & ? & ? & Hr)|(p & m & q & ? & ? & ?)])]).
    + eexists. split; [by eapply touch_redirect|done].
    + apply IH in Hr as (a & ? & ?). exists a. split; [by eapply touch_inner|done].
    + eexists. split; [by eapply touch_operand|done].
  - intros (a & Ha & Hb). inversion Ha; subst; exists tree; (split; [done|]).
    + left. eauto 8.
    + right. exists i. split; [done|]. right. eauto 8.
    + right. exists i. split; [done|]. left. eexists _, k, script. split_and!; [done..|]. apply IH. eauto.
Qed.

End Touches.

(** ** The gates against the rules *)

Section Composition.
Context {PE : PolicyEnv} {SE : StrEnv}.

Lemma no_file_restriction c m q a :
  has_file_restrictions (policy_new c) = false -> a <> RuleAllow -> hits c (shell_access m q) a = false.
Proof.
  cbn. intros Hf Ha. apply not_true_iff_false. unfold hits. intros (r & Hr & Hm)%existsb_elem.
  apply not_true_iff_false in Hf. apply Hf, existsb_elem. exists r. split; [done|].
  unfold matched_by, matched in Hm. apply andb_true_iff in Hm as [[Ht _]%andb_true_iff Hact].
  apply bool_decide_eq_true in Hact. unfold restricts, for_files. apply andb_true_iff. rewrite !bool_decide_eq_true.
  destruct m, (action r), (tool r); cbn in *; naive_solver.
Qed.

(** No rule of that action matches a file that the script touches. *)
Definition files_untouched (c : PermissionConfig) (v : DiskView) (cwd_text cmd : string) (a : RuleAction) : Prop :=
  forall x, touches v cwd_text MAX_INLINE_SHELL_DEPTH false cmd x -> hits c x a = false.

Lemma touches_file v cwd_text d u cmd a : touches v cwd_text d u cmd a -> exists m q, a = shell_access m q.
Proof. induction 1; eauto. Qed.

Lemma file_rank c v cwd_text cmd k :
  2 <= k <= 3 ->
  k <= grank (evaluate_shell_file_access_gate (policy_new c) v cwd_text cmd) <->
  exists a, touches v cwd_text MAX_INLINE_SHELL_DEPTH false cmd a /\
    (hits c a RuleDeny = true \/ (k = 2 /\ hits c a RuleAsk = true)).
Proof.
  intros Hk. assert (Hn : 2 <= k) by lia. unfold evaluate_shell_file_access_gate.
  destruct (has_file_restrictions (policy_new c)) eqn:Er.
  - rewrite file_gate_rank by done. unfold bites. setoid_rewrite escalate_rank; [|lia..].
    split; intros (a & Ht & Ha); exists a; (split; [done|]); destruct (hits c a RuleDeny); intuition lia.
  - cbn [grank from_option]. split; [lia|]. intros (a & Ht & Ha).
    destruct (touches_file _ _ _ _ _ _ Ht) as (m & q & ->).
    rewrite !no_file_restriction in Ha by done. naive_solver.
Qed.

(** The gate for files: it rejects a script exactly when a deny rule matches a
    file that the script touches by a redirection or as an operand of a known
    command, in any of its spellings or behind a symbolic link, also in the
    script of an inner shell; otherwise it asks for a match of an ask rule; when
    it passes or only asks because something is unclear, no rule matches. *)
Theorem file_gate_exact c v cwd_text cmd :
  match evaluate_shell_file_access_gate (policy_new c) v cwd_text cmd with
  | Some (GateReject _) =>
      exists a, touches v cwd_text MAX_INLINE_SHELL_DEPTH false cmd a /\ hits c a RuleDeny = true
  | Some AskRuleMatch =>
      files_untouched c v cwd_text cmd RuleDeny /\
      exists a, touches v cwd_text MAX_INLINE_SHELL_DEPTH false cmd a /\ hits c a RuleAsk = true
  | Some AskFailClosed | None =>
      files_untouched c v cwd_text cmd RuleDeny /\ files_untouched c v cwd_text cmd RuleAsk
  end.
Proof.
  pose proof (file_rank c v cwd_text cmd 2 ltac:(lia)) as H2. pose proof (file_rank c v cwd_text cmd 3 ltac:(lia)) as H3.
  assert (Hd : grank (evaluate_shell_file_access_gate (policy_new c) v cwd_text cmd) < 3 -> files_untouched c v cwd_text cmd RuleDeny).
  { intros Hl a Ha. apply not_true_iff_false. intros Hh. enough (3 <= 2) by lia. etrans; [apply H3; eauto|lia]. }
  assert (Ha : grank (evaluate_shell_file_access_gate (policy_new c) v cwd_text cmd) < 2 -> files_untouched c v cwd_text cmd RuleAsk).
  { intros Hl a Ha. apply not_true_iff_false. intros Hh. enough (2 <= 1) by lia. etrans; [apply H2; eauto 6|lia]. }
  destruct (evaluate_shell_file_access_gate _ _ _ _) as [[r| |]|]; cbn [grank from_option rank] in *.
  - destruct (proj1 H3 ltac:(lia)) as (a & ? & [?|[? _]]); [eauto|lia].
  - split; [apply Hd; lia|]. destruct (proj1 H2 ltac:(lia)) as (a & Ht & [Hh|[_ ?]]); [|eauto].
    by rewrite (Hd ltac:(lia) a Ht) in Hh.
  - split; [apply Hd|apply Ha]; lia.
  - split; [apply Hd|apply Ha]; lia.
Qed.

(** *** The preflight *)

Definition drank (d : option Decision) : nat := from_option decision_rank 0 d.
Lemma combine_drank a b : drank (combine_decisions a b) = drank a `max` drank b.
Proof.
  destruct a as [a|], b as [b|]; cbn; try lia. destruct (Nat.leb_spec (decision_rank b) (decision_rank a)); cbn; lia.
Qed.
Lemma combine_decisions_some a b d : combine_decisions a b = Some d -> a = Some d \/ b = Some d.
Proof. destruct a, b; cbn; try (destruct (_ <=? _)); naive_solver. Qed.
Lemma into_rank g : drank (into_decision <$> g) = match g with Some (GateReject _) => 3 | Some _ => 2 | None => 0 end.
Proof. by destruct g as [[]|]. Qed.

Lemma gate_rank c cmd k :
  2 <= k <= 3 ->
  k <= grank (evaluate_bash_command_gate (policy_new c) cmd) <->
  exists w f, runs inner_script MAX_INLINE_SHELL_DEPTH cmd w /\ form w f /\
    (hits c (Bash f) RuleDeny = true \/ (k = 2 /\ hits c (Bash f) RuleAsk = true)).
Proof.
  intros Hk. unfold evaluate_bash_command_gate. destruct (has_bash_command_restrictions (policy_new c)) eqn:Er.
  - rewrite segments_rank by lia. setoid_rewrite escalate_rank; [|lia..]. split.
    + intros [(w & f & Hr & Hf & Ha)|[? _]]; [|lia]. exists w, f. split_and!; [done..|].
      destruct (hits c (Bash f) RuleDeny); intuition lia.
    + intros (w & f & Hr & Hf & Ha). left. exists w, f. split_and!; [done..|].
      destruct (hits c (Bash f) RuleDeny); intuition lia.
  - cbn [grank from_option]. split; [lia|]. intros (w & f & _ & _ & Ha). rewrite !no_restriction in Ha by done. naive_solver.
Qed.

Lemma direct_drank c access k :
  2 <= k <= 3 ->
  k <= drank (evaluate (policy_new c) access) <->
  hits c access RuleDeny = true \/ (k = 2 /\ hits c access RuleAsk = true).
Proof.
  intros Hk. pose proof (evaluate_verdict c access) as Hv.
  destruct (evaluate (policy_new c) access) as [[]|]; cbn [drank from_option decision_rank]; destruct_and?; try done;
    intuition (lia || congruence).
Qed.

Lemma into_grank g k : 2 <= k <= 3 -> k <= drank (into_decision <$> g) <-> (k <= grank g \/ (k = 2 /\ gate_asks g = true)).
Proof. intros Hk. rewrite into_rank. destruct g as [[]|]; cbn; intuition (lia || congruence). Qed.

(** A rule of that action matches the text of the script, a command that it runs
    or a file that it touches. *)
Definition script_hit (c : PermissionConfig) (v : DiskView) (cwd_text cmd : string) (a : RuleAction) : Prop :=
  hits c (Bash cmd) a = true \/
  (exists w f, runs inner_script MAX_INLINE_SHELL_DEPTH cmd w /\ form w f /\ hits c (Bash f) a = true) \/
  (exists x, touches v cwd_text MAX_INLINE_SHELL_DEPTH false cmd x /\ hits c x a = true).

Definition shell_preflight (c : PermissionConfig) (v : DiskView) (cwd_text cmd : string) (auto_mode : bool) : GatePreflight :=
  preflight (Some (policy_new c)) v cwd_text (Bash cmd) auto_mode.

Lemma preflight_rank3 c v cwd_text cmd auto_mode :
  3 <= drank (policy_decision (shell_preflight c v cwd_text cmd auto_mode)) <-> script_hit c v cwd_text cmd RuleDeny.
Proof.
  unfold policy_decision, shell_preflight, preflight. cbn [direct bash_command shell_file mbind option_bind].
  rewrite !combine_drank, !Nat.max_le_iff, direct_drank, !into_grank, gate_rank, file_rank by lia.
  unfold script_hit. naive_solver lia.
Qed.

Lemma preflight_source c v cwd_text cmd auto_mode d :
  policy_decision (shell_preflight c v cwd_text cmd auto_mode) = Some d ->
  (exists r, d = Reject r) \/ d = Ask \/ d = Allow.
Proof.
  unfold policy_decision, shell_preflight, preflight. cbn [direct bash_command shell_file mbind option_bind].
  intros [[Hd|Hg]%combine_decisions_some|Hg]%combine_decisions_some.
  - pose proof (evaluate_verdict c (Bash cmd)) as Hv. rewrite Hd in Hv. destruct d; naive_solver.
  - destruct (evaluate_bash_command_gate _ _) as [[]|]; naive_solver.
  - destruct (evaluate_shell_file_access_gate _ _ _ _) as [[]|]; naive_solver.
Qed.

(** Nothing is matched when none of the three says more than a reservation. *)
Lemma quiet c v cwd_text cmd a :
  drank (evaluate (policy_new c) (Bash cmd)) < 2 -> grank (evaluate_bash_command_gate (policy_new c) cmd) < 2 ->
  grank (evaluate_shell_file_access_gate (policy_new c) v cwd_text cmd) < 2 -> a <> RuleAllow ->
  ~ script_hit c v cwd_text cmd a.
Proof.
  intros Hd Hg Hf Ha Hh.
  pose proof (direct_drank c (Bash cmd) 2 ltac:(lia)) as D. pose proof (gate_rank c cmd 2 ltac:(lia)) as G.
  pose proof (file_rank c v cwd_text cmd 2 ltac:(lia)) as F.
  destruct Hh as [Hh|[(w & f & Hr & Hw & Hh)|(x & Hx & Hh)]].
  - enough (2 <= 1) by lia. etrans; [apply D|lia]. destruct a; tauto.
  - enough (2 <= 1) by lia. etrans; [apply G|lia]. exists w, f. destruct a; tauto.
  - enough (2 <= 1) by lia. etrans; [apply F|lia]. exists x. destruct a; tauto.
Qed.

(** Where the decision comes from, by its rank. *)
Lemma preflight_parts c v cwd_text cmd auto_mode :
  drank (policy_decision (shell_preflight c v cwd_text cmd auto_mode)) =
  (drank (evaluate (policy_new c) (Bash cmd)) `max` drank (into_decision <$> evaluate_bash_command_gate (policy_new c) cmd))
  `max` drank (into_decision <$> evaluate_shell_file_access_gate (policy_new c) v cwd_text cmd).
Proof.
  unfold policy_decision, shell_preflight, preflight. cbn [direct bash_command shell_file mbind option_bind].
  by rewrite !combine_drank.
Qed.

Lemma low_grank g : drank (into_decision <$> g) < 3 -> is_rule_ask g = false -> grank g < 2.
Proof. destruct g as [[]|]; cbn; try lia; done. Qed.

Lemma preflight_allow c v cwd_text cmd auto_mode :
  policy_decision (shell_preflight c v cwd_text cmd auto_mode) = Some Allow ->
  script_granted c cmd /\ forall a, a <> RuleAllow -> ~ script_hit c v cwd_text cmd a.
Proof.
  intros Hp. pose proof (preflight_parts c v cwd_text cmd auto_mode) as Hr. rewrite Hp in Hr. cbn [drank from_option decision_rank] in Hr.
  rewrite !into_rank in Hr.
  assert (Hg : evaluate_bash_command_gate (policy_new c) cmd = None).
  { destruct (evaluate_bash_command_gate _ _) as [[]|]; [lia..|done]. }
  assert (Hf : evaluate_shell_file_access_gate (policy_new c) v cwd_text cmd = None).
  { destruct (evaluate_shell_file_access_gate _ _ _ _) as [[]|]; [lia..|done]. }
  split.
  - unfold policy_decision, shell_preflight, preflight in Hp. cbn [direct bash_command shell_file mbind option_bind] in Hp.
    rewrite Hg, Hf in Hp. pose proof (evaluate_verdict c (Bash cmd)) as Hv.
    destruct (evaluate _ _) as [d|]; [|done]. cbn in Hp. injection Hp as ->. apply Hv.
  - intros a. apply quiet; rewrite ?Hg, ?Hf; cbn [grank from_option]; lia.
Qed.

Lemma preflight_deferred c v cwd_text cmd auto_mode :
  policy_decision (shell_preflight c v cwd_text cmd auto_mode) = Some Ask ->
  admits_auto_classifier (shell_preflight c v cwd_text cmd auto_mode) = true ->
  auto_mode = true /\ forall a, a <> RuleAllow -> ~ script_hit c v cwd_text cmd a.
Proof.
  intros Hp Ha. pose proof (preflight_parts c v cwd_text cmd auto_mode) as Hr.
  unfold admits_auto_classifier, policy_forced_prompt in Ha. rewrite Hp in Ha, Hr. cbn [asks negb orb] in Ha.
  cbn [drank from_option decision_rank] in Hr. unfold shell_preflight, preflight in Ha. cbn [defers_gate_ask mbind option_bind] in Ha.
  apply andb_true_iff in Ha as [[-> _]%andb_true_iff Hn]. apply negb_true_iff in Hn.
  apply orb_false_iff in Hn as [[Hd Hg]%orb_false_iff Hf]. split; [done|]. intros a. apply quiet.
  - pose proof (evaluate_verdict c (Bash cmd)) as Hv. destruct (evaluate _ _) as [[]|]; cbn in *; try lia; done.
  - apply low_grank; [lia|done].
  - apply low_grank; [lia|done].
Qed.

(** C2.  The managed decision on a shell script.  It is a rejection exactly when a
    deny rule matches the script, a command that it runs or a file that it
    touches.  If it is an allowance then every command that the script runs is
    granted by an allow rule and no deny or ask rule matches anything.  A question
    is left to the classifier of the auto mode only when no ask rule matches
    anything either, so that no model waives a rule. *)
Theorem preflight_sound c v cwd_text cmd auto_mode :
  let p := shell_preflight c v cwd_text cmd auto_mode in
  ((exists r, policy_decision p = Some (Reject r)) <-> script_hit c v cwd_text cmd RuleDeny) /\
  (policy_decision p = Some Allow ->
     script_granted c cmd /\ ~ script_hit c v cwd_text cmd RuleDeny /\ ~ script_hit c v cwd_text cmd RuleAsk) /\
  (policy_decision p = Some Ask -> admits_auto_classifier p = true ->
     auto_mode = true /\ ~ script_hit c v cwd_text cmd RuleDeny /\ ~ script_hit c v cwd_text cmd RuleAsk).
Proof.
  cbn zeta. split_and!.
  - rewrite <- (preflight_rank3 c v cwd_text cmd auto_mode). split; [intros [r ->]; cbn; lia|]. intros Hr.
    destruct (policy_decision _) as [d|] eqn:Ed; [|cbn in Hr; lia].
    destruct (preflight_source _ _ _ _ _ _ Ed) as [[r ->]|[->| ->]]; [eauto|cbn in Hr; lia..].
  - intros [? Hq]%preflight_allow. split_and!; [done|by apply Hq..].
  - intros Hp Ha. destruct (preflight_deferred _ _ _ _ _ Hp Ha) as [? Hq]. split_and!; [done|by apply Hq..].
Qed.

End Composition.
