(* ===== verification/ShellLinks.v ===== *)
(** * Symbolic links and path spellings in the file gate (ccode-workspace/src/permission/shell_access.rs)

    The gate for files checks where the symbolic links of an operand lead.  This
    file compares that resolution with the resolution of the kernel in [Fs]: the
    file that the gate looks at is the file that an access reaches.  It also
    shows that the spellings checked by the rules hold no steps upwards. *)

From S2P Require Import Prelude RustStr TextLines TextFind StdPath Fs Json Permission ShellWords ShellTree PermissionRules PermissionPolicy ShellAccess.

(** ** The kernel's walk *)

Lemma walk_err_ok links d cur p c : walk_err links d cur p = Ok c <-> Fs.walk links d cur p = Some c.
Proof.
  revert cur p. induction links as [|k IHk]; intros cur p; revert cur;
    (induction p as [|x r IH]; intros cur; [cbn; naive_solver|]); destruct x as [| | |n]; cbn; try apply IH;
    destruct (nodes d !! (cur ++ [Normal n])) as [[b| |t]|]; try apply IH; try apply IHk; try naive_solver;
    destruct r; naive_solver.
Qed.

Lemma walk_mono k k' d cur p c : Fs.walk k d cur p = Some c -> k <= k' -> Fs.walk k' d cur p = Some c.
Proof.
  revert k' cur p. induction k as [|k IHk]; intros k' cur p H Hk; revert cur H;
    (induction p as [|x r IH]; intros cur H; [by destruct k'|]);
    destruct x as [| | |n]; destruct k' as [|k']; cbn in *; try (by apply IH); try lia; try done;
    destruct (nodes d !! (cur ++ [Normal n])) as [[b| |t]|]; try done; try (by apply IH); apply IHk; [done|lia].
Qed.

(** A walk over two parts is the walk over the first, then over the second. *)
Lemma walk_app k d cur p q c :
  Fs.walk k d cur (p ++ q) = Some c -> q <> [] ->
  exists mid k', k' <= k /\ Fs.walk k d cur p = Some mid /\ Fs.walk k' d mid q = Some c.
Proof.
  intros H Hq. revert cur p H. induction k as [|k IHk]; intros cur p; revert cur;
    (induction p as [|x r IH]; intros cur H; [exists cur; eexists; split_and!; [reflexivity|done|exact H]|]);
    destruct x as [| | |n]; cbn in *; try (by apply IH); try done;
    destruct (nodes d !! (cur ++ [Normal n])) as [[b| |t]|]; try done; try (by apply IH);
    try (by destruct r, q).
  rewrite app_assoc in H. apply IHk in H as (mid & k' & ? & ? & ?). exists mid, k'. split_and!; [lia|done|done].
Qed.

Lemma walk_real_dir k d cur dir r : real_dir d dir -> Fs.walk k d cur (dir ++ r) = Fs.walk k d dir r.
Proof. intros (ns & -> & Hd). cbn [app]. rewrite walk_root. by rewrite walk_dir. Qed.

(** Following a link from its directory. *)
Lemma walk_join k d dir t cur : real_dir d dir -> Fs.walk k d cur (path_join dir t) = Fs.walk k d dir t.
Proof.
  intros Hd. unfold path_join. destruct t as [|x t]; cbn [is_absolute].
  - destruct dir; [by destruct Hd as (? & [=] & _)|]. by apply walk_real_dir.
  - destruct x; cbn [is_absolute]; [by rewrite !walk_root| | |];
      (destruct dir as [|y dir]; [by destruct Hd as (? & [=] & _)|]); rewrite walk_real_dir by done; by destruct k.
Qed.

Lemma real_directory d c : real d c -> node_at d c = Some NDir -> real_dir d c.
Proof.
  intros [?|(dir & n & b & -> & _ & Hb)] Hn; [done|]. unfold node_at in Hn. case_bool_decide as E; [|congruence].
  destruct dir as [|? []]; discriminate.
Qed.

Lemma entry_some d p e :
  real_dir d (cwd d) -> entry d p = Some e ->
  exists p0 n dir, p = p0 ++ [Normal n] /\ canonicalize d p0 = Some dir /\ real_dir d dir /\ e = dir ++ [Normal n].
Proof.
  unfold entry. intros Hc. destruct (last p) as [[| | |n]|] eqn:El; try done.
  destruct (canonicalize d (removelast p)) as [dir|] eqn:Ec; [|done].
  destruct (node_at d dir) as [[]|] eqn:En; try done. intros [= <-].
  apply last_Some in El as [p0 ->]. rewrite removelast_last in Ec. exists p0, n, dir. split_and!; try done.
  apply real_directory; [|done]. by eapply walk_real.
Qed.

(** ** Where the links lead *)

Lemma canonical_locate k d p c0 c :
  real_dir d (cwd d) -> canonicalize d p = Some c0 -> locate k d p = Some c -> c = c0.
Proof.
  intros Hcwd. revert p. induction k as [|k IH]; intros p Hc Hl; cbn [locate] in Hl;
    destruct (entry d p) as [e|] eqn:Ee; try done;
    destruct (entry_some d p e Hcwd Ee) as (p0 & n & dir & -> & Hp0 & Hdir & ->);
    apply walk_app in Hc as (mid & k' & Hk & Hm & Hw); try done;
    assert (mid = dir) as -> by (unfold canonicalize in Hp0; congruence);
    destruct k' as [|k']; cbn in Hw; destruct (nodes d !! (dir ++ [Normal n])) as [[b| |t]|]; try congruence.
  rewrite removelast_last in Hl. apply (IH (path_join dir t)); [|done].
  unfold canonicalize. rewrite walk_join by done. rewrite app_nil_r in Hw. eapply walk_mono; [done|lia].
Qed.

Lemma entry_of_real v dir n :
  real_dir (disk v) dir -> unreadable v (dir ++ [Normal n]) = false ->
  entry_of v (dir ++ [Normal n]) =
  match nodes (disk v) !! (dir ++ [Normal n]) with Some x => Ok (Some x) | None => Err NotFound end.
Proof.
  intros Hd Hu. unfold entry_of. rewrite Hu, last_snoc, removelast_last.
  assert (walk_err MAX_LINKS (disk v) (cwd (disk v)) dir = Ok dir) as ->.
  { apply walk_err_ok. apply (canonicalize_real (disk v) dir). by left. }
  assert (node_at (disk v) dir = Some NDir) as ->; [|done].
  pose proof (entry_real (disk v) dir n Hd) as He. unfold entry in He. rewrite last_snoc, removelast_last in He.
  rewrite canonicalize_real in He by by left. destruct (node_at (disk v) dir) as [[]|]; done.
Qed.

(** C15.  The place that the gate looks at is the place that the kernel goes to: if
    an access that may create the file reaches [c] and the resolution of the gate
    gives a path, then that path is [c], whatever links are on the way or at the
    end, dangling ones included. *)
Theorem resolution_is_the_kernels v p c q :
  real_dir (disk v) (cwd (disk v)) -> locate MAX_LINKS (disk v) p = Some c ->
  resolve_following_symlinks v p = Some q -> q = c.
Proof.
  intros Hcwd. unfold resolve_following_symlinks. generalize (S MAX_SYMLINK_DEPTH) as fuel, MAX_LINKS as k. intros fuel.
  revert p. induction fuel as [|fuel IH]; intros p k Hl Hr; [done|]. cbn [resolve_from] in Hr.
  destruct (canonicalize (disk v) p) as [c0|] eqn:Ec.
  { injection Hr as <-. symmetry. by eapply canonical_locate. }
  assert (He : exists e, entry (disk v) p = Some e) by (destruct k; cbn [locate] in Hl; destruct (entry _ p); eauto; done).
  destruct He as [e Ee]. destruct (entry_some _ _ _ Hcwd Ee) as (p0 & n & dir & -> & Hp0 & Hdir & ->).
  unfold parent, file_name in Hr. rewrite last_snoc, removelast_last in Hr. cbn [mbind option_bind] in Hr.
  destruct fuel as [|fuel]; [done|]. cbn [resolve_from] in Hr. rewrite Hp0 in Hr. cbn [mbind option_bind] in Hr.
  assert (Hj : path_join dir [Normal n] = dir ++ [Normal n]) by (destruct Hdir as (ns & -> & _); done).
  rewrite Hj in Hr. destruct (unreadable v (dir ++ [Normal n])) eqn:Eu.
  { unfold entry_of in Hr. rewrite Eu in Hr. done. }
  rewrite entry_of_real in Hr by done.
  destruct k as [|k]; cbn [locate] in Hl; rewrite Ee in Hl;
    destruct (nodes (disk v) !! (dir ++ [Normal n])) as [[b| |t]|]; simplify_eq; try done.
  rewrite removelast_last in Hl. by eapply IH.
Qed.

(** A link in the workspace to a system directory, and a new file behind it. *)
Definition link_disk : Disk :=
  mkDisk (<[[RootDir; Normal "w"] := NDir]> (<[[RootDir; Normal "etc"] := NDir]>
    (<[[RootDir; Normal "w"; Normal "x"] := NLink [ParentDir; Normal "etc"]]> ∅))) [RootDir; Normal "w"].
Definition link_view : DiskView := mkView link_disk (fun _ => false).
Lemma resolution_is_the_kernels_witness :
  locate MAX_LINKS link_disk (components "x/passwd") = Some (components "/etc/passwd") /\
  default [] (resolve_following_symlinks link_view (components "x/passwd")) = components "/etc/passwd".
Proof.
  split; [by vm_compute|].
  apply (resolution_is_the_kernels link_view (components "x/passwd")).
  - exists ["w"]. split; [done|]. intros k Hk. assert (k = 1) as -> by (cbn in Hk; lia). by vm_compute.
  - by vm_compute.
  - by vm_compute.
Defined.

(** ** Spellings hold no step upwards *)

(** A name of a path. *)
Definition proper (s : string) : Prop := s <> "" /\ s <> "." /\ s <> ".." /\ has_char "/"%char s = false.

Lemma collapse_proper out segs :
  Forall proper out -> Forall (fun s => has_char "/"%char s = false) segs -> Forall proper (collapse true out segs).
Proof.
  revert out. induction segs as [|s segs IH]; intros out Ho Hs; cbn [collapse].
  - apply Forall_forall. intros x Hx%list_elem_of_In%in_rev%list_elem_of_In. rewrite Forall_forall in Ho. auto.
  - apply Forall_cons in Hs as [Hs Hr]. repeat case_bool_decide; try (by apply IH).
    + destruct out as [|top out]; [by apply IH|]. case_bool_decide; apply IH; auto. by apply Forall_cons in Ho as [_ ?].
    + apply IH; [|done]. constructor; [|done]. unfold proper. naive_solver.
Qed.

Lemma split_join c l : l <> [] -> Forall (fun s => has_char c s = false) l -> split_char c (join_char c l) = l.
Proof.
  intros Hl Hf. induction Hf as [|x l Hx Hf IH]; [done|]. destruct l as [|y l]; cbn [join_char].
  - by apply split_char_none.
  - rewrite split_char_app by done. f_equal. by apply IH.
Qed.

Lemma parse_proper s : proper s -> parse_segment s = Some (Normal s).
Proof. intros (? & ? & ? & _). unfold parse_segment. by rewrite !bool_decide_eq_false_2. Qed.

Lemma parse_proper_all l : Forall proper l -> omap parse_segment l = Normal <$> l.
Proof. induction 1 as [|s l Hs _ IH]; [done|]. cbn. by rewrite parse_proper, IH. Qed.

Lemma components_joined l : Forall proper l -> components ("/" +:+ join_char "/" l) = RootDir :: (Normal <$> l).
Proof.
  intros Hl. unfold components. change ("/" +:+ join_char "/" l) with ("" +:+ String "/" (join_char "/" l)).
  rewrite split_char_app by done. rewrite bool_decide_eq_true_2 by done.
  destruct l as [|s l]; [done|].
  assert (Hne : split_char "/" (join_char "/" (s :: l)) = s :: l).
  { apply split_join; [done|]. eapply Forall_impl; [exact Hl|]. intros x (_ & _ & _ & ?). done. }
  rewrite Hne. by rewrite parse_proper_all.
Qed.

(** The two normalisations, of texts and of paths, step by step. *)
Lemma collapse_lexical out segs :
  Forall proper out -> Forall (fun s => has_char "/"%char s = false) segs ->
  RootDir :: (Normal <$> collapse true out segs) = lexical_from ((Normal <$> out) ++ [RootDir]) (omap parse_segment segs).
Proof.
  revert out. induction segs as [|s segs IH]; intros out Ho Hs; cbn [collapse omap list_omap lexical_from].
  - rewrite rev_app_distr. cbn [rev app]. f_equal. by rewrite <- map_rev.
  - apply Forall_cons in Hs as [Hs Hr]. unfold parse_segment at 1.
    destruct (decide (s = "")) as [->|He]; [by rewrite !bool_decide_eq_true_2, IH by tauto|].
    destruct (decide (s = ".")) as [->|Hd]; [by rewrite !bool_decide_eq_true_2, IH by tauto|].
    rewrite (bool_decide_eq_false_2 (s = "" \/ s = ".")), (bool_decide_eq_false_2 (s = "")), (bool_decide_eq_false_2 (s = ".")) by tauto.
    cbn [orb]. case_bool_decide as Hp.
    + cbn [lexical_from]. destruct out as [|top out]; [by rewrite IH|]. apply Forall_cons in Ho as [Ht Ho].
      rewrite bool_decide_eq_true_2 by apply Ht. cbn [fmap list_fmap app]. by rewrite IH.
    + cbn [lexical_from]. rewrite IH; [done| |done]. constructor; [|done]. unfold proper. tauto.
Qed.

(** The text that the rules see of an absolute path is the path itself with
    its steps upwards taken: it starts at the root, names every component once,
    holds no empty, [.] or [..] component, and reads as the normal form of the
    path. *)
Theorem lexical_normalize_exact p :
  starts_with "/" p = true -> second_is_colon p = false ->
  exists segs, lexical_normalize p = "/" +:+ join_char "/" segs /\ Forall proper segs /\
    components (lexical_normalize p) = normalize_lexically (components p).
Proof.
  intros Hs Hc. unfold lexical_normalize. rewrite Hc. cbn [str_take str_drop]. rewrite Hs, str_app_nil_l.
  assert (Hseg : Forall (fun s => has_char "/"%char s = false) (split_char "/" p)) by apply split_char_segments.
  exists (collapse true [] (split_char "/" p)). assert (Hp := collapse_proper [] _ (Forall_nil_2 _) Hseg).
  split_and!; [done|done|]. rewrite components_joined by done.
  assert (Hl := collapse_lexical [] _ (Forall_nil_2 _) Hseg). cbn [fmap list_fmap app] in Hl. rewrite Hl.
  unfold normalize_lexically, components. apply starts_with_spec in Hs as [r ->].
  change ("/" +:+ r) with ("" +:+ String "/" r). rewrite split_char_app by done. rewrite bool_decide_eq_true_2 by done.
  cbn [omap list_omap]. pose proof (split_char_not_nil "/" r).
  destruct (split_char "/" r) as [|x l] eqn:E; [done|]. cbn [lexical_from].
  rewrite <- E in *. clear E.
  change (parse_segment "") with (@None Component). cbn iota.
  assert (Hne : lexical_from [RootDir] (omap parse_segment (split_char "/" r)) <> []).
  { change [RootDir] with ((Normal <$> []) ++ [RootDir]). rewrite <- collapse_lexical; [done|done|].
    apply split_char_segments. }
  destruct (lexical_from [RootDir] _); done.
Qed.
Lemma lexical_normalize_exact_witness :
  exists segs, lexical_normalize "/w/./a/../../etc//passwd" = "/" +:+ join_char "/" segs /\ Forall proper segs /\
    components (lexical_normalize "/w/./a/../../etc//passwd") = normalize_lexically (components "/w/./a/../../etc//passwd").
Proof. apply (lexical_normalize_exact "/w/./a/../../etc//passwd"); by vm_compute. Defined.
